(* ===== verification/_CoqProject ===== *)
-Q . S2P
Prelude.v
NumpyArrays.v
BlockQueue.v
Request.v
HashKeys.v
BlockPool.v
CacheSpec.v
SingleType.v
Coordinator.v
CacheManager.v
CacheConfig.v
Startup.v
EncoderCache.v
RequestQueue.v
Scheduler.v
SchedulerFacts.v
EngineCore.v
SchedulerCases.v
NgramProposer.v
BlockTable.v
InputBatch.v
InputBatchFacts.v
BatchSteps.v
ModelRunner.v
BatchReorder.v
ModelRunnerFacts.v
RunnerSteps.v
RunnerInputs.v
RabitqOps.v
RabitqQuant.v
RabitqBackend.v
PyTensor.v
PyRabitq.v
PyRabitqFacts.v
PySelectors.v
PyAttention.v
PyAttentionFacts.v
SamplerOps.v
LogitsProcessors.v
Sampler.v
RejectionSampler.v
Speculation.v
