(* ===== verification/Prelude.v ===== *)
(** * RaBitQCache: the serving engine's cache and scheduler, and the RaBitQ sparse attention

    RaBitQCache selects, at every decode step, the cached tokens that attention reads, by one-bit codes of the keys.  The
    repository holds it twice: as a backend of a fork of vLLM, [src/RabitQCache-Efficiency/vllm], and as a PyTorch
    library that replaces the attention of a Llama model, [src/rabitqcache].  This library models the part of the fork that
    decides which tokens are cached where, which requests run, what the worker gives the model, and what the RaBitQ
    backend keeps and selects, and the selectors of the PyTorch library.  Below, [v1/] stands for
    [src/RabitQCache-Efficiency/vllm/vllm/v1/].

    ** How the parts interact

    A request is added to the engine core, which hands it to the scheduler's waiting queue.  A step of the engine core
    asks the scheduler which tokens of which requests to compute, executes the model, and updates the requests with the
    sampled tokens.  The scheduler asks the encoder cache manager for room for images and the KV cache manager for slots;
    that one works through a coordinator, which has one manager per group of layers, all over one block pool; the pool
    keeps the free blocks in a linked queue and full blocks in a dictionary of block hashes.  At start-up the planner
    turns the memory of the workers and the specs of the layers into the number of blocks and the groups.  The worker
    keeps a cached state per request and a persistent batch, a row per scheduled request.  The scheduler's output names new
    requests in full and running ones by what changed ([StepInput]): the model runner removes, adds and condenses rows
    accordingly, builds the token ids, positions and slots of the step from them.  The update of the batch also goes to the
    logits processors, which keep their state by row.  The sampler turns the logits of the model into tokens, and the
    rejection sampler checks draft tokens against them; the runner records the tokens in the batch and the cached states, they
    go back to the scheduler, and the n-gram proposer may add drafts to the next step.  In the model, each attention layer of the RaBitQ backend keeps codes of the keys of each request and builds the mask of a decode
    step from them with Triton kernels.

    ** Files

    - Prelude: Python outcomes and exceptions, a state monad with exceptions [M S A] and its weakest precondition [wp]
      with the tactics [wp_step] and [wp_steps], rounded-up division, occurrence counts.
    - BlockQueue ([v1/core/kv_cache_utils.py]): block objects in a store, the doubly linked free queue.  State
      [QState]; refines a list.
    - Request ([v1/request.py]), HashKeys ([v1/core/kv_cache_utils.py]): requests and the chained hashes of their blocks.
    - BlockPool ([v1/core/block_pool.py]): state [PoolState]; every method against the abstraction [pool_repr].
    - CacheSpec ([v1/kv_cache_interface.py]), CacheConfig ([v1/core/kv_cache_utils.py] and
      [GPUModelRunner.get_kv_cache_spec]), Startup: specs of layers, the planner, and the planner against the allocator.
    - SingleType ([v1/core/single_type_kv_cache_manager.py]), Coordinator ([v1/core/kv_cache_coordinator.py]),
      CacheManager ([v1/core/kv_cache_manager.py]): the managers of one group, of all groups, and the scheduler's view.
    - EncoderCache ([v1/core/encoder_cache_manager.py] and the two scheduler methods that drive it).
    - RequestQueue ([v1/core/sched/request_queue.py]): both queues, the priority queue over a written-out [heapq].
    - Scheduler ([v1/core/sched/scheduler.py], [utils.py], [async_scheduler.py]): [schedule], [update_from_output] and the
      calls around them, over the interface [SchedResources] of the two cache managers.
    - SchedulerFacts, EngineCore ([v1/engine/core.py]), SchedulerCases: the scheduler's invariants against the laws
      [SchedResourceLaws], the engine loop as a step relation, and what requests meet in it.
    - NumpyArrays: reads, stores and slices of the worker's arrays, [cumsum], [repeat].
    - NgramProposer ([v1/spec_decode/ngram_proposer.py]): the compiled search for an n-gram that occurred before.
    - BlockTable ([v1/worker/block_table.py]): rows of block ids per group, state [BlockTable]; slot mappings.
    - InputBatch ([v1/worker/gpu_input_batch.py], [v1/sample/logits_processor]): the persistent batch, state [InputBatch],
      and the builder of batch updates; InputBatchFacts: each operation in terms of what a request's row shows
      ([req_view]); BatchSteps: a whole round of removals, additions, condensing and swaps.
    - ModelRunner ([v1/worker/gpu_model_runner.py], [v1/attention/backends/utils.py]): state [GPUModelRunner],
      [update_states], [prepare_inputs], [bookkeeping_sync], the reordering of the batch.  BatchReorder and
      ModelRunnerFacts hold their lemmas; RunnerSteps the theorems of a step and of all runs; RunnerInputs those of the
      inputs of the model, and three runs in which a request loses data.
    - RabitqOps ([v1/attention/backends/rabitq_ops.py]): the integer Triton kernels; a launch is the set of interleavings
      of its programs.
    - RabitqQuant, RabitqBackend ([v1/attention/backends/rabitq.py]): quantization arithmetic over an interface of
      scalars, and the state of a layer through prefill and decode.
    - PyTensor: slices, gathers and scatters of Python and torch, and the operators of torch the library relies on, as the
      interface [TorchOps] with its documented behaviour [TorchLaws].
    - PyRabitq ([rabitqcache/pyimpl/rabitq.py], [rabitq_no_center.py]): state [RabitQState], training, quantization and the
      selectors, and the invariant of runs; PyRabitqFacts: what follows for the masks, the top-p choice, the estimate.
    - PySelectors ([streaming_llm.py], [top_k.py], [quest.py], [sparq.py], [double_sparse.py], [quantize.py] and the pruners):
      the other selectors, row by row.
    - PyAttention ([attention.py], [state.py], [tidal_decode.py], [snap_kv.py]): the configuration, the statistics and a
      step of the attention, state [PyLib]; PyAttentionFacts: its theorems.
    - SamplerOps ([v1/sample/ops/topk_topp_sampler.py], [bad_words.py], [penalties.py], [model_executor/layers/utils.py]): filters
      and penalties of logits, which are scalars or minus infinity; [exp] and sorting are the interface [SampleOps] with the
      laws [SampleLaws].
    - LogitsProcessors ([v1/sample/logits_processor/builtin.py]): min-p, logit bias and min-tokens, their states through the
      updates of the batch, and their application.
    - Sampler ([v1/sample/sampler.py]): [process_logits] and [sample] over the metadata of a batch; [stage] says that logits
      keep their shape and what is masked.
    - RejectionSampler ([v1/sample/rejection_sampler.py], [GPUModelRunner._sample]): the kernels of speculative decoding as
      programs of loads and stores on a [Device] that may order them as it likes; Speculation: what a request gets, as the
      relation [speculated].

    A record field, a constructor or a definition has the name of the attribute, enum member or method it stands for;
    where two files need the same name, the file's name comes first.

    ** What the theorems show

    The cache: free blocks are exactly the unreferenced ones and every reference is one block table entry, through every
    operation and across groups; allocation either gives slots for all tokens or changes nothing; prefix-cache hits are
    the longest the code's search can find and stand for equal prefixes when hashes do not collide.
    The planner: configurations fit the memory, and the maximum model length is the largest that fits.
    The scheduler: token and sequence budgets hold, known requests are exactly those in the two queues, service order is
    arrival order or priority order, requests end exactly where their stopping rule says.
    The worker: after each update the batch shows exactly the scheduled requests, each as its cached state, in every
    worker that steps reach and without an exception; the dictionaries of logits processors follow the requests to their
    new rows; the inputs of the model are the scheduled tokens with their positions and slots, and no two tokens of a batch
    share a slot; draft tokens are verified at the right positions.  The proposer's search never leaves its arrays and
    returns what follows the earliest occurrence of the longest n-gram that ends the context.
    Sampling: the state of each logits processor is that of the requests in their rows after any update; top-k and top-p keep
    exactly the tokens their definitions say; a batch of any mix of requests gets a token each, never a forbidden one, and
    the greedy one where that is asked for.  With draft tokens the accepted ones are followed by exactly one more, each
    the greedy or a possible token of its place, for every interleaving of the kernels.
    The RaBitQ backend: metadata rows of a layer stand for the tokens computed so far, masks contain exactly the tokens the
    method prescribes, the packed binary product is the integer product, the score's four terms are one inner product.
    The PyTorch library: the same for its own bookkeeping, in every run over any number of layers; the top-p choice stays
    within its mass, the estimate is the inner product up to the error of one term, Quest's estimates bound the products
    they stand for, a decode step masks what it records, and without selection it is full attention.
    Some theorems describe a behaviour that the code's comments or tests do not intend; each is a lemma about a concrete or
    general run of the definitions.

    ** Bounds and fuel

    Loops are structural recursions or folds where the code's loop is one.  The others have fuel, and what the fuel is
    enough for is part of the theorems: following the links of the free queue (the number of blocks), hashing a request
    block by block (its tokens), evicting encoder entries (the freeable ones), sifting a heap (its length), the search
    for the model length (the width of the interval), cutting a list into slices (its length), comparing nested values
    (their depth), the loops of [schedule] over the running and the waiting list (their lengths: a turn consumes an entry)
    and the preemption loop (the running list: a turn removes an entry), the search of the proposer (twice the tokens: every
    turn advances or shortens the match), condensing (the removed rows) and the swaps of the reordering (the rows).
    Python integers are unbounded and are [Z]; packed words of 32 bits are integers with their wrap-around written out.

    ** Not modelled

    Tensors' rounding and dtypes (scalars are an interface, theorems on values are for exact arithmetic), the outputs of
    attention, CUDA and C++ operators and FlashInfer (arguments), the metadata builder and CUDA graphs of the backends, of the
    worker the copies on the device and the making of the sampling metadata (what the samplers need of it is the hypothesis
    [metadata_ok]), custom logits processors, the CUDA kernel of the repetition penalty, random number generators (their numbers
    are arguments, and no theorem is about distributions), draft networks, M-RoPE positions, encoders and pooling
    (the theorem about inputs is for synchronous scheduling; the asynchronous path of [_prepare_input_ids] is a definition
    only), the KV connector, grammars and structured output, log probabilities and statistics, the grouping of outputs by
    client, the message queues and processes of the engine front and workers, configuration and entry points, model definitions,
    kernels of other backends, the older v0 engine, benchmarks and tests. *)
From stdpp Require Import base gmap sets list strings fin_maps functions.
From Stdlib Require Import ZArith Lia.

Declare Scope py_scope.
Delimit Scope py_scope with py.

(** * Python outcomes *)

(** The exceptions the modelled code raises, by class name. *)
Inductive pyexc : Set :=
| AssertionError | ValueError | RuntimeError | IndexError | KeyError
| TypeError | AttributeError | NotImplementedError | NameError
| ZeroDivisionError | OverflowError.

#[global] Instance pyexc_eq_dec : EqDecision pyexc.
Proof. solve_decision. Defined.

(** A call returns a value or raises. *)
Inductive outcome (A : Type) : Type :=
| Ok (a : A)
| Raise (e : pyexc).
Arguments Ok {A} a.
Arguments Raise {A} e.

#[global] Instance outcome_ret : MRet outcome := fun _ a => Ok a.
#[global] Instance outcome_bind : MBind outcome := fun _ _ k m =>
  match m with Ok a => k a | Raise e => Raise e end.

Definition assert_ (b : bool) : outcome unit := if b then Ok tt else Raise AssertionError.

Lemma bind_Ok {A B} (m : outcome A) (k : A -> outcome B) b :
  (m ≫= k) = Ok b <-> exists a, m = Ok a /\ k a = Ok b.
Proof. destruct m as [a|e]; cbn; naive_solver. Qed.

Lemma assert_Ok b u : assert_ b = Ok u <-> b = true.
Proof. destruct u, b; cbn; naive_solver. Qed.

Definition is_Ok {A} (o : outcome A) : Prop := match o with Ok _ => True | Raise _ => False end.

(** ** Stateful code

    A method call maps the state before to its outcome and the state after; the
    mutations made before an exception stay, as in Python. *)
Definition M (S A : Type) : Type := S -> outcome A * S.

#[global] Instance M_ret {S} : MRet (M S) := fun _ a s => (Ok a, s).
#[global] Instance M_bind {S} : MBind (M S) := fun _ _ k m s =>
  match m s with
  | (Ok a, s') => k a s'
  | (Raise e, s') => (Raise e, s')
  end.

Section primitives.
Context {S : Type}.

Definition get : M S S := fun s => (Ok s, s).
Definition gets {A} (f : S -> A) : M S A := fun s => (Ok (f s), s).
Definition modify (f : S -> S) : M S unit := fun s => (Ok tt, f s).
Definition raise {A} (e : pyexc) : M S A := fun s => (Raise e, s).
Definition assertM (b : bool) : M S unit := if b then mret tt else raise AssertionError.
Definition lift_out {A} (o : outcome A) : M S A := fun s => (o, s).

(** Attribute access through a reference that may be [None]. *)
Definition deref {A} (o : option A) : M S A :=
  match o with Some a => mret a | None => raise AttributeError end.

(** [for x in l: f x]. *)
Fixpoint forM {A} (l : list A) (f : A -> M S unit) : M S unit :=
  match l with
  | [] => mret tt
  | x :: l' => f x ;; forM l' f
  end.

(** A loop with an accumulator, in list order. *)
Fixpoint foldM {A B} (l : list A) (b : B) (f : B -> A -> M S B) : M S B :=
  match l with
  | [] => mret b
  | x :: l' => b' ← f b x; foldM l' b' f
  end.
End primitives.

(** Running code of one component on the part of a larger state that it owns. *)
Definition zoom {S T A} (getT : S -> T) (setT : T -> S -> S) (m : M T A) : M S A :=
  fun s => let '(o, t) := m (getT s) in (o, setT t s).

(** ** Weakest preconditions

    [wp m Q E s]: run on [s], the code [m] terminates normally with a value and state in
    [Q] or raises with an exception and state in [E]. *)
Definition wp {S A} (m : M S A) (Q : A -> S -> Prop) (E : pyexc -> S -> Prop) (s : S) : Prop :=
  match m s with
  | (Ok a, s') => Q a s'
  | (Raise e, s') => E e s'
  end.

(** No exception is allowed. *)
Definition noexc {S} : pyexc -> S -> Prop := fun _ _ => False.
Definition any_exc {S} : pyexc -> S -> Prop := fun _ _ => True.

Section wp_rules.
Context {S : Type}.
Implicit Types (s : S).

Lemma wp_ret {A} (a : A) Q E s : Q a s -> wp (mret a) Q E s.
Proof. done. Qed.

Lemma wp_bind {A B} (m : M S A) (k : A -> M S B) Q E s :
  wp m (fun a => wp (k a) Q E) E s -> wp (m ≫= k) Q E s.
Proof. unfold wp, mbind, M_bind. by destruct (m s) as [[a|e] s']. Qed.

Lemma wp_mono {A} (m : M S A) (Q Q' : A -> S -> Prop) (E E' : pyexc -> S -> Prop) s :
  wp m Q E s -> (forall a s', Q a s' -> Q' a s') -> (forall e s', E e s' -> E' e s') ->
  wp m Q' E' s.
Proof. unfold wp. destruct (m s) as [[a|e] s']; eauto. Qed.

Lemma wp_get (Q : S -> S -> Prop) E s : Q s s -> wp get Q E s.
Proof. done. Qed.

Lemma wp_gets {A} (f : S -> A) Q E s : Q (f s) s -> wp (gets f) Q E s.
Proof. done. Qed.

Lemma wp_modify (f : S -> S) Q E s : Q tt (f s) -> wp (modify f) Q E s.
Proof. done. Qed.

Lemma wp_raise {A} e (Q : A -> S -> Prop) E s : E e s -> wp (raise e) Q E s.
Proof. done. Qed.

Lemma wp_assertM (b : bool) Q E s :
  b = true -> Q tt s -> wp (assertM b) Q E s.
Proof. by intros ->. Qed.

Lemma wp_deref {A} (a : A) Q E s : Q a s -> wp (deref (Some a)) Q E s.
Proof. done. Qed.

(** A loop that keeps an invariant indexed by the elements still to process. *)
Lemma wp_forM {A} (f : A -> M S unit) (I : list A -> S -> Prop) E l s :
  I l s ->
  (forall x l' s', I (x :: l') s' -> wp (f x) (fun _ => I l') E s') ->
  wp (forM l f) (fun _ => I []) E s.
Proof.
  intros HI Hf. induction l as [|x l IH] in s, HI |- *; simpl; [done|].
  apply wp_bind. eapply wp_mono; [by apply Hf| |done]. intros [] s' ?. by apply IH.
Qed.

Lemma wp_foldM {A B} (f : B -> A -> M S B) (I : B -> list A -> S -> Prop) E l b s :
  I b l s ->
  (forall b x l' s', I b (x :: l') s' -> wp (f b x) (fun b' => I b' l') E s') ->
  wp (foldM l b f) (fun b' => I b' []) E s.
Proof.
  intros HI Hf. induction l as [|x l IH] in s, b, HI |- *; simpl; [done|].
  apply wp_bind. eapply wp_mono; [by apply Hf| |done]. intros b' s' ?. by apply IH.
Qed.

Lemma wp_zoom {T A} (getT : S -> T) (setT : T -> S -> S) (m : M T A) Q E s :
  wp m (fun a t => Q a (setT t s)) (fun e t => E e (setT t s)) (getT s) ->
  wp (zoom getT setT m) Q E s.
Proof. unfold wp, zoom. by destruct (m (getT s)) as [[a|e] t]. Qed.

(** From a specification to the run it describes. *)
Lemma wp_noexc_run {A} (m : M S A) Q s :
  wp m Q noexc s -> exists a s', m s = (Ok a, s') /\ Q a s'.
Proof. unfold wp. destruct (m s) as [[a|e] s'] eqn:?; [eauto|done]. Qed.

Lemma wp_run_ok {A} (m : M S A) Q E s a s' :
  wp m Q E s -> m s = (Ok a, s') -> Q a s'.
Proof. unfold wp. intros H Hm. by rewrite Hm in H. Qed.

Lemma wp_lift {A} (o : outcome A) a (Q : A -> S -> Prop) E s : o = Ok a -> Q a s -> wp (lift_out o) Q E s.
Proof. by intros ->. Qed.

Lemma wp_lift_any {A} (o : outcome A) (Q : A -> S -> Prop) (E : pyexc -> S -> Prop) s :
  (forall a, o = Ok a -> Q a s) -> (forall e, E e s) -> wp (lift_out o) Q E s.
Proof. intros HQ HE. destruct o; cbn; auto. Qed.

Lemma wp_any {A} (m : M S A) (Q : A -> S -> Prop) (E : pyexc -> S -> Prop) s : (forall a s', Q a s') -> (forall e s', E e s') -> wp m Q E s.
Proof. intros HQ HE. unfold wp. destruct (m s) as [[a|e] s']; auto. Qed.

Lemma run_wp {A} (m : M S A) (Q : A -> S -> Prop) E s a s' :
  m s = (Ok a, s') -> Q a s' -> wp m Q E s.
Proof. unfold wp. by intros ->. Qed.
End wp_rules.

Create HintDb pywp.
#[export] Hint Resolve wp_ret wp_get wp_gets wp_modify wp_raise wp_deref : pywp.

(** One step of symbolic execution. *)
Ltac wp_step :=
  lazymatch goal with
  | |- wp (mbind _ _) _ _ _ => apply wp_bind
  | |- wp (mret _) _ _ _ => apply wp_ret
  | |- wp get _ _ _ => apply wp_get
  | |- wp (gets _) _ _ _ => apply wp_gets
  | |- wp (modify _) _ _ _ => apply wp_modify
  | |- wp (raise _) _ _ _ => apply wp_raise
  | |- wp (deref (Some _)) _ _ _ => apply wp_deref
  | |- wp (assertM true) _ _ _ => apply wp_assertM; [reflexivity|]
  end; cbn beta.
Ltac wp_steps := repeat wp_step.

(** * Integers *)

(** [vllm.utils.cdiv]: [-(a // -b)], Python's floor division. *)
Definition cdiv (a b : Z) : Z := (- (a / - b))%Z.

Lemma cdiv_spec a b : (0 < b)%Z -> (cdiv a b * b - b < a <= cdiv a b * b)%Z.
Proof.
  intros Hb. unfold cdiv.
  pose proof (Z.div_mod a (-b) ltac:(lia)).
  pose proof (Z.mod_neg_bound a (-b) ltac:(lia)). nia.
Qed.

Lemma cdiv_le_iff a b k : (0 < b)%Z -> (cdiv a b <= k <-> a <= k * b)%Z.
Proof. intros Hb. pose proof (cdiv_spec a b Hb). nia. Qed.

Lemma cdiv_nonneg a b : (0 < b)%Z -> (0 <= a)%Z -> (0 <= cdiv a b)%Z.
Proof. intros Hb. pose proof (cdiv_spec a b Hb). nia. Qed.

Lemma cdiv_mono a a' b : (0 < b)%Z -> (a <= a')%Z -> (cdiv a b <= cdiv a' b)%Z.
Proof. intros Hb ?. apply cdiv_le_iff; [done|]. pose proof (cdiv_spec a' b Hb). lia. Qed.

(** * Lists *)

Lemma filter_all {A} (P : A -> Prop) `{forall x, Decision (P x)} (l : list A) :
  (forall x, x ∈ l -> P x) -> filter P l = l.
Proof.
  induction l as [|x l IH]; intros HP; [done|].
  rewrite filter_cons_True by (apply HP; by left). f_equal. apply IH. intros y Hy. apply HP. by right.
Qed.

(** The number of occurrences of an element. *)
Fixpoint occ {A} `{EqDecision A} (x : A) (l : list A) : nat :=
  match l with
  | [] => 0
  | y :: l' => (if decide (x = y) then 1 else 0) + occ x l'
  end.

Section occ.
Context {A : Type} `{EqDecision A}.
Implicit Types (x y : A) (l : list A).

Lemma occ_app x l1 l2 : occ x (l1 ++ l2) = occ x l1 + occ x l2.
Proof. induction l1; simpl; lia. Qed.

Lemma occ_zero x l : occ x l = 0 <-> x ∉ l.
Proof.
  induction l as [|y l IH]; simpl; [by split; [set_solver|]|].
  rewrite elem_of_cons. case_decide; subst; split; naive_solver lia.
Qed.

Lemma occ_not_in x l : x ∉ l -> occ x l = 0.
Proof. apply occ_zero. Qed.

Lemma occ_pos x l : x ∈ l -> 0 < occ x l.
Proof. intros H. destruct (occ x l) eqn:E; [|lia]. by apply occ_zero in E. Qed.

Lemma occ_nodup x l : NoDup l -> x ∈ l -> occ x l = 1.
Proof.
  induction 1 as [|y l Hy _ IH]; [by rewrite elem_of_nil|]. intros Hx. simpl.
  destruct (decide (x = y)) as [->|]; [by rewrite occ_not_in|]. apply IH. set_solver.
Qed.

Lemma occ_nodup_le x l : NoDup l -> occ x l <= 1.
Proof.
  intros Hl. destruct (decide (x ∈ l)); [by rewrite occ_nodup|rewrite occ_not_in by done; lia].
Qed.

Lemma occ_perm x l l' : l ≡ₚ l' -> occ x l = occ x l'.
Proof. induction 1; simpl; lia. Qed.

Lemma occ_reverse x l : occ x (reverse l) = occ x l.
Proof. apply occ_perm, reverse_Permutation. Qed.

Lemma occ_le_sublist x l l' : l `sublist_of` l' -> occ x l <= occ x l'.
Proof. induction 1; simpl; lia. Qed.

Lemma nodup_occ l : (forall x, x ∈ l -> occ x l <= 1) -> NoDup l.
Proof.
  induction l as [|y l IH]; intros H; constructor.
  - intros Hy%occ_pos. specialize (H y ltac:(by left)). simpl in H. rewrite decide_True in H by done. lia.
  - apply IH. intros x Hx. specialize (H x ltac:(by right)). simpl in H. lia.
Qed.
End occ.

Lemma filter_ext_in {A} (P Q : A -> Prop) `{forall x, Decision (P x)} `{forall x, Decision (Q x)}
    (l : list A) :
  (forall x, x ∈ l -> P x <-> Q x) -> filter P l = filter Q l.
Proof.
  induction l as [|x l IH]; intros HPQ; [done|]. rewrite !filter_cons.
  pose proof (HPQ x ltac:(by left)). rewrite IH by (intros; apply HPQ; by right).
  repeat case_decide; tauto.
Qed.

(** The state after a run, named by projection. *)
Lemma run_fst {S A} (m : M S A) s o : (m s).1 = o -> m s = (o, (m s).2).
Proof. intros <-. apply surjective_pairing. Qed.
