(* ===== verification/NumpyArrays.v ===== *)
(** Arrays as the worker uses them, of numpy and of torch: reads and stores by index, slice assignment, [cumsum],
    [repeat], and the flat position of an element of a batch of rows.

    Reads return or raise; code compiled without bounds checks has the same definitions, and its theorems show that
    nothing raises. *)
From stdpp Require Import base list.
From Stdlib Require Import ZArith Lia.
From S2P Require Import Prelude.
Open Scope nat_scope.

(** [a[i]] for a natural number. *)
Definition at_index {A} (l : list A) (i : nat) : outcome A :=
  match l !! i with Some x => Ok x | None => Raise IndexError end.

(** [a[i] = x]. *)
Definition store_at {A} (l : list A) (i : nat) (x : A) : outcome (list A) :=
  if i <? length l then Ok (<[i := x]> l) else Raise IndexError.

(** [a[i]] for an integer: a negative one counts from the end. *)
Definition index_at {A} (l : list A) (i : Z) : outcome A :=
  let i := if (i <? 0)%Z then (i + Z.of_nat (length l))%Z else i in
  if (i <? 0)%Z then Raise IndexError else at_index l (Z.to_nat i).

(** [a[idx]] for an array of indices. *)
Definition take_at {A} (l : list A) (idx : list Z) : outcome (list A) := mapM (index_at l) idx.

(** [a[start:stop] = vals]: the bounds are clamped, one value is broadcast, another length raises. *)
Definition assign_range {A} (l : list A) (start stop : nat) (vals : list A) : outcome (list A) :=
  let a := Nat.min start (length l) in
  let b := Nat.max a (Nat.min stop (length l)) in
  if length vals =? b - a then Ok (take a l ++ vals ++ drop b l)
  else match vals with
       | [v] => Ok (take a l ++ replicate (b - a) v ++ drop b l)
       | _ => Raise ValueError
       end.

(** The value of an integer stored in 32 bits. *)
Definition wrap32 (z : Z) : Z := ((z + 2 ^ 31) mod 2 ^ 32 - 2 ^ 31)%Z.

(** [np.cumsum], from a start value. *)
Fixpoint cumsum_from (acc : Z) (l : list Z) : list Z :=
  match l with
  | [] => []
  | x :: l => (acc + x)%Z :: cumsum_from (acc + x) l
  end.
Definition cumsum (l : list Z) : list Z := cumsum_from 0 l.

(** [np.repeat(values, counts)] for as many values as counts, none negative. *)
Definition repeat_each {A} (values : list A) (counts : list Z) : list A :=
  concat (zip_with (fun v n => replicate (Z.to_nat n) v) values counts).

(** The counts of a batch as integers. *)
Abbreviation counts ns := (Z.of_nat <$> (ns : list nat)).

(** * Reads *)

Lemma at_index_ok {A} (l : list A) i x : l !! i = Some x -> at_index l i = Ok x.
Proof. unfold at_index. by intros ->. Qed.

Lemma index_at_ok {A} (l : list A) (i : Z) x : (0 <= i)%Z -> l !! Z.to_nat i = Some x -> index_at l i = Ok x.
Proof. intros Hi Hx. unfold index_at. rewrite !(proj2 (Z.ltb_ge i 0)) by done. by apply at_index_ok. Qed.

Lemma index_at_nat {A} (l : list A) (i : nat) x : l !! i = Some x -> index_at l (Z.of_nat i) = Ok x.
Proof. intros Hx. apply index_at_ok; [lia|]. by rewrite Nat2Z.id. Qed.

Lemma take_at_cons {A} (l : list A) i idx x xs : index_at l i = Ok x -> take_at l idx = Ok xs -> take_at l (i :: idx) = Ok (x :: xs).
Proof. intros Hx Hxs. unfold take_at in *. cbn. by rewrite Hx, Hxs. Qed.

Lemma take_at_nil {A} (l : list A) : take_at l [] = Ok [].
Proof. done. Qed.

Lemma take_at_forall2 {A} (l : list A) idx xs : Forall2 (fun i x => index_at l i = Ok x) idx xs -> take_at l idx = Ok xs.
Proof. induction 1; [done|]. by apply take_at_cons. Qed.

Lemma take_at_app {A} (l : list A) idx idx' xs xs' : take_at l idx = Ok xs -> take_at l idx' = Ok xs' ->
  take_at l (idx ++ idx') = Ok (xs ++ xs').
Proof.
  revert xs. induction idx as [|i idx IH]; intros xs H H'; [by injection H as <-|].
  unfold take_at in H. cbn in H. apply bind_Ok in H as (x & Hx & (xs0 & Hxs & [= <-])%bind_Ok).
  cbn. apply take_at_cons; [done|]. by apply IH.
Qed.

Lemma take_at_concat {A} (l : list A) idxs xss : Forall2 (fun idx xs => take_at l idx = Ok xs) idxs xss ->
  take_at l (concat idxs) = Ok (concat xss).
Proof. induction 1; [done|]. by apply take_at_app. Qed.

(** A run of consecutive indices. *)
Lemma take_at_range {A} (l : list A) (o : nat) xs : (forall j x, xs !! j = Some x -> l !! (o + j) = Some x) ->
  take_at l ((fun j => Z.of_nat (o + j)) <$> seq 0 (length xs)) = Ok xs.
Proof.
  intros H. apply take_at_forall2. apply Forall2_fmap_l, Forall2_same_length_lookup. split; [by rewrite length_seq|].
  intros i y x Hy Hx. apply lookup_seq in Hy as [-> _]. apply index_at_nat. by apply H.
Qed.

Lemma store_at_ok {A} (l : list A) i x : i < length l -> store_at l i x = Ok (<[i := x]> l).
Proof. unfold store_at. by intros ->%Nat.ltb_lt. Qed.

Lemma assign_range_exact {A} (l : list A) start vals : start + length vals <= length l ->
  assign_range l start (start + length vals) vals = Ok (take start l ++ vals ++ drop (start + length vals) l).
Proof.
  intros Hl. unfold assign_range. rewrite !Nat.min_l, Nat.max_r by lia.
  by replace (start + length vals - start) with (length vals) by lia; rewrite Nat.eqb_refl.
Qed.

Lemma wrap32_small z : (- 2 ^ 31 <= z < 2 ^ 31)%Z -> wrap32 z = z.
Proof. intros Hz. unfold wrap32. rewrite Z.mod_small; lia. Qed.

(** * Batches of rows

    Row [i] of a batch starts, flattened, behind the rows before it. *)

Definition row_start (ns : list nat) (i : nat) : nat := sum_list (take i ns).
#[global] Arguments row_start : simpl never.

Lemma row_start_S ns i n : ns !! i = Some n -> row_start ns (S i) = row_start ns i + n.
Proof. intros Hi. unfold row_start. rewrite (take_S_r _ _ _ Hi), sum_list_with_app. cbn. lia. Qed.

Lemma concat_lookup {A} (ls : list (list A)) i l j x : ls !! i = Some l -> l !! j = Some x ->
  concat ls !! (row_start (length <$> ls) i + j) = Some x.
Proof.
  unfold row_start. revert i. induction ls as [|l' ls IH]; intros i Hi Hj; [done|]. destruct i as [|i]; cbn in *.
  - injection Hi as ->. apply lookup_app_l_Some. done.
  - rewrite lookup_app_r by lia. replace (length l' + _ + j - length l') with (sum_list (take i (length <$> ls)) + j) by lia.
    by apply IH.
Qed.

Lemma length_concat_sum {A} (ls : list (list A)) : length (concat ls) = sum_list (length <$> ls).
Proof. induction ls as [|l ls IH]; [done|]. cbn. by rewrite length_app, IH. Qed.

Lemma cumsum_from_lookup ns : forall (acc : Z) i, i < length ns ->
  cumsum_from acc (counts ns) !! i = Some (acc + Z.of_nat (row_start ns (S i)))%Z.
Proof.
  induction ns as [|n ns IH]; intros acc i Hi; [cbn in Hi; lia|]. destruct i as [|i]; cbn [fmap list_fmap cumsum_from lookup list_lookup].
  - f_equal. unfold row_start. rewrite firstn_cons, take_0. cbn. lia.
  - cbn in Hi. rewrite IH by lia. f_equal. unfold row_start. rewrite !firstn_cons. cbn. lia.
Qed.

Lemma cumsum_length_from l : forall acc, length (cumsum_from acc l) = length l.
Proof. induction l as [|x l IH]; intros acc; [done|]. cbn. by rewrite IH. Qed.

(** The exclusive sums: where the rows start. *)
Lemma cumsum_starts ns : forall acc : Z,
  zip_with Z.sub (cumsum_from acc (counts ns)) (counts ns) = (fun i => (acc + Z.of_nat (row_start ns i))%Z) <$> seq 0 (length ns).
Proof.
  intros acc. apply list_eq. intros i. rewrite lookup_zip_with, !list_lookup_fmap.
  destruct (decide (i < length ns)) as [Hi|Hi].
  - rewrite cumsum_from_lookup, lookup_seq_lt by done. destruct (lookup_lt_is_Some_2 ns i Hi) as [n Hn].
    rewrite Hn. cbn. f_equal. rewrite (row_start_S _ _ _ Hn). lia.
  - by rewrite !lookup_ge_None_2 by (rewrite ?length_seq, ?cumsum_length_from, ?length_fmap; lia).
Qed.

(** Position [j] of every row, [np.concatenate([np.arange(n) for n in ns])]. *)
Definition aranges (ns : list nat) : list Z := concat ((fun n => Z.of_nat <$> seq 0 n) <$> ns).

Lemma aranges_length ns : length (aranges ns) = sum_list ns.
Proof. unfold aranges. induction ns as [|n ns IH]; [done|]. cbn. by rewrite length_app, length_fmap, length_seq, IH. Qed.

Lemma repeat_each_cons {A} (v : A) vs n ns : repeat_each (v :: vs) (counts (n :: ns)) = replicate n v ++ repeat_each vs (counts ns).
Proof. unfold repeat_each. cbn. by rewrite Nat2Z.id. Qed.

Lemma repeat_each_length {A} (vs : list A) : forall ns, length vs = length ns -> length (repeat_each vs (counts ns)) = sum_list ns.
Proof.
  induction vs as [|v vs IH]; intros [|n ns] Hl; try done. injection Hl as Hl.
  by rewrite repeat_each_cons, length_app, length_replicate, IH.
Qed.

(** Adding a value of each row to the positions in it. *)
Lemma repeat_each_add (vs : list Z) : forall ns, length vs = length ns ->
  zip_with Z.add (repeat_each vs (counts ns)) (aranges ns) =
  concat (zip_with (fun v n => (fun j => (v + Z.of_nat j)%Z) <$> seq 0 n) vs ns).
Proof.
  induction vs as [|v vs IH]; intros [|n ns] Hl; try done. injection Hl as Hl.
  rewrite repeat_each_cons. unfold aranges. cbn [fmap list_fmap concat].
  rewrite zip_with_app by (by rewrite length_replicate, length_fmap, length_seq). cbn [zip_with concat]. f_equal; [|by apply IH].
  apply list_eq. intros j. rewrite lookup_zip_with, !list_lookup_fmap.
  destruct (decide (j < n)); [by rewrite lookup_replicate_2, lookup_seq_lt by done|].
  by rewrite !lookup_ge_None_2 by (rewrite ?length_replicate, ?length_seq; lia).
Qed.

(** The positions of the flat batch less the starts of their rows. *)
Lemma seq_sub_starts ns : forall (k : nat),
  zip_with Z.sub (Z.of_nat <$> seq k (sum_list ns)) (repeat_each ((fun i => Z.of_nat (k + row_start ns i)) <$> seq 0 (length ns)) (counts ns)) =
  aranges ns.
Proof.
  induction ns as [|n ns IH]; intros k; [done|]. cbn [length seq sum_list sum_list_with]. rewrite seq_app, fmap_app.
  unfold id. rewrite fmap_cons, repeat_each_cons, zip_with_app by (by rewrite length_replicate, length_fmap, length_seq).
  unfold aranges at 1. cbn [fmap list_fmap concat]. f_equal.
  - apply list_eq. intros j. rewrite lookup_zip_with, !list_lookup_fmap.
    destruct (decide (j < n)).
    + rewrite lookup_replicate_2, !lookup_seq_lt by done. cbn. f_equal. unfold row_start. cbn. lia.
    + by rewrite !lookup_ge_None_2 by (rewrite ?length_replicate, ?length_seq; lia).
  - fold (aranges ns). rewrite <-(IH (k + n)). f_equal. f_equal. rewrite <-fmap_S_seq, <-list_fmap_compose.
    apply list_fmap_ext. intros _ i _. cbn. f_equal. unfold row_start. cbn. lia.
Qed.

(** Reading, of each row [l] of a batch, [m i] elements from [k i] on. *)
Lemma take_rows {A} (ls : list (list A)) rest (k m : nat -> nat) :
  (forall i l, ls !! i = Some l -> k i + m i <= length l) ->
  take_at (concat ls ++ rest) (concat (imap (fun i _ => (fun j => Z.of_nat (row_start (length <$> ls) i + k i + j)) <$> seq 0 (m i)) ls)) =
    Ok (concat (imap (fun i l => take (m i) (drop (k i) l)) ls)).
Proof.
  intros Hkm. apply take_at_concat, Forall2_same_length_lookup. split; [by rewrite !length_imap|].
  intros i idx xs Hidx Hxs. rewrite list_lookup_imap in Hidx. rewrite list_lookup_imap in Hxs. destruct (ls !! i) as [l|] eqn:Hl; [|done].
  cbn in Hidx, Hxs. injection Hidx as <-. injection Hxs as <-. pose proof (Hkm i l Hl) as Hle.
  assert (length (take (m i) (drop (k i) l)) = m i) as Hlen by (rewrite length_take, length_drop; lia).
  rewrite <-Hlen at 1. apply take_at_range. intros j x Hj. apply lookup_take_Some in Hj as [Hj _]. rewrite lookup_drop in Hj.
  rewrite <-Nat.add_assoc. apply lookup_app_l_Some. by eapply concat_lookup.
Qed.
