(* ===== verification/BlockQueue.v ===== *)
(** Block metadata and the free-block queue of [vllm/v1/core/kv_cache_utils.py]:
    [KVCacheBlock], the doubly linked [FreeKVCacheBlockQueue], and its refinement of a plain
    list queue. *)
From stdpp Require Import base gmap list.
From Stdlib Require Import ZArith Lia.
From S2P Require Import Prelude.

(** * Blocks *)

(** Python object references: the pool's blocks, and the queue's two sentinels. *)
Inductive bref : Set :=
| Blk (i : nat)
| FakeHead
| FakeTail.

#[global] Instance bref_eq_dec : EqDecision bref.
Proof. solve_decision. Defined.

(** [bytes] objects: lists of integers in [0, 256). *)
Abbreviation bytes := (list Z).

Record KVCacheBlock := mkBlock {
  block_id : Z;
  ref_cnt : Z;
  block_hash : option bytes;
  prev_free_block : option bref;
  next_free_block : option bref;
  is_null : bool
}.

(** [KVCacheBlock(block_id=i)]. *)
Definition new_block (i : Z) : KVCacheBlock := mkBlock i 0 None None None false.

Definition set_ref_cnt (c : Z) (b : KVCacheBlock) : KVCacheBlock :=
  mkBlock (block_id b) c (block_hash b) (prev_free_block b) (next_free_block b) (is_null b).
Definition set_hash (h : option bytes) (b : KVCacheBlock) : KVCacheBlock :=
  mkBlock (block_id b) (ref_cnt b) h (prev_free_block b) (next_free_block b) (is_null b).
Definition set_prev (p : option bref) (b : KVCacheBlock) : KVCacheBlock :=
  mkBlock (block_id b) (ref_cnt b) (block_hash b) p (next_free_block b) (is_null b).
Definition set_next (n : option bref) (b : KVCacheBlock) : KVCacheBlock :=
  mkBlock (block_id b) (ref_cnt b) (block_hash b) (prev_free_block b) n (is_null b).
Definition set_is_null (n : bool) (b : KVCacheBlock) : KVCacheBlock :=
  mkBlock (block_id b) (ref_cnt b) (block_hash b) (prev_free_block b) (next_free_block b) n.

(** The store of block objects. *)
Definition bheap : Type := bref -> KVCacheBlock.

Definition hset (r : bref) (f : KVCacheBlock -> KVCacheBlock) (h : bheap) : bheap :=
  fun r' => if decide (r' = r) then f (h r') else h r'.

(** * The queue *)

Record FreeQ := mkFreeQ {
  heap : bheap;
  num_free_blocks : Z
}.

Definition qset (r : bref) (f : KVCacheBlock -> KVCacheBlock) (q : FreeQ) : FreeQ :=
  mkFreeQ (hset r f (heap q)) (num_free_blocks q).
Definition qnum (f : Z -> Z) (q : FreeQ) : FreeQ := mkFreeQ (heap q) (f (num_free_blocks q)).

Definition rd {A} (r : bref) (f : KVCacheBlock -> A) : M FreeQ A := gets (fun q => f (heap q r)).
Definition wr (r : bref) (f : KVCacheBlock -> KVCacheBlock) : M FreeQ unit := modify (qset r f).

(** [FreeKVCacheBlockQueue.__init__] on the list [blocks]; [i] counts the loop. *)
Definition fq_init_links (blocks : list bref) (i : nat) : M FreeQ unit :=
  b ← deref (blocks !! i);
  (if decide (0 < i) then p ← deref (blocks !! (i - 1)); wr b (set_prev (Some p)) else mret tt) ;;
  (if decide (i < length blocks - 1)
   then n ← deref (blocks !! (i + 1)); wr b (set_next (Some n)) else mret tt).

Definition fq_init (blocks : list bref) : M FreeQ unit :=
  modify (qnum (fun _ => Z.of_nat (length blocks))) ;;
  forM (seq 0 (length blocks)) (fq_init_links blocks) ;;
  wr FakeHead (fun _ => new_block (-1)) ;;
  wr FakeTail (fun _ => new_block (-1)) ;;
  if decide (0 < length blocks) then
    first ← deref (head blocks);
    lst ← deref (last blocks);
    wr FakeHead (set_next (Some first)) ;;
    wr first (set_prev (Some FakeHead)) ;;
    wr FakeTail (set_prev (Some lst)) ;;
    wr lst (set_next (Some FakeTail))
  else
    wr FakeHead (set_next (Some FakeTail)) ;;
    wr FakeTail (set_prev (Some FakeHead)).

Definition popleft : M FreeQ bref :=
  hn ← rd FakeHead next_free_block;
  match hn with
  | None | Some FakeTail =>
      n ← gets num_free_blocks;
      assertM (bool_decide (n = 0%Z)) ;;
      raise ValueError
  | Some first =>
      fn ← rd first next_free_block;
      match fn with
      | None => raise RuntimeError
      | Some second =>
          wr FakeHead (set_next (Some second)) ;;
          s ← rd first next_free_block;
          s' ← deref s;
          wr s' (set_prev (Some FakeHead)) ;;
          wr first (set_prev None) ;;
          wr first (set_next None) ;;
          modify (qnum (fun n => (n - 1)%Z)) ;;
          mret first
      end
  end.

(** The body of the [for _ in range(n)] loop of [popleft_n]; the accumulator is
    [(curr_block, ret)]. *)
Definition popleft_n_body (st : option bref * list bref) (_ : nat)
  : M FreeQ (option bref * list bref) :=
  assertM (bool_decide (is_Some st.1)) ;;
  c ← deref st.1;
  nx ← rd c next_free_block;
  wr c (set_prev None) ;;
  wr c (set_next None) ;;
  mret (nx, st.2 ++ [c]).

Definition popleft_n (n : nat) : M FreeQ (list bref) :=
  if decide (n = 0) then mret [] else
  nf ← gets num_free_blocks;
  assertM (bool_decide (Z.of_nat n <= nf)%Z) ;;
  modify (qnum (fun m => (m - Z.of_nat n)%Z)) ;;
  hn ← rd FakeHead next_free_block;
  st ← foldM (seq 0 n) (hn, []) popleft_n_body;
  match st.1 with
  | Some curr =>
      wr FakeHead (set_next (Some curr)) ;;
      wr curr (set_prev (Some FakeHead)) ;;
      mret st.2
  | None => mret st.2
  end.

Definition remove (r : bref) : M FreeQ unit :=
  p ← rd r prev_free_block;
  n ← rd r next_free_block;
  match p, n with
  | Some _, Some _ =>
      p ← rd r prev_free_block; p ← deref p;
      n ← rd r next_free_block;
      wr p (set_next n) ;;
      n ← rd r next_free_block; n ← deref n;
      p ← rd r prev_free_block;
      wr n (set_prev p) ;;
      wr r (set_prev None) ;;
      wr r (set_next None) ;;
      modify (qnum (fun m => (m - 1)%Z))
  | _, _ => raise RuntimeError
  end.

Definition append (r : bref) : M FreeQ unit :=
  tp ← rd FakeTail prev_free_block;
  match tp with
  | None => raise RuntimeError
  | Some lst =>
      wr lst (set_next (Some r)) ;;
      wr r (set_prev (Some lst)) ;;
      wr r (set_next (Some FakeTail)) ;;
      wr FakeTail (set_prev (Some r)) ;;
      modify (qnum (fun m => (m + 1)%Z))
  end.

Definition append_n_body (lst : bref) (b : bref) : M FreeQ bref :=
  wr b (set_prev (Some lst)) ;;
  wr lst (set_next (Some b)) ;;
  mret b.

Definition append_n (blocks : list bref) : M FreeQ unit :=
  if decide (length blocks = 0) then mret tt else
  modify (qnum (fun m => (m + Z.of_nat (length blocks))%Z)) ;;
  tp ← rd FakeTail prev_free_block;
  assertM (bool_decide (is_Some tp)) ;;
  lst ← deref tp;
  lst ← foldM blocks lst append_n_body;
  wr lst (set_next (Some FakeTail)) ;;
  wr FakeTail (set_prev (Some lst)).

(** The [while] of [get_all_free_blocks]; the loop follows [next_free_block], which visits
    at most the blocks of the list once, so the number of blocks is enough fuel. [None]
    stands for fuel exhausted. *)
Fixpoint walk_free (fuel : nat) (h : bheap) (curr : bref) (ret : list bref)
  : option (list bref) :=
  match next_free_block (h curr) with
  | None => Some ret
  | Some n =>
      match fuel with
      | O => None
      | S fuel' => walk_free fuel' h n (ret ++ [curr])
      end
  end.

Definition get_all_free_blocks (fuel : nat) (q : FreeQ) : outcome (option (list bref)) :=
  match next_free_block (heap q FakeHead) with
  | None => Raise RuntimeError
  | Some c => Ok (walk_free fuel (heap q) c [])
  end.

(** * Abstraction: the queue as a list of block references *)

Definition is_blk (r : bref) : Prop := match r with Blk _ => True | _ => False end.

#[global] Instance is_blk_dec r : Decision (is_blk r).
Proof. destruct r; [left|right|right]; simpl; tauto. Defined.

(** Consecutive references of the list point at each other. *)
Fixpoint linked (h : bheap) (l : list bref) : Prop :=
  match l with
  | a :: (b :: _) as t =>
      next_free_block (h a) = Some b /\ prev_free_block (h b) = Some a /\ linked h t
  | _ => True
  end.

(** The queue object represents the list [fl] of free blocks: the sentinels and [fl] form a
    doubly linked list, a block outside of it has both links [None], and the counter is the
    length of [fl]. *)
Record fq_repr (q : FreeQ) (fl : list bref) : Prop := {
  fr_linked : linked (heap q) (FakeHead :: fl ++ [FakeTail]);
  fr_nodup : NoDup fl;
  fr_blk : Forall is_blk fl;
  fr_head : prev_free_block (heap q FakeHead) = None;
  fr_tail : next_free_block (heap q FakeTail) = None;
  fr_off : forall r, is_blk r -> r ∉ fl ->
    prev_free_block (heap q r) = None /\ next_free_block (heap q r) = None;
  fr_num : num_free_blocks q = Z.of_nat (length fl)
}.

(** Queue operations leave everything but the links of the real blocks alone. *)
Definition same_meta (h h' : bheap) : Prop :=
  forall r, block_id (h' r) = block_id (h r) /\ ref_cnt (h' r) = ref_cnt (h r) /\
    block_hash (h' r) = block_hash (h r) /\ is_null (h' r) = is_null (h r).

#[global] Instance same_meta_preorder : PreOrder same_meta.
Proof.
  split; [by intros h r|].
  intros h1 h2 h3 H12 H23 r. specialize (H12 r); specialize (H23 r). intuition congruence.
Qed.

(** ** Heap lemmas *)

Lemma hset_eq r f h : hset r f h r = f (h r).
Proof. unfold hset. by rewrite decide_True. Qed.

Lemma hset_ne r r' f h : r' <> r -> hset r f h r' = h r'.
Proof. intros. unfold hset. by rewrite decide_False. Qed.

Lemma hset_next_prev r n h r' :
  prev_free_block (hset r (set_next n) h r') = prev_free_block (h r').
Proof. unfold hset. by case_decide; subst. Qed.

Lemma hset_prev_next r p h r' :
  next_free_block (hset r (set_prev p) h r') = next_free_block (h r').
Proof. unfold hset. by case_decide; subst. Qed.

Lemma hset_next_next r n h r' :
  next_free_block (hset r (set_next n) h r') =
  if decide (r' = r) then n else next_free_block (h r').
Proof. unfold hset. by case_decide; subst. Qed.

Lemma hset_prev_prev r p h r' :
  prev_free_block (hset r (set_prev p) h r') =
  if decide (r' = r) then p else prev_free_block (h r').
Proof. unfold hset. by case_decide; subst. Qed.

Lemma same_meta_set_next r n h : same_meta h (hset r (set_next n) h).
Proof. intros r'. unfold hset. by case_decide; subst. Qed.

Lemma same_meta_set_prev r p h : same_meta h (hset r (set_prev p) h).
Proof. intros r'. unfold hset. by case_decide; subst. Qed.

Create HintDb fq.
Create Rewrite HintDb fq.
#[export] Hint Rewrite hset_next_prev hset_prev_next hset_next_next hset_prev_prev : fq.
#[export] Hint Resolve same_meta_set_next same_meta_set_prev : fq.

Ltac solve_same_meta :=
  repeat (etransitivity; [|first [apply same_meta_set_next | apply same_meta_set_prev]]);
  reflexivity.

(** ** Lists of linked references *)

Lemma linked_cons2 h a b l :
  linked h (a :: b :: l) <->
  next_free_block (h a) = Some b /\ prev_free_block (h b) = Some a /\ linked h (b :: l).
Proof. done. Qed.

(** Two linked lists join into one when their ends point at each other. *)
Lemma linked_app h l1 l2 :
  linked h (l1 ++ l2) <->
  linked h l1 /\ linked h l2 /\
  (forall a b, last l1 = Some a -> head l2 = Some b ->
     next_free_block (h a) = Some b /\ prev_free_block (h b) = Some a).
Proof.
  induction l1 as [|x [|y l1] IH].
  - simpl. naive_solver.
  - destruct l2; simpl; naive_solver.
  - change ((x :: y :: l1) ++ l2) with (x :: y :: (l1 ++ l2)).
    rewrite !linked_cons2, last_cons_cons. change (y :: l1 ++ l2) with ((y :: l1) ++ l2).
    rewrite IH. tauto.
Qed.

(** Only the [next] of all but the last and the [prev] of all but the first matter. *)
Lemma linked_frame h h' l :
  NoDup l ->
  (forall r, r ∈ l -> last l <> Some r -> next_free_block (h' r) = next_free_block (h r)) ->
  (forall r, r ∈ l -> head l <> Some r -> prev_free_block (h' r) = prev_free_block (h r)) ->
  linked h l -> linked h' l.
Proof.
  induction l as [|a [|b l] IH]; [done..|].
  intros [Ha Hnd]%NoDup_cons Hn Hp. rewrite !linked_cons2. intros (H1 & H2 & H3).
  assert (b <> a) by set_solver.
  split_and!.
  - rewrite Hn; [done|set_solver|]. rewrite last_cons_cons.
    intros Hl%last_Some_elem_of. done.
  - rewrite Hp; [done|set_solver|]. simpl. congruence.
  - apply IH; [done| | |done].
    + intros r Hr Hl. apply Hn; [set_solver|]. by rewrite last_cons_cons.
    + intros r Hr Hh. apply Hp; [set_solver|]. simpl. set_solver.
Qed.

(** The neighbours of a position, sentinels included. *)
Definition pred_of (l : list bref) : bref := default FakeHead (last l).
Definition succ_of (l : list bref) : bref := default FakeTail (head l).

Lemma last_head_cons l : last (FakeHead :: l) = Some (pred_of l).
Proof. unfold pred_of. destruct l; [done|]. by rewrite last_cons_cons; destruct (last (b :: l)) eqn:E; [|apply last_None in E]. Qed.

Lemma head_snoc_tail l : head (l ++ [FakeTail]) = Some (succ_of l).
Proof. by destruct l. Qed.

Lemma sentinels_not_blk l : Forall is_blk l -> FakeHead ∉ l /\ FakeTail ∉ l.
Proof. rewrite Forall_forall. intros H. split; intros Hin; by apply H in Hin. Qed.

Lemma full_list_nodup fl :
  NoDup fl -> Forall is_blk fl -> NoDup (FakeHead :: fl ++ [FakeTail]).
Proof.
  intros Hnd [HH HT]%sentinels_not_blk. apply NoDup_cons. split; [set_solver|].
  apply NoDup_app. split_and!; [done|set_solver|apply NoDup_singleton].
Qed.

(** The queue splits at any position into a front segment, a back segment and the two links
    between them. *)
Lemma linked_split h l1 l2 :
  linked h (FakeHead :: (l1 ++ l2) ++ [FakeTail]) <->
  linked h (FakeHead :: l1) /\ linked h (l2 ++ [FakeTail]) /\
  next_free_block (h (pred_of l1)) = Some (succ_of l2) /\
  prev_free_block (h (succ_of l2)) = Some (pred_of l1).
Proof.
  replace (FakeHead :: (l1 ++ l2) ++ [FakeTail]) with ((FakeHead :: l1) ++ (l2 ++ [FakeTail]))
    by (simpl; by rewrite <-app_assoc).
  rewrite linked_app, last_head_cons, head_snoc_tail. naive_solver.
Qed.

Lemma linked_cons_tail h x l :
  linked h ((x :: l) ++ [FakeTail]) <->
  next_free_block (h x) = Some (succ_of l) /\ prev_free_block (h (succ_of l)) = Some x /\
  linked h (l ++ [FakeTail]).
Proof. destruct l; simpl; tauto. Qed.

Lemma linked_snoc_head h x l :
  linked h (FakeHead :: l ++ [x]) <->
  linked h (FakeHead :: l) /\
  next_free_block (h (pred_of l)) = Some x /\ prev_free_block (h x) = Some (pred_of l).
Proof.
  change (FakeHead :: l ++ [x]) with ((FakeHead :: l) ++ [x]).
  rewrite linked_app, last_head_cons. simpl. naive_solver.
Qed.

Lemma pred_of_elem l : pred_of l = FakeHead \/ pred_of l ∈ l.
Proof.
  unfold pred_of. destruct (last l) as [r|] eqn:E; [|by left].
  right. by apply last_Some_elem_of.
Qed.

Lemma succ_of_elem l : succ_of l = FakeTail \/ succ_of l ∈ l.
Proof. destruct l; [by left|right; set_solver]. Qed.

(** *** Taking a block out of the queue *)
Lemma fq_unlink q q' l1 x l2 :
  fq_repr q (l1 ++ x :: l2) ->
  num_free_blocks q' = (num_free_blocks q - 1)%Z ->
  (forall r, next_free_block (heap q' r) =
     if decide (r = x) then None
     else if decide (r = pred_of l1) then Some (succ_of l2)
     else next_free_block (heap q r)) ->
  (forall r, prev_free_block (heap q' r) =
     if decide (r = x) then None
     else if decide (r = succ_of l2) then Some (pred_of l1)
     else prev_free_block (heap q r)) ->
  fq_repr q' (l1 ++ l2).
Proof.
  intros [Hl Hnd Hb Hh Ht Hoff Hnum] Hnum' Hn Hp.
  pose proof (full_list_nodup _ Hnd Hb) as Hfull.
  apply NoDup_app in Hnd as (Hnd1 & Hdisj & [Hx Hnd2]%NoDup_cons).
  apply Forall_app in Hb as [Hb1 [Hbx Hb2]%Forall_cons].
  assert (HxH : x <> FakeHead) by by intros ->.
  assert (HxT : x <> FakeTail) by by intros ->.
  assert (Hx1 : x ∉ l1) by (intros ?; apply (Hdisj x); set_solver).
  destruct (sentinels_not_blk _ Hb1) as [HH1 HT1], (sentinels_not_blk _ Hb2) as [HH2 HT2].
  pose proof (pred_of_elem l1) as Hpe. pose proof (succ_of_elem l2) as Hse.
  apply linked_split in Hl as (Hl1 & Hl2 & _ & _).
  apply linked_cons_tail in Hl2 as (_ & _ & Hl2).
  split.
  - apply linked_split. split_and!.
    + eapply linked_frame; [..|exact Hl1].
      * by apply NoDup_cons.
      * intros r Hr Hlr. rewrite Hn, !decide_False; [done| |set_solver].
        intros ->. apply Hlr, last_head_cons.
      * intros r Hr _. rewrite Hp, !decide_False; [done| |set_solver].
        intros ->. destruct Hse as [Hse|Hse]; [rewrite Hse in Hr; set_solver|].
        apply elem_of_cons in Hr as [?|Hr]; [congruence|]. apply (Hdisj _ Hr); set_solver.
    + eapply linked_frame; [..|exact Hl2].
      * apply NoDup_app. split_and!; [done| |apply NoDup_singleton]. set_solver.
      * intros r Hr _. rewrite Hn, !decide_False; [done| |set_solver].
        intros ->. destruct Hpe as [Hpe|Hpe]; [rewrite Hpe in Hr; set_solver|].
        apply elem_of_app in Hr as [Hr|Hr]; [apply (Hdisj _ Hpe); set_solver|].
        apply HT1. by apply list_elem_of_singleton in Hr as <-.
      * intros r Hr Hhr. rewrite Hp, !decide_False; [done| |set_solver].
        intros ->. apply Hhr, head_snoc_tail.
    + rewrite Hn, decide_False, decide_True; [done..|]. destruct Hpe as [->|?]; congruence.
    + rewrite Hp, decide_False, decide_True; [done..|]. destruct Hse as [->|?]; congruence.
  - apply NoDup_app. split_and!; [done| |done]. set_solver.
  - by apply Forall_app.
  - rewrite Hp, !decide_False; [done| |done].
    intros E. destruct Hse as [Hse|Hse]; congruence.
  - rewrite Hn, !decide_False; [done| |done].
    intros E. destruct Hpe as [Hpe|Hpe]; congruence.
  - intros r Hr Hnin. rewrite Hn, Hp.
    case_decide as Hrx; [done|].
    assert (r <> FakeHead /\ r <> FakeTail) as [? ?] by (split; intros ->; done).
    rewrite !decide_False; [apply Hoff; set_solver| |]; intros ->; set_solver.
  - rewrite Hnum', Hnum, !length_app. simpl. lia.
Qed.

(** *** Putting blocks at the end

    While [append_n] runs, the list is linked from the head to [lst] but not yet to the
    tail sentinel. *)
Record fq_open (h : bheap) (l : list bref) (lst : bref) : Prop := {
  fo_linked : linked h (FakeHead :: l);
  fo_last : lst = pred_of l;
  fo_nodup : NoDup l;
  fo_blk : Forall is_blk l;
  fo_head : prev_free_block (h FakeHead) = None;
  fo_tail : next_free_block (h FakeTail) = None;
  fo_off : forall r, is_blk r -> r ∉ l ->
    prev_free_block (h r) = None /\ next_free_block (h r) = None
}.

Lemma fq_open_start q fl :
  fq_repr q fl ->
  fq_open (heap q) fl (pred_of fl) /\ prev_free_block (heap q FakeTail) = Some (pred_of fl).
Proof.
  intros [Hl Hnd Hb Hh Ht Hoff Hnum].
  rewrite <-(app_nil_r fl) in Hl. apply linked_split in Hl as (Hl & _ & _ & Hp).
  by split.
Qed.

Lemma fq_open_step h h' l lst b :
  fq_open h l lst -> is_blk b -> b ∉ l ->
  (forall r, next_free_block (h' r) = if decide (r = lst) then Some b else next_free_block (h r)) ->
  (forall r, prev_free_block (h' r) = if decide (r = b) then Some lst else prev_free_block (h r)) ->
  fq_open h' (l ++ [b]) b.
Proof.
  intros [Hl -> Hnd Hblk Hh Ht Hoff] Hb Hbl Hn Hp.
  destruct (sentinels_not_blk _ Hblk) as [HH HT].
  assert (b <> FakeHead) by by intros ->.
  pose proof (pred_of_elem l) as Hpe.
  split.
  - apply linked_snoc_head. rewrite Hn, Hp, !decide_True by done. split_and!; [|done..].
    eapply linked_frame; [..|exact Hl].
    + by apply NoDup_cons.
    + intros r Hr Hlr. rewrite Hn, decide_False; [done|]. intros ->. apply Hlr, last_head_cons.
    + intros r Hr _. rewrite Hp, decide_False; [done|]. intros ->. set_solver.
  - unfold pred_of. by rewrite last_snoc.
  - apply NoDup_app. split_and!; [done|set_solver|apply NoDup_singleton].
  - by apply Forall_app_2; [|apply Forall_singleton].
  - by rewrite Hp, decide_False.
  - rewrite Hn, decide_False; [done|]. intros E. destruct Hpe; congruence.
  - intros r Hr [Hnl Hnb]%not_elem_of_app. rewrite list_elem_of_singleton in Hnb.
    assert (r <> pred_of l) by (intros ->; by destruct Hpe as [Hpe|Hpe]; [rewrite Hpe in Hr|]).
    rewrite Hn, Hp, !decide_False by done. by apply Hoff.
Qed.

Lemma fq_open_close h l lst q' :
  fq_open h l lst ->
  num_free_blocks q' = Z.of_nat (length l) ->
  (forall r, next_free_block (heap q' r) =
     if decide (r = lst) then Some FakeTail else next_free_block (h r)) ->
  (forall r, prev_free_block (heap q' r) =
     if decide (r = FakeTail) then Some lst else prev_free_block (h r)) ->
  fq_repr q' l.
Proof.
  intros [Hl -> Hnd Hblk Hh Ht Hoff] Hnum Hn Hp.
  destruct (sentinels_not_blk _ Hblk) as [HH HT].
  pose proof (pred_of_elem l) as Hpe.
  split; try done.
  - rewrite <-(app_nil_r l). apply linked_split.
    rewrite Hn, Hp, !decide_True by done. split_and!; [|done..].
    eapply linked_frame; [..|exact Hl].
    + by apply NoDup_cons.
    + intros r Hr Hlr. rewrite Hn, decide_False; [done|]. intros ->. apply Hlr, last_head_cons.
    + intros r Hr _. rewrite Hp, decide_False; [done|]. set_solver.
  - by rewrite Hp, decide_False.
  - rewrite Hn, decide_False; [done|]. intros E. destruct Hpe; congruence.
  - intros r Hr Hnin.
    assert (r <> FakeTail) by by intros ->.
    assert (r <> pred_of l) by (intros ->; by destruct Hpe as [Hpe|Hpe]; [rewrite Hpe in Hr|]).
    rewrite Hn, Hp, !decide_False by done. by apply Hoff.
Qed.

(** ** Specifications of the operations *)

Lemma wp_rd {A} r (f : KVCacheBlock -> A) Q E q : Q (f (heap q r)) q -> wp (rd r f) Q E q.
Proof. done. Qed.

Lemma wp_wr r f Q E q : Q tt (qset r f q) -> wp (wr r f) Q E q.
Proof. done. Qed.

Ltac fq_step :=
  first [ lazymatch goal with
          | |- wp (rd _ _) _ _ _ => apply wp_rd
          | |- wp (wr _ _) _ _ _ => apply wp_wr
          end; cbn beta | wp_step ].
Ltac fq_steps := repeat fq_step.

(** Reads of a heap after link updates. *)
Ltac fq_simpl :=
  cbn [heap num_free_blocks qset qnum]; autorewrite with fq.

(** The neighbours of a block of the list, read off the links. *)
Lemma fq_neighbours q l1 x l2 :
  fq_repr q (l1 ++ x :: l2) ->
  next_free_block (heap q (pred_of l1)) = Some x /\
  prev_free_block (heap q x) = Some (pred_of l1) /\
  next_free_block (heap q x) = Some (succ_of l2) /\
  prev_free_block (heap q (succ_of l2)) = Some x.
Proof.
  intros [Hl _ _ _ _ _ _]. apply linked_split in Hl as (_ & Hl2 & H1 & H2).
  by apply linked_cons_tail in Hl2 as (H3 & H4 & _).
Qed.

Lemma fq_member_ne q l1 x l2 :
  fq_repr q (l1 ++ x :: l2) ->
  x <> pred_of l1 /\ x <> succ_of l2 /\ x <> FakeHead /\ x <> FakeTail.
Proof.
  intros [_ Hnd Hb _ _ _ _].
  apply NoDup_app in Hnd as (_ & Hdisj & [Hx _]%NoDup_cons).
  apply Forall_app in Hb as [_ [Hbx _]%Forall_cons].
  split_and!; try (by intros ->).
  - intros E. destruct (pred_of_elem l1) as [Hp|Hp]; rewrite <-E in Hp; [by rewrite Hp in Hbx|].
    apply (Hdisj x); [done|]. by left.
  - intros E. destruct (succ_of_elem l2) as [Hp|Hp]; rewrite <-E in Hp; [by rewrite Hp in Hbx|done].
Qed.

Ltac fq_pointwise :=
  intros; change (pred_of []) with FakeHead in *; fq_simpl; repeat case_decide; congruence.

Lemma remove_spec q l1 x l2 E :
  fq_repr q (l1 ++ x :: l2) ->
  wp (remove x) (fun _ q' => fq_repr q' (l1 ++ l2) /\ same_meta (heap q) (heap q')) E q.
Proof.
  intros Hq. destruct (fq_neighbours _ _ _ _ Hq) as (_ & Hp & Hn & _).
  destruct (fq_member_ne _ _ _ _ Hq) as (Hxp & Hxs & _ & _).
  unfold remove. do 4 fq_step. rewrite Hp, Hn. do 3 fq_step. rewrite Hp.
  fq_steps. fq_simpl. rewrite decide_False, Hn by done. fq_steps. fq_simpl.
  rewrite Hp. split.
  - eapply fq_unlink; [exact Hq|done|fq_pointwise..].
  - cbn. solve_same_meta.
Qed.

Lemma popleft_spec q x fl E :
  fq_repr q (x :: fl) ->
  wp popleft (fun r q' => r = x /\ fq_repr q' fl /\ same_meta (heap q) (heap q')) E q.
Proof.
  intros Hq. destruct (fq_neighbours q [] x fl Hq) as (Hh & Hp & Hn & _).
  destruct (fq_member_ne q [] x fl Hq) as (Hxp & Hxs & HxH & HxT).
  change (pred_of []) with FakeHead in *.
  unfold popleft. do 2 fq_step. rewrite Hh. destruct x as [i| |]; [|done..].
  do 2 fq_step. rewrite Hn. fq_steps. fq_simpl. rewrite decide_False, Hn by done.
  fq_steps. split_and!; [done| |].
  - apply (fq_unlink q _ [] (Blk i) fl); [exact Hq|done|fq_pointwise..].
  - cbn. solve_same_meta.
Qed.

(** On an empty queue [popleft] raises [ValueError] and changes nothing. *)
Lemma popleft_empty q : fq_repr q [] -> popleft q = (Raise ValueError, q).
Proof.
  intros [Hl _ _ _ _ _ Hnum]. simpl in Hl, Hnum. destruct Hl as (Hh & _).
  unfold popleft, mbind, M_bind, rd, gets, assertM. rewrite Hh, Hnum. done.
Qed.

(** Removing a block that is not in the queue raises [RuntimeError] and changes nothing. *)
Lemma remove_absent q fl r :
  fq_repr q fl -> is_blk r -> r ∉ fl -> remove r q = (Raise RuntimeError, q).
Proof.
  intros Hq Hr Hnin. destruct (fr_off _ _ Hq r Hr Hnin) as [Hp Hn].
  unfold remove, mbind, M_bind, rd, gets. by rewrite Hp.
Qed.

Lemma append_spec q fl r E :
  fq_repr q fl -> is_blk r -> r ∉ fl ->
  wp (append r) (fun _ q' => fq_repr q' (fl ++ [r]) /\ same_meta (heap q) (heap q')) E q.
Proof.
  intros Hq Hr Hnin. destruct (fq_open_start _ _ Hq) as [Ho Hp].
  assert (r <> FakeTail) by by intros ->.
  assert (r <> pred_of fl) by (intros ->; destruct (pred_of_elem fl) as [E'|?]; [by rewrite E' in Hr|done]).
  unfold append. do 2 fq_step. rewrite Hp. fq_steps. split.
  - eapply fq_open_close.
    + eapply (fq_open_step _ (hset r (set_prev (Some (pred_of fl)))
                (hset (pred_of fl) (set_next (Some r)) (heap q))));
        [exact Ho|done|done|fq_pointwise..].
    + cbn. rewrite (fr_num _ _ Hq), length_app. simpl. lia.
    + fq_pointwise.
    + fq_pointwise.
  - cbn. solve_same_meta.
Qed.

Lemma append_n_spec q fl bs E :
  fq_repr q fl -> Forall is_blk bs -> NoDup bs -> (forall r, r ∈ bs -> r ∉ fl) ->
  wp (append_n bs) (fun _ q' => fq_repr q' (fl ++ bs) /\ same_meta (heap q) (heap q')) E q.
Proof.
  intros Hq Hb Hnd Hdisj. destruct (fq_open_start _ _ Hq) as [Ho Hp].
  unfold append_n. case_decide as Hlen.
  { apply nil_length_inv in Hlen as ->. fq_steps. by rewrite app_nil_r. }
  do 4 fq_step. fq_simpl. rewrite Hp, bool_decide_true by done. fq_steps.
  eapply wp_mono; [apply (wp_foldM _ (fun lst rest q' => exists dn, bs = dn ++ rest /\
      fq_open (heap q') (fl ++ dn) lst /\ same_meta (heap q) (heap q') /\
      num_free_blocks q' = (num_free_blocks q + Z.of_nat (length bs))%Z) E)| |].
  - exists []. rewrite app_nil_r. by split_and!.
  - intros lst b rest q' (dn & -> & Ho' & Hm & Hnum). unfold append_n_body. fq_steps.
    exists (dn ++ [b]). rewrite <-app_assoc.
    apply NoDup_app in Hnd as (_ & Hd & Hnd2). apply Forall_app in Hb as [_ [Hb _]%Forall_cons].
    split_and!; [done| |cbn; etransitivity; [exact Hm|solve_same_meta]|done].
    rewrite app_assoc. eapply fq_open_step; [exact Ho'|done| |fq_pointwise..].
    apply not_elem_of_app. split; [apply Hdisj; set_solver|]. intros Hin. apply (Hd _ Hin). by left.
  - intros lst q' (dn & -> & Ho' & Hm & Hnum). rewrite app_nil_r in *. fq_steps. split.
    + eapply fq_open_close; [exact Ho'| |fq_pointwise..].
      cbn. rewrite Hnum, (fr_num _ _ Hq), length_app. lia.
    + cbn. etransitivity; [exact Hm|solve_same_meta].
  - done.
Qed.

(** While [popleft_n] runs, the blocks not popped yet are linked up to the tail sentinel, and
    the popped ones have no links. *)
Record fq_popping (h : bheap) (fl : list bref) : Prop := {
  fp_linked : linked h (fl ++ [FakeTail]);
  fp_nodup : NoDup fl;
  fp_blk : Forall is_blk fl;
  fp_head : prev_free_block (h FakeHead) = None;
  fp_tail : next_free_block (h FakeTail) = None;
  fp_off : forall r, is_blk r -> r ∉ fl ->
    prev_free_block (h r) = None /\ next_free_block (h r) = None
}.

Lemma fq_popping_start q fl :
  fq_repr q fl ->
  fq_popping (heap q) fl /\ next_free_block (heap q FakeHead) = Some (succ_of fl).
Proof.
  intros [Hl Hnd Hb Hh Ht Hoff Hnum].
  apply (linked_split _ [] fl) in Hl as (_ & Hl & Hn & _). by split.
Qed.

Lemma fq_popping_step h h' x fl :
  fq_popping h (x :: fl) ->
  (forall r, next_free_block (h' r) = if decide (r = x) then None else next_free_block (h r)) ->
  (forall r, prev_free_block (h' r) = if decide (r = x) then None else prev_free_block (h r)) ->
  fq_popping h' fl.
Proof.
  intros [Hl [Hx Hnd]%NoDup_cons [Hbx Hb]%Forall_cons Hh Ht Hoff] Hn Hp.
  destruct (sentinels_not_blk _ Hb) as [HH HT].
  apply linked_cons_tail in Hl as (_ & _ & Hl).
  assert (x <> FakeHead /\ x <> FakeTail) as [HxH HxT] by (split; by intros ->).
  split; try done.
  - eapply linked_frame; [..|exact Hl].
    + apply NoDup_app. split_and!; [done|set_solver|apply NoDup_singleton].
    + intros r Hr _. rewrite Hn, decide_False; [done|set_solver].
    + intros r Hr _. rewrite Hp, decide_False; [done|set_solver].
  - by rewrite Hp, decide_False.
  - by rewrite Hn, decide_False.
  - intros r Hr Hnin. rewrite Hn, Hp. case_decide; [done|]. apply Hoff; [done|set_solver].
Qed.

Lemma fq_popping_close h fl q' :
  fq_popping h fl ->
  num_free_blocks q' = Z.of_nat (length fl) ->
  (forall r, next_free_block (heap q' r) =
     if decide (r = FakeHead) then Some (succ_of fl) else next_free_block (h r)) ->
  (forall r, prev_free_block (heap q' r) =
     if decide (r = succ_of fl) then Some FakeHead else prev_free_block (h r)) ->
  fq_repr q' fl.
Proof.
  intros [Hl Hnd Hb Hh Ht Hoff] Hnum Hn Hp.
  destruct (sentinels_not_blk _ Hb) as [HH HT].
  pose proof (succ_of_elem fl) as Hse.
  split; try done.
  - apply (linked_split _ [] fl). change (pred_of []) with FakeHead.
    rewrite Hn, Hp, !decide_True by done. split_and!; [done| |done..].
    eapply linked_frame; [..|exact Hl].
    + apply NoDup_app. split_and!; [done|set_solver|apply NoDup_singleton].
    + intros r Hr _. rewrite Hn, decide_False; [done|set_solver].
    + intros r Hr Hhr. rewrite Hp, decide_False; [done|]. intros ->. apply Hhr, head_snoc_tail.
  - rewrite Hp, decide_False; [done|]. intros E. destruct Hse; congruence.
  - by rewrite Hn, decide_False.
  - intros r Hr Hnin.
    assert (r <> FakeHead) by by intros ->.
    assert (r <> succ_of fl) by (intros ->; by destruct Hse as [Hse|Hse]; [rewrite Hse in Hr|]).
    rewrite Hn, Hp, !decide_False by done. by apply Hoff.
Qed.

Lemma popleft_n_spec q l1 l2 E :
  fq_repr q (l1 ++ l2) ->
  wp (popleft_n (length l1))
    (fun ret q' => ret = l1 /\ fq_repr q' l2 /\ same_meta (heap q) (heap q')) E q.
Proof.
  intros Hq. destruct (fq_popping_start _ _ Hq) as [Ho Hh].
  unfold popleft_n. case_decide as Hlen.
  { apply nil_length_inv in Hlen as ->. fq_steps. by split_and!. }
  do 2 fq_step. rewrite bool_decide_true
    by (rewrite (fr_num _ _ Hq), length_app; lia).
  fq_steps. fq_simpl. rewrite Hh.
  eapply wp_mono; [apply (wp_foldM _ (fun st rest q' => exists rem,
      l1 = st.2 ++ rem /\ length rest = length rem /\ st.1 = Some (succ_of (rem ++ l2)) /\
      fq_popping (heap q') (rem ++ l2) /\ same_meta (heap q) (heap q') /\
      num_free_blocks q' = (num_free_blocks q - Z.of_nat (length l1))%Z) E)| |].
  - exists l1. rewrite length_seq. by split_and!.
  - intros [c ret] i rest q' ([|x rem] & -> & Hlr & Hc & Ho' & Hm & Hnum); [done|].
    cbn [fst snd] in *. subst c. unfold popleft_n_body.
    cbn [fst snd]. rewrite bool_decide_true by done. fq_steps. fq_simpl.
    change (succ_of ((x :: rem) ++ l2)) with x in *.
    exists rem. cbn [fst snd]. rewrite <-app_assoc.
    pose proof (fp_linked _ _ Ho') as Hl. change ((x :: rem) ++ l2) with (x :: (rem ++ l2)) in *.
    apply linked_cons_tail in Hl as (Hnx & _ & _).
    split_and!; [done|simpl in Hlr; lia|by rewrite Hnx| | |done].
    + eapply fq_popping_step; [exact Ho'|fq_pointwise..].
    + cbn. etransitivity; [exact Hm|solve_same_meta].
  - intros [c ret] q' ([|x rem] & -> & Hlr & Hc & Ho' & Hm & Hnum); [|done].
    cbn [fst snd app] in *. subst c. fq_steps. rewrite app_nil_r in *. split_and!; [done| |].
    + eapply fq_popping_close; [exact Ho'| |fq_pointwise..].
      cbn. rewrite Hnum, (fr_num _ _ Hq), length_app. lia.
    + cbn. etransitivity; [exact Hm|solve_same_meta].
  - done.
Qed.

(** *** Construction *)

Lemma linked_lookup h l :
  (forall j a b, l !! j = Some a -> l !! S j = Some b ->
     next_free_block (h a) = Some b /\ prev_free_block (h b) = Some a) ->
  linked h l.
Proof.
  induction l as [|a [|b l] IH]; intros Hl; [done..|].
  apply linked_cons2. destruct (Hl 0 a b) as [? ?]; [done..|]. split_and!; [done..|].
  apply IH. intros j. apply (Hl (S j)).
Qed.

(** The links that the first [k] rounds of the constructor's loop have set. *)
Definition init_links (blocks : list bref) (k : nat) (h : bheap) : Prop :=
  (forall j r, blocks !! j = Some r ->
     prev_free_block (h r) = (if decide (j < k /\ 0 < j) then blocks !! (j - 1) else None) /\
     next_free_block (h r) =
       (if decide (j < k /\ j < length blocks - 1) then blocks !! (j + 1) else None)) /\
  (forall r, is_blk r -> r ∉ blocks ->
     prev_free_block (h r) = None /\ next_free_block (h r) = None).

Lemma fq_init_links_spec blocks k q E :
  NoDup blocks -> k < length blocks -> init_links blocks k (heap q) ->
  wp (fq_init_links blocks k) (fun _ q' => init_links blocks (S k) (heap q') /\
    same_meta (heap q) (heap q') /\ num_free_blocks q' = num_free_blocks q) E q.
Proof.
  intros Hnd Hk [Hin Hoff].
  destruct (lookup_lt_is_Some_2 blocks k Hk) as [b Hb].
  unfold fq_init_links. rewrite Hb. fq_step. fq_step. fq_step.
  set (q1 := if decide (0 < k) then qset b (set_prev (blocks !! (k - 1))) q else q).
  apply (wp_mono _ (fun _ q' => q' = q1) _ E); [| |done].
  { unfold q1. case_decide; [|by fq_steps].
    destruct (lookup_lt_is_Some_2 blocks (k - 1)) as [p Hp]; [lia|]. rewrite Hp. by fq_steps. }
  intros [] ? ->.
  set (q2 := if decide (k < length blocks - 1) then qset b (set_next (blocks !! (k + 1))) q1 else q1).
  apply (wp_mono _ (fun _ q' => q' = q2) _ E); [| |done].
  { unfold q2. case_decide; [|by fq_steps].
    destruct (lookup_lt_is_Some_2 blocks (k + 1)) as [p Hp]; [lia|]. rewrite Hp. by fq_steps. }
  intros [] ? ->.
  assert (Hn : forall r, next_free_block (heap q2 r) =
    if decide (r = b /\ k < length blocks - 1) then blocks !! (k + 1) else next_free_block (heap q r)).
  { intros r. unfold q2, q1. repeat case_decide; fq_simpl; repeat case_decide; naive_solver. }
  assert (Hp : forall r, prev_free_block (heap q2 r) =
    if decide (r = b /\ 0 < k) then blocks !! (k - 1) else prev_free_block (heap q r)).
  { intros r. unfold q2, q1. repeat case_decide; fq_simpl; repeat case_decide; naive_solver. }
  unfold init_links. split_and!.
  - intros j r Hr. rewrite Hn, Hp. destruct (Hin _ _ Hr) as [-> ->].
    destruct (decide (j = k)) as [->|Hjk].
    + assert (r = b) as -> by congruence.
      split; repeat case_decide; try done; exfalso; intuition lia.
    + assert (r <> b) by (intros ->; by eapply Hjk, NoDup_lookup).
      split; rewrite decide_False by tauto; repeat case_decide; try done; exfalso; intuition lia.
  - intros r Hr Hnin. assert (r <> b) by (intros ->; by apply Hnin, list_elem_of_lookup_2 with k).
    rewrite Hn, Hp, !decide_False by tauto. by apply Hoff.
  - unfold q2, q1. repeat case_decide; cbn; solve_same_meta.
  - unfold q2, q1. repeat case_decide; done.
Qed.

Lemma init_links_linked blocks h : init_links blocks (length blocks) h -> linked h blocks.
Proof.
  intros [Hi _]. apply linked_lookup. intros j a b Ha Hb.
  destruct (Hi _ _ Ha) as [_ Hna], (Hi _ _ Hb) as [Hpb _].
  apply lookup_lt_Some in Hb as Hlt. rewrite decide_True in Hna by lia. rewrite decide_True in Hpb by lia.
  replace (j + 1) with (S j) in Hna by lia. replace (S j - 1) with j in Hpb by lia.
  split; congruence.
Qed.

(** Hanging the sentinels on the ends of the linked blocks completes the queue. *)
Lemma fq_init_close blocks h q' :
  NoDup blocks -> Forall is_blk blocks -> blocks <> [] -> init_links blocks (length blocks) h ->
  num_free_blocks q' = Z.of_nat (length blocks) ->
  (forall r, next_free_block (heap q' r) =
     if decide (r = FakeTail) then None else if decide (r = pred_of blocks) then Some FakeTail
     else if decide (r = FakeHead) then Some (succ_of blocks) else next_free_block (h r)) ->
  (forall r, prev_free_block (heap q' r) =
     if decide (r = FakeHead) then None else if decide (r = FakeTail) then Some (pred_of blocks)
     else if decide (r = succ_of blocks) then Some FakeHead else prev_free_block (h r)) ->
  fq_repr q' blocks.
Proof.
  intros Hnd Hb Hne Hi Hnum Hn Hp. destruct (sentinels_not_blk _ Hb) as [HH HT].
  assert (Hl := init_links_linked _ _ Hi). destruct Hi as [_ Hoff].
  assert (Hlast : last blocks = Some (pred_of blocks)).
  { unfold pred_of. by destruct (last blocks) eqn:E; [|apply last_None in E]. }
  assert (Hhead : head blocks = Some (succ_of blocks)) by by destruct blocks.
  apply last_Some_elem_of in Hlast as Hlin. apply head_Some_elem_of in Hhead as Hhin.
  split; try done.
  - apply (linked_app _ [FakeHead]). rewrite head_snoc_tail. split_and!; [done| |].
    + apply linked_app. split_and!; [|done|].
      * eapply linked_frame; [done| | |exact Hl]; intros r Hr Hx.
        -- rewrite Hn, !decide_False; [done|by intros ->|congruence|by intros ->].
        -- rewrite Hp, !decide_False; [done|congruence|by intros ->|by intros ->].
      * intros a b Ha Hb'. simplify_eq/=. assert (pred_of blocks <> FakeTail) by congruence.
        rewrite Hn, Hp, decide_False, !decide_True by done. by rewrite decide_False.
    + intros a b Ha Hb'. simplify_eq/=. assert (succ_of blocks <> FakeHead) by congruence.
      assert (succ_of blocks <> FakeTail) by congruence. assert (FakeHead <> pred_of blocks) by congruence.
      split; [rewrite Hn|rewrite Hp]; repeat case_decide; congruence.
  - intros r Hr Hnin. assert (r <> FakeHead /\ r <> FakeTail) as [] by (split; by intros ->).
    assert (r <> pred_of blocks /\ r <> succ_of blocks) as [] by (split; by intros ->).
    rewrite Hn, Hp, !decide_False by done. by apply Hoff.
Qed.

(** Initialising the links of all blocks. *)
Lemma fq_init_loop_spec blocks q E :
  NoDup blocks -> Forall is_blk blocks ->
  (forall r, is_blk r -> prev_free_block (heap q r) = None /\ next_free_block (heap q r) = None) ->
  wp (forM (seq 0 (length blocks)) (fq_init_links blocks))
    (fun _ q' => init_links blocks (length blocks) (heap q') /\ same_meta (heap q) (heap q') /\
       num_free_blocks q' = num_free_blocks q) E q.
Proof.
  intros Hnd Hb H0.
  eapply wp_mono; [apply (wp_forM _ (fun rest q' => exists k, rest = seq k (length blocks - k) /\
      k <= length blocks /\ init_links blocks k (heap q') /\ same_meta (heap q) (heap q') /\
      num_free_blocks q' = num_free_blocks q) E)| |done].
  - exists 0. rewrite Nat.sub_0_r. split_and!; [done|lia| |done|done].
    split; [|by intros; apply H0]. intros j r Hr. rewrite !decide_False by lia.
    apply H0. by eapply Forall_lookup_1.
  - intros k rest q' (k' & Hk & ? & Hi & Hm & Hnum).
    destruct (length blocks - k') as [|m] eqn:Hm'; [done|]. simplify_eq/=.
    eapply wp_mono; [apply fq_init_links_spec; [done|lia|done]| |done].
    intros [] q'' (Hi' & Hm'' & Hnum''). exists (S k').
    split_and!; [f_equal; lia|lia|done|by etransitivity|congruence].
  - intros [] q' (k & Hk & ? & Hi & Hm & Hnum).
    destruct (length blocks - k) as [|m] eqn:Hm'; [|done].
    by replace k with (length blocks) in Hi by lia.
Qed.

(** After the constructor the queue holds the given blocks in order; the blocks' other
    fields are untouched. *)
Lemma fq_init_spec blocks q E :
  NoDup blocks -> Forall is_blk blocks ->
  (forall r, is_blk r -> prev_free_block (heap q r) = None /\ next_free_block (heap q r) = None) ->
  wp (fq_init blocks) (fun _ q' => fq_repr q' blocks /\
    forall r, is_blk r -> block_id (heap q' r) = block_id (heap q r) /\
      ref_cnt (heap q' r) = ref_cnt (heap q r) /\ block_hash (heap q' r) = block_hash (heap q r) /\
      is_null (heap q' r) = is_null (heap q r)) E q.
Proof.
  intros Hnd Hb H0. unfold fq_init. do 3 fq_step.
  eapply wp_mono; [by apply fq_init_loop_spec| |done].
  intros [] q' (Hi & Hm & Hnum). do 4 fq_step.
  assert (Hmeta : forall q2 : FreeQ, (forall r, is_blk r ->
      heap q2 r = heap q' r \/ heap q2 r = set_prev (prev_free_block (heap q2 r)) (heap q' r) \/
      heap q2 r = set_next (next_free_block (heap q2 r)) (heap q' r) \/
      heap q2 r = set_next (next_free_block (heap q2 r))
                    (set_prev (prev_free_block (heap q2 r)) (heap q' r))) ->
    forall r, is_blk r -> block_id (heap q2 r) = block_id (heap q r) /\
      ref_cnt (heap q2 r) = ref_cnt (heap q r) /\ block_hash (heap q2 r) = block_hash (heap q r) /\
      is_null (heap q2 r) = is_null (heap q r)).
  { intros q2 H2 r Hr. specialize (Hm r). destruct (H2 r Hr) as [->|[->|[->| ->]]]; exact Hm. }
  case_decide as Hlen.
  - destruct blocks as [|first bl] eqn:Eb; [simpl in Hlen; lia|]. rewrite <-Eb in *. clear Hlen.
    assert (Hf : head blocks = Some (succ_of blocks)) by by subst.
    assert (Hl : last blocks = Some (pred_of blocks)).
    { unfold pred_of. by destruct (last blocks) eqn:E2; [|apply last_None in E2; subst]. }
    apply last_Some_elem_of in Hl as Hlin. apply head_Some_elem_of in Hf as Hhin.
    destruct (sentinels_not_blk _ Hb) as [HH HT].
    assert (succ_of blocks <> FakeHead /\ succ_of blocks <> FakeTail) as [] by (split; congruence).
    assert (pred_of blocks <> FakeHead /\ pred_of blocks <> FakeTail) as [] by (split; congruence).
    rewrite Hf, Hl. fq_steps. split.
    + eapply fq_init_close; [done|done|by subst|exact Hi|exact Hnum| |];
        intros r; cbn; unfold hset; repeat (case_decide; subst; try done; try congruence).
    + apply Hmeta. intros [i| |] Hr; [|done..]. cbn. unfold hset.
      repeat (case_decide; try done; try congruence); tauto.
  - destruct blocks; [|simpl in *; lia]. fq_steps. split.
    + split; try done. intros [i| |] Hr Hnin; [|done..]. by apply Hi.
    + apply Hmeta. intros [i| |] Hr; [|done..]. by left.
Qed.

(** *** Walking the queue *)

Lemma walk_free_spec h l ret fuel :
  linked h (l ++ [FakeTail]) -> next_free_block (h FakeTail) = None -> length l <= fuel ->
  walk_free fuel h (succ_of l) ret = Some (ret ++ l).
Proof.
  induction l as [|x l IH] in ret, fuel |- *; intros Hl Ht Hf.
  - change (succ_of []) with FakeTail. destruct fuel; simpl; by rewrite Ht, app_nil_r.
  - apply linked_cons_tail in Hl as (Hn & _ & Hl).
    destruct fuel as [|fuel]; simpl in Hf; [lia|].
    change (succ_of (x :: l)) with x. cbn [walk_free]. rewrite Hn.
    rewrite IH by (done || lia). by rewrite <-app_assoc.
Qed.

(** Enough fuel is the number of free blocks; the walk returns them in order. *)
Lemma get_all_free_blocks_spec q fl fuel :
  fq_repr q fl -> length fl <= fuel ->
  get_all_free_blocks fuel q = Ok (Some fl).
Proof.
  intros Hq Hf. destruct (fq_popping_start _ _ Hq) as [[Hl _ _ _ Ht _] Hn].
  unfold get_all_free_blocks. rewrite Hn. by rewrite walk_free_spec.
Qed.

(** The list a queue represents is determined by the queue. *)
Lemma fq_repr_inj q fl fl' : fq_repr q fl -> fq_repr q fl' -> fl = fl'.
Proof.
  intros H1 H2.
  pose proof (get_all_free_blocks_spec q fl (length fl + length fl') H1 ltac:(lia)).
  pose proof (get_all_free_blocks_spec q fl' (length fl + length fl') H2 ltac:(lia)).
  congruence.
Qed.

(** * Refinement of a list queue

    The calls a client makes, with their arguments. *)
Inductive fq_op : Set :=
| OpPopleft
| OpPopleftN (n : nat)
| OpRemove (r : bref)
| OpAppend (r : bref)
| OpAppendN (rs : list bref).

Inductive fq_res : Set :=
| RUnit
| RBlocks (rs : list bref)
| RErr (e : pyexc).

(** The queue object's behaviour, exceptions reported as results. *)
Definition fq_exec (o : fq_op) (q : FreeQ) : fq_res * FreeQ :=
  let wrap {A} (f : A -> fq_res) (m : M FreeQ A) :=
    match m q with (Ok a, q') => (f a, q') | (Raise e, q') => (RErr e, q') end in
  match o with
  | OpPopleft => wrap (fun r => RBlocks [r]) popleft
  | OpPopleftN n => wrap RBlocks (popleft_n n)
  | OpRemove r => wrap (fun _ => RUnit) (remove r)
  | OpAppend r => wrap (fun _ => RUnit) (append r)
  | OpAppendN rs => wrap (fun _ => RUnit) (append_n rs)
  end.

(** The specification: a first-in first-out list with removal from the middle. [None] marks
    the calls outside of the contract (freeing a block that is free already). *)
Definition spec_exec (o : fq_op) (fl : list bref) : option (fq_res * list bref) :=
  match o with
  | OpPopleft =>
      match fl with [] => Some (RErr ValueError, []) | r :: fl' => Some (RBlocks [r], fl') end
  | OpPopleftN n =>
      if decide (n <= length fl) then Some (RBlocks (take n fl), drop n fl)
      else Some (RErr AssertionError, fl)
  | OpRemove r =>
      if decide (r ∈ fl) then Some (RUnit, filter (fun r' => r' <> r) fl)
      else if decide (is_blk r) then Some (RErr RuntimeError, fl) else None
  | OpAppend r =>
      if decide (is_blk r /\ r ∉ fl) then Some (RUnit, fl ++ [r]) else None
  | OpAppendN rs =>
      if decide (Forall is_blk rs /\ NoDup rs /\ Forall (fun r => r ∉ fl) rs)
      then Some (RUnit, fl ++ rs) else None
  end.

Fixpoint fq_run (os : list fq_op) (q : FreeQ) : list fq_res * FreeQ :=
  match os with
  | [] => ([], q)
  | o :: os' => let '(r, q') := fq_exec o q in
                let '(rs, q'') := fq_run os' q' in (r :: rs, q'')
  end.

Fixpoint spec_run (os : list fq_op) (fl : list bref) : option (list fq_res * list bref) :=
  match os with
  | [] => Some ([], fl)
  | o :: os' =>
      '(r, fl') ← spec_exec o fl;
      '(rs, fl'') ← spec_run os' fl';
      Some (r :: rs, fl'')
  end.

Lemma fq_exec_wp {A} (m : M FreeQ A) (f : A -> fq_res) q fl' res :
  wp m (fun a q' => f a = res /\ fq_repr q' fl' /\ same_meta (heap q) (heap q')) noexc q ->
  exists q', (match m q with (Ok a, q') => (f a, q') | (Raise e, q') => (RErr e, q') end)
    = (res, q') /\ fq_repr q' fl' /\ same_meta (heap q) (heap q').
Proof. intros (a & q' & -> & <- & ? & ?)%wp_noexc_run. eauto. Qed.

Lemma popleft_n_short q fl n :
  fq_repr q fl -> length fl < n -> popleft_n n q = (Raise AssertionError, q).
Proof.
  intros Hq Hn. unfold popleft_n. rewrite decide_False by lia.
  unfold mbind, M_bind, gets. rewrite bool_decide_false; [done|].
  rewrite (fr_num _ _ Hq). lia.
Qed.

Lemma filter_ne_split (l1 l2 : list bref) x :
  NoDup (l1 ++ x :: l2) -> filter (fun r' => r' <> x) (l1 ++ x :: l2) = l1 ++ l2.
Proof.
  intros (_ & Hd & [Hx _]%NoDup_cons)%NoDup_app.
  rewrite filter_app, filter_cons, decide_False by tauto.
  f_equal; apply filter_all; intros r Hr ->; [|done].
  apply (Hd _ Hr). by left.
Qed.

Lemma fq_exec_refines o q fl res fl' :
  fq_repr q fl -> spec_exec o fl = Some (res, fl') ->
  exists q', fq_exec o q = (res, q') /\ fq_repr q' fl' /\ same_meta (heap q) (heap q').
Proof.
  intros Hq Ho. destruct o as [|n|r|r|rs]; simpl in Ho; repeat case_decide; simplify_eq.
  - destruct fl as [|x fl]; simplify_eq; [simpl; rewrite popleft_empty by done; by exists q|].
    apply fq_exec_wp. eapply wp_mono; [by apply popleft_spec| |done]. by intros r q' (-> & ? & ?).
  - rewrite <-(take_drop n fl) in Hq.
    assert (length (take n fl) = n) as Hlen by (rewrite length_take; lia).
    pose proof (popleft_n_spec q _ _ noexc Hq) as Hwp. rewrite Hlen in Hwp.
    apply fq_exec_wp. eapply wp_mono; [exact Hwp| |done]. by intros r q' (-> & ? & ?).
  - simpl. erewrite popleft_n_short by (done || lia). by exists q.
  - apply list_elem_of_split in H as (l1 & l2 & ->).
    rewrite filter_ne_split by apply (fr_nodup _ _ Hq).
    apply fq_exec_wp. eapply wp_mono; [by apply remove_spec| |done]. by intros _ q' [? ?].
  - simpl. erewrite remove_absent by done. by exists q.
  - destruct H. apply fq_exec_wp. eapply wp_mono; [by apply append_spec| |done]. by intros _ q' [? ?].
  - destruct H as (? & ? & Hn). rewrite Forall_forall in Hn.
    apply fq_exec_wp. eapply wp_mono; [by apply append_n_spec| |done]. by intros _ q' [? ?].
Qed.

Lemma fq_run_refines os q fl rs fl' :
  fq_repr q fl -> spec_run os fl = Some (rs, fl') ->
  exists q', fq_run os q = (rs, q') /\ fq_repr q' fl' /\ same_meta (heap q) (heap q').
Proof.
  induction os as [|o os IH] in q, fl, rs |- *; simpl; intros Hq Hs.
  { simplify_eq. by exists q. }
  destruct (spec_exec o fl) as [[r fl1]|] eqn:Ho; simplify_eq/=.
  destruct (spec_run os fl1) as [[rs' fl2]|] eqn:Hos; simplify_eq/=.
  destruct (fq_exec_refines _ _ _ _ _ Hq Ho) as (q1 & -> & Hq1 & Hm1).
  destruct (IH _ _ _ Hq1 Hos) as (q2 & -> & Hq2 & Hm2).
  exists q2. split_and!; [done..|by etransitivity].
Qed.

(** * Properties *)

(** The store [BlockPool.__init__] builds: block [i] has id [i]. *)
Definition fresh_heap : bheap :=
  fun r => match r with Blk i => new_block (Z.of_nat i) | _ => new_block (-1) end.

(** C21: The linked free-block queue implements a list queue. Built on any distinct blocks, it
    answers every sequence of calls that stays within the contract (no block is freed twice)
    exactly as a first-in first-out list with removal from the middle does, errors included;
    afterwards [get_all_free_blocks] lists the queue and [num_free_blocks] is its length, and no
    call touched a reference count, a hash or an id. *)
Theorem free_queue_refines (blocks : list bref) (os : list fq_op) rs fl :
  NoDup blocks -> Forall is_blk blocks ->
  spec_run os blocks = Some (rs, fl) ->
  exists q0 q, fq_init blocks (mkFreeQ fresh_heap 0) = (Ok tt, q0) /\ fq_run os q0 = (rs, q) /\
    get_all_free_blocks (length fl) q = Ok (Some fl) /\
    num_free_blocks q = Z.of_nat (length fl) /\
    (forall i, ref_cnt (heap q (Blk i)) = 0%Z /\ block_hash (heap q (Blk i)) = None /\
               block_id (heap q (Blk i)) = Z.of_nat i).
Proof.
  intros Hnd Hb Hs.
  destruct (wp_noexc_run _ _ _ (fq_init_spec blocks (mkFreeQ fresh_heap 0) noexc Hnd Hb ltac:(by intros [])))
    as ([] & q0 & Hi & Hq0 & Hm0).
  destruct (fq_run_refines os q0 blocks rs fl Hq0 Hs) as (q & Hr & Hq & Hm).
  exists q0, q. split_and!; [done|done|by apply get_all_free_blocks_spec|by apply fr_num|].
  intros i. destruct (Hm (Blk i)) as (-> & -> & -> & _). destruct (Hm0 (Blk i) I) as (-> & -> & -> & _).
  done.
Qed.

Lemma free_queue_refines_witness :
  exists q0 q, fq_init (Blk <$> seq 0 5) (mkFreeQ fresh_heap 0) = (Ok tt, q0) /\
    fq_run [OpPopleft; OpRemove (Blk 2); OpPopleftN 2; OpAppendN [Blk 3; Blk 0]; OpPopleftN 9] q0
    = ([RBlocks [Blk 0]; RUnit; RBlocks [Blk 1; Blk 3]; RUnit; RErr AssertionError], q) /\
    get_all_free_blocks 3 q = Ok (Some [Blk 4; Blk 3; Blk 0]).
Proof.
  destruct (free_queue_refines (Blk <$> seq 0 5)
    [OpPopleft; OpRemove (Blk 2); OpPopleftN 2; OpAppendN [Blk 3; Blk 0]; OpPopleftN 9]
    [RBlocks [Blk 0]; RUnit; RBlocks [Blk 1; Blk 3]; RUnit; RErr AssertionError]
    [Blk 4; Blk 3; Blk 0]) as (q0 & q & H1 & H2 & H3 & _).
  - apply (bool_decide_unpack (NoDup (Blk <$> seq 0 5))). vm_compute. exact I.
  - apply (bool_decide_unpack (Forall is_blk (Blk <$> seq 0 5))). vm_compute. exact I.
  - vm_compute. reflexivity.
  - exists q0, q. split; [exact H1|]. split; [exact H2|exact H3].
Defined.
