(* ===== verification/Request.v ===== *)
(** Requests of the engine: [vllm/v1/request.py].

    A [Request] object is a record; methods that mutate it return the new record.  Times are
    integers.  The block hasher that [Request.__init__] binds with [functools.partial] is an
    argument of the operations that call it ([HashKeys.request_block_hasher] is the one the
    engine passes). *)
From stdpp Require Import base gmap list strings.
From Stdlib Require Import ZArith Lia.
From S2P Require Import Prelude BlockQueue.

(** * Status *)

Inductive RequestStatus : Set :=
| WAITING | WAITING_FOR_FSM | WAITING_FOR_REMOTE_KVS | RUNNING | PREEMPTED
| FINISHED_STOPPED | FINISHED_LENGTH_CAPPED | FINISHED_ABORTED | FINISHED_IGNORED.

#[global] Instance RequestStatus_eq_dec : EqDecision RequestStatus.
Proof. solve_decision. Defined.

(** [enum.auto()] numbers the members from 1. *)
Definition status_value (s : RequestStatus) : Z :=
  match s with
  | WAITING => 1 | WAITING_FOR_FSM => 2 | WAITING_FOR_REMOTE_KVS => 3 | RUNNING => 4
  | PREEMPTED => 5 | FINISHED_STOPPED => 6 | FINISHED_LENGTH_CAPPED => 7
  | FINISHED_ABORTED => 8 | FINISHED_IGNORED => 9
  end.

Definition status_is_finished (s : RequestStatus) : bool :=
  (status_value PREEMPTED <? status_value s)%Z.

Inductive FinishReason : Set := STOP | LENGTH | ABORT.

Definition finished_reason_map (s : RequestStatus) : option FinishReason :=
  match s with
  | FINISHED_STOPPED => Some STOP
  | FINISHED_LENGTH_CAPPED => Some LENGTH
  | FINISHED_ABORTED => Some ABORT
  | FINISHED_IGNORED => Some LENGTH
  | _ => None
  end.

Definition status_get_finished_reason (s : RequestStatus) : option FinishReason :=
  finished_reason_map s.

(** * Parameters of a request *)

Record SamplingParams := mkSP {
  sp_max_tokens : option Z;
  (** [guided_decoding is not None] *)
  sp_guided_decoding : bool;
  sp_extra_args : option (gmap string string);
  sp_prompt_logprobs : option Z
}.

Record LoRARequest := mkLora {
  lora_name : string;
  lora_int_id : Z
}.

Record PlaceholderRange := mkRange {
  pr_offset : nat;
  pr_length : nat
}.

Record MultiModalFeatureSpec := mkFeature {
  mf_position : PlaceholderRange;
  mf_identifier : string
}.

Inductive EngineCoreEventType : Set := QUEUED | SCHEDULED | PREEMPTED_EVENT.

Record Request := mkRequest {
  request_id : string;
  client_index : Z;
  priority : Z;
  sampling_params : option SamplingParams;
  pooling_params : option unit;
  lora_request : option LoRARequest;
  arrival_time : Z;
  status : RequestStatus;
  use_structured_output : bool;
  events : list (EngineCoreEventType * Z);
  kv_transfer_params : option string;
  max_tokens : Z;
  prompt_token_ids : list Z;
  output_token_ids : list Z;
  all_token_ids : list Z;
  num_output_placeholders : Z;
  spec_token_ids : list Z;
  num_computed_tokens : Z;
  cache_salt : option string;
  mm_positions : list PlaceholderRange;
  mm_hashes : list string;
  num_cached_tokens : Z;
  num_nans_in_logits : Z;
  block_hashes : list bytes
}.

(** Field updates. *)
Definition set_tokens (out all : list Z) (r : Request) : Request :=
  mkRequest (request_id r) (client_index r) (priority r) (sampling_params r) (pooling_params r)
    (lora_request r) (arrival_time r) (status r) (use_structured_output r) (events r)
    (kv_transfer_params r) (max_tokens r) (prompt_token_ids r) out all
    (num_output_placeholders r) (spec_token_ids r) (num_computed_tokens r) (cache_salt r)
    (mm_positions r) (mm_hashes r) (num_cached_tokens r) (num_nans_in_logits r) (block_hashes r).
Definition set_block_hashes (hs : list bytes) (r : Request) : Request :=
  mkRequest (request_id r) (client_index r) (priority r) (sampling_params r) (pooling_params r)
    (lora_request r) (arrival_time r) (status r) (use_structured_output r) (events r)
    (kv_transfer_params r) (max_tokens r) (prompt_token_ids r) (output_token_ids r)
    (all_token_ids r) (num_output_placeholders r) (spec_token_ids r) (num_computed_tokens r)
    (cache_salt r) (mm_positions r) (mm_hashes r) (num_cached_tokens r)
    (num_nans_in_logits r) hs.
Definition set_events (ev : list (EngineCoreEventType * Z)) (r : Request) : Request :=
  mkRequest (request_id r) (client_index r) (priority r) (sampling_params r) (pooling_params r)
    (lora_request r) (arrival_time r) (status r) (use_structured_output r) ev
    (kv_transfer_params r) (max_tokens r) (prompt_token_ids r) (output_token_ids r)
    (all_token_ids r) (num_output_placeholders r) (spec_token_ids r) (num_computed_tokens r)
    (cache_salt r) (mm_positions r) (mm_hashes r) (num_cached_tokens r)
    (num_nans_in_logits r) (block_hashes r).

Definition num_tokens (r : Request) : nat := length (all_token_ids r).
Definition num_tokens_with_spec (r : Request) : nat :=
  length (all_token_ids r) + length (spec_token_ids r).
Definition num_output_tokens (r : Request) : nat := length (output_token_ids r).
Definition is_output_corrupted (r : Request) : bool := (0 <? num_nans_in_logits r)%Z.
Definition is_finished (r : Request) : bool := status_is_finished (status r).
Definition get_finished_reason (r : Request) : option FinishReason :=
  status_get_finished_reason (status r).

(** [assert input_id < len(self.mm_positions)], then the length of that range; [input_id] is
    never negative. *)
Definition get_num_encoder_tokens (r : Request) (input_id : nat) : outcome nat :=
  match mm_positions r !! input_id with
  | None => Raise AssertionError
  | Some p => Ok (pr_length p)
  end.

Definition record_event (e : EngineCoreEventType) (ts : Z) (r : Request) : Request :=
  set_events (events r ++ [(e, ts)]) r.

Definition request_take_events (r : Request)
  : option (list (EngineCoreEventType * Z)) * Request :=
  match events r with
  | [] => (None, r)
  | ev => (Some ev, set_events [] r)
  end.

(** * Construction and growth *)

Definition hasher : Type := Request -> outcome (list bytes).

(** [Request.__init__]; [now] is [time.time()]. *)
Definition request_init (id : string) (prompt : list Z) (sp : option SamplingParams)
    (pp : option unit) (client : Z) (arrival : option Z) (now : Z)
    (mm_features : option (list MultiModalFeatureSpec)) (lora : option LoRARequest)
    (salt : option string) (prio : Z) (block_hasher : option hasher) : outcome Request :=
  '(st, uso, kvp, mt) ←
    match pp, sp with
    | Some _, _ => Ok (WAITING, false, None, 1%Z)
    | None, Some sp =>
        match sp_max_tokens sp with
        | None => Raise AssertionError
        | Some mt =>
            Ok (if sp_guided_decoding sp then WAITING_FOR_FSM else WAITING,
                sp_guided_decoding sp,
                sp_extra_args sp ≫= (fun m => m !! "kv_transfer_params"%string),
                mt)
        end
    | None, None => Raise ValueError
    end;
  let feats := default [] mm_features in
  let r := mkRequest id client prio sp pp lora (default now arrival) st uso [] kvp mt
             prompt [] prompt 0 [] 0 salt (mf_position <$> feats) (mf_identifier <$> feats)
             (-1) 0 [] in
  match block_hasher with
  | None => Ok r
  | Some hf => hs ← hf r; Ok (set_block_hashes hs r)
  end.

(** [append_output_token_ids] with a list (an [int] argument appends a singleton). *)
Definition append_output_token_ids (block_hasher : option hasher) (toks : list Z) (r : Request)
  : outcome Request :=
  let r := set_tokens (output_token_ids r ++ toks) (all_token_ids r ++ toks) r in
  match block_hasher with
  | None => Ok r
  | Some hf => hs ← hf r; Ok (set_block_hashes (block_hashes r ++ hs) r)
  end.

(** * Facts *)

(** The token lists agree. *)
Definition tokens_wf (r : Request) : Prop :=
  all_token_ids r = prompt_token_ids r ++ output_token_ids r.

Lemma request_init_tokens_wf id prompt sp pp cl arr now mm lora salt prio bh r :
  request_init id prompt sp pp cl arr now mm lora salt prio bh = Ok r ->
  tokens_wf r /\ prompt_token_ids r = prompt /\ output_token_ids r = [].
Proof.
  unfold request_init, tokens_wf. intros H.
  destruct pp as [u|], sp as [sp|]; simpl in H; try done;
    try (destruct (sp_max_tokens sp); simpl in H; [|done]);
    destruct bh as [hf|]; simplify_eq/=; rewrite ?app_nil_r; try done;
    (destruct (hf _); simplify_eq/=; by rewrite ?app_nil_r).
Qed.

Lemma append_output_tokens_wf bh toks r r' :
  append_output_token_ids bh toks r = Ok r' -> tokens_wf r ->
  tokens_wf r' /\ prompt_token_ids r' = prompt_token_ids r /\
  output_token_ids r' = output_token_ids r ++ toks.
Proof.
  unfold append_output_token_ids, tokens_wf. intros H Hwf.
  destruct bh as [hf|]; [destruct (hf _)|]; simplify_eq/=; rewrite Hwf, <-app_assoc; done.
Qed.
