(* ===== verification/HashKeys.v ===== *)
(** Block hashes for prefix caching: the first part of [vllm/v1/core/kv_cache_utils.py].

    [BlockHashWithGroupId] packing, the extra keys of a block (LoRA, multi-modal inputs, cache
    salt), the chained block hash and the hasher of the full blocks of a request.  The hash
    function itself (sha256, or a pickled builtin hash) is a parameter. *)
From stdpp Require Import base gmap list strings.
From Stdlib Require Import ZArith Lia.
From S2P Require Import Prelude BlockQueue Request.

(** * Keys as bytes *)

(** Python's [int.to_bytes(k, "big", signed=False)] and [int.from_bytes(.., "big")]. *)
Fixpoint be_bytes (k : nat) (n : Z) : bytes :=
  match k with
  | O => []
  | S k' => be_bytes k' (n / 256) ++ [(n mod 256)%Z]
  end.

Definition to_bytes (k : nat) (n : Z) : outcome bytes :=
  if bool_decide (0 <= n < 2 ^ (8 * Z.of_nat k))%Z then Ok (be_bytes k n)
  else Raise OverflowError.

Definition from_bytes (b : bytes) : Z := fold_left (fun acc x => acc * 256 + x)%Z b 0%Z.

Definition make_block_hash_with_group_id (h : bytes) (group_id : Z) : outcome bytes :=
  g ← to_bytes 4 group_id;
  Ok (h ++ g).

(** [key[:-4]] and [key[-4:]]. *)
Definition get_block_hash (key : bytes) : bytes := take (length key - 4) key.
Definition get_group_id (key : bytes) : Z := from_bytes (drop (length key - 4) key).

Inductive ExternalBlockHash : Set :=
| ExtBytes (b : bytes)
| ExtInt (n : Z).

(** [use_int] is the environment setting [VLLM_KV_EVENTS_USE_INT_BLOCK_HASHES]. *)
Definition maybe_convert_block_hash (use_int : bool) (h : bytes) : ExternalBlockHash :=
  if negb use_int then ExtBytes h
  else ExtInt (Z.land (from_bytes h) (Z.shiftl 1 64 - 1)).

(** * Extra keys *)

(** The values an extra-keys tuple holds. *)
Inductive extra_key : Set :=
| KInt (n : Z)
| KStr (s : string).

#[global] Instance extra_key_eq_dec : EqDecision extra_key.
Proof. solve_decision. Defined.

Definition need_extra_keys (r : Request) : bool :=
  bool_decide (mm_hashes r <> []) || bool_decide (is_Some (lora_request r)) ||
  bool_decide (is_Some (cache_salt r)).

(** The [while] loop over the inputs from [curr_mm_idx] on. *)
Fixpoint gen_mm_loop (start_token_idx end_token_idx : nat)
    (inputs : list (PlaceholderRange * string)) (curr : nat) (keys : list extra_key)
  : list extra_key * nat :=
  match inputs with
  | [] => (keys, curr)
  | (p, h) :: rest =>
      if end_token_idx <=? pr_offset p then (keys, curr)
      else if pr_offset p + pr_length p <? start_token_idx
      then gen_mm_loop start_token_idx end_token_idx rest (S curr) keys
      else
        let keys := keys ++ [KStr h] in
        if pr_offset p + pr_length p <=? end_token_idx
        then gen_mm_loop start_token_idx end_token_idx rest (S curr) keys
        else (keys, curr)
  end.

Definition gen_mm_extra_hash_keys (r : Request) (start_token_idx end_token_idx : nat)
    (start_mm_idx : Z) : outcome (list extra_key * Z) :=
  match last (mm_positions r) with
  | None => Ok ([], start_mm_idx)
  | Some lst =>
      if negb (length (mm_positions r) =? length (mm_hashes r)) then Raise ValueError
      else if pr_offset lst + pr_length lst <? start_token_idx then Ok ([], start_mm_idx)
      else
        start ← (if (start_mm_idx <? 0)%Z then
                   _ ← assert_ (- start_mm_idx <=? Z.of_nat (length (mm_positions r)))%Z;
                   Ok (Z.of_nat (length (mm_positions r)) + start_mm_idx)%Z
                 else Ok start_mm_idx);
        let s := Z.to_nat start in
        let '(keys, curr) :=
          gen_mm_loop start_token_idx end_token_idx (drop s (zip (mm_positions r) (mm_hashes r))) s []
        in Ok (keys, Z.of_nat curr)
  end.

Definition gen_lora_extra_hash_keys (r : Request) : list Z :=
  match lora_request r with
  | None => []
  | Some l => [lora_int_id l]
  end.

Definition generate_block_hash_extra_keys (r : Request) (start_token_idx end_token_idx : nat)
    (start_mm_idx : Z) : outcome (option (list extra_key) * Z) :=
  '(mm_keys, new_start) ← gen_mm_extra_hash_keys r start_token_idx end_token_idx start_mm_idx;
  let lora_keys := KInt <$> gen_lora_extra_hash_keys r in
  let salt_keys :=
    if start_token_idx =? 0 then
      match cache_salt r with
      | Some s => if String.eqb s "" then [] else [KStr s]
      | None => []
      end
    else [] in
  match lora_keys ++ mm_keys ++ salt_keys with
  | [] => Ok (None, new_start)
  | ks => Ok (Some ks, new_start)
  end.

(** * Hashing the blocks of a request *)

(** What a block hash is computed from. *)
Definition hash_input : Type := bytes * list Z * option (list extra_key).

Section hashing.
(** The caching hash function, and [NONE_HASH] as [init_none_hash] sets it. *)
Context (hash_fn : hash_input -> bytes) (NONE_HASH : bytes).

Definition hash_block_tokens (parent : option bytes) (toks : list Z)
    (extra : option (list extra_key)) : bytes :=
  let parent :=
    match parent with
    | None | Some [] => NONE_HASH
    | Some p => p
    end in
  hash_fn (parent, toks, extra).

(** The [while True] loop. A round consumes [block_size] tokens, so with a positive block
    size [num_tokens] rounds are enough; [None] is fuel exhausted (the loop does not end). *)
Fixpoint hash_loop (fuel block_size : nat) (r : Request) (start : nat) (mm : Z)
    (prev : option bytes) (acc : list bytes) : option (outcome (list bytes)) :=
  if num_tokens r <? start + block_size then Some (Ok acc)
  else
    match fuel with
    | O => None
    | S fuel' =>
        match generate_block_hash_extra_keys r start (start + block_size) mm with
        | Raise e => Some (Raise e)
        | Ok (extra, mm') =>
            let toks := take block_size (drop start (all_token_ids r)) in
            let h := hash_block_tokens prev toks extra in
            hash_loop fuel' block_size r (start + block_size) mm' (Some h) (acc ++ [h])
        end
    end.

Definition request_block_hasher (block_size : nat) (r : Request)
  : option (outcome (list bytes)) :=
  let start := length (block_hashes r) * block_size in
  let mm := if 0 <? start then (-1)%Z else 0%Z in
  hash_loop (num_tokens r) block_size r start mm (last (block_hashes r)) [].
End hashing.

(** [init_none_hash]: [seed] is [PYTHONHASHSEED], [urandom] the 32 random bytes. *)
Definition init_none_hash (hash_str : string -> bytes) (seed : option string)
    (urandom : bytes) : bytes :=
  match seed with
  | None => urandom
  | Some s => hash_str s
  end.

(** * Prefix caching metrics *)

Record PrefixCacheStats := mkStats {
  st_reset : bool;
  st_requests : Z;
  st_queries : Z;
  st_hits : Z
}.

Record PrefixCachingMetrics := mkMetrics {
  max_recent_requests : Z;
  aggregated_requests : Z;
  aggregated_query_total : Z;
  aggregated_query_hit : Z;
  query_queue : list (Z * Z * Z)
}.

Definition metrics_init (max_recent : Z) : PrefixCachingMetrics := mkMetrics max_recent 0 0 0 [].
Definition metrics_reset (m : PrefixCachingMetrics) : PrefixCachingMetrics :=
  mkMetrics (max_recent_requests m) 0 0 0 [].

Definition metrics_observe (stats : PrefixCacheStats) (m : PrefixCachingMetrics)
  : PrefixCachingMetrics :=
  let m := if st_reset stats then metrics_reset m else m in
  let m := mkMetrics (max_recent_requests m)
             (aggregated_requests m + st_requests stats)
             (aggregated_query_total m + st_queries stats)
             (aggregated_query_hit m + st_hits stats)
             (query_queue m ++ [(st_requests stats, st_queries stats, st_hits stats)]) in
  if (max_recent_requests m <? aggregated_requests m)%Z then
    match query_queue m with
    | [] => m
    | (r, q, h) :: rest =>
        mkMetrics (max_recent_requests m) (aggregated_requests m - r)
          (aggregated_query_total m - q) (aggregated_query_hit m - h) rest
    end
  else m.

(** [hit_rate] as the fraction [(numerator, denominator)] it divides. *)
Definition hit_rate (m : PrefixCachingMetrics) : Z * Z :=
  if (aggregated_query_total m =? 0)%Z then (0%Z, 1%Z)
  else (aggregated_query_hit m, aggregated_query_total m).

(** * Packing keys *)

Lemma be_bytes_length k n : length (be_bytes k n) = k.
Proof. induction k in n |- *; simpl; [done|]. rewrite length_app, IHk. simpl. lia. Qed.

Lemma from_bytes_snoc b x : from_bytes (b ++ [x]) = (from_bytes b * 256 + x)%Z.
Proof. unfold from_bytes. by rewrite fold_left_app. Qed.

Lemma from_be_bytes k n : (0 <= n < 2 ^ (8 * Z.of_nat k))%Z -> from_bytes (be_bytes k n) = n.
Proof.
  induction k as [|k IH] in n |- *; intros Hn.
  - change (2 ^ (8 * Z.of_nat 0))%Z with 1%Z in Hn. simpl. unfold from_bytes. simpl. lia.
  - cbn [be_bytes]. rewrite from_bytes_snoc, IH.
    + pose proof (Z.div_mod n 256). lia.
    + replace (8 * Z.of_nat (S k))%Z with (8 + 8 * Z.of_nat k)%Z in Hn by lia.
      rewrite Z.pow_add_r in Hn by lia. change (2 ^ 8)%Z with 256%Z in Hn.
      split; [apply Z.div_pos; lia|]. apply Z.div_lt_upper_bound; lia.
Qed.

Lemma make_block_hash_ok h g k :
  make_block_hash_with_group_id h g = Ok k -> get_block_hash k = h /\ get_group_id k = g.
Proof.
  unfold make_block_hash_with_group_id, to_bytes. case_bool_decide as Hg; [|done].
  generalize (be_bytes_length 4 g) (from_be_bytes 4 g Hg). generalize (be_bytes 4 g).
  intros w Hw Hfrom [= <-]. unfold get_block_hash, get_group_id.
  rewrite length_app, Hw. replace (length h + 4 - 4) with (length h) by lia.
  by rewrite take_app_length, drop_app_length.
Qed.

Lemma make_block_hash_inj h g h' g' k :
  make_block_hash_with_group_id h g = Ok k -> make_block_hash_with_group_id h' g' = Ok k ->
  h = h' /\ g = g'.
Proof. intros [<- <-]%make_block_hash_ok [<- <-]%make_block_hash_ok. done. Qed.

Lemma make_block_hash_in_range h g :
  (0 <= g < 2 ^ 32)%Z -> exists k, make_block_hash_with_group_id h g = Ok k.
Proof.
  intros Hg. unfold make_block_hash_with_group_id, to_bytes. rewrite bool_decide_true by exact Hg.
  eauto.
Qed.

(** * The chain of hashes *)

(** The token blocks [start, start + n * bs) of a token list. *)
Definition token_blocks (bs : nat) (toks : list Z) (start n : nat) : list (list Z) :=
  (fun k => take bs (drop (start + k * bs) toks)) <$> seq 0 n.

(** The extra keys of consecutive blocks, the multi-modal index threaded through. *)
Fixpoint extras_from (bs : nat) (r : Request) (start : nat) (mm : Z)
    (es : list (option (list extra_key))) : Prop :=
  match es with
  | [] => True
  | e :: es' => exists mm', generate_block_hash_extra_keys r start (start + bs) mm = Ok (e, mm') /\
                            extras_from bs r (start + bs) mm' es'
  end.

Lemma token_blocks_S bs toks start n :
  token_blocks bs toks start (S n) = take bs (drop start toks) :: token_blocks bs toks (start + bs) n.
Proof.
  unfold token_blocks. cbn [seq fmap list_fmap]. f_equal; [f_equal; f_equal; lia|].
  rewrite <-fmap_S_seq, <-list_fmap_compose. apply list_fmap_ext. intros i k _. simpl. f_equal. f_equal. lia.
Qed.

Section chain.
Context (hash_fn : hash_input -> bytes) (NONE_HASH : bytes).

Abbreviation hash1 := (hash_block_tokens hash_fn NONE_HASH).

Fixpoint chain_hashes (prev : option bytes) (bl : list (list Z * option (list extra_key)))
  : list bytes :=
  match bl with
  | [] => []
  | (t, e) :: bl' => let h := hash1 prev t e in h :: chain_hashes (Some h) bl'
  end.

Lemma chain_hashes_length prev bl : length (chain_hashes prev bl) = length bl.
Proof. induction bl as [|[t e] bl IH] in prev |- *; simpl; [done|]. by rewrite IH. Qed.

Lemma chain_hashes_app prev bl1 bl2 :
  chain_hashes prev (bl1 ++ bl2) =
  chain_hashes prev bl1 ++
  chain_hashes (match last (chain_hashes prev bl1) with Some h => Some h | None => prev end) bl2.
Proof.
  induction bl1 as [|[t e] bl1 IH] in prev |- *; [done|].
  cbn [app chain_hashes]. rewrite IH. f_equal. f_equal.
  destruct (chain_hashes _ bl1) as [|h l]; [done|]. rewrite last_cons_cons.
  by destruct (last (h :: l)) eqn:E2; [|apply last_None in E2].
Qed.

(** The loop computes the chain over the full blocks that are left. *)
Lemma hash_loop_chain fuel bs r start mm prev acc hs :
  hash_loop hash_fn NONE_HASH fuel bs r start mm prev acc = Some (Ok hs) -> 0 < bs ->
  exists es, length es = (num_tokens r - start) / bs /\ extras_from bs r start mm es /\
    hs = acc ++ chain_hashes prev (zip (token_blocks bs (all_token_ids r) start (length es)) es).
Proof.
  intros H Hbs. induction fuel as [|fuel IH] in start, mm, prev, acc, H |- *; simpl in H;
    case_match eqn:Hlt; simplify_eq.
  - exists []. apply Nat.ltb_lt in Hlt. rewrite Nat.div_small by lia. by rewrite app_nil_r.
  - exists []. apply Nat.ltb_lt in Hlt. rewrite Nat.div_small by lia. by rewrite app_nil_r.
  - apply Nat.ltb_ge in Hlt.
    destruct (generate_block_hash_extra_keys r start (start + bs) mm) as [[e mm']|] eqn:Hg; [|done].
    destruct (IH _ _ _ _ H) as (es & Hlen & Hes & ->).
    exists (e :: es). split_and!.
    + simpl. rewrite Hlen. replace (num_tokens r - start) with (num_tokens r - (start + bs) + 1 * bs) by lia.
      rewrite Nat.div_add by lia. lia.
    + simpl. eauto.
    + cbn [length]. rewrite token_blocks_S. simpl. by rewrite <-app_assoc.
Qed.

(** With a positive block size the loop ends. *)
Lemma hash_loop_terminates fuel bs r start mm prev acc :
  0 < bs -> num_tokens r < start + bs + fuel ->
  is_Some (hash_loop hash_fn NONE_HASH fuel bs r start mm prev acc).
Proof.
  intros Hbs. induction fuel as [|fuel IH] in start, mm, prev, acc |- *; intros Hf; simpl;
    case_match eqn:Hlt; try done.
  - apply Nat.ltb_ge in Hlt. lia.
  - destruct (generate_block_hash_extra_keys _ _ _ _) as [[e mm']|]; [|done].
    apply IH. lia.
Qed.
End chain.

(** ** Collision freedom

    What prefix caching relies on: the caching hash function has no collisions, its digests
    are not empty, and the random root [NONE_HASH] is not a digest. *)
Class CollisionFree (hash_fn : hash_input -> bytes) (NONE_HASH : bytes) : Prop := {
  cf_inj : forall x y, hash_fn x = hash_fn y -> x = y;
  cf_nonempty : forall x, hash_fn x <> [];
  cf_root : forall x, hash_fn x <> NONE_HASH
}.

Section collision_free.
Context (hash_fn : hash_input -> bytes) (NONE_HASH : bytes) `{!CollisionFree hash_fn NONE_HASH}.

Abbreviation hash1 := (hash_block_tokens hash_fn NONE_HASH).
Abbreviation chain := (chain_hashes hash_fn NONE_HASH).

Definition parent_bytes (p : option bytes) : bytes :=
  match p with None | Some [] => NONE_HASH | Some b => b end.

Lemma hash_block_tokens_inj p t e p' t' e' :
  hash1 p t e = hash1 p' t' e' -> parent_bytes p = parent_bytes p' /\ t = t' /\ e = e'.
Proof. unfold hash_block_tokens. intros H%(cf_inj (NONE_HASH := NONE_HASH)). by simplify_eq. Qed.

Lemma chain_lookup prev bl i h :
  chain prev bl !! i = Some h ->
  exists t e, bl !! i = Some (t, e) /\
    h = hash1 (match i with O => prev | S i' => chain prev bl !! i' end) t e.
Proof.
  induction bl as [|[t e] bl IH] in prev, i |- *; [done|].
  destruct i as [|i]; simpl; intros Hi; [simplify_eq; by exists t, e|].
  destruct (IH _ _ Hi) as (t' & e' & Hbl & ->). exists t', e'. split; [done|].
  by destruct i.
Qed.

Lemma chain_hash_is_digest prev bl i h : chain prev bl !! i = Some h -> exists x, h = hash_fn x.
Proof. intros (t & e & _ & ->)%chain_lookup. unfold hash_block_tokens. eauto. Qed.

Lemma chain_parent_bytes prev bl i h :
  chain prev bl !! i = Some h -> parent_bytes (chain prev bl !! i) = h.
Proof.
  intros Hi. destruct (chain_hash_is_digest _ _ _ _ Hi) as [x ->]. rewrite Hi.
  pose proof (cf_nonempty (NONE_HASH := NONE_HASH) x). by destruct (hash_fn x).
Qed.

(** Equal hashes, at any two positions of any two chains, come from equal positions and equal
    blocks all the way back to the root. *)
Lemma chain_prefix_inj bl1 bl2 i j h :
  chain None bl1 !! i = Some h -> chain None bl2 !! j = Some h ->
  i = j /\ take (S i) bl1 = take (S i) bl2.
Proof.
  induction i as [|i IH] in j, h |- *; intros H1 H2.
  - destruct (chain_lookup _ _ _ _ H1) as (t1 & e1 & Hb1 & E1).
    destruct (chain_lookup _ _ _ _ H2) as (t2 & e2 & Hb2 & E2).
    rewrite E1 in E2. apply hash_block_tokens_inj in E2 as (Hp & -> & ->).
    destruct j as [|j].
    + split; [done|]. by rewrite (take_S_r bl1 0 (t2, e2)), (take_S_r bl2 0 (t2, e2)).
    + exfalso. apply lookup_lt_Some in H2 as Hlt. rewrite chain_hashes_length in Hlt.
      destruct (chain None bl2 !! j) as [hp|] eqn:Hj.
      2:{ apply lookup_ge_None in Hj. rewrite chain_hashes_length in Hj. lia. }
      rewrite <-Hj, (chain_parent_bytes _ _ _ _ Hj) in Hp.
      destruct (chain_hash_is_digest _ _ _ _ Hj) as [x ->].
      by apply (cf_root (NONE_HASH := NONE_HASH) x).
  - destruct (chain_lookup _ _ _ _ H1) as (t1 & e1 & Hb1 & E1).
    destruct (chain_lookup _ _ _ _ H2) as (t2 & e2 & Hb2 & E2).
    assert (exists hp, chain None bl1 !! i = Some hp) as [hp Hi].
    { apply lookup_lt_is_Some_2. apply lookup_lt_Some in H1. lia. }
    rewrite E1 in E2. apply hash_block_tokens_inj in E2 as (Hp & -> & ->).
    rewrite (chain_parent_bytes _ _ _ _ Hi) in Hp.
    destruct j as [|j].
    + exfalso. destruct (chain_hash_is_digest _ _ _ _ Hi) as [x ->].
      by apply (cf_root (NONE_HASH := NONE_HASH) x).
    + assert (exists hp', chain None bl2 !! j = Some hp') as [hp' Hj].
      { apply lookup_lt_is_Some_2. apply lookup_lt_Some in H2. lia. }
      rewrite (chain_parent_bytes _ _ _ _ Hj) in Hp. subst hp'.
      destruct (IH _ _ Hi Hj) as [-> Ht]. split; [done|].
      by rewrite (take_S_r _ _ _ Hb1), (take_S_r _ _ _ Hb2), Ht.
Qed.
End collision_free.

(** ** Extra keys *)

(** The LoRA id can be read off the extra keys: it comes first, and the other keys are
    strings. *)
Definition extra_lora (e : option (list extra_key)) : option Z :=
  match e with Some (KInt n :: _) => Some n | _ => None end.

Lemma gen_mm_loop_strings st en inputs c ks ks' c' :
  gen_mm_loop st en inputs c ks = (ks', c') ->
  Forall (fun k => exists s, k = KStr s) ks -> Forall (fun k => exists s, k = KStr s) ks'.
Proof.
  induction inputs as [|[p h] rest IH] in c, ks |- *; simpl; intros H Hks; [by simplify_eq|].
  repeat case_match; simplify_eq; try done.
  - by eapply IH.
  - eapply IH; [done|]. apply Forall_app; split; [done|]. apply Forall_singleton. eauto.
  - apply Forall_app; split; [done|]. apply Forall_singleton. eauto.
Qed.

Lemma gen_mm_strings r st en mm ks mm' :
  gen_mm_extra_hash_keys r st en mm = Ok (ks, mm') -> Forall (fun k => exists s, k = KStr s) ks.
Proof.
  unfold gen_mm_extra_hash_keys, assert_. intros H.
  repeat (case_match; simplify_eq/=); try done;
    (destruct (gen_mm_loop _ _ _ _ _) as [ks1 c1] eqn:E; simplify_eq; by eapply gen_mm_loop_strings).
Qed.

Lemma extra_keys_lora r st en mm e mm' :
  generate_block_hash_extra_keys r st en mm = Ok (e, mm') ->
  extra_lora e = lora_int_id <$> lora_request r.
Proof.
  unfold generate_block_hash_extra_keys, gen_lora_extra_hash_keys. intros H.
  destruct (gen_mm_extra_hash_keys r st en mm) as [[ks mm1]|] eqn:Hmm; simpl in H; [|done].
  apply gen_mm_strings in Hmm. destruct (lora_request r) as [l|]; simpl in H; [by simplify_eq|].
  destruct ks as [|k ks]; simpl in H.
  - repeat case_match; by simplify_eq.
  - apply Forall_cons in Hmm as [[s ->] _]. by simplify_eq.
Qed.

(** The salt as the hash sees it: the empty string counts as no salt. *)
Definition salt_of (r : Request) : option string :=
  match cache_salt r with Some s => if String.eqb s "" then None else Some s | None => None end.

(** For a request without multi-modal inputs the extra keys of a block are a function of the
    LoRA id, the salt and whether the block is the first. *)
Definition plain_extra (r : Request) (start : nat) : option (list extra_key) :=
  match (KInt <$> gen_lora_extra_hash_keys r) ++
        (if start =? 0 then match salt_of r with Some s => [KStr s] | None => [] end else []) with
  | [] => None
  | ks => Some ks
  end.

Lemma plain_extra_keys r st en mm :
  mm_positions r = [] -> generate_block_hash_extra_keys r st en mm = Ok (plain_extra r st, mm).
Proof.
  intros Hmm. unfold generate_block_hash_extra_keys, gen_mm_extra_hash_keys, plain_extra, salt_of.
  rewrite Hmm. simpl. repeat case_match; by simplify_eq.
Qed.

Lemma extras_from_plain bs r start mm es :
  mm_positions r = [] -> extras_from bs r start mm es ->
  es = (fun k => plain_extra r (start + k * bs)) <$> seq 0 (length es).
Proof.
  intros Hmm. induction es as [|e es IH] in start, mm |- *; [done|].
  cbn [extras_from]. rewrite plain_extra_keys by done. intros (mm' & [= <- <-] & H).
  cbn [length seq fmap list_fmap]. rewrite Nat.mul_0_l, Nat.add_0_r. f_equal.
  rewrite (IH _ _ H) at 1. rewrite <-fmap_S_seq, <-list_fmap_compose.
  apply list_fmap_ext. intros i k _. simpl. f_equal. lia.
Qed.

Lemma plain_extra_salt r1 r2 :
  plain_extra r1 0 = plain_extra r2 0 ->
  lora_int_id <$> lora_request r1 = lora_int_id <$> lora_request r2 /\ salt_of r1 = salt_of r2.
Proof.
  unfold plain_extra, gen_lora_extra_hash_keys.
  repeat case_match; simpl; intros; simplify_eq/=; try done; split; congruence.
Qed.

(** * The hasher of a request *)

(** The hasher the engine binds to its requests. With a positive block size the loop ends
    ([hasher_terminates]), so the last case does not arise. *)
Definition engine_hasher (hash_fn : hash_input -> bytes) (NONE_HASH : bytes) (bs : nat) : hasher :=
  fun r => match request_block_hasher hash_fn NONE_HASH bs r with
           | Some o => o
           | None => Raise RuntimeError
           end.

(** What hashing all the blocks of a request from the start gives. *)
Definition full_hashes (hash_fn : hash_input -> bytes) (NONE_HASH : bytes) (bs : nat) (r : Request)
  : outcome (list bytes) := engine_hasher hash_fn NONE_HASH bs (set_block_hashes [] r).

(** Appending the tokens of several steps. *)
Fixpoint append_all (bh : option hasher) (steps : list (list Z)) (r : Request) : outcome Request :=
  match steps with
  | [] => Ok r
  | toks :: steps' => r' ← append_output_token_ids bh toks r; append_all bh steps' r'
  end.

Section request_hashes.
Context (hash_fn : hash_input -> bytes) (NONE_HASH : bytes).

Abbreviation chain := (chain_hashes hash_fn NONE_HASH).
Abbreviation hasher_of := (request_block_hasher hash_fn NONE_HASH).

Lemma hasher_is_Some bs r : 0 < bs -> is_Some (hasher_of bs r).
Proof. intros ?. apply hash_loop_terminates; lia. Qed.

(** Hashing a fresh request: the chain over its full blocks. *)
Lemma hasher_fresh bs r hs :
  0 < bs -> block_hashes r = [] -> hasher_of bs r = Some (Ok hs) ->
  exists es, length es = num_tokens r / bs /\ extras_from bs r 0 0 es /\
    hs = chain None (zip (token_blocks bs (all_token_ids r) 0 (length es)) es).
Proof.
  intros Hbs Hh. unfold request_block_hasher. rewrite Hh. simpl. intros H.
  apply hash_loop_chain in H as (es & Hlen & Hes & ->); [|done]. exists es.
  by rewrite Nat.sub_0_r in Hlen.
Qed.

(** The chain over the first [n] blocks of a request without multi-modal inputs. *)
Definition plain_chain (bs : nat) (r : Request) (prev : option bytes) (k n : nat) : list bytes :=
  chain prev (zip (token_blocks bs (all_token_ids r) (k * bs) n)
                  ((fun i => plain_extra r (k * bs + i * bs)) <$> seq 0 n)).

Lemma hash_loop_plain fuel bs r k mm prev acc :
  0 < bs -> mm_positions r = [] -> num_tokens r < k * bs + bs + fuel ->
  hash_loop hash_fn NONE_HASH fuel bs r (k * bs) mm prev acc =
  Some (Ok (acc ++ plain_chain bs r prev k (num_tokens r / bs - k))).
Proof.
  intros Hbs Hmm. unfold plain_chain.
  induction fuel as [|fuel IH] in k, mm, prev, acc |- *; intros Hf; simpl.
  - case_match eqn:Hlt; [|apply Nat.ltb_ge in Hlt; lia]. apply Nat.ltb_lt in Hlt.
    assert (num_tokens r / bs < S k) by (apply Nat.Div0.div_lt_upper_bound; lia).
    replace (num_tokens r / bs - k) with 0 by lia. simpl. by rewrite app_nil_r.
  - case_match eqn:Hlt; [apply Nat.ltb_lt in Hlt|apply Nat.ltb_ge in Hlt].
    + assert (num_tokens r / bs < S k) by (apply Nat.Div0.div_lt_upper_bound; lia).
      replace (num_tokens r / bs - k) with 0 by lia. simpl. by rewrite app_nil_r.
    + rewrite plain_extra_keys by done.
      replace (k * bs + bs) with (S k * bs) by lia. rewrite IH by lia.
      assert (S k <= num_tokens r / bs) by (apply Nat.div_le_lower_bound; lia).
      replace (num_tokens r / bs - k) with (S (num_tokens r / bs - S k)) by lia.
      rewrite token_blocks_S. cbn [seq fmap list_fmap zip zip_with chain_hashes].
      rewrite <-app_assoc. simpl. rewrite Nat.add_0_r. do 3 f_equal.
      replace (k * bs + bs) with (bs + k * bs) by lia. f_equal. f_equal.
      rewrite <-fmap_S_seq, <-list_fmap_compose. f_equal. apply list_fmap_ext. intros i ? _. simpl.
      f_equal. lia.
Qed.

Lemma hasher_plain bs r k :
  0 < bs -> mm_positions r = [] -> length (block_hashes r) = k ->
  hasher_of bs r = Some (Ok (plain_chain bs r (last (block_hashes r)) k (num_tokens r / bs - k))).
Proof.
  intros Hbs Hmm <-. unfold request_block_hasher.
  rewrite hash_loop_plain by (done || lia). done.
Qed.

Lemma plain_chain_length bs r prev k n : length (plain_chain bs r prev k n) = n.
Proof.
  unfold plain_chain. rewrite chain_hashes_length, length_zip_with. unfold token_blocks.
  rewrite !length_fmap, length_seq. lia.
Qed.

Lemma full_hashes_plain bs r :
  0 < bs -> mm_positions r = [] ->
  full_hashes hash_fn NONE_HASH bs r = Ok (plain_chain bs r None 0 (num_tokens r / bs)).
Proof.
  intros Hbs Hmm. unfold full_hashes, engine_hasher.
  rewrite (hasher_plain bs (set_block_hashes [] r) 0) by done. by rewrite Nat.sub_0_r.
Qed.

(** Blocks that are full do not change when tokens are appended. *)
Lemma token_blocks_app bs toks toks' k :
  k * bs <= length toks -> token_blocks bs (toks ++ toks') 0 k = token_blocks bs toks 0 k.
Proof.
  intros Hk. unfold token_blocks. apply list_fmap_ext. intros i j [-> Hi]%lookup_seq. simpl.
  rewrite drop_app_le by nia. rewrite take_app_le; [done|]. rewrite length_drop. nia.
Qed.

Lemma plain_chain_split bs r k m :
  plain_chain bs r None 0 (k + m) =
  plain_chain bs r None 0 k ++ plain_chain bs r (last (plain_chain bs r None 0 k)) k m.
Proof.
  unfold plain_chain at 1. unfold token_blocks.
  rewrite seq_app, !fmap_app, zip_with_app by by rewrite !length_fmap.
  rewrite chain_hashes_app. f_equal. unfold plain_chain, token_blocks. simpl.
  replace (seq k m) with (seq (k + 0) m) by (f_equal; lia). rewrite <-fmap_add_seq, <-!list_fmap_compose.
  set (l := chain None _). replace (match last l with Some h => Some h | None => None end) with (last l)
    by (by destruct (last l)). f_equal. f_equal; apply list_fmap_ext; intros i ? _; simpl; do 2 f_equal; lia.
Qed.

Lemma plain_chain_ext bs r r' prev k n :
  token_blocks bs (all_token_ids r) (k * bs) n = token_blocks bs (all_token_ids r') (k * bs) n ->
  lora_request r = lora_request r' -> cache_salt r = cache_salt r' ->
  plain_chain bs r prev k n = plain_chain bs r' prev k n.
Proof.
  intros Ht Hl Hs. unfold plain_chain. rewrite Ht. f_equal. f_equal. apply list_fmap_ext.
  intros i ? _. unfold plain_extra, gen_lora_extra_hash_keys, salt_of. by rewrite Hl, Hs.
Qed.

(** The hashes a request holds are those of its full blocks. *)
Definition hashes_current (bs : nat) (r : Request) : Prop :=
  full_hashes hash_fn NONE_HASH bs r = Ok (block_hashes r).

Lemma append_hashes_current bs toks r :
  0 < bs -> mm_positions r = [] -> hashes_current bs r ->
  exists r', append_output_token_ids (Some (engine_hasher hash_fn NONE_HASH bs)) toks r = Ok r' /\
    mm_positions r' = [] /\ hashes_current bs r' /\ all_token_ids r' = all_token_ids r ++ toks.
Proof.
  unfold hashes_current. intros Hbs Hmm. rewrite full_hashes_plain by done. intros [= Hcur].
  unfold append_output_token_ids. set (r1 := set_tokens _ _ r). unfold engine_hasher.
  set (k := num_tokens r / bs) in *.
  assert (k * bs <= num_tokens r) by (unfold k; pose proof (Nat.Div0.mul_div_le (num_tokens r) bs); lia).
  assert (Hk : k <= num_tokens r1 / bs).
  { apply Nat.Div0.div_le_mono. unfold num_tokens, r1. simpl. rewrite length_app. lia. }
  assert (Hsame : plain_chain bs r None 0 k = plain_chain bs r1 None 0 k).
  { apply plain_chain_ext; [|done..]. symmetry. by apply token_blocks_app. }
  assert (block_hashes r1 = plain_chain bs r1 None 0 k) as Hr1 by (simpl; congruence).
  rewrite (hasher_plain bs r1 k); [|done|done|rewrite Hr1; apply plain_chain_length].
  simpl. eexists; split_and!; [done|done| |done].
  rewrite full_hashes_plain by done. f_equal. simpl. change (block_hashes r) with (block_hashes r1).
  rewrite Hr1. change (num_tokens (set_block_hashes ?l r1)) with (num_tokens r1).
  transitivity (plain_chain bs r1 None 0 (k + (num_tokens r1 / bs - k))); [|apply plain_chain_split].
  replace (k + (num_tokens r1 / bs - k)) with (num_tokens r1 / bs) by lia. by apply plain_chain_ext.
Qed.
End request_hashes.

Lemma concat_token_blocks bs toks n : concat (token_blocks bs toks 0 n) = take (n * bs) toks.
Proof.
  induction n as [|n IH]; [done|]. unfold token_blocks in *. rewrite seq_S, fmap_app, concat_app, IH.
  simpl. rewrite app_nil_r. replace (bs + n * bs) with (n * bs + bs) by lia. apply take_take_drop.
Qed.

Lemma take_token_blocks bs toks n i :
  i <= n -> take i (token_blocks bs toks 0 n) = token_blocks bs toks 0 i.
Proof.
  intros Hi. unfold token_blocks. rewrite <-fmap_take. f_equal. rewrite take_seq. f_equal. lia.
Qed.

Lemma take_zip_eq {A B} (l1 l2 : list A) (k1 k2 : list B) i :
  length l1 = length k1 -> length l2 = length k2 ->
  take i (zip l1 k1) = take i (zip l2 k2) -> take i l1 = take i l2 /\ take i k1 = take i k2.
Proof.
  induction i as [|i IH] in l1, l2, k1, k2 |- *; intros H1 H2 H; [done|].
  destruct l1, k1, l2, k2; simplify_eq/=; try done.
  destruct (IH l1 l2 k1 k2) as [-> ->]; [lia..|done|done].
Qed.

(** * A collision-free hash, for examples *)

#[global] Instance extra_key_countable : Countable extra_key.
Proof.
  refine (inj_countable' (fun k => match k with KInt n => inl n | KStr s => inr s end)
            (fun x : Z + string => match x with inl n => KInt n | inr s => KStr s end) _).
  by intros [].
Defined.

Definition toy_hash (x : hash_input) : bytes := [Zpos (encode x)].
Definition toy_root : bytes := [0%Z].

#[global] Instance toy_collision_free : CollisionFree toy_hash toy_root.
Proof.
  split.
  - intros x y H. unfold toy_hash in H. injection H. apply encode_inj.
  - done.
  - done.
Qed.

Definition toy_request (toks : list Z) (lora : option LoRARequest) (salt : option string)
    (mm : list MultiModalFeatureSpec) : Request :=
  mkRequest "r" 0 0 None None lora 0 RUNNING false [] None 16 toks [] toks 0 [] 0 salt
    (mf_position <$> mm) (mf_identifier <$> mm) (-1) 0 [].

(** * Properties *)




Definition toy_sp : SamplingParams := mkSP (Some 16%Z) false None None.


(** With a positive block size the hasher's [while True] loop ends on every request. *)
Theorem hasher_terminates hash_fn NONE_HASH (bs : nat) (r : Request) :
  0 < bs -> is_Some (request_block_hasher hash_fn NONE_HASH bs r).
Proof. apply hasher_is_Some. Qed.

Lemma hasher_terminates_witness :
  is_Some (request_block_hasher toy_hash toy_root 2 (toy_request [1; 2; 3]%Z None None [])).
Proof. apply hasher_terminates. lia. Defined.

(** A block hash packed with its KV cache group id unpacks to both; ids in [0, 2^32) can be
    packed, other ids raise [OverflowError]. *)
Theorem block_key_roundtrip (h : bytes) (g : Z) :
  match make_block_hash_with_group_id h g with
  | Ok key => (0 <= g < 2 ^ 32)%Z /\ get_block_hash key = h /\ get_group_id key = g
  | Raise e => ~ (0 <= g < 2 ^ 32)%Z /\ e = OverflowError
  end.
Proof.
  destruct (make_block_hash_with_group_id h g) as [key|e] eqn:H.
  - apply make_block_hash_ok in H as Hk. split; [|done]. revert H.
    unfold make_block_hash_with_group_id, to_bytes. case_bool_decide; done.
  - revert H. unfold make_block_hash_with_group_id, to_bytes. case_bool_decide; [done|].
    intros [= <-]. done.
Qed.

(** Component-wise sums of the recorded observations. *)
Definition sum3 (q : list (Z * Z * Z)) : Z * Z * Z :=
  fold_right (fun '(a, b, c) '(x, y, z) => (a + x, b + y, c + z)%Z) (0, 0, 0)%Z q.

Lemma sum3_app q1 q2 :
  sum3 (q1 ++ q2) =
  let '(a, b, c) := sum3 q1 in let '(x, y, z) := sum3 q2 in (a + x, b + y, c + z)%Z.
Proof.
  induction q1 as [|[[a b] c] q1 IH]; simpl.
  - by destruct (sum3 q2) as [[x y] z].
  - rewrite IH. destruct (sum3 q1) as [[? ?] ?], (sum3 q2) as [[? ?] ?]. f_equal; [f_equal|]; lia.
Qed.

Definition metrics_ok (m : PrefixCachingMetrics) : Prop :=
  sum3 (query_queue m) = (aggregated_requests m, aggregated_query_total m, aggregated_query_hit m).

Definition stats_triple (st : PrefixCacheStats) : Z * Z * Z :=
  (st_requests st, st_queries st, st_hits st).

(** What is left of the window [q] when [st] arrives, before the oldest entry may go. *)
Definition window_after (st : PrefixCacheStats) (q : list (Z * Z * Z)) : list (Z * Z * Z) :=
  (if st_reset st then [] else q) ++ [stats_triple st].

Lemma metrics_observe_ok st m :
  metrics_ok m ->
  metrics_ok (metrics_observe st m) /\
  exists n, n <= 1 /\ query_queue (metrics_observe st m) = drop n (window_after st (query_queue m)) /\
    (n = 0 -> (aggregated_requests (metrics_observe st m) <= max_recent_requests m)%Z).
Proof.
  unfold metrics_ok, metrics_observe, window_after, stats_triple. intros Hm.
  set (m0 := if st_reset st then metrics_reset m else m).
  assert (sum3 (query_queue m0) =
    (aggregated_requests m0, aggregated_query_total m0, aggregated_query_hit m0)) as Hm0.
  { unfold m0. by case_match. }
  assert (query_queue m0 = if st_reset st then [] else query_queue m) as Hq0.
  { unfold m0. by case_match. }
  assert (max_recent_requests m0 = max_recent_requests m) as <- by (unfold m0; by case_match).
  rewrite <-Hq0. clearbody m0. cbn.
  assert (sum3 (query_queue m0 ++ [(st_requests st, st_queries st, st_hits st)]) =
    (aggregated_requests m0 + st_requests st, aggregated_query_total m0 + st_queries st,
     aggregated_query_hit m0 + st_hits st)%Z) as Hs.
  { rewrite sum3_app, Hm0. simpl. f_equal; [f_equal|]; lia. }
  destruct (Z.ltb_spec (max_recent_requests m0) (aggregated_requests m0 + st_requests st)).
  - destruct (query_queue m0 ++ _) as [|[[a b] c] rest] eqn:E; [by destruct (query_queue m0)|].
    cbn. simpl in Hs. fold (sum3 rest). destruct (sum3 rest) as [[x y] z]. injection Hs as Ha Hb Hc. split.
    + repeat f_equal; lia.
    + exists 1. split_and!; [lia| |done]. done.
  - cbn. split; [done|]. exists 0. split_and!; [lia|done|]. intros _. lia.
Qed.

(** The sliding-window statistics are exact: after any sequence of observations the
    aggregated request, query and hit counts are the sums over the entries still in the window,
    and the window is a suffix of the observations, oldest first. *)
Theorem metrics_window_exact (max_recent : Z) (obs : list PrefixCacheStats) :
  let m := fold_left (fun m st => metrics_observe st m) obs (metrics_init max_recent) in
  sum3 (query_queue m) = (aggregated_requests m, aggregated_query_total m, aggregated_query_hit m) /\
  exists n, query_queue m = drop n (stats_triple <$> obs).
Proof.
  induction obs as [|st obs IH] using rev_ind; [split; [done|by exists 0]|].
  rewrite fold_left_app. cbn [fold_left]. destruct IH as [Hm (n & Hn)].
  destruct (metrics_observe_ok st _ Hm) as (Hm' & k & Hk & Hq & _). split; [exact Hm'|].
  rewrite Hq, Hn. unfold window_after. rewrite fmap_app. simpl. destruct (st_reset st).
  - exists (length (stats_triple <$> obs) + k).
    rewrite <-drop_drop, drop_app_length. done.
  - set (l := stats_triple <$> obs). destruct (decide (n <= length l)).
    + exists (n + k). rewrite <-drop_drop, (drop_app_le l) by done. done.
    + exists (length l + k). rewrite <-drop_drop, drop_app_length, (drop_ge l) by lia. done.
Qed.

(** The window can hold more than the configured number of requests: one entry at most leaves
    per observation. *)
Lemma metrics_window_exceeds :
  let obs := [mkStats false 1 1 0; mkStats false 1 1 0; mkStats false 9 9 0]%Z in
  let m := fold_left (fun m st => metrics_observe st m) obs (metrics_init 4) in
  (max_recent_requests m < aggregated_requests m)%Z.
Proof. vm_compute. reflexivity. Qed.

(** ** Two multi-modal inputs in the last, partial block of the prompt

    Such a block is hashed once generated tokens fill it; the hasher then starts from the last
    input ([curr_mm_idx = -1]) and the other input does not enter the hash. *)

(** A prompt of 6 tokens, blocks of 4, one-token inputs [a] and [b] at offsets 4 and 5, and two
    generated tokens. *)
Definition two_images (hash_fn : hash_input -> bytes) (NONE_HASH : bytes) (a b : string)
  : outcome Request :=
  r ← request_init "r" [1; 2; 3; 4; 99; 99]%Z (Some toy_sp) None 0 None 0
        (Some [mkFeature (mkRange 4 1) a; mkFeature (mkRange 5 1) b]) None None 0
        (Some (engine_hasher hash_fn NONE_HASH 4));
  append_all (Some (engine_hasher hash_fn NONE_HASH 4)) [[7]; [8]]%Z r.

(** Requests that differ in the first of two multi-modal inputs of the last prompt block get
    the same block hashes when they grow, although hashing them from scratch tells them apart:
    the prefix cache can serve one request the blocks of the other. *)
Theorem trailing_mm_input_not_hashed hash_fn NONE_HASH `{!CollisionFree hash_fn NONE_HASH}
    (a a' b : string) :
  a <> a' ->
  exists r r', two_images hash_fn NONE_HASH a b = Ok r /\ two_images hash_fn NONE_HASH a' b = Ok r' /\
    mm_hashes r = [a; b] /\ mm_hashes r' = [a'; b] /\
    block_hashes r = block_hashes r' /\ length (block_hashes r) = 2 /\
    full_hashes hash_fn NONE_HASH 4 r <> full_hashes hash_fn NONE_HASH 4 r'.
Proof.
  intros Hne. eexists _, _. split; [reflexivity|]. split; [reflexivity|].
  split; [done|]. split; [done|]. split; [done|]. split; [done|].
  cbn. intros [= H].
  apply hash_block_tokens_inj in H as (_ & _ & [=]); [done|]. exact CollisionFree0.
Qed.

Lemma trailing_mm_input_not_hashed_witness :
  exists r r', two_images toy_hash toy_root "cat" "x" = Ok r /\ two_images toy_hash toy_root "dog" "x" = Ok r' /\
    block_hashes r = block_hashes r'.
Proof.
  destruct (trailing_mm_input_not_hashed toy_hash toy_root "cat" "dog" "x") as (r & r' & H1 & H2 & _ & _ & H & _).
  - discriminate.
  - exists r, r'. split; [exact H1|]. split; [exact H2|exact H].
Defined.
