(* ===== verification/BlockPool.v ===== *)
(** The block pool: [vllm/v1/core/block_pool.py], [BlockPool].

    The state is the store of block objects with the free queue ([BlockQueue]), the prefix-cache
    dictionary and the event queue.  The abstraction [pool_repr] relates it to the list of free
    blocks, a reference count per block and a hash per block; every method is shown to act on
    that abstraction as specified. *)
From stdpp Require Import base gmap list.
From Stdlib Require Import ZArith QArith Lia Lqa.
From S2P Require Import Prelude BlockQueue Request HashKeys.
Open Scope nat_scope.

(** * State *)

Inductive KVCacheEvent : Set :=
| BlockStored (block_hashes : list ExternalBlockHash) (parent : option ExternalBlockHash)
    (token_ids : list Z) (block_size : nat) (lora_id : option Z)
| BlockRemoved (block_hashes : list ExternalBlockHash)
| AllBlocksCleared.

(** A Python [dict[int, KVCacheBlock]]: pairs in insertion order. *)
Abbreviation bdict := (list (Z * bref)).

Fixpoint dict_set (k : Z) (v : bref) (d : bdict) : bdict :=
  match d with
  | [] => [(k, v)]
  | (k', v') :: d' => if decide (k' = k) then (k, v) :: d' else (k', v') :: dict_set k v d'
  end.

(** [d.pop(k, None)]. *)
Definition dict_pop (k : Z) (d : bdict) : bdict := filter (fun kv => kv.1 <> k) d.

Record BlockPool := mkPool {
  num_gpu_blocks : nat;
  enable_caching : bool;
  queue : FreeQ;
  cached_block_hash_to_block : gmap bytes bdict;
  null_block : bref;
  enable_kv_cache_events : bool;
  (** [VLLM_KV_EVENTS_USE_INT_BLOCK_HASHES] *)
  use_int_hashes : bool;
  kv_event_queue : list KVCacheEvent
}.

Definition set_queue (q : FreeQ) (p : BlockPool) : BlockPool :=
  mkPool (num_gpu_blocks p) (enable_caching p) q (cached_block_hash_to_block p) (null_block p)
    (enable_kv_cache_events p) (use_int_hashes p) (kv_event_queue p).
Definition set_cached (c : gmap bytes bdict) (p : BlockPool) : BlockPool :=
  mkPool (num_gpu_blocks p) (enable_caching p) (queue p) c (null_block p)
    (enable_kv_cache_events p) (use_int_hashes p) (kv_event_queue p).
Definition set_event_queue (ev : list KVCacheEvent) (p : BlockPool) : BlockPool :=
  mkPool (num_gpu_blocks p) (enable_caching p) (queue p) (cached_block_hash_to_block p)
    (null_block p) (enable_kv_cache_events p) (use_int_hashes p) ev.

(** [self.blocks]. *)
Definition blocks (p : BlockPool) : list bref := Blk <$> seq 0 (num_gpu_blocks p).

Definition blk (p : BlockPool) (r : bref) : KVCacheBlock := heap (queue p) r.

(** Running a queue method, reading and writing a block's field. *)
Definition on_queue {A} : M FreeQ A -> M BlockPool A := zoom queue set_queue.
Definition rdb {A} (r : bref) (f : KVCacheBlock -> A) : M BlockPool A := on_queue (rd r f).
Definition wrb (r : bref) (f : KVCacheBlock -> KVCacheBlock) : M BlockPool unit := on_queue (wr r f).
Definition push_event (e : KVCacheEvent) : M BlockPool unit :=
  modify (fun p => set_event_queue (kv_event_queue p ++ [e]) p).

(** * Operations *)

(** [BlockPool.__init__]. *)
Definition pool_init (num : nat) (caching events use_int : bool) : outcome BlockPool :=
  _ ← assert_ (0 <? num);
  match fq_init (Blk <$> seq 0 num) (mkFreeQ fresh_heap 0) with
  | (Raise e, _) => Raise e
  | (Ok _, q) =>
      match popleft q with
      | (Raise e, _) => Raise e
      | (Ok null, q) =>
          Ok (mkPool num caching (qset null (set_is_null true) q) ∅ null events use_int [])
      end
  end.

Definition get_num_free_blocks (p : BlockPool) : Z := num_free_blocks (queue p).

Fixpoint get_cached_block (p : BlockPool) (h : bytes) (kv_cache_group_ids : list Z)
  : outcome (option (list bref)) :=
  match kv_cache_group_ids with
  | [] => Ok (Some [])
  | g :: gs =>
      key ← make_block_hash_with_group_id h g;
      match cached_block_hash_to_block p !! key with
      | None | Some [] => Ok None
      | Some ((_, first) :: _) =>
          rest ← get_cached_block p h gs;
          Ok (option_map (cons first) rest)
      end
  end.

(** The [block_hash] property setter. *)
Definition assign_hash (r : bref) (h : bytes) : M BlockPool unit :=
  old ← rdb r block_hash;
  assertM (bool_decide (old = None)) ;;
  wrb r (set_hash (Some h)).

(** The body of the loop of [cache_full_blocks]; the accumulator is [new_hashes] (filled whether
    or not events are enabled, and used only when they are). *)
Definition cache_block_body (kv_cache_group_id : Z) (new_block_hashes : list bytes)
    (new_hashes : list ExternalBlockHash) (ib : nat * bref) : M BlockPool (list ExternalBlockHash) :=
  let '(i, b) := ib in
  old ← rdb b block_hash;
  assertM (bool_decide (old = None)) ;;
  h ← (match new_block_hashes !! i with Some h => mret h | None => raise IndexError end);
  key ← lift_out (make_block_hash_with_group_id h kv_cache_group_id);
  assign_hash b key ;;
  id ← rdb b block_id;
  modify (fun p =>
    set_cached (<[key := dict_set id b (default [] (cached_block_hash_to_block p !! key))]>
                  (cached_block_hash_to_block p)) p) ;;
  ui ← gets use_int_hashes;
  mret (new_hashes ++ [maybe_convert_block_hash ui h]).

(** [request.lora_request.id]: [LoRARequest] has no attribute [id]. *)
Definition lora_request_id (l : LoRARequest) : outcome Z := Raise AttributeError.

Definition cache_full_blocks (r : Request) (bs : list bref)
    (num_cached_blocks num_full_blocks block_size : nat) (kv_cache_group_id : Z) : M BlockPool unit :=
  if num_cached_blocks =? num_full_blocks then mret tt else
  let new_full_blocks := take (num_full_blocks - num_cached_blocks) (drop num_cached_blocks bs) in
  assertM (num_full_blocks <=? length (block_hashes r)) ;;
  let new_block_hashes := drop num_cached_blocks (block_hashes r) in
  new_hashes ← foldM (zip (seq 0 (length new_full_blocks)) new_full_blocks) []
                 (cache_block_body kv_cache_group_id new_block_hashes);
  ev ← gets enable_kv_cache_events;
  if (ev : bool) then
    ui ← gets use_int_hashes;
    parent ←
      (if num_cached_blocks =? 0 then mret None
       else
         pb ← (match bs !! (num_cached_blocks - 1) with
               | Some b => mret b | None => raise IndexError end);
         ph ← rdb pb block_hash;
         match ph with
         | None => raise AssertionError
         | Some k => mret (Some (maybe_convert_block_hash ui (get_block_hash k)))
         end);
    lora ← (match lora_request r with
            | Some l => id ← lift_out (lora_request_id l); mret (Some id)
            | None => mret None
            end);
    push_event
      (BlockStored new_hashes parent
         (take ((num_full_blocks - num_cached_blocks) * block_size)
            (drop (num_cached_blocks * block_size) (all_token_ids r)))
         block_size lora)
  else mret tt.

Definition maybe_evict_cached_block (b : bref) : M BlockPool bool :=
  bh ← rdb b block_hash;
  match bh with
  | None => mret false
  | Some h =>
      cached ← gets cached_block_hash_to_block;
      match cached !! h with
      | None => mret false
      | Some by_id =>
          wrb b (set_hash None) ;;
          id ← rdb b block_id;
          let by_id' := dict_pop id by_id in
          modify (fun p => set_cached
            (if decide (length by_id' = 0) then delete h (cached_block_hash_to_block p)
             else <[h := by_id']> (cached_block_hash_to_block p)) p) ;;
          ev ← gets enable_kv_cache_events;
          ui ← gets use_int_hashes;
          (if (ev : bool) then push_event (BlockRemoved [maybe_convert_block_hash ui (get_block_hash h)])
           else mret tt) ;;
          mret true
      end
  end.

Definition incr_ref (b : bref) : M BlockPool unit := wrb b (fun x => set_ref_cnt (ref_cnt x + 1) x).
Definition decr_ref (b : bref) : M BlockPool unit := wrb b (fun x => set_ref_cnt (ref_cnt x - 1) x).

Definition take_new_block (caching : bool) (b : bref) : M BlockPool unit :=
  (if caching then _ ← maybe_evict_cached_block b; mret tt else mret tt) ;;
  c ← rdb b ref_cnt;
  assertM (bool_decide (c = 0%Z)) ;;
  incr_ref b.

Definition get_new_blocks (num_blocks : nat) : M BlockPool (list bref) :=
  free ← gets get_num_free_blocks;
  if bool_decide (free < Z.of_nat num_blocks)%Z then raise ValueError else
  ret ← on_queue (popleft_n num_blocks);
  caching ← gets enable_caching;
  forM ret (take_new_block caching) ;;
  mret ret.

Definition touch_block (b : bref) : M BlockPool unit :=
  c ← rdb b ref_cnt;
  null ← rdb b is_null;
  (if bool_decide (c = 0%Z) && negb null then on_queue (remove b) else mret tt) ;;
  incr_ref b.

Definition touch (bss : list (list bref)) : M BlockPool unit :=
  forM bss (fun bs => forM bs touch_block).

Definition free_blocks (ordered_blocks : list bref) : M BlockPool unit :=
  forM ordered_blocks decr_ref ;;
  p ← get;
  on_queue (append_n
    (filter (fun b => ref_cnt (blk p b) = 0%Z /\ is_null (blk p b) = false) ordered_blocks)).

Definition reset_prefix_cache : M BlockPool bool :=
  p ← get;
  let num_used_blocks := (Z.of_nat (num_gpu_blocks p) - get_num_free_blocks p)%Z in
  if bool_decide (num_used_blocks <> 1%Z) then mret false
  else
    modify (set_cached ∅) ;;
    forM (blocks p) (fun b => wrb b (set_hash None)) ;;
    (if enable_kv_cache_events p then push_event AllBlocksCleared else mret tt) ;;
    mret true.

(** The float [1.0 - free / total], as a rational. *)
Definition get_usage (p : BlockPool) : Q :=
  let total_gpu_blocks := (Z.of_nat (num_gpu_blocks p) - 1)%Z in
  if (total_gpu_blocks =? 0)%Z then 0%Q
  else (1 - inject_Z (get_num_free_blocks p) / inject_Z total_gpu_blocks)%Q.

Definition take_events : M BlockPool (list KVCacheEvent) :=
  p ← get;
  if enable_kv_cache_events p then modify (set_event_queue []) ;; mret (kv_event_queue p)
  else mret [].

(** * The pool's invariant *)

Definition in_pool (p : BlockPool) (r : bref) : Prop := exists i, r = Blk i /\ i < num_gpu_blocks p.

Definition refc (p : BlockPool) (r : bref) : Z := ref_cnt (blk p r).
Definition hashc (p : BlockPool) (r : bref) : option bytes := block_hash (blk p r).

(** The prefix-cache dictionary is the inverse of the hashes in the blocks, and holds no empty
    inner dictionary. *)
Record cache_ok (c : gmap bytes bdict) (hash : bref -> option bytes) (n : nat) : Prop := {
  co_wf : forall h d, c !! h = Some d -> d <> [] /\ NoDup d.*1;
  co_iff : forall h z r, (exists d, c !! h = Some d /\ (z, r) ∈ d) <->
    exists i, i < n /\ z = Z.of_nat i /\ r = Blk i /\ hash r = Some h
}.

(** What holds also in the middle of a method: [fl] is the free queue, in eviction order. *)
Record pool_core (p : BlockPool) (fl : list bref) : Prop := {
  po_queue : fq_repr (queue p) fl;
  po_num : 0 < num_gpu_blocks p;
  po_null : null_block p = Blk 0;
  po_ids : forall i, i < num_gpu_blocks p -> block_id (blk p (Blk i)) = Z.of_nat i;
  po_isnull : forall i, i < num_gpu_blocks p -> is_null (blk p (Blk i)) = bool_decide (i = 0);
  po_cache : cache_ok (cached_block_hash_to_block p) (hashc p) (num_gpu_blocks p);
  po_nullhash : hashc p (Blk 0) = None
}.

(** Between calls the free blocks are exactly the blocks without a reference, the null block
    apart, and no count is negative. *)
Record pool_ok (p : BlockPool) (fl : list bref) : Prop := {
  po_core : pool_core p fl;
  po_free : forall r, r ∈ fl <-> in_pool p r /\ r <> Blk 0 /\ refc p r = 0%Z;
  po_ref : forall r, in_pool p r -> r <> Blk 0 -> (0 <= refc p r)%Z
}.

(** What no method changes. *)
Definition same_conf (p p' : BlockPool) : Prop :=
  num_gpu_blocks p' = num_gpu_blocks p /\ enable_caching p' = enable_caching p /\
  null_block p' = null_block p /\ enable_kv_cache_events p' = enable_kv_cache_events p /\
  use_int_hashes p' = use_int_hashes p.

#[global] Instance same_conf_preorder : PreOrder same_conf.
Proof. split; [by intros p|]. intros p1 p2 p3. unfold same_conf. intuition congruence. Qed.

(** ** The dictionary *)

Lemma dict_set_elem k v d z r :
  NoDup d.*1 -> ((z, r) ∈ dict_set k v d <-> (z = k /\ r = v) \/ (z <> k /\ (z, r) ∈ d)).
Proof.
  induction d as [|[k' v'] d IH]; simpl; intros Hnd.
  - rewrite list_elem_of_singleton, elem_of_nil. naive_solver.
  - apply NoDup_cons in Hnd as [Hk' Hnd]. case_decide as E.
    + subst k'. rewrite !elem_of_cons. split.
      * intros [?|Hin]; [naive_solver|]. right. split; [|by right].
        intros ->. apply Hk'. apply list_elem_of_fmap. by exists (k, r).
      * intros [[-> ->]|[Hz [?|Hin]]]; [by left|naive_solver|by right].
    + rewrite !elem_of_cons, IH by done. naive_solver.
Qed.

Lemma dict_set_keys k v d : NoDup d.*1 -> NoDup (dict_set k v d).*1.
Proof.
  induction d as [|[k' v'] d IH]; simpl; intros Hnd; [by apply NoDup_singleton|].
  apply NoDup_cons in Hnd as [Hk' Hnd]. case_decide as E; simpl.
  - subst. by apply NoDup_cons.
  - apply NoDup_cons. split; [|by apply IH].
    intros ([z r] & ? & Hin)%list_elem_of_fmap. simpl in *. subst z.
    apply dict_set_elem in Hin as [[-> _]|[_ Hin]]; [done| |done].
    apply Hk', list_elem_of_fmap. by exists (k', r).
Qed.

Lemma dict_set_nonempty k v d : dict_set k v d <> [].
Proof. destruct d as [|[k' v'] d]; simpl; [done|]. by case_decide. Qed.

Lemma dict_pop_elem k d z r : (z, r) ∈ dict_pop k d <-> z <> k /\ (z, r) ∈ d.
Proof. unfold dict_pop. by rewrite list_elem_of_filter. Qed.

Lemma dict_pop_keys k d : NoDup d.*1 -> NoDup (dict_pop k d).*1.
Proof.
  intros Hd. eapply sublist_NoDup; [exact Hd|]. apply fmap_sublist, sublist_filter.
Qed.

Lemma cache_ok_lookup c hash n h i :
  cache_ok c hash n -> i < n -> hash (Blk i) = Some h ->
  exists d, c !! h = Some d /\ (Z.of_nat i, Blk i) ∈ d.
Proof. intros [_ Hc] Hi Hh. apply Hc. by exists i. Qed.

Lemma cache_ok_set c hash hash' n h i :
  cache_ok c hash n -> i < n -> hash (Blk i) = None -> hash' (Blk i) = Some h ->
  (forall j, j < n -> j <> i -> hash' (Blk j) = hash (Blk j)) ->
  cache_ok (<[h := dict_set (Z.of_nat i) (Blk i) (default [] (c !! h))]> c) hash' n.
Proof.
  intros [Hwf Hiff] Hi Hn Hs Ho. split.
  - intros h' d [[<- <-]|[Hne Hd]]%lookup_insert_Some; [|by eapply Hwf].
    split; [apply dict_set_nonempty|]. apply dict_set_keys.
    destruct (c !! h) as [d|] eqn:E; simpl; [by eapply Hwf|constructor].
  - intros h' z r. assert (Hnd : NoDup (default [] (c !! h)).*1).
    { destruct (c !! h) as [d|] eqn:E; simpl; [by eapply Hwf|constructor]. }
    transitivity ((h' = h /\ z = Z.of_nat i /\ r = Blk i) \/
                  (exists d, c !! h' = Some d /\ (z, r) ∈ d)).
    + split.
      * intros (d & [[<- <-]|[Hne Hd]]%lookup_insert_Some & Hin); [|naive_solver].
        apply dict_set_elem in Hin as [[-> ->]|[_ Hin]]; [by left|right|done].
        destruct (c !! h) as [d|] eqn:E; simpl in Hin; [by exists d|set_solver].
      * intros [(-> & -> & ->)|(d & Hd & Hin)].
        -- eexists. rewrite lookup_insert_eq. split; [done|]. apply dict_set_elem; auto.
        -- destruct (decide (h = h')) as [<-|Hne]; [|exists d; by rewrite lookup_insert_ne].
           assert (Hdd : default [] (c !! h) = d) by by rewrite Hd.
           exists (dict_set (Z.of_nat i) (Blk i) d). split.
           { rewrite lookup_insert_eq. do 2 f_equal. exact Hdd. }
           apply dict_set_elem; [by eapply Hwf|]. right. split; [|done]. intros ->.
           destruct (proj1 (Hiff h (Z.of_nat i) r)) as (j & _ & Hj & -> & Hhj); [by exists d|].
           apply Nat2Z.inj in Hj as <-. congruence.
    + rewrite Hiff. split.
      * intros [(-> & -> & ->)|(j & Hj & -> & -> & Hhj)]; [by exists i|].
        exists j. assert (j <> i) by congruence. by rewrite Ho.
      * intros (j & Hj & -> & -> & Hhj). destruct (decide (j = i)) as [->|].
        -- left. split_and!; [congruence|done..].
        -- right. exists j. by rewrite Ho in Hhj.
Qed.

Lemma cache_ok_pop c hash hash' n h i d :
  cache_ok c hash n -> i < n -> hash (Blk i) = Some h -> c !! h = Some d -> hash' (Blk i) = None ->
  (forall j, j < n -> j <> i -> hash' (Blk j) = hash (Blk j)) ->
  cache_ok (if decide (length (dict_pop (Z.of_nat i) d) = 0) then delete h c
            else <[h := dict_pop (Z.of_nat i) d]> c) hash' n.
Proof.
  intros [Hwf Hiff] Hi Hh Hd Hn Ho. destruct (Hwf _ _ Hd) as [_ Hnd].
  set (c' := if decide _ then _ else _).
  assert (Hne : forall h', h' <> h -> c' !! h' = c !! h').
  { intros h' Hh'. unfold c'. case_decide; [by rewrite lookup_delete_ne|by rewrite lookup_insert_ne]. }
  assert (Heq : forall d', c' !! h = Some d' <-> d' = dict_pop (Z.of_nat i) d /\ d' <> []).
  { intros d'. unfold c'. case_decide as E.
    - apply nil_length_inv in E. rewrite lookup_delete_eq, E. naive_solver.
    - rewrite lookup_insert_eq. split; [intros [= <-]; split; [done|]; intros E2; apply E; by rewrite E2|by intros [-> _]]. }
  split.
  - intros h' d' Hd'. destruct (decide (h' = h)) as [->|Hh']; [|rewrite Hne in Hd' by done; by eapply Hwf].
    apply Heq in Hd' as [-> ?]. split; [done|]. by apply dict_pop_keys.
  - intros h' z r. transitivity ((exists d0, c !! h' = Some d0 /\ (z, r) ∈ d0) /\
                                 ~ (h' = h /\ z = Z.of_nat i)).
    + destruct (decide (h' = h)) as [->|Hh'].
      * split.
        -- intros (d' & [-> _]%Heq & [Hz Hin]%dict_pop_elem). split; [by exists d|]. by intros [_ ?].
        -- intros ((d0 & Hd0 & Hin) & Hz). assert (d0 = d) as -> by congruence.
           exists (dict_pop (Z.of_nat i) d).
           assert ((z, r) ∈ dict_pop (Z.of_nat i) d) as Hin' by (apply dict_pop_elem; naive_solver).
           split; [|done]. apply Heq. split; [done|]. intros E. rewrite E in Hin'. set_solver.
      * rewrite Hne by done. naive_solver.
    + rewrite Hiff. split.
      * intros ((j & Hj & -> & -> & Hhj) & Hnot). exists j.
        assert (j <> i) by (intros ->; apply Hnot; split; congruence). by rewrite Ho.
      * intros (j & Hj & -> & -> & Hhj). assert (j <> i) by congruence. rewrite Ho in Hhj by done.
        split; [by exists j|]. intros [_ ?%Nat2Z.inj]. done.
Qed.

(** ** Frames *)

(** Only the links matter to the queue. *)
Lemma fq_repr_frame q q' fl :
  fq_repr q fl ->
  (forall r, prev_free_block (heap q' r) = prev_free_block (heap q r) /\
             next_free_block (heap q' r) = next_free_block (heap q r)) ->
  num_free_blocks q' = num_free_blocks q -> fq_repr q' fl.
Proof.
  intros [Hl Hnd Hb Hh Ht Ho Hn] Hf Hnum. split; try done.
  - revert Hl. apply linked_frame; [by apply full_list_nodup|intros; apply Hf..].
  - by rewrite (proj1 (Hf _)).
  - by rewrite (proj2 (Hf _)).
  - intros r Hr Hnin. rewrite (proj1 (Hf r)), (proj2 (Hf r)). by apply Ho.
  - congruence.
Qed.

Lemma cache_ok_ext c hash hash' n :
  cache_ok c hash n -> (forall i, i < n -> hash' (Blk i) = hash (Blk i)) -> cache_ok c hash' n.
Proof.
  intros [Hwf Hiff] He. split; [done|]. intros h z r. rewrite Hiff.
  split; intros (i & Hi & -> & -> & Hh); exists i; [rewrite He by done|rewrite He in Hh by done]; done.
Qed.

(** The effect of a call on the blocks: the reference counts change by [dref], the hashes
    become [hash']. *)
Definition changes (p p' : BlockPool) (dref : bref -> Z) (hash' : bref -> option bytes) : Prop :=
  same_conf p p' /\ (forall r, refc p' r = (refc p r + dref r)%Z) /\ (forall r, hashc p' r = hash' r).

Definition no_ref : bref -> Z := fun _ => 0%Z.
Definition occs (l : list bref) : bref -> Z := fun r => Z.of_nat (occ r l).
Definition minus_occs (l : list bref) : bref -> Z := fun r => (- Z.of_nat (occ r l))%Z.

Lemma in_pool_conf p p' r : same_conf p p' -> in_pool p' r <-> in_pool p r.
Proof. unfold in_pool. by intros (-> & _). Qed.

Lemma set_queue_id p : set_queue (queue p) p = p.
Proof. by destruct p. Qed.

Lemma wp_rdb {A} r (f : KVCacheBlock -> A) Q E p : Q (f (blk p r)) p -> wp (rdb r f) Q E p.
Proof. intros H. apply wp_zoom. apply wp_rd. by rewrite set_queue_id. Qed.

Lemma wp_wrb r f Q E p : Q tt (set_queue (qset r f (queue p)) p) -> wp (wrb r f) Q E p.
Proof. intros H. apply wp_zoom. by apply wp_wr. Qed.

Ltac bp_step :=
  first [ lazymatch goal with
          | |- wp (rdb _ _) _ _ _ => apply wp_rdb
          | |- wp (wrb _ _) _ _ _ => apply wp_wrb
          end; cbn beta | wp_step ].
Ltac bp_steps := repeat bp_step.

(** A queue method acts on the pool as on the queue. *)
Lemma core_on_queue {A} (m : M FreeQ A) p fl fl' (P : A -> Prop) E :
  pool_core p fl ->
  wp m (fun a q' => P a /\ fq_repr q' fl' /\ same_meta (heap (queue p)) (heap q'))
    (fun e q' => E e (set_queue q' p)) (queue p) ->
  wp (on_queue m) (fun a p' => P a /\ pool_core p' fl' /\ changes p p' no_ref (hashc p)) E p.
Proof.
  intros [Hq Hn Hnull Hid Hisn Hc Hnh] Hm. apply wp_zoom. eapply wp_mono; [exact Hm| |done].
  intros a q' (Ha & Hq' & Hmeta). split; [done|].
  assert (Hh : forall r, hashc (set_queue q' p) r = hashc p r) by apply Hmeta.
  split; [split; try done|].
  - intros i Hi. by rewrite <-Hid by done; apply Hmeta.
  - intros i Hi. by rewrite <-Hisn by done; apply Hmeta.
  - eapply cache_ok_ext; [exact Hc|]. auto.
  - by rewrite Hh.
  - split; [by repeat split|]. split; [|done]. intros r. unfold no_ref. rewrite Z.add_0_r. apply Hmeta.
Qed.

Lemma core_set_ref p fl b f c :
  pool_core p fl -> (forall x, f x = set_ref_cnt (ref_cnt x + c) x) -> 
  pool_core (set_queue (qset b f (queue p)) p) fl /\
  changes p (set_queue (qset b f (queue p)) p) (fun r => if decide (r = b) then c else 0%Z) (hashc p).
Proof.
  intros [Hq Hn Hnull Hid Hisn Hc Hnh] Hf. set (p' := set_queue _ p).
  assert (Hm : forall r, blk p' r = if decide (r = b) then set_ref_cnt (ref_cnt (blk p r) + c) (blk p r)
                                    else blk p r).
  { intros r. unfold blk, p'. cbn. unfold hset. case_decide; [|done]. by rewrite Hf. }
  assert (Hh : forall r, hashc p' r = hashc p r).
  { intros r. unfold hashc. rewrite Hm. by case_decide. }
  split; [split; try done|].
  - eapply fq_repr_frame; [exact Hq| |done]. intros r. specialize (Hm r). unfold blk, p' in Hm.
    unfold p'. cbn in *. rewrite Hm. by case_decide.
  - intros i Hi. rewrite Hm. case_decide; by apply Hid.
  - intros i Hi. rewrite Hm. case_decide; by apply Hisn.
  - eapply cache_ok_ext; [exact Hc|]. auto.
  - by rewrite Hh.
  - split; [by repeat split|]. split; [|done]. intros r. unfold refc. rewrite Hm.
    case_decide; simpl; lia.
Qed.

Lemma changes_trans p1 p2 p3 d1 d2 h2 h3 :
  changes p1 p2 d1 h2 -> changes p2 p3 d2 h3 -> changes p1 p3 (fun r => d1 r + d2 r)%Z h3.
Proof.
  intros (C1 & R1 & _) (C2 & R2 & H2). split; [by etransitivity|]. split; [|done].
  intros r. rewrite R2, R1. lia.
Qed.

Lemma changes_ext p p' d d' h h' :
  changes p p' d h -> (forall r, d' r = d r) -> (forall r, h' r = h r) -> changes p p' d' h'.
Proof. intros (C & R & H) Hd Hh. split; [done|]. split; intros r; [rewrite Hd|rewrite Hh]; auto. Qed.

Lemma changes_refl p : changes p p no_ref (hashc p).
Proof. split; [done|]. split; [|done]. intros r. unfold no_ref. lia. Qed.

(** ** Method specifications *)

Lemma occs_single b r : occs [b] r = if decide (r = b) then 1%Z else 0%Z.
Proof. unfold occs. simpl. by case_decide. Qed.

Lemma incr_ref_core p fl b E :
  pool_core p fl ->
  wp (incr_ref b) (fun _ p' => pool_core p' fl /\ changes p p' (occs [b]) (hashc p)) E p.
Proof.
  intros Hp. apply wp_wrb. destruct (core_set_ref p fl b (fun x => set_ref_cnt (ref_cnt x + 1) x) 1)
    as [H1 H2]; [done..|]. split; [done|]. eapply changes_ext; [exact H2| |done].
  intros r. apply occs_single.
Qed.

Lemma decr_ref_core p fl b E :
  pool_core p fl ->
  wp (decr_ref b) (fun _ p' => pool_core p' fl /\ changes p p' (minus_occs [b]) (hashc p)) E p.
Proof.
  intros Hp. apply wp_wrb. destruct (core_set_ref p fl b (fun x => set_ref_cnt (ref_cnt x - 1) x) (-1))
    as [H1 H2]; [done..|]. split; [done|]. eapply changes_ext; [exact H2| |done].
  intros r. unfold minus_occs. simpl. by case_decide.
Qed.

(** Changing one block's hash and the dictionary together. *)
Lemma core_set_hash p fl i oh c' ev :
  pool_core p fl -> i < num_gpu_blocks p -> i <> 0 ->
  (forall hash', hash' (Blk i) = oh ->
    (forall j, j < num_gpu_blocks p -> j <> i -> hash' (Blk j) = hashc p (Blk j)) ->
    cache_ok c' hash' (num_gpu_blocks p)) ->
  let p' := set_event_queue ev (set_cached c' (set_queue (qset (Blk i) (set_hash oh) (queue p)) p)) in
  pool_core p' fl /\ changes p p' no_ref (fun r => if decide (r = Blk i) then oh else hashc p r).
Proof.
  intros [Hq Hn Hnull Hid Hisn Hc Hnh] Hi Hi0 Hcache p'.
  assert (Hm : forall r, blk p' r = if decide (r = Blk i) then set_hash oh (blk p r) else blk p r).
  { intros r. unfold blk, p'. cbn. unfold hset. by case_decide. }
  assert (Hh : forall r, hashc p' r = if decide (r = Blk i) then oh else hashc p r).
  { intros r. unfold hashc. rewrite Hm. by case_decide. }
  split; [split; try done|].
  - eapply fq_repr_frame; [exact Hq| |done]. intros r. specialize (Hm r). unfold blk, p' in Hm.
    unfold p'. cbn in *. rewrite Hm. by case_decide.
  - intros j Hj. rewrite Hm. case_decide; by apply Hid.
  - intros j Hj. rewrite Hm. case_decide; by apply Hisn.
  - apply Hcache; [by rewrite Hh, decide_True|]. intros j Hj Hji. rewrite Hh, decide_False by congruence. done.
  - rewrite Hh, decide_False by congruence. done.
  - split; [by repeat split|]. split; [|done]. intros r. unfold refc, no_ref. rewrite Hm.
    case_decide; simpl; lia.
Qed.

Lemma evict_core p fl b E :
  pool_core p fl -> in_pool p b -> b <> Blk 0 ->
  wp (maybe_evict_cached_block b)
    (fun _ p' => pool_core p' fl /\
       changes p p' no_ref (fun r => if decide (r = b) then None else hashc p r)) E p.
Proof.
  intros Hp (i & -> & Hi) H0. assert (Hi0 : i <> 0) by congruence.
  unfold maybe_evict_cached_block. bp_step. bp_step.
  destruct (block_hash (blk p (Blk i))) as [h|] eqn:Hh.
  2:{ bp_steps. split; [done|]. eapply changes_ext; [apply changes_refl|done|].
      intros r. case_decide; [by subst|done]. }
  destruct (cache_ok_lookup _ _ _ _ _ (po_cache _ _ Hp) Hi Hh) as (d & Hd & _).
  bp_step. bp_step. rewrite Hd. bp_steps.
  assert (Hid : block_id (blk (set_queue (qset (Blk i) (set_hash None) (queue p)) p) (Blk i)) = Z.of_nat i).
  { unfold blk. cbn. rewrite hset_eq. cbn. by apply (po_ids _ _ Hp). }
  rewrite Hid. cbn.
  set (c' := if decide _ then _ else _).
  assert (Hc' : forall hash', hash' (Blk i) = None ->
    (forall j, j < num_gpu_blocks p -> j <> i -> hash' (Blk j) = hashc p (Blk j)) ->
    cache_ok c' hash' (num_gpu_blocks p)).
  { intros hash' Hn Ho. eapply cache_ok_pop; [apply (po_cache _ _ Hp)|done|exact Hh|done|done|done]. }
  destruct (enable_kv_cache_events p); bp_steps.
  - apply (core_set_hash p fl i None c'
      (kv_event_queue p ++ [BlockRemoved [maybe_convert_block_hash (use_int_hashes p) (get_block_hash h)]])); done.
  - apply (core_set_hash p fl i None c' (kv_event_queue p)); done.
Qed.

Lemma take_new_block_core p fl b E :
  pool_core p fl -> in_pool p b -> b <> Blk 0 -> refc p b = 0%Z ->
  wp (take_new_block (enable_caching p) b)
    (fun _ p' => pool_core p' fl /\
       changes p p' (occs [b]) (fun r => if decide (enable_caching p = true /\ r = b) then None else hashc p r))
    E p.
Proof.
  intros Hp Hb H0 Href. unfold take_new_block. bp_step.
  eapply (wp_mono _ (fun _ p' => pool_core p' fl /\ changes p p' no_ref
    (fun r => if decide (enable_caching p = true /\ r = b) then None else hashc p r))); [| |done].
  - destruct (enable_caching p).
    + bp_step. eapply wp_mono; [by apply evict_core| |done]. intros u p' [Hp' Hc]. bp_steps.
      split; [done|]. eapply changes_ext; [exact Hc|done|].
      intros r. repeat case_decide; naive_solver.
    + bp_steps. split; [done|]. eapply changes_ext; [apply changes_refl|done|].
      intros r. case_decide; naive_solver.
  - intros [] p' [Hp' Hc]. bp_step. bp_step.
    assert (Hr : refc p' b = 0%Z) by (destruct Hc as (_ & -> & _); rewrite Href; done).
    unfold refc in Hr. rewrite Hr, bool_decide_true by done. bp_steps.
    eapply wp_mono; [by apply incr_ref_core| |done].
    intros u p2 [Hp2 Hc2]. split; [done|].
    eapply changes_ext; [eapply changes_trans; [exact Hc|exact Hc2]|done|].
    intros r. by destruct Hc as (_ & _ & ->).
Qed.

Lemma popleft_n_pool p l1 l2 E :
  pool_core p (l1 ++ l2) ->
  wp (on_queue (popleft_n (length l1)))
    (fun ret p' => ret = l1 /\ pool_core p' l2 /\ changes p p' no_ref (hashc p)) E p.
Proof.
  intros Hp. apply (core_on_queue _ p (l1 ++ l2) l2 (fun ret => ret = l1)); [done|].
  apply popleft_n_spec, (po_queue _ _ Hp).
Qed.

Lemma occs_nil r : occs [] r = 0%Z.
Proof. done. Qed.
Lemma occs_app l1 l2 r : occs (l1 ++ l2) r = (occs l1 r + occs l2 r)%Z.
Proof. unfold occs. rewrite occ_app. lia. Qed.
Lemma occs_nonneg l r : (0 <= occs l r)%Z.
Proof. unfold occs. lia. Qed.
Lemma minus_occs_eq l r : minus_occs l r = (- occs l r)%Z.
Proof. done. Qed.

(** [get_new_blocks(n)] with enough free blocks: the [n] blocks that have been free longest, one
    reference each, no longer cached (when caching is enabled). *)
Lemma get_new_blocks_spec p l1 l2 E :
  pool_ok p (l1 ++ l2) ->
  wp (get_new_blocks (length l1))
    (fun ret p' => ret = l1 /\ pool_ok p' l2 /\
       changes p p' (occs l1) (fun r => if decide (enable_caching p = true /\ r ∈ l1) then None else hashc p r))
    E p.
Proof.
  intros [Hp Hfree Href]. unfold get_new_blocks. bp_step. bp_step.
  assert (Hnd : NoDup (l1 ++ l2)) by apply (fr_nodup _ _ (po_queue _ _ Hp)).
  rewrite bool_decide_false.
  2:{ unfold get_num_free_blocks. rewrite (fr_num _ _ (po_queue _ _ Hp)), length_app. lia. }
  bp_step. eapply wp_mono; [by apply popleft_n_pool| |done].
  intros ret p1 (-> & Hp1 & Hc1). bp_step. bp_step. bp_step.
  assert (Hcach : enable_caching p1 = enable_caching p) by apply Hc1. rewrite Hcach.
  eapply wp_mono; [apply (wp_forM _ (fun rest p' => exists dn, l1 = dn ++ rest /\ pool_core p' l2 /\
    changes p p' (occs dn) (fun r => if decide (enable_caching p = true /\ r ∈ dn) then None else hashc p r)))| |].
  - exists []. split_and!; [done|done|]. eapply changes_ext; [exact Hc1|done|].
    intros r. rewrite decide_False by set_solver. done.
  - intros b rest p2 (dn & -> & Hp2 & Hc2). pose proof Hc2 as (Hconf & Hr2 & Hh2).
    assert (Hb : b ∈ (dn ++ b :: rest) ++ l2) by set_solver.
    apply Hfree in Hb as (Hbin & Hb0 & Hbr).
    assert (Hbdn : b ∉ dn).
    { rewrite <-app_assoc in Hnd. apply NoDup_app in Hnd as (_ & Hd & _). intros Hin. apply (Hd _ Hin).
      set_solver. }
    assert (Ec : enable_caching p2 = enable_caching p) by apply Hconf. rewrite <-Ec.
    eapply wp_mono; [apply take_new_block_core; [exact Hp2|by apply (in_pool_conf p)|done|]| |done].
    { rewrite Hr2, Hbr. unfold occs. rewrite occ_not_in by done. done. }
    intros u p3 [Hp3 Hc3]. exists (dn ++ [b]). rewrite <-app_assoc. split_and!; [done|done|].
    eapply changes_ext; [eapply changes_trans; [exact Hc2|exact Hc3]|intros r; apply occs_app|].
    intros r. cbn beta. rewrite Hh2, Ec. clear -Hbdn. repeat case_decide; set_solver.
  - intros u p' (dn & -> & Hp' & Hc). rewrite app_nil_r in *. bp_steps. split_and!; [done| |done].
    destruct Hc as (Hconf & Hr & Hh). split; [done| |].
    + intros r. rewrite Hr, (in_pool_conf p p') by done. specialize (Hfree r). 
      apply NoDup_app in Hnd as (Hnd1 & Hd & _). unfold occs. split.
      * intros Hin. destruct (proj1 Hfree) as (? & ? & ->); [set_solver|]. split_and!; [done|done|].
        rewrite occ_not_in; [done|]. intros Hin1. by apply (Hd r).
      * intros (Hin & H0 & Hz). assert (0 <= refc p r)%Z by auto.
        destruct (decide (r ∈ dn)) as [Hdn%occ_pos|Hdn]; [lia|].
        assert (Hin' : r ∈ dn ++ l2) by (apply Hfree; split_and!; [done|done|lia]).
        by apply elem_of_app in Hin' as [?|?].
    + intros r Hin H0. rewrite Hr. pose proof (occs_nonneg dn r).
      rewrite (in_pool_conf p p') in Hin by done. specialize (Href r Hin H0). lia.
  - done.
Qed.

(** With too few free blocks it raises [ValueError] and changes nothing. *)
Lemma get_new_blocks_short p fl n :
  pool_ok p fl -> length fl < n -> get_new_blocks n p = (Raise ValueError, p).
Proof.
  intros [Hp _ _] Hn. unfold get_new_blocks, mbind, M_bind, gets.
  rewrite bool_decide_true; [done|]. unfold get_num_free_blocks. rewrite (fr_num _ _ (po_queue _ _ Hp)). lia.
Qed.

(** [touch]: one more reference per occurrence; the touched blocks leave the free queue, the
    order of the others is kept. *)
Lemma touch_block_spec p fl b E :
  pool_ok p fl -> in_pool p b ->
  wp (touch_block b)
    (fun _ p' => pool_ok p' (filter (fun r => r <> b) fl) /\ changes p p' (occs [b]) (hashc p)) E p.
Proof.
  intros [Hp Hfree Href] Hb. pose proof Hb as (i & -> & Hi).
  unfold touch_block. bp_step. bp_step. bp_step. bp_step.
  rewrite (po_isnull _ _ Hp i Hi). change (ref_cnt (blk p (Blk i))) with (refc p (Blk i)).
  assert (Hok : forall p1 fl1, pool_core p1 fl1 -> changes p p1 no_ref (hashc p) ->
    (forall r, r ∈ fl1 <-> r <> Blk i /\ r ∈ fl) ->
    wp (incr_ref (Blk i)) (fun _ p' => pool_ok p' fl1 /\ changes p p' (occs [Blk i]) (hashc p)) E p1).
  { intros p1 fl1 Hp1 Hc1 Hfl1. eapply wp_mono; [by apply incr_ref_core| |done].
    intros u p2 [Hp2 Hc2].
    assert (Hc : changes p p2 (occs [Blk i]) (hashc p)).
    { eapply changes_ext; [by eapply changes_trans|done|]. intros r. by destruct Hc1 as (_ & _ & ->). }
    split; [|done]. destruct Hc as (Hconf & Hr & Hh). split; [done| |].
    - intros r. rewrite Hfl1, Hr, occs_single, (in_pool_conf p p2), Hfree by done.
      split; [intros (? & ? & ? & ->); by rewrite decide_False|].
      intros (Hin & H0 & Hz). specialize (Href r Hin H0). case_decide; [lia|].
      split_and!; [done..|lia].
    - intros r Hin H0. rewrite Hr, occs_single. rewrite (in_pool_conf p p2) in Hin by done.
      specialize (Href r Hin H0). case_decide; lia. }
  destruct (bool_decide (refc p (Blk i) = 0%Z) && negb (bool_decide (i = 0))) eqn:Hcond.
  - apply andb_true_iff in Hcond as [Hz%bool_decide_eq_true Hi0%negb_true_iff].
    apply bool_decide_eq_false in Hi0.
    assert (Hin : Blk i ∈ fl) by (apply Hfree; split_and!; [done|congruence|done]).
    apply list_elem_of_split in Hin as (l1 & l2 & ->).
    rewrite filter_ne_split by apply (fr_nodup _ _ (po_queue _ _ Hp)).
    pose proof (fr_nodup _ _ (po_queue _ _ Hp)) as Hnd.
    bp_step. eapply wp_mono; [apply (core_on_queue _ p _ (l1 ++ l2) (fun _ => True) E Hp)| |done].
    { eapply wp_mono; [apply remove_spec, (po_queue _ _ Hp)|by intros ? ? [? ?]|intros ? ? HE; exact HE]. }
    intros u p1 (_ & Hp1 & Hc1). apply Hok; [done|done|].
    intros r. apply NoDup_app in Hnd as (_ & Hd & [Hx _]%NoDup_cons). specialize (Hd (Blk i)).
    rewrite !elem_of_app, elem_of_cons. split; [|naive_solver].
    intros Hr. split; [|naive_solver]. intros ->. destruct Hr; [|done]. apply Hd; [done|by left].
  - bp_steps. assert (Hni : Blk i ∉ fl).
    { intros (_ & Hi0 & Hz)%Hfree. rewrite bool_decide_true, bool_decide_false in Hcond by congruence. done. }
    rewrite filter_all by (intros r Hr ->; done).
    apply Hok; [done|apply changes_refl|]. intros r. split; [|tauto]. intros Hr. split; [|done].
    intros ->. done.
Qed.

Lemma touch_list_spec p fl bs E :
  pool_ok p fl -> (forall b, b ∈ bs -> in_pool p b) ->
  wp (forM bs touch_block)
    (fun _ p' => pool_ok p' (filter (fun r => r ∉ bs) fl) /\ changes p p' (occs bs) (hashc p)) E p.
Proof.
  intros Hp Hin. eapply wp_mono; [apply (wp_forM _ (fun rest p' => exists dn, bs = dn ++ rest /\
    pool_ok p' (filter (fun r => r ∉ dn) fl) /\ changes p p' (occs dn) (hashc p)))| |].
  - exists []. rewrite filter_all by set_solver. split_and!; [done|done|apply changes_refl].
  - intros b rest p1 (dn & -> & Hp1 & Hc1).
    eapply wp_mono; [apply touch_block_spec; [exact Hp1|apply (in_pool_conf p); [apply Hc1|set_solver]]| |done].
    intros u p2 [Hp2 Hc2]. exists (dn ++ [b]). rewrite <-app_assoc. split_and!; [done| |].
    + rewrite list_filter_filter in Hp2. erewrite list_filter_iff; [exact Hp2|]. set_solver.
    + eapply changes_ext; [by eapply changes_trans|intros r; apply occs_app|].
      intros r. by destruct Hc1 as (_ & _ & ->).
  - intros u p' (dn & -> & ? & ?). by rewrite app_nil_r in *.
  - done.
Qed.

Lemma touch_spec p fl bss E :
  pool_ok p fl -> (forall b, b ∈ concat bss -> in_pool p b) ->
  wp (touch bss)
    (fun _ p' => pool_ok p' (filter (fun r => r ∉ concat bss) fl) /\
       changes p p' (occs (concat bss)) (hashc p)) E p.
Proof.
  intros Hp Hin. unfold touch. induction bss as [|bs bss IH] in p, fl, Hp, Hin |- *; simpl.
  { bp_steps. rewrite filter_all by set_solver. split; [done|apply changes_refl]. }
  bp_step. eapply wp_mono; [apply touch_list_spec; [exact Hp|set_solver]| |done].
  intros u p1 [Hp1 Hc1]. eapply wp_mono; [apply IH; [exact Hp1|]| |done].
  { intros b Hb. apply (in_pool_conf p); [apply Hc1|set_solver]. }
  intros u' p2 [Hp2 Hc2]. split.
  - rewrite list_filter_filter in Hp2. erewrite list_filter_iff; [exact Hp2|]. set_solver.
  - eapply changes_ext; [by eapply changes_trans|intros r; apply occs_app|].
    intros r. by destruct Hc1 as (_ & _ & ->).
Qed.

(** [free_blocks]: one reference less per occurrence; the blocks that lose their last reference
    join the free queue in the order given. *)
Lemma free_blocks_spec p fl bs E :
  pool_ok p fl ->
  (forall b, b ∈ bs -> in_pool p b) ->
  (forall b, b ∈ bs -> b <> Blk 0 -> occ b bs = 1 /\ (1 <= refc p b)%Z) ->
  wp (free_blocks bs)
    (fun _ p' => pool_ok p' (fl ++ filter (fun b => b <> Blk 0 /\ refc p b = 1%Z) bs) /\
       changes p p' (minus_occs bs) (hashc p)) E p.
Proof.
  intros [Hp Hfree Href] Hin Hone. unfold free_blocks. bp_step.
  eapply wp_mono; [apply (wp_forM _ (fun rest p' => exists dn, bs = dn ++ rest /\
    pool_core p' fl /\ changes p p' (minus_occs dn) (hashc p)))| |].
  - exists []. split_and!; [done|done|]. apply changes_refl.
  - intros b rest p1 (dn & -> & Hp1 & Hc1).
    eapply wp_mono; [apply decr_ref_core; exact Hp1| |done].
    intros u p2 [Hp2 Hc2]. exists (dn ++ [b]). rewrite <-app_assoc. split_and!; [done|done|].
    eapply changes_ext; [by eapply changes_trans|intros r; rewrite !minus_occs_eq, occs_app; lia|].
    intros r. by destruct Hc1 as (_ & _ & ->).
  - intros u p1 (dn & Edn & Hp1 & Hc1). rewrite app_nil_r in Edn. subst dn. bp_step. bp_step.
    pose proof Hc1 as (Hconf & Hr1 & Hh1).
    set (new := filter (fun b => b <> Blk 0 /\ refc p b = 1%Z) bs).
    assert (Hnew : filter (fun b => ref_cnt (blk p1 b) = 0%Z /\ is_null (blk p1 b) = false) bs = new).
    { apply filter_ext_in. intros b Hb. destruct (Hin b Hb) as (i & -> & Hi).
      rewrite (po_isnull _ _ Hp1) by (by rewrite (proj1 Hconf)). rewrite bool_decide_eq_false.
      change (ref_cnt (blk p1 (Blk i))) with (refc p1 (Blk i)). rewrite Hr1, minus_occs_eq. unfold occs.
      split; intros [H1 H2]; (assert (Hi0 : Blk i <> Blk 0) by congruence);
        destruct (Hone _ Hb Hi0) as [Ho ?]; rewrite ?Ho in *; split; first [congruence|lia|done]. }
    rewrite Hnew.
    assert (Hnin : forall b, b ∈ new <-> b ∈ bs /\ b <> Blk 0 /\ refc p b = 1%Z).
    { intros b. unfold new. rewrite list_elem_of_filter. tauto. }
    eapply wp_mono; [apply (core_on_queue _ p1 _ (fl ++ new) (fun _ => True) E Hp1)| |done].
    { eapply wp_mono; [apply append_n_spec; [apply (po_queue _ _ Hp1)|..]|by intros ? ? [? ?]|intros ? ? HE; exact HE].
      - apply Forall_forall. intros b [Hb _]%Hnin. by destruct (Hin b Hb) as (i & -> & _).
      - apply nodup_occ. intros b (Hb & H0 & _)%Hnin. destruct (Hone b Hb H0) as [<- _].
        apply occ_le_sublist, sublist_filter.
      - intros b (Hb & H0 & H1)%Hnin (_ & _ & ?)%Hfree. lia. }
    intros u' p2 (_ & Hp2 & Hc2).
    assert (Hc : changes p p2 (minus_occs bs) (hashc p)).
    { eapply changes_ext; [by eapply changes_trans|intros r; rewrite !minus_occs_eq; unfold no_ref; lia|].
      intros r. by rewrite Hh1. }
    split; [|done]. clear u u' Hc2 Hc1 Hr1 Hh1 Hconf Hp1 Hnew. destruct Hc as (Hconf & Hr & _).
    split; [done| |].
    + intros r. rewrite elem_of_app, Hnin, Hfree, Hr, (in_pool_conf p p2), minus_occs_eq by done. unfold occs.
      split.
      * intros [(? & ? & Hz)|(Hb & H0 & H1)].
        -- split_and!; [done..|]. rewrite occ_not_in; [lia|]. intros Hb. destruct (Hone r Hb); [done|lia].
        -- split_and!; [auto|done|]. destruct (Hone r Hb H0) as [-> _]. lia.
      * intros (Hr1 & H0 & Hz). destruct (decide (r ∈ bs)) as [Hb|Hb].
        -- right. destruct (Hone r Hb H0) as [Ho _]. rewrite Ho in Hz. split_and!; [done..|lia].
        -- left. rewrite occ_not_in in Hz by done. split_and!; [done..|lia].
    + intros r Hr1 H0. rewrite Hr, minus_occs_eq. unfold occs. rewrite (in_pool_conf p p2) in Hr1 by done.
      destruct (decide (r ∈ bs)) as [Hb|Hb].
      * destruct (Hone r Hb H0) as [-> ?]. lia.
      * rewrite occ_not_in by done. specialize (Href r Hr1 H0). lia.
  - done.
Qed.

(** [hs] at [k], packed with the group id, is the hash of the [k]-th block of [l]. *)
Definition hashes_set (gid : Z) (hs : list bytes) (l : list bref) (p : BlockPool) : Prop :=
  forall j b, l !! j = Some b -> exists h key,
    hs !! j = Some h /\ make_block_hash_with_group_id h gid = Ok key /\ hashc p b = Some key.

Lemma cache_block_core p fl gid hs acc i b h key E :
  pool_core p fl -> in_pool p b -> b <> Blk 0 -> hashc p b = None ->
  hs !! i = Some h -> make_block_hash_with_group_id h gid = Ok key ->
  wp (cache_block_body gid hs acc (i, b))
    (fun _ p' => pool_core p' fl /\
       changes p p' no_ref (fun r => if decide (r = b) then Some key else hashc p r)) E p.
Proof.
  intros Hp (k & -> & Hk) H0 Hn Hh Hkey. assert (Hk0 : k <> 0) by congruence.
  unfold cache_block_body. bp_step. bp_step. unfold hashc in Hn. rewrite Hn.
  rewrite bool_decide_true by done. bp_step. bp_step. rewrite Hh. bp_steps.
  eapply wp_lift; [exact Hkey|]. unfold assign_hash. bp_step. bp_step. bp_step. rewrite Hn.
  rewrite bool_decide_true by done. bp_steps.
  assert (Hid : block_id (blk (set_queue (qset (Blk k) (set_hash (Some key)) (queue p)) p) (Blk k))
                = Z.of_nat k).
  { unfold blk. cbn. rewrite hset_eq. cbn. by apply (po_ids _ _ Hp). }
  rewrite Hid. cbn. set (c2 := insert key _ _).
  apply (core_set_hash p fl k (Some key) c2 (kv_event_queue p)); [done..|].
  intros hash' Hs Ho. eapply cache_ok_set; [apply (po_cache _ _ Hp)|done..].
Qed.

Lemma cache_loop_core p fl gid hs l start acc E :
  pool_core p fl -> NoDup l -> (forall b, b ∈ l -> in_pool p b /\ b <> Blk 0 /\ hashc p b = None) ->
  start + length l <= length hs -> (0 <= gid < 2 ^ 32)%Z ->
  wp (foldM (zip (seq start (length l)) l) acc (cache_block_body gid hs))
    (fun _ p' => pool_core p' fl /\ changes p p' no_ref (hashc p') /\
       hashes_set gid (drop start hs) l p' /\ (forall r, r ∉ l -> hashc p' r = hashc p r)) E p.
Proof.
  intros Hp Hnd Hl Hlen Hg. induction l as [|b l IH] in p, start, acc, Hp, Hnd, Hl, Hlen |- *.
  { simpl. bp_steps. split_and!; [done|apply changes_refl|done|done]. }
  apply NoDup_cons in Hnd as [Hb Hnd]. simpl in Hlen.
  destruct (Hl b ltac:(by left)) as (Hbin & Hb0 & Hbn).
  destruct (lookup_lt_is_Some_2 hs start ltac:(lia)) as [h Hh].
  destruct (make_block_hash_in_range h gid Hg) as [key Hkey].
  cbn [length seq zip zip_with foldM]. bp_step.
  eapply wp_mono; [by eapply cache_block_core| |done].
  intros acc' p1 [Hp1 Hc1]. pose proof Hc1 as (Hconf & Hr1 & Hh1).
  eapply wp_mono; [apply IH; [exact Hp1|done| |lia]| |done].
  { intros b' Hb'. destruct (Hl b' ltac:(by right)) as (? & ? & ?).
    split_and!; [by apply (in_pool_conf p)|done|]. rewrite Hh1, decide_False by congruence. done. }
  intros acc2 p2 (Hp2 & Hc2 & Hset & Hsame). split_and!.
  - done.
  - eapply changes_ext; [by eapply changes_trans|done|done].
  - intros [|j] b' Hj; simpl in Hj.
    + simplify_eq. exists h, key. rewrite lookup_drop, Nat.add_0_r. split_and!; [done..|].
      rewrite Hsame, Hh1, decide_True by done. done.
    + destruct (Hset _ _ Hj) as (h' & k' & Hh' & ? & ?). exists h', k'. split_and!; [|done..].
      rewrite lookup_drop in Hh' |- *. rewrite <-Hh'. f_equal. lia.
  - intros r Hr. apply not_elem_of_cons in Hr as [Hrb Hr].
    rewrite Hsame, Hh1, decide_False by done. done.
Qed.

(** When the events are on, [cache_full_blocks] also needs the parent block to be cached and the
    request to have no LoRA adapter. *)
Definition event_ready (p : BlockPool) (r : Request) (bs : list bref) (ncached : nat) : Prop :=
  enable_kv_cache_events p = true ->
  lora_request r = None /\
  (ncached <> 0 -> exists pb, bs !! (ncached - 1) = Some pb /\ is_Some (hashc p pb) /\
     pb ∉ drop ncached bs).

Lemma cache_full_blocks_core p fl r bs nc nf bsz gid E :
  pool_core p fl -> nc <= nf -> nf <= length (block_hashes r) -> (0 <= gid < 2 ^ 32)%Z ->
  NoDup (take (nf - nc) (drop nc bs)) ->
  (forall b, b ∈ take (nf - nc) (drop nc bs) -> in_pool p b /\ b <> Blk 0 /\ hashc p b = None) ->
  event_ready p r bs nc ->
  wp (cache_full_blocks r bs nc nf bsz gid)
    (fun _ p' => pool_core p' fl /\ changes p p' no_ref (hashc p') /\
       hashes_set gid (drop nc (block_hashes r)) (take (nf - nc) (drop nc bs)) p' /\
       (forall b, b ∉ take (nf - nc) (drop nc bs) -> hashc p' b = hashc p b)) E p.
Proof.
  intros Hp Hle Hnf Hg Hnd Hl Hev. unfold cache_full_blocks.
  destruct (Nat.eqb_spec nc nf) as [->|Hne].
  { rewrite Nat.sub_diag. bp_steps. split_and!; [done|apply changes_refl|done|done]. }
  rewrite (proj2 (Nat.leb_le _ _) Hnf). bp_steps.
  set (l := take (nf - nc) (drop nc bs)) in *.
  eapply wp_mono; [eapply (cache_loop_core p fl gid (drop nc (block_hashes r)) l 0 []); try done| |done].
  { rewrite length_drop. unfold l. rewrite length_take, length_drop. lia. }
  intros nh p1 (Hp1 & Hc1 & Hset & Hsame). rewrite drop_0 in Hset. bp_step. bp_step.
  assert (Hconf : same_conf p p1) by apply Hc1.
  replace (enable_kv_cache_events p1) with (enable_kv_cache_events p) by (symmetry; apply Hconf).
  destruct (enable_kv_cache_events p) eqn:Hen; [|by bp_steps].
  destruct (Hev Hen) as [Hlora Hpar]. rewrite Hlora.
  bp_step. bp_step. bp_step.
  assert (Hpush : forall ev, wp (push_event ev) (fun _ p' => pool_core p' fl /\
    changes p p' no_ref (hashc p') /\ hashes_set gid (drop nc (block_hashes r)) l p' /\
    (forall b, b ∉ l -> hashc p' b = hashc p b)) E p1).
  { intros ev. apply wp_modify. split_and!; [|done..]. destruct Hp1. by split. }
  destruct (Nat.eqb_spec nc 0) as [->|Hnc]; [bp_steps; apply Hpush|].
  destruct (Hpar Hnc) as (pb & Hpb & [k Hk] & Hpbn). rewrite Hpb. bp_steps.
  change (block_hash (blk p1 pb)) with (hashc p1 pb). rewrite Hsame, Hk; [bp_steps; apply Hpush|].
  intros Hin. apply Hpbn. apply elem_of_take in Hin as (i & Hi & _). by apply list_elem_of_lookup_2 in Hi.
Qed.

Lemma pool_ok_changes p p' fl h :
  pool_ok p fl -> pool_core p' fl -> changes p p' no_ref h -> pool_ok p' fl.
Proof.
  intros [_ Hfree Href] Hp' (Hconf & Hr & _). split; [done| |].
  - intros r. rewrite Hfree, (in_pool_conf p p'), Hr by done. unfold no_ref. by rewrite Z.add_0_r.
  - intros r Hin H0. rewrite Hr. unfold no_ref. rewrite Z.add_0_r.
    rewrite (in_pool_conf p p') in Hin by done. auto.
Qed.

(** [reset_prefix_cache]: succeeds exactly when no block but the null block is in use, and then
    no block has a hash and the dictionary is empty. *)
Lemma reset_prefix_cache_spec p fl E :
  pool_ok p fl ->
  wp reset_prefix_cache
    (fun b p' => b = bool_decide (length fl = num_gpu_blocks p - 1) /\
       if b then pool_ok p' fl /\ changes p p' no_ref (hashc p') /\
                 cached_block_hash_to_block p' = ∅ /\ forall r, in_pool p r -> hashc p' r = None
       else p' = p) E p.
Proof.
  intros Hp. pose proof (po_core _ _ Hp) as Hc. unfold reset_prefix_cache. bp_step. bp_step.
  assert (Hn : get_num_free_blocks p = Z.of_nat (length fl)) by apply (fr_num _ _ (po_queue _ _ Hc)).
  pose proof (po_num _ _ Hc). rewrite Hn. case_bool_decide as Hu; bp_steps.
  { split; [|done]. symmetry. apply bool_decide_eq_false. lia. }
  eapply wp_mono; [apply (wp_forM _ (fun rest p' => exists dn, blocks p = dn ++ rest /\
    fq_repr (queue p') fl /\ same_conf p p' /\ cached_block_hash_to_block p' = ∅ /\
    (forall r, block_id (blk p' r) = block_id (blk p r) /\ is_null (blk p' r) = is_null (blk p r) /\
       refc p' r = refc p r /\ hashc p' r = if decide (r ∈ dn) then None else hashc p r)))| |].
  - exists []. split_and!; [done|apply Hc|by repeat split|done|].
    intros r. split_and!; [done..|]. by rewrite decide_False by set_solver.
  - intros b rest p1 (dn & Hb & Hq & Hconf & Hcache & Hm). apply wp_wrb. exists (dn ++ [b]).
    rewrite <-app_assoc. split_and!; [done| |by repeat split; apply Hconf|done|].
    + eapply fq_repr_frame; [exact Hq| |done]. intros r. cbn. unfold hset. by case_decide.
    + intros r. destruct (Hm r) as (M1 & M2 & M3 & M4). unfold refc, hashc, blk in *. cbn. unfold hset.
      destruct (decide (r = b)) as [Hrb|Hrb]; cbn; split_and!; try done.
      * rewrite decide_True; [done|]. subst r. apply elem_of_app. right. by left.
      * rewrite M4. clear -Hrb. repeat case_decide; set_solver.
  - intros u p1 (dn & Hb & Hq & Hconf & Hcache & Hm). rewrite app_nil_r in Hb. subst dn.
    assert (Hall : forall r, in_pool p r -> hashc p1 r = None).
    { intros r (i & -> & Hi). rewrite (proj2 (proj2 (proj2 (Hm _)))), decide_True; [done|].
      unfold blocks. apply list_elem_of_fmap. exists i. split; [done|]. apply elem_of_seq. lia. }
    assert (Hc1 : pool_core p1 fl).
    { destruct Hc as [_ Hn0 Hnull Hid Hisn Hco Hnh]. destruct Hconf as (C1 & C2 & C3 & C4 & C5).
      split; rewrite ?C1, ?C3; try done.
      - intros i Hi. rewrite (proj1 (Hm _)). auto.
      - intros i Hi. rewrite (proj1 (proj2 (Hm _))). auto.
      - rewrite Hcache. split; [done|]. intros h z r. split; [by intros (? & ? & _)|].
        intros (i & Hi & _ & -> & Hh). rewrite Hall in Hh; [done|by exists i].
      - apply Hall. by exists 0. }
    assert (Hch : changes p p1 no_ref (hashc p1)).
    { split; [done|]. split; [|done]. intros r. unfold no_ref. rewrite Z.add_0_r. apply Hm. }
    assert (Hok : pool_ok p1 fl) by by eapply pool_ok_changes.
    bp_step. eapply (wp_mono _ (fun _ p' => p' = p1 \/ exists ev, p' = set_event_queue ev p1)).
    + destruct (enable_kv_cache_events p); [apply wp_modify|bp_steps]; eauto.
    + intros u' p' Hp'. bp_steps. split; [symmetry; apply bool_decide_eq_true; lia|].
      destruct Hp' as [->|[ev ->]]; [by split_and!|].
      destruct Hok as [[] Hfr Hre]. split_and!; [|done|done|done]. split; [by split|exact Hfr|exact Hre].
    + done.
  - done.
Qed.

(** ** Construction and lookup *)

Lemma pool_init_spec num caching events ui :
  0 < num ->
  exists p, pool_init num caching events ui = Ok p /\ pool_ok p (Blk <$> seq 1 (num - 1)) /\
    num_gpu_blocks p = num /\ enable_caching p = caching /\ enable_kv_cache_events p = events /\
    (forall i, refc p (Blk i) = 0%Z /\ hashc p (Blk i) = None).
Proof.
  intros Hnum. unfold pool_init. assert ((0 <? num) = true) as -> by by apply Nat.ltb_lt. cbn.
  set (q0 := mkFreeQ fresh_heap 0). set (bs := Blk <$> seq 0 num).
  assert (Hnd : NoDup bs) by (apply NoDup_fmap; [by intros ? ? [=]|apply NoDup_seq]).
  assert (Hb : Forall is_blk bs) by (apply Forall_fmap, Forall_forall; done).
  destruct (wp_noexc_run _ _ _ (fq_init_spec bs q0 noexc Hnd Hb ltac:(by intros [])))
    as ([] & q1 & -> & Hq1 & Hm1).
  assert (Hbs : bs = Blk 0 :: (Blk <$> seq 1 (num - 1))) by (unfold bs; by destruct num; [lia|rewrite Nat.sub_succ, Nat.sub_0_r]).
  rewrite Hbs in Hq1.
  destruct (wp_noexc_run _ _ _ (popleft_spec q1 (Blk 0) _ noexc Hq1)) as (b & q2 & -> & -> & Hq2 & Hm2).
  eexists. split; [done|]. set (p := mkPool _ _ _ _ _ _ _ _).
  assert (Hm : forall i, block_id (blk p (Blk i)) = Z.of_nat i /\ refc p (Blk i) = 0%Z /\
                         hashc p (Blk i) = None /\ is_null (blk p (Blk i)) = bool_decide (i = 0)).
  { intros i. destruct (Hm2 (Blk i)) as (E1 & E2 & E3 & E4). destruct (Hm1 (Blk i) I) as (F1 & F2 & F3 & F4).
    rewrite F1 in E1. rewrite F2 in E2. rewrite F3 in E3. rewrite F4 in E4.
    unfold refc, hashc, blk, p. cbn. unfold hset. destruct (decide (Blk i = Blk 0)) as [E|E]; cbn.
    - split_and!; [done..|]. by rewrite bool_decide_true by congruence.
    - split_and!; [done..|]. rewrite E4, bool_decide_false by congruence. done. }
  assert (Hcore : pool_core p (Blk <$> seq 1 (num - 1))).
  { split; try done.
    - eapply fq_repr_frame; [exact Hq2| |done]. intros r. cbn. unfold hset. by case_decide.
    - intros i _. apply Hm.
    - intros i _. apply Hm.
    - split; [done|]. intros h z r. split; [by intros (? & ? & _)|].
      intros (i & _ & _ & -> & Hh). destruct (Hm i) as (_ & _ & E & _). by rewrite E in Hh.
    - apply Hm. }
  split_and!; [|done..|].
  - split; [done| |].
    + intros r. rewrite list_elem_of_fmap. setoid_rewrite elem_of_seq. split.
      * intros (i & -> & Hi). split_and!; [exists i; cbn; split; [done|lia]|intros [=]; lia|apply Hm].
      * intros ((i & -> & Hi) & H0 & _). exists i. cbn in Hi.
        assert (i <> 0) by congruence. split; [done|lia].
    + intros r (i & -> & Hi) _. by rewrite (proj1 (proj2 (Hm i))).
  - intros i. split; apply Hm.
Qed.

(** [get_cached_block] finds, per group, a block whose hash is the packed key, or reports a miss
    when some group has none; it does not raise. *)
Lemma get_cached_block_spec p fl h gids :
  pool_core p fl -> Forall (fun g => 0 <= g < 2 ^ 32)%Z gids ->
  match get_cached_block p h gids with
  | Ok (Some bl) => Forall2 (fun g b => in_pool p b /\ b <> Blk 0 /\
      exists key, make_block_hash_with_group_id h g = Ok key /\ hashc p b = Some key) gids bl
  | Ok None => exists g key, g ∈ gids /\ make_block_hash_with_group_id h g = Ok key /\
      forall b, in_pool p b -> hashc p b <> Some key
  | Raise _ => False
  end.
Proof.
  intros Hp. induction 1 as [|g gids Hg _ IH]; simpl; [constructor|].
  destruct (make_block_hash_in_range h g Hg) as [key Hkey]. rewrite Hkey. cbn.
  pose proof (po_cache _ _ Hp) as Hc.
  destruct (cached_block_hash_to_block p !! key) as [[|[z b] d]|] eqn:Hd.
  - by apply (co_wf _ _ _ Hc) in Hd as [? _].
  - destruct (proj1 (co_iff _ _ _ Hc key z b)) as (i & Hi & _ & -> & Hh);
      [exists ((z, b) :: d); split; [done|by left]|].
    destruct (get_cached_block p h gids) as [[bl|]|]; cbn; [| |done].
    + constructor; [|done]. split_and!; [by exists i| |by exists key].
      intros [= ->]. pose proof (po_nullhash _ _ Hp). unfold hashc in *. congruence.
    + destruct IH as (g' & k & ? & ? & ?). exists g', k. split_and!; [by right|done..].
  - exists g, key. split_and!; [by left|done|]. intros b (i & -> & Hi) Hh.
    destruct (cache_ok_lookup _ _ _ _ _ Hc Hi Hh) as (d & Hd' & _). by rewrite Hd in Hd'.
Qed.

(** * Properties *)

(** ** Exact reference counting

    A client of the pool holds references: the blocks it was given by [get_new_blocks] or
    touched, until it frees them.  A state of the protocol is the pool with the list of
    references held, one entry per reference. *)
Inductive pool_step : BlockPool * list bref -> BlockPool * list bref -> Prop :=
| step_new p held n ret p' :
    get_new_blocks n p = (Ok ret, p') -> pool_step (p, held) (p', ret ++ held)
| step_new_fails p held n e p' :
    get_new_blocks n p = (Raise e, p') -> pool_step (p, held) (p', held)
| step_touch p held bss o p' :
    (forall b, b ∈ concat bss -> in_pool p b) ->
    touch bss p = (o, p') -> pool_step (p, held) (p', concat bss ++ held)
| step_free p held held' bs o p' :
    held ≡ₚ bs ++ held' ->
    (forall b, b ∈ bs -> b <> Blk 0 -> occ b bs = 1) ->
    free_blocks bs p = (o, p') -> pool_step (p, held) (p', held')
| step_cache p held r bs nc nf bsz gid o p' :
    nc <= nf -> nf <= length (block_hashes r) -> (0 <= gid < 2 ^ 32)%Z ->
    NoDup (take (nf - nc) (drop nc bs)) ->
    (forall b, b ∈ take (nf - nc) (drop nc bs) -> in_pool p b /\ b <> Blk 0 /\ hashc p b = None) ->
    event_ready p r bs nc ->
    cache_full_blocks r bs nc nf bsz gid p = (o, p') -> pool_step (p, held) (p', held)
| step_reset p held o p' :
    reset_prefix_cache p = (o, p') -> pool_step (p, held) (p', held).

(** The counts are the references held. *)
Definition ledger_ok (num : nat) (ph : BlockPool * list bref) : Prop :=
  num_gpu_blocks ph.1 = num /\ exists fl, pool_ok ph.1 fl /\ (forall b, b ∈ ph.2 -> in_pool ph.1 b) /\
    forall b, in_pool ph.1 b -> b <> Blk 0 -> refc ph.1 b = Z.of_nat (occ b ph.2).

Lemma ledger_changes num p p' held held' fl fl' d h :
  num_gpu_blocks p = num -> pool_ok p fl -> (forall b, b ∈ held -> in_pool p b) ->
  (forall b, in_pool p b -> b <> Blk 0 -> refc p b = Z.of_nat (occ b held)) ->
  pool_ok p' fl' -> changes p p' d h -> (forall b, b ∈ held' -> in_pool p b) ->
  (forall b, b <> Blk 0 -> in_pool p b -> Z.of_nat (occ b held') = Z.of_nat (occ b held) + d b)%Z ->
  ledger_ok num (p', held').
Proof.
  intros Hn Hp Hin Hr Hp' (Hconf & Hr' & _) Hin' Hd. split; [by rewrite <-Hn; apply Hconf|].
  exists fl'. simpl. split_and!; [done| |].
  - intros b Hb. apply (in_pool_conf p); auto.
  - intros b Hb H0. rewrite (in_pool_conf p p') in Hb by done. rewrite Hr', Hr by done.
    specialize (Hd b H0 Hb). lia.
Qed.

Lemma pool_step_ledger num ph ph' : pool_step ph ph' -> ledger_ok num ph -> ledger_ok num ph'.
Proof.
  intros Hs (Hnum & fl & Hp & Hin & Hr). simpl in *. destruct Hs; simpl in *.
  - destruct (decide (length fl < n)) as [Hlt|Hge].
    { rewrite (get_new_blocks_short _ _ _ Hp Hlt) in H. done. }
    rewrite <-(take_drop n fl) in Hp.
    pose proof (get_new_blocks_spec p (take n fl) (drop n fl) noexc Hp) as Hw.
    replace (length (take n fl)) with n in Hw by (rewrite length_take; lia).
    apply (wp_run_ok _ _ _ _ _ _ Hw) in H as (Eret & Hp' & Hc). subst ret.
    eapply (ledger_changes num p p' held); [done|exact Hp|done|done|exact Hp'|exact Hc| |].
    + intros b [Hb|?]%elem_of_app; [|auto]. apply (po_free _ _ Hp). apply elem_of_app. by left.
    + intros b _ _. unfold occs. rewrite occ_app. lia.
  - destruct (decide (length fl < n)) as [Hlt|Hge].
    { rewrite (get_new_blocks_short _ _ _ Hp Hlt) in H. simplify_eq. split; [done|by exists fl]. }
    exfalso. rewrite <-(take_drop n fl) in Hp.
    pose proof (get_new_blocks_spec p (take n fl) (drop n fl) noexc Hp) as Hw.
    replace (length (take n fl)) with n in Hw by (rewrite length_take; lia).
    apply wp_noexc_run in Hw as (? & ? & Hw & _). congruence.
  - destruct (wp_noexc_run _ _ _ (touch_spec p fl bss noexc Hp H)) as (u & p2 & Hw & Hp' & Hc).
    rewrite H0 in Hw. simplify_eq.
    eapply (ledger_changes _ p _ held); [done|exact Hp|done|done|exact Hp'|exact Hc| |].
    + intros b [?|?]%elem_of_app; auto.
    + intros b _ _. unfold occs. rewrite occ_app. lia.
  - assert (Hsub : forall b, b ∈ bs ++ held' -> b ∈ held) by (intros b; by rewrite H).
    destruct (wp_noexc_run _ _ _ (free_blocks_spec p fl bs noexc Hp
      ltac:(intros b Hb; apply Hin, Hsub, elem_of_app; by left)
      ltac:(intros b Hb Hb0; split; [by apply H0|];
            rewrite Hr by (done || (apply Hin, Hsub, elem_of_app; by left));
            rewrite (occ_perm _ _ _ H), occ_app, (H0 b Hb Hb0); lia)))
      as (u & p2 & Hw & Hp' & Hc).
    rewrite H1 in Hw. simplify_eq.
    eapply (ledger_changes _ p _ held); [done|exact Hp|done|done|exact Hp'|exact Hc| |].
    + intros b Hb. apply Hin, Hsub, elem_of_app. by right.
    + intros b _ _. rewrite minus_occs_eq. unfold occs. rewrite (occ_perm _ _ _ H), occ_app. lia.
  - destruct (wp_noexc_run _ _ _ (cache_full_blocks_core p fl r bs nc nf bsz gid noexc (po_core _ _ Hp)
      H H0 H1 H2 H3 H4)) as (u & p2 & Hw & Hp' & Hc & _).
    rewrite H5 in Hw. simplify_eq.
    eapply (ledger_changes _ p _ held); [done|exact Hp|done|done|by eapply pool_ok_changes|exact Hc|done|].
    intros b _ _. unfold no_ref. lia.
  - destruct (wp_noexc_run _ _ _ (reset_prefix_cache_spec p fl noexc Hp)) as (b & p2 & Hw & _ & Hb).
    rewrite H in Hw. simplify_eq. destruct b; [|subst; split; [done|by exists fl]].
    destruct Hb as (Hp' & Hc & _).
    eapply (ledger_changes _ p _ held); [done|exact Hp|done|done|exact Hp'|exact Hc|done|].
    intros b _ _. unfold no_ref. lia.
Qed.

(** C20: Reference counts are exact: in every state reached from a new pool by clients that free
    only what they hold, a block's [ref_cnt] is the number of references held to it, the free
    queue lists exactly the blocks (the null block apart) nobody holds, each once, and
    [num_free_blocks] counts them. *)
Theorem refcounts_exact num caching events ui p0 p held :
  pool_init num caching events ui = Ok p0 -> rtc pool_step (p0, []) (p, held) ->
  (forall i, 0 < i < num -> refc p (Blk i) = Z.of_nat (occ (Blk i) held)) /\
  exists fl, get_all_free_blocks num (queue p) = Ok (Some fl) /\ NoDup fl /\
    get_num_free_blocks p = Z.of_nat (length fl) /\
    (forall b, b ∈ fl <-> exists i, b = Blk i /\ 0 < i < num /\ Blk i ∉ held).
Proof.
  intros Hi Hsteps.
  assert (ledger_ok num (p0, [])) as H0.
  { assert (0 < num) by (revert Hi; unfold pool_init, assert_; destruct (Nat.ltb_spec 0 num); done).
    destruct (pool_init_spec num caching events ui) as (p1 & H1 & Hp & Hn & _ & _ & Hz); [done|].
    rewrite Hi in H1. injection H1 as <-. split; [exact Hn|]. eexists.
    split_and!; [exact Hp|by intros b ?%elem_of_nil|].
    intros b (i & -> & _) _. apply Hz. }
  assert (ledger_ok num (p, held)) as (Hn & fl & Hp & Hin & Hr).
  { clear Hi. remember (p0, []) as s0. remember (p, held) as s1. clear Heqs0 Heqs1.
    induction Hsteps; [done|]. by eapply IHHsteps, pool_step_ledger. }
  simpl in *. pose proof (po_queue _ _ (po_core _ _ Hp)) as Hq.
  assert (Hfl : forall b, b ∈ fl <-> exists i, b = Blk i /\ 0 < i < num /\ Blk i ∉ held).
  { intros b. rewrite (po_free _ _ Hp). split.
    - intros ((i & -> & Hi') & H & Hz). exists i. rewrite Hn in Hi'. assert (i <> 0) by congruence.
      split_and!; [done|lia|lia|]. apply occ_zero. rewrite Hr in Hz; [lia| |done]. exists i.
      by rewrite Hn.
    - intros (i & -> & Hi' & Hh). assert (in_pool p (Blk i)) by (exists i; split; [done|lia]).
      assert (Blk i <> Blk 0) by (intros [=]; lia).
      split_and!; [done..|]. by rewrite Hr, occ_not_in by done. }
  split.
  - intros i Hi'. apply Hr; [exists i; split; [done|lia]|intros [=]; lia].
  - exists fl. split_and!; [|apply (fr_nodup _ _ Hq)|apply (fr_num _ _ Hq)|done].
    apply get_all_free_blocks_spec; [done|].
    transitivity (length (Blk <$> seq 0 num)); [|by rewrite length_fmap, length_seq].
    apply submseteq_length, NoDup_submseteq; [apply (fr_nodup _ _ Hq)|].
    intros b (i & -> & Hi' & _)%Hfl. apply list_elem_of_fmap. exists i. split; [done|].
    apply elem_of_seq. lia.
Qed.

Definition pool4 : BlockPool :=
  match pool_init 4 true false false with Ok p => p | Raise _ => mkPool 0 true (mkFreeQ fresh_heap 0) ∅ FakeHead false false [] end.

(** Two blocks are allocated, one is touched again, and both allocations are freed. *)
Definition demo1 : BlockPool := (get_new_blocks 2 pool4).2.
Definition demo2 : BlockPool := (touch [[Blk 1]] demo1).2.
Definition demo3 : BlockPool := (free_blocks [Blk 2; Blk 1] demo2).2.

Lemma demo_steps : rtc pool_step (pool4, []) (demo3, [Blk 1]).
Proof.
  assert (H1 : get_new_blocks 2 pool4 = (Ok [Blk 1; Blk 2], demo1)).
  { unfold demo1. apply (run_fst (get_new_blocks 2) pool4). vm_compute. reflexivity. }
  assert (H2 : touch [[Blk 1]] demo1 = (Ok tt, demo2)).
  { unfold demo2. apply (run_fst (touch [[Blk 1]]) demo1). vm_compute. reflexivity. }
  assert (H3 : free_blocks [Blk 2; Blk 1] demo2 = (Ok tt, demo3)).
  { unfold demo3. apply (run_fst (free_blocks [Blk 2; Blk 1]) demo2). vm_compute. reflexivity. }
  assert (Hn : 1 < num_gpu_blocks demo1) by (vm_compute; lia).
  eapply rtc_l; [exact (step_new pool4 [] 2 _ demo1 H1)|].
  eapply rtc_l; [refine (step_touch demo1 _ [[Blk 1]] _ demo2 _ H2)|].
  { intros b [->|?%elem_of_nil]%elem_of_cons; [exists 1; split; [reflexivity|exact Hn]|done]. }
  eapply rtc_l; [|apply rtc_refl].
  refine (step_free demo2 _ [Blk 1] [Blk 2; Blk 1] _ demo3 _ _ H3).
  - simpl. solve_Permutation.
  - intros b. rewrite elem_of_cons, list_elem_of_singleton. by intros [->| ->].
Qed.

Lemma refcounts_exact_witness :
  exists p, rtc pool_step (pool4, []) (p, [Blk 1]) /\ refc p (Blk 1) = 1%Z /\ refc p (Blk 2) = 0%Z.
Proof.
  assert (Hi : exists p0, pool_init 4 true false false = Ok p0 /\ p0 = pool4).
  { destruct (pool_init_spec 4 true false false) as (p0 & Hi & _); [lia|]. exists p0.
    split; [exact Hi|]. unfold pool4. by rewrite Hi. }
  destruct Hi as (p0 & Hi & ->).
  destruct (refcounts_exact 4 true false false pool4 demo3 [Blk 1] Hi demo_steps) as [Hr _].
  exists demo3. split; [exact demo_steps|]. split; [apply (Hr 1); lia|apply (Hr 2); lia].
Defined.

(** Allocation: [get_new_blocks(n)] returns the [n] blocks that have been free longest, each
    with one reference and, when caching is enabled, without a hash, so that no later lookup finds
    their old contents; other blocks keep their references and hashes.  With fewer than [n] free
    blocks it raises [ValueError] and changes nothing. *)
Theorem get_new_blocks_correct p fl n :
  pool_ok p fl ->
  match get_new_blocks n p with
  | (Ok ret, p') => n <= length fl /\ ret = take n fl /\ pool_ok p' (drop n fl) /\
      (forall b, b ∈ ret -> refc p' b = 1%Z /\ (enable_caching p = true -> hashc p' b = None)) /\
      (forall b, b ∉ ret -> refc p' b = refc p b /\ hashc p' b = hashc p b)
  | (Raise e, p') => length fl < n /\ e = ValueError /\ p' = p
  end.
Proof.
  intros Hp. destruct (decide (length fl < n)) as [Hlt|Hge].
  { by rewrite (get_new_blocks_short _ _ _ Hp Hlt). }
  pose proof Hp as Hp0. rewrite <-(take_drop n fl) in Hp.
  pose proof (get_new_blocks_spec p (take n fl) (drop n fl) noexc Hp) as Hw.
  replace (length (take n fl)) with n in Hw by (rewrite length_take; lia).
  apply wp_noexc_run in Hw as (ret & p' & -> & -> & Hp' & (_ & Hr & Hh)).
  pose proof (fr_nodup _ _ (po_queue _ _ (po_core _ _ Hp))) as (Hnd & _ & _)%NoDup_app.
  split_and!; [lia|done|done| |]; intros b Hb.
  - rewrite Hr, Hh. unfold occs. rewrite (occ_nodup _ _ Hnd Hb).
    destruct (proj1 (po_free _ _ Hp b)) as (_ & _ & ->); [apply elem_of_app; by left|].
    split; [done|]. intros Hc. by rewrite decide_True.
  - rewrite Hr, Hh. unfold occs. rewrite occ_not_in, Z.add_0_r by done.
    by rewrite decide_False by tauto.
Qed.

Lemma pool4_ok : pool_ok pool4 [Blk 1; Blk 2; Blk 3].
Proof.
  destruct (pool_init_spec 4 true false false) as (p & Hi & Hp & _); [lia|].
  unfold pool4. rewrite Hi. exact Hp.
Qed.

Lemma get_new_blocks_correct_witness : (get_new_blocks 2 pool4).1 = Ok [Blk 1; Blk 2].
Proof.
  pose proof (get_new_blocks_correct pool4 [Blk 1; Blk 2; Blk 3] 2 pool4_ok) as H.
  destruct (get_new_blocks 2 pool4) as [[ret|e] p'].
  - destruct H as (_ & -> & _). reflexivity.
  - destruct H as (H & _). simpl in H. lia.
Defined.

(** Lookup: [get_cached_block] returns, for every requested group, a block that currently
    carries the packed hash, and a miss only if for some group no block of the pool carries it;
    it never raises. *)
Theorem get_cached_block_exact p fl h gids :
  pool_ok p fl -> Forall (fun g => 0 <= g < 2 ^ 32)%Z gids ->
  match get_cached_block p h gids with
  | Ok (Some bl) => Forall2 (fun g b => in_pool p b /\ b <> null_block p /\
      exists key, make_block_hash_with_group_id h g = Ok key /\ hashc p b = Some key) gids bl
  | Ok None => exists g key, g ∈ gids /\ make_block_hash_with_group_id h g = Ok key /\
      forall b, in_pool p b -> hashc p b <> Some key
  | Raise _ => False
  end.
Proof.
  intros Hp Hg. rewrite (po_null _ _ (po_core _ _ Hp)). by apply (get_cached_block_spec p fl), Hg; apply Hp.
Qed.

Lemma get_cached_block_exact_witness : get_cached_block pool4 [7%Z] [0%Z] = Ok None.
Proof.
  pose proof (get_cached_block_exact pool4 _ [7%Z] [0%Z] pool4_ok) as H.
  specialize (H ltac:(repeat constructor; lia)).
  destruct (get_cached_block pool4 [7%Z] [0%Z]) as [[bl|]|] eqn:E; [|reflexivity|destruct H].
  exfalso. vm_compute in E. discriminate.
Defined.

(** [reset_prefix_cache] succeeds exactly when only the null block is in use; it then clears
    every hash and the dictionary, so every lookup misses, and keeps references and the free
    order.  Otherwise it changes nothing. *)
Theorem reset_prefix_cache_correct p fl :
  pool_ok p fl ->
  exists b p', reset_prefix_cache p = (Ok b, p') /\
    b = bool_decide (length fl = num_gpu_blocks p - 1) /\
    if b then pool_ok p' fl /\ (forall r, in_pool p r -> refc p' r = refc p r /\ hashc p' r = None) /\
              (forall h g gs, (0 <= g < 2 ^ 32)%Z -> get_cached_block p' h (g :: gs) = Ok None)
    else p' = p.
Proof.
  intros Hp. destruct (wp_noexc_run _ _ _ (reset_prefix_cache_spec p fl noexc Hp)) as (b & p' & -> & Hb & H).
  exists b, p'. split_and!; [done|done|]. destruct b; [|done].
  destruct H as (Hp' & (_ & Hr & _) & Hc & Hh). split_and!; [done| |].
  - intros r Hin. split; [rewrite Hr; unfold no_ref; lia|auto].
  - intros h g gs Hg. destruct (make_block_hash_in_range h g Hg) as [key Hkey].
    cbn [get_cached_block]. rewrite Hkey. cbn. by rewrite Hc.
Qed.

Lemma reset_prefix_cache_correct_witness : (reset_prefix_cache pool4).1 = Ok true.
Proof.
  destruct (reset_prefix_cache_correct pool4 _ pool4_ok) as (b & p' & -> & -> & _). vm_compute. reflexivity.
Defined.

(** [get_usage] lies between 0 and 1 (0 for a pool with the null block only). *)
Theorem usage_bounds p fl : pool_ok p fl -> (0 <= get_usage p <= 1)%Q.
Proof.
  intros Hp. pose proof (po_queue _ _ (po_core _ _ Hp)) as Hq. pose proof (po_num _ _ (po_core _ _ Hp)).
  assert (length fl <= num_gpu_blocks p - 1).
  { transitivity (length (Blk <$> seq 1 (num_gpu_blocks p - 1))); [|by rewrite length_fmap, length_seq].
    apply submseteq_length, NoDup_submseteq; [apply (fr_nodup _ _ Hq)|].
    intros b ((i & -> & Hi) & H0 & _)%(po_free _ _ Hp). apply list_elem_of_fmap. exists i. split; [done|].
    assert (i <> 0) by congruence. apply elem_of_seq. lia. }
  unfold get_usage, get_num_free_blocks. rewrite (fr_num _ _ Hq). cbv zeta.
  destruct (Z.eqb_spec (Z.of_nat (num_gpu_blocks p) - 1) 0) as [|Hne]; [split; discriminate|].
  set (t := (Z.of_nat (num_gpu_blocks p) - 1)%Z) in *. set (f := Z.of_nat (length fl)).
  assert (0 <= f <= t)%Z by lia. assert (Ht : (0 < inject_Z t)%Q) by (unfold Qlt; simpl; lia).
  assert (0 <= inject_Z f / inject_Z t)%Q by (apply Qle_shift_div_l; [done|unfold Qle; simpl; lia]).
  assert (inject_Z f / inject_Z t <= 1)%Q by (apply Qle_shift_div_r; [done|unfold Qle; simpl; lia]).
  revert H2 H3. generalize (inject_Z f / inject_Z t)%Q. intros x ? ?. split; lra.
Qed.

Lemma usage_bounds_witness : (0 <= get_usage (get_new_blocks 1 pool4).2 <= 1)%Q.
Proof.
  assert (Hp : pool_ok (get_new_blocks 1 pool4).2 [Blk 2; Blk 3]).
  { destruct (wp_noexc_run _ _ _ (get_new_blocks_spec pool4 [Blk 1] [Blk 2; Blk 3] noexc pool4_ok))
      as (ret & p' & Hg & _ & Hp' & _). change (length [Blk 1]) with 1 in Hg. by rewrite Hg. }
  apply (usage_bounds _ _ Hp).
Defined.

(** ** KV-cache events and LoRA

    With the events on, caching the first blocks of a request that has a LoRA adapter raises
    [AttributeError]: [cache_full_blocks] reads [lora_request.id], which [LoRARequest] does not
    define.  The blocks have been given their hashes by then. *)
Lemma cache_events_lora_raises p fl r l bs nf bsz gid :
  pool_ok p fl -> enable_kv_cache_events p = true -> lora_request r = Some l ->
  0 < nf -> nf <= length (block_hashes r) -> (0 <= gid < 2 ^ 32)%Z -> NoDup (take nf bs) ->
  (forall b, b ∈ take nf bs -> in_pool p b /\ b <> Blk 0 /\ hashc p b = None) ->
  exists p', cache_full_blocks r bs 0 nf bsz gid p = (Raise AttributeError, p') /\
    hashes_set gid (block_hashes r) (take nf bs) p'.
Proof.
  intros Hp Hev Hl H0 Hnf Hg Hnd Hb. unfold cache_full_blocks.
  destruct (Nat.eqb_spec 0 nf) as [|_]; [lia|]. rewrite Nat.sub_0_r, !drop_0.
  unfold assertM. rewrite (proj2 (Nat.leb_le _ _) Hnf).
  destruct (wp_noexc_run _ _ _ (cache_loop_core p fl gid (block_hashes r) (take nf bs) 0 [] noexc
    (po_core _ _ Hp) Hnd Hb ltac:(rewrite length_take; lia) Hg)) as (nh & p1 & Hrun & _ & Hc & Hs & _).
  rewrite drop_0 in Hs. exists p1. split; [|exact Hs].
  unfold mbind, M_bind. cbn [mret M_ret]. unfold mret, M_ret. rewrite Hrun.
  unfold gets. replace (enable_kv_cache_events p1) with true by (rewrite <-Hev; symmetry; apply Hc).
  cbn. by rewrite Hl.
Qed.

(** ** A pool with cached blocks, for examples *)

Definition demo_req : Request :=
  set_block_hashes [[7]; [8]]%Z (toy_request [1; 2; 3; 4; 5; 6; 7; 8]%Z None None []).
Definition cached_pool : BlockPool := (cache_full_blocks demo_req [Blk 1; Blk 2] 0 2 4 0 demo1).2.

Lemma cached_pool_ok :
  pool_ok cached_pool [Blk 3] /\ refc cached_pool (Blk 1) = 1%Z /\ refc cached_pool (Blk 2) = 1%Z.
Proof.
  destruct (wp_noexc_run _ _ _ (get_new_blocks_spec pool4 [Blk 1; Blk 2] [Blk 3] noexc pool4_ok))
    as (ret & p1 & Hg & _ & Hp1 & Hc1). change (length [Blk 1; Blk 2]) with 2 in Hg.
  assert (p1 = demo1) as -> by (unfold demo1; by rewrite Hg).
  destruct Hc1 as (Hconf & Hr & Hh).
  assert (Hnum : num_gpu_blocks demo1 = 4) by (destruct Hconf as (-> & _); vm_compute; reflexivity).
  assert (Hcach : enable_caching pool4 = true) by (vm_compute; reflexivity).
  destruct (wp_noexc_run _ _ _ (cache_full_blocks_core demo1 [Blk 3] demo_req [Blk 1; Blk 2] 0 2 4 0 noexc
    (po_core _ _ Hp1) ltac:(lia) ltac:(simpl; lia) ltac:(lia)
    ltac:(apply (bool_decide_unpack _); vm_compute; exact I)
    ltac:(intros b Hb; split; [|split];
      [exists (match b with Blk i => i | _ => 0 end); rewrite Hnum; revert Hb;
       cbn; rewrite !elem_of_cons, elem_of_nil; intros [->|[->|[]]]; (split; [reflexivity|lia])
      |revert Hb; cbn; rewrite !elem_of_cons, elem_of_nil; by intros [->|[->|[]]]
      |rewrite Hh, decide_True; [reflexivity|split; [exact Hcach|exact Hb]]])
    ltac:(intros E; destruct Hconf as (_ & _ & _ & Hev & _); rewrite Hev in E; vm_compute in E; discriminate)))
    as ([] & p2 & Hrun & Hp2 & Hc2 & _).
  assert (p2 = cached_pool) as -> by (unfold cached_pool; by rewrite Hrun).
  split; [by eapply pool_ok_changes|].
  destruct Hc2 as (_ & Hr2 & _). rewrite !Hr2, !Hr. 
  destruct (pool_init_spec 4 true false false) as (p0 & Hi & _ & _ & _ & _ & Hz); [lia|].
  assert (p0 = pool4) as -> by (unfold pool4; by rewrite Hi).
  destruct (Hz 1) as [-> _], (Hz 2) as [-> _]. split; reflexivity.
Qed.

Lemma cached_pool_num : num_gpu_blocks cached_pool = 4.
Proof. vm_compute. reflexivity. Qed.

#[global] Opaque cached_pool.

Lemma cached_pool_refs b :
  in_pool cached_pool b -> b <> Blk 0 -> refc cached_pool b = occs [Blk 1; Blk 2] b.
Proof.
  intros Hb H0. destruct cached_pool_ok as (Hp & H1 & H2).
  destruct (decide (b = Blk 1)) as [->|N1]; [exact H1|]. destruct (decide (b = Blk 2)) as [->|N2]; [exact H2|].
  assert (Hb3 : b = Blk 3).
  { destruct Hb as (i & -> & Hi). rewrite cached_pool_num in Hi.
    destruct i as [|[|[|[|]]]]; congruence || lia. }
  subst b. apply (po_free _ _ Hp). apply list_elem_of_singleton. reflexivity.
Qed.
