(* ===== verification/CacheSpec.v ===== *)
(** KV cache specifications of attention layers: [vllm/v1/kv_cache_interface.py].

    One constructor per spec class, the RaBitQ spec of this project included; page sizes, memory
    bounds and the merging of the specs of the layers of a group. Sizes are integers; a dtype is
    known by its name and its item size. A float parameter is a rational. *)
From stdpp Require Import base gmap list strings.
From Stdlib Require Import ZArith QArith Lia.
From S2P Require Import Prelude.
Open Scope nat_scope.

(** * Data *)

(** A [torch.dtype]; [get_dtype_size] reads its item size. *)
Record dtype := mkDtype {
  dt_name : string;
  dt_itemsize : Z
}.

Definition get_dtype_size (d : dtype) : Z := dt_itemsize d.

(** The fields of [AttentionSpec]. *)
Record AttentionSpec := mkAttn {
  attn_block_size : nat;
  num_kv_heads : Z;
  head_size : Z;
  attn_dtype : dtype;
  use_mla : bool
}.

Inductive KVCacheSpec :=
| FullAttentionSpec (a : AttentionSpec) (sliding_window attention_chunk_size : option Z)
| RabitQAttentionSpec (a : AttentionSpec) (sliding_window attention_chunk_size : option Z)
    (rabitq_b_q rabitq_topk : option Z) (rabitq_topp : option Q)
| ChunkedLocalAttentionSpec (a : AttentionSpec) (attention_chunk_size : Z)
| SlidingWindowSpec (a : AttentionSpec) (sliding_window : Z)
| MambaSpec (block_size : nat) (shapes : list (list Z)) (dtypes : list dtype)
    (page_size_padded : option Z) (mamba_type : string) (num_speculative_blocks : nat)
| EncoderOnlyAttentionSpec (a : AttentionSpec)
| CrossAttentionSpec (a : AttentionSpec).

#[global] Instance dtype_eq_dec : EqDecision dtype.
Proof. solve_decision. Defined.
#[global] Instance AttentionSpec_eq_dec : EqDecision AttentionSpec.
Proof. solve_decision. Defined.
#[global] Instance Q_eq_dec : EqDecision Q.
Proof. solve_decision. Defined.
(** The dataclasses compare by class and fields. *)
#[global] Instance KVCacheSpec_eq_dec : EqDecision KVCacheSpec.
Proof. solve_decision. Defined.

(** The settings of [VllmConfig] the memory bounds read. [cfg_max_encoder_len] is the multi-modal
    registry's [get_encdec_max_encoder_len] for the model. *)
Record VllmConfig := mkCfg {
  max_model_len : Z;
  decode_context_parallel_size : Z;
  max_num_batched_tokens : Z;
  cfg_max_encoder_len : Z
}.

Definition set_max_model_len (n : Z) (c : VllmConfig) : VllmConfig :=
  mkCfg n (decode_context_parallel_size c) (max_num_batched_tokens c) (cfg_max_encoder_len c).

(** The [AttentionSpec] part of a spec. *)
Definition attn_of (s : KVCacheSpec) : option AttentionSpec :=
  match s with
  | FullAttentionSpec a _ _ | RabitQAttentionSpec a _ _ _ _ _ | ChunkedLocalAttentionSpec a _
  | SlidingWindowSpec a _ | EncoderOnlyAttentionSpec a | CrossAttentionSpec a => Some a
  | MambaSpec _ _ _ _ _ _ => None
  end.

Definition block_size (s : KVCacheSpec) : nat :=
  match s with
  | MambaSpec b _ _ _ _ _ => b
  | FullAttentionSpec a _ _ | RabitQAttentionSpec a _ _ _ _ _ | ChunkedLocalAttentionSpec a _
  | SlidingWindowSpec a _ | EncoderOnlyAttentionSpec a | CrossAttentionSpec a => attn_block_size a
  end.

(** * Page sizes *)

Definition attn_page_size_bytes (a : AttentionSpec) : Z :=
  ((if use_mla a then 1 else 2) * Z.of_nat (attn_block_size a) * num_kv_heads a * head_size a
   * get_dtype_size (attn_dtype a))%Z.

Definition prod (l : list Z) : Z := fold_left Z.mul l 1%Z.
Definition zsum (l : list Z) : Z := fold_left Z.add l 0%Z.

Definition mamba_page_size_bytes (shapes : list (list Z)) (dtypes : list dtype) (padded : option Z)
  : outcome Z :=
  let page_size := zsum ((fun '(sh, d) => prod sh * get_dtype_size d)%Z <$> zip shapes dtypes) in
  match padded with
  | Some p => _ ← assert_ (page_size <=? p)%Z; Ok p
  | None => Ok page_size
  end.

Definition page_size_bytes (s : KVCacheSpec) : outcome Z :=
  match s with
  | MambaSpec _ shapes dtypes padded _ _ => mamba_page_size_bytes shapes dtypes padded
  | FullAttentionSpec a _ _ | RabitQAttentionSpec a _ _ _ _ _ | ChunkedLocalAttentionSpec a _
  | SlidingWindowSpec a _ | EncoderOnlyAttentionSpec a | CrossAttentionSpec a =>
      Ok (attn_page_size_bytes a)
  end.

(** [SlidingWindowSpec.__post_init__]. *)
Definition sliding_window_post_init (a : AttentionSpec) : outcome unit := assert_ (negb (use_mla a)).

(** * Memory bounds *)

Definition full_max_memory_usage_bytes (c : VllmConfig) (a : AttentionSpec) : Z :=
  let dcp_world_size := decode_context_parallel_size c in
  let len := if (1 <? dcp_world_size)%Z then cdiv (max_model_len c) dcp_world_size
             else max_model_len c in
  (cdiv len (Z.of_nat (attn_block_size a)) * attn_page_size_bytes a)%Z.

Definition chunked_max_memory_usage_bytes (c : VllmConfig) (a : AttentionSpec) (chunk : Z) : Z :=
  let num_tokens := Z.min (chunk + max_num_batched_tokens c) (max_model_len c) in
  (cdiv num_tokens (Z.of_nat (attn_block_size a)) * attn_page_size_bytes a)%Z.

Definition sliding_max_memory_usage_bytes (c : VllmConfig) (a : AttentionSpec) (window : Z)
  : outcome Z :=
  _ ← assert_ (decode_context_parallel_size c =? 1)%Z;
  let num_tokens := Z.min (window - 1 + max_num_batched_tokens c) (max_model_len c) in
  Ok ((cdiv num_tokens (Z.of_nat (attn_block_size a)) + 1) * attn_page_size_bytes a)%Z.

Definition cross_max_memory_usage_bytes (c : VllmConfig) (a : AttentionSpec) : Z :=
  (cdiv (cfg_max_encoder_len c) (Z.of_nat (attn_block_size a)) * attn_page_size_bytes a)%Z.

Definition spec_max_memory_usage_bytes (c : VllmConfig) (s : KVCacheSpec) : outcome Z :=
  match s with
  | FullAttentionSpec a _ _ | RabitQAttentionSpec a _ _ _ _ _ => Ok (full_max_memory_usage_bytes c a)
  | ChunkedLocalAttentionSpec a chunk => Ok (chunked_max_memory_usage_bytes c a chunk)
  | SlidingWindowSpec a window => sliding_max_memory_usage_bytes c a window
  | MambaSpec _ _ _ _ _ _ => page_size_bytes s
  | EncoderOnlyAttentionSpec _ => Ok 0%Z
  | CrossAttentionSpec a => Ok (cross_max_memory_usage_bytes c a)
  end.

(** * Merging *)

(** [KVCacheSpec.merge]: all equal. *)
Definition base_merge (specs : list KVCacheSpec) : outcome KVCacheSpec :=
  match specs with
  | [] => Raise IndexError
  | s :: rest => _ ← assert_ (forallb (fun s' => bool_decide (s' = s)) rest); Ok s
  end.

(** The sets of window sizes, as duplicate-free lists. *)
Definition merge_window_sizes (window_sizes : list Z) : outcome (option Z) :=
  match window_sizes with
  | [] => Ok None
  | [w] => Ok (Some w)
  | _ => Raise ValueError
  end.

(** [isinstance(spec, FullAttentionSpec)]: the RaBitQ spec is a subclass. *)
Definition full_fields (s : KVCacheSpec) : option (AttentionSpec * option Z * option Z) :=
  match s with
  | FullAttentionSpec a sw cs | RabitQAttentionSpec a sw cs _ _ _ => Some (a, sw, cs)
  | _ => None
  end.

Definition sliding_windows (fs : list (AttentionSpec * option Z * option Z)) : list Z :=
  remove_dups (omap (fun '(_, sw, _) => sw) fs).
Definition chunk_sizes (fs : list (AttentionSpec * option Z * option Z)) : list Z :=
  remove_dups (omap (fun '(_, _, cs) => cs) fs).

(** [FullAttentionSpec.merge], without the class of the result. *)
Definition full_merge (specs : list KVCacheSpec) : outcome (AttentionSpec * option Z * option Z) :=
  match mapM full_fields specs with
  | None => Raise AssertionError
  | Some [] => Raise IndexError
  | Some (((a, _, _) :: _) as fs) =>
      sw ← merge_window_sizes (sliding_windows fs);
      cs ← merge_window_sizes (chunk_sizes fs);
      _ ← assert_ (forallb (fun f => bool_decide (f.1.1 = a)) fs);
      _ ← assert_ (negb (bool_decide (is_Some sw) && bool_decide (is_Some cs)));
      Ok (a, sw, cs)
  end.

Definition rabitq_fields (s : KVCacheSpec) : option (option Z * option Z * option Q) :=
  match s with RabitQAttentionSpec _ _ _ bq k p => Some (bq, k, p) | _ => None end.

(** The single value of a set of parameters. *)
Definition the_value {A} `{EqDecision A} (l : list (option A)) : outcome (option A) :=
  match remove_dups l with
  | [] => Ok None
  | [v] => Ok v
  | _ => Raise ValueError
  end.

Definition rabitq_merge (specs : list KVCacheSpec) : outcome KVCacheSpec :=
  '(a, sw, cs) ← full_merge specs;
  match mapM rabitq_fields specs with
  | None => Raise AttributeError
  | Some rs =>
      bq ← the_value ((fun r => r.1.1) <$> rs);
      k ← the_value ((fun r => r.1.2) <$> rs);
      p ← the_value ((fun r => r.2) <$> rs);
      Ok (RabitQAttentionSpec a sw cs bq k p)
  end.

(** [specs[0].merge(specs)]: the class of the first spec decides. *)
Definition merge (specs : list KVCacheSpec) : outcome KVCacheSpec :=
  match specs with
  | FullAttentionSpec _ _ _ :: _ => '(a, sw, cs) ← full_merge specs; Ok (FullAttentionSpec a sw cs)
  | RabitQAttentionSpec _ _ _ _ _ _ :: _ => rabitq_merge specs
  | _ => base_merge specs
  end.

(** * Configurations *)

Record KVCacheTensor := mkTensor {
  kt_size : Z;
  shared_by : list string
}.

Record KVCacheGroupSpec := mkGroup {
  layer_names : list string;
  group_spec : KVCacheSpec
}.

Record KVCacheConfig := mkConfig {
  num_blocks : Z;
  kv_cache_tensors : list KVCacheTensor;
  kv_cache_groups : list KVCacheGroupSpec
}.

(** * Facts *)

(** Sizes are not negative. *)
Definition attn_wf (a : AttentionSpec) : Prop :=
  0 < attn_block_size a /\ (0 <= num_kv_heads a)%Z /\ (0 <= head_size a)%Z /\
  (0 <= dt_itemsize (attn_dtype a))%Z.

Definition spec_wf (s : KVCacheSpec) : Prop :=
  match attn_of s with Some a => attn_wf a | None => True end.

Lemma attn_page_size_nonneg a : attn_wf a -> (0 <= attn_page_size_bytes a)%Z.
Proof.
  intros (? & ? & ? & ?). unfold attn_page_size_bytes, get_dtype_size.
  repeat apply Z.mul_nonneg_nonneg; try lia. destruct (use_mla a); lia.
Qed.

Lemma pages_mono a n n' :
  attn_wf a -> (n <= n')%Z ->
  (cdiv n (Z.of_nat (attn_block_size a)) * attn_page_size_bytes a <=
   cdiv n' (Z.of_nat (attn_block_size a)) * attn_page_size_bytes a)%Z.
Proof.
  intros Ha Hn. apply Z.mul_le_mono_nonneg_r; [by apply attn_page_size_nonneg|].
  apply cdiv_mono; [destruct Ha; lia|done].
Qed.

(** The memory bound does not shrink when the model length grows. *)
Lemma max_memory_mono c s n n' m m' :
  spec_wf s -> (n <= n')%Z ->
  spec_max_memory_usage_bytes (set_max_model_len n c) s = Ok m ->
  spec_max_memory_usage_bytes (set_max_model_len n' c) s = Ok m' -> (m <= m')%Z.
Proof.
  intros Hs Hn. destruct s; simpl in *; intros H1 H2; simplify_eq/=; try lia.
  - unfold full_max_memory_usage_bytes. apply pages_mono; [done|]. simpl.
    destruct (1 <? decode_context_parallel_size c)%Z eqn:E; [|done].
    apply cdiv_mono; [apply Z.ltb_lt in E; lia|done].
  - unfold full_max_memory_usage_bytes. apply pages_mono; [done|]. simpl.
    destruct (1 <? decode_context_parallel_size c)%Z eqn:E; [|done].
    apply cdiv_mono; [apply Z.ltb_lt in E; lia|done].
  - unfold chunked_max_memory_usage_bytes. apply pages_mono; [done|]. simpl. lia.
  - unfold sliding_max_memory_usage_bytes, assert_ in *. simpl in *. case_match; simplify_eq/=.
    rewrite !Z.mul_add_distr_r. apply Z.add_le_mono_r, pages_mono; [done|lia].
  - rewrite H1 in H2. injection H2 as ->. apply Z.le_refl.
  - apply Z.le_refl.
Qed.

(** Whether the bound is defined does not depend on the model length. *)
Lemma max_memory_defined c s n n' :
  is_Ok (spec_max_memory_usage_bytes (set_max_model_len n c) s) ->
  is_Ok (spec_max_memory_usage_bytes (set_max_model_len n' c) s).
Proof.
  destruct s; simpl; try done. unfold sliding_max_memory_usage_bytes, assert_. simpl. by case_match.
Qed.

Lemma zsum_nonneg l : Forall (fun x => 0 <= x)%Z l -> (0 <= zsum l)%Z.
Proof.
  unfold zsum. assert (forall a, 0 <= a -> Forall (fun x => 0 <= x) l -> 0 <= fold_left Z.add l a)%Z
    as H by (induction l as [|x l IH]; simpl; [done|intros a Ha [Hx Hl]%Forall_cons; apply IH; [lia|done]]).
  intros Hl. by apply H.
Qed.

(** ** Merging *)

Lemma merge_windows_spec ws w :
  merge_window_sizes (remove_dups ws) = Ok w ->
  (forall x, x ∈ ws -> w = Some x) /\ (ws = [] -> w = None).
Proof.
  assert (Hin : forall x, x ∈ remove_dups ws <-> x ∈ ws) by (intros; apply elem_of_remove_dups).
  destruct (remove_dups ws) as [|y [|]] eqn:E; simpl; intros H; simplify_eq.
  - split; [|done]. intros x Hx%Hin. set_solver.
  - split; [|by intros ->]. intros x Hx%Hin. set_solver.
Qed.

Lemma mapM_full_fields specs fs :
  mapM full_fields specs = Some fs -> forall s, s ∈ specs -> exists f, full_fields s = Some f /\ f ∈ fs.
Proof.
  intros H%mapM_Some s Hs. apply list_elem_of_lookup_1 in Hs as [i Hi].
  destruct (Forall2_lookup_l _ _ _ _ _ H Hi) as (f & Hf & ?). exists f. split; [done|].
  by apply list_elem_of_lookup_2 in Hf.
Qed.

(** What the layers of a merged group agree on. *)
Lemma full_merge_spec specs a sw cs :
  full_merge specs = Ok (a, sw, cs) ->
  (forall s, s ∈ specs -> exists sw' cs', full_fields s = Some (a, sw', cs') /\
     (sw' = None \/ sw' = sw) /\ (cs' = None \/ cs' = cs)) /\ (sw = None \/ cs = None).
Proof.
  unfold full_merge. destruct (mapM full_fields specs) as [fs|] eqn:Hfs; [|done].
  destruct fs as [|[[a0 sw0] cs0] fs]; [done|]. set (fs1 := (a0, sw0, cs0) :: fs) in *.
  intros (sw1 & Hsw & (cs1 & Hcs & ([] & Hall & ([] & Hone & H)%bind_Ok)%bind_Ok)%bind_Ok)%bind_Ok.
  apply assert_Ok in Hall, Hone.
  simplify_eq. apply merge_windows_spec in Hsw as [Hsw _], Hcs as [Hcs _].
  rewrite forallb_forall in Hall. split.
  - intros s Hs. destruct (mapM_full_fields _ _ Hfs s Hs) as ([[a' sw'] cs'] & Hf & Hin).
    assert (a' = a) as ->.
    { apply list_elem_of_In in Hin. apply Hall in Hin. by apply bool_decide_eq_true in Hin. }
    exists sw', cs'. split_and!; [done| |].
    + destruct sw' as [w|]; [right|by left]. symmetry. apply Hsw. apply list_elem_of_omap.
      by exists (a, Some w, cs').
    + destruct cs' as [w|]; [right|by left]. symmetry. apply Hcs. apply list_elem_of_omap.
      by exists (a, sw', Some w).
  - apply negb_true_iff, andb_false_iff in Hone as [Ho|Ho]; apply bool_decide_eq_false in Ho;
      [left|right]; apply eq_None_not_Some; done.
Qed.

Lemma the_value_spec {A} `{EqDecision A} (l : list (option A)) v :
  the_value l = Ok v -> forall x, x ∈ l -> x = v.
Proof.
  unfold the_value. assert (Hin : forall x, x ∈ remove_dups l <-> x ∈ l) by (intros; apply elem_of_remove_dups).
  destruct (remove_dups l) as [|y [|]] eqn:E; intros H x Hx%Hin; simplify_eq; set_solver.
Qed.

Lemma full_fields_attn s a sw cs : full_fields s = Some (a, sw, cs) -> attn_of s = Some a.
Proof. destruct s; naive_solver. Qed.

Lemma attn_page s a :
  attn_of s = Some a -> block_size s = attn_block_size a /\ page_size_bytes s = Ok (attn_page_size_bytes a).
Proof. destruct s; naive_solver. Qed.

Lemma mapM_rabitq_fields specs rs :
  mapM rabitq_fields specs = Some rs -> forall s, s ∈ specs ->
  exists a sw cs bq k p, s = RabitQAttentionSpec a sw cs bq k p /\ (bq, k, p) ∈ rs.
Proof.
  intros H%mapM_Some s Hs. apply list_elem_of_lookup_1 in Hs as [i Hi].
  destruct (Forall2_lookup_l _ _ _ _ _ H Hi) as (f & Hf & Hr). apply list_elem_of_lookup_2 in Hf.
  destruct s; simpl in Hr; simplify_eq. eauto 10.
Qed.

Lemma mapM_replicate {A B} (f : A -> option B) n x y :
  f x = Some y -> mapM f (replicate n x) = Some (replicate n y).
Proof. intros Hf. induction n as [|n IH]; simpl; [done|]. by rewrite Hf; simpl; rewrite IH. Qed.

Lemma remove_dups_replicate {A} `{EqDecision A} n (x : A) : remove_dups (replicate (S n) x) = [x].
Proof.
  induction n as [|n IH]; [done|]. change (replicate (S (S n)) x) with (x :: replicate (S n) x).
  cbn [remove_dups]. case_decide as Hin; [done|]. destruct Hin. by left.
Qed.

Lemma omap_replicate {A B} (f : A -> option B) n x :
  omap f (replicate n x) = match f x with Some y => replicate n y | None => [] end.
Proof.
  destruct (f x) as [y|] eqn:E; induction n as [|n IH]; simpl; try done; rewrite E; [by f_equal|done].
Qed.

Lemma merge_windows_replicate n (o : option Z) (f : AttentionSpec * option Z * option Z) g :
  g f = o -> merge_window_sizes (remove_dups (omap g (replicate (S n) f))) = Ok o.
Proof.
  intros Hg. rewrite omap_replicate, Hg. destruct o; [|done]. by rewrite remove_dups_replicate.
Qed.

Lemma forallb_replicate {A} (f : A -> bool) n x : f x = true -> forallb f (replicate n x) = true.
Proof. intros Hf. induction n; simpl; [done|]. by rewrite Hf. Qed.

Lemma full_merge_replicate n s a sw cs :
  full_fields s = Some (a, sw, cs) -> sw = None \/ cs = None ->
  full_merge (replicate (S n) s) = Ok (a, sw, cs).
Proof.
  intros Hf Hone. unfold full_merge. rewrite (mapM_replicate _ _ _ _ Hf).
  change (replicate (S n) (a, sw, cs)) with ((a, sw, cs) :: replicate n (a, sw, cs)) at 1. cbn match.
  apply bind_Ok. exists sw. split; [by apply (merge_windows_replicate n)|].
  apply bind_Ok. exists cs. split; [by apply (merge_windows_replicate n)|].
  apply bind_Ok. exists tt. split.
  - apply assert_Ok, (forallb_replicate _ (S n)). by apply bool_decide_eq_true.
  - apply bind_Ok. exists tt. split; [|done]. apply assert_Ok. destruct Hone as [-> | ->]; [done|].
    by destruct sw.
Qed.

(** * Properties *)

(** A merged spec stands for every layer of its group: each layer has the same attention
    parameters, block size and page size; a layer's own window or chunk size is the merged one; and
    a merged RaBitQ spec has every layer's quantization bits, top-k and top-p. *)
Theorem merge_agrees specs s :
  merge specs = Ok s -> forall s', s' ∈ specs ->
  attn_of s' = attn_of s /\ block_size s' = block_size s /\ page_size_bytes s' = page_size_bytes s /\
  (forall a sw cs a' sw' cs', full_fields s = Some (a, sw, cs) -> full_fields s' = Some (a', sw', cs') ->
     (sw' = None \/ sw' = sw) /\ (cs' = None \/ cs' = cs)) /\
  (forall r, rabitq_fields s = Some r -> rabitq_fields s' = Some r).
Proof.
  assert (Hbase : base_merge specs = Ok s -> forall s', s' ∈ specs -> s' = s).
  { destruct specs as [|s0 rest]; [done|]. cbn. intros ([] & Hall & [= <-])%bind_Ok.
    apply assert_Ok in Hall. rewrite forallb_forall in Hall. intros s' [->|Hin]%elem_of_cons; [done|].
    apply list_elem_of_In in Hin. apply Hall in Hin. by apply bool_decide_eq_true in Hin. }
  assert (Hfull : forall a sw cs, full_merge specs = Ok (a, sw, cs) -> full_fields s = Some (a, sw, cs) ->
    forall s', s' ∈ specs ->
      attn_of s' = attn_of s /\ block_size s' = block_size s /\ page_size_bytes s' = page_size_bytes s /\
      (forall a sw cs a' sw' cs', full_fields s = Some (a, sw, cs) -> full_fields s' = Some (a', sw', cs') ->
        (sw' = None \/ sw' = sw) /\ (cs' = None \/ cs' = cs))).
  { intros a sw cs [Hm _]%full_merge_spec Hs s' Hin. destruct (Hm s' Hin) as (sw' & cs' & Hf & Hw & Hc).
    apply full_fields_attn in Hf as Ha', Hs as Ha.
    destruct (attn_page _ _ Ha') as [-> ->], (attn_page _ _ Ha) as [-> ->].
    split_and!; [congruence|done..|]. intros. by simplify_eq. }
  destruct specs as [|s0 rest]; [done|]. intros H s' Hin. destruct s0; cbn [merge] in H.
  1: { apply bind_Ok in H as ([[a0 sw] cs] & Hm & [= <-]).
       destruct (Hfull _ _ _ Hm eq_refl s' Hin) as (? & ? & ? & ?). by split_and!. }
  1: { unfold rabitq_merge in H. apply bind_Ok in H as ([[a0 sw] cs] & Hm & H).
       destruct (mapM rabitq_fields _) as [rs|] eqn:Hrs; [|done].
       apply bind_Ok in H as (bq & Hbq & (k & Hk & (pp & Hp & [= <-])%bind_Ok)%bind_Ok).
       destruct (Hfull _ _ _ Hm eq_refl s' Hin) as (? & ? & ? & ?). split_and!; [done..|].
       intros r [= <-]. destruct (mapM_rabitq_fields _ _ Hrs s' Hin) as (? & ? & ? & bq' & k' & p' & -> & Hr).
       simpl. f_equal. f_equal; [f_equal|].
       - eapply (the_value_spec _ _ Hbq). apply list_elem_of_fmap. by exists (bq', k', p').
       - eapply (the_value_spec _ _ Hk). apply list_elem_of_fmap. by exists (bq', k', p').
       - eapply (the_value_spec _ _ Hp). apply list_elem_of_fmap. by exists (bq', k', p'). }
  all: rewrite (Hbase H s' Hin); split_and!; [done..| |done]; intros; simplify_eq; by split; right.
Qed.

Definition toy_attn : AttentionSpec := mkAttn 16 8 128 (mkDtype "bfloat16" 2) false.

Lemma merge_agrees_witness :
  page_size_bytes (RabitQAttentionSpec toy_attn None None (Some 4%Z) (Some 64%Z) None) = Ok 65536%Z /\
  exists s, merge [RabitQAttentionSpec toy_attn (Some 4096%Z) None (Some 4%Z) (Some 64%Z) None;
                   RabitQAttentionSpec toy_attn None None (Some 4%Z) (Some 64%Z) None] = Ok s /\
    page_size_bytes s = Ok 65536%Z.
Proof.
  split; [reflexivity|].
  set (l := RabitQAttentionSpec toy_attn None None (Some 4%Z) (Some 64%Z) None).
  eexists. split; [vm_compute; reflexivity|].
  destruct (merge_agrees [RabitQAttentionSpec toy_attn (Some 4096%Z) None (Some 4%Z) (Some 64%Z) None; l] _
    ltac:(vm_compute; reflexivity) l ltac:(right; left)) as (_ & _ & <- & _). reflexivity.
Defined.

(** Merging the specs of identical layers gives that spec, except that a spec with both a window
    and a chunk size is refused. *)
Theorem merge_identical n s :
  match full_fields s with Some (_, Some _, Some _) => False | _ => True end ->
  merge (replicate (S n) s) = Ok s.
Proof.
  assert (Hb : base_merge (replicate (S n) s) = Ok s).
  { cbn. apply bind_Ok. exists tt. split; [|done]. apply assert_Ok, forallb_replicate.
    by apply bool_decide_eq_true. }
  intros Hok. assert (Hone : forall a sw cs, full_fields s = Some (a, sw, cs) -> sw = None \/ cs = None).
  { intros a sw cs Hf. rewrite Hf in Hok. destruct sw, cs; auto. destruct Hok. }
  destruct s; try exact Hb.
  - change (merge (replicate (S n) ?s)) with ('(a, sw, cs) ← full_merge (replicate (S n) s);
      Ok (FullAttentionSpec a sw cs)).
    by rewrite (full_merge_replicate n _ a sliding_window attention_chunk_size) by eauto.
  - change (merge (replicate (S n) ?s)) with (rabitq_merge (replicate (S n) s)). unfold rabitq_merge.
    rewrite (full_merge_replicate n _ a sliding_window attention_chunk_size) by eauto. cbn [mbind outcome_bind].
    erewrite mapM_replicate by done. unfold the_value. rewrite !fmap_replicate, !remove_dups_replicate. done.
Qed.

Lemma merge_identical_witness :
  merge (replicate 3 (SlidingWindowSpec toy_attn 1024)) = Ok (SlidingWindowSpec toy_attn 1024).
Proof. apply (merge_identical 2). exact I. Defined.

(** The memory bound of sliding-window layers is enough: whatever part of the sequence the
    window and the newly scheduled tokens cover, the pages that hold it fit in
    [max_memory_usage_bytes]. *)
Theorem sliding_window_memory_suffices c a window m start count :
  attn_wf a -> spec_max_memory_usage_bytes c (SlidingWindowSpec a window) = Ok m ->
  (0 <= start)%Z -> (0 < count <= Z.min (window - 1 + max_num_batched_tokens c) (max_model_len c))%Z ->
  let bs := Z.of_nat (attn_block_size a) in
  (((start + count - 1) / bs - start / bs + 1) * attn_page_size_bytes a <= m)%Z.
Proof.
  intros Ha Hm Hs Hc bs. cbn in Hm. unfold sliding_max_memory_usage_bytes in Hm.
  apply bind_Ok in Hm as ([] & _ & [= <-]). assert (0 < bs)%Z by (destruct Ha; lia).
  apply Z.mul_le_mono_nonneg_r; [by apply attn_page_size_nonneg|]. apply Z.add_le_mono_r.
  set (n := Z.min _ _) in *. pose proof (cdiv_spec n bs ltac:(done)) as Hn. fold bs.
  set (k := cdiv n bs) in *.
  pose proof (Z.div_mod start bs ltac:(lia)). pose proof (Z.mod_pos_bound start bs ltac:(done)).
  assert ((start + count - 1) / bs < start / bs + 1 + k)%Z; [|lia].
  apply Z.div_lt_upper_bound; [done|]. nia.
Qed.

Lemma sliding_window_memory_suffices_witness :
  ((((8191 + 1087 - 1) / 16 - 8191 / 16 + 1) * 65536 <= 4521984)%Z).
Proof.
  refine (sliding_window_memory_suffices (mkCfg 8192 1 64 0) toy_attn 1024 4521984 8191 1087 _ _ _ _).
  - unfold attn_wf. simpl. lia.
  - vm_compute. reflexivity.
  - lia.
  - simpl. lia.
Defined.
