(* ===== verification/SingleType.v ===== *)
(** Managers of one kind of attention layer: [vllm/v1/core/single_type_kv_cache_manager.py].

    A manager keeps the block table of every request; the managers of the groups share one block
    pool, so a method runs on the pair of the pool and the manager.  The classes differ in the
    prefix-cache search and in which blocks they drop; [mgr_class] selects the method, as Python's
    dispatch does.  Block sizes are positive. *)
From stdpp Require Import base gmap list strings.
From Stdlib Require Import ZArith Lia.
From S2P Require Import Prelude BlockQueue Request HashKeys BlockPool CacheSpec.
Open Scope nat_scope.

(** * State *)

Inductive mgr_class : Set :=
| FullAttentionManager | SlidingWindowManager | ChunkedLocalAttentionManager
| MambaManager | CrossAttentionManager.

#[global] Instance mgr_class_eq_dec : EqDecision mgr_class.
Proof. solve_decision. Defined.

(** [spec_manager_map[type(spec)]]. *)
Definition spec_manager_map (s : KVCacheSpec) : outcome mgr_class :=
  match s with
  | FullAttentionSpec _ _ _ | RabitQAttentionSpec _ _ _ _ _ _ => Ok FullAttentionManager
  | SlidingWindowSpec _ _ => Ok SlidingWindowManager
  | ChunkedLocalAttentionSpec _ _ => Ok ChunkedLocalAttentionManager
  | MambaSpec _ _ _ _ _ _ => Ok MambaManager
  | CrossAttentionSpec _ => Ok CrossAttentionManager
  | EncoderOnlyAttentionSpec _ => Raise KeyError
  end.

Record Manager := mkMgr {
  mgr_kind : mgr_class;
  mgr_block_size : nat;
  kv_cache_spec : KVCacheSpec;
  req_to_blocks : gmap string (list bref);
  num_cached_block : gmap string nat;
  kv_cache_group_id : Z;
  mgr_null_block : bref
}.

Definition set_req_to_blocks (t : gmap string (list bref)) (m : Manager) : Manager :=
  mkMgr (mgr_kind m) (mgr_block_size m) (kv_cache_spec m) t (num_cached_block m)
    (kv_cache_group_id m) (mgr_null_block m).
Definition set_num_cached (t : gmap string nat) (m : Manager) : Manager :=
  mkMgr (mgr_kind m) (mgr_block_size m) (kv_cache_spec m) (req_to_blocks m) t
    (kv_cache_group_id m) (mgr_null_block m).

(** [get_manager_for_kv_cache_spec]. *)
Definition manager_init (s : KVCacheSpec) (p : BlockPool) (group_id : Z) (dcp_world_size : nat)
  : outcome Manager :=
  k ← spec_manager_map s;
  let bs := if 1 <? dcp_world_size then block_size s * dcp_world_size else block_size s in
  Ok (mkMgr k bs s ∅ ∅ group_id (null_block p)).

(** The pool and one manager. *)
Record mstate := mkMS {
  ms_pool : BlockPool;
  ms_mgr : Manager
}.

Definition on_pool {A} : M BlockPool A -> M mstate A := zoom ms_pool (fun p s => mkMS p (ms_mgr s)).
Definition upd_mgr (f : Manager -> Manager) : M mstate unit :=
  modify (fun s => mkMS (ms_pool s) (f (ms_mgr s))).

(** [self.req_to_blocks[request_id]] on a [defaultdict(list)]: a missing entry is created. *)
Definition req_blocks (id : string) : M mstate (list bref) :=
  m ← gets ms_mgr;
  match req_to_blocks m !! id with
  | Some l => mret l
  | None => upd_mgr (set_req_to_blocks (<[id := []]> (req_to_blocks m))) ;; mret []
  end.

(** Storing the list that was read and changed in place. *)
Definition put_blocks (id : string) (l : list bref) : M mstate unit :=
  upd_mgr (fun m => set_req_to_blocks (<[id := l]> (req_to_blocks m)) m).

(** * Operations *)

(** [sum(blk.ref_cnt == 0 and not blk.is_null for blk in blocks)]. *)
Definition num_evictable (p : BlockPool) (bs : list bref) : nat :=
  length (filter (fun b => ref_cnt (blk p b) = 0%Z /\ is_null (blk p b) = false) bs).

(** [MambaSpec.num_speculative_blocks], 0 for other specs. *)
Definition num_speculative (s : KVCacheSpec) : nat :=
  match s with MambaSpec _ _ _ _ _ n => n | _ => 0 end.

(** The tokens a manager reserves slots for: Mamba adds the speculative blocks. *)
Definition tokens_needed (m : Manager) (num_tokens : nat) : nat :=
  match mgr_kind m with
  | MambaManager =>
      if 0 <? num_speculative (kv_cache_spec m)
      then num_tokens + block_size (kv_cache_spec m) * num_speculative (kv_cache_spec m)
      else num_tokens
  | _ => num_tokens
  end.

Definition required_blocks (m : Manager) (num_tokens : nat) : Z :=
  cdiv (Z.of_nat (tokens_needed m num_tokens)) (Z.of_nat (mgr_block_size m)).

Definition get_num_blocks_to_allocate (id : string) (num_tokens : nat)
    (new_computed_blocks : list bref) : M mstate Z :=
  req ← req_blocks id;
  s ← get;
  mret (required_blocks (ms_mgr s) num_tokens - Z.of_nat (length new_computed_blocks)
        - Z.of_nat (length req) + Z.of_nat (num_evictable (ms_pool s) new_computed_blocks))%Z.

Definition save_new_computed_blocks (id : string) (new_computed_blocks : list bref)
  : M mstate unit :=
  m ← gets ms_mgr;
  match mgr_kind m with
  | CrossAttentionManager => assertM (length new_computed_blocks =? 0)
  | _ =>
      match num_cached_block m !! id with
      | None =>
          req ← req_blocks id;
          assertM (length req =? 0) ;;
          put_blocks id (req ++ new_computed_blocks) ;;
          upd_mgr (fun m => set_num_cached (<[id := length new_computed_blocks]> (num_cached_block m)) m)
      | Some _ => assertM (length new_computed_blocks =? 0)
      end
  end.

Definition allocate_new_blocks (id : string) (num_tokens : nat) : M mstate (list bref) :=
  req ← req_blocks id;
  m ← gets ms_mgr;
  let num_new_blocks := (required_blocks m num_tokens - Z.of_nat (length req))%Z in
  if (num_new_blocks <=? 0)%Z then mret []
  else
    new_blocks ← on_pool (get_new_blocks (Z.to_nat num_new_blocks));
    put_blocks id (req ++ new_blocks) ;;
    mret new_blocks.

Definition cache_blocks (r : Request) (num_tokens : nat) : M mstate unit :=
  m ← gets ms_mgr;
  match mgr_kind m with
  | CrossAttentionManager => raise ValueError
  | _ =>
      match num_cached_block m !! request_id r with
      | None => raise KeyError
      | Some num_cached_blocks =>
          let num_full_blocks := num_tokens / mgr_block_size m in
          req ← req_blocks (request_id r);
          on_pool (cache_full_blocks r req num_cached_blocks num_full_blocks (mgr_block_size m)
                     (kv_cache_group_id m)) ;;
          upd_mgr (fun m => set_num_cached (<[request_id r := num_full_blocks]> (num_cached_block m)) m)
      end
  end.

Definition free (id : string) : M mstate unit :=
  m ← gets ms_mgr;
  let req := default [] (req_to_blocks m !! id) in
  upd_mgr (fun m => set_req_to_blocks (delete id (req_to_blocks m)) m) ;;
  on_pool (free_blocks (reverse req)) ;;
  upd_mgr (fun m => set_num_cached (delete id (num_cached_block m)) m).

(** The leading blocks with the given reference count. *)
Fixpoint count_common (p : BlockPool) (num_running : Z) (bs : list bref) : nat :=
  match bs with
  | [] => 0
  | b :: bs' => if decide (ref_cnt (blk p b) = num_running) then S (count_common p num_running bs') else 0
  end.

Definition get_num_common_prefix_blocks (id : string) (num_running_requests : Z) : M mstate nat :=
  m ← gets ms_mgr;
  match mgr_kind m with
  | FullAttentionManager =>
      req ← req_blocks id;
      p ← gets ms_pool;
      mret (count_common p num_running_requests req)
  | _ => mret 0
  end.

(** ** Dropping blocks that are out of the window *)

(** The loop [for i in range(n - 1, -1, -1)]; returns the table, the removed blocks and how the
    loop ended. The dataclass comparison [blocks[i] == self._null_block] starts with the block
    ids, which differ for different blocks. *)
Fixpoint skip_loop (null : bref) (n : nat) (blocks removed : list bref)
  : list bref * list bref * outcome unit :=
  match n with
  | O => (blocks, removed, Ok tt)
  | S i =>
      match blocks !! i with
      | None => (blocks, removed, Raise IndexError)
      | Some b =>
          if decide (b = null) then (blocks, removed, Ok tt)
          else skip_loop null i (<[i := null]> blocks) (removed ++ [b])
      end
  end.

(** The number of leading blocks the class no longer needs. *)
Definition first_useful_block (m : Manager) (id : string) (num_computed_tokens : nat) : Z :=
  let bs := Z.of_nat (mgr_block_size m) in
  match mgr_kind m, kv_cache_spec m with
  | SlidingWindowManager, SlidingWindowSpec _ window =>
      ((Z.of_nat num_computed_tokens - window + 1) / bs)%Z
  | ChunkedLocalAttentionManager, ChunkedLocalAttentionSpec _ chunk =>
      let first := (Z.of_nat num_computed_tokens / chunk * chunk / bs)%Z in
      let num_cached := default 0 (num_cached_block m !! id) in
      if 0 <? num_cached then Z.min first (Z.of_nat num_cached - 1) else first
  | _, _ => 0%Z
  end.

Definition remove_skipped_blocks (id : string) (num_computed_tokens : nat) : M mstate unit :=
  m ← gets ms_mgr;
  match mgr_kind m with
  | SlidingWindowManager | ChunkedLocalAttentionManager =>
      req ← req_blocks id;
      let '(req', removed, o) :=
        skip_loop (mgr_null_block m) (Z.to_nat (first_useful_block m id num_computed_tokens)) req [] in
      put_blocks id req' ;;
      lift_out o ;;
      on_pool (free_blocks removed)
  | _ => mret tt
  end.

(** ** Searching the prefix cache *)

(** [computed.append(cached)] for each group. *)
Definition append_each (computed : list (list bref)) (cached : list bref) : list (list bref) :=
  zip_with (fun c b => c ++ [b]) computed cached.

(** [if use_eagle and computed_blocks[0]: pop the last block of each]. *)
Definition eagle_pop (use_eagle : bool) (computed : list (list bref)) : outcome (list (list bref)) :=
  if use_eagle then
    match computed with
    | [] => Raise IndexError
    | [] :: _ => Ok computed
    | _ => Ok ((fun c => removelast c) <$> computed)
    end
  else Ok computed.

(** The loops of full and chunked attention: append hits until the first miss. *)
Fixpoint hit_loop (p : BlockPool) (gids : list Z) (hashes : list bytes) (computed : list (list bref))
  : outcome (list (list bref)) :=
  match hashes with
  | [] => Ok computed
  | h :: rest =>
      hit ← get_cached_block p h gids;
      match hit with
      | Some ((_ :: _) as cached) => hit_loop p gids rest (append_each computed cached)
      | _ => Ok computed
      end
  end.

Definition is_full_or_chunked (s : KVCacheSpec) : bool :=
  match s with
  | FullAttentionSpec _ _ _ | RabitQAttentionSpec _ _ _ _ _ _ | ChunkedLocalAttentionSpec _ _ => true
  | _ => false
  end.

Definition full_find_longest_cache_hit (p : BlockPool) (block_hashes : list bytes) (max_length : nat)
    (gids : list Z) (s : KVCacheSpec) (use_eagle : bool) (dcp : nat) : outcome (list (list bref)) :=
  _ ← assert_ (is_full_or_chunked s);
  let bs := if 1 <? dcp then block_size s * dcp else block_size s in
  computed ← hit_loop p gids (take (max_length / bs) block_hashes) (replicate (length gids) []);
  eagle_pop use_eagle computed.

(** One step of the right-to-left search; the accumulator is the table, the number of
    contiguous hits and whether a match was found. *)
Fixpoint sliding_loop (p : BlockPool) (gids : list Z) (block_hashes : list bytes) (need : Z) (i : nat)
    (computed : list (list bref)) (num_contiguous : nat) : outcome (list (list bref)) :=
  match i with
  | O => Ok (take num_contiguous <$> computed)
  | S i' =>
      match block_hashes !! i' with
      | None => Raise IndexError
      | Some h =>
          hit ← get_cached_block p h gids;
          match hit with
          | Some ((_ :: _) as cached) =>
              let computed := zip_with (fun c b => <[i' := b]> c) computed cached in
              let num_contiguous := S num_contiguous in
              if (need <=? Z.of_nat num_contiguous)%Z
              then Ok (take (i' + num_contiguous) <$> computed)
              else sliding_loop p gids block_hashes need i' computed num_contiguous
          | _ => sliding_loop p gids block_hashes need i' computed 0
          end
      end
  end.

Definition sliding_find_longest_cache_hit (p : BlockPool) (block_hashes : list bytes) (max_length : nat)
    (gids : list Z) (s : KVCacheSpec) (use_eagle : bool) (dcp : nat) : outcome (list (list bref)) :=
  match s with
  | SlidingWindowSpec a window =>
      _ ← assert_ (dcp =? 1);
      let need := (cdiv (window - 1) (Z.of_nat (attn_block_size a)) + if use_eagle then 1 else 0)%Z in
      let max_num_blocks := max_length / attn_block_size a in
      computed ← sliding_loop p gids block_hashes need max_num_blocks
                   (replicate (length gids) (replicate max_num_blocks (null_block p))) 0;
      eagle_pop use_eagle computed
  | _ => Raise AssertionError
  end.

(** As [hit_loop], indexing [block_hashes] in [range(i, i + n)]. *)
Fixpoint chunk_loop (p : BlockPool) (gids : list Z) (block_hashes : list bytes) (i n : nat)
    (computed : list (list bref)) : outcome (list (list bref)) :=
  match n with
  | O => Ok computed
  | S n' =>
      match block_hashes !! i with
      | None => Raise IndexError
      | Some h =>
          hit ← get_cached_block p h gids;
          match hit with
          | Some ((_ :: _) as cached) => chunk_loop p gids block_hashes (S i) n' (append_each computed cached)
          | _ => Ok computed
          end
      end
  end.

Definition chunked_find_longest_cache_hit (p : BlockPool) (block_hashes : list bytes) (max_length : nat)
    (gids : list Z) (s : KVCacheSpec) (use_eagle : bool) (dcp : nat) : outcome (list (list bref)) :=
  match s with
  | ChunkedLocalAttentionSpec a chunk =>
      _ ← assert_ (negb use_eagle);
      _ ← assert_ (dcp =? 1);
      let max_num_blocks := max_length / attn_block_size a in
      let local_attention_start_idx :=
        if 0 <? max_length then max_length / Z.to_nat chunk * Z.to_nat chunk else 0 in
      let start := local_attention_start_idx / attn_block_size a in
      chunk_loop p gids block_hashes start (max_num_blocks - start)
        (replicate (length gids) (replicate start (null_block p)))
  | _ => Raise AssertionError
  end.

Definition mamba_find_longest_cache_hit (gids : list Z) (s : KVCacheSpec) (dcp : nat)
  : outcome (list (list bref)) :=
  match s with
  | MambaSpec _ _ _ _ _ _ => _ ← assert_ (dcp =? 1); Ok (replicate (length gids) [])
  | _ => Raise AssertionError
  end.

Definition cross_find_longest_cache_hit (s : KVCacheSpec) : outcome (list (list bref)) :=
  match s with CrossAttentionSpec _ => Raise NotImplementedError | _ => Raise AssertionError end.

(** The class method [find_longest_cache_hit]. *)
Definition find_longest_cache_hit (k : mgr_class) (p : BlockPool) (block_hashes : list bytes)
    (max_length : nat) (gids : list Z) (s : KVCacheSpec) (use_eagle : bool) (dcp : nat)
  : outcome (list (list bref)) :=
  match k with
  | FullAttentionManager => full_find_longest_cache_hit p block_hashes max_length gids s use_eagle dcp
  | SlidingWindowManager => sliding_find_longest_cache_hit p block_hashes max_length gids s use_eagle dcp
  | ChunkedLocalAttentionManager =>
      chunked_find_longest_cache_hit p block_hashes max_length gids s use_eagle dcp
  | MambaManager => mamba_find_longest_cache_hit gids s dcp
  | CrossAttentionManager => cross_find_longest_cache_hit s
  end.

(** * The prefix-cache search *)

(** Results are tables with a row per group; the search works on columns, one per block. *)
Definition rows (G : nat) (cols : list (list bref)) : list (list bref) :=
  (fun g => (fun col => nth g col FakeHead) <$> cols) <$> seq 0 G.

Lemma rows_length G cols : length (rows G cols) = G.
Proof. unfold rows. by rewrite length_fmap, length_seq. Qed.

Lemma rows_lookup G cols g : g < G -> rows G cols !! g = Some ((fun col => nth g col FakeHead) <$> cols).
Proof. intros Hg. unfold rows. by rewrite list_lookup_fmap, lookup_seq_lt by done. Qed.

Lemma rows_ext G rs cols :
  length rs = G -> (forall g, g < G -> rs !! g = Some ((fun col => nth g col FakeHead) <$> cols)) ->
  rs = rows G cols.
Proof.
  intros Hl H. apply list_eq. intros g. destruct (decide (g < G)) as [Hg|Hg].
  - by rewrite H, rows_lookup.
  - rewrite !lookup_ge_None_2; [done|rewrite rows_length; lia|lia].
Qed.

Lemma rows_nil G : replicate G [] = rows G [].
Proof.
  apply rows_ext; [by rewrite length_replicate|]. intros g Hg. by rewrite lookup_replicate_2.
Qed.

Lemma rows_replicate G n b : replicate G (replicate n b) = rows G (replicate n (replicate G b)).
Proof.
  apply rows_ext; [by rewrite length_replicate|]. intros g Hg.
  rewrite lookup_replicate_2, fmap_replicate by done. do 2 f_equal.
  symmetry. apply nth_lookup_Some with (d := FakeHead). by apply lookup_replicate_2.
Qed.

Lemma rows_zip G cols cached (f : list bref -> bref -> list bref) cols' :
  length cached = G ->
  (forall g b, cached !! g = Some b ->
    f ((fun col => nth g col FakeHead) <$> cols) b = (fun col => nth g col FakeHead) <$> cols') ->
  zip_with f (rows G cols) cached = rows G cols'.
Proof.
  intros Hl Hf. apply rows_ext; [rewrite length_zip_with, rows_length; lia|].
  intros g Hg. destruct (lookup_lt_is_Some_2 cached g ltac:(lia)) as [b Hb].
  rewrite lookup_zip_with, rows_lookup, Hb by done. simpl. by rewrite (Hf g b).
Qed.

Lemma rows_append G cols cached : length cached = G -> append_each (rows G cols) cached = rows G (cols ++ [cached]).
Proof.
  intros Hl. apply rows_zip; [done|]. intros g b Hb. rewrite fmap_app. simpl.
  by rewrite (nth_lookup_Some _ _ _ _ Hb).
Qed.

Lemma rows_insert G cols cached i :
  length cached = G -> zip_with (fun c b => <[i := b]> c) (rows G cols) cached = rows G (<[i := cached]> cols).
Proof.
  intros Hl. apply rows_zip; [done|]. intros g b Hb. rewrite list_fmap_insert.
  by rewrite (nth_lookup_Some _ _ _ _ Hb).
Qed.

Lemma rows_map G cols (f : forall A, list A -> list A) :
  (forall A B (h : A -> B) l, f B (h <$> l) = h <$> f A l) ->
  (fun c => f _ c) <$> rows G cols = rows G (f _ cols).
Proof. intros Hf. unfold rows. rewrite <-list_fmap_compose. apply list_fmap_ext. intros. apply Hf. Qed.

Lemma removelast_fmap {A B} (h : A -> B) l : removelast (h <$> l) = h <$> removelast l.
Proof. induction l as [|x [|y l] IH]; [done..|]. simpl in *. by rewrite IH. Qed.

Lemma eagle_pop_rows e G cols :
  0 < G -> eagle_pop e (rows G cols) = Ok (rows G (if e then removelast cols else cols)).
Proof.
  intros HG. destruct e; [|done]. unfold eagle_pop. destruct (rows G cols) as [|r rs] eqn:E.
  { apply (f_equal length) in E. rewrite rows_length in E. simpl in E. lia. }
  pose proof (rows_lookup G cols 0 HG) as H0. rewrite E in H0. simpl in H0. injection H0 as ->.
  destruct cols as [|c cols]; [by rewrite <-E|]. cbn [fmap list_fmap].
  change (nth 0 c FakeHead :: list_fmap _ _ (fun col => nth 0 col FakeHead) cols)
    with ((fun col => nth 0 col FakeHead) <$> (c :: cols)).
  f_equal. transitivity ((fun c => removelast c) <$> rows G (c :: cols)); [by rewrite E|].
  apply (rows_map G (c :: cols) (fun A => @removelast A)). intros. apply removelast_fmap.
Qed.

Section search.
Context (p : BlockPool) (fl : list bref) (gids : list Z).
Hypothesis Hp : pool_ok p fl.
Hypothesis Hgids : Forall (fun g => 0 <= g < 2 ^ 32)%Z gids.
Hypothesis Hne : gids <> [].

(** The blocks, one per group, that hold the hash now. *)
Definition hit (h : bytes) : option (list bref) :=
  match get_cached_block p h gids with Ok (Some (c :: cs)) => Some (c :: cs) | _ => None end.

(** The leading hits of a list of hashes. *)
Fixpoint hits (hashes : list bytes) : list (list bref) :=
  match hashes with
  | [] => []
  | h :: rest => match hit h with Some c => c :: hits rest | None => [] end
  end.

Lemma hit_cases h :
  (exists c cs, get_cached_block p h gids = Ok (Some (c :: cs)) /\ hit h = Some (c :: cs) /\
     length (c :: cs) = length gids) \/
  (get_cached_block p h gids = Ok None /\ hit h = None).
Proof.
  pose proof (get_cached_block_spec p fl h gids (po_core _ _ Hp) Hgids) as H. unfold hit.
  destruct (get_cached_block p h gids) as [[[|c cs]|]|]; [| |by right|done].
  - apply Forall2_nil_inv_r in H. by destruct Hne.
  - left. exists c, cs. apply Forall2_length in H. by split_and!.
Qed.

Lemma hit_loop_hits hashes cols :
  hit_loop p gids hashes (rows (length gids) cols) = Ok (rows (length gids) (cols ++ hits hashes)).
Proof.
  induction hashes as [|h hashes IH] in cols |- *; simpl; [by rewrite app_nil_r|].
  destruct (hit_cases h) as [(c & cs & -> & -> & Hl)|[-> ->]]; cbn; [|by rewrite app_nil_r].
  rewrite rows_append, IH by done. by rewrite <-app_assoc.
Qed.

(** [hits] is the longest prefix that is all hits. *)
Lemma hits_spec hashes :
  length (hits hashes) <= length hashes /\
  (forall i c, hits hashes !! i = Some c -> exists h, hashes !! i = Some h /\ hit h = Some c) /\
  (length (hits hashes) < length hashes ->
     exists h, hashes !! length (hits hashes) = Some h /\ hit h = None).
Proof.
  induction hashes as [|h hashes (IH1 & IH2 & IH3)]; simpl; [split_and!; [lia|done|lia]|].
  destruct (hit h) as [c|] eqn:Hh; simpl.
  - split_and!; [lia| |intros; apply IH3; lia].
    intros [|i] c' Hi; simpl in *; [simplify_eq; eauto|eauto].
  - split_and!; [lia|done|]. intros _. by exists h.
Qed.

Lemma full_find_spec hashes max s e dcp :
  is_full_or_chunked s = true ->
  let bs := if 1 <? dcp then block_size s * dcp else block_size s in
  full_find_longest_cache_hit p hashes max gids s e dcp =
  Ok (rows (length gids)
        (let cols := hits (take (max / bs) hashes) in if e then removelast cols else cols)).
Proof.
  intros Hs bs. unfold full_find_longest_cache_hit. rewrite Hs. cbn. rewrite rows_nil.
  rewrite hit_loop_hits. cbn. fold bs. apply eagle_pop_rows. destruct gids; [done|simpl; lia].
Qed.

(** *** The sliding-window search *)

Definition hit_at (hashes : list bytes) (i : nat) : option (list bref) := hashes !! i ≫= hit.

(** A prefix of [L] blocks can be reused when its last [n] blocks (all of them if there are
    fewer) are cached. *)
Definition reusable (hashes : list bytes) (n L : nat) : Prop :=
  forall i, L - n <= i < L -> is_Some (hit_at hashes i).

Definition null_col : list bref := replicate (length gids) (null_block p).

(** The columns of a reusable prefix: null blocks, then the last [n] blocks. *)
Definition window_cols (hashes : list bytes) (n : nat) (cols : list (list bref)) : Prop :=
  forall i col, cols !! i = Some col ->
    if i <? length cols - n then col = null_col else hit_at hashes i = Some col.

Lemma sliding_loop_spec hashes need n max i cols c :
  n = Nat.max 1 (Z.to_nat need) -> max <= length hashes -> length cols = max -> i + c <= max -> c < n ->
  (forall j, j < i -> cols !! j = Some null_col) ->
  (forall j, i <= j < i + c -> exists col, cols !! j = Some col /\ hit_at hashes j = Some col) ->
  (forall L, i + c < L <= max -> ~ reusable hashes n L) ->
  exists cols', sliding_loop p gids hashes need i (rows (length gids) cols) c
                = Ok (rows (length gids) cols') /\
    length cols' <= max /\ window_cols hashes n cols' /\
    (forall L, length cols' < L <= max -> ~ reusable hashes n L).
Proof.
  intros Hn Hmax Hcols. induction i as [|i IH] in cols, c, Hcols |- *; intros Hic Hc Hnull Hhit Hbest.
  - exists (take c cols). split.
    { simpl. f_equal. apply (rows_map (length gids) cols (fun A => @take A c)). intros. by rewrite fmap_take. }
    rewrite length_take. split_and!; [lia| |intros L HL; apply Hbest; lia].
    intros j col Hj. rewrite length_take. apply lookup_take_Some in Hj as [Hj Hjc].
    destruct (Nat.ltb_spec j (c `min` length cols - n)); [lia|].
    destruct (Hhit j) as (col' & ? & ?); [lia|]. congruence.
  - cbn [sliding_loop]. destruct (lookup_lt_is_Some_2 hashes i ltac:(lia)) as [h Hh]. rewrite Hh.
    assert (Hat : hit_at hashes i = hit h) by (unfold hit_at; by rewrite Hh).
    destruct (hit_cases h) as [(b & bs & -> & Hhh & Hl)|[-> Hhh]]; cbn [mbind outcome_bind].
    + rewrite (rows_insert _ _ _ _ Hl). set (cols1 := <[i := b :: bs]> cols).
      assert (Hl1 : length cols1 = max) by (unfold cols1; by rewrite length_insert).
      assert (Hi1 : cols1 !! i = Some (b :: bs)) by (apply list_lookup_insert_eq; lia).
      assert (Hhit1 : forall j, i <= j < S i + c ->
        exists col, cols1 !! j = Some col /\ hit_at hashes j = Some col).
      { intros j Hj. destruct (decide (j = i)) as [->|Hji].
        - exists (b :: bs). split; [done|]. by rewrite Hat, Hhh.
        - destruct (Hhit j) as (col & ? & ?); [lia|]. exists col.
          unfold cols1. by rewrite list_lookup_insert_ne. }
      assert (Hnull1 : forall j, j < i -> cols1 !! j = Some null_col).
      { intros j Hj. unfold cols1. rewrite list_lookup_insert_ne by lia. apply Hnull. lia. }
      destruct (Z.leb_spec need (Z.of_nat (S c))) as [Hneed|Hneed].
      * assert (Hcn : S c = n) by lia. exists (take (i + S c) cols1). split.
        { f_equal. apply (rows_map (length gids) cols1 (fun A => @take A (i + S c))). intros. by rewrite fmap_take. }
        rewrite length_take, Hl1. split_and!; [lia| |intros L HL; apply Hbest; lia].
        intros j col Hj. rewrite length_take, Hl1. apply lookup_take_Some in Hj as [Hj Hjc].
        destruct (Nat.ltb_spec j ((i + S c) `min` max - n)).
        -- rewrite Hnull1 in Hj by lia. by simplify_eq.
        -- destruct (Hhit1 j) as (col' & ? & ?); [lia|]. congruence.
      * apply IH; [done|lia|lia|done|intros j Hj; apply Hhit1; lia|].
        intros L HL. apply Hbest. lia.
    + apply IH; [done|lia|lia|intros j Hj; apply Hnull; lia|intros; lia|].
      intros L HL HL2. destruct (decide (S i + c < L)) as [|Hle]; [apply (Hbest L); [lia|done]|].
      specialize (HL2 i ltac:(lia)). rewrite Hat, Hhh in HL2. by destruct HL2.
Qed.

Lemma sliding_find_spec a window hashes max (e : bool) :
  let m := max / attn_block_size a in
  let need := (cdiv (window - 1) (Z.of_nat (attn_block_size a)) + if e then 1 else 0)%Z in
  let n := Nat.max 1 (Z.to_nat need) in
  m <= length hashes ->
  exists cols, sliding_find_longest_cache_hit p hashes max gids (SlidingWindowSpec a window) e 1
    = Ok (rows (length gids) (if e then removelast cols else cols)) /\
    length cols <= m /\ window_cols hashes n cols /\
    (forall L, length cols < L <= m -> ~ reusable hashes n L).
Proof.
  intros m need n Hm. unfold sliding_find_longest_cache_hit. cbn. fold m need.
  rewrite rows_replicate.
  destruct (sliding_loop_spec hashes need n m m (replicate m null_col) 0) as (cols & Hl & H1 & H2 & H3).
  - done.
  - done.
  - apply length_replicate.
  - lia.
  - unfold n. lia.
  - intros j Hj. by apply lookup_replicate_2.
  - intros; lia.
  - intros; lia.
  - exists cols. fold null_col. rewrite Hl. cbn. split_and!; [|done..].
    apply eagle_pop_rows. destruct gids; [done|simpl; lia].
Qed.

(** *** Chunked attention *)

Lemma chunk_loop_hits hashes i k cols :
  i + k <= length hashes ->
  chunk_loop p gids hashes i k (rows (length gids) cols) =
  Ok (rows (length gids) (cols ++ hits (take k (drop i hashes)))).
Proof.
  induction k as [|k IH] in i, cols |- *; intros Hk; simpl; [by rewrite app_nil_r|].
  destruct (lookup_lt_is_Some_2 hashes i ltac:(lia)) as [h Hh]. rewrite Hh.
  rewrite (drop_S _ _ _ Hh). cbn [firstn take hits].
  destruct (hit_cases h) as [(c & cs & -> & -> & Hl)|[-> ->]]; cbn; [|by rewrite app_nil_r].
  rewrite rows_append, IH by (done || lia). by rewrite <-app_assoc.
Qed.

Lemma chunked_find_spec a chunk hashes max :
  0 < attn_block_size a -> (0 < chunk)%Z ->
  let bs := attn_block_size a in
  let start := (max / Z.to_nat chunk * Z.to_nat chunk) / bs in
  max / bs <= length hashes ->
  start <= max / bs /\
  chunked_find_longest_cache_hit p hashes max gids (ChunkedLocalAttentionSpec a chunk) false 1 =
  Ok (rows (length gids) (replicate start null_col ++ hits (take (max / bs - start) (drop start hashes)))).
Proof.
  intros Hbs Hc bs start Hm.
  assert (Hs : start <= max / bs).
  { apply Nat.Div0.div_le_mono. rewrite Nat.mul_comm. apply Nat.Div0.mul_div_le. }
  split; [done|]. unfold chunked_find_longest_cache_hit.
  change (assert_ (negb false)) with (Ok tt). change (assert_ (1 =? 1)) with (Ok tt). cbn [mbind outcome_bind].
  assert ((if 0 <? max then max / Z.to_nat chunk * Z.to_nat chunk else 0) = max / Z.to_nat chunk * Z.to_nat chunk)
    as ->. { destruct (Nat.ltb_spec 0 max); [done|]. replace max with 0 by lia. by rewrite Nat.Div0.div_0_l. }
  fold bs start. rewrite rows_replicate. apply chunk_loop_hits. lia.
Qed.
End search.

Lemma rows_entry G cols g r i b :
  rows G cols !! g = Some r -> r !! i = Some b ->
  exists col, cols !! i = Some col /\ (length col = G -> col !! g = Some b).
Proof.
  intros Hr Hb. assert (Hg : g < G) by (apply lookup_lt_Some in Hr; by rewrite rows_length in Hr).
  rewrite rows_lookup in Hr by done. injection Hr as <-.
  apply list_lookup_fmap_Some in Hb as (col & -> & Hcol). exists col. split; [done|].
  intros Hl. destruct (nth_lookup_or_length col g FakeHead) as [|]; [done|lia].
Qed.

Lemma rows_row_length G cols g r : rows G cols !! g = Some r -> length r = length cols.
Proof.
  intros Hr. assert (Hg : g < G) by (apply lookup_lt_Some in Hr; by rewrite rows_length in Hr).
  rewrite rows_lookup in Hr by done. injection Hr as <-. by rewrite length_fmap.
Qed.

Lemma removelast_take {A} (l : list A) : removelast l = take (length l - 1) l.
Proof.
  induction l as [|x [|y l] IH]; [done..|].
  change (removelast (x :: y :: l)) with (x :: removelast (y :: l)). rewrite IH.
  simpl. by rewrite Nat.sub_0_r.
Qed.

Lemma hit_some p fl gids h c :
  pool_ok p fl -> Forall (fun g => 0 <= g < 2 ^ 32)%Z gids -> gids <> [] ->
  hit p gids h = Some c -> get_cached_block p h gids = Ok (Some c) /\ length c = length gids.
Proof.
  intros Hp Hg Hne H. destruct (hit_cases p fl gids Hp Hg Hne h) as [(c0 & cs & H1 & H2 & H3)|[_ H2]];
    rewrite H2 in H; simplify_eq. done.
Qed.

Lemma hit_none p fl gids h :
  pool_ok p fl -> Forall (fun g => 0 <= g < 2 ^ 32)%Z gids -> gids <> [] ->
  hit p gids h = None -> get_cached_block p h gids = Ok None.
Proof.
  intros Hp Hg Hne H. destruct (hit_cases p fl gids Hp Hg Hne h) as [(c0 & cs & H1 & H2 & H3)|[H1 _]]; congruence.
Qed.

(** * Properties of the search *)

(** Full attention (RaBitQ layers included) gets the longest cached prefix: all its blocks are
    cached blocks of the request's hashes, in every group; it is cut short of [max_length] and of
    the known hashes only by a block that misses; with EAGLE its last block is dropped. *)
Theorem full_cache_hit_longest p fl hashes max gids s (e : bool) dcp :
  pool_ok p fl -> Forall (fun g => 0 <= g < 2 ^ 32)%Z gids -> gids <> [] ->
  is_full_or_chunked s = true ->
  let limit := Nat.min (max / (if 1 <? dcp then block_size s * dcp else block_size s)) (length hashes) in
  exists L rs, find_longest_cache_hit FullAttentionManager p hashes max gids s e dcp = Ok rs /\
    length rs = length gids /\ L <= limit /\
    (forall g r, rs !! g = Some r -> length r = if e then L - 1 else L) /\
    (forall g r i b, rs !! g = Some r -> r !! i = Some b -> exists h col,
       hashes !! i = Some h /\ get_cached_block p h gids = Ok (Some col) /\ col !! g = Some b) /\
    (L < limit -> exists h, hashes !! L = Some h /\ get_cached_block p h gids = Ok None).
Proof.
  intros Hp Hg Hne Hs limit. set (bs := if 1 <? dcp then _ else _) in *.
  destruct (hits_spec p gids (take (max / bs) hashes)) as (H1 & H2 & H3).
  set (cols := hits p gids (take (max / bs) hashes)) in *. rewrite length_take in H1, H3.
  exists (length cols), (rows (length gids) (if e then removelast cols else cols)). split_and!.
  - by apply (full_find_spec p fl).
  - apply rows_length.
  - exact H1.
  - intros g r Hr. rewrite (rows_row_length _ _ _ _ Hr). destruct e; [|done].
    rewrite removelast_take, length_take. lia.
  - intros g r i b Hr Hb. destruct (rows_entry _ _ _ _ _ _ Hr Hb) as (col & Hcol & Hgb).
    assert (Hcol' : cols !! i = Some col).
    { destruct e; [|done]. rewrite removelast_take in Hcol. by apply lookup_take_Some in Hcol as [? _]. }
    destruct (H2 _ _ Hcol') as (h & Hh & Hhit). apply lookup_take_Some in Hh as [Hh _].
    destruct (hit_some p fl gids h col) as [? ?]; [done..|]. exists h, col. split_and!; auto.
  - intros HL. destruct (H3 HL) as (h & Hh & Hm). apply lookup_take_Some in Hh as [Hh _].
    exists h. split; [done|]. by eapply hit_none.
Qed.

Definition toy_hashes : list bytes := [[7]; [8]; [9]]%Z.

Lemma toy_gid : Forall (fun g => 0 <= g < 2 ^ 32)%Z [0%Z].
Proof. repeat constructor; lia. Qed.

Lemma full_cache_hit_longest_witness :
  exists L rs, find_longest_cache_hit FullAttentionManager cached_pool toy_hashes 48 [0%Z]
      (RabitQAttentionSpec toy_attn None None (Some 4%Z) None None) false 1 = Ok rs /\ L <= 3 /\
    forall g r, rs !! g = Some r -> length r = L.
Proof.
  destruct (full_cache_hit_longest cached_pool [Blk 3] toy_hashes 48 [0%Z]
    (RabitQAttentionSpec toy_attn None None (Some 4%Z) None None) false 1) as (L & rs & H1 & _ & H2 & H3 & _).
  - apply cached_pool_ok.
  - exact toy_gid.
  - discriminate.
  - reflexivity.
  - exists L, rs. split; [exact H1|]. split; [exact H2|exact H3].
Defined.

(** C23: A sliding-window layer gets the longest reusable prefix: the blocks inside the window
    before the prefix's end are cached blocks, the ones before it null blocks, and no longer prefix
    within [max_length] has all its window blocks cached (EAGLE widens the window by a block and
    drops the last one). *)
Theorem sliding_cache_hit_longest p fl hashes max gids a window (e : bool) :
  pool_ok p fl -> Forall (fun g => 0 <= g < 2 ^ 32)%Z gids -> gids <> [] ->
  max / attn_block_size a <= length hashes ->
  let n := Nat.max 1 (Z.to_nat (cdiv (window - 1) (Z.of_nat (attn_block_size a)) + if e then 1 else 0)) in
  exists L rs,
    find_longest_cache_hit SlidingWindowManager p hashes max gids (SlidingWindowSpec a window) e 1 = Ok rs /\
    length rs = length gids /\ L <= max / attn_block_size a /\
    (forall g r, rs !! g = Some r -> length r = if e then L - 1 else L) /\
    (forall g r i b, rs !! g = Some r -> r !! i = Some b ->
       if i <? L - n then b = null_block p
       else exists h col, hashes !! i = Some h /\ get_cached_block p h gids = Ok (Some col) /\
                          col !! g = Some b) /\
    (forall L', L < L' <= max / attn_block_size a ->
       exists i h, L' - n <= i < L' /\ hashes !! i = Some h /\ get_cached_block p h gids = Ok None).
Proof.
  intros Hp Hg Hne Hm n.
  destruct (sliding_find_spec p fl gids Hp Hg Hne a window hashes max e Hm) as (cols & Hf & H1 & H2 & H3).
  fold n in H2, H3. exists (length cols), (rows (length gids) (if e then removelast cols else cols)).
  split_and!.
  - exact Hf.
  - apply rows_length.
  - exact H1.
  - intros g r Hr. rewrite (rows_row_length _ _ _ _ Hr). destruct e; [|done].
    rewrite removelast_take, length_take. lia.
  - intros g r i b Hr Hb. destruct (rows_entry _ _ _ _ _ _ Hr Hb) as (col & Hcol & Hgb).
    assert (Hcol' : cols !! i = Some col).
    { destruct e; [|done]. rewrite removelast_take in Hcol. by apply lookup_take_Some in Hcol as [? _]. }
    specialize (H2 _ _ Hcol'). destruct (i <? length cols - n).
    + subst col. specialize (Hgb (length_replicate _ _)). unfold null_col in Hgb.
      by apply lookup_replicate in Hgb as [-> _].
    + apply bind_Some in H2 as (h & Hh & Hhit).
      destruct (hit_some p fl gids h col) as [? ?]; [done..|]. exists h, col. split_and!; auto.
  - intros L' HL'. destruct (decide (Forall (fun i => is_Some (hit_at p gids hashes i)) (seq (L' - n) (L' - (L' - n)))))
      as [Hall|Hex%not_Forall_Exists].
    + destruct (H3 L' HL'). intros i Hi. rewrite Forall_forall in Hall. apply Hall, elem_of_seq. lia.
    + apply Exists_exists in Hex as (i & [Hi1 Hi2]%elem_of_seq & Hmiss). 
      destruct (lookup_lt_is_Some_2 hashes i ltac:(lia)) as [h Hh].
      exists i, h. split_and!; [lia|lia|done|]. eapply hit_none; [done..|].
      unfold compose, hit_at in Hmiss. rewrite Hh in Hmiss. by apply eq_None_not_Some in Hmiss.
    + intros x. apply _.
Qed.

Lemma sliding_cache_hit_longest_witness :
  exists L rs, find_longest_cache_hit SlidingWindowManager cached_pool toy_hashes 48 [0%Z]
      (SlidingWindowSpec toy_attn 17) true 1 = Ok rs /\ L <= 3 /\
    forall g r, rs !! g = Some r -> length r = L - 1.
Proof.
  destruct (sliding_cache_hit_longest cached_pool [Blk 3] toy_hashes 48 [0%Z] toy_attn 17 true)
    as (L & rs & H1 & _ & H2 & H3 & _).
  - apply cached_pool_ok.
  - exact toy_gid.
  - discriminate.
  - vm_compute. lia.
  - exists L, rs. split; [exact H1|]. split; [exact H2|exact H3].
Defined.

(** A chunked-attention layer skips the blocks before the current chunk (null blocks) and then
    gets the longest run of cached blocks, cut short only by [max_length] or a block that misses. *)
Theorem chunked_cache_hit_longest p fl hashes max gids a chunk :
  pool_ok p fl -> Forall (fun g => 0 <= g < 2 ^ 32)%Z gids -> gids <> [] ->
  0 < attn_block_size a -> (0 < chunk)%Z -> max / attn_block_size a <= length hashes ->
  let start := (max / Z.to_nat chunk * Z.to_nat chunk) / attn_block_size a in
  exists L rs,
    find_longest_cache_hit ChunkedLocalAttentionManager p hashes max gids (ChunkedLocalAttentionSpec a chunk)
      false 1 = Ok rs /\
    length rs = length gids /\ start <= L <= max / attn_block_size a /\
    (forall g r, rs !! g = Some r -> length r = L) /\
    (forall g r i b, rs !! g = Some r -> r !! i = Some b ->
       if i <? start then b = null_block p
       else exists h col, hashes !! i = Some h /\ get_cached_block p h gids = Ok (Some col) /\
                          col !! g = Some b) /\
    (L < max / attn_block_size a ->
       exists h, hashes !! L = Some h /\ get_cached_block p h gids = Ok None).
Proof.
  intros Hp Hg Hne Hbs Hc Hm start.
  destruct (chunked_find_spec p fl gids Hp Hg Hne a chunk hashes max Hbs Hc Hm) as [Hs Hf].
  fold start in Hs, Hf. set (sub := take (max / attn_block_size a - start) (drop start hashes)) in *.
  destruct (hits_spec p gids sub) as (H1 & H2 & H3). set (hs := hits p gids sub) in *.
  assert (Hsub : length sub = max / attn_block_size a - start).
  { unfold sub. rewrite length_take, length_drop. lia. }
  assert (Hsl : forall i h, sub !! i = Some h -> hashes !! (start + i) = Some h).
  { intros i h [Hi _]%lookup_take_Some. by rewrite lookup_drop in Hi. }
  exists (start + length hs), (rows (length gids) (replicate start (null_col p gids) ++ hs)). split_and!.
  - exact Hf.
  - apply rows_length.
  - lia.
  - lia.
  - intros g r Hr. rewrite (rows_row_length _ _ _ _ Hr), length_app, length_replicate. done.
  - intros g r i b Hr Hb. destruct (rows_entry _ _ _ _ _ _ Hr Hb) as (col & Hcol & Hgb).
    destruct (Nat.ltb_spec i start).
    + rewrite lookup_app_l in Hcol by (by rewrite length_replicate).
      apply lookup_replicate in Hcol as [-> _]. specialize (Hgb (length_replicate _ _)).
      by apply lookup_replicate in Hgb as [-> _].
    + rewrite lookup_app_r, length_replicate in Hcol by (by rewrite length_replicate).
      destruct (H2 _ _ Hcol) as (h & Hh & Hhit). apply Hsl in Hh.
      destruct (hit_some p fl gids h col) as [? ?]; [done..|]. exists h, col.
      split_and!; [by rewrite <-Hh; f_equal; lia|done|auto].
  - intros HL. destruct H3 as (h & Hh & Hmiss); [lia|]. exists h. split; [by apply Hsl|].
    by eapply hit_none.
Qed.

Lemma chunked_cache_hit_longest_witness :
  exists L rs, find_longest_cache_hit ChunkedLocalAttentionManager cached_pool toy_hashes 40 [0%Z]
      (ChunkedLocalAttentionSpec toy_attn 32) false 1 = Ok rs /\ L <= 2 /\
    forall g r, rs !! g = Some r -> length r = L.
Proof.
  destruct (chunked_cache_hit_longest cached_pool [Blk 3] toy_hashes 40 [0%Z] toy_attn 32)
    as (L & rs & H1 & _ & [_ H2] & H3 & _).
  - apply cached_pool_ok.
  - exact toy_gid.
  - discriminate.
  - vm_compute. lia.
  - lia.
  - vm_compute. lia.
  - exists L, rs. split; [exact H1|]. split; [exact H2|exact H3].
Defined.

(** * Block tables and references *)

(** The references a table holds, one entry each. *)
Definition refs_of (t : gmap string (list bref)) : list bref := concat (map_to_list t).*2.

Lemma refs_of_insert_new t id l : t !! id = None -> refs_of (<[id := l]> t) ≡ₚ l ++ refs_of t.
Proof. intros Ht. unfold refs_of. by rewrite map_to_list_insert. Qed.

Lemma refs_of_delete t id l : t !! id = Some l -> refs_of t ≡ₚ l ++ refs_of (delete id t).
Proof.
  intros Ht. rewrite <-(insert_delete_id t id l Ht) at 1. apply refs_of_insert_new, lookup_delete_eq.
Qed.

Lemma refs_of_insert t id l :
  refs_of (<[id := l]> t) ≡ₚ l ++ refs_of (delete id t).
Proof. rewrite <-insert_delete_eq. apply refs_of_insert_new, lookup_delete_eq. Qed.

Lemma refs_of_default t id : refs_of t ≡ₚ default [] (t !! id) ++ refs_of (delete id t).
Proof.
  destruct (t !! id) as [l|] eqn:E; [by apply refs_of_delete|]. by rewrite delete_id.
Qed.

Lemma elem_of_refs t b : b ∈ refs_of t <-> exists id l, t !! id = Some l /\ b ∈ l.
Proof.
  unfold refs_of. rewrite list_elem_of_In, in_concat. split.
  - intros (l & Hl & Hb). apply list_elem_of_In in Hl, Hb.
    apply list_elem_of_fmap in Hl as ([id l'] & -> & Hin). apply elem_of_map_to_list in Hin. eauto.
  - intros (id & l & Hl & Hb). exists l. rewrite <-!list_elem_of_In. split; [|done].
    apply list_elem_of_fmap. exists (id, l). by rewrite elem_of_map_to_list.
Qed.

Definition occ_refs (b : bref) (t : gmap string (list bref)) : nat := occ b (refs_of t).

Lemma occ_refs_insert b t id l :
  occ_refs b (<[id := l]> t) + occ b (default [] (t !! id)) = occ b l + occ_refs b t.
Proof.
  unfold occ_refs. rewrite (occ_perm _ _ _ (refs_of_insert t id l)), (occ_perm _ _ _ (refs_of_default t id)).
  rewrite !occ_app. lia.
Qed.

Lemma occ_refs_delete b t id :
  occ_refs b (delete id t) + occ b (default [] (t !! id)) = occ_refs b t.
Proof.
  unfold occ_refs. rewrite (occ_perm _ _ _ (refs_of_default t id)), occ_app. lia.
Qed.

(** ** The invariant of a manager and the pool

    [other b] counts the references to [b] that this manager does not hold (those of the other
    groups, and of blocks being handed over); [fl] is the free queue. *)
Definition table_ok (p : BlockPool) (t : gmap string (list bref)) : Prop :=
  forall id l, t !! id = Some l ->
    (forall b, b ∈ l -> in_pool p b) /\ (forall b, b ∈ l -> b <> Blk 0 -> occ b l = 1).

Record mgr_inv (other : bref -> Z) (fl : list bref) (s : mstate) : Prop := {
  mi_pool : pool_ok (ms_pool s) fl;
  mi_null : mgr_null_block (ms_mgr s) = Blk 0;
  mi_table : table_ok (ms_pool s) (req_to_blocks (ms_mgr s));
  mi_refs : forall b, in_pool (ms_pool s) b -> b <> Blk 0 ->
    refc (ms_pool s) b = (other b + Z.of_nat (occ_refs b (req_to_blocks (ms_mgr s))))%Z;
  mi_other : forall b, (0 <= other b)%Z
}.

Lemma table_ok_conf p p' t : num_gpu_blocks p' = num_gpu_blocks p -> table_ok p t -> table_ok p' t.
Proof.
  intros Hc Ht id l Hl. destruct (Ht id l Hl) as [H1 H2]. split; [|done].
  intros b Hb. destruct (H1 b Hb) as (i & -> & Hi). exists i. split; [done|lia].
Qed.

Lemma table_ok_insert p t id l :
  table_ok p t -> (forall b, b ∈ l -> in_pool p b) -> (forall b, b ∈ l -> b <> Blk 0 -> occ b l = 1) ->
  table_ok p (<[id := l]> t).
Proof. intros Ht H1 H2 id' l' [[<- <-]|[_ ?]]%lookup_insert_Some; [done|by eapply Ht]. Qed.

Lemma table_ok_delete p t id : table_ok p t -> table_ok p (delete id t).
Proof. intros Ht id' l' [_ ?]%lookup_delete_Some. by eapply Ht. Qed.

Lemma table_ok_default p t id :
  table_ok p t -> (forall b, b ∈ default [] (t !! id) -> in_pool p b) /\
    (forall b, b ∈ default [] (t !! id) -> b <> Blk 0 -> occ b (default [] (t !! id)) = 1).
Proof.
  intros Ht. destruct (t !! id) as [l|] eqn:E; simpl; [by eapply Ht|].
  split; intros b Hb; by apply elem_of_nil in Hb.
Qed.

(** What no method of a manager changes. *)
Definition same_mgr (m m' : Manager) : Prop :=
  mgr_kind m' = mgr_kind m /\ mgr_block_size m' = mgr_block_size m /\
  kv_cache_spec m' = kv_cache_spec m /\ kv_cache_group_id m' = kv_cache_group_id m.

#[global] Instance same_mgr_preorder : PreOrder same_mgr.
Proof. split; [by intros m|]. intros m1 m2 m3. unfold same_mgr. intuition congruence. Qed.

(** The table entry, empty if there is none. *)
Definition blocks_of (m : Manager) (id : string) : list bref := default [] (req_to_blocks m !! id).

(** Reading an entry of the [defaultdict] only adds an empty list. *)
Lemma req_blocks_spec other fl s id E :
  mgr_inv other fl s ->
  wp (req_blocks id) (fun l s' => l = blocks_of (ms_mgr s) id /\ ms_pool s' = ms_pool s /\
    mgr_inv other fl s' /\
    ms_mgr s' = set_req_to_blocks (<[id := l]> (req_to_blocks (ms_mgr s))) (ms_mgr s)) E s.
Proof.
  intros Hi. unfold req_blocks, blocks_of. wp_step. wp_step.
  destruct (req_to_blocks (ms_mgr s) !! id) as [l|] eqn:El.
  - wp_steps. split_and!; [done|done|done|]. rewrite insert_id by done. by destruct (ms_mgr s).
  - wp_step. apply wp_modify. wp_steps. split_and!; [done|done| |done].
    destruct Hi as [H1 H2 H3 H4 H5]. split; simpl; try done.
    + apply table_ok_insert; [done| |]; by intros b ?%elem_of_nil.
    + intros b Hb H0. rewrite H4 by done. pose proof (occ_refs_insert b (req_to_blocks (ms_mgr s)) id []) as Ho.
      rewrite El in Ho. simpl in Ho. lia.
Qed.

(** The pool changes and one entry is replaced. *)
Lemma mgr_inv_update other other' fl fl' s s' id l' d h :
  mgr_inv other fl s -> pool_ok (ms_pool s') fl' -> changes (ms_pool s) (ms_pool s') d h ->
  req_to_blocks (ms_mgr s') = <[id := l']> (req_to_blocks (ms_mgr s)) ->
  mgr_null_block (ms_mgr s') = mgr_null_block (ms_mgr s) ->
  (forall b, b ∈ l' -> in_pool (ms_pool s) b) -> (forall b, b ∈ l' -> b <> Blk 0 -> occ b l' = 1) ->
  (forall b, in_pool (ms_pool s) b -> b <> Blk 0 ->
     other' b + Z.of_nat (occ b l') = other b + Z.of_nat (occ b (blocks_of (ms_mgr s) id)) + d b)%Z ->
  (forall b, (0 <= other' b)%Z) -> mgr_inv other' fl' s'.
Proof.
  intros [H1 H2 H3 H4 H5] Hp' (Hconf & Hr & _) Ht Hn Hin Hone Hd Ho. split; [done|congruence| | |done].
  - eapply table_ok_conf; [apply Hconf|]. rewrite Ht. by apply table_ok_insert.
  - intros b Hb H0. rewrite (in_pool_conf _ _ _ Hconf) in Hb. rewrite Hr, H4, Ht by done.
    specialize (Hd b Hb H0). pose proof (occ_refs_insert b (req_to_blocks (ms_mgr s)) id l') as He.
    unfold blocks_of in Hd. lia.
Qed.

(** Nothing but one entry of the tables changes. *)
Lemma wp_on_pool {A} (m : M BlockPool A) Q E s :
  wp m (fun a p => Q a (mkMS p (ms_mgr s))) (fun e p => E e (mkMS p (ms_mgr s))) (ms_pool s) ->
  wp (on_pool m) Q E s.
Proof. intros H. unfold on_pool. apply (wp_zoom ms_pool (fun p s => mkMS p (ms_mgr s))). exact H. Qed.

Lemma blocks_of_in_pool other fl s id b :
  mgr_inv other fl s -> b ∈ blocks_of (ms_mgr s) id -> in_pool (ms_pool s) b.
Proof. intros Hi. by apply (table_ok_default _ _ _ (mi_table _ _ _ Hi)). Qed.

Lemma blocks_of_once other fl s id b :
  mgr_inv other fl s -> b ∈ blocks_of (ms_mgr s) id -> b <> Blk 0 -> occ b (blocks_of (ms_mgr s) id) = 1.
Proof. intros Hi. by apply (table_ok_default _ _ _ (mi_table _ _ _ Hi)). Qed.

(** A block of a request is not free. *)
Lemma blocks_of_not_free other fl s id b :
  mgr_inv other fl s -> b ∈ blocks_of (ms_mgr s) id -> b ∉ fl.
Proof.
  intros Hi Hb (_ & H0 & Hz)%(po_free _ _ (mi_pool _ _ _ Hi)).
  pose proof (blocks_of_in_pool _ _ _ _ _ Hi Hb) as Hin.
  rewrite (mi_refs _ _ _ Hi) in Hz by done. pose proof (mi_other _ _ _ Hi b).
  assert (0 < occ_refs b (req_to_blocks (ms_mgr s))); [|lia]. apply occ_pos, elem_of_refs.
  unfold blocks_of in Hb. destruct (req_to_blocks (ms_mgr s) !! id) as [l|] eqn:E; [eauto|by apply elem_of_nil in Hb].
Qed.

Lemma blocks_of_set id l m m' :
  req_to_blocks m' = <[id := l]> (req_to_blocks m) ->
  blocks_of m' id = l /\ forall id', id' <> id -> blocks_of m' id' = blocks_of m id'.
Proof.
  intros Ht. unfold blocks_of. rewrite Ht, lookup_insert_eq. split; [done|].
  intros id' Hne. by rewrite lookup_insert_ne.
Qed.

(** The number of blocks a request still needs. *)
Definition missing_blocks (m : Manager) (id : string) (num_tokens : nat) : nat :=
  Z.to_nat (required_blocks m num_tokens - Z.of_nat (length (blocks_of m id))).

(** [allocate_new_blocks] with enough free blocks appends the first free ones. *)
Lemma allocate_new_blocks_spec other fl s id n E :
  mgr_inv other fl s -> missing_blocks (ms_mgr s) id n <= length fl ->
  wp (allocate_new_blocks id n) (fun ret s' =>
    ret = take (missing_blocks (ms_mgr s) id n) fl /\
    mgr_inv other (drop (missing_blocks (ms_mgr s) id n) fl) s' /\
    ms_mgr s' = set_req_to_blocks (<[id := blocks_of (ms_mgr s) id ++ ret]> (req_to_blocks (ms_mgr s)))
                  (ms_mgr s) /\
    changes (ms_pool s) (ms_pool s') (occs ret)
      (fun r => if decide (enable_caching (ms_pool s) = true /\ r ∈ ret) then None else hashc (ms_pool s) r)) E s.
Proof.
  intros Hi Hn. unfold allocate_new_blocks. wp_step.
  eapply wp_mono; [by apply req_blocks_spec| |done].
  intros l s1 (-> & Hp1 & Hi1 & Hm1). wp_step. wp_step. set (l := blocks_of (ms_mgr s) id) in *.
  assert (Hreq : required_blocks (ms_mgr s1) n = required_blocks (ms_mgr s) n) by (rewrite Hm1; done).
  rewrite Hreq. unfold missing_blocks in *. fold l in Hn |- *.
  set (k := (required_blocks (ms_mgr s) n - Z.of_nat (length l))%Z) in *.
  destruct (Z.leb_spec k 0) as [Hk|Hk].
  { wp_steps. replace (Z.to_nat k) with 0 by lia. rewrite take_0, drop_0, app_nil_r. split_and!; [done|done|done|].
    rewrite Hp1. eapply changes_ext; [apply changes_refl|done|]. intros r. case_decide as H; [set_solver|done]. }
  wp_step. apply wp_on_pool. rewrite Hp1.
  pose proof (mi_pool _ _ _ Hi) as Hp. rewrite <-(take_drop (Z.to_nat k) fl) in Hp.
  pose proof (get_new_blocks_spec (ms_pool s) _ _ (fun e p => E e (mkMS p (ms_mgr s1))) Hp) as Hw.
  rewrite length_take in Hw. replace (Z.to_nat k `min` length fl) with (Z.to_nat k) in Hw by lia.
  eapply wp_mono; [exact Hw| |done]. clear Hw.
  intros ret p' (-> & Hp' & Hc). wp_step. apply wp_modify. wp_steps. set (ret := take (Z.to_nat k) fl) in *.
  assert (Hret : forall b, b ∈ ret -> b ∈ fl) by (intros b; apply subseteq_take).
  assert (Hnd : NoDup ret).
  { pose proof (fr_nodup _ _ (po_queue _ _ (po_core _ _ Hp))) as (? & _)%NoDup_app. done. }
  assert (Hm2 : set_req_to_blocks (<[id := l ++ ret]> (req_to_blocks (ms_mgr s1))) (ms_mgr s1) =
                set_req_to_blocks (<[id := l ++ ret]> (req_to_blocks (ms_mgr s))) (ms_mgr s)).
  { rewrite Hm1. unfold set_req_to_blocks. cbn. by rewrite insert_insert_eq. }
  split_and!; [done| |exact Hm2|exact Hc].
  eapply (mgr_inv_update other other fl _ s _ id (l ++ ret)); [exact Hi|exact Hp'|exact Hc|..].
  - cbn. rewrite Hm1. cbn. by rewrite insert_insert_eq.
  - cbn. by rewrite Hm1.
  - intros b [Hb|Hb]%elem_of_app; [exact (blocks_of_in_pool _ _ _ _ _ Hi Hb)|].
    apply Hret, (po_free _ _ (mi_pool _ _ _ Hi)) in Hb. apply Hb.
  - intros b Hb H0. rewrite occ_app. apply elem_of_app in Hb as [Hb|Hb].
    + unfold l. rewrite (blocks_of_once _ _ _ _ _ Hi Hb H0), occ_not_in; [done|].
      intros Hr%Hret. exact (blocks_of_not_free _ _ _ _ _ Hi Hb Hr).
    + rewrite (occ_nodup _ _ Hnd Hb), occ_not_in; [done|].
      intros Hl. apply Hret in Hb. exact (blocks_of_not_free _ _ _ _ _ Hi Hl Hb).
  - intros b Hb H0. fold l. rewrite occ_app. unfold occs. lia.
  - apply (mi_other _ _ _ Hi).
Qed.

(** With too few free blocks the allocation raises [ValueError]. *)
Lemma allocate_new_blocks_short other fl s id n :
  mgr_inv other fl s -> length fl < missing_blocks (ms_mgr s) id n ->
  (allocate_new_blocks id n s).1 = Raise ValueError.
Proof.
  intros Hi Hn. unfold allocate_new_blocks.
  destruct (wp_noexc_run _ _ _ (req_blocks_spec other fl s id noexc Hi)) as (l & s1 & Hr & -> & Hp & _ & Hm).
  unfold mbind, M_bind. rewrite Hr. cbn [gets]. unfold gets.
  assert (required_blocks (ms_mgr s1) n = required_blocks (ms_mgr s) n) as -> by (rewrite Hm; done).
  unfold missing_blocks in Hn.
  destruct (Z.leb_spec (required_blocks (ms_mgr s) n - Z.of_nat (length (blocks_of (ms_mgr s) id))) 0); [lia|].
  unfold on_pool, zoom. rewrite Hp, (get_new_blocks_short _ fl) by (done || apply Hi). done.
Qed.

(** [save_new_computed_blocks] of a new request hands the touched blocks over to its table. *)
Lemma save_new_computed_blocks_spec other fl s id new E :
  mgr_inv (fun b => other b + occs new b)%Z fl s -> (forall b, (0 <= other b)%Z) ->
  mgr_kind (ms_mgr s) <> CrossAttentionManager -> num_cached_block (ms_mgr s) !! id = None ->
  blocks_of (ms_mgr s) id = [] ->
  (forall b, b ∈ new -> in_pool (ms_pool s) b) -> (forall b, b ∈ new -> b <> Blk 0 -> occ b new = 1) ->
  wp (save_new_computed_blocks id new) (fun _ s' => mgr_inv other fl s' /\ ms_pool s' = ms_pool s /\
    ms_mgr s' = set_num_cached (<[id := length new]> (num_cached_block (ms_mgr s)))
      (set_req_to_blocks (<[id := new]> (req_to_blocks (ms_mgr s))) (ms_mgr s))) E s.
Proof.
  intros Hi Ho Hk Hnc Hempty Hin Hone. unfold save_new_computed_blocks. wp_step. wp_step. rewrite Hnc.
  assert (Hgoal : wp (req ← req_blocks id;
      assertM (length req =? 0) ;; put_blocks id (req ++ new) ;;
      upd_mgr (fun m => set_num_cached (<[id := length new]> (num_cached_block m)) m))
    (fun _ s' => mgr_inv other fl s' /\ ms_pool s' = ms_pool s /\
      ms_mgr s' = set_num_cached (<[id := length new]> (num_cached_block (ms_mgr s)))
        (set_req_to_blocks (<[id := new]> (req_to_blocks (ms_mgr s))) (ms_mgr s))) E s).
  2:{ destruct (mgr_kind (ms_mgr s)); [exact Hgoal..|done]. }
  wp_step. eapply wp_mono; [by apply req_blocks_spec| |done].
  intros l s1 (-> & Hp1 & Hi1 & Hm1). rewrite Hempty in *. simpl. wp_steps.
  apply wp_modify. wp_steps. apply wp_modify. cbn. split_and!.
  - eapply (mgr_inv_update _ other fl fl s1 _ id new no_ref (hashc (ms_pool s1)) Hi1).
    + apply (mi_pool _ _ _ Hi1).
    + apply changes_refl.
    + done.
    + done.
    + by rewrite Hp1.
    + done.
    + intros b _ _. unfold occs, no_ref. rewrite Hm1. unfold blocks_of. cbn. rewrite lookup_insert_eq. cbn. lia.
    + done.
  - by rewrite Hp1.
  - rewrite Hm1. unfold set_num_cached, set_req_to_blocks. cbn. by rewrite insert_insert_eq.
Qed.

(** [free] returns the request's references, last block first. *)
Lemma free_spec other fl s id E :
  mgr_inv other fl s ->
  wp (free id) (fun _ s' =>
    mgr_inv other (fl ++ filter (fun b => b <> Blk 0 /\ refc (ms_pool s) b = 1%Z)
                           (reverse (blocks_of (ms_mgr s) id))) s' /\
    changes (ms_pool s) (ms_pool s') (minus_occs (blocks_of (ms_mgr s) id)) (hashc (ms_pool s)) /\
    ms_mgr s' = set_num_cached (delete id (num_cached_block (ms_mgr s)))
      (set_req_to_blocks (delete id (req_to_blocks (ms_mgr s))) (ms_mgr s))) E s.
Proof.
  intros Hi. unfold free. wp_step. wp_step. wp_step. apply wp_modify.
  set (l := blocks_of (ms_mgr s) id). change (default [] (req_to_blocks (ms_mgr s) !! id)) with l.
  pose proof (table_ok_default _ _ id (mi_table _ _ _ Hi)) as [Hin Hone].
  change (default [] (req_to_blocks (ms_mgr s) !! id)) with l in Hin, Hone.
  assert (Hocc : forall b, occ_refs b (delete id (req_to_blocks (ms_mgr s))) + occ b l =
                           occ_refs b (req_to_blocks (ms_mgr s))) by (intros b; apply occ_refs_delete).
  wp_step. apply wp_on_pool. cbn. eapply wp_mono; [apply (free_blocks_spec (ms_pool s) fl (reverse l))| |intros ? ? HE; exact HE].
  - apply (mi_pool _ _ _ Hi).
  - intros b Hb. apply Hin. by rewrite elem_of_reverse in Hb.
  - intros b Hb H0. rewrite elem_of_reverse in Hb. rewrite occ_reverse. split; [by apply Hone|].
    rewrite (mi_refs _ _ _ Hi) by auto. pose proof (mi_other _ _ _ Hi b).
    specialize (Hocc b). rewrite (Hone b Hb H0) in Hocc. lia.
  - intros [] p' [Hp' Hc].
    assert (Hc' : changes (ms_pool s) p' (minus_occs l) (hashc (ms_pool s))).
    { eapply changes_ext; [exact Hc| |done]. intros r. unfold minus_occs. by rewrite occ_reverse. }
    destruct Hi as [H1 H2 H3 H4 H5]. split_and!; [|done|done]. split; cbn; [done|done| | |done].
    + eapply table_ok_conf; [apply Hc|]. by apply table_ok_delete.
    + intros b Hb H0. rewrite (in_pool_conf _ _ b (proj1 Hc')) in Hb. destruct Hc' as (_ & Hr & _).
      rewrite Hr, H4, minus_occs_eq by done. unfold occs. specialize (Hocc b). lia.
Qed.

(** ** Dropping skipped blocks *)

Lemma skip_loop_spec null k l removed :
  k <= length l ->
  exists j, j <= k /\
    skip_loop null k l removed =
      (take j l ++ replicate (k - j) null ++ drop k l, removed ++ reverse (take (k - j) (drop j l)), Ok tt) /\
    (forall b, b ∈ take (k - j) (drop j l) -> b <> null) /\
    (j = 0 \/ l !! (j - 1) = Some null).
Proof.
  induction k as [|k IH] in l, removed |- *; intros Hk.
  { exists 0. split_and!; [done| |by intros b ?%elem_of_nil|by left]. simpl. by rewrite drop_0, app_nil_r. }
  destruct (lookup_lt_is_Some_2 l k ltac:(lia)) as [b Hb]. cbn [skip_loop]. rewrite Hb. case_decide as Hn.
  - subst b. exists (S k). rewrite Nat.sub_diag. split_and!.
    + done.
    + simpl. rewrite app_nil_r. by rewrite take_drop.
    + by intros b ?%elem_of_nil.
    + right. simpl. by rewrite Nat.sub_0_r.
  - destruct (IH (<[k := null]> l) (removed ++ [b])) as (j & Hj & Hrun & Hnn & Hstop);
      [rewrite length_insert; lia|].
    assert (Htd : take (S k - j) (drop j l) = take (k - j) (drop j l) ++ [b]).
    { replace (S k - j) with (S (k - j)) by lia. apply take_S_r. rewrite lookup_drop.
      replace (j + (k - j)) with k by lia. done. }
    assert (Htd' : take (k - j) (drop j (<[k := null]> l)) = take (k - j) (drop j l)).
    { rewrite !take_drop_commute. replace (j + (k - j)) with k by lia. by rewrite take_insert_ge by lia. }
    exists j. split_and!; [lia| | |].
    + rewrite Hrun. f_equal. f_equal.
      * rewrite take_insert_ge by lia. f_equal.
        replace (S k - j) with (k - j + 1) by lia. rewrite replicate_add, <-app_assoc. f_equal.
        rewrite (drop_S _ null k) by (apply list_lookup_insert_eq; lia). simpl. f_equal.
        by rewrite drop_insert_lt by lia.
      * rewrite Htd', Htd, reverse_app, <-app_assoc. done.
    + intros b'. rewrite Htd, elem_of_app, list_elem_of_singleton. intros [Hb'| ->]; [|done].
      apply Hnn. by rewrite Htd'.
    + destruct (decide (j = 0)) as [->|Hj0]; [by left|]. destruct Hstop as [->|Hstop]; [done|right].
      rewrite list_lookup_insert_ne in Hstop by lia. done.
Qed.

(** The blocks [remove_skipped_blocks] has to have processed. *)
Definition num_skipped (m : Manager) (id : string) (n : nat) : nat :=
  match mgr_kind m with
  | SlidingWindowManager | ChunkedLocalAttentionManager => Z.to_nat (first_useful_block m id n)
  | _ => 0
  end.

(** Null blocks come first in a table. *)
Definition null_prefix (l : list bref) : Prop :=
  forall i j, l !! j = Some (Blk 0) -> i <= j -> l !! i = Some (Blk 0).

Lemma null_prefix_take l j : null_prefix l -> j = 0 \/ l !! (j - 1) = Some (Blk 0) -> j <= length l ->
  take j l = replicate j (Blk 0).
Proof.
  intros Hl Hj Hlen. apply list_eq. intros i. destruct (decide (i < j)) as [Hi|Hi].
  - rewrite lookup_take_lt, lookup_replicate_2 by done. destruct Hj as [->|Hj]; [lia|].
    apply (Hl i (j - 1)); [done|lia].
  - rewrite !lookup_ge_None_2; [done|rewrite length_replicate; lia|rewrite length_take; lia].
Qed.

Lemma remove_skipped_blocks_spec other fl s id n E :
  mgr_inv other fl s -> null_prefix (blocks_of (ms_mgr s) id) ->
  num_skipped (ms_mgr s) id n <= length (blocks_of (ms_mgr s) id) ->
  let k := num_skipped (ms_mgr s) id n in
  let l := blocks_of (ms_mgr s) id in
  wp (remove_skipped_blocks id n) (fun _ s' =>
    exists rel, mgr_inv other (fl ++ rel) s' /\
      blocks_of (ms_mgr s') id = replicate k (Blk 0) ++ drop k l /\
      (forall id', id' <> id -> blocks_of (ms_mgr s') id' = blocks_of (ms_mgr s) id') /\
      (forall r, hashc (ms_pool s') r = hashc (ms_pool s) r) /\
      same_conf (ms_pool s) (ms_pool s') /\
      num_cached_block (ms_mgr s') = num_cached_block (ms_mgr s) /\
      same_mgr (ms_mgr s) (ms_mgr s')) E s.
Proof.
  intros Hi Hnp Hk k l. unfold remove_skipped_blocks. wp_step. wp_step.
  set (Q := fun (_ : unit) s' => exists rel, mgr_inv other (fl ++ rel) s' /\ _).
  assert (Hnone : k = 0 -> Q tt s).
  { intros ->. exists []. rewrite app_nil_r, drop_0. by split_and!. }
  assert (Hloop : k = Z.to_nat (first_useful_block (ms_mgr s) id n) ->
    wp (req ← req_blocks id;
        let '(req', removed, o) :=
          skip_loop (mgr_null_block (ms_mgr s)) (Z.to_nat (first_useful_block (ms_mgr s) id n)) req [] in
        put_blocks id req' ;; lift_out o ;; on_pool (free_blocks removed)) Q E s).
  2:{ unfold k, num_skipped in *. destruct (mgr_kind (ms_mgr s));
        first [by apply Hloop|by apply wp_ret, Hnone]. }
  intros Hke. rewrite <-Hke. clear Hke Hnone.
  wp_step. eapply wp_mono; [by apply req_blocks_spec| |done].
  intros l0 s1 (-> & Hp1 & Hi1 & Hm1). fold l. fold k in Hk. fold l in Hk, Hnp, Hm1.
  rewrite (mi_null _ _ _ Hi).
  destruct (skip_loop_spec (Blk 0) k l [] Hk) as (j & Hj & -> & Hnn & Hstop).
  assert (Htake : take j l = replicate j (Blk 0)) by (apply null_prefix_take; [done|done|lia]).
  set (mid := take (k - j) (drop j l)) in *.
  assert (Hl : l = replicate j (Blk 0) ++ mid ++ drop k l).
  { rewrite <-Htake. unfold mid. rewrite <-(take_drop j l) at 1. f_equal.
    rewrite <-(take_drop (k - j) (drop j l)) at 1. f_equal. rewrite drop_drop. f_equal. lia. }
  set (l' := take j l ++ replicate (k - j) (Blk 0) ++ drop k l).
  assert (Hl' : l' = replicate k (Blk 0) ++ drop k l).
  { unfold l'. rewrite Htake, app_assoc, <-replicate_add. do 2 f_equal. lia. }
  assert (Hocc : forall b, b <> Blk 0 -> occ b l = occ b mid + occ b l').
  { intros b Hb. rewrite Hl at 1. rewrite Hl', !occ_app.
    assert (forall i, occ b (replicate i (Blk 0)) = 0) as Hz.
    { intros i. apply occ_not_in. intros [? _]%elem_of_replicate. done. }
    rewrite !Hz. lia. }
  assert (Hsub : forall b, b ∈ mid \/ b ∈ drop k l -> b ∈ l).
  { intros b Hb. rewrite Hl, !elem_of_app. tauto. }
  pose proof (fun b => blocks_of_in_pool _ _ _ id b Hi) as Hin.
  pose proof (fun b => blocks_of_once _ _ _ id b Hi) as Hone. fold l in Hin, Hone.
  wp_step. apply wp_modify. wp_step. eapply wp_lift; [done|]. apply wp_on_pool. cbn.
  rewrite Hp1. eapply wp_mono; [apply (free_blocks_spec (ms_pool s) fl (reverse mid))| |intros ? ? HE; exact HE].
  - apply (mi_pool _ _ _ Hi).
  - intros b Hb. rewrite elem_of_reverse in Hb. apply Hin, Hsub. by left.
  - intros b Hb H0. rewrite elem_of_reverse in Hb. rewrite occ_reverse.
    assert (Hbl : b ∈ l) by (apply Hsub; by left). specialize (Hocc b H0). rewrite (Hone b Hbl H0) in Hocc.
    pose proof (occ_pos b mid Hb). split; [lia|].
    rewrite (mi_refs _ _ _ Hi) by auto. pose proof (mi_other _ _ _ Hi b).
    pose proof (occ_refs_delete b (req_to_blocks (ms_mgr s)) id) as Hd.
    change (default [] (req_to_blocks (ms_mgr s) !! id)) with l in Hd. rewrite (Hone b Hbl H0) in Hd. lia.
  - intros [] p' [Hp' Hc]. unfold Q. eexists.
    set (s2 := mkMS p' _).
    assert (Hreq : req_to_blocks (ms_mgr s2) = <[id := l']> (req_to_blocks (ms_mgr s))).
    { unfold s2. cbn. rewrite Hm1. cbn. by rewrite insert_insert_eq. }
    split; [|split_and!].
    + eapply (mgr_inv_update other other fl _ s s2 id l'); [exact Hi|exact Hp'|exact Hc|exact Hreq|..].
      * unfold s2. cbn. by rewrite Hm1.
      * intros b. rewrite Hl', elem_of_app. intros [[-> _]%elem_of_replicate|Hb]; [|apply Hin, Hsub; by right].
        pose proof (po_num _ _ (po_core _ _ (mi_pool _ _ _ Hi))). by exists 0.
      * intros b Hb H0. rewrite Hl', elem_of_app in Hb.
        destruct Hb as [[? _]%elem_of_replicate|Hb]; [done|].
        assert (Hbl : b ∈ l) by (apply Hsub; by right). specialize (Hocc b H0). rewrite (Hone b Hbl H0) in Hocc.
        assert (0 < occ b l'); [|lia]. apply occ_pos. rewrite Hl'. apply elem_of_app. by right.
      * intros b _ H0. fold l. rewrite (Hocc b H0), minus_occs_eq. unfold occs. rewrite occ_reverse. lia.
      * apply (mi_other _ _ _ Hi).
    + destruct (blocks_of_set id l' (ms_mgr s) (ms_mgr s2) Hreq) as [-> _]. exact Hl'.
    + apply (blocks_of_set id l' (ms_mgr s) (ms_mgr s2) Hreq).
    + apply Hc.
    + apply Hc.
    + unfold s2. cbn. by rewrite Hm1.
    + unfold s2. cbn. by rewrite Hm1.
Qed.

(** [cache_blocks] gives the newly full blocks the request's hashes. *)
Lemma cache_blocks_spec other fl s r n nc E :
  mgr_inv other fl s -> mgr_kind (ms_mgr s) <> CrossAttentionManager ->
  num_cached_block (ms_mgr s) !! request_id r = Some nc ->
  let nf := n / mgr_block_size (ms_mgr s) in
  let l := blocks_of (ms_mgr s) (request_id r) in
  nc <= nf -> nf <= length (block_hashes r) -> (0 <= kv_cache_group_id (ms_mgr s) < 2 ^ 32)%Z ->
  (forall b, b ∈ take (nf - nc) (drop nc l) -> b <> Blk 0 /\ hashc (ms_pool s) b = None) ->
  event_ready (ms_pool s) r l nc ->
  wp (cache_blocks r n) (fun _ s' =>
    mgr_inv other fl s' /\
    (forall id, blocks_of (ms_mgr s') id = blocks_of (ms_mgr s) id) /\
    num_cached_block (ms_mgr s') = <[request_id r := nf]> (num_cached_block (ms_mgr s)) /\
    same_conf (ms_pool s) (ms_pool s') /\ same_mgr (ms_mgr s) (ms_mgr s') /\
    (forall b, refc (ms_pool s') b = refc (ms_pool s) b) /\
    hashes_set (kv_cache_group_id (ms_mgr s)) (drop nc (block_hashes r)) (take (nf - nc) (drop nc l)) (ms_pool s') /\
    (forall b, b ∉ take (nf - nc) (drop nc l) -> hashc (ms_pool s') b = hashc (ms_pool s) b)) E s.
Proof.
  intros Hi Hk Hnc nf l Hle Hnf Hg Hnew Hev. unfold cache_blocks. wp_step. wp_step. rewrite Hnc.
  pose proof (fun b => blocks_of_in_pool _ _ _ (request_id r) b Hi) as Hin.
  pose proof (fun b => blocks_of_once _ _ _ (request_id r) b Hi) as Hone. fold l in Hin, Hone.
  assert (Hsl : forall b, b ∈ take (nf - nc) (drop nc l) -> b ∈ l).
  { intros b Hb. eapply subseteq_drop, subseteq_take. exact Hb. }
  assert (Hnd : NoDup (take (nf - nc) (drop nc l))).
  { apply nodup_occ. intros b Hb. rewrite <-(Hone b (Hsl b Hb) (proj1 (Hnew b Hb))).
    apply occ_le_sublist. etransitivity; [apply sublist_take|apply sublist_drop]. }
  assert (Hgoal : wp (req ← req_blocks (request_id r);
      on_pool (cache_full_blocks r req nc nf (mgr_block_size (ms_mgr s)) (kv_cache_group_id (ms_mgr s))) ;;
      upd_mgr (fun m => set_num_cached (<[request_id r := nf]> (num_cached_block m)) m))
    (fun _ s' => mgr_inv other fl s' /\
      (forall id, blocks_of (ms_mgr s') id = blocks_of (ms_mgr s) id) /\
      num_cached_block (ms_mgr s') = <[request_id r := nf]> (num_cached_block (ms_mgr s)) /\
      same_conf (ms_pool s) (ms_pool s') /\ same_mgr (ms_mgr s) (ms_mgr s') /\
      (forall b, refc (ms_pool s') b = refc (ms_pool s) b) /\
      hashes_set (kv_cache_group_id (ms_mgr s)) (drop nc (block_hashes r)) (take (nf - nc) (drop nc l)) (ms_pool s') /\
      (forall b, b ∉ take (nf - nc) (drop nc l) -> hashc (ms_pool s') b = hashc (ms_pool s) b)) E s).
  2:{ destruct (mgr_kind (ms_mgr s)); [exact Hgoal..|done]. }
  wp_step. eapply wp_mono; [by apply req_blocks_spec| |done].
  intros l0 s1 (-> & Hp1 & Hi1 & Hm1). fold l in Hm1 |- *. wp_step. apply wp_on_pool. rewrite Hp1.
  eapply wp_mono; [apply (cache_full_blocks_core (ms_pool s) fl)| |intros ? ? HE; exact HE].
  - apply (po_core _ _ (mi_pool _ _ _ Hi)).
  - done.
  - done.
  - done.
  - exact Hnd.
  - intros b Hb. destruct (Hnew b Hb). auto.
  - exact Hev.
  - intros [] p' (Hp' & Hc & Hset & Hsame). apply wp_modify. cbn.
    assert (Ht : req_to_blocks (ms_mgr s1) = <[request_id r := l]> (req_to_blocks (ms_mgr s))) by by rewrite Hm1.
    split_and!; [| | |apply Hc|by rewrite Hm1| |done|done].
    + eapply (mgr_inv_update other other fl fl s _ (request_id r) l); [exact Hi| |exact Hc|exact Ht|..].
      * eapply pool_ok_changes; [apply (mi_pool _ _ _ Hi)|exact Hp'|exact Hc].
      * cbn. by rewrite Hm1.
      * exact Hin.
      * exact Hone.
      * intros b _ _. fold l. unfold no_ref. lia.
      * apply (mi_other _ _ _ Hi).
    + intros id. destruct (blocks_of_set (request_id r) l (ms_mgr s) (ms_mgr s1) Ht) as [H1 H2].
      change (blocks_of (ms_mgr s1) id = blocks_of (ms_mgr s) id).
      destruct (decide (id = request_id r)) as [->|Hne]; [exact H1|by apply H2].
    + by rewrite Hm1.
    + intros b. destruct Hc as (_ & -> & _). unfold no_ref. lia.
Qed.

Lemma get_num_blocks_to_allocate_spec other fl s id n new E :
  mgr_inv other fl s ->
  wp (get_num_blocks_to_allocate id n new) (fun k s' =>
    k = (required_blocks (ms_mgr s) n - Z.of_nat (length new) - Z.of_nat (length (blocks_of (ms_mgr s) id))
         + Z.of_nat (num_evictable (ms_pool s) new))%Z /\
    ms_pool s' = ms_pool s /\ mgr_inv other fl s' /\
    ms_mgr s' = set_req_to_blocks (<[id := blocks_of (ms_mgr s) id]> (req_to_blocks (ms_mgr s))) (ms_mgr s)) E s.
Proof.
  intros Hi. unfold get_num_blocks_to_allocate. wp_step. eapply wp_mono; [by apply req_blocks_spec| |done].
  intros l0 s1 (-> & Hp1 & Hi1 & Hm1). wp_steps. split_and!; [|done..]. by rewrite Hp1, Hm1.
Qed.

(** The blocks counted as evictable are the free ones among [new]. *)
Lemma num_evictable_free p fl new :
  pool_ok p fl -> (forall b, b ∈ new -> in_pool p b) ->
  num_evictable p new = length (filter (fun b => b ∈ fl) new).
Proof.
  intros Hp Hin. unfold num_evictable. f_equal. apply filter_ext_in. intros b Hb.
  destruct (Hin b Hb) as (i & -> & Hi). rewrite (po_isnull _ _ (po_core _ _ Hp)), (po_free _ _ Hp) by done.
  unfold refc. rewrite bool_decide_eq_false. split.
  - intros [? Hi0]. split_and!; [by exists i|congruence|done].
  - intros (_ & Hi0 & ?). split; [done|congruence].
Qed.

Lemma count_common_spec p n l :
  count_common p n l <= length l /\
  (forall i, i < count_common p n l -> exists b, l !! i = Some b /\ refc p b = n) /\
  (count_common p n l < length l -> exists b, l !! count_common p n l = Some b /\ refc p b <> n).
Proof.
  induction l as [|b l (IH1 & IH2 & IH3)]; simpl; [split_and!; [lia|lia|lia]|].
  case_decide as H; split_and!; simpl; try lia.
  - intros [|i] Hi; [by exists b|]. apply IH2. lia.
  - intros ?. apply IH3. lia.
  - intros _. by exists b.
Qed.

(** * Properties of the tables *)

(** Allocation gives a request the slots it asked for: after [allocate_new_blocks] its table
    extends the old one and has at least [ceil(num_tokens / block_size)] blocks, the new blocks are
    distinct, carry one reference each and were free; with too few free blocks it raises
    [ValueError]. *)
Theorem allocate_new_blocks_gives_slots other fl s id n :
  mgr_inv other fl s -> 0 < mgr_block_size (ms_mgr s) ->
  match allocate_new_blocks id n s with
  | (Ok new, s') =>
      blocks_of (ms_mgr s') id = blocks_of (ms_mgr s) id ++ new /\
      n <= length (blocks_of (ms_mgr s') id) * mgr_block_size (ms_mgr s) /\
      NoDup new /\ (forall b, b ∈ new -> b ∈ fl /\ refc (ms_pool s') b = 1%Z) /\
      (exists fl', fl = new ++ fl' /\ mgr_inv other fl' s')
  | (Raise e, _) => e = ValueError /\ length fl < missing_blocks (ms_mgr s) id n
  end.
Proof.
  intros Hi Hbs. set (k := missing_blocks (ms_mgr s) id n).
  destruct (decide (length fl < k)) as [Hlt|Hge].
  { pose proof (allocate_new_blocks_short other fl s id n Hi Hlt) as Hs.
    destruct (allocate_new_blocks id n s) as [o s']. simpl in Hs. subst o. done. }
  destruct (wp_noexc_run _ _ _ (allocate_new_blocks_spec other fl s id n noexc Hi ltac:(fold k; lia)))
    as (new & s' & -> & Hnew & Hi' & Hm & Hc). fold k in Hnew, Hi'.
  destruct (blocks_of_set id (blocks_of (ms_mgr s) id ++ new) (ms_mgr s) (ms_mgr s') ltac:(by rewrite Hm)) as [Hb _].
  assert (Hnd : NoDup new).
  { subst new. pose proof (fr_nodup _ _ (po_queue _ _ (po_core _ _ (mi_pool _ _ _ Hi)))) as Hn.
    eapply sublist_NoDup; [exact Hn|apply sublist_take]. }
  split_and!.
  - exact Hb.
  - rewrite Hb, length_app, Hnew, length_take. unfold k, missing_blocks in *.
    set (q := required_blocks (ms_mgr s) n) in *. set (l := length (blocks_of (ms_mgr s) id)) in *.
    assert (Hq : (Z.of_nat n <= q * Z.of_nat (mgr_block_size (ms_mgr s)))%Z).
    { unfold q, required_blocks. pose proof (cdiv_spec (Z.of_nat (tokens_needed (ms_mgr s) n))
        (Z.of_nat (mgr_block_size (ms_mgr s))) ltac:(lia)).
      assert (n <= tokens_needed (ms_mgr s) n) by (unfold tokens_needed; repeat case_match; lia). lia. }
    nia.
  - exact Hnd.
  - intros b Hb'. assert (b ∈ fl) as Hbf by (subst new; by eapply subseteq_take).
    split; [done|]. destruct Hc as (_ & -> & _). unfold occs. rewrite (occ_nodup _ _ Hnd Hb').
    apply (po_free _ _ (mi_pool _ _ _ Hi)) in Hbf as (_ & _ & ->). done.
  - exists (drop k fl). split; [by rewrite Hnew, take_drop|exact Hi'].
Qed.

(** ** A state for examples: another manager holds blocks 1 and 2 of a pool of four *)

Definition demo_mgr (k : mgr_class) (s : KVCacheSpec) : Manager := mkMgr k 16 s ∅ ∅ 0 (Blk 0).
Definition demo_state (k : mgr_class) (s : KVCacheSpec) : mstate := mkMS cached_pool (demo_mgr k s).

Lemma demo_state_inv k s : mgr_inv (occs [Blk 1; Blk 2]) [Blk 3] (demo_state k s).
Proof.
  split.
  - apply cached_pool_ok.
  - reflexivity.
  - intros id l Hl. change ((∅ : gmap string (list bref)) !! id = Some l) in Hl. by rewrite lookup_empty in Hl.
  - intros b Hb H0. change (ms_pool (demo_state k s)) with cached_pool in *.
    rewrite (cached_pool_refs b Hb H0). unfold occ_refs, refs_of.
    change (req_to_blocks (ms_mgr (demo_state k s))) with (∅ : gmap string (list bref)).
    rewrite map_to_list_empty. simpl. lia.
  - intros b. unfold occs. lia.
Qed.

Lemma allocate_new_blocks_gives_slots_witness :
  match allocate_new_blocks "a" 16 (demo_state FullAttentionManager (FullAttentionSpec toy_attn None None)) with
  | (Ok new, s') => 16 <= length (blocks_of (ms_mgr s') "a") * 16
  | (Raise e, _) => e = ValueError
  end.
Proof.
  pose proof (allocate_new_blocks_gives_slots (occs [Blk 1; Blk 2]) [Blk 3]
    (demo_state FullAttentionManager (FullAttentionSpec toy_attn None None)) "a" 16
    (demo_state_inv _ _) ltac:(simpl; lia)) as H.
  destruct (allocate_new_blocks "a" 16 _) as [[new|e] s'].
  - destruct H as (_ & H & _). exact H.
  - apply H.
Defined.

(** Sliding-window reclamation is safe: when the blocks before the window are dropped, the table
    entry of every token the next query attends to is unchanged, the entries before the window are
    null blocks, no cached hash is lost, and the released blocks join the free queue at its end. *)
Theorem remove_skipped_keeps_window other fl s id n a window :
  mgr_inv other fl s -> 0 < mgr_block_size (ms_mgr s) ->
  mgr_kind (ms_mgr s) = SlidingWindowManager -> kv_cache_spec (ms_mgr s) = SlidingWindowSpec a window ->
  (0 < window)%Z -> null_prefix (blocks_of (ms_mgr s) id) ->
  n <= length (blocks_of (ms_mgr s) id) * mgr_block_size (ms_mgr s) ->
  exists s' rel, remove_skipped_blocks id n s = (Ok tt, s') /\ mgr_inv other (fl ++ rel) s' /\
    (forall t, (Z.of_nat n - window < Z.of_nat t)%Z ->
       blocks_of (ms_mgr s') id !! (t / mgr_block_size (ms_mgr s)) =
       blocks_of (ms_mgr s) id !! (t / mgr_block_size (ms_mgr s))) /\
    (forall i, (Z.of_nat ((i + 1) * mgr_block_size (ms_mgr s)) <= Z.of_nat n - window + 1)%Z ->
       blocks_of (ms_mgr s') id !! i = Some (Blk 0)) /\
    null_prefix (blocks_of (ms_mgr s') id) /\
    (forall b, hashc (ms_pool s') b = hashc (ms_pool s) b).
Proof.
  intros Hi Hbs Hk Hs Hw Hnp Hn. set (bs := mgr_block_size (ms_mgr s)) in *.
  set (l := blocks_of (ms_mgr s) id) in *. set (k := num_skipped (ms_mgr s) id n).
  assert (Hkz : k = Z.to_nat ((Z.of_nat n - window + 1) / Z.of_nat bs)).
  { unfold k, num_skipped, first_useful_block. by rewrite Hk, Hs. }
  pose proof (Z.div_mod (Z.of_nat n - window + 1) (Z.of_nat bs) ltac:(lia)) as Hdiv.
  pose proof (Z.mod_pos_bound (Z.of_nat n - window + 1) (Z.of_nat bs) ltac:(lia)) as Hmod.
  set (q := ((Z.of_nat n - window + 1) / Z.of_nat bs)%Z) in *.
  assert (Hkl : k <= length l) by (rewrite Hkz; nia).
  destruct (wp_noexc_run _ _ _ (remove_skipped_blocks_spec other fl s id n noexc Hi Hnp Hkl))
    as ([] & s' & Hrun & rel & Hi' & Hb & _ & Hh & _). fold k l in Hb.
  exists s', rel. split_and!; [exact Hrun|exact Hi'| | | |exact Hh].
  - intros t Ht. rewrite Hb. set (j := t / bs).
    assert (Hj : t < (j + 1) * bs).
    { unfold j. pose proof (Nat.div_mod_eq t bs). pose proof (Nat.mod_upper_bound t bs ltac:(lia)). nia. }
    rewrite lookup_app_r, length_replicate, lookup_drop by (rewrite length_replicate; nia).
    f_equal. nia.
  - intros i Hi2. rewrite Hb. rewrite lookup_app_l by (rewrite length_replicate; nia).
    apply lookup_replicate_2. nia.
  - rewrite Hb. intros i j Hj Hij. destruct (decide (i < k)) as [Hik|Hik].
    + rewrite lookup_app_l by (by rewrite length_replicate). by apply lookup_replicate_2.
    + rewrite lookup_app_r, length_replicate, lookup_drop in Hj |- * by (rewrite length_replicate; lia).
      eapply Hnp; [exact Hj|lia].
Qed.

Definition demo_window : mstate :=
  mkMS cached_pool (mkMgr SlidingWindowManager 16 (SlidingWindowSpec toy_attn 17)
                      {["a" := [Blk 1; Blk 2]]} ∅ 0 (Blk 0)).

Lemma demo_window_inv : mgr_inv (fun _ => 0%Z) [Blk 3] demo_window.
Proof.
  split.
  - apply cached_pool_ok.
  - reflexivity.
  - change (table_ok cached_pool ({["a" := [Blk 1; Blk 2]]} : gmap string (list bref))).
    intros id l [<- <-]%lookup_singleton_Some.
    split; intros b; rewrite elem_of_cons, list_elem_of_singleton; [|by intros [->| ->]].
    intros [->| ->]; eexists; rewrite cached_pool_num; split; (reflexivity || lia).
  - intros b Hb H0. change (ms_pool demo_window) with cached_pool in *.
    rewrite (cached_pool_refs b Hb H0). unfold occ_refs, refs_of, occs.
    change (req_to_blocks (ms_mgr demo_window)) with ({["a" := [Blk 1; Blk 2]]} : gmap string (list bref)).
    rewrite map_to_list_singleton. reflexivity.
  - done.
Qed.

Lemma remove_skipped_keeps_window_witness :
  exists s' rel, remove_skipped_blocks "a" 32 demo_window = (Ok tt, s') /\
    mgr_inv (fun _ => 0%Z) ([Blk 3] ++ rel) s' /\ blocks_of (ms_mgr s') "a" !! 1 = Some (Blk 2).
Proof.
  assert (Hb : blocks_of (ms_mgr demo_window) "a" = [Blk 1; Blk 2]) by reflexivity.
  destruct (remove_skipped_keeps_window (fun _ => 0%Z) [Blk 3] demo_window "a" 32 toy_attn 17 demo_window_inv
    ltac:(simpl; lia) eq_refl eq_refl ltac:(lia)) as (s' & rel & H1 & H2 & H3 & _).
  - rewrite Hb. intros [|[|i]] [|[|j]]; cbn; intros; simplify_eq; done.
  - rewrite Hb. simpl. lia.
  - exists s', rel. split; [exact H1|]. split; [exact H2|]. specialize (H3 31 ltac:(lia)).
    rewrite Hb in H3. exact H3.
Defined.

(** ** Handing over computed blocks, all cases *)

Definition save_ready (m : Manager) (id : string) (new : list bref) : Prop :=
  match mgr_kind m with
  | CrossAttentionManager => new = []
  | _ => match num_cached_block m !! id with None => blocks_of m id = [] | Some _ => new = [] end
  end.

(** The count of cached blocks afterwards. *)
Definition saved_num (m : Manager) (id : string) (new : list bref) : gmap string nat :=
  match mgr_kind m, num_cached_block m !! id with
  | CrossAttentionManager, _ | _, Some _ => num_cached_block m
  | _, None => <[id := length new]> (num_cached_block m)
  end.

Lemma save_any_spec other fl s id new E :
  mgr_inv (fun b => other b + occs new b)%Z fl s -> (forall b, (0 <= other b)%Z) ->
  save_ready (ms_mgr s) id new ->
  (forall b, b ∈ new -> in_pool (ms_pool s) b) -> (forall b, b ∈ new -> b <> Blk 0 -> occ b new = 1) ->
  wp (save_new_computed_blocks id new) (fun _ s' => mgr_inv other fl s' /\ ms_pool s' = ms_pool s /\
    blocks_of (ms_mgr s') id = blocks_of (ms_mgr s) id ++ new /\
    (forall id', id' <> id -> blocks_of (ms_mgr s') id' = blocks_of (ms_mgr s) id') /\
    num_cached_block (ms_mgr s') = saved_num (ms_mgr s) id new /\ same_mgr (ms_mgr s) (ms_mgr s')) E s.
Proof.
  intros Hi Ho Hr Hin Hone.
  assert (Hsame : new = [] -> saved_num (ms_mgr s) id new = num_cached_block (ms_mgr s) ->
    mgr_inv other fl s /\ ms_pool s = ms_pool s /\ blocks_of (ms_mgr s) id = blocks_of (ms_mgr s) id ++ new /\
    (forall id', id' <> id -> blocks_of (ms_mgr s) id' = blocks_of (ms_mgr s) id') /\
    num_cached_block (ms_mgr s) = saved_num (ms_mgr s) id new /\ same_mgr (ms_mgr s) (ms_mgr s)).
  { intros -> Hsv. split_and!; [|done|by rewrite app_nil_r|done|done|done].
    destruct Hi as [H1 H2 H3 H4 H5]. split; try done. intros b Hb H0. rewrite H4 by done. rewrite occs_nil. lia. }
  destruct (decide (mgr_kind (ms_mgr s) = CrossAttentionManager)) as [Hk|Hk].
  { unfold save_ready, saved_num in *. rewrite Hk in *. unfold save_new_computed_blocks.
    wp_step. wp_step. rewrite Hk. subst new. by apply wp_assertM, Hsame. }
  assert (Hr' : match num_cached_block (ms_mgr s) !! id with None => blocks_of (ms_mgr s) id = [] | Some _ => new = [] end)
    by (unfold save_ready in Hr; destruct (mgr_kind (ms_mgr s)); done).
  assert (Hsv : saved_num (ms_mgr s) id new = match num_cached_block (ms_mgr s) !! id with
    Some _ => num_cached_block (ms_mgr s) | None => <[id := length new]> (num_cached_block (ms_mgr s)) end)
    by (unfold saved_num; destruct (mgr_kind (ms_mgr s)); done).
  destruct (num_cached_block (ms_mgr s) !! id) as [nc|] eqn:Hnc.
  - unfold save_new_computed_blocks. wp_step. wp_step. rewrite Hnc. subst new.
    destruct (mgr_kind (ms_mgr s)); try done; by apply wp_assertM, Hsame.
  - eapply wp_mono; [by eapply save_new_computed_blocks_spec| |done].
    intros [] s' (Hi' & Hp' & Hm').
    destruct (blocks_of_set id new (ms_mgr s) (ms_mgr s') ltac:(by rewrite Hm')) as [Hb Hbo].
    split_and!; [done|done|by rewrite Hb, Hr'|done|by rewrite Hsv, Hm'|by rewrite Hm'].
Qed.

Lemma required_same_mgr m m' n : same_mgr m m' -> required_blocks m' n = required_blocks m n.
Proof. unfold required_blocks, tokens_needed. by intros (-> & -> & -> & _). Qed.
