(* ===== verification/Coordinator.v ===== *)
(** The coordinator of the KV cache groups: [vllm/v1/core/kv_cache_coordinator.py].

    It owns the block pool and one manager per group, runs each operation over the managers in
    order, and searches the prefix cache across groups.  The three classes (no prefix cache, one
    group, hybrid) share the operations and differ in the search. *)
From stdpp Require Import base gmap list strings.
From Stdlib Require Import ZArith Lia.
From S2P Require Import Prelude BlockQueue Request HashKeys BlockPool CacheSpec SingleType.
Open Scope nat_scope.

(** * State *)

(** What [verify_and_split_kv_cache_groups] stores. *)
Record HybridSplit := mkSplit {
  full_attention_group_ids : list nat;
  other_group_ids : list nat;
  other_attention_cls : mgr_class;
  full_attention_spec : KVCacheSpec;
  other_spec : KVCacheSpec;
  full_attn_first : bool
}.

Inductive coord_class :=
| NoPrefixCache
| Unitary (s : KVCacheSpec) (block_size dcp_world_size : nat)
| Hybrid (split : HybridSplit).

Record Coordinator := mkCoord {
  co_pool : BlockPool;
  single_type_managers : list Manager;
  co_class : coord_class;
  co_use_eagle : bool
}.

Definition set_managers (ms : list Manager) (c : Coordinator) : Coordinator :=
  mkCoord (co_pool c) ms (co_class c) (co_use_eagle c).
Definition set_pool (p : BlockPool) (c : Coordinator) : Coordinator :=
  mkCoord p (single_type_managers c) (co_class c) (co_use_eagle c).

(** * Construction *)

(** The tuple of managers, one per group, in order. *)
Fixpoint make_managers (p : BlockPool) (dcp i : nat) (groups : list KVCacheGroupSpec)
  : outcome (list Manager) :=
  match groups with
  | [] => Ok []
  | g :: gs =>
      m ← manager_init (group_spec g) p (Z.of_nat i) dcp;
      ms ← make_managers p dcp (S i) gs;
      Ok (m :: ms)
  end.

Definition coordinator_init (cfg : KVCacheConfig) (use_eagle caching events use_int : bool) (dcp : nat)
    (cls : coord_class) : outcome Coordinator :=
  p ← pool_init (Z.to_nat (num_blocks cfg)) caching events use_int;
  ms ← make_managers p dcp 0 (kv_cache_groups cfg);
  Ok (mkCoord p ms cls use_eagle).

Definition is_full (s : KVCacheSpec) : bool := bool_decide (is_Some (full_fields s)).

(** The loop of [verify_and_split_kv_cache_groups]. *)
Fixpoint split_loop (i : nat) (groups : list KVCacheGroupSpec) (full other : option KVCacheSpec)
    (full_ids other_ids : list nat)
  : outcome (option KVCacheSpec * option KVCacheSpec * list nat * list nat) :=
  match groups with
  | [] => Ok (full, other, full_ids, other_ids)
  | g :: gs =>
      let s := group_spec g in
      if is_full s then
        full' ← (match full with
                 | None => Ok s
                 | Some f => _ ← assert_ (bool_decide (f = s)); Ok f
                 end);
        split_loop (S i) gs (Some full') other (full_ids ++ [i]) other_ids
      else
        other' ← (match other with
                  | None => Ok s
                  | Some o => _ ← assert_ (bool_decide (o = s)); Ok o
                  end);
        split_loop (S i) gs full (Some other') full_ids (other_ids ++ [i])
  end.

Definition list_max (l : list nat) : nat := foldr Nat.max 0 l.
Definition list_min (l : list nat) : nat :=
  match l with [] => 0 | x :: l' => foldr Nat.min x l' end.

Definition verify_and_split_kv_cache_groups (cfg : KVCacheConfig) (ms : list Manager) (caching : bool)
  : outcome HybridSplit :=
  '(full, other, full_ids, other_ids) ← split_loop 0 (kv_cache_groups cfg) None None [] [];
  match full, other with
  | Some full, Some other =>
      match ms !! default 0 (head other_ids) with
      | None => Raise IndexError
      | Some m =>
          _ ← (if caching then assert_ (block_size other mod block_size full =? 0) else Ok tt);
          if list_max full_ids <? list_min other_ids
          then Ok (mkSplit full_ids other_ids (mgr_kind m) full other true)
          else if list_max other_ids <? list_min full_ids
          then Ok (mkSplit full_ids other_ids (mgr_kind m) full other false)
          else Raise ValueError
      end
  | _, _ => Raise AssertionError
  end.

(** [get_kv_cache_coordinator], the constructors of the subclasses included. *)
Definition get_kv_cache_coordinator (cfg : KVCacheConfig) (use_eagle caching events use_int : bool)
    (dcp : nat) : outcome Coordinator :=
  if negb caching then coordinator_init cfg use_eagle false events use_int dcp NoPrefixCache
  else
    match kv_cache_groups cfg with
    | [g] =>
        let s := group_spec g in
        let bs := if 1 <? dcp then block_size s * dcp else block_size s in
        coordinator_init cfg use_eagle caching events use_int dcp (Unitary s bs dcp)
    | _ =>
        c ← coordinator_init cfg use_eagle caching events use_int dcp NoPrefixCache;
        _ ← assert_ (dcp =? 1);
        split ← verify_and_split_kv_cache_groups cfg (single_type_managers c) caching;
        Ok (mkCoord (co_pool c) (single_type_managers c) (Hybrid split) use_eagle)
    end.

(** * Operations over the managers *)

(** Running a method of the [i]-th manager. *)
Definition on_manager {A} (i : nat) (m : M mstate A) : M Coordinator A := fun c =>
  match single_type_managers c !! i with
  | None => (Raise IndexError, c)
  | Some mg =>
      let '(o, s) := m (mkMS (co_pool c) mg) in
      (o, set_managers (<[i := ms_mgr s]> (single_type_managers c)) (set_pool (ms_pool s) c))
  end.

Definition is_cross (m : Manager) : bool :=
  match mgr_kind m with CrossAttentionManager => true | _ => false end.

(** [new_computed_blocks[i]]. *)
Definition nth_group {S} (l : list (list bref)) (i : nat) : M S (list bref) :=
  match l !! i with Some bs => mret bs | None => raise IndexError end.

Definition num_managers : M Coordinator nat := gets (fun c => length (single_type_managers c)).

(** The tokens the [i]-th manager is asked for. *)
Definition manager_tokens (i num_tokens num_encoder_tokens : nat) : M Coordinator nat :=
  c ← get;
  mret (match single_type_managers c !! i with
        | Some m => if is_cross m then num_encoder_tokens else num_tokens
        | None => num_tokens
        end).

Definition co_get_num_blocks_to_allocate (id : string) (num_tokens : nat)
    (new_computed_blocks : list (list bref)) (num_encoder_tokens : nat) : M Coordinator Z :=
  n ← num_managers;
  foldM (seq 0 n) 0%Z (fun acc i =>
    c ← get;
    k ← (if match single_type_managers c !! i with Some m => is_cross m | None => false end
         then on_manager i (get_num_blocks_to_allocate id num_encoder_tokens [])
         else new ← nth_group new_computed_blocks i;
              on_manager i (get_num_blocks_to_allocate id num_tokens new));
    mret (acc + k)%Z).

Definition co_save_new_computed_blocks (id : string) (new_computed_blocks : list (list bref))
  : M Coordinator unit :=
  n ← num_managers;
  forM (seq 0 n) (fun i =>
    new ← nth_group new_computed_blocks i;
    on_manager i (save_new_computed_blocks id new)).

Definition co_allocate_new_blocks (id : string) (num_tokens num_encoder_tokens : nat)
  : M Coordinator (list (list bref)) :=
  n ← num_managers;
  foldM (seq 0 n) [] (fun acc i =>
    t ← manager_tokens i num_tokens num_encoder_tokens;
    new ← on_manager i (allocate_new_blocks id t);
    mret (acc ++ [new])).

Definition co_cache_blocks (r : Request) (num_computed_tokens : nat) : M Coordinator unit :=
  n ← num_managers;
  forM (seq 0 n) (fun i => on_manager i (cache_blocks r num_computed_tokens)).

Definition co_free (id : string) : M Coordinator unit :=
  n ← num_managers;
  forM (seq 0 n) (fun i => on_manager i (free id)).

Definition co_get_num_common_prefix_blocks (id : string) (num_running_requests : Z)
  : M Coordinator (list nat) :=
  c ← get;
  match co_class c with
  | NoPrefixCache => mret (replicate (length (single_type_managers c)) 0)
  | _ =>
      foldM (seq 0 (length (single_type_managers c))) [] (fun acc i =>
        k ← on_manager i (get_num_common_prefix_blocks id num_running_requests);
        mret (acc ++ [k]))
  end.

Definition co_remove_skipped_blocks (id : string) (num_computed_tokens : nat) : M Coordinator unit :=
  n ← num_managers;
  forM (seq 0 n) (fun i => on_manager i (remove_skipped_blocks id num_computed_tokens)).

Definition co_get_blocks (c : Coordinator) (id : string) : list (list bref) :=
  (fun m => blocks_of m id) <$> single_type_managers c.

(** * Searching the prefix cache *)

Definition hybrid_find_longest_cache_hit (p : BlockPool) (e : bool) (sp : HybridSplit)
    (block_hashes : list bytes) (max_cache_hit_length : nat) : outcome (list (list bref) * nat) :=
  full ← find_longest_cache_hit FullAttentionManager p block_hashes max_cache_hit_length
           (Z.of_nat <$> full_attention_group_ids sp) (full_attention_spec sp) e 1;
  match full with
  | [] => Raise IndexError
  | f0 :: _ =>
      let hit_length := length f0 * block_size (full_attention_spec sp) in
      other ← find_longest_cache_hit (other_attention_cls sp) p block_hashes hit_length
                (Z.of_nat <$> other_group_ids sp) (other_spec sp) e 1;
      match other with
      | [] => Raise IndexError
      | o0 :: _ =>
          let hit_length := length o0 * block_size (other_spec sp) in
          _ ← assert_ (hit_length mod block_size (full_attention_spec sp) =? 0);
          let full := take (hit_length / block_size (full_attention_spec sp)) <$> full in
          Ok (if full_attn_first sp then full ++ other else other ++ full, hit_length)
      end
  end.

Definition co_find_longest_cache_hit (c : Coordinator) (block_hashes : list bytes)
    (max_cache_hit_length : nat) : outcome (list (list bref) * nat) :=
  match co_class c with
  | NoPrefixCache => Ok (replicate (length (single_type_managers c)) [], 0)
  | Unitary s bs dcp =>
      match single_type_managers c with
      | [] => Raise IndexError
      | m :: _ =>
          hit ← find_longest_cache_hit (mgr_kind m) (co_pool c) block_hashes max_cache_hit_length [0%Z] s
                  (co_use_eagle c) dcp;
          match hit with
          | [] => Raise IndexError
          | h0 :: _ => Ok (hit, length h0 * bs)
          end
      end
  | Hybrid sp =>
      hybrid_find_longest_cache_hit (co_pool c) (co_use_eagle c) sp block_hashes max_cache_hit_length
  end.

(** * The invariant over all groups *)

(** References held by all the tables. *)
Definition total_refs (b : bref) (ms : list Manager) : nat :=
  sum_list_with (fun m => occ_refs b (req_to_blocks m)) ms.

(** [extra b]: references to [b] outside of the tables (blocks being handed over). *)
Record coord_inv (extra : bref -> Z) (fl : list bref) (c : Coordinator) : Prop := {
  ci_pool : pool_ok (co_pool c) fl;
  ci_null : Forall (fun m => mgr_null_block m = Blk 0) (single_type_managers c);
  ci_tables : Forall (fun m => table_ok (co_pool c) (req_to_blocks m)) (single_type_managers c);
  ci_refs : forall b, in_pool (co_pool c) b -> b <> Blk 0 ->
    refc (co_pool c) b = (extra b + Z.of_nat (total_refs b (single_type_managers c)))%Z;
  ci_extra : forall b, (0 <= extra b)%Z
}.

Lemma sum_list_with_insert {A} (f : A -> nat) l i x y :
  l !! i = Some x -> sum_list_with f (<[i := y]> l) + f x = sum_list_with f l + f y.
Proof.
  induction l as [|z l IH] in i |- *; intros Hi; [done|].
  destruct i as [|i]; simpl in *; [simplify_eq; lia|]. specialize (IH i Hi). lia.
Qed.

Lemma sum_list_with_elem {A} (f : A -> nat) l i x : l !! i = Some x -> f x <= sum_list_with f l.
Proof.
  induction l as [|z l IH] in i |- *; intros Hi; [done|].
  destruct i as [|i]; simpl in *; [simplify_eq; lia|]. specialize (IH i Hi). lia.
Qed.

(** The references the other managers and [extra] hold. *)
Definition others (extra : bref -> Z) (c : Coordinator) (m : Manager) (b : bref) : Z :=
  (extra b + Z.of_nat (total_refs b (single_type_managers c))
   - Z.of_nat (occ_refs b (req_to_blocks m)))%Z.

Lemma coord_mgr_inv extra fl c i m :
  coord_inv extra fl c -> single_type_managers c !! i = Some m ->
  mgr_inv (others extra c m) fl (mkMS (co_pool c) m).
Proof.
  intros [H1 H2 H3 H4 H5] Hi. rewrite Forall_lookup in H2, H3. split; cbn.
  - done.
  - by eapply H2.
  - by eapply H3.
  - intros b Hb H0. unfold others. rewrite H4 by done. lia.
  - intros b. unfold others, total_refs.
    pose proof (sum_list_with_elem (fun m => occ_refs b (req_to_blocks m)) _ _ _ Hi). specialize (H5 b). cbn in *. lia.
Qed.

Lemma mgr_coord_inv extra extra' fl fl' c i m s' :
  coord_inv extra fl c -> single_type_managers c !! i = Some m ->
  mgr_inv (fun b => others extra c m b + (extra' b - extra b))%Z fl' s' ->
  num_gpu_blocks (ms_pool s') = num_gpu_blocks (co_pool c) -> (forall b, (0 <= extra' b)%Z) ->
  coord_inv extra' fl' (set_managers (<[i := ms_mgr s']> (single_type_managers c)) (set_pool (ms_pool s') c)).
Proof.
  intros [H1 H2 H3 H4 H5] Hi [G1 G2 G3 G4 G5] Hn He. split; cbn.
  - done.
  - by apply Forall_insert.
  - apply Forall_insert; [|done]. eapply Forall_impl; [exact H3|]. intros m' Hm'. by eapply table_ok_conf.
  - intros b Hb H0. rewrite G4 by done. unfold others, total_refs.
    pose proof (sum_list_with_insert (fun m => occ_refs b (req_to_blocks m)) _ _ _ (ms_mgr s') Hi). cbn in *. lia.
  - done.
Qed.

(** Running a manager's method keeps the invariant when the method keeps the manager's. *)
Lemma on_manager_spec {A} (mth : M mstate A) extra extra' fl fl' c i m (R : A -> mstate -> Prop) E :
  coord_inv extra fl c -> single_type_managers c !! i = Some m -> (forall b, (0 <= extra' b)%Z) ->
  wp mth (fun a s' => mgr_inv (fun b => others extra c m b + (extra' b - extra b))%Z fl' s' /\
      num_gpu_blocks (ms_pool s') = num_gpu_blocks (co_pool c) /\ R a s')
    (fun e s' => E e (set_managers (<[i := ms_mgr s']> (single_type_managers c)) (set_pool (ms_pool s') c)))
    (mkMS (co_pool c) m) ->
  wp (on_manager i mth) (fun a c' => coord_inv extra' fl' c' /\
    exists s', R a s' /\ c' = set_managers (<[i := ms_mgr s']> (single_type_managers c)) (set_pool (ms_pool s') c))
    E c.
Proof.
  intros Hc Hi He Hw. unfold wp, on_manager. rewrite Hi. unfold wp in Hw.
  destruct (mth (mkMS (co_pool c) m)) as [[a|e] s']; [|done].
  destruct Hw as (Hm & Hn & HR). split; [by eapply mgr_coord_inv|eauto].
Qed.

Lemma mgr_inv_ext other other' fl s :
  mgr_inv other fl s -> (forall b, other' b = other b) -> mgr_inv other' fl s.
Proof. intros [H1 H2 H3 H4 H5] He. split; try done; intros; rewrite He; auto. Qed.

(** The block table of group [i] for a request. *)
Definition group_blocks (c : Coordinator) (i : nat) (id : string) : list bref :=
  match single_type_managers c !! i with Some m => blocks_of m id | None => [] end.

(** What the operations leave alone. *)
Definition same_shape (c c' : Coordinator) : Prop :=
  same_conf (co_pool c) (co_pool c') /\ co_class c' = co_class c /\ co_use_eagle c' = co_use_eagle c /\
  Forall2 same_mgr (single_type_managers c) (single_type_managers c').

#[global] Instance same_shape_preorder : PreOrder same_shape.
Proof.
  split.
  - intros c. split; [done|]. by split_and!.
  - intros c1 c2 c3 (A1 & A2 & A3 & A4) (B1 & B2 & B3 & B4).
    split; [by etransitivity|]. split_and!; [congruence..|].
    by etransitivity.
Qed.

Lemma same_shape_update c i m s' :
  single_type_managers c !! i = Some m -> same_conf (co_pool c) (ms_pool s') ->
  same_mgr m (ms_mgr s') ->
  same_shape c (set_managers (<[i := ms_mgr s']> (single_type_managers c)) (set_pool (ms_pool s') c)).
Proof.
  intros Hi Hc Hm. split; [done|]. split_and!; [done..|]. cbn.
  rewrite <-(list_insert_id (single_type_managers c) i m Hi) at 1. by apply Forall2_insert.
Qed.

(** [free] over all the groups. *)
Lemma co_free_spec extra fl c id E :
  coord_inv extra fl c ->
  wp (co_free id) (fun _ c' => exists rel, coord_inv extra (fl ++ rel) c' /\ same_shape c c' /\
    (forall i, group_blocks c' i id = []) /\
    (forall i id', id' <> id -> group_blocks c' i id' = group_blocks c i id') /\
    (forall b, hashc (co_pool c') b = hashc (co_pool c) b)) E c.
Proof.
  intros Hc. unfold co_free, num_managers. wp_step. wp_step.
  eapply wp_mono; [apply (wp_forM _ (fun rest c' => exists k rel, rest = seq k (length (single_type_managers c) - k) /\
    k <= length (single_type_managers c) /\ coord_inv extra (fl ++ rel) c' /\ same_shape c c' /\
    (forall i, i < k -> group_blocks c' i id = []) /\ (forall i, k <= i -> group_blocks c' i id = group_blocks c i id) /\
    (forall i id', id' <> id -> group_blocks c' i id' = group_blocks c i id') /\
    (forall b, hashc (co_pool c') b = hashc (co_pool c) b)))| |done].
  - exists 0, []. rewrite Nat.sub_0_r, app_nil_r. split_and!; [done|lia|done|done|lia|done|done|done].
  - intros x rest c1 (k & rel & Hseq & Hk & Hc1 & Hsh & Hdone & Htodo & Hother & Hh).
    destruct (length (single_type_managers c) - k) as [|r] eqn:Hr; [done|].
    injection Hseq as -> ->.
    pose proof Hsh as (Hconf & _ & _ & Hms). pose proof (Forall2_length _ _ _ Hms) as Hlen.
    destruct (lookup_lt_is_Some_2 (single_type_managers c1) k ltac:(lia)) as [m Hm].
    pose proof (coord_mgr_inv _ _ _ _ _ Hc1 Hm) as Hmi.
    eapply wp_mono; [apply (on_manager_spec (free id) extra extra (fl ++ rel) ((fl ++ rel) ++ filter
        (fun b => b <> Blk 0 /\ refc (co_pool c1) b = 1%Z) (reverse (blocks_of m id))) c1 k m
      (fun _ s' => changes (co_pool c1) (ms_pool s') (minus_occs (blocks_of m id)) (hashc (co_pool c1)) /\
         ms_mgr s' = set_num_cached (delete id (num_cached_block m))
           (set_req_to_blocks (delete id (req_to_blocks m)) m)) E Hc1 Hm (ci_extra _ _ _ Hc1))| |done].
    { eapply wp_mono; [apply (free_spec _ _ _ id _ Hmi)| |intros ? ? HE; exact HE].
      cbn. intros [] s' (Hi' & Hch & Hms'). split_and!; [|apply Hch|done|done].
      eapply mgr_inv_ext; [exact Hi'|]. intros b. lia. }
    intros [] c2 (Hc2 & s' & (Hch & Hms') & ->).
    exists (S k). rewrite <-app_assoc in Hc2. eexists. split_and!; [f_equal; lia|lia|exact Hc2|..].
    + etransitivity; [exact Hsh|]. eapply same_shape_update; [exact Hm|apply Hch|by rewrite Hms'].
    + intros i Hi. unfold group_blocks. cbn. destruct (decide (i = k)) as [->|Hik].
      * rewrite list_lookup_insert_eq by lia. rewrite Hms'. unfold blocks_of. cbn. by rewrite lookup_delete_eq.
      * rewrite list_lookup_insert_ne by done. apply Hdone. lia.
    + intros i Hi. unfold group_blocks. cbn. rewrite list_lookup_insert_ne by lia. apply Htodo. lia.
    + intros i id' Hne. rewrite <-Hother by done. unfold group_blocks. cbn. destruct (decide (i = k)) as [->|Hik].
      * rewrite list_lookup_insert_eq, Hm by lia. rewrite Hms'. unfold blocks_of. cbn. by rewrite lookup_delete_ne.
      * by rewrite list_lookup_insert_ne.
    + intros b. rewrite <-Hh. apply Hch.
  - intros [] c' (k & rel & Hseq & Hk & Hc' & Hsh & Hdone & Htodo & Hother & Hh).
    exists rel. split_and!; [done|done| |done|done]. intros i.
    destruct (length (single_type_managers c) - k) eqn:Hr; [|done].
    destruct (decide (i < k)); [auto|]. unfold group_blocks. rewrite lookup_ge_None_2; [done|].
    destruct Hsh as (_ & _ & _ & Hms). apply Forall2_length in Hms. lia.
Qed.

(** ** Loops over the managers *)

Lemma fold_managers {B} (f : B -> nat -> M Coordinator B) (I : nat -> B -> Coordinator -> Prop) E n b c :
  I 0 b c -> (forall k b c', k < n -> I k b c' -> wp (f b k) (I (S k)) E c') ->
  wp (foldM (seq 0 n) b f) (I n) E c.
Proof.
  intros H0 Hstep. eapply wp_mono; [apply (wp_foldM _ (fun b rest c' => exists k, k <= n /\
    rest = seq k (n - k) /\ I k b c'))| |done].
  - exists 0. rewrite Nat.sub_0_r. by split_and!; [lia|..].
  - intros b' x rest c' (k & Hk & Hseq & HI). destruct (n - k) as [|r] eqn:Hr; [done|].
    injection Hseq as -> ->. eapply wp_mono; [apply Hstep; [lia|exact HI]| |done].
    intros b2 c2 HI2. exists (S k). split_and!; [lia|f_equal; lia|done].
  - intros b' c' (k & Hk & Hseq & HI). destruct (n - k) eqn:Hr; [|done].
    by replace n with k by lia.
Qed.

Lemma for_managers (f : nat -> M Coordinator unit) (I : nat -> Coordinator -> Prop) E n c :
  I 0 c -> (forall k c', k < n -> I k c' -> wp (f k) (fun _ => I (S k)) E c') ->
  wp (forM (seq 0 n) f) (fun _ => I n) E c.
Proof.
  intros H0 Hstep. eapply wp_mono; [apply (wp_forM _ (fun rest c' => exists k, k <= n /\
    rest = seq k (n - k) /\ I k c'))| |done].
  - exists 0. rewrite Nat.sub_0_r. by split_and!; [lia|..].
  - intros x rest c' (k & Hk & Hseq & HI). destruct (n - k) as [|r] eqn:Hr; [done|].
    injection Hseq as -> ->. eapply wp_mono; [apply Hstep; [lia|exact HI]| |done].
    intros b2 c2 HI2. exists (S k). split_and!; [lia|f_equal; lia|done].
  - intros b' c' (k & Hk & Hseq & HI). destruct (n - k) eqn:Hr; [|done].
    by replace n with k by lia.
Qed.

(** After some managers were visited for request [id], the others are as before, and so are the
    tables of other requests. *)
Record visited (c : Coordinator) (id : string) (k : nat) (c' : Coordinator) : Prop := {
  vi_shape : same_shape c c';
  vi_rest : forall i, k <= i -> single_type_managers c' !! i = single_type_managers c !! i;
  vi_other : forall i id', id' <> id -> group_blocks c' i id' = group_blocks c i id'
}.

Lemma visited_refl c id : visited c id 0 c.
Proof. done. Qed.

Lemma visited_step c id k c' m s' :
  visited c id k c' -> single_type_managers c' !! k = Some m -> same_conf (co_pool c') (ms_pool s') ->
  same_mgr m (ms_mgr s') -> (forall id', id' <> id -> blocks_of (ms_mgr s') id' = blocks_of m id') ->
  visited c id (S k)
    (set_managers (<[k := ms_mgr s']> (single_type_managers c')) (set_pool (ms_pool s') c')).
Proof.
  intros [Hs Hr Ho] Hk Hc Hm Hb. split.
  - etransitivity; [exact Hs|]. by eapply same_shape_update.
  - intros i Hi. cbn. rewrite list_lookup_insert_ne by lia. apply Hr. lia.
  - intros i id' Hne. rewrite <-Ho by done. unfold group_blocks. cbn.
    destruct (decide (i = k)) as [->|Hik].
    + rewrite list_lookup_insert_eq, Hk by (by eapply lookup_lt_Some). by apply Hb.
    + by rewrite list_lookup_insert_ne.
Qed.

Lemma visited_manager c id k c' :
  visited c id k c' -> k < length (single_type_managers c) ->
  exists m, single_type_managers c !! k = Some m /\ single_type_managers c' !! k = Some m.
Proof.
  intros Hv Hk. destruct (lookup_lt_is_Some_2 _ _ Hk) as [m Hm]. exists m.
  split; [done|]. by rewrite (vi_rest _ _ _ _ Hv).
Qed.

Lemma group_blocks_insert c k m p i id :
  k < length (single_type_managers c) ->
  group_blocks (set_managers (<[k := m]> (single_type_managers c)) (set_pool p c)) i id =
  if decide (i = k) then blocks_of m id else group_blocks c i id.
Proof.
  intros Hk. unfold group_blocks. cbn. case_decide as Hik.
  - subst. by rewrite list_lookup_insert_eq.
  - by rewrite list_lookup_insert_ne.
Qed.

Lemma same_shape_length c c' :
  same_shape c c' -> length (single_type_managers c') = length (single_type_managers c).
Proof. intros (_ & _ & _ & H). symmetry. by apply Forall2_length in H. Qed.

(** ** [remove_skipped_blocks] *)

(** The table of group [i] when the blocks before the window are null. *)
Definition pruned (c : Coordinator) (i : nat) (id : string) (n : nat) : list bref :=
  match single_type_managers c !! i with
  | Some m => let k := num_skipped m id n in replicate k (Blk 0) ++ drop k (blocks_of m id)
  | None => []
  end.

(** The tables are in the shape [remove_skipped_blocks] relies on. *)
Definition skip_ready (c : Coordinator) (id : string) (n : nat) : Prop :=
  forall i m, single_type_managers c !! i = Some m ->
    null_prefix (blocks_of m id) /\ num_skipped m id n <= length (blocks_of m id).

Lemma co_remove_skipped_spec extra fl c id n E :
  coord_inv extra fl c -> skip_ready c id n ->
  wp (co_remove_skipped_blocks id n) (fun _ c' =>
    (exists rel, coord_inv extra (fl ++ rel) c') /\
    visited c id (length (single_type_managers c)) c' /\
    (forall i, i < length (single_type_managers c) -> group_blocks c' i id = pruned c i id n) /\
    (forall i, num_cached_block <$> single_type_managers c' !! i = num_cached_block <$> single_type_managers c !! i) /\
    (forall b, hashc (co_pool c') b = hashc (co_pool c) b)) E c.
Proof.
  intros Hc Hr. unfold co_remove_skipped_blocks, num_managers. wp_step. wp_step.
  apply (for_managers _ (fun k c' => (exists rel, coord_inv extra (fl ++ rel) c') /\ visited c id k c' /\
    (forall i, i < k -> group_blocks c' i id = pruned c i id n) /\
    (forall i, num_cached_block <$> single_type_managers c' !! i = num_cached_block <$> single_type_managers c !! i) /\
    (forall b, hashc (co_pool c') b = hashc (co_pool c) b))).
  { split_and!; [exists []; by rewrite app_nil_r|apply visited_refl|lia|done|done]. }
  intros k c1 Hk ((rel & Hc1) & Hv & Hdone & Hnum & Hh).
  destruct (visited_manager _ _ _ _ Hv Hk) as (m & Hm & Hm1). destruct (Hr k m Hm) as [Hnp Hle].
  pose proof (coord_mgr_inv _ _ _ _ _ Hc1 Hm1) as Hmi.
  pose proof (same_shape_length _ _ (vi_shape _ _ _ _ Hv)) as Hlen.
  destruct (wp_noexc_run _ _ _ (remove_skipped_blocks_spec _ _ _ id n noexc Hmi Hnp Hle))
    as ([] & s' & Hrun & rel' & Hi' & Hb & Hbo & Hh' & Hconf & Hnc & Hsm). cbn in Hb, Hbo, Hh', Hconf, Hnc, Hsm.
  unfold wp, on_manager. rewrite Hm1, Hrun.
  split_and!.
  - exists (rel ++ rel'). rewrite app_assoc. eapply mgr_coord_inv; [exact Hc1|exact Hm1| | |apply (ci_extra _ _ _ Hc)].
    + eapply mgr_inv_ext; [exact Hi'|]. intros b. lia.
    + apply Hconf.
  - by eapply visited_step.
  - intros i Hi. rewrite group_blocks_insert by lia. case_decide as Hik; [|apply Hdone; lia].
    subst i. rewrite Hb. unfold pruned. by rewrite Hm.
  - intros i. cbn. destruct (decide (i = k)) as [->|Hik].
    + rewrite list_lookup_insert_eq by lia. rewrite Hm. cbn. by rewrite Hnc.
    + rewrite list_lookup_insert_ne by done. apply Hnum.
  - intros b. cbn. by rewrite Hh'.
Qed.

(** ** Counting *)

Fixpoint sumz (f : nat -> Z) (k : nat) : Z :=
  match k with O => 0%Z | S k' => (sumz f k' + f k')%Z end.

Lemma sumz_ext f g k : (forall i, i < k -> f i = g i) -> sumz f k = sumz g k.
Proof. intros H. induction k as [|k IH]; simpl; [done|]. rewrite IH, H by auto with lia. done. Qed.

(** The tokens manager [m] reserves slots for. *)
Definition asked (m : Manager) (num_tokens num_encoder_tokens : nat) : nat :=
  if is_cross m then num_encoder_tokens else num_tokens.

(** What manager [i] adds to the number of blocks to allocate. *)
Definition group_need (c : Coordinator) (id : string) (n enc : nat) (new : list (list bref)) (i : nat) : Z :=
  match single_type_managers c !! i with
  | Some m =>
      let cached := if is_cross m then [] else default [] (new !! i) in
      (required_blocks m (asked m n enc) - Z.of_nat (length cached) - Z.of_nat (length (blocks_of m id))
       + Z.of_nat (num_evictable (co_pool c) cached))%Z
  | None => 0%Z
  end.

Lemma co_get_num_spec extra fl c id n enc new E :
  coord_inv extra fl c -> length new = length (single_type_managers c) ->
  wp (co_get_num_blocks_to_allocate id n new enc) (fun k c' =>
    k = sumz (group_need c id n enc new) (length (single_type_managers c)) /\
    co_pool c' = co_pool c /\ coord_inv extra fl c' /\ visited c id (length (single_type_managers c)) c' /\
    (forall i, group_blocks c' i id = group_blocks c i id) /\
    (forall i, num_cached_block <$> single_type_managers c' !! i = num_cached_block <$> single_type_managers c !! i)) E c.
Proof.
  intros Hc Hnew. unfold co_get_num_blocks_to_allocate, num_managers. wp_step. wp_step.
  apply (fold_managers _ (fun k acc c' => acc = sumz (group_need c id n enc new) k /\
    co_pool c' = co_pool c /\ coord_inv extra fl c' /\ visited c id k c' /\
    (forall i, group_blocks c' i id = group_blocks c i id) /\
    (forall i, num_cached_block <$> single_type_managers c' !! i = num_cached_block <$> single_type_managers c !! i))).
  { split_and!; done. }
  intros k acc c1 Hk (-> & Hp & Hc1 & Hv & Hb & Hnc).
  destruct (visited_manager _ _ _ _ Hv Hk) as (m & Hm & Hm1).
  pose proof (coord_mgr_inv _ _ _ _ _ Hc1 Hm1) as Hmi.
  pose proof (same_shape_length _ _ (vi_shape _ _ _ _ Hv)) as Hlen.
  destruct (lookup_lt_is_Some_2 new k ltac:(lia)) as [nk Hnk].
  wp_step. wp_step. rewrite Hm1. wp_step.
  set (cached := if is_cross m then [] else nk). set (t := asked m n enc).
  assert (Hcall : (if is_cross m then on_manager k (get_num_blocks_to_allocate id enc [])
    else nw ← nth_group new k; on_manager k (get_num_blocks_to_allocate id n nw)) c1 =
    on_manager k (get_num_blocks_to_allocate id t cached) c1).
  { unfold cached, t, asked. destruct (is_cross m); [done|]. unfold nth_group. by rewrite Hnk. }
  unfold wp at 1. rewrite Hcall.
  destruct (wp_noexc_run _ _ _ (get_num_blocks_to_allocate_spec _ _ _ id t cached noexc Hmi))
    as (kk & s' & Hrun & -> & Hp' & Hi' & Hm'). cbn in Hp', Hm'.
  unfold on_manager. rewrite Hm1, Hrun. wp_step.
  destruct (blocks_of_set id (blocks_of m id) m (ms_mgr s') ltac:(by rewrite Hm')) as [Hbi Hbo].
  split_and!.
  - cbn [sumz]. f_equal. unfold group_need. rewrite Hm, Hnk. cbn. by rewrite Hp.
  - cbn. by rewrite Hp'.
  - eapply mgr_coord_inv; [exact Hc1|exact Hm1| |by rewrite Hp'|apply (ci_extra _ _ _ Hc)].
    eapply mgr_inv_ext; [exact Hi'|]. intros b. lia.
  - eapply visited_step; [exact Hv|exact Hm1|by rewrite Hp'|by rewrite Hm'|exact Hbo].
  - intros i. rewrite group_blocks_insert by lia. case_decide as Hik; [|apply Hb].
    subst i. rewrite Hbi. unfold group_blocks. by rewrite Hm.
  - intros i. cbn. destruct (decide (i = k)) as [->|Hik].
    + rewrite list_lookup_insert_eq by lia. rewrite Hm, Hm'. done.
    + rewrite list_lookup_insert_ne by done. apply Hnc.
Qed.

(** ** [save_new_computed_blocks] *)

Lemma occs_concat_drop (new : list (list bref)) k nk b :
  new !! k = Some nk -> occs (concat (drop k new)) b = (occs nk b + occs (concat (drop (S k) new)) b)%Z.
Proof. intros Hk. rewrite (drop_S _ _ _ Hk). apply occs_app. Qed.

(** The computed blocks can be handed to the managers. *)
Definition save_all_ready (c : Coordinator) (id : string) (new : list (list bref)) : Prop :=
  length new = length (single_type_managers c) /\
  forall i m ni, single_type_managers c !! i = Some m -> new !! i = Some ni ->
    save_ready m id ni /\ (forall b, b ∈ ni -> in_pool (co_pool c) b) /\
    (forall b, b ∈ ni -> b <> Blk 0 -> occ b ni = 1).

Definition saved_group (c : Coordinator) (id : string) (new : list (list bref)) (i : nat)
  : option (gmap string nat) :=
  m ← single_type_managers c !! i;
  Some (saved_num m id (default [] (new !! i))).

Lemma co_save_spec fl c id new E :
  coord_inv (occs (concat new)) fl c -> save_all_ready c id new ->
  wp (co_save_new_computed_blocks id new) (fun _ c' =>
    co_pool c' = co_pool c /\ coord_inv no_ref fl c' /\ visited c id (length (single_type_managers c)) c' /\
    (forall i, i < length (single_type_managers c) ->
       group_blocks c' i id = group_blocks c i id ++ default [] (new !! i)) /\
    (forall i, i < length (single_type_managers c) ->
       num_cached_block <$> single_type_managers c' !! i = saved_group c id new i)) E c.
Proof.
  intros Hc [Hnew Hready]. unfold co_save_new_computed_blocks, num_managers. wp_step. wp_step.
  eapply wp_mono; [apply (for_managers _ (fun k c' =>
    co_pool c' = co_pool c /\ coord_inv (occs (concat (drop k new))) fl c' /\ visited c id k c' /\
    (forall i, i < k -> group_blocks c' i id = group_blocks c i id ++ default [] (new !! i)) /\
    (forall i, i < k -> num_cached_block <$> single_type_managers c' !! i = saved_group c id new i)))| |done].
  { rewrite drop_0. split_and!; [done|done|done|lia|lia]. }
  2:{ intros [] c' (Hp & Hc' & Hv & Hb & Hn). rewrite drop_ge in Hc' by lia. by split_and!. }
  intros k c1 Hk (Hp & Hc1 & Hv & Hdone & Hnum).
  destruct (visited_manager _ _ _ _ Hv Hk) as (m & Hm & Hm1).
  pose proof (coord_mgr_inv _ _ _ _ _ Hc1 Hm1) as Hmi.
  pose proof (same_shape_length _ _ (vi_shape _ _ _ _ Hv)) as Hlen.
  destruct (lookup_lt_is_Some_2 new k ltac:(lia)) as [nk Hnk].
  destruct (Hready k m nk Hm Hnk) as (Hr & Hin & Hone).
  unfold nth_group. rewrite Hnk. wp_step. wp_step.
  set (extra' := occs (concat (drop (S k) new))).
  set (other := fun b => (others (occs (concat (drop k new))) c1 m b + (extra' b - occs (concat (drop k new)) b))%Z).
  assert (Hoth : forall b, (others (occs (concat (drop k new))) c1 m b = other b + occs nk b)%Z).
  { intros b. unfold other. rewrite (occs_concat_drop _ _ _ _ Hnk). fold extra'. lia. }
  assert (Hother0 : forall b, (0 <= other b)%Z).
  { intros b. unfold other, others. rewrite (occs_concat_drop _ _ _ _ Hnk). fold extra'.
    pose proof (sum_list_with_elem (fun m => occ_refs b (req_to_blocks m)) _ _ _ Hm1).
    unfold total_refs. cbn in *. pose proof (occs_nonneg (concat (drop (S k) new)) b). fold extra' in H0. lia. }
  destruct (wp_noexc_run _ _ _ (save_any_spec other fl (mkMS (co_pool c1) m) id nk noexc
    (mgr_inv_ext _ _ _ _ Hmi (fun b => eq_sym (Hoth b))) Hother0 Hr ltac:(by rewrite Hp) Hone))
    as ([] & s' & Hrun & Hi' & Hp' & Hb & Hbo & Hsn & Hsm). cbn in Hp', Hb, Hbo, Hsn, Hsm.
  unfold wp, on_manager. rewrite Hm1, Hrun. split_and!.
  - cbn. by rewrite Hp'.
  - eapply mgr_coord_inv; [exact Hc1|exact Hm1|exact Hi'|by rewrite Hp'|intros b; apply occs_nonneg].
  - eapply visited_step; [exact Hv|exact Hm1|by rewrite Hp'|exact Hsm|exact Hbo].
  - intros i Hi. rewrite group_blocks_insert by lia. case_decide as Hik; [|apply Hdone; lia].
    subst i. rewrite Hb, Hnk. unfold group_blocks. by rewrite Hm.
  - intros i Hi. cbn. destruct (decide (i = k)) as [->|Hik].
    + rewrite list_lookup_insert_eq by lia. unfold saved_group. rewrite Hm, Hnk. cbn. by rewrite Hsn.
    + rewrite list_lookup_insert_ne by done. apply Hnum. lia.
Qed.

(** ** [allocate_new_blocks] *)

(** The number of blocks group [i] is missing. *)
Definition group_missing (c : Coordinator) (id : string) (n enc : nat) (i : nat) : nat :=
  match single_type_managers c !! i with Some m => missing_blocks m id (asked m n enc) | None => 0 end.

Fixpoint sumn (f : nat -> nat) (k : nat) : nat := match k with O => 0 | S k' => sumn f k' + f k' end.

Lemma sumn_mono f k k' : k <= k' -> sumn f k <= sumn f k'.
Proof. induction 1; simpl; lia. Qed.

Lemma co_allocate_spec extra fl c id n enc E :
  coord_inv extra fl c ->
  sumn (group_missing c id n enc) (length (single_type_managers c)) <= length fl ->
  wp (co_allocate_new_blocks id n enc) (fun new c' =>
    length new = length (single_type_managers c) /\
    fl = concat new ++ drop (length (concat new)) fl /\
    coord_inv extra (drop (length (concat new)) fl) c' /\
    visited c id (length (single_type_managers c)) c' /\
    (forall i ni, new !! i = Some ni -> group_blocks c' i id = group_blocks c i id ++ ni /\
       length ni = group_missing c id n enc i) /\
    (forall i, num_cached_block <$> single_type_managers c' !! i = num_cached_block <$> single_type_managers c !! i) /\
    (forall b, hashc (co_pool c') b =
       if decide (enable_caching (co_pool c) = true /\ b ∈ concat new) then None else hashc (co_pool c) b)) E c.
Proof.
  intros Hc Hsum. unfold co_allocate_new_blocks, num_managers. wp_step. wp_step.
  eapply wp_mono; [apply (fold_managers _ (fun k new c' =>
    length new = k /\ length (concat new) = sumn (group_missing c id n enc) k /\
    concat new = take (length (concat new)) fl /\
    coord_inv extra (drop (length (concat new)) fl) c' /\ visited c id k c' /\
    (forall i ni, new !! i = Some ni -> group_blocks c' i id = group_blocks c i id ++ ni /\
       length ni = group_missing c id n enc i) /\
    (forall i, num_cached_block <$> single_type_managers c' !! i = num_cached_block <$> single_type_managers c !! i) /\
    (forall b, hashc (co_pool c') b =
       if decide (enable_caching (co_pool c) = true /\ b ∈ concat new) then None else hashc (co_pool c) b)))| |done].
  { simpl. rewrite drop_0. split_and!; try done. intros b. rewrite decide_False; [done|]. set_solver. }
  2:{ intros new c' (H1 & H2 & H3 & H4 & H5 & H6 & H7 & H8). split_and!; try done.
      rewrite H3 at 1. by rewrite take_drop. }
  intros k new c1 Hk (Hl & Hlc & Hpre & Hc1 & Hv & Hb & Hnc & Hh).
  destruct (visited_manager _ _ _ _ Hv Hk) as (m & Hm & Hm1).
  pose proof (coord_mgr_inv _ _ _ _ _ Hc1 Hm1) as Hmi.
  pose proof (same_shape_length _ _ (vi_shape _ _ _ _ Hv)) as Hlen.
  unfold manager_tokens. wp_step. wp_step. wp_step. rewrite Hm1. fold (asked m n enc). wp_step. wp_step.
  set (a := length (concat new)) in *. set (q := missing_blocks m id (asked m n enc)).
  assert (Hq : group_missing c id n enc k = q) by (unfold group_missing; by rewrite Hm).
  assert (Hroom : a + q <= length fl).
  { pose proof (sumn_mono (group_missing c id n enc) (S k) (length (single_type_managers c)) Hk) as Hmono.
    cbn [sumn] in Hmono. rewrite Hq in Hmono. lia. }
  destruct (wp_noexc_run _ _ _ (allocate_new_blocks_spec _ _ _ id (asked m n enc) noexc Hmi
    ltac:(cbn; fold q; rewrite length_drop; lia))) as (ret & s' & Hrun & Hret & Hi' & Hms & Hch).
  cbn in Hret, Hi', Hms, Hch. fold q in Hret, Hi'.
  destruct (blocks_of_set id (blocks_of m id ++ ret) m (ms_mgr s') ltac:(by rewrite Hms)) as [Hbi Hbo].
  unfold wp, on_manager. rewrite Hm1, Hrun. cbn [mret M_ret]. unfold mret, M_ret.
  assert (Hlr : length ret = q) by (rewrite Hret, length_take, length_drop; lia).
  assert (Hcc : concat (new ++ [ret]) = concat new ++ ret) by (rewrite concat_app; simpl; by rewrite app_nil_r).
  assert (Hcl : length (concat new ++ ret) = a + q) by (rewrite length_app, Hlr; done).
  rewrite Hcc, Hcl.
  split_and!.
  - rewrite length_app. simpl. lia.
  - cbn [sumn]. lia.
  - rewrite Hpre, Hret. rewrite take_take_drop. done.
  - rewrite <-drop_drop. eapply mgr_coord_inv; [exact Hc1|exact Hm1| |apply Hch|apply (ci_extra _ _ _ Hc)].
    eapply mgr_inv_ext; [exact Hi'|]. intros b. lia.
  - eapply visited_step; [exact Hv|exact Hm1|apply Hch|by rewrite Hms|exact Hbo].
  - intros i ni Hni. destruct (decide (i = k)) as [->|Hik].
    + rewrite lookup_app_r in Hni by lia. replace (k - length new) with 0 in Hni by lia. simpl in Hni. simplify_eq.
      rewrite group_blocks_insert, decide_True, Hbi by (done || lia). split; [|lia].
      unfold group_blocks. by rewrite Hm.
    + apply lookup_lt_Some in Hni as Hlt. rewrite length_app in Hlt. simpl in Hlt.
      rewrite lookup_app_l in Hni by lia. destruct (Hb i ni Hni) as [<- <-].
      rewrite group_blocks_insert, decide_False by (done || lia). done.
  - intros i. cbn. destruct (decide (i = k)) as [->|Hik].
    + rewrite list_lookup_insert_eq by lia. rewrite Hm, Hms. done.
    + rewrite list_lookup_insert_ne by done. apply Hnc.
  - intros b. cbn. destruct Hch as (_ & _ & ->). rewrite Hh.
    assert (enable_caching (co_pool c1) = enable_caching (co_pool c)) as -> by apply (vi_shape _ _ _ _ Hv).
    clear. repeat case_decide; set_solver.
Qed.

(** ** [cache_blocks] *)

(** The blocks of group [i] that become full when [n] tokens are to be cached. *)
Definition newly_full (c : Coordinator) (id : string) (n i : nat) : list bref :=
  match single_type_managers c !! i with
  | Some m =>
      match num_cached_block m !! id with
      | Some nc => take (n / mgr_block_size m - nc) (drop nc (blocks_of m id))
      | None => []
      end
  | None => []
  end.

Record cache_ready (c : Coordinator) (r : Request) (n : nat) : Prop := {
  cr_events : enable_kv_cache_events (co_pool c) = false;
  cr_mgr : forall i m, single_type_managers c !! i = Some m ->
    mgr_kind m <> CrossAttentionManager /\ (0 <= kv_cache_group_id m < 2 ^ 32)%Z /\
    n / mgr_block_size m <= length (block_hashes r) /\
    exists nc, num_cached_block m !! request_id r = Some nc /\ nc <= n / mgr_block_size m;
  cr_new : forall i b, b ∈ newly_full c (request_id r) n i -> b <> Blk 0 /\ hashc (co_pool c) b = None;
  cr_disj : forall i j b, b ∈ newly_full c (request_id r) n i -> b ∈ newly_full c (request_id r) n j -> i = j
}.

Lemma co_cache_spec extra fl c r n E :
  coord_inv extra fl c -> cache_ready c r n ->
  wp (co_cache_blocks r n) (fun _ c' =>
    coord_inv extra fl c' /\ visited c (request_id r) (length (single_type_managers c)) c' /\
    (forall i id, group_blocks c' i id = group_blocks c i id) /\
    (forall b, refc (co_pool c') b = refc (co_pool c) b) /\
    (forall i m, single_type_managers c !! i = Some m ->
       hashes_set (kv_cache_group_id m) (drop (default 0 (num_cached_block m !! request_id r)) (block_hashes r))
         (newly_full c (request_id r) n i) (co_pool c')) /\
    (forall b, (forall i, b ∉ newly_full c (request_id r) n i) -> hashc (co_pool c') b = hashc (co_pool c) b)) E c.
Proof.
  intros Hc Hr. set (id := request_id r) in *. unfold co_cache_blocks, num_managers. wp_step. wp_step.
  eapply wp_mono; [apply (for_managers _ (fun k c' =>
    coord_inv extra fl c' /\ visited c id k c' /\ same_conf (co_pool c) (co_pool c') /\
    (forall i id', group_blocks c' i id' = group_blocks c i id') /\
    (forall b, refc (co_pool c') b = refc (co_pool c) b) /\
    (forall i m, i < k -> single_type_managers c !! i = Some m ->
       hashes_set (kv_cache_group_id m) (drop (default 0 (num_cached_block m !! id)) (block_hashes r))
         (newly_full c id n i) (co_pool c')) /\
    (forall b, (forall i, i < k -> b ∉ newly_full c id n i) -> hashc (co_pool c') b = hashc (co_pool c) b)))| |done].
  { split_and!; try done. intros; lia. }
  2:{ intros [] c' (H1 & H2 & _ & H3 & H4 & H5 & H6). split_and!; try done.
      - intros i m Hi. apply H5; [by eapply lookup_lt_Some|done].
      - intros b Hb. apply H6. intros i _. apply Hb. }
  intros k c1 Hk (Hc1 & Hv & Hconf & Hb & Href & Hset & Hsame).
  destruct (visited_manager _ _ _ _ Hv Hk) as (m & Hm & Hm1).
  pose proof (coord_mgr_inv _ _ _ _ _ Hc1 Hm1) as Hmi.
  pose proof (same_shape_length _ _ (vi_shape _ _ _ _ Hv)) as Hlen.
  destruct (cr_mgr _ _ _ Hr k m Hm) as (Hkind & Hgid & Hnh & nc & Hnc & Hle). fold id in Hnc.
  assert (Hnf : newly_full c id n k = take (n / mgr_block_size m - nc) (drop nc (blocks_of m id))).
  { unfold newly_full. by rewrite Hm, Hnc. }
  assert (Hfresh : forall b, b ∈ newly_full c id n k -> b <> Blk 0 /\ hashc (co_pool c1) b = None).
  { intros b Hbk. destruct (cr_new _ _ _ Hr k b Hbk) as [H0 Hn]. split; [done|].
    rewrite Hsame; [done|]. intros i Hi Hbi. pose proof (cr_disj _ _ _ Hr _ _ _ Hbk Hbi). lia. }
  rewrite Hnf in Hfresh.
  assert (Hev : event_ready (co_pool c1) r (blocks_of m id) nc).
  { intros E1. destruct Hconf as (_ & _ & _ & E2 & _). rewrite E2, (cr_events _ _ _ Hr) in E1. done. }
  destruct (wp_noexc_run _ _ _ (cache_blocks_spec _ _ _ r n nc noexc Hmi Hkind Hnc Hle Hnh Hgid Hfresh Hev))
    as ([] & s' & Hrun & Hi' & Hbl & Hncs & Hconf' & Hsm & Hrefs & Hhs & Hhsame).
  cbn [ms_mgr ms_pool] in Hbl, Hncs, Hconf', Hsm, Hrefs, Hhs, Hhsame. fold id in Hhs, Hhsame. rewrite <-Hnf in Hhs, Hhsame.
  unfold wp, on_manager. rewrite Hm1, Hrun. split_and!.
  - eapply mgr_coord_inv; [exact Hc1|exact Hm1| |apply Hconf'|apply (ci_extra _ _ _ Hc)].
    eapply mgr_inv_ext; [exact Hi'|]. intros b. lia.
  - eapply visited_step; [exact Hv|exact Hm1|exact Hconf'|exact Hsm|intros; apply Hbl].
  - by etransitivity.
  - intros i id'. rewrite group_blocks_insert by lia. case_decide as Hik; [|apply Hb].
    subst i. rewrite Hbl. unfold group_blocks. by rewrite Hm.
  - intros b. cbn. by rewrite Hrefs.
  - intros i mi Hi Hmi' j b Hj. cbn. destruct (decide (i = k)) as [->|Hik].
    + assert (mi = m) as -> by congruence. rewrite Hnc. cbn. by apply Hhs.
    + destruct (Hset i mi ltac:(lia) Hmi' j b Hj) as (h & key & ? & ? & Hkey). exists h, key.
      split_and!; [done..|]. rewrite <-Hkey. apply Hhsame. intros Hbk. apply list_elem_of_lookup_2 in Hj.
      apply Hik. by eapply (cr_disj _ _ _ Hr).
  - intros b Hnb. cbn. rewrite Hhsame by (apply Hnb; lia). apply Hsame. intros i Hi. apply Hnb. lia.
Qed.

(** * Properties of the search over groups *)

Lemma rows_take G cols k : (fun c => take k c) <$> rows G cols = rows G (take k cols).
Proof. apply (rows_map G cols (fun A => @take A k)). intros. by rewrite fmap_take. Qed.

Lemma col_cached p fl gids hashes i col b g :
  pool_ok p fl -> Forall (fun g => 0 <= g < 2 ^ 32)%Z gids -> gids <> [] ->
  hit_at p gids hashes i = Some col -> col !! g = Some b ->
  exists h gid key, hashes !! i = Some h /\ gids !! g = Some gid /\
    make_block_hash_with_group_id h gid = Ok key /\ hashc p b = Some key.
Proof.
  intros Hp Hg Hne Hcol Hb. apply bind_Some in Hcol as (h & Hh & Hhit).
  destruct (hit_some p fl gids h col Hp Hg Hne Hhit) as [Hget _].
  pose proof (get_cached_block_spec p fl h gids (po_core _ _ Hp) Hg) as Hs. rewrite Hget in Hs.
  destruct (Forall2_lookup_r _ _ _ _ _ Hs Hb) as (gid & Hgid & _ & _ & key & Hk & Hh'). eauto 10.
Qed.

(** A cached prefix of [L] blocks: one row per group, and every entry is a null block or a block
    that holds the request's hash at that index for the row's group. *)
Definition cached_prefix (p : BlockPool) (hashes : list bytes) (gids : list Z) (L : nat)
    (rs : list (list bref)) : Prop :=
  length rs = length gids /\
  forall g r, rs !! g = Some r -> length r = L /\
    forall i b, r !! i = Some b -> b = null_block p \/
      exists h gid key, hashes !! i = Some h /\ gids !! g = Some gid /\
        make_block_hash_with_group_id h gid = Ok key /\ hashc p b = Some key.

Lemma cached_prefix_rows p fl hashes gids cols :
  pool_ok p fl -> Forall (fun g => 0 <= g < 2 ^ 32)%Z gids -> gids <> [] ->
  (forall i col, cols !! i = Some col -> col = null_col p gids \/ hit_at p gids hashes i = Some col) ->
  cached_prefix p hashes gids (length cols) (rows (length gids) cols).
Proof.
  intros Hp Hg Hne Hc. split; [apply rows_length|]. intros g r Hr.
  split; [by eapply rows_row_length|]. intros i b Hb.
  destruct (rows_entry _ _ _ _ _ _ Hr Hb) as (col & Hcol & Hgb).
  destruct (Hc _ _ Hcol) as [->|Hhit].
  - left. specialize (Hgb (length_replicate _ _)). by apply lookup_replicate in Hgb as [-> _].
  - right. eapply col_cached; [done..|]. apply Hgb.
    apply bind_Some in Hhit as (h & _ & Hh). by destruct (hit_some p fl gids h col Hp Hg Hne Hh).
Qed.

Lemma cached_prefix_app p hashes g1 g2 L r1 r2 :
  cached_prefix p hashes g1 L r1 -> cached_prefix p hashes g2 L r2 ->
  cached_prefix p hashes (g1 ++ g2) L (r1 ++ r2).
Proof.
  intros [L1 H1] [L2 H2]. split; [rewrite !length_app; lia|]. intros g r Hr.
  apply lookup_app_Some in Hr as [Hr|[Hge Hr]].
  - destruct (H1 _ _ Hr) as [Hl Hb]. split; [done|]. intros i b Hi.
    destruct (Hb i b Hi) as [|(h & gid & key & ? & Hgid & ? & ?)]; [by left|right].
    exists h, gid, key. split_and!; [done|by apply lookup_app_l_Some|done|done].
  - destruct (H2 _ _ Hr) as [Hl Hb]. split; [done|]. intros i b Hi.
    destruct (Hb i b Hi) as [|(h & gid & key & ? & Hgid & ? & ?)]; [by left|right].
    exists h, gid, key. split_and!; [done| |done|done]. rewrite lookup_app_r by lia. by rewrite <-L1.
Qed.


