(* ===== verification/CacheManager.v ===== *)
(** The KV cache manager: [vllm/v1/core/kv_cache_manager.py], [KVCacheBlocks] and
    [KVCacheManager].

    The scheduler's interface to the block pool: prefix-cache lookup, slot allocation, freeing.
    Token counts of a request are not negative. *)
From stdpp Require Import base gmap list strings.
From Stdlib Require Import ZArith Lia QArith.
From S2P Require Import Prelude BlockQueue Request HashKeys BlockPool CacheSpec SingleType Coordinator.
Open Scope nat_scope.

(** * Allocation results *)

(** [KVCacheBlocks.blocks]: the blocks of each group. *)
Abbreviation KVCacheBlocks := (list (list bref)).

Definition kvb_add (a b : KVCacheBlocks) : KVCacheBlocks := zip_with (fun x y => x ++ y) a b.

Definition get_block_ids (p : BlockPool) (allow_none : bool) (bs : KVCacheBlocks)
  : option (list (list Z)) :=
  if allow_none && forallb (fun g => length g =? 0) bs then None
  else Some (map (fun g => map (fun b => block_id (blk p b)) g) bs).

Definition get_unhashed_block_ids (p : BlockPool) (bs : KVCacheBlocks) : outcome (list Z) :=
  match bs with
  | [g] => Ok ((fun b => block_id (blk p b)) <$> filter (fun b => block_hash (blk p b) = None) g)
  | _ => Raise AssertionError
  end.

Definition new_empty (bs : KVCacheBlocks) : KVCacheBlocks := replicate (length bs) [].

(** * The manager *)

Record KVCacheManager := mkKVM {
  coordinator : Coordinator;
  kvm_max_model_len : nat;
  kvm_enable_caching : bool;
  log_stats : bool;
  prefix_cache_stats : option PrefixCacheStats;
  kvm_block_size : option nat;
  num_kv_cache_groups : nat
}.

Definition set_coordinator (c : Coordinator) (k : KVCacheManager) : KVCacheManager :=
  mkKVM c (kvm_max_model_len k) (kvm_enable_caching k) (log_stats k) (prefix_cache_stats k)
    (kvm_block_size k) (num_kv_cache_groups k).
Definition set_stats (st : option PrefixCacheStats) (k : KVCacheManager) : KVCacheManager :=
  mkKVM (coordinator k) (kvm_max_model_len k) (kvm_enable_caching k) (log_stats k) st
    (kvm_block_size k) (num_kv_cache_groups k).

(** [PrefixCacheStats()]. *)
Definition new_stats : PrefixCacheStats := mkStats false 0 0 0.

Definition on_coord {A} : M Coordinator A -> M KVCacheManager A := zoom coordinator set_coordinator.
Definition co_on_pool {A} : M BlockPool A -> M Coordinator A := zoom co_pool set_pool.

(** [KVCacheManager.__init__]. *)
Definition kvm_init (cfg : KVCacheConfig) (max_len : nat) (caching use_eagle log_st events use_int : bool)
    (dcp : nat) : outcome KVCacheManager :=
  bs ← (if caching then
          match kv_cache_groups cfg with
          | [] => Raise AssertionError
          | g :: gs =>
              _ ← assert_ (forallb (fun g' => block_size (group_spec g') =? block_size (group_spec g)) gs);
              if 1 <? dcp then
                _ ← assert_ (length (g :: gs) =? 1);
                Ok (Some (block_size (group_spec g) * dcp))
              else Ok (Some (block_size (group_spec g)))
          end
        else Ok None);
  c ← get_kv_cache_coordinator cfg use_eagle caching events use_int dcp;
  Ok (mkKVM c max_len caching log_st (if log_st then Some new_stats else None) bs
        (length (kv_cache_groups cfg))).

Definition usage (k : KVCacheManager) : Q := get_usage (co_pool (coordinator k)).

Definition make_prefix_cache_stats : M KVCacheManager (option PrefixCacheStats) :=
  k ← get;
  if negb (log_stats k) then mret None
  else modify (set_stats (Some new_stats)) ;; mret (prefix_cache_stats k).

Definition create_empty_block_list (k : KVCacheManager) : KVCacheBlocks :=
  replicate (num_kv_cache_groups k) [].

(** [request.sampling_params is not None and request.sampling_params.prompt_logprobs is not None]. *)
Definition wants_prompt_logprobs (r : Request) : bool :=
  match sampling_params r with
  | Some sp => bool_decide (is_Some (sp_prompt_logprobs sp))
  | None => false
  end.

Definition get_computed_blocks (r : Request) : M KVCacheManager (KVCacheBlocks * nat) :=
  k ← get;
  if negb (kvm_enable_caching k) || wants_prompt_logprobs r
  then mret (create_empty_block_list k, 0)
  else
    let max_cache_hit_length := num_tokens r - 1 in
    '(computed, num_new_computed) ← lift_out
      (co_find_longest_cache_hit (coordinator k) (block_hashes r) max_cache_hit_length);
    (if log_stats k then
       match prefix_cache_stats k with
       | None => raise AssertionError
       | Some st =>
           modify (set_stats (Some (mkStats (st_reset st) (st_requests st + 1)
             (st_queries st + Z.of_nat (num_tokens r)) (st_hits st + Z.of_nat num_new_computed))))
       end
     else mret tt) ;;
    mret (computed, num_new_computed).

(** [any(new_computed_block_list)]. *)
Definition any_block (bs : KVCacheBlocks) : bool := existsb (fun g => negb (length g =? 0)) bs.

Definition allocate_slots (r : Request) (num_new_tokens num_new_computed_tokens : nat)
    (new_computed_blocks : option KVCacheBlocks) (num_lookahead_tokens : nat)
    (delay_cache_blocks : bool) (num_encoder_tokens : nat) : M KVCacheManager (option KVCacheBlocks) :=
  if num_new_tokens =? 0 then raise ValueError else
  k ← get;
  let new_computed_block_list :=
    match new_computed_blocks with Some bs => bs | None => replicate (num_kv_cache_groups k) [] end in
  let req_computed := Z.to_nat (num_computed_tokens r) in
  on_coord (co_remove_skipped_blocks (request_id r) req_computed) ;;
  let num_computed := req_computed + num_new_computed_tokens in
  let num_tokens_need_slot :=
    Nat.min (num_computed + num_new_tokens + num_lookahead_tokens) (kvm_max_model_len k) in
  num_blocks_to_allocate ← on_coord (co_get_num_blocks_to_allocate (request_id r) num_tokens_need_slot
    new_computed_block_list num_encoder_tokens);
  num_free ← gets (fun k => get_num_free_blocks (co_pool (coordinator k)));
  if (num_free <? num_blocks_to_allocate)%Z then mret None else
  (if kvm_enable_caching k then on_coord (co_on_pool (touch new_computed_block_list))
   else assertM (negb (any_block new_computed_block_list))) ;;
  on_coord (co_save_new_computed_blocks (request_id r) new_computed_block_list) ;;
  new_blocks ← on_coord (co_allocate_new_blocks (request_id r) num_tokens_need_slot num_encoder_tokens);
  if negb (kvm_enable_caching k) || delay_cache_blocks then mret (Some new_blocks)
  else
    let num_tokens_to_cache := Nat.min (num_computed + num_new_tokens) (num_tokens r) in
    on_coord (co_cache_blocks r num_tokens_to_cache) ;;
    mret (Some new_blocks).

Definition kvm_free (r : Request) : M KVCacheManager unit := on_coord (co_free (request_id r)).

Definition kvm_reset_prefix_cache : M KVCacheManager bool :=
  ok ← on_coord (co_on_pool reset_prefix_cache);
  if negb ok then mret false
  else
    k ← get;
    (if log_stats k then
       match prefix_cache_stats k with
       | None => raise AssertionError
       | Some st => modify (set_stats (Some (mkStats true (st_requests st) (st_queries st) (st_hits st))))
       end
     else mret tt) ;;
    mret true.

Definition kvm_get_num_common_prefix_blocks (r : Request) (num_running_requests : Z)
  : M KVCacheManager (list nat) :=
  assertM (bool_decide (status r = RUNNING)) ;;
  on_coord (co_get_num_common_prefix_blocks (request_id r) num_running_requests).

Definition kvm_take_events : M KVCacheManager (list KVCacheEvent) := on_coord (co_on_pool take_events).

Definition kvm_get_blocks (k : KVCacheManager) (id : string) : KVCacheBlocks :=
  co_get_blocks (coordinator k) id.

Definition kvm_get_block_ids (k : KVCacheManager) (id : string) : option (list (list Z)) :=
  get_block_ids (co_pool (coordinator k)) false (kvm_get_blocks k id).

Definition kvm_cache_blocks (r : Request) (num_computed : nat) : M KVCacheManager unit :=
  k ← get;
  if kvm_enable_caching k then on_coord (co_cache_blocks r num_computed) else mret tt.

(** * Slot allocation *)

Lemma wp_on_coord {A} (m : M Coordinator A) Q E k :
  wp m (fun a c => Q a (set_coordinator c k)) (fun e c => E e (set_coordinator c k)) (coordinator k) ->
  wp (on_coord m) Q E k.
Proof. intros H. apply (wp_zoom coordinator set_coordinator). exact H. Qed.

Lemma wp_co_on_pool {A} (m : M BlockPool A) Q E c :
  wp m (fun a p => Q a (set_pool p c)) (fun e p => E e (set_pool p c)) (co_pool c) -> wp (co_on_pool m) Q E c.
Proof. intros H. apply (wp_zoom co_pool set_pool). exact H. Qed.

Lemma co_touch_spec fl c new E :
  coord_inv no_ref fl c -> (forall b, b ∈ concat new -> in_pool (co_pool c) b) ->
  wp (co_on_pool (touch new)) (fun _ c' =>
    coord_inv (occs (concat new)) (filter (fun b => b ∉ concat new) fl) c' /\
    single_type_managers c' = single_type_managers c /\ co_class c' = co_class c /\
    co_use_eagle c' = co_use_eagle c /\ same_conf (co_pool c) (co_pool c') /\
    (forall b, hashc (co_pool c') b = hashc (co_pool c) b)) E c.
Proof.
  intros Hc Hin. apply wp_co_on_pool.
  eapply wp_mono; [apply (touch_spec _ fl new); [apply Hc|exact Hin]| |intros ? ? HE; exact HE].
  intros [] p' [Hp' (Hconf & Hr & Hh)]. split_and!; try done. destruct Hc as [H1 H2 H3 H4 H5]. split; cbn.
  - done.
  - done.
  - eapply Forall_impl; [exact H3|]. intros m Hm. eapply table_ok_conf; [apply Hconf|exact Hm].
  - intros b Hb H0. rewrite (in_pool_conf _ _ b Hconf) in Hb. rewrite Hr, H4 by done. unfold no_ref, total_refs. lia.
  - intros b. apply occs_nonneg.
Qed.

(** With distinct computed blocks, touching them takes exactly the evictable ones off the free
    queue. *)
Lemma touched_free p fl l :
  pool_ok p fl -> (forall b, b ∈ l -> in_pool p b) -> (forall b, b ∈ l -> b <> Blk 0 -> occ b l = 1) ->
  length (filter (fun b => b ∉ l) fl) + num_evictable p l = length fl.
Proof.
  intros Hp Hin Hone. rewrite (num_evictable_free p fl l Hp Hin).
  assert (Hperm : filter (fun b => b ∈ fl) l ≡ₚ filter (fun b => b ∈ l) fl).
  { apply NoDup_Permutation.
    - apply nodup_occ. intros b [Hfl Hl]%list_elem_of_filter.
      apply (po_free _ _ Hp) in Hfl as (_ & H0 & _). rewrite <-(Hone b Hl H0).
      apply occ_le_sublist, sublist_filter.
    - eapply sublist_NoDup; [apply (fr_nodup _ _ (po_queue _ _ (po_core _ _ Hp)))|apply sublist_filter].
    - intros b. rewrite !list_elem_of_filter. tauto. }
  rewrite Hperm. clear. induction fl as [|b fl IH]; [done|].
  rewrite !filter_cons. repeat case_decide; simpl; try tauto; lia.
Qed.

Lemma num_evictable_app p l1 l2 : num_evictable p (l1 ++ l2) = num_evictable p l1 + num_evictable p l2.
Proof. unfold num_evictable. by rewrite filter_app, length_app. Qed.

(** The blocks group [i] lacks for the asked tokens, negative when it has more than enough. *)
Definition deficit (c : Coordinator) (id : string) (n enc : nat) (new : KVCacheBlocks) (i : nat) : Z :=
  match single_type_managers c !! i with
  | Some m => (required_blocks m (asked m n enc) - Z.of_nat (length (default [] (new !! i)))
               - Z.of_nat (length (blocks_of m id)))%Z
  | None => 0%Z
  end.

Lemma sumz_split c id n enc new k :
  (forall i m, single_type_managers c !! i = Some m -> is_cross m = true -> new !! i = Some []) ->
  k <= length new -> length new = length (single_type_managers c) ->
  sumz (group_need c id n enc new) k =
  (sumz (deficit c id n enc new) k + Z.of_nat (num_evictable (co_pool c) (concat (take k new))))%Z.
Proof.
  intros Hcross. induction k as [|k IH]; intros Hk Hl; [done|]. cbn [sumz]. rewrite IH by lia.
  destruct (lookup_lt_is_Some_2 new k ltac:(lia)) as [nk Hnk].
  destruct (lookup_lt_is_Some_2 (single_type_managers c) k ltac:(lia)) as [m Hm].
  rewrite (take_S_r _ _ _ Hnk), concat_app, num_evictable_app. simpl. rewrite app_nil_r.
  unfold group_need, deficit. rewrite Hm, Hnk. cbn.
  destruct (is_cross m) eqn:Hx; [|lia]. rewrite (Hcross _ _ Hm Hx) in Hnk. simplify_eq. simpl. lia.
Qed.

(** All groups lack blocks, or none does. *)
Definition uniform_sign (f : nat -> Z) (k : nat) : Prop :=
  (forall i, i < k -> (0 <= f i)%Z) \/ (forall i, i < k -> (f i <= 0)%Z).

Lemma sum_missing (f : nat -> Z) (g : nat -> nat) k room :
  (forall i, i < k -> g i = Z.to_nat (f i)) -> uniform_sign f k -> (sumz f k <= Z.of_nat room)%Z ->
  sumn g k <= room.
Proof.
  intros Hg Hs Hle. destruct Hs as [Hs|Hs].
  - assert (Z.of_nat (sumn g k) = sumz f k); [|lia]. clear Hle.
    induction k as [|k IH]; simpl; [done|]. rewrite <-IH by (intros; auto with lia).
    pose proof (Hg k ltac:(lia)). pose proof (Hs k ltac:(lia)). lia.
  - assert (sumn g k = 0); [|lia]. clear Hle. induction k as [|k IH]; simpl; [done|].
    rewrite IH by (intros; auto with lia). pose proof (Hg k ltac:(lia)). pose proof (Hs k ltac:(lia)). lia.
Qed.

Lemma same_shape_lookup c c' i m :
  same_shape c c' -> single_type_managers c !! i = Some m ->
  exists m', single_type_managers c' !! i = Some m' /\ same_mgr m m'.
Proof. intros (_ & _ & _ & H) Hi. destruct (Forall2_lookup_l _ _ _ _ _ H Hi) as (m' & ? & ?). eauto. Qed.

Lemma asked_same m m' n enc : same_mgr m m' -> asked m' n enc = asked m n enc.
Proof. unfold asked, is_cross. by intros (-> & _). Qed.

Lemma group_blocks_lookup c i m id : single_type_managers c !! i = Some m -> group_blocks c i id = blocks_of m id.
Proof. unfold group_blocks. by intros ->. Qed.

(** When two states have managers of the same kind, the deficits differ by the table lengths. *)
Lemma deficit_shape c c' id n enc new i :
  same_shape c c' -> length (group_blocks c' i id) = length (group_blocks c i id) ->
  deficit c' id n enc new i = deficit c id n enc new i.
Proof.
  intros Hs Hl. unfold deficit. destruct (single_type_managers c !! i) as [m|] eqn:Hm.
  - destruct (same_shape_lookup _ _ _ _ Hs Hm) as (m' & Hm' & Hsm). rewrite Hm'.
    rewrite (group_blocks_lookup _ _ _ _ Hm), (group_blocks_lookup _ _ _ _ Hm') in Hl.
    rewrite Hl, (asked_same m m'), (required_same_mgr m m') by done. done.
  - rewrite lookup_ge_None_2; [done|]. rewrite (same_shape_length _ _ Hs). by apply lookup_ge_None.
Qed.

Lemma missing_deficit c c' id n enc new i :
  same_shape c c' -> i < length (single_type_managers c) ->
  length (group_blocks c' i id) = length (group_blocks c i id) + length (default [] (new !! i)) ->
  group_missing c' id n enc i = Z.to_nat (deficit c id n enc new i).
Proof.
  intros Hs Hi Hl. destruct (lookup_lt_is_Some_2 _ _ Hi) as [m Hm].
  destruct (same_shape_lookup _ _ _ _ Hs Hm) as (m' & Hm' & Hsm).
  unfold group_missing, deficit, missing_blocks. rewrite Hm, Hm'.
  rewrite (group_blocks_lookup _ _ _ _ Hm), (group_blocks_lookup _ _ _ _ Hm') in Hl.
  rewrite Hl, (asked_same m m'), (required_same_mgr m m') by done. f_equal. lia.
Qed.

Lemma pruned_length c i id n :
  skip_ready c id n -> length (pruned c i id n) = length (group_blocks c i id).
Proof.
  intros Hr. unfold pruned, group_blocks. destruct (single_type_managers c !! i) as [m|] eqn:Hm; [|done].
  destruct (Hr i m Hm) as [_ Hle]. rewrite length_app, length_replicate, length_drop. lia.
Qed.

(** What [allocate_slots] relies on, for a request with [comp] computed tokens: the tables are in
    the shape the window code expects; the computed blocks, one list per group, are distinct blocks
    of the pool, given only to groups that do not know the request yet; without caching there are
    none; and no group has a surplus of blocks while another one lacks some. *)
Record slots_ready (k : KVCacheManager) (id : string) (comp n enc : nat) (new : KVCacheBlocks) : Prop := {
  sr_skip : skip_ready (coordinator k) id comp;
  sr_len : length new = length (single_type_managers (coordinator k));
  sr_pool : forall b, b ∈ concat new -> in_pool (co_pool (coordinator k)) b;
  sr_once : forall b, b ∈ concat new -> b <> Blk 0 -> occ b (concat new) = 1;
  sr_save : forall i m ni, single_type_managers (coordinator k) !! i = Some m -> new !! i = Some ni ->
    save_ready m id ni;
  sr_caching : kvm_enable_caching k = false -> concat new = [];
  sr_sign : uniform_sign (deficit (coordinator k) id n enc new) (length (single_type_managers (coordinator k)))
}.

(** The total number of blocks the pool must provide, the evictable computed ones included. *)
Definition total_need (c : Coordinator) (id : string) (n enc : nat) (new : KVCacheBlocks) : Z :=
  (sumz (deficit c id n enc new) (length (single_type_managers c))
   + Z.of_nat (num_evictable (co_pool c) (concat new)))%Z.

Lemma concat_elem (new : list (list bref)) i ni b : new !! i = Some ni -> b ∈ ni -> b ∈ concat new.
Proof.
  intros Hi Hb. rewrite list_elem_of_In, in_concat. exists ni. rewrite <-!list_elem_of_In.
  split; [|done]. by apply list_elem_of_lookup_2 in Hi.
Qed.

Lemma concat_occ (new : list (list bref)) i ni b : new !! i = Some ni -> occ b ni <= occ b (concat new).
Proof.
  induction new as [|l new IH] in i |- *; intros Hi; [done|]. simpl. rewrite occ_app.
  destruct i as [|i]; simpl in Hi; [simplify_eq; lia|]. specialize (IH i Hi). lia.
Qed.

Lemma save_ready_cross m id ni : save_ready m id ni -> is_cross m = true -> ni = [].
Proof. unfold save_ready, is_cross. by destruct (mgr_kind m). Qed.

(** Handing over is still possible after the window was pruned. *)
Lemma save_ready_pruned c c' id n new :
  skip_ready c id n -> same_shape c c' -> length new = length (single_type_managers c) ->
  (forall i m ni, single_type_managers c !! i = Some m -> new !! i = Some ni -> save_ready m id ni) ->
  (forall i, length (group_blocks c' i id) = length (group_blocks c i id)) ->
  (forall i, num_cached_block <$> single_type_managers c' !! i = num_cached_block <$> single_type_managers c !! i) ->
  forall i m ni, single_type_managers c' !! i = Some m -> new !! i = Some ni -> save_ready m id ni.
Proof.
  intros Hsk Hs Hl Hsr Hlen Hnc i m' ni Hm' Hni. apply lookup_lt_Some in Hni as Hlt.
  destruct (lookup_lt_is_Some_2 (single_type_managers c) i ltac:(lia)) as [m Hm].
  destruct (same_shape_lookup _ _ _ _ Hs Hm) as (m2 & Hm2 & Hsm).
  assert (m2 = m') as -> by congruence.
  specialize (Hsr i m ni Hm Hni). specialize (Hlen i). specialize (Hnc i).
  rewrite (group_blocks_lookup _ _ _ _ Hm), (group_blocks_lookup _ _ _ _ Hm') in Hlen.
  rewrite Hm, Hm' in Hnc. cbn in Hnc. injection Hnc as Hnc.
  unfold save_ready in *. destruct Hsm as (-> & _). rewrite Hnc.
  destruct (mgr_kind m); try done; destruct (num_cached_block m !! id); try done;
    apply nil_length_inv; rewrite Hlen; by rewrite Hsr.
Qed.

(** ** Taking the computed blocks and new ones *)

(** The coordinator after the blocks [new] and the fresh blocks [nb] were given to request [id]. *)
Record granted (c : Coordinator) (id : string) (n enc : nat) (new nb : KVCacheBlocks) (c' : Coordinator) : Prop := {
  gr_len : length nb = length (single_type_managers c);
  gr_inv : exists fl', coord_inv no_ref fl' c';
  gr_shape : same_shape c c';
  gr_table : forall i, i < length (single_type_managers c) ->
    group_blocks c' i id = group_blocks c i id ++ default [] (new !! i) ++ default [] (nb !! i);
  gr_other : forall i id', id' <> id -> group_blocks c' i id' = group_blocks c i id';
  gr_slots : forall i m, single_type_managers c !! i = Some m ->
    (required_blocks m (asked m n enc) <= Z.of_nat (length (group_blocks c' i id)))%Z;
  gr_num : forall i, i < length (single_type_managers c) ->
    num_cached_block <$> single_type_managers c' !! i = saved_group c id new i;
  gr_nodup : NoDup (concat nb);
  gr_fresh : forall b, b ∈ concat nb -> b <> Blk 0 /\ b ∉ concat new /\ forall i id', b ∉ group_blocks c i id';
  gr_hash : forall b, hashc (co_pool c') b =
    if decide (enable_caching (co_pool c) = true /\ b ∈ concat nb) then None else hashc (co_pool c) b
}.

Lemma total_refs_elem c i id b : b ∈ group_blocks c i id -> 0 < total_refs b (single_type_managers c).
Proof.
  unfold group_blocks, total_refs. destruct (single_type_managers c !! i) as [m|] eqn:Hm; [|by rewrite elem_of_nil].
  unfold blocks_of. destruct (req_to_blocks m !! id) as [l|] eqn:Hl; simpl; [|by rewrite elem_of_nil]. intros Hb.
  pose proof (sum_list_with_elem (fun m => occ_refs b (req_to_blocks m)) _ _ _ Hm). cbn in *.
  assert (0 < occ_refs b (req_to_blocks m)); [|lia]. apply occ_pos, elem_of_refs. eauto.
Qed.

(** A free block is in no table. *)
Lemma free_not_in_table fl c b i id : coord_inv no_ref fl c -> b ∈ fl -> b ∉ group_blocks c i id.
Proof.
  intros Hc (Hin & H0 & Hr)%(po_free _ _ (ci_pool _ _ _ Hc)) Hb%total_refs_elem.
  rewrite (ci_refs _ _ _ Hc b Hin H0) in Hr. unfold no_ref in Hr. lia.
Qed.

Lemma any_block_nil (new : KVCacheBlocks) : concat new = [] -> any_block new = false.
Proof.
  induction new as [|g new IH]; [done|]. simpl. intros [-> Hn]%app_nil. simpl. by apply IH.
Qed.

(** [touch], or nothing when there are no computed blocks and caching is off. *)
Lemma co_take_spec fl c (caching : bool) new E :
  coord_inv no_ref fl c -> (forall b, b ∈ concat new -> in_pool (co_pool c) b) ->
  (caching = false -> concat new = []) ->
  wp (if caching then co_on_pool (touch new) else assertM (negb (any_block new))) (fun _ c' =>
    coord_inv (occs (concat new)) (filter (fun b => b ∉ concat new) fl) c' /\
    single_type_managers c' = single_type_managers c /\ co_class c' = co_class c /\
    co_use_eagle c' = co_use_eagle c /\ same_conf (co_pool c) (co_pool c') /\
    (forall b, hashc (co_pool c') b = hashc (co_pool c) b)) E c.
Proof.
  intros Hc Hin Hno. destruct caching; [by apply co_touch_spec|].
  specialize (Hno eq_refl). rewrite (any_block_nil _ Hno). apply wp_assertM; [done|]. rewrite Hno.
  rewrite filter_all by (intros; apply not_elem_of_nil). split_and!; try done.
Qed.

Lemma same_shape_managers c c' :
  single_type_managers c' = single_type_managers c -> co_class c' = co_class c ->
  co_use_eagle c' = co_use_eagle c -> same_conf (co_pool c) (co_pool c') -> same_shape c c'.
Proof. intros H1 H2 H3 H4. split; [done|]. rewrite H1. by split_and!. Qed.

Lemma group_blocks_managers c c' i id :
  single_type_managers c' = single_type_managers c -> group_blocks c' i id = group_blocks c i id.
Proof. unfold group_blocks. by intros ->. Qed.

(** The computed blocks and the request can be combined: the part of [slots_ready] the grant uses. *)
Record grant_ready (c : Coordinator) (caching : bool) (id : string) (n enc : nat) (new : KVCacheBlocks) : Prop := {
  ga_len : length new = length (single_type_managers c);
  ga_pool : forall b, b ∈ concat new -> in_pool (co_pool c) b;
  ga_once : forall b, b ∈ concat new -> b <> Blk 0 -> occ b (concat new) = 1;
  ga_save : forall i m ni, single_type_managers c !! i = Some m -> new !! i = Some ni -> save_ready m id ni;
  ga_caching : caching = false -> concat new = [];
  ga_sign : uniform_sign (deficit c id n enc new) (length (single_type_managers c))
}.

Lemma co_grant fl c caching id n enc new :
  coord_inv no_ref fl c -> grant_ready c caching id n enc new ->
  (total_need c id n enc new <= Z.of_nat (length fl))%Z ->
  exists c2 c3 nb c4,
    (if caching then co_on_pool (touch new) else assertM (negb (any_block new))) c = (Ok tt, c2) /\
    co_save_new_computed_blocks id new c2 = (Ok tt, c3) /\
    co_allocate_new_blocks id n enc c3 = (Ok nb, c4) /\ granted c id n enc new nb c4.
Proof.
  intros Hc [G1 G2 G3 G4 G5 G6] Hfits.
  destruct (wp_noexc_run _ _ _ (co_take_spec fl c caching new noexc Hc G2 G5))
    as ([] & c2 & Hrun2 & Hc2 & M2 & K2 & U2 & C2 & H2).
  pose proof (same_shape_managers _ _ M2 K2 U2 C2) as S2.
  assert (Hsv : save_all_ready c2 id new).
  { split; [by rewrite M2|]. intros i m ni Hm Hni. rewrite M2 in Hm. split_and!.
    - by eapply G4.
    - intros b Hb. apply (in_pool_conf _ _ _ C2), G2. by eapply concat_elem.
    - intros b Hb H0. pose proof (concat_occ new i ni b Hni). rewrite (G3 b) in H by (by eauto using concat_elem).
      apply occ_pos in Hb. lia. }
  destruct (wp_noexc_run _ _ _ (co_save_spec _ c2 id new noexc Hc2 Hsv))
    as ([] & c3 & Hrun3 & P3 & Hc3 & V3 & T3 & N3).
  rewrite M2 in T3, N3, V3.
  assert (S3 : same_shape c c3) by (etransitivity; [exact S2|apply (vi_shape _ _ _ _ V3)]).
  assert (T3' : forall i, i < length (single_type_managers c) ->
    group_blocks c3 i id = group_blocks c i id ++ default [] (new !! i)).
  { intros i Hi. rewrite T3 by done. by rewrite (group_blocks_managers _ _ _ _ M2). }
  set (N := length (single_type_managers c)) in *.
  assert (Hmiss : forall i, i < N -> group_missing c3 id n enc i = Z.to_nat (deficit c id n enc new i)).
  { intros i Hi. apply missing_deficit; [done|done|]. rewrite T3' by done. by rewrite length_app. }
  pose proof (same_shape_length _ _ S3) as L3. fold N in L3.
  assert (Hroom : sumn (group_missing c3 id n enc) N <= length (filter (fun b => b ∉ concat new) fl)).
  { apply (sum_missing (deficit c id n enc new)); [done|done|].
    pose proof (touched_free _ _ (concat new) (ci_pool _ _ _ Hc) G2 G3). unfold total_need in Hfits.
    fold N in Hfits. lia. }
  rewrite <-L3 in Hroom.
  destruct (wp_noexc_run _ _ _ (co_allocate_spec _ _ c3 id n enc noexc Hc3 Hroom))
    as (nb & c4 & Hrun4 & L4 & F4 & Hc4 & V4 & T4 & N4 & H4).
  rewrite L3 in L4, V4.
  assert (Htab : forall i, i < N ->
    group_blocks c4 i id = group_blocks c i id ++ default [] (new !! i) ++ default [] (nb !! i) /\
    length (default [] (nb !! i)) = Z.to_nat (deficit c id n enc new i)).
  { intros i Hi. destruct (lookup_lt_is_Some_2 nb i ltac:(lia)) as [ni Hni].
    destruct (T4 i ni Hni) as [E1 E2]. rewrite Hni. change (default [] (Some ni)) with ni. rewrite E1, E2, T3', <-app_assoc by done.
    by rewrite Hmiss. }
  exists c2, c3, nb, c4. split_and!; [done..|]. split.
  - done.
  - by eexists.
  - etransitivity; [exact S3|apply (vi_shape _ _ _ _ V4)].
  - intros i Hi. by apply Htab.
  - intros i id' Hne. rewrite (vi_other _ _ _ _ V4), (vi_other _ _ _ _ V3) by done.
    by apply group_blocks_managers.
  - intros i m Hm. pose proof (lookup_lt_Some _ _ _ Hm) as Hi. fold N in Hi. destruct (Htab i Hi) as [-> Hl].
    rewrite !length_app, Hl. unfold deficit. rewrite Hm, (group_blocks_lookup _ _ _ _ Hm). lia.
  - intros i Hi. rewrite N4, N3 by done. unfold saved_group. by rewrite M2.
  - pose proof (fr_nodup _ _ (po_queue _ _ (po_core _ _ (ci_pool _ _ _ Hc3)))) as Hnd.
    rewrite F4 in Hnd. by apply NoDup_app in Hnd as (? & _ & _).
  - intros b Hb.
    assert (b ∈ filter (fun b => b ∉ concat new) fl) as Hbf by (rewrite F4; apply elem_of_app; by left).
    apply list_elem_of_filter in Hbf as [Hnn Hfl]. split_and!; [|done|].
    + by apply (po_free _ _ (ci_pool _ _ _ Hc)) in Hfl as (_ & ? & _).
    + intros i id'. by eapply free_not_in_table.
  - intros b. rewrite H4, P3, H2. destruct C2 as (_ & -> & _). done.
Qed.

(** ** Publishing the full blocks *)

(** The blocks of group [i] without a hash once [new] is in the table pruned for [comp] tokens. *)
Definition unpublished (c : Coordinator) (id : string) (comp : nat) (new : KVCacheBlocks) (i : nat) : list bref :=
  match single_type_managers c !! i with
  | Some m =>
      match saved_num m id (default [] (new !! i)) !! id with
      | Some nc => drop nc (pruned c i id comp ++ default [] (new !! i))
      | None => []
      end
  | None => []
  end.

(** What caching the first [nt] tokens relies on: events are off, no group is cross-attention, the
    request has a hash for every full block, and the table entries behind the cached ones are
    blocks without a hash that belong to one group. *)
Record publish_ready (c : Coordinator) (r : Request) (comp nt : nat) (new : KVCacheBlocks) : Prop := {
  pb_events : enable_kv_cache_events (co_pool c) = false;
  pb_caching : enable_caching (co_pool c) = true;
  pb_mgr : forall i m, single_type_managers c !! i = Some m ->
    mgr_kind m <> CrossAttentionManager /\ (0 <= kv_cache_group_id m < 2 ^ 32)%Z /\
    nt / mgr_block_size m <= length (block_hashes r) /\
    exists nc, saved_num m (request_id r) (default [] (new !! i)) !! request_id r = Some nc /\
      nc <= nt / mgr_block_size m;
  pb_new : forall i b, b ∈ unpublished c (request_id r) comp new i -> b <> Blk 0 /\ hashc (co_pool c) b = None;
  pb_disj : forall i j b, b ∈ unpublished c (request_id r) comp new i ->
    b ∈ unpublished c (request_id r) comp new j -> i = j
}.

Lemma elem_drop_app {A} k (l1 l2 : list A) x : x ∈ drop k (l1 ++ l2) -> x ∈ drop k l1 \/ x ∈ l2.
Proof.
  rewrite drop_app, elem_of_app. intros [|H]; [by left|right]. eapply elem_of_submseteq; [exact H|].
  apply sublist_submseteq, sublist_drop.
Qed.

Lemma saved_num_same m m' id new :
  same_mgr m m' -> num_cached_block m' = num_cached_block m -> saved_num m' id new = saved_num m id new.
Proof. intros (Hk & _) Hn. unfold saved_num. by rewrite Hk, Hn. Qed.

Lemma nodup_concat_index (nb : list (list bref)) i j ni nj b :
  NoDup (concat nb) -> nb !! i = Some ni -> nb !! j = Some nj -> b ∈ ni -> b ∈ nj -> i = j.
Proof.
  induction nb as [|l nb IH] in i, j |- *; [done|]. simpl. intros (_ & Hd & Hn)%NoDup_app Hi Hj Hbi Hbj.
  destruct i as [|i], j as [|j]; simpl in *; simplify_eq.
  - done.
  - destruct (Hd b Hbi). by eapply concat_elem.
  - destruct (Hd b Hbj). by eapply concat_elem.
  - f_equal. by eapply IH.
Qed.

(** The state in which the new blocks are published: [c] before pruning, [c1] after it, [c4] after
    the grant. *)
Section publish.
Context (c c1 c4 : Coordinator) (r : Request) (comp n enc nt : nat) (new nb : KVCacheBlocks).
Abbreviation id := (request_id r).
Hypothesis Hp : publish_ready c r comp nt new.
Hypothesis Hs1 : same_shape c c1.
Hypothesis Ht1 : forall i, i < length (single_type_managers c) -> group_blocks c1 i id = pruned c i id comp.
Hypothesis Hn1 : forall i,
  num_cached_block <$> single_type_managers c1 !! i = num_cached_block <$> single_type_managers c !! i.
Hypothesis Hh1 : forall b, hashc (co_pool c1) b = hashc (co_pool c) b.
Hypothesis Hg : granted c1 id n enc new nb c4.

Lemma granted_shape : same_shape c c4.
Proof. etransitivity; [exact Hs1|apply Hg]. Qed.

Lemma granted_manager i m4 :
  single_type_managers c4 !! i = Some m4 -> exists m, single_type_managers c !! i = Some m /\ same_mgr m m4 /\
    num_cached_block m4 = saved_num m id (default [] (new !! i)).
Proof.
  intros Hm4. destruct (lookup_lt_is_Some_2 (single_type_managers c) i) as [m Hm].
  { apply lookup_lt_Some in Hm4. by rewrite (same_shape_length _ _ granted_shape) in Hm4. }
  destruct (same_shape_lookup _ _ _ _ granted_shape Hm) as (m4' & Hm4' & Hsm4).
  assert (m4' = m4) as -> by congruence. exists m. split_and!; [done..|].
  apply lookup_lt_Some in Hm as Hi. rewrite <-(same_shape_length _ _ Hs1) in Hi.
  pose proof (gr_num _ _ _ _ _ _ _ Hg i Hi) as Hk. unfold saved_group in Hk.
  destruct (same_shape_lookup _ _ _ _ Hs1 Hm) as (m1 & Hm1 & Hsm). specialize (Hn1 i).
  rewrite Hm4, Hm1 in Hk. rewrite Hm1, Hm in Hn1. cbn in Hk, Hn1. injection Hk as ->. injection Hn1 as Hn1'.
  by apply saved_num_same.
Qed.

(** A block that becomes full was unpublished, or is fresh. *)
Lemma granted_newly_full i b :
  b ∈ newly_full c4 id nt i -> b ∈ unpublished c id comp new i \/ exists ni, nb !! i = Some ni /\ b ∈ ni.
Proof.
  unfold newly_full, unpublished. destruct (single_type_managers c4 !! i) as [m4|] eqn:Hm4; [|by rewrite elem_of_nil].
  destruct (granted_manager _ _ Hm4) as (m & Hm & _ & Hnc). rewrite Hm, Hnc.
  destruct (saved_num m id _ !! id) as [nc|]; [|by rewrite elem_of_nil]. intros Hb. apply lookup_lt_Some in Hm as Hi.
  assert (b ∈ drop nc (blocks_of m4 id)) as Hb'.
  { eapply elem_of_submseteq; [exact Hb|apply sublist_submseteq, sublist_take]. }
  rewrite <-(group_blocks_lookup _ _ _ _ Hm4), (gr_table _ _ _ _ _ _ _ Hg), Ht1, app_assoc in Hb'
    by (try rewrite (same_shape_length _ _ Hs1); lia).
  apply elem_drop_app in Hb' as [?|Hbn]; [by left|right]. destruct (nb !! i); [eauto|by apply elem_of_nil in Hbn].
Qed.

Lemma unpublished_not_fresh i b : b ∈ unpublished c id comp new i -> b ∉ concat nb.
Proof.
  intros Hb Hc. destruct (gr_fresh _ _ _ _ _ _ _ Hg b Hc) as (_ & Hn & Ht).
  unfold unpublished in Hb. destruct (single_type_managers c !! i) as [m|] eqn:Hm; [|by apply elem_of_nil in Hb].
  destruct (saved_num m id _ !! id) as [nc|]; [|by apply elem_of_nil in Hb].
  apply lookup_lt_Some in Hm. rewrite <-Ht1 in Hb by done.
  eapply elem_of_submseteq in Hb; [|apply sublist_submseteq, sublist_drop].
  apply elem_of_app in Hb as [Hb|Hb]; [by eapply Ht|]. apply Hn.
  destruct (new !! i) as [ni|] eqn:Hni; [by eapply concat_elem|by apply elem_of_nil in Hb].
Qed.

Lemma granted_cache_ready : cache_ready c4 r nt.
Proof.
  split.
  - destruct granted_shape as ((_ & _ & _ & E & _) & _). rewrite E. apply Hp.
  - intros i m4 Hm4. destruct (granted_manager _ _ Hm4) as (m & Hm & (-> & -> & _ & ->) & ->).
    by apply (pb_mgr _ _ _ _ _ Hp).
  - intros i b [Hb|(ni & Hni & Hb)]%granted_newly_full.
    + destruct (pb_new _ _ _ _ _ Hp i b Hb) as [H0 Hh]. split; [done|].
      rewrite (gr_hash _ _ _ _ _ _ _ Hg). case_decide; [done|]. by rewrite Hh1.
    + pose proof (concat_elem _ _ _ _ Hni Hb) as Hbc. destruct (gr_fresh _ _ _ _ _ _ _ Hg b Hbc) as (H0 & _).
      split; [done|]. rewrite (gr_hash _ _ _ _ _ _ _ Hg), decide_True; [done|]. split; [|done].
      destruct Hs1 as ((_ & E & _) & _). rewrite E. apply Hp.
  - intros i j b Hi Hj.
    destruct (granted_newly_full _ _ Hi) as [Hi'|(ni & Hni & Hbi)],
      (granted_newly_full _ _ Hj) as [Hj'|(nj & Hnj & Hbj)].
    + by eapply (pb_disj _ _ _ _ _ Hp).
    + exfalso. eapply unpublished_not_fresh; [exact Hi'|]. by eapply concat_elem.
    + exfalso. eapply unpublished_not_fresh; [exact Hj'|]. by eapply concat_elem.
    + eapply nodup_concat_index; [apply Hg|done..].
Qed.
End publish.

(** ** [allocate_slots] *)

(** The flags the manager and its pool share. *)
Definition flags_agree (k : KVCacheManager) : Prop :=
  enable_caching (co_pool (coordinator k)) = kvm_enable_caching k.

(** What publishing the first [nt] tokens did: the blocks that were full and unhashed now hold the
    request's hashes under their group's id. *)
Definition published (c4 c5 : Coordinator) (r : Request) (nt : nat) : Prop :=
  forall i m, single_type_managers c4 !! i = Some m ->
    hashes_set (kv_cache_group_id m) (drop (default 0 (num_cached_block m !! request_id r)) (block_hashes r))
      (newly_full c4 (request_id r) nt i) (co_pool c5).

Lemma count_group_need c id n enc new :
  (forall i m ni, single_type_managers c !! i = Some m -> new !! i = Some ni -> save_ready m id ni) ->
  length new = length (single_type_managers c) ->
  sumz (group_need c id n enc new) (length (single_type_managers c)) = total_need c id n enc new.
Proof.
  intros Hsr Hl. rewrite sumz_split; [|intros i m Hm Hx|lia|done].
  - rewrite take_ge by lia. done.
  - destruct (lookup_lt_is_Some_2 new i) as [ni Hni]; [rewrite Hl; by eapply lookup_lt_Some|].
    rewrite Hni. f_equal. eapply save_ready_cross; eauto.
Qed.

(** After pruning and counting, the computed blocks and the request still combine. *)
Lemma slots_grant_ready k c1 id comp n enc new :
  slots_ready k id comp n enc new -> same_shape (coordinator k) c1 ->
  (forall i, length (group_blocks c1 i id) = length (group_blocks (coordinator k) i id)) ->
  (forall i, num_cached_block <$> single_type_managers c1 !! i =
             num_cached_block <$> single_type_managers (coordinator k) !! i) ->
  grant_ready c1 (kvm_enable_caching k) id n enc new.
Proof.
  intros [H1 H2 H3 H4 H5 H6 H7] Hs Hl Hn. pose proof (same_shape_length _ _ Hs) as L. split.
  - congruence.
  - intros b Hb. apply (in_pool_conf (co_pool (coordinator k))); [apply Hs|auto].
  - done.
  - by eapply save_ready_pruned.
  - done.
  - rewrite L. destruct H7 as [H7|H7]; [left|right]; intros i Hi; rewrite (deficit_shape (coordinator k)) by done; auto.
Qed.

Lemma num_free_length fl c extra : coord_inv extra fl c -> get_num_free_blocks (co_pool c) = Z.of_nat (length fl).
Proof. intros Hc. apply (fr_num _ _ (po_queue _ _ (po_core _ _ (ci_pool _ _ _ Hc)))). Qed.

(** The state after [remove_skipped_blocks] and the count of missing blocks. *)
Lemma prune_and_count k fl id comp n enc new :
  coord_inv no_ref fl (coordinator k) -> slots_ready k id comp n enc new ->
  exists fl1 c0 c1,
    co_remove_skipped_blocks id comp (coordinator k) = (Ok tt, c0) /\
    co_get_num_blocks_to_allocate id n new enc c0 = (Ok (total_need c0 id n enc new), c1) /\
    co_pool c1 = co_pool c0 /\ coord_inv no_ref fl1 c1 /\ same_shape (coordinator k) c1 /\
    grant_ready c1 (kvm_enable_caching k) id n enc new /\ total_need c1 id n enc new = total_need c0 id n enc new /\
    (forall i, i < length (single_type_managers (coordinator k)) ->
       group_blocks c1 i id = pruned (coordinator k) i id comp) /\
    (forall i id', id' <> id -> group_blocks c1 i id' = group_blocks (coordinator k) i id') /\
    (forall i, num_cached_block <$> single_type_managers c1 !! i =
               num_cached_block <$> single_type_managers (coordinator k) !! i) /\
    (forall b, hashc (co_pool c1) b = hashc (co_pool (coordinator k)) b).
Proof.
  intros Hc Hr. set (c := coordinator k) in *.
  destruct (wp_noexc_run _ _ _ (co_remove_skipped_spec _ _ c id comp noexc Hc (sr_skip _ _ _ _ _ _ Hr)))
    as ([] & c0 & Hrun0 & (rel & Hc0) & V0 & T0 & N0 & H0).
  pose proof (vi_shape _ _ _ _ V0) as S0. pose proof (same_shape_length _ _ S0) as L0.
  assert (Hlen0 : forall i, length (group_blocks c0 i id) = length (group_blocks c i id)).
  { intros i. destruct (decide (i < length (single_type_managers c))) as [Hi|Hi].
    - rewrite T0 by done. apply pruned_length, Hr.
    - unfold group_blocks. rewrite !lookup_ge_None_2 by lia. done. }
  pose proof (slots_grant_ready k c0 id comp n enc new Hr S0 Hlen0 N0) as G0.
  destruct (wp_noexc_run _ _ _ (co_get_num_spec _ _ c0 id n enc new noexc Hc0 (ga_len _ _ _ _ _ _ G0)))
    as (need & c1 & Hrun1 & -> & P1 & Hc1 & V1 & T1 & N1).
  pose proof (vi_shape _ _ _ _ V1) as S1. pose proof (same_shape_length _ _ S1) as L1.
  rewrite (count_group_need c0 id n enc new (ga_save _ _ _ _ _ _ G0) (ga_len _ _ _ _ _ _ G0)) in Hrun1.
  assert (S : same_shape c c1) by (by etransitivity).
  exists (fl ++ rel), c0, c1. split_and!; try done.
  - apply slots_grant_ready with comp; [done|done| |].
    + intros i. by rewrite T1.
    + intros i. by rewrite N1.
  - unfold total_need. rewrite P1, L1. f_equal. apply sumz_ext. intros i Hi. apply deficit_shape; [done|by rewrite T1].
  - intros i Hi. by rewrite T1, T0.
  - intros i id' Hne. by rewrite (vi_other _ _ _ _ V1), (vi_other _ _ _ _ V0).
  - intros i. by rewrite N1, N0.
  - intros b. by rewrite P1.
Qed.

Lemma run_bind {S A B} (m : M S A) (k : A -> M S B) s a s' : m s = (Ok a, s') -> (m ≫= k) s = k a s'.
Proof. intros H. unfold mbind, M_bind. by rewrite H. Qed.

Lemma run_on_coord {A} (m : M Coordinator A) k o c : m (coordinator k) = (o, c) -> on_coord m k = (o, set_coordinator c k).
Proof. intros H. unfold on_coord, zoom. by rewrite H. Qed.

Lemma run_take (caching : bool) new k c1 c2 :
  (if caching then co_on_pool (touch new) else assertM (negb (any_block new))) c1 = (Ok tt, c2) ->
  (if caching then on_coord (co_on_pool (touch new)) else assertM (negb (any_block new))) (set_coordinator c1 k)
  = (Ok tt, set_coordinator c2 k).
Proof.
  destruct caching; intros H.
  - apply run_on_coord with (k := set_coordinator c1 k). exact H.
  - destruct (negb (any_block new)); [|done]. cbn in H. by injection H as <-.
Qed.

(** The arguments and the state [allocate_slots] is called in. *)
Record alloc_contract (k : KVCacheManager) (r : Request) (num_new num_hit : nat) (hits : option KVCacheBlocks)
    (lookahead : nat) (delay : bool) (enc : nat) : Prop := {
  al_new : 0 < num_new;
  al_slots : slots_ready k (request_id r) (Z.to_nat (num_computed_tokens r))
    (Nat.min (Z.to_nat (num_computed_tokens r) + num_hit + num_new + lookahead) (kvm_max_model_len k)) enc
    (default (replicate (num_kv_cache_groups k) []) hits);
  al_publish : kvm_enable_caching k = true -> delay = false ->
    publish_ready (coordinator k) r (Z.to_nat (num_computed_tokens r))
      (Nat.min (Z.to_nat (num_computed_tokens r) + num_hit + num_new) (num_tokens r))
      (default (replicate (num_kv_cache_groups k) []) hits)
}.

Lemma allocate_slots_spec k fl r num_new num_hit hits lookahead (delay : bool) enc :
  let c := coordinator k in
  let id := request_id r in
  let comp := Z.to_nat (num_computed_tokens r) in
  let n := Nat.min (comp + num_hit + num_new + lookahead) (kvm_max_model_len k) in
  let nt := Nat.min (comp + num_hit + num_new) (num_tokens r) in
  let new := default (replicate (num_kv_cache_groups k) []) hits in
  alloc_contract k r num_new num_hit hits lookahead delay enc -> coord_inv no_ref fl c ->
  exists c1 fl1, coord_inv no_ref fl1 c1 /\ same_shape c c1 /\
    (forall i, i < length (single_type_managers c) -> group_blocks c1 i id = pruned c i id comp) /\
    (forall i id', id' <> id -> group_blocks c1 i id' = group_blocks c i id') /\
    if (Z.of_nat (length fl1) <? total_need c1 id n enc new)%Z
    then allocate_slots r num_new num_hit hits lookahead delay enc k = (Ok None, set_coordinator c1 k)
    else exists nb c4 c5,
      allocate_slots r num_new num_hit hits lookahead delay enc k = (Ok (Some nb), set_coordinator c5 k) /\
      granted c1 id n enc new nb c4 /\
      (exists fl5, coord_inv no_ref fl5 c5) /\ (forall i id', group_blocks c5 i id' = group_blocks c4 i id') /\
      num_gpu_blocks (co_pool c5) = num_gpu_blocks (co_pool c4) /\
      (kvm_enable_caching k = true -> delay = false -> published c4 c5 r nt).
Proof.
  intros c id comp n nt new [Hnew Hr Hpub] Hc. fold c id comp n nt new in Hr, Hpub.
  destruct (prune_and_count k fl id comp n enc new Hc Hr)
    as (fl1 & c0 & c1 & R0 & R1 & P1 & Hc1 & S1 & G1 & E1 & T1 & O1 & N1 & H1).
  exists c1, fl1. split_and!; [done..|].
  unfold allocate_slots. rewrite (proj2 (Nat.eqb_neq num_new 0)) by lia.
  rewrite (run_bind get _ k k k) by done. fold comp id.
  rewrite (run_bind _ _ _ _ _ (run_on_coord _ _ _ _ R0)). cbn zeta. fold n nt.
  change (match hits with Some bs => bs | None => replicate (num_kv_cache_groups k) [] end) with new.
  rewrite (run_bind _ _ _ _ _ (run_on_coord _ (set_coordinator c0 k) _ _ R1)).
  rewrite (run_bind (gets _) _ _ (get_num_free_blocks (co_pool c1)) _) by done.
  rewrite (num_free_length _ _ _ Hc1), <-E1. destruct (_ <? _)%Z eqn:Hfit; [done|]. apply Z.ltb_ge in Hfit.
  destruct (co_grant fl1 c1 _ id n enc new Hc1 G1 Hfit) as (c2 & c3 & nb & c4 & R2 & R3 & R4 & Hg).
  rewrite (run_bind _ _ _ _ _ (run_take _ _ k _ _ R2)).
  rewrite (run_bind _ _ _ _ _ (run_on_coord _ (set_coordinator c2 k) _ _ R3)).
  rewrite (run_bind _ _ _ _ _ (run_on_coord _ (set_coordinator c3 k) _ _ R4)).
  change (kvm_enable_caching (set_coordinator _ _)) with (kvm_enable_caching k).
  destruct (negb (kvm_enable_caching k) || delay) eqn:Hskip.
  - exists nb, c4, c4. split_and!; [done|done|apply Hg|done|done|]. intros Hcache ->. by rewrite Hcache in Hskip.
  - apply orb_false_iff in Hskip as [Hcache%negb_false_iff ->]. specialize (Hpub Hcache eq_refl).
    destruct (gr_inv _ _ _ _ _ _ _ Hg) as (fl4 & Hc4).
    pose proof (granted_cache_ready c c1 c4 r comp n enc nt new nb Hpub S1 T1 N1 H1 Hg) as Hready.
    destruct (wp_noexc_run _ _ _ (co_cache_spec _ _ c4 r nt noexc Hc4 Hready))
      as ([] & c5 & R5 & Hc5 & V5 & T5 & _ & Hset & _).
    rewrite (run_bind _ _ _ _ _ (run_on_coord _ (set_coordinator c4 k) _ _ R5)).
    exists nb, c4, c5. split_and!; [done|done|by eexists|done|apply (vi_shape _ _ _ _ V5)|]. intros _ _. exact Hset.
Qed.

(** C3: Allocating slots for a request.  With the tables in shape and no group holding a surplus
    while another lacks blocks, [allocate_slots] first prunes the request's tables; it then returns
    [None] exactly when the blocks the groups lack plus the evictable computed blocks exceed the
    free ones, and otherwise appends the computed blocks and fresh blocks to the request's tables,
    so that every group has a slot for every token, no fresh block was in use, the tables of other
    requests are as before, the reference counts are exact, and with caching every block that became
    full holds the request's hash.  It never raises. *)
Theorem allocate_slots_correct k fl r num_new num_hit hits lookahead (delay : bool) enc :
  let c := coordinator k in
  let id := request_id r in
  let comp := Z.to_nat (num_computed_tokens r) in
  let n := Nat.min (comp + num_hit + num_new + lookahead) (kvm_max_model_len k) in
  let nt := Nat.min (comp + num_hit + num_new) (num_tokens r) in
  let new := default (replicate (num_kv_cache_groups k) []) hits in
  alloc_contract k r num_new num_hit hits lookahead delay enc -> coord_inv no_ref fl c ->
  exists c1 fl1, coord_inv no_ref fl1 c1 /\ same_shape c c1 /\
    (forall i, i < length (single_type_managers c) -> group_blocks c1 i id = pruned c i id comp) /\
    (forall i id', id' <> id -> group_blocks c1 i id' = group_blocks c i id') /\
    if (Z.of_nat (length fl1) <? total_need c1 id n enc new)%Z
    then allocate_slots r num_new num_hit hits lookahead delay enc k = (Ok None, set_coordinator c1 k)
    else exists nb c4 c5,
      allocate_slots r num_new num_hit hits lookahead delay enc k = (Ok (Some nb), set_coordinator c5 k) /\
      granted c1 id n enc new nb c4 /\
      (exists fl5, coord_inv no_ref fl5 c5) /\ (forall i id', group_blocks c5 i id' = group_blocks c4 i id') /\
      num_gpu_blocks (co_pool c5) = num_gpu_blocks (co_pool c4) /\
      (kvm_enable_caching k = true -> delay = false -> published c4 c5 r nt).
Proof. apply allocate_slots_spec. Qed.

(** * Construction *)

Lemma make_managers_fresh p dcp gs : forall i ms,
  null_block p = Blk 0 -> make_managers p dcp i gs = Ok ms ->
  length ms = length gs /\ Forall (fun m => mgr_null_block m = Blk 0 /\ req_to_blocks m = ∅ /\ num_cached_block m = ∅) ms.
Proof.
  induction gs as [|g gs IH]; intros i ms Hn Hm; [by injection Hm as <-|].
  apply bind_Ok in Hm as (m & Hm & (ms' & Hms & [= <-])%bind_Ok).
  destruct (IH _ _ Hn Hms) as [IH1 IH2]. split; [simpl; by rewrite IH1|]. constructor; [|done].
  unfold manager_init in Hm. apply bind_Ok in Hm as (c & _ & [= <-]). done.
Qed.

(** A new coordinator has every block but the null block free and empty tables. *)
Lemma coordinator_init_inv cfg e caching events ui dcp cls c :
  coordinator_init cfg e caching events ui dcp cls = Ok c ->
  coord_inv no_ref (Blk <$> seq 1 (Z.to_nat (num_blocks cfg) - 1)) c /\
  length (single_type_managers c) = length (kv_cache_groups cfg) /\
  (forall i id, group_blocks c i id = []) /\ num_gpu_blocks (co_pool c) = Z.to_nat (num_blocks cfg) /\
  enable_caching (co_pool c) = caching /\ co_class c = cls.
Proof.
  intros (p & Hp & (ms & Hms & [= <-])%bind_Ok)%bind_Ok.
  assert (0 < Z.to_nat (num_blocks cfg)) as Hpos.
  { unfold pool_init in Hp. destruct (Nat.ltb_spec 0 (Z.to_nat (num_blocks cfg))); [done|]. done. }
  destruct (pool_init_spec _ caching events ui Hpos) as (p' & Hp' & Hok & Hnum & Hca & _ & Hz).
  rewrite Hp in Hp'. injection Hp' as <-.
  destruct (make_managers_fresh p dcp _ 0 ms (po_null _ _ (po_core _ _ Hok)) Hms) as [Hlen Hfresh].
  rewrite Forall_forall in Hfresh.
  assert (Href : forall b, total_refs b ms = 0).
  { intros b. unfold total_refs. clear -Hfresh. induction ms as [|m ms IH]; [done|]. simpl.
    destruct (Hfresh m ltac:(by left)) as (_ & -> & _). rewrite IH by (intros; apply Hfresh; by right).
    unfold occ_refs, refs_of. by rewrite map_to_list_empty. }
  split_and!; try done.
  - split; cbn [co_pool single_type_managers].
    + done.
    + apply Forall_forall. intros m Hm. by apply Hfresh.
    + apply Forall_forall. intros m Hm id l Hl. destruct (Hfresh m Hm) as (_ & E & _). by rewrite E, lookup_empty in Hl.
    + intros b (i & -> & Hi) H0. rewrite Href. by destruct (Hz i) as [-> _].
    + done.
  - intros i id. unfold group_blocks. cbn. destruct (ms !! i) as [m|] eqn:Hm; [|done].
    apply list_elem_of_lookup_2 in Hm. destruct (Hfresh m Hm) as (_ & E & _).
    unfold blocks_of. by rewrite E, lookup_empty.
Qed.

Lemma get_coordinator_inv cfg e caching events ui dcp c :
  get_kv_cache_coordinator cfg e caching events ui dcp = Ok c ->
  coord_inv no_ref (Blk <$> seq 1 (Z.to_nat (num_blocks cfg) - 1)) c /\
  length (single_type_managers c) = length (kv_cache_groups cfg) /\
  (forall i id, group_blocks c i id = []) /\ num_gpu_blocks (co_pool c) = Z.to_nat (num_blocks cfg) /\
  enable_caching (co_pool c) = caching.
Proof.
  unfold get_kv_cache_coordinator. intros H.
  assert (Hcase : exists cls c', coordinator_init cfg e caching events ui dcp cls = Ok c' /\
    co_pool c = co_pool c' /\ single_type_managers c = single_type_managers c').
  { destruct caching; simpl in H; [|by eauto].
    destruct (kv_cache_groups cfg) as [|g [|g' gs]]; [|by eauto|];
      apply bind_Ok in H as (c' & Hc' & (_ & _ & (sp & _ & [= <-])%bind_Ok)%bind_Ok); eauto. }
  destruct Hcase as (cls & c' & Hc' & Hp & Hm).
  destruct (coordinator_init_inv _ _ _ _ _ _ _ _ Hc') as (Hi & Hl & Hg & Hn & Hca & _).
  split_and!.
  - destruct Hi as [I1 I2 I3 I4 I5]. split; rewrite ?Hp, ?Hm; done.
  - by rewrite Hm.
  - intros i id. rewrite <-(Hg i id). by apply group_blocks_managers.
  - by rewrite Hp.
  - by rewrite Hp.
Qed.

Lemma kvm_init_coordinator cfg max_len caching eagle log events ui dcp k :
  kvm_init cfg max_len caching eagle log events ui dcp = Ok k ->
  get_kv_cache_coordinator cfg eagle caching events ui dcp = Ok (coordinator k).
Proof. intros (bs & _ & (c & Hc & [= <-])%bind_Ok)%bind_Ok. exact Hc. Qed.

(** * Reachable managers *)

(** One call of the scheduler: allocation in contract, freeing, a prefix-cache reset, a lookup or a
    statistics call. *)
Inductive kvm_step (k : KVCacheManager) : KVCacheManager -> Prop :=
| step_allocate r num_new num_hit hits lookahead delay enc o k' :
    alloc_contract k r num_new num_hit hits lookahead delay enc ->
    allocate_slots r num_new num_hit hits lookahead delay enc k = (o, k') -> kvm_step k k'
| step_kvm_free r o k' : kvm_free r k = (o, k') -> kvm_step k k'
| step_kvm_reset o k' : kvm_reset_prefix_cache k = (o, k') -> kvm_step k k'
| step_lookup r o k' : get_computed_blocks r k = (o, k') -> kvm_step k k'
| step_stats o k' : make_prefix_cache_stats k = (o, k') -> kvm_step k k'.

Definition kvm_inv (num : nat) (k : KVCacheManager) : Prop :=
  num_gpu_blocks (co_pool (coordinator k)) = num /\ exists fl, coord_inv no_ref fl (coordinator k).

Lemma co_reset_inv fl c E :
  coord_inv no_ref fl c ->
  wp (co_on_pool reset_prefix_cache) (fun _ c' => coord_inv no_ref fl c' /\ num_gpu_blocks (co_pool c') = num_gpu_blocks (co_pool c)) E c.
Proof.
  intros Hc. apply wp_co_on_pool. eapply wp_mono; [apply (reset_prefix_cache_spec _ fl), Hc| |intros ? ? H; exact H].
  intros b p' [_ Hb]. destruct b; [|subst p'; by destruct c].
  destruct Hb as (Hp & (Hconf & Hr & _) & _). destruct Hc as [I1 I2 I3 I4 I5]. split; [split|apply Hconf]; try done.
  - eapply Forall_impl; [exact I3|]. intros m Hm. eapply table_ok_conf; [apply Hconf|exact Hm].
  - intros b Hb H0. apply (in_pool_conf _ _ _ Hconf) in Hb. cbn [co_pool set_pool].
    rewrite Hr, I4 by done. cbn [single_type_managers set_pool]. unfold no_ref. lia.
Qed.

Lemma kvm_lookup_coordinator r k o k' : get_computed_blocks r k = (o, k') -> coordinator k' = coordinator k.
Proof.
  unfold get_computed_blocks, get, lift_out, mbind, M_bind, mret, M_ret, raise, modify.
  destruct (negb _ || _); [by intros [= _ <-]|]. destruct (co_find_longest_cache_hit _ _ _) as [[computed nc]|e]; [|by intros [= _ <-]].
  destruct (log_stats k); [|by intros [= _ <-]]. destruct (prefix_cache_stats k); by intros [= _ <-].
Qed.

Lemma kvm_reset_inv num k o k' : kvm_reset_prefix_cache k = (o, k') -> kvm_inv num k -> kvm_inv num k'.
Proof.
  intros H [Hn (fl & Hc)]. destruct (wp_noexc_run _ _ _ (co_reset_inv fl _ noexc Hc)) as (b & c' & Hrun & Hc' & Hn').
  unfold kvm_reset_prefix_cache in H. rewrite (run_bind _ _ _ _ _ (run_on_coord _ k _ _ Hrun)) in H.
  assert (coordinator k' = c') as E; [|split; rewrite ?E; [congruence|eauto]].
  revert H. destruct (negb b); [by intros [= _ <-]|].
  unfold get, mbind, M_bind, mret, M_ret, raise, modify. destruct (log_stats _); [|by intros [= _ <-]].
  destruct (prefix_cache_stats _); by intros [= _ <-].
Qed.

Lemma kvm_step_inv num k k' : kvm_step k k' -> kvm_inv num k -> kvm_inv num k'.
Proof.
  intros [r num_new num_hit hits la delay enc o k2 Hcon Hrun|r o k2 Hrun|o k2 Hrun|r o k2 Hrun|o k2 Hrun] Hk;
    [| | |unfold kvm_inv; by rewrite (kvm_lookup_coordinator _ _ _ _ Hrun)|].
  - destruct Hk as [Hn (fl & Hc)].
    destruct (allocate_slots_spec k fl r num_new num_hit hits la delay enc Hcon Hc)
      as (c1 & fl1 & Hc1 & S1 & _ & _ & Hif). rewrite Hrun in Hif.
    destruct (_ <? _)%Z; [injection Hif as _ ->; split; [rewrite <-Hn; apply S1|eauto]|].
    destruct Hif as (nb & c4 & c5 & [= _ ->] & Hg & Hc5 & _ & Hs5 & _). split; [|done]. rewrite <-Hn. cbn.
    rewrite Hs5. transitivity (num_gpu_blocks (co_pool c1)); [apply Hg|apply S1].
  - destruct Hk as [Hn (fl & Hc)].
    destruct (wp_noexc_run _ _ _ (co_free_spec _ fl _ (request_id r) noexc Hc)) as ([] & c' & Hr & rel & Hc' & S' & _).
    unfold kvm_free in Hrun. rewrite (run_on_coord _ k _ _ Hr) in Hrun. injection Hrun as _ <-.
    split; [rewrite <-Hn; apply S'|eauto].
  - by eapply kvm_reset_inv.
  - unfold make_prefix_cache_stats, get, mbind, M_bind, modify, mret, M_ret in Hrun.
    destruct (negb _); by injection Hrun as _ <-.
Qed.

(** C4: Reference counts across the whole manager: in every state reachable from a new manager by
    allocation, freeing, resets and lookups, the reference count of a block is the number of table
    entries, over all requests and groups, that name it, and the free queue lists exactly the blocks
    in no table. *)
Theorem kvm_refcounts_exact cfg max_len caching eagle log events ui dcp k0 k :
  kvm_init cfg max_len caching eagle log events ui dcp = Ok k0 -> rtc kvm_step k0 k ->
  let p := co_pool (coordinator k) in
  exists fl, NoDup fl /\ get_num_free_blocks p = Z.of_nat (length fl) /\
    forall i, 0 < i < Z.to_nat (num_blocks cfg) ->
      let refs := total_refs (Blk i) (single_type_managers (coordinator k)) in
      refc p (Blk i) = Z.of_nat refs /\ (Blk i ∈ fl <-> refs = 0).
Proof.
  intros Hinit Hsteps p. assert (kvm_inv (Z.to_nat (num_blocks cfg)) k) as [Hn (fl & Hc)].
  { assert (kvm_inv (Z.to_nat (num_blocks cfg)) k0) as H0.
    { apply kvm_init_coordinator in Hinit as Hc.
      destruct (get_coordinator_inv _ _ _ _ _ _ _ Hc) as (Hi & _ & _ & Hn & _). split; [done|eauto]. }
    clear Hinit. induction Hsteps; [done|]. eauto using kvm_step_inv. }
  exists fl. split_and!.
  - apply (fr_nodup _ _ (po_queue _ _ (po_core _ _ (ci_pool _ _ _ Hc)))).
  - by eapply num_free_length.
  - intros i Hi refs. assert (in_pool p (Blk i)) as Hin by (exists i; fold p in Hn; split; [done|lia]).
    assert (Blk i <> Blk 0) as H0 by (intros [=]; lia).
    pose proof (ci_refs _ _ _ Hc _ Hin H0) as Hr. unfold no_ref in Hr.
    fold p refs in Hr. split; [done|].
    rewrite (po_free _ _ (ci_pool _ _ _ Hc)). fold p. split; [intros (_ & _ & Hz); lia|]. intros Hz.
    split_and!; [done..|]. lia.
Qed.

(** ** Examples *)

(** A manager with one RaBitQ group of block size 4 over a pool of four blocks. *)
Definition demo_attn : AttentionSpec := mkAttn 4 8 128 (mkDtype "bfloat16" 2) false.
Definition demo_cfg : KVCacheConfig :=
  mkConfig 4 [] [mkGroup ["layer.0"] (RabitQAttentionSpec demo_attn None None (Some 4%Z) None None)].
Definition demo_kvm : KVCacheManager :=
  match kvm_init demo_cfg 64 true false true false false 1 with Ok k => k | Raise _ =>
    mkKVM (mkCoord pool4 [] NoPrefixCache false) 0 false false None None 0 end.

Lemma demo_kvm_init : kvm_init demo_cfg 64 true false true false false 1 = Ok demo_kvm.
Proof.
  assert (H : match kvm_init demo_cfg 64 true false true false false 1 with Ok _ => true | Raise _ => false end = true)
    by (vm_compute; reflexivity).
  unfold demo_kvm. destruct (kvm_init _ _ _ _ _ _ _ _); [reflexivity|discriminate].
Qed.

Definition demo_full : Manager :=
  mkMgr FullAttentionManager 4 (RabitQAttentionSpec demo_attn None None (Some 4%Z) None None) ∅ ∅ 0 (Blk 0).
Lemma demo_kvm_managers : single_type_managers (coordinator demo_kvm) = [demo_full].
Proof. vm_compute. reflexivity. Qed.

Lemma demo_kvm_inv : coord_inv no_ref [Blk 1; Blk 2; Blk 3] (coordinator demo_kvm).
Proof.
  pose proof (kvm_init_coordinator _ _ _ _ _ _ _ _ _ demo_kvm_init) as Hc. apply (get_coordinator_inv _ _ _ _ _ _ _ Hc).
Qed.

Lemma demo_one i m : single_type_managers (coordinator demo_kvm) !! i = Some m -> i = 0 /\ m = demo_full.
Proof. rewrite demo_kvm_managers. destruct i; [intros [= <-]; done|done]. Qed.

Definition demo_r : Request := set_block_hashes [[7]; [8]]%Z (toy_request [1; 2; 3; 4; 5; 6; 7; 8]%Z None None []).

Lemma demo_contract : alloc_contract demo_kvm demo_r 6 0 None 0 false 0.
Proof.
  assert (Hnew : default (replicate (num_kv_cache_groups demo_kvm) []) (None : option KVCacheBlocks) = [[]])
    by (vm_compute; reflexivity).
  assert (Hn : Z.to_nat (num_computed_tokens demo_r) + 0 + 6 + 0 `min` kvm_max_model_len demo_kvm = 6) by (vm_compute; reflexivity).
  split; [lia| |]; rewrite Hnew.
  - replace (Nat.min _ _) with 6 by (vm_compute; reflexivity). split.
    + intros i m (-> & ->)%demo_one. 
      assert (blocks_of demo_full (request_id demo_r) = []) as -> by (vm_compute; reflexivity).
      split; [intros i j Hj; by rewrite lookup_nil in Hj|vm_compute; lia].
    + by rewrite demo_kvm_managers.
    + intros b Hb. by apply elem_of_nil in Hb.
    + intros b Hb. by apply elem_of_nil in Hb.
    + intros i m ni (-> & ->)%demo_one _. done.
    + done.
    + left. rewrite demo_kvm_managers. intros i Hi. unfold deficit. rewrite demo_kvm_managers.
      replace i with 0 by (simpl in Hi; lia). vm_compute. discriminate.
  - intros _ _. replace (Nat.min _ _) with 6 by (vm_compute; reflexivity). split.
    + vm_compute. reflexivity.
    + vm_compute. reflexivity.
    + intros i m (-> & ->)%demo_one. split_and!; [done|done|done|vm_compute; lia|]. exists 0. split; [reflexivity|lia].
    + intros i b. unfold unpublished. destruct (_ !! i) as [m|] eqn:Hm; [|by rewrite elem_of_nil].
      apply demo_one in Hm as (-> & ->). unfold pruned. rewrite demo_kvm_managers. intros Hb. by apply elem_of_nil in Hb.
    + intros i j b. unfold unpublished at 1. destruct (_ !! i) as [m|] eqn:Hm; [|by rewrite elem_of_nil].
      apply demo_one in Hm as (-> & ->). unfold pruned. rewrite demo_kvm_managers. intros Hb. by apply elem_of_nil in Hb.
Qed.

Lemma allocate_slots_correct_witness :
  exists o, (allocate_slots demo_r 6 0 None 0 false 0 demo_kvm).1 = Ok o.
Proof.
  destruct (allocate_slots_correct demo_kvm [Blk 1; Blk 2; Blk 3] demo_r 6 0 None 0 false 0 demo_contract demo_kvm_inv)
    as (c1 & fl1 & _ & _ & _ & _ & H).
  destruct (_ <? _)%Z; [exists None; rewrite H; reflexivity|].
  destruct H as (nb & c4 & c5 & H & _). exists (Some nb). rewrite H. reflexivity.
Defined.

Lemma kvm_refcounts_exact_witness :
  exists fl : list bref, NoDup fl /\
    get_num_free_blocks (co_pool (coordinator (allocate_slots demo_r 6 0 None 0 false 0 demo_kvm).2)) = Z.of_nat (length fl).
Proof.
  destruct (kvm_refcounts_exact demo_cfg 64 true false true false false 1 demo_kvm
    (allocate_slots demo_r 6 0 None 0 false 0 demo_kvm).2 demo_kvm_init) as (fl & H1 & H2 & _).
  - apply rtc_once. eapply step_allocate; [exact demo_contract|apply surjective_pairing].
  - exists fl. split; [exact H1|exact H2].
Defined.

(** * Prefix-cache lookup *)

(** Looking up the computed blocks of a request (one full-attention group, RaBitQ layers
    included): the reported number of tokens is the number of returned blocks times the block size
    and stays below the request's length, so that a token is left to compute; every block holds the
    request's hash for its index; the statistics count the request, its tokens and the hits; the
    blocks and tables are unchanged.  With caching off or prompt log-probabilities requested, the
    answer is empty and nothing changes. *)
Theorem get_computed_blocks_correct k fl r m ms s bs dcp :
  coord_inv no_ref fl (coordinator k) ->
  co_class (coordinator k) = Unitary s bs dcp -> single_type_managers (coordinator k) = m :: ms ->
  mgr_kind m = FullAttentionManager -> is_full_or_chunked s = true ->
  bs = (if 1 <? dcp then block_size s * dcp else block_size s) -> 0 < num_tokens r ->
  (log_stats k = true -> is_Some (prefix_cache_stats k)) ->
  if negb (kvm_enable_caching k) || wants_prompt_logprobs r
  then get_computed_blocks r k = (Ok (replicate (num_kv_cache_groups k) [], 0), k)
  else exists hit k', get_computed_blocks r k = (Ok ([hit], length hit * bs), k') /\
    length hit * bs < num_tokens r /\
    cached_prefix (co_pool (coordinator k)) (block_hashes r) [0%Z] (length hit) [hit] /\
    coordinator k' = coordinator k /\
    (if log_stats k then exists st, prefix_cache_stats k = Some st /\
       prefix_cache_stats k' = Some (mkStats (st_reset st) (st_requests st + 1)
         (st_queries st + Z.of_nat (num_tokens r)) (st_hits st + Z.of_nat (length hit * bs)))
     else k' = k).
Proof.
  intros Hc Hcls Hms Hkind Hs Hbs Hpos Hst. unfold get_computed_blocks.
  rewrite (run_bind get _ k k k) by done. destruct (negb _ || _); [done|].
  set (p := co_pool (coordinator k)). set (e := co_use_eagle (coordinator k)).
  pose proof (ci_pool _ _ _ Hc) as Hp. fold p in Hp.
  assert (Hg : Forall (fun g => 0 <= g < 2 ^ 32)%Z [0%Z]) by (repeat constructor; lia).
  set (cols := hits p [0%Z] (take ((num_tokens r - 1) / bs) (block_hashes r))).
  set (used := if e then removelast cols else cols).
  destruct (hits_spec p [0%Z] (take ((num_tokens r - 1) / bs) (block_hashes r))) as (H1 & H2 & _). fold cols in H1, H2.
  assert (Hlen : length used <= (num_tokens r - 1) / bs).
  { unfold used. rewrite length_take in H1. destruct e; [rewrite removelast_take, length_take|]; lia. }
  assert (Hrow : exists hit, rows 1 used = [hit]).
  { pose proof (rows_length 1 used) as Hl. destruct (rows 1 used) as [|h [|]]; [done|eauto|done]. }
  destruct Hrow as [hit Hrow].
  assert (Hhit : length hit = length used) by (eapply (rows_row_length 1 used 0); by rewrite Hrow).
  assert (Hfind : co_find_longest_cache_hit (coordinator k) (block_hashes r) (num_tokens r - 1) = Ok ([hit], length hit * bs)).
  { unfold co_find_longest_cache_hit. rewrite Hcls, Hms, Hkind. cbn [find_longest_cache_hit]. fold p e.
    rewrite (full_find_spec p fl [0%Z] Hp Hg ltac:(done) _ _ s e dcp Hs). cbn zeta. rewrite <-Hbs.
    change (length [0%Z]) with 1. fold cols used. by rewrite Hrow. }
  assert (Hcp : cached_prefix p (block_hashes r) [0%Z] (length hit) [hit]).
  { rewrite <-Hrow, Hhit. apply (cached_prefix_rows p fl); [done..|]. intros i col Hi. right.
    assert (cols !! i = Some col) as Hi'.
    { unfold used in Hi. destruct e; [|done]. rewrite removelast_take in Hi. by apply lookup_take_Some in Hi as [? _]. }
    destruct (H2 _ _ Hi') as (h & Hh & Hhh). apply lookup_take_Some in Hh as [Hh _]. unfold hit_at. by rewrite Hh. }
  assert (Hlt : length hit * bs < num_tokens r).
  { rewrite Hhit. pose proof (Nat.Div0.mul_div_le (num_tokens r - 1) bs). nia. }
  unfold lift_out, mbind, M_bind, mret, M_ret, modify. rewrite Hfind.
  destruct (log_stats k); [|eauto 10]. destruct (Hst eq_refl) as [st Hst']. rewrite Hst'. eauto 10.
Qed.

Lemma get_computed_blocks_correct_witness :
  exists hit k', get_computed_blocks demo_r demo_kvm = (Ok ([hit], length hit * 4), k') /\ length hit * 4 < 8.
Proof.
  destruct (get_computed_blocks_correct demo_kvm [Blk 1; Blk 2; Blk 3] demo_r demo_full []
    (RabitQAttentionSpec demo_attn None None (Some 4%Z) None None) 4 1) as (hit & k' & H1 & H2 & _).
  - exact demo_kvm_inv.
  - vm_compute. reflexivity.
  - exact demo_kvm_managers.
  - reflexivity.
  - reflexivity.
  - reflexivity.
  - vm_compute. lia.
  - intros _. eexists. vm_compute. reflexivity.
  - exists hit, k'. split; [exact H1|exact H2].
Defined.

(** * A surplus of one group hides the need of another *)

Lemma on_manager_same {A} i (mth : M mstate A) c m o :
  single_type_managers c !! i = Some m -> mth (mkMS (co_pool c) m) = (o, mkMS (co_pool c) m) ->
  on_manager i mth c = (o, c).
Proof.
  intros Hi Hm. unfold on_manager. rewrite Hi, Hm. cbn. rewrite list_insert_id by done. by destruct c.
Qed.

Section surplus.
Context (c : Coordinator) (fl : list bref) (id : string) (comp n : nat) (m0 m1 : Manager).
Hypothesis Hc : coord_inv no_ref fl c.
Hypothesis Hms : single_type_managers c = [m0; m1].
Hypothesis Hk0 : mgr_kind m0 = FullAttentionManager.
Hypothesis Hk1 : mgr_kind m1 = CrossAttentionManager.
Hypothesis Hrun0 : is_Some (num_cached_block m0 !! id).

Lemma surplus_skip : co_remove_skipped_blocks id comp c = (Ok tt, c).
Proof.
  unfold co_remove_skipped_blocks, num_managers. rewrite (run_bind (gets _) _ c 2 c) by (unfold gets; by rewrite Hms).
  cbn [seq forM]. rewrite (run_bind _ _ c tt c), (run_bind _ _ c tt c); [done|..];
    (eapply on_manager_same; [by rewrite Hms|]; unfold remove_skipped_blocks, gets, mbind, M_bind; cbn;
     rewrite ?Hk0, ?Hk1; done).
Qed.

Lemma surplus_need :
  mgr_block_size m1 <> 0 -> exists c1,
    co_get_num_blocks_to_allocate id n [[]; []] 0 c =
      (Ok (required_blocks m0 n - Z.of_nat (length (blocks_of m0 id)) - Z.of_nat (length (blocks_of m1 id)))%Z, c1) /\
    coord_inv no_ref fl c1 /\ same_shape c c1 /\
    (forall i, group_blocks c1 i id = group_blocks c i id) /\
    (forall i, num_cached_block <$> single_type_managers c1 !! i = num_cached_block <$> single_type_managers c !! i).
Proof.
  intros Hbs. destruct (wp_noexc_run _ _ _ (co_get_num_spec no_ref fl c id n 0 [[]; []] noexc Hc ltac:(by rewrite Hms)))
    as (need & c1 & Hrun & Hneed & _ & Hc1 & V1 & T1 & N1).
  exists c1. split_and!; [|done|apply V1|done|done]. rewrite Hrun, Hneed, Hms. do 2 f_equal. cbn [length sumz].
  unfold group_need, asked, is_cross. rewrite Hms. cbn. rewrite Hk0, Hk1.
  assert (required_blocks m1 0 = 0%Z) as ->; [|change (num_evictable (co_pool c) []) with 0; simpl; lia].
  unfold required_blocks, tokens_needed. rewrite Hk1. unfold cdiv. by rewrite Z.div_0_l by lia.
Qed.

Lemma surplus_save c1 :
  coord_inv no_ref fl c1 -> same_shape c c1 -> (forall i, group_blocks c1 i id = group_blocks c i id) ->
  (forall i, num_cached_block <$> single_type_managers c1 !! i = num_cached_block <$> single_type_managers c !! i) ->
  exists c2, co_save_new_computed_blocks id [[]; []] c1 = (Ok tt, c2) /\ coord_inv no_ref fl c2 /\ same_shape c c2 /\
    (forall i, i < 2 -> group_blocks c2 i id = group_blocks c i id).
Proof.
  intros Hc1 S1 T1 N1. pose proof (same_shape_length _ _ S1) as L1. rewrite Hms in L1.
  assert (Hready : save_all_ready c1 id [[]; []]).
  { split; [done|]. intros i m ni Hm Hni. assert (ni = []) as ->.
    { by destruct i as [|[|i]]; simplify_eq/=. }
    split_and!; [|by intros b ?%elem_of_nil|by intros b ?%elem_of_nil].
    destruct (lookup_lt_is_Some_2 (single_type_managers c) i) as [mc Hmc].
    { rewrite Hms. apply lookup_lt_Some in Hm. by rewrite L1 in Hm. }
    destruct (same_shape_lookup _ _ _ _ S1 Hmc) as (m' & Hm' & (Hk & _)). assert (m' = m) as -> by congruence.
    specialize (N1 i). rewrite Hm, Hmc in N1. injection N1 as N1. unfold save_ready. rewrite Hk, N1.
    rewrite Hms in Hmc. destruct i as [|[|i]]; simpl in Hmc; [injection Hmc as <-..|done]; rewrite ?Hk0, ?Hk1; [|done].
    destruct Hrun0 as [x ->]. done. }
  destruct (wp_noexc_run _ _ _ (co_save_spec fl c1 id [[]; []] noexc Hc1 Hready)) as ([] & c2 & Hrun & _ & Hc2 & V2 & T2 & _).
  exists c2. split_and!; [done|done|etransitivity; [exact S1|apply V2]|].
  intros i Hi. rewrite T2, T1 by (rewrite L1; simpl; lia). destruct i as [|[|i]]; [by rewrite app_nil_r..|lia].
Qed.

Lemma surplus_alloc c2 :
  coord_inv no_ref fl c2 -> same_shape c c2 -> group_blocks c2 0 id = group_blocks c 0 id ->
  (Z.of_nat (length fl) < required_blocks m0 n - Z.of_nat (length (blocks_of m0 id)))%Z ->
  (co_allocate_new_blocks id n 0 c2).1 = Raise ValueError.
Proof.
  intros Hc2 S2 T2 Hlt. destruct (same_shape_lookup c c2 0 m0 S2) as (m0' & Hm0 & Hsm); [by rewrite Hms|].
  rewrite (group_blocks_lookup _ _ _ _ Hm0), (group_blocks_lookup c 0 m0 id) in T2 by (by rewrite Hms).
  unfold co_allocate_new_blocks, num_managers.
  rewrite (run_bind (gets _) _ c2 2 c2) by (unfold gets; by rewrite (same_shape_length _ _ S2), Hms).
  cbn [seq foldM]. destruct Hsm as (Hk & Hsm).
  assert (Ht : manager_tokens 0 n 0 c2 = (Ok n, c2)).
  { unfold manager_tokens, get, mbind, M_bind, is_cross. by rewrite Hm0, Hk, Hk0. }
  assert (Hs : exists c3, on_manager 0 (allocate_new_blocks id n) c2 = (Raise ValueError, c3)).
  { unfold on_manager. rewrite Hm0.
    pose proof (allocate_new_blocks_short _ fl (mkMS (co_pool c2) m0') id n (coord_mgr_inv _ _ _ _ _ Hc2 Hm0)) as Hs.
    specialize (Hs ltac:(cbn; unfold missing_blocks; rewrite T2, (required_same_mgr m0 m0') by done; lia)).
    destruct (allocate_new_blocks id n _) as [o s']. simpl in Hs. subst o. eauto. }
  destruct Hs as [c3 Hs]. unfold mbind, M_bind. by rewrite Ht, Hs.
Qed.
End surplus.

(** A running request of an encoder-decoder model can make [allocate_slots] raise [ValueError]
    where it should return [None]: the cross-attention group already has its encoder blocks and is
    asked for none, so its negative need hides the need of the self-attention group.  When the free
    blocks cover the difference but not the self-attention need, the check passes and the pool
    refuses. *)
Theorem cross_surplus_raises k fl r num_new lookahead (delay : bool) m0 m1 :
  coord_inv no_ref fl (coordinator k) -> single_type_managers (coordinator k) = [m0; m1] ->
  mgr_kind m0 = FullAttentionManager -> mgr_kind m1 = CrossAttentionManager -> mgr_block_size m1 <> 0 ->
  is_Some (num_cached_block m0 !! request_id r) -> kvm_enable_caching k = false -> num_kv_cache_groups k = 2 ->
  0 < num_new ->
  let n := Nat.min (Z.to_nat (num_computed_tokens r) + 0 + num_new + lookahead) (kvm_max_model_len k) in
  let self := (required_blocks m0 n - Z.of_nat (length (blocks_of m0 (request_id r))))%Z in
  let surplus := Z.of_nat (length (blocks_of m1 (request_id r))) in
  (self - surplus <= Z.of_nat (length fl) < self)%Z ->
  (allocate_slots r num_new 0 None lookahead delay 0 k).1 = Raise ValueError.
Proof.
  intros Hc Hms Hk0 Hk1 Hbs Hrun Hca Hg Hnew n self surplus Hlt.
  unfold allocate_slots. rewrite (proj2 (Nat.eqb_neq num_new 0)) by lia.
  rewrite (run_bind get _ k k k) by done. rewrite Hg. cbn zeta. change (replicate 2 []) with ([[]; []] : KVCacheBlocks).
  rewrite (run_bind _ _ _ _ _ (run_on_coord _ k _ _ (surplus_skip _ _ (Z.to_nat (num_computed_tokens r)) _ _ Hms Hk0 Hk1))).
  fold n. destruct (surplus_need _ fl (request_id r) n _ _ Hc Hms Hk0 Hk1 Hbs) as (c1 & R1 & Hc1 & S1 & T1 & N1).
  fold self surplus in R1.
  rewrite (run_bind _ _ _ _ _ (run_on_coord _ (set_coordinator (coordinator k) k) _ _ R1)).
  rewrite (run_bind (gets _) _ _ (get_num_free_blocks (co_pool c1)) _) by done.
  rewrite (num_free_length _ _ _ Hc1). rewrite (proj2 (Z.ltb_ge _ _)) by lia. rewrite Hca.
  rewrite (run_bind (assertM _) _ _ tt (set_coordinator c1 k)) by done.
  destruct (surplus_save _ _ _ _ _ Hms Hk0 Hk1 Hrun c1 Hc1 S1 T1 N1) as (c2 & R2 & Hc2 & S2 & T2).
  rewrite (run_bind _ _ _ _ _ (run_on_coord _ (set_coordinator c1 k) _ _ R2)).
  pose proof (surplus_alloc _ _ _ n _ _ Hms Hk0 c2 Hc2 S2 (T2 0 ltac:(lia)) ltac:(fold self; lia)) as Ha.
  unfold mbind, M_bind, on_coord, zoom. cbn [coordinator set_coordinator].
  destruct (co_allocate_new_blocks _ _ _ c2) as [o c3]. simpl in Ha. by subst o.
Qed.

(** An encoder-decoder request: block 1 holds its 4 computed tokens, block 2 its encoder states, and
    block 3 is free. *)
Definition plain4 : BlockPool :=
  match pool_init 4 false false false with Ok p => p | Raise _ => pool4 end.
Definition plain_used : BlockPool := (get_new_blocks 2 plain4).2.
Definition self_mgr : Manager :=
  mkMgr FullAttentionManager 4 (FullAttentionSpec demo_attn None None) {["r" := [Blk 1]]} {["r" := 0]} 0 (Blk 0).
Definition cross_mgr : Manager :=
  mkMgr CrossAttentionManager 4 (CrossAttentionSpec demo_attn) {["r" := [Blk 2]]} ∅ 1 (Blk 0).
Definition encdec_kvm (p : BlockPool) : KVCacheManager :=
  mkKVM (mkCoord p [self_mgr; cross_mgr] NoPrefixCache false) 64 false false None None 2.

Lemma plain_used_ok : pool_ok plain_used [Blk 3] /\ num_gpu_blocks plain_used = 4 /\
  forall b, refc plain_used b = occs [Blk 1; Blk 2] b \/ forall i, b <> Blk i.
Proof.
  destruct (pool_init_spec 4 false false false) as (p0 & Hi & Hp0 & Hn & _ & _ & Hz); [lia|].
  assert (p0 = plain4) as -> by (unfold plain4; by rewrite Hi).
  destruct (wp_noexc_run _ _ _ (get_new_blocks_spec plain4 [Blk 1; Blk 2] [Blk 3] noexc Hp0))
    as (ret & p1 & Hg & _ & Hp1 & (Hconf & Hr & _)). change (length [Blk 1; Blk 2]) with 2 in Hg.
  assert (p1 = plain_used) as -> by (unfold plain_used; by rewrite Hg).
  split_and!; [done|by destruct Hconf as (-> & _)|].
  intros b. rewrite Hr. destruct b as [i| |]; [left|right; done..]. destruct (Hz i) as [-> _]. done.
Qed.

#[local] Opaque plain_used.

Lemma encdec_inv : coord_inv no_ref [Blk 3] (coordinator (encdec_kvm plain_used)).
Proof.
  destruct plain_used_ok as (Hp & Hn & Hr). split; cbn [coordinator encdec_kvm co_pool single_type_managers].
  - done.
  - repeat constructor.
  - assert (forall i, i < 4 -> in_pool plain_used (Blk i)) as Hin by (intros i Hi; exists i; rewrite Hn; done).
    apply Forall_cons; split; [|apply Forall_singleton]; intros id l Hl; simpl in Hl; apply lookup_singleton_Some in Hl as [_ <-];
      (split; [intros b ->%list_elem_of_singleton; apply Hin; lia|intros b ->%list_elem_of_singleton _; done]).
  - intros b (i & -> & Hi) H0. destruct (Hr (Blk i)) as [->|Hno]; [|by destruct (Hno i)].
    unfold total_refs, occ_refs, refs_of, no_ref, occs. simpl. rewrite !map_to_list_singleton. simpl. lia.
  - done.
Qed.

Lemma cross_surplus_raises_witness :
  (allocate_slots (toy_request [1; 2; 3; 4; 5; 6; 7; 8; 9; 10; 11; 12]%Z None None []) 12 0 None 0 false 0
     (encdec_kvm plain_used)).1 = Raise ValueError.
Proof.
  apply (cross_surplus_raises _ [Blk 3] _ 12 0 false self_mgr cross_mgr encdec_inv).
  - reflexivity.
  - reflexivity.
  - reflexivity.
  - discriminate.
  - exists 0. reflexivity.
  - reflexivity.
  - reflexivity.
  - lia.
  - vm_compute. split; [discriminate|reflexivity].
Defined.
