(* ===== verification/CacheConfig.v ===== *)
(** Planning the KV cache: [vllm/v1/core/kv_cache_utils.py] (memory check, maximum model length,
    layer groups, tensors, worker configurations) and [GPUModelRunner.get_kv_cache_spec] of
    [vllm/v1/worker/gpu_model_runner.py], which gives every attention layer its spec.

    A Python dict from layer names to specs is an association list in insertion order. *)
From stdpp Require Import base gmap list strings.
From Stdlib Require Import ZArith Lia QArith.
From S2P Require Import Prelude CacheSpec.
Open Scope nat_scope.

(** * Settings *)

Record Settings := mkSettings {
  vllm_config : VllmConfig;
  num_gpu_blocks_override : option Z;
  disable_hybrid_kv_cache_manager : bool
}.

Definition set_vllm_config (c : VllmConfig) (s : Settings) : Settings :=
  mkSettings c (num_gpu_blocks_override s) (disable_hybrid_kv_cache_manager s).

Abbreviation spec_dict := (list (string * KVCacheSpec)).

(** The configuration and the dict the planning code changes in place. *)
Record Plan := mkPlan {
  settings : Settings;
  kv_specs : spec_dict
}.

Definition on_config {A} : M VllmConfig A -> M Plan A :=
  zoom (fun p => vllm_config (settings p)) (fun c p => mkPlan (set_vllm_config c (settings p)) (kv_specs p)).

Definition set_specs (d : spec_dict) (p : Plan) : Plan := mkPlan (settings p) d.

(** * Memory *)

Fixpoint max_memory_usage_bytes (c : VllmConfig) (specs : list KVCacheSpec) : outcome Z :=
  match specs with
  | [] => Ok 0%Z
  | s :: rest =>
      m ← spec_max_memory_usage_bytes c s;
      r ← max_memory_usage_bytes c rest;
      Ok (m + r)%Z
  end.

(** The local [fits_in_memory], which sets [max_model_len] and leaves it so. *)
Definition fits_in_memory (specs : list KVCacheSpec) (available_memory model_len : Z) : M VllmConfig bool :=
  modify (set_max_model_len model_len) ;;
  c ← get;
  memory_needed ← lift_out (max_memory_usage_bytes c specs);
  mret (memory_needed <=? available_memory)%Z.

(** The binary search; the interval shrinks, so [right] iterations are enough. *)
Fixpoint search_loop (fuel : nat) (specs : list KVCacheSpec) (available_memory left right result : Z)
  : M VllmConfig Z :=
  match fuel with
  | O => mret result
  | S f =>
      if (left <=? right)%Z then
        let mid := ((left + right) / 2)%Z in
        fits ← fits_in_memory specs available_memory mid;
        if (fits : bool) then search_loop f specs available_memory (mid + 1) right mid
        else search_loop f specs available_memory left (mid - 1) result
      else mret result
  end.

Definition estimate_max_model_len (specs : list KVCacheSpec) (available_memory : Z) : M VllmConfig Z :=
  current_max ← gets max_model_len;
  fits ← fits_in_memory specs available_memory 1;
  if negb fits then mret 0%Z
  else search_loop (Z.to_nat current_max) specs available_memory 1 current_max 1.

Definition check_enough_kv_cache_memory (available_memory : Z) : M Plan unit :=
  p ← get;
  match kv_specs p with
  | [] => mret tt
  | _ =>
      if (available_memory <=? 0)%Z then raise ValueError
      else
        needed_memory ← lift_out (max_memory_usage_bytes (vllm_config (settings p)) (kv_specs p).*2);
        if (available_memory <? needed_memory)%Z then
          _ ← on_config (estimate_max_model_len (kv_specs p).*2 available_memory);
          raise ValueError
        else mret tt
  end.

(** * Groups *)

Fixpoint dict_get (k : string) (d : spec_dict) : outcome KVCacheSpec :=
  match d with
  | [] => Raise KeyError
  | (k', s) :: d' => if decide (k = k') then Ok s else dict_get k d'
  end.

Fixpoint create_kv_cache_group_specs (d : spec_dict) (grouped_layer_names : list (list string))
  : outcome (list KVCacheGroupSpec) :=
  match grouped_layer_names with
  | [] => Ok []
  | names :: rest =>
      layer_specs ← mapM (fun n => dict_get n d) names;
      merged ← merge layer_specs;
      gs ← create_kv_cache_group_specs d rest;
      Ok (mkGroup names merged :: gs)
  end.

(** [except AssertionError] only: other exceptions pass through. *)
Definition is_kv_cache_type_uniform (d : spec_dict) : outcome bool :=
  match merge d.*2 with
  | Ok _ => Ok true
  | Raise AssertionError => Ok false
  | Raise e => Raise e
  end.

(** [max] of the layer counts; an empty [max] raises. *)
Definition max_layers (gs : list KVCacheGroupSpec) : nat :=
  foldr (fun g n => Nat.max (length (layer_names g)) n) 0 gs.

Definition get_max_concurrency_for_kv_cache_config (c : VllmConfig) (cfg : KVCacheConfig) : outcome Q :=
  match kv_cache_groups cfg with
  | [] => Raise ValueError
  | g0 :: _ =>
      let num_layer_per_group := Z.of_nat (max_layers (kv_cache_groups cfg)) in
      mem ← max_memory_usage_bytes c (group_spec <$> kv_cache_groups cfg);
      page ← page_size_bytes (group_spec g0);
      let memory_per_block := (page * num_layer_per_group)%Z in
      if (memory_per_block =? 0)%Z then Raise ZeroDivisionError
      else
        let num_block_per_request := cdiv (num_layer_per_group * mem) memory_per_block in
        if (num_block_per_request =? 0)%Z then Raise ZeroDivisionError
        else Ok (inject_Z (num_blocks cfg) / inject_Z num_block_per_request)%Q
  end.

Definition get_num_blocks (s : Settings) (num_layers : nat) (available_memory page_size : Z) : outcome Z :=
  if (page_size =? 0)%Z || (num_layers =? 0) then Raise ZeroDivisionError
  else
    let n := Z.max (available_memory / page_size / Z.of_nat num_layers) 0 in
    match num_gpu_blocks_override s with Some o => Ok o | None => Ok n end.

(** The set of page sizes, without duplicates. *)
Definition page_sizes (d : spec_dict) : outcome (list Z) :=
  ps ← mapM page_size_bytes d.*2;
  Ok (remove_dups ps).

Definition get_uniform_page_size (d : spec_dict) : outcome Z :=
  ps ← page_sizes d;
  match ps with [p] => Ok p | _ => Raise AssertionError end.

Definition is_kv_cache_page_size_uniform (d : spec_dict) : outcome bool :=
  ps ← page_sizes d;
  Ok (length ps =? 1).

Definition is_kv_cache_type_attention_free (d : spec_dict) : bool := match d with [] => true | _ => false end.

(** One group for all the layers, a tensor per layer.  The concurrency is only logged, but its
    computation can raise. *)
Definition get_kv_cache_config_uniform_type (s : Settings) (d : spec_dict) (available_memory : Z)
  : outcome KVCacheConfig :=
  page_size ← get_uniform_page_size d;
  n ← get_num_blocks s (length d) available_memory page_size;
  groups ← create_kv_cache_group_specs d [d.*1];
  let cfg := mkConfig n ((fun name => mkTensor (page_size * n) [name]) <$> d.*1) groups in
  _ ← get_max_concurrency_for_kv_cache_config (vllm_config s) cfg;
  Ok cfg.

(** [same_type_layers[spec].append(name)] on a [defaultdict(list)]. *)
Fixpoint add_layer (spec : KVCacheSpec) (name : string) (groups : list (KVCacheSpec * list string))
  : list (KVCacheSpec * list string) :=
  match groups with
  | [] => [(spec, [name])]
  | (s, names) :: rest =>
      if decide (spec = s) then (s, names ++ [name]) :: rest else (s, names) :: add_layer spec name rest
  end.

Definition same_type_layers (d : spec_dict) : list (KVCacheSpec * list string) :=
  foldl (fun g '(name, spec) => add_layer spec name g) [] d.

(** [layers[i:i + group_size] for i in range(0, len(layers), group_size)]. *)
Fixpoint slices (fuel group_size : nat) (l : list string) : list (list string) :=
  match fuel, l with
  | S f, _ :: _ => take group_size l :: slices f group_size (drop group_size l)
  | _, _ => []
  end.

(** The layers that share the [i]-th memory pool. *)
Definition shared_by_pool (grouped : list (list string)) (i : nat) : list string :=
  omap (fun layers => layers !! i) grouped.

(** Groups of equal size, and [group_size] memory pools shared across the groups. *)
Definition get_kv_cache_config_uniform_page_size (s : Settings) (d : spec_dict) (available_memory : Z)
  : outcome KVCacheConfig :=
  match (length ∘ snd) <$> same_type_layers d with
  | [] => Raise ValueError
  | n0 :: ns =>
      let group_size := foldr Nat.min n0 ns in
      let grouped_layers :=
        same_type_layers d ≫= (fun '(_, layers) => slices (length layers) group_size layers) in
      groups ← create_kv_cache_group_specs d grouped_layers;
      page_size ← get_uniform_page_size d;
      n ← get_num_blocks s group_size available_memory page_size;
      let tensors := (fun i => mkTensor (page_size * n) (shared_by_pool grouped_layers i)) <$> seq 0 group_size in
      let cfg := mkConfig n tensors groups in
      _ ← get_max_concurrency_for_kv_cache_config (vllm_config s) cfg;
      Ok cfg
  end.

Definition get_kv_cache_config_attention_free : KVCacheConfig := mkConfig 1 [] [].

(** * Without the hybrid manager *)

Definition is_sliding (s : KVCacheSpec) : bool := match s with SlidingWindowSpec _ _ => true | _ => false end.
Definition is_chunked (s : KVCacheSpec) : bool :=
  match s with ChunkedLocalAttentionSpec _ _ => true | _ => false end.
Definition is_full_spec (s : KVCacheSpec) : bool := bool_decide (is_Some (full_fields s)).

(** Windowed layers become full-attention layers that record their window. *)
Definition to_full (s : KVCacheSpec) : KVCacheSpec :=
  match s with
  | SlidingWindowSpec a w => FullAttentionSpec a (Some w) None
  | ChunkedLocalAttentionSpec a chunk => FullAttentionSpec a None (Some chunk)
  | _ => s
  end.

Definition unify_hybrid_kv_cache_specs : M Plan unit :=
  d ← gets kv_specs;
  uniform ← lift_out (is_kv_cache_type_uniform d);
  if (uniform : bool) then mret tt
  else
    (if existsb is_full_spec d.*2 && (existsb is_sliding d.*2 || existsb is_chunked d.*2)
     then modify (set_specs ((fun '(name, s) => (name, to_full s)) <$> d)) else mret tt) ;;
    d ← gets kv_specs;
    uniform ← lift_out (is_kv_cache_type_uniform d);
    if (uniform : bool) then mret tt else raise ValueError.

Definition get_kv_cache_config (available_memory : Z) : M Plan KVCacheConfig :=
  check_enough_kv_cache_memory available_memory ;;
  p ← get;
  (if disable_hybrid_kv_cache_manager (settings p) then unify_hybrid_kv_cache_specs else mret tt) ;;
  d ← gets kv_specs;
  s ← gets settings;
  if is_kv_cache_type_attention_free d then mret get_kv_cache_config_attention_free
  else
    uniform ← lift_out (is_kv_cache_type_uniform d);
    if (uniform : bool) then lift_out (get_kv_cache_config_uniform_type s d available_memory)
    else
      same ← lift_out (is_kv_cache_page_size_uniform d);
      if (same : bool) then lift_out (get_kv_cache_config_uniform_page_size s d available_memory)
      else raise NotImplementedError.

(** * One configuration for all workers *)

(** The values in [astuple(spec)]. *)
Inductive pyval :=
| PyNone
| PyInt (n : Z)
| PyFloat (q : Q)
| PyStr (s : string)
| PyDtype (d : dtype)
| PyTuple (l : list pyval).

(** [==], fuel bounding the depth of nested tuples; numbers of both kinds compare by value. *)
Fixpoint py_eq (fuel : nat) (a b : pyval) : bool :=
  match fuel with
  | O => false
  | S f =>
      match a, b with
      | PyNone, PyNone => true
      | PyInt x, PyInt y => (x =? y)%Z
      | PyFloat x, PyFloat y => Qeq_bool x y
      | PyInt x, PyFloat y => Qeq_bool (inject_Z x) y
      | PyFloat x, PyInt y => Qeq_bool x (inject_Z y)
      | PyStr x, PyStr y => String.eqb x y
      | PyDtype x, PyDtype y => bool_decide (x = y)
      | PyTuple x, PyTuple y => (length x =? length y) && forallb (fun '(a, b) => py_eq f a b) (zip x y)
      | _, _ => false
      end
  end.

Definition Qlt_bool (x y : Q) : bool := negb (Qle_bool y x).

(** Strings compare by code points. *)
Definition str_ltb (a b : string) : bool := match String.compare a b with Lt => true | _ => false end.

(** [<]: the first items that differ decide; values without an order raise [TypeError]. *)
Fixpoint py_lt (fuel : nat) (a b : pyval) : outcome bool :=
  match fuel with
  | O => Raise RuntimeError
  | S f =>
      match a, b with
      | PyInt x, PyInt y => Ok (x <? y)%Z
      | PyFloat x, PyFloat y => Ok (Qlt_bool x y)
      | PyInt x, PyFloat y => Ok (Qlt_bool (inject_Z x) y)
      | PyFloat x, PyInt y => Ok (Qlt_bool x (inject_Z y))
      | PyStr x, PyStr y => Ok (str_ltb x y)
      | PyTuple x, PyTuple y =>
          (fix go (x y : list pyval) : outcome bool :=
             match x, y with
             | _, [] => Ok false
             | [], _ :: _ => Ok true
             | a :: x', b :: y' => if py_eq f a b then go x' y' else py_lt f a b
             end) x y
      | _, _ => Raise TypeError
      end
  end.

Definition py_bool (b : bool) : pyval := PyInt (if b then 1 else 0).
Definition py_opt_int (o : option Z) : pyval := match o with Some z => PyInt z | None => PyNone end.
Definition py_opt_float (o : option Q) : pyval := match o with Some q => PyFloat q | None => PyNone end.

Definition attn_tuple (a : AttentionSpec) : list pyval :=
  [PyInt (Z.of_nat (attn_block_size a)); PyInt (num_kv_heads a); PyInt (head_size a); PyDtype (attn_dtype a);
   py_bool (use_mla a)].

(** [astuple]. *)
Definition spec_tuple (s : KVCacheSpec) : list pyval :=
  match s with
  | FullAttentionSpec a sw cs => attn_tuple a ++ [py_opt_int sw; py_opt_int cs]
  | RabitQAttentionSpec a sw cs bq k p =>
      attn_tuple a ++ [py_opt_int sw; py_opt_int cs; py_opt_int bq; py_opt_int k; py_opt_float p]
  | ChunkedLocalAttentionSpec a chunk => attn_tuple a ++ [PyInt chunk]
  | SlidingWindowSpec a w => attn_tuple a ++ [PyInt w]
  | MambaSpec b shapes dtypes padded ty n =>
      [PyInt (Z.of_nat b); PyTuple ((fun sh => PyTuple (PyInt <$> sh)) <$> shapes); PyTuple (PyDtype <$> dtypes);
       py_opt_int padded; PyStr ty; PyInt (Z.of_nat n)]
  | EncoderOnlyAttentionSpec a | CrossAttentionSpec a => attn_tuple a
  end.

Definition spec_type_name (s : KVCacheSpec) : string :=
  match s with
  | FullAttentionSpec _ _ _ => "FullAttentionSpec"
  | RabitQAttentionSpec _ _ _ _ _ _ => "RabitQAttentionSpec"
  | ChunkedLocalAttentionSpec _ _ => "ChunkedLocalAttentionSpec"
  | SlidingWindowSpec _ _ => "SlidingWindowSpec"
  | MambaSpec _ _ _ _ _ _ => "MambaSpec"
  | EncoderOnlyAttentionSpec _ => "EncoderOnlyAttentionSpec"
  | CrossAttentionSpec _ => "CrossAttentionSpec"
  end.

(** The sort key; five levels are more than its depth. *)
Definition sort_key (s : KVCacheSpec) : pyval := PyTuple [PyStr (spec_type_name s); PyTuple (spec_tuple s)].
Definition key_lt (a b : KVCacheSpec) : outcome bool := py_lt 5 (sort_key a) (sort_key b).

(** [list.sort], a stable sort: an element goes behind the ones it is not less than. *)
Fixpoint insert_group (g : KVCacheGroupSpec) (l : list KVCacheGroupSpec) : outcome (list KVCacheGroupSpec) :=
  match l with
  | [] => Ok [g]
  | h :: t =>
      lt ← key_lt (group_spec h) (group_spec g);
      if (lt : bool) then r ← insert_group g t; Ok (h :: r) else Ok (g :: h :: t)
  end.

Fixpoint sort_groups (l : list KVCacheGroupSpec) : outcome (list KVCacheGroupSpec) :=
  match l with
  | [] => Ok []
  | g :: rest => r ← sort_groups rest; insert_group g r
  end.

Definition set_groups (gs : list KVCacheGroupSpec) (c : KVCacheConfig) : KVCacheConfig :=
  mkConfig (num_blocks c) (kv_cache_tensors c) gs.
Definition set_num_blocks (n : Z) (c : KVCacheConfig) : KVCacheConfig :=
  mkConfig n (kv_cache_tensors c) (kv_cache_groups c).

Definition same_group_specs (a b : list KVCacheGroupSpec) : bool :=
  forallb (fun '(x, y) => bool_decide (group_spec x = group_spec y)) (zip a b).

Definition unify_kv_cache_configs (configs : list KVCacheConfig) : outcome (list KVCacheConfig) :=
  sorted ← mapM (fun c => gs ← sort_groups (kv_cache_groups c); Ok (set_groups gs c)) configs;
  match sorted with
  | [] => Raise ValueError
  | c0 :: rest =>
      _ ← assert_ (forallb (fun c => same_group_specs (kv_cache_groups c0) (kv_cache_groups c)) rest);
      let min_num_blocks := foldr (fun c m => Z.min (num_blocks c) m) (num_blocks c0) rest in
      Ok (set_num_blocks min_num_blocks <$> sorted)
  end.

(** * The specs of a model's layers: [GPUModelRunner.get_kv_cache_spec] *)

Inductive AttentionType : Set := DECODER | ENCODER | ENCODER_ONLY | ENCODER_DECODER | OTHER_TYPE.

(** An [Attention] module; [chunked_module] is [isinstance(module, ChunkedLocalAttention)]. *)
Record AttnModule := mkAttnModule {
  kv_sharing_target_layer_name : option string;
  attn_type : AttentionType;
  module_sliding_window : option Z;
  chunked_module : bool;
  module_num_kv_heads : Z;
  module_head_size : Z
}.

(** A [MambaBase] module: its state shapes, dtypes and type. *)
Record MambaModule := mkMambaModule {
  state_shape : list (list Z);
  state_dtype : list dtype;
  module_mamba_type : string
}.

(** The settings the model runner reads. *)
Record RunnerConfig := mkRunner {
  rc_block_size : nat;
  rc_use_mla : bool;
  enable_rabitq : bool;
  cfg_rabitq_b_q : option Z;
  cfg_rabitq_topk : option Z;
  cfg_rabitq_topp : option Q;
  rc_attention_chunk_size : option Z;
  kv_cache_dtype : dtype;
  num_speculative_tokens : option nat;
  model_type : string;
  enable_prefix_caching : bool;
  rc_max_model_len : nat;
  mamba_page_size_padded : option Z
}.

Definition module_attn (c : RunnerConfig) (a : AttnModule) : AttentionSpec :=
  mkAttn (rc_block_size c) (module_num_kv_heads a) (module_head_size a) (kv_cache_dtype c) (rc_use_mla c).

(** The spec of a decoder layer. *)
Definition decoder_spec (c : RunnerConfig) (a : AttnModule) : outcome KVCacheSpec :=
  match module_sliding_window a with
  | Some w => _ ← sliding_window_post_init (module_attn c a); Ok (SlidingWindowSpec (module_attn c a) w)
  | None =>
      match rc_attention_chunk_size c, chunked_module a with
      | Some chunk, true => Ok (ChunkedLocalAttentionSpec (module_attn c a) chunk)
      | _, _ =>
          if enable_rabitq c
          then Ok (RabitQAttentionSpec (module_attn c a) None None (cfg_rabitq_b_q c) (cfg_rabitq_topk c)
                     (cfg_rabitq_topp c))
          else Ok (FullAttentionSpec (module_attn c a) None None)
      end
  end.

Fixpoint dict_put (k : string) (s : KVCacheSpec) (d : spec_dict) : spec_dict :=
  match d with
  | [] => [(k, s)]
  | (k', s') :: d' => if decide (k = k') then (k, s) :: d' else (k', s') :: dict_put k s d'
  end.

(** The attention loop; the second component is [shared_kv_cache_layers]. *)
Fixpoint attn_loop (c : RunnerConfig) (layers : list (string * AttnModule)) (d : spec_dict)
    (shared : gmap string string) : outcome (spec_dict * gmap string string) :=
  match layers with
  | [] => Ok (d, shared)
  | (name, a) :: rest =>
      match kv_sharing_target_layer_name a with
      | Some target => attn_loop c rest d (<[name := target]> shared)
      | None =>
          match attn_type a with
          | DECODER => s ← decoder_spec c a; attn_loop c rest (dict_put name s d) shared
          | ENCODER_DECODER => attn_loop c rest (dict_put name (CrossAttentionSpec (module_attn c a)) d) shared
          | ENCODER | ENCODER_ONLY => attn_loop c rest d shared
          | OTHER_TYPE => Raise ValueError
          end
      end
  end.

Definition mamba_spec (c : RunnerConfig) (m : MambaModule) : KVCacheSpec :=
  MambaSpec (rc_max_model_len c) (state_shape m) (state_dtype m) (mamba_page_size_padded c) (module_mamba_type m)
    (default 0 (num_speculative_tokens c)).

Definition get_kv_cache_spec (c : RunnerConfig) (attn_layers : list (string * AttnModule))
    (mamba_layers : list (string * MambaModule)) (shared : gmap string string)
  : outcome (spec_dict * gmap string string) :=
  '(d, shared) ← attn_loop c attn_layers [] shared;
  match mamba_layers with
  | [] => Ok (d, shared)
  | _ =>
      if bool_decide (is_Some (num_speculative_tokens c)) && negb (String.eqb (model_type c) "qwen3_next")
      then Raise NotImplementedError
      else if enable_prefix_caching c then Raise NotImplementedError
      else Ok (foldl (fun d '(name, m) => dict_put name (mamba_spec c m) d) d mamba_layers, shared)
  end.

(** * The longest model length that fits *)

Definition specs_defined (c : VllmConfig) (specs : list KVCacheSpec) : Prop :=
  Forall (fun s => is_Ok (spec_max_memory_usage_bytes c s)) specs.

(** [fits c specs avail n]: [n] tokens fit. *)
Definition fits (c : VllmConfig) (specs : list KVCacheSpec) (avail n : Z) : Prop :=
  exists m, max_memory_usage_bytes (set_max_model_len n c) specs = Ok m /\ (m <= avail)%Z.

Lemma specs_defined_sum c specs : specs_defined c specs -> exists m, max_memory_usage_bytes c specs = Ok m.
Proof.
  induction 1 as [|s specs Hs _ [r Hr]]; [by exists 0%Z|]. simpl.
  destruct (spec_max_memory_usage_bytes c s) as [m|]; [|done]. rewrite Hr. by exists (m + r)%Z.
Qed.

Lemma specs_defined_len c specs n n' :
  specs_defined (set_max_model_len n c) specs -> specs_defined (set_max_model_len n' c) specs.
Proof. intros H. eapply Forall_impl; [exact H|]. intros s. apply max_memory_defined. Qed.

Lemma sum_memory_mono c specs n n' m m' :
  Forall spec_wf specs -> (n <= n')%Z ->
  max_memory_usage_bytes (set_max_model_len n c) specs = Ok m ->
  max_memory_usage_bytes (set_max_model_len n' c) specs = Ok m' -> (m <= m')%Z.
Proof.
  intros Hwf Hn. induction Hwf as [|s specs Hs _ IH] in m, m' |- *; simpl.
  - intros [= <-] [= <-]. done.
  - intros (a & Ha & (b & Hb & [= <-])%bind_Ok)%bind_Ok (a' & Ha' & (b' & Hb' & [= <-])%bind_Ok)%bind_Ok.
    pose proof (max_memory_mono c s n n' a a' Hs Hn Ha Ha'). specialize (IH _ _ Hb Hb'). lia.
Qed.

Section estimate.
Context (c0 : VllmConfig) (specs : list KVCacheSpec) (avail : Z).
Hypothesis Hwf : Forall spec_wf specs.
Hypothesis Hdef : specs_defined c0 specs.

Lemma set_len_twice n n' : set_max_model_len n (set_max_model_len n' c0) = set_max_model_len n c0.
Proof. done. Qed.

Lemma set_len_self : set_max_model_len (max_model_len c0) c0 = c0.
Proof. by destruct c0. Qed.

Lemma fits_downward n n' : (n <= n')%Z -> fits c0 specs avail n' -> fits c0 specs avail n.
Proof.
  intros Hn (m' & Hm' & Hle). rewrite <-set_len_self in Hdef.
  destruct (specs_defined_sum _ _ (specs_defined_len _ _ _ n Hdef)) as [m Hm].
  exists m. split; [done|]. pose proof (sum_memory_mono _ _ _ _ _ _ Hwf Hn Hm Hm'). lia.
Qed.

(** One probe answers whether the length fits, and changes the configuration. *)
Lemma fits_run n c :
  (exists k, c = set_max_model_len k c0) -> exists b,
    fits_in_memory specs avail n c = (Ok b, set_max_model_len n c0) /\ (b = true <-> fits c0 specs avail n).
Proof.
  intros [k ->]. rewrite <-set_len_self in Hdef.
  destruct (specs_defined_sum _ _ (specs_defined_len _ _ _ n Hdef)) as [m Hm]. exists (m <=? avail)%Z.
  unfold fits_in_memory, modify, get, lift_out, mbind, M_bind, mret, M_ret. rewrite set_len_twice, Hm.
  split; [done|]. unfold fits. rewrite Hm. rewrite Z.leb_le. split; [eauto|]. by intros (m' & [= ->] & ?).
Qed.

(** The search keeps: everything below [left] fits, nothing above [right] does. *)
Lemma search_loop_spec fuel : forall left right result c top,
  (Z.to_nat (right - left + 1) <= fuel) -> (exists k, c = set_max_model_len k c0) ->
  (1 <= result)%Z -> (result = left - 1)%Z \/ (left = 1 /\ result = 1)%Z -> fits c0 specs avail result ->
  (result <= top)%Z -> (right <= top)%Z -> (forall n, (right < n <= top)%Z -> ~ fits c0 specs avail n) ->
  exists r k, search_loop fuel specs avail left right result c = (Ok r, set_max_model_len k c0) /\
    (1 <= r <= top)%Z /\ fits c0 specs avail r /\ forall n, (r < n <= top)%Z -> ~ fits c0 specs avail n.
Proof.
  induction fuel as [|f IH]; intros left right result c top Hfuel Hck Hr1 Hres Hfit Htop Hrt Hno.
  - destruct Hck as [k ->]. exists result, k. split_and!; try done; try lia. intros n Hn. apply Hno. lia.
  - cbn [search_loop]. destruct (Z.leb_spec left right) as [Hlr|Hlr].
    + set (mid := ((left + right) / 2)%Z).
      assert (Hmid : (left <= mid <= right)%Z) by (unfold mid; split; [apply Z.div_le_lower_bound|apply Z.div_le_upper_bound]; lia).
      destruct (fits_run mid c Hck) as (b & Hb & Hbf). unfold mbind, M_bind. rewrite Hb.
      destruct b.
      * apply IH; try lia; [eauto|by apply Hbf|done].
      * apply IH; try lia; [eauto|done|].
        intros n Hn Hfn. destruct (decide (n <= right)%Z); [|by apply (Hno n); [lia|]].
        assert (fits c0 specs avail mid) by (apply (fits_downward mid n); [lia|done]). naive_solver.
    + destruct Hck as [k ->]. exists result, k. split_and!; try done; try lia. intros n Hn. apply Hno. lia.
Qed.
End estimate.


Definition toy_cfg (n : Z) : VllmConfig := mkCfg n 1 2048 1500.


(** * The planned configuration *)

(** The bytes of all tensors. *)
Definition total_tensor_bytes (cfg : KVCacheConfig) : Z := foldr (fun t n => (kt_size t + n)%Z) 0%Z (kv_cache_tensors cfg).

Lemma total_bytes_const size (names : list (list string)) gs n :
  total_tensor_bytes (mkConfig n (mkTensor size <$> names) gs) = (size * Z.of_nat (length names))%Z.
Proof.
  unfold total_tensor_bytes. cbn [kv_cache_tensors]. induction names as [|x l IH]; [simpl; lia|].
  rewrite fmap_cons. cbn [foldr kt_size length]. rewrite IH. nia.
Qed.

(** Without an override the pools fit into the memory, and one more block would not. *)
Lemma get_num_blocks_spec s layers avail page n :
  (0 < page)%Z -> (0 <= avail)%Z -> num_gpu_blocks_override s = None -> get_num_blocks s layers avail page = Ok n ->
  (0 <= n)%Z /\ (page * n * Z.of_nat layers <= avail < page * (n + 1) * Z.of_nat layers)%Z.
Proof.
  intros Hp Ha Ho. unfold get_num_blocks. rewrite Ho.
  destruct (Z.eqb_spec page 0); [lia|]. destruct (Nat.eqb_spec layers 0) as [|Hl]; [done|]. simpl. intros [= <-].
  assert (0 < Z.of_nat layers)%Z by lia. set (L := Z.of_nat layers) in *.
  rewrite Z.div_div by lia.
  assert (0 <= avail / (page * L))%Z by (apply Z.div_pos; nia). rewrite Z.max_l by done.
  pose proof (Z.mul_div_le avail (page * L) ltac:(nia)). pose proof (Z.mul_succ_div_gt avail (page * L) ltac:(nia)).
  split; [done|]. nia.
Qed.

Lemma create_one_group d gs :
  create_kv_cache_group_specs d [d.*1] = Ok gs ->
  exists specs merged, mapM (fun n => dict_get n d) d.*1 = Ok specs /\ merge specs = Ok merged /\ gs = [mkGroup d.*1 merged].
Proof. intros (specs & Hs & (m & Hm & (r & [= <-] & [= <-])%bind_Ok)%bind_Ok)%bind_Ok. eauto. Qed.

Lemma dict_get_elem k v d : NoDup d.*1 -> (k, v) ∈ d -> dict_get k d = Ok v.
Proof.
  induction d as [|[k' v'] d IH]; intros Hnd Hin; [by apply elem_of_nil in Hin|]. simpl in *.
  apply NoDup_cons in Hnd as [Hk Hnd]. apply elem_of_cons in Hin as [[= -> ->]|Hin]; [by rewrite decide_True|].
  rewrite decide_False; [auto|]. intros ->. apply Hk. apply list_elem_of_fmap. by exists (k', v).
Qed.

Lemma dict_get_keys k d : k ∈ d.*1 -> NoDup d.*1 -> exists v, dict_get k d = Ok v /\ (k, v) ∈ d.
Proof. intros ([k' v] & -> & Hin)%list_elem_of_fmap Hnd. exists v. split; [by apply dict_get_elem|done]. Qed.

Lemma mapM_outcome {A B} (f : A -> outcome B) (g : A -> B) l :
  (forall x, x ∈ l -> f x = Ok (g x)) -> mapM f l = Ok (g <$> l).
Proof.
  induction l as [|x l IH]; intros H; [done|]. cbn [mapM]. rewrite H by (by left). cbn [mbind outcome_bind].
  rewrite IH by (intros; apply H; by right). done.
Qed.

(** Reading every key of a dict gives its values. *)
Lemma dict_get_all d : NoDup d.*1 -> mapM (fun n => dict_get n d) d.*1 = Ok d.*2.
Proof.
  intros Hnd. assert (H : forall l, l ⊆ d -> mapM (fun n => dict_get n d) l.*1 = Ok l.*2); [|by apply H].
  intros l. induction l as [|[k v] l IH]; intros Hl; [done|]. rewrite fmap_cons. cbn [mapM fst].
  rewrite (dict_get_elem k v) by (done || apply Hl; by left). cbn [mbind outcome_bind].
  rewrite IH by (intros x Hx; apply Hl; by right). done.
Qed.

(** What the uniform configuration looks like. *)
Lemma uniform_type_spec s d avail cfg :
  NoDup d.*1 -> get_kv_cache_config_uniform_type s d avail = Ok cfg ->
  exists page n merged, get_uniform_page_size d = Ok page /\ get_num_blocks s (length d) avail page = Ok n /\
    merge d.*2 = Ok merged /\
    cfg = mkConfig n ((fun name => mkTensor (page * n) [name]) <$> d.*1) [mkGroup d.*1 merged].
Proof.
  intros Hnd (page & Hp & (n & Hn & (gs & Hg & (q & _ & [= <-])%bind_Ok)%bind_Ok)%bind_Ok)%bind_Ok.
  apply create_one_group in Hg as (specs & m & Hs & Hm & ->). rewrite dict_get_all in Hs by done.
  injection Hs as <-. exists page, n, m. done.
Qed.

Lemma merge_full specs m a sw cs :
  merge specs = Ok m -> full_fields m = Some (a, sw, cs) ->
  forall s, s ∈ specs -> exists sw' cs', full_fields s = Some (a, sw', cs').
Proof.
  intros Hm Hf s Hs.
  assert (Hfull : forall a' sw' cs', full_merge specs = Ok (a', sw', cs') -> a' = a -> exists sw' cs', full_fields s = Some (a, sw', cs')).
  { intros a' sw' cs' H ->. apply full_merge_spec in H as [H _]. destruct (H s Hs) as (? & ? & ? & _). eauto. }
  destruct specs as [|s0 rest]; [by apply elem_of_nil in Hs|].
  destruct s0; cbn [merge] in Hm;
    try (apply bind_Ok in Hm as ([] & _ & [= <-]); by simpl in Hf).
  - apply bind_Ok in Hm as ([[a' sw'] cs'] & Hm & [= <-]). eapply Hfull; [exact Hm|by injection Hf].
  - unfold rabitq_merge in Hm. apply bind_Ok in Hm as ([[a' sw'] cs'] & Hm & Hr).
    destruct (mapM rabitq_fields _); [|done].
    apply bind_Ok in Hr as (? & _ & (? & _ & (? & _ & [= <-])%bind_Ok)%bind_Ok).
    eapply Hfull; [exact Hm|by injection Hf].
Qed.

Lemma full_fields_sizes c s a sw cs :
  full_fields s = Some (a, sw, cs) ->
  page_size_bytes s = Ok (attn_page_size_bytes a) /\
  spec_max_memory_usage_bytes c s = Ok (full_max_memory_usage_bytes c a).
Proof. destruct s; intros [= -> -> ->]; done. Qed.

Lemma full_memory_sum c specs a :
  (forall s, s ∈ specs -> exists sw cs, full_fields s = Some (a, sw, cs)) ->
  max_memory_usage_bytes c specs = Ok (Z.of_nat (length specs) * full_max_memory_usage_bytes c a)%Z.
Proof.
  induction specs as [|s specs IH]; intros H; [done|]. cbn [max_memory_usage_bytes].
  destruct (H s ltac:(by left)) as (sw & cs & Hf). destruct (full_fields_sizes c s a sw cs Hf) as [_ ->].
  rewrite IH by (intros; apply H; by right). cbn. f_equal. lia.
Qed.

Lemma full_page_size d a page :
  (forall s, s ∈ d.*2 -> exists sw cs, full_fields s = Some (a, sw, cs)) -> d <> [] ->
  get_uniform_page_size d = Ok page -> page = attn_page_size_bytes a.
Proof.
  intros H Hne. unfold get_uniform_page_size, page_sizes.
  assert (Hmap : mapM page_size_bytes d.*2 = Ok ((fun _ => attn_page_size_bytes a) <$> d.*2)).
  { apply mapM_outcome. intros s Hs. destruct (H s Hs) as (sw & cs & Hf). by apply (full_fields_sizes (mkCfg 0 0 0 0) s a sw cs). }
  rewrite Hmap. cbn [mbind outcome_bind]. destruct (remove_dups _) as [|p [|]] eqn:E; [done| |done].
  intros [= <-]. assert (p ∈ remove_dups ((fun _ => attn_page_size_bytes a) <$> d.*2)) as Hp by (rewrite E; by left).
  apply elem_of_remove_dups, list_elem_of_fmap in Hp as (x & -> & _). done.
Qed.

(** The pages of one layer that hold a request of the maximum length. *)
Definition request_pages (c : VllmConfig) (a : AttentionSpec) : Z :=
  let len := if (1 <? decode_context_parallel_size c)%Z
             then cdiv (max_model_len c) (decode_context_parallel_size c) else max_model_len c in
  cdiv len (Z.of_nat (attn_block_size a)).

(** The checks [get_kv_cache_config] passed when it returned. *)
Lemma get_config_checked avail p cfg p' :
  get_kv_cache_config avail p = (Ok cfg, p') -> kv_specs p <> [] ->
  exists m, max_memory_usage_bytes (vllm_config (settings p)) (kv_specs p).*2 = Ok m /\ (0 < avail)%Z /\ (m <= avail)%Z /\
    check_enough_kv_cache_memory avail p = (Ok tt, p).
Proof.
  intros H Hne. unfold get_kv_cache_config, mbind at 1, M_bind at 1 in H.
  destruct (check_enough_kv_cache_memory avail p) as [[[]|e] p1] eqn:Hc; [|done].
  pose proof Hc as Hc0. unfold check_enough_kv_cache_memory, get, lift_out, mbind, M_bind, mret, M_ret, raise in Hc0.
  destruct (kv_specs p) as [|x d] eqn:Hd; [done|]. destruct (Z.leb_spec avail 0); [done|].
  destruct (max_memory_usage_bytes _ _) as [m|] eqn:Hm; [|done]. destruct (Z.ltb_spec avail m) as [|Hle].
  { destruct (on_config _ p) as [[r|e] p2]; done. }
  injection Hc0 as <-. by exists m.
Qed.

Lemma get_config_uniform avail p :
  check_enough_kv_cache_memory avail p = (Ok tt, p) -> kv_specs p <> [] ->
  is_kv_cache_type_uniform (kv_specs p) = Ok true ->
  get_kv_cache_config avail p = (get_kv_cache_config_uniform_type (settings p) (kv_specs p) avail, p).
Proof.
  intros Hchk Hne Huni.
  assert (Hun : (if disable_hybrid_kv_cache_manager (settings p) then unify_hybrid_kv_cache_specs else mret tt) p = (Ok tt, p)).
  { destruct (disable_hybrid_kv_cache_manager _); [|done].
    unfold unify_hybrid_kv_cache_specs, gets, lift_out, mbind, M_bind. by rewrite Huni. }
  assert (Hfree : is_kv_cache_type_attention_free (kv_specs p) = false) by by destruct (kv_specs p).
  unfold get_kv_cache_config, mbind, M_bind. rewrite Hchk. unfold get. rewrite Hun. unfold gets, lift_out.
  rewrite Hfree. by rewrite Huni.
Qed.

Lemma uniform_config_facts avail p cfg p' merged a sw cs :
  get_kv_cache_config avail p = (Ok cfg, p') -> NoDup (kv_specs p).*1 -> kv_specs p <> [] ->
  merge (kv_specs p).*2 = Ok merged -> full_fields merged = Some (a, sw, cs) ->
  (0 < attn_page_size_bytes a)%Z -> num_gpu_blocks_override (settings p) = None ->
  p' = p /\ kv_cache_groups cfg = [mkGroup (kv_specs p).*1 merged] /\
  kv_cache_tensors cfg = (fun name => mkTensor (attn_page_size_bytes a * num_blocks cfg) [name]) <$> (kv_specs p).*1 /\
  (total_tensor_bytes cfg <= avail < attn_page_size_bytes a * (num_blocks cfg + 1) * Z.of_nat (length (kv_specs p)))%Z /\
  (request_pages (vllm_config (settings p)) a <= num_blocks cfg)%Z.
Proof.
  intros Hrun Hnd Hne Hmerge Hff Hpage Hov. destruct (get_config_checked _ _ _ _ Hrun Hne) as (m & Hm & Ha & Hle & Hchk).
  pose proof (merge_full _ _ _ _ _ Hmerge Hff) as Hall. rewrite (full_memory_sum _ _ a Hall), length_fmap in Hm.
  injection Hm as <-. rewrite (get_config_uniform _ _ Hchk Hne ltac:(unfold is_kv_cache_type_uniform; by rewrite Hmerge)) in Hrun.
  injection Hrun as Hu <-.
  destruct (uniform_type_spec _ _ _ _ Hnd Hu) as (page & n & m2 & Hp & Hn & Hm2 & ->).
  apply (full_page_size _ a) in Hp as ->; [|done..]. rewrite Hmerge in Hm2. injection Hm2 as <-.
  destruct (get_num_blocks_spec _ _ avail _ _ Hpage ltac:(lia) Hov Hn) as (Hn0 & Hlo & Hhi).
  split_and!; try done.
  - cbn [num_blocks kv_cache_tensors kv_cache_groups]. unfold total_tensor_bytes. cbn [kv_cache_tensors].
    pose proof (total_bytes_const (attn_page_size_bytes a * n) ((fun x => [x]) <$> (kv_specs p).*1) [] n) as Ht.
    unfold total_tensor_bytes in Ht. cbn [kv_cache_tensors] in Ht. rewrite <-list_fmap_compose, !length_fmap in Ht.
    unfold compose in Ht. rewrite Ht. lia.
  - cbn [num_blocks]. change (full_max_memory_usage_bytes (vllm_config (settings p)) a) with
      (request_pages (vllm_config (settings p)) a * attn_page_size_bytes a)%Z in Hle.
    set (L := Z.of_nat (length (kv_specs p))) in *. assert (0 < L)%Z by (unfold L; destruct (kv_specs p); [done|simpl; lia]).
    set (P := attn_page_size_bytes a) in *. set (R := request_pages _ a) in *.
    apply Z.lt_succ_r, (Z.mul_lt_mono_pos_l (P * L)); [nia|]. nia.
Qed.


(** Two RaBitQ layers; 40 tokens of 16 need 3 pages of 65536 bytes each. *)
Definition demo_layer : KVCacheSpec := RabitQAttentionSpec toy_attn None None (Some 4%Z) (Some 64%Z) None.
Definition demo_plan : Plan := mkPlan (mkSettings (toy_cfg 40) None false) [("l0"%string, demo_layer); ("l1"%string, demo_layer)].


(** * Error behaviour of the planning *)

Lemma remove_dups_const {A} `{EqDecision A} (l : list A) w :
  (forall x, x ∈ l -> x = w) -> l <> [] -> remove_dups l = [w].
Proof.
  intros H Hne. pose proof (NoDup_remove_dups l) as Hnd.
  assert (Hin : forall x, x ∈ remove_dups l -> x = w) by (intros x Hx; apply H, (proj1 (elem_of_remove_dups l x)), Hx).
  assert (Hw : w ∈ remove_dups l).
  { destruct l as [|y l]; [done|]. apply elem_of_remove_dups. rewrite <-(H y) by (by left). by left. }
  destruct (remove_dups l) as [|x [|y r]]; [by apply elem_of_nil in Hw| |].
  { by rewrite (Hin x ltac:(left)). }
  apply NoDup_cons in Hnd as [Hx _]. destruct Hx.
  rewrite (Hin x ltac:(left)), (Hin y ltac:(right; left)). left.
Qed.

Lemma mapM_full_map specs f :
  (forall s, s ∈ specs -> full_fields s = Some (f s)) -> mapM full_fields specs = Some (f <$> specs).
Proof.
  induction specs as [|s specs IH]; intros H; [done|]. cbn [mapM]. rewrite H by (by left).
  rewrite IH by (intros; apply H; by right). done.
Qed.

Lemma mapM_none {A B} (f : A -> option B) l x : x ∈ l -> f x = None -> mapM f l = None.
Proof. intros Hx Hf. apply mapM_None, Exists_exists. eauto. Qed.

(** The specs of RaBitQ layers and layers with a window [w], after the conversion. *)
Section rabitq_mixed.
Context (a : AttentionSpec) (bq k : option Z) (pp : option Q) (w : Z) (specs : list KVCacheSpec).
Hypothesis Hspecs : forall s, s ∈ specs ->
  s = RabitQAttentionSpec a None None bq k pp \/ s = SlidingWindowSpec a w.
Hypothesis Hwin : SlidingWindowSpec a w ∈ specs.

Definition mixed_fields (s : KVCacheSpec) : AttentionSpec * option Z * option Z :=
  default (a, None, None) (full_fields s).

Lemma mixed_full_merge :
  full_merge (RabitQAttentionSpec a None None bq k pp :: (to_full <$> specs)) = Ok (a, Some w, None).
Proof.
  unfold full_merge. rewrite (mapM_full_map _ mixed_fields).
  2:{ intros s [->|(s' & -> & Hs)%list_elem_of_fmap]%elem_of_cons; [done|]. by destruct (Hspecs s' Hs) as [->| ->]. }
  rewrite fmap_cons. cbn [mixed_fields full_fields default]. rewrite <-list_fmap_compose.
  set (fs := (mixed_fields ∘ to_full) <$> specs).
  assert (Hfs : forall f, f ∈ fs -> f = (a, None, None) \/ f = (a, Some w, None)).
  { intros f (s & -> & Hs)%list_elem_of_fmap. destruct (Hspecs s Hs) as [->| ->]; [by left|by right]. }
  assert (Hw : (a, Some w, None) ∈ fs) by (apply list_elem_of_fmap; by exists (SlidingWindowSpec a w)).
  assert (E1 : sliding_windows ((a, None, None) :: fs) = [w]).
  { unfold sliding_windows. apply remove_dups_const.
    - intros x ([[a' sw] cs] & [[= -> -> ->]|Hin]%elem_of_cons & Hx)%list_elem_of_omap; [done|].
      destruct (Hfs _ Hin) as [[= -> -> ->]|[= -> -> ->]]; congruence.
    - intros E. assert (w ∈ omap (fun '(_, sw, _) => sw) ((a, @None Z, @None Z) :: fs)) as Hin; [|by rewrite E in Hin; apply elem_of_nil in Hin].
      apply list_elem_of_omap. exists (a, Some w, None). split; [by right|done]. }
  assert (E2 : chunk_sizes ((a, None, None) :: fs) = []).
  { unfold chunk_sizes. assert (omap (fun '(_, _, cs) => cs) ((a, @None Z, @None Z) :: fs) = []) as ->; [|done].
    apply elem_of_nil_inv. intros x ([[a' sw] cs] & [[= -> -> ->]|Hin]%elem_of_cons & Hx)%list_elem_of_omap; [done|].
    by destruct (Hfs _ Hin) as [[= -> -> ->]|[= -> -> ->]]. }
  cbn [id]. rewrite E1, E2. cbn [merge_window_sizes mbind outcome_bind].
  assert (forallb (fun f => bool_decide (f.1.1 = a)) ((a, @None Z, @None Z) :: fs) = true) as ->; [|done].
  apply forallb_forall. intros f Hf. apply bool_decide_eq_true. apply list_elem_of_In, elem_of_cons in Hf as [->|Hf]; [done|].
  by destruct (Hfs _ Hf) as [->| ->].
Qed.

Lemma mixed_not_uniform : merge (RabitQAttentionSpec a None None bq k pp :: specs) = Raise AssertionError.
Proof.
  cbn [merge]. unfold rabitq_merge, full_merge. rewrite (mapM_none full_fields _ (SlidingWindowSpec a w)); [done|by right|done].
Qed.

Lemma mixed_converted_raises :
  merge (RabitQAttentionSpec a None None bq k pp :: (to_full <$> specs)) = Raise AttributeError.
Proof.
  cbn [merge]. unfold rabitq_merge. rewrite mixed_full_merge. cbn [mbind outcome_bind].
  rewrite (mapM_none _ _ (FullAttentionSpec a (Some w) None)); [done| |done].
  right. apply list_elem_of_fmap. by exists (SlidingWindowSpec a w).
Qed.
End rabitq_mixed.

(** With the hybrid manager disabled, a RaBitQ model whose first attention layer is a RaBitQ
    layer and which also has sliding-window layers cannot be planned: the window layers become
    plain full-attention specs, and merging them with the RaBitQ spec raises [AttributeError]
    instead of the [ValueError] that reports specs that do not unify. *)
Theorem rabitq_hybrid_disabled_raises a bq k pp name d w lname avail s :
  disable_hybrid_kv_cache_manager s = true ->
  (forall n sp, (n, sp) ∈ d -> sp = RabitQAttentionSpec a None None bq k pp \/ sp = SlidingWindowSpec a w) ->
  (lname, SlidingWindowSpec a w) ∈ d ->
  let p := mkPlan s ((name, RabitQAttentionSpec a None None bq k pp) :: d) in
  (check_enough_kv_cache_memory avail p).1 = Ok tt ->
  (get_kv_cache_config avail p).1 = Raise AttributeError.
Proof.
  intros Hdis Hd Hw p Hchk. set (r := RabitQAttentionSpec a None None bq k pp) in *.
  assert (Hspecs : forall sp, sp ∈ d.*2 -> sp = r \/ sp = SlidingWindowSpec a w).
  { intros sp ([n sp'] & -> & Hin)%list_elem_of_fmap. by eapply Hd. }
  assert (Hwin : SlidingWindowSpec a w ∈ d.*2) by (apply list_elem_of_fmap; by exists (lname, SlidingWindowSpec a w)).
  assert (Hc : check_enough_kv_cache_memory avail p = (Ok tt, p)).
  { unfold check_enough_kv_cache_memory, get, lift_out, mbind, M_bind, mret, M_ret, raise in *. cbn [kv_specs p] in *.
    destruct (avail <=? 0)%Z; [done|]. destruct (max_memory_usage_bytes _ _) as [m|]; [|done].
    destruct (avail <? m)%Z; [|done]. by destruct (on_config _ p) as [[?|?] ?]. }
  unfold get_kv_cache_config, mbind, M_bind. rewrite Hc. unfold get. cbn [settings p]. rewrite Hdis.
  unfold unify_hybrid_kv_cache_specs, gets, lift_out, mbind, M_bind, modify. cbn [kv_specs p].
  unfold is_kv_cache_type_uniform at 1. rewrite fmap_cons. cbn [snd].
  pose proof (mixed_not_uniform a bq k pp w d.*2 Hwin) as E. fold r in E. rewrite E. cbv beta iota. clear E.
  assert (Hex : existsb is_full_spec (r :: d.*2) && (existsb is_sliding (r :: d.*2) || existsb is_chunked (r :: d.*2)) = true).
  { apply andb_true_iff. split; [done|]. apply orb_true_iff. left. apply existsb_exists.
    exists (SlidingWindowSpec a w). split; [right; by apply list_elem_of_In|done]. }
  rewrite Hex. cbn [set_specs kv_specs]. unfold is_kv_cache_type_uniform.
  assert (((fun '(name, s0) => (name, to_full s0)) <$> ((name, r) :: d)).*2 = r :: (to_full <$> d.*2)) as ->.
  { rewrite <-list_fmap_compose, fmap_cons. f_equal. rewrite <-list_fmap_compose. apply list_fmap_ext. by intros i [n x]. }
  pose proof (mixed_converted_raises a bq k pp w d.*2 Hspecs Hwin) as E. fold r in E. by rewrite E.
Qed.

Lemma rabitq_hybrid_disabled_raises_witness :
  (get_kv_cache_config 100000000 (mkPlan (mkSettings (toy_cfg 64) None true)
     [("l0"%string, RabitQAttentionSpec toy_attn None None (Some 4%Z) None None);
      ("l1"%string, SlidingWindowSpec toy_attn 32)])).1 = Raise AttributeError.
Proof.
  apply (rabitq_hybrid_disabled_raises toy_attn (Some 4%Z) None None "l0" [("l1"%string, SlidingWindowSpec toy_attn 32)]
           32 "l1" 100000000 (mkSettings (toy_cfg 64) None true)).
  - reflexivity.
  - intros n sp [[= _ ->]|H]%elem_of_cons; [by right|by apply elem_of_nil in H].
  - left.
  - vm_compute. reflexivity.
Defined.

(** A model without attention layers cannot be planned with the hybrid manager disabled: the
    uniformity test reads the first of no specs and raises [IndexError], before the case for
    attention-free models is reached; with the hybrid manager enabled it gets one block and no group. *)
Theorem attention_free_plan s avail :
  get_kv_cache_config avail (mkPlan s []) =
  (if disable_hybrid_kv_cache_manager s then Raise IndexError else Ok (mkConfig 1 [] []), mkPlan s []).
Proof. by destruct s as [c o []]. Qed.

(** ** Splitting the layers into groups *)

Lemma slices_concat fuel gs l : 0 < gs -> length l <= fuel -> concat (slices fuel gs l) = l.
Proof.
  intros Hgs. induction fuel as [|f IH] in l |- *; intros Hl; [by destruct l; simpl in *; [|lia]|].
  destruct l as [|x l]; [done|]. cbn [slices concat]. rewrite IH; [apply take_drop|].
  rewrite length_drop. simpl in *. lia.
Qed.

Lemma slices_length fuel gs l x : x ∈ slices fuel gs l -> length x <= gs.
Proof.
  induction fuel as [|f IH] in l |- *; [by intros ?%elem_of_nil|]. destruct l as [|y l]; [by intros ?%elem_of_nil|].
  intros [->|H]%elem_of_cons; [rewrite length_take; lia|by eapply IH].
Qed.

(** The layers of each type: every layer once, with the others of its spec. *)
Record types_ok (d : spec_dict) (g : list (KVCacheSpec * list string)) : Prop := {
  ty_perm : concat g.*2 ≡ₚ d.*1;
  ty_spec : forall s names n, (s, names) ∈ g -> n ∈ names -> (n, s) ∈ d;
  ty_nonempty : forall s names, (s, names) ∈ g -> names <> []
}.

Lemma add_layer_perm s n g : concat (add_layer s n g).*2 ≡ₚ n :: concat g.*2.
Proof.
  induction g as [|[s' names] g IH]; [done|]. cbn [add_layer]. case_decide; rewrite !fmap_cons; cbn [snd concat].
  - rewrite <-app_assoc. symmetry. apply Permutation_middle.
  - rewrite IH. symmetry. apply Permutation_middle.
Qed.

Lemma add_layer_elem s n g s' names :
  (s', names) ∈ add_layer s n g ->
  (s', names) ∈ g \/ (s' = s /\ exists old, names = old ++ [n] /\ (old = [] \/ (s', old) ∈ g)).
Proof.
  induction g as [|[s2 l] g IH]; cbn [add_layer].
  - intros [[= -> ->]|H]%elem_of_cons; [|by apply elem_of_nil in H]. right. split; [done|]. exists []. auto.
  - case_decide as Hs; intros [[= -> ->]|H]%elem_of_cons.
    + right. split; [done|]. exists l. split; [done|]. right. left.
    + left. by right.
    + left. left.
    + destruct (IH H) as [?|(? & old & ? & [?|?])]; [left; by right|right; split; [done|]; exists old; auto..].
      split; [done|]. right. by right.
Qed.

Lemma types_ok_add d g n s : types_ok d g -> types_ok (d ++ [(n, s)]) (add_layer s n g).
Proof.
  intros [H1 H2 H3]. split.
  - rewrite add_layer_perm, H1, fmap_app. simpl. apply Permutation_cons_append.
  - intros s' names x Hin Hx. apply elem_of_app. destruct (add_layer_elem _ _ _ _ _ Hin) as [Hg|(-> & old & -> & Ho)].
    + left. by eapply H2.
    + apply elem_of_app in Hx as [Hx|Hx].
      * left. destruct Ho as [->|Ho]; [by apply elem_of_nil in Hx|by eapply H2].
      * right. apply list_elem_of_singleton in Hx as ->. left.
  - intros s' names Hin. destruct (add_layer_elem _ _ _ _ _ Hin) as [Hg|(-> & old & -> & Ho)]; [by eapply H3|].
    by destruct old.
Qed.

Lemma same_type_layers_ok d : types_ok d (same_type_layers d).
Proof.
  unfold same_type_layers. induction d as [|[n s] d IH] using rev_ind.
  - split; [done|intros s names n H|intros s names H]; by apply elem_of_nil in H.
  - rewrite foldl_app. cbn [foldl]. by apply types_ok_add.
Qed.

(** *** The pools *)

Lemma pool_column n (l : list string) : length l <= n -> omap (fun i => l !! i) (seq 0 n) = l.
Proof.
  intros Hl. assert (H : forall k, k <= length l -> omap (fun i => l !! i) (seq 0 k) = take k l).
  { induction k as [|k IH]; intros Hk; [by destruct l|]. rewrite seq_S, omap_app, IH by lia. simpl.
    destruct (lookup_lt_is_Some_2 l k ltac:(lia)) as [x Hx]. rewrite Hx. by rewrite (take_S_r _ _ _ Hx). }
  transitivity (omap (fun i => l !! i) (seq 0 (length l))); [|rewrite H by done; by rewrite take_ge].
  replace n with (length l + (n - length l)) by lia. rewrite seq_app, omap_app. simpl.
  assert (omap (fun i => l !! i) (seq (length l) (n - length l)) = []) as ->; [|by rewrite app_nil_r].
  apply elem_of_nil_inv. intros x (i & Hi%elem_of_seq & Hx)%list_elem_of_omap. apply lookup_lt_Some in Hx. lia.
Qed.

(** The pools hold every layer of every group once. *)
Lemma pools_perm grouped n :
  (forall l, l ∈ grouped -> length l <= n) -> concat (shared_by_pool grouped <$> seq 0 n) ≡ₚ concat grouped.
Proof.
  induction grouped as [|l grouped IH]; intros Hl.
  - assert (concat (shared_by_pool [] <$> seq 0 n) = []) as ->; [|done]. generalize (seq 0 n).
    intros idx. induction idx as [|i idx IHi]; [done|]. exact IHi.
  - assert (concat (shared_by_pool (l :: grouped) <$> seq 0 n) ≡ₚ
      omap (fun i => l !! i) (seq 0 n) ++ concat (shared_by_pool grouped <$> seq 0 n)) as ->.
    { generalize (seq 0 n). intros idx. induction idx as [|i idx IHi]; [done|]. rewrite !fmap_cons. cbn [concat omap].
      rewrite IHi. unfold shared_by_pool at 1. cbn [omap list_omap]. destruct (l !! i) as [x|] eqn:Hx; simpl; rewrite ?Hx.
      - apply Permutation_cons; [done|]. rewrite !app_assoc. apply Permutation_app_tail, Permutation_app_comm.
      - rewrite !app_assoc. apply Permutation_app_tail, Permutation_app_comm. }
    rewrite (pool_column n l) by (apply Hl; left). simpl. rewrite IH by (intros; apply Hl; by right). done.
Qed.

Lemma create_names d grouped gs : create_kv_cache_group_specs d grouped = Ok gs -> layer_names <$> gs = grouped.
Proof.
  induction grouped as [|names rest IH] in gs |- *; cbn [create_kv_cache_group_specs]; [by intros [= <-]|].
  intros (specs & _ & (m & _ & (r & Hr & [= <-])%bind_Ok)%bind_Ok)%bind_Ok. rewrite fmap_cons, (IH _ Hr). done.
Qed.

Lemma min_positive n0 ns : (forall n, n ∈ n0 :: ns -> 0 < n) -> 0 < foldr Nat.min n0 ns.
Proof.
  intros H. induction ns as [|n ns IH]; cbn [foldr]; [apply H; left|].
  assert (0 < n) by (apply H; right; left). assert (0 < foldr Nat.min n0 ns); [|lia].
  apply IH. intros x [->|Hx]%elem_of_cons; apply H; [left|right; by right].
Qed.

Definition split_types (gs : nat) (types : list (KVCacheSpec * list string)) : list (list string) :=
  types ≫= (fun '(_, layers) => slices (length layers) gs layers).

Lemma split_types_concat gs types : 0 < gs -> concat (split_types gs types) = concat types.*2.
Proof.
  intros Hgs. induction types as [|[s l] types IH]; [done|]. unfold split_types in *. cbn [mbind list_bind].
  rewrite concat_app, IH, slices_concat by done. done.
Qed.

Lemma split_types_elem gs types x :
  x ∈ split_types gs types -> length x <= gs /\ exists s layers, (s, layers) ∈ types /\ x ∈ slices (length layers) gs layers.
Proof.
  intros ([s l] & Hx & Hin)%list_elem_of_bind. split; [by eapply slices_length|]. eauto.
Qed.

Lemma slices_elem fuel gs l x n : x ∈ slices fuel gs l -> n ∈ x -> n ∈ l.
Proof.
  induction fuel as [|f IH] in l |- *; [by intros ?%elem_of_nil|]. destruct l as [|y l]; [by intros ?%elem_of_nil|].
  intros [->|H]%elem_of_cons Hn.
  - eapply elem_of_submseteq; [exact Hn|apply sublist_submseteq, sublist_take].
  - eapply elem_of_submseteq; [by eapply IH|apply sublist_submseteq, sublist_drop].
Qed.

(** A planned configuration of a hybrid model with one page size: the groups partition the
    layers, the layers of a group have one spec, no group has more layers than there are memory
    pools, the pools partition the layers as well (so two layers share a pool only across groups),
    and the pools together fit into the available memory. *)
Theorem page_size_config_partition s d avail cfg :
  NoDup d.*1 -> get_kv_cache_config_uniform_page_size s d avail = Ok cfg ->
  num_gpu_blocks_override s = None -> (0 <= avail)%Z -> (forall pg, get_uniform_page_size d = Ok pg -> (0 < pg)%Z) ->
  concat (layer_names <$> kv_cache_groups cfg) ≡ₚ d.*1 /\
  concat (shared_by <$> kv_cache_tensors cfg) ≡ₚ d.*1 /\
  (forall g, g ∈ kv_cache_groups cfg -> length (layer_names g) <= length (kv_cache_tensors cfg) /\
     exists sp, forall n, n ∈ layer_names g -> dict_get n d = Ok sp) /\
  (total_tensor_bytes cfg <= avail)%Z.
Proof.
  intros Hnd Hcfg Hov Ha Hpos. pose proof (same_type_layers_ok d) as Hty.
  unfold get_kv_cache_config_uniform_page_size in Hcfg.
  destruct ((length ∘ snd) <$> same_type_layers d) as [|n0 ns] eqn:Hlens; [done|].
  set (gs := foldr Nat.min n0 ns) in *. fold (split_types gs (same_type_layers d)) in Hcfg.
  set (grouped := split_types gs (same_type_layers d)) in *.
  assert (Hgs : 0 < gs).
  { apply min_positive. rewrite <-Hlens. intros n ([sp l] & -> & Hin)%list_elem_of_fmap. cbn.
    pose proof (ty_nonempty _ _ Hty _ _ Hin). destruct l; [done|simpl; lia]. }
  destruct (proj1 (bind_Ok _ _ _) Hcfg) as (groups & Hgroups & (page & Hp & (n & Hn & (q & _ & [= <-])%bind_Ok)%bind_Ok)%bind_Ok).
  pose proof (create_names _ _ _ Hgroups) as Hnames. cbn [kv_cache_groups kv_cache_tensors].
  assert (Hshared : shared_by <$> ((fun i => mkTensor (page * n) (shared_by_pool grouped i)) <$> seq 0 gs) =
    shared_by_pool grouped <$> seq 0 gs) by (rewrite <-list_fmap_compose; done).
  assert (Hperm : concat grouped ≡ₚ d.*1) by (unfold grouped; rewrite split_types_concat by done; apply Hty).
  split_and!.
  - by rewrite Hnames.
  - rewrite Hshared, pools_perm; [done|]. intros l Hl. by apply (split_types_elem gs _ _ Hl).
  - intros g Hg. assert (layer_names g ∈ grouped) as Hin by (rewrite <-Hnames; by apply list_elem_of_fmap_2).
    destruct (split_types_elem gs _ _ Hin) as (Hl & sp & layers & Hty' & Hsl). rewrite length_fmap, length_seq.
    split; [done|]. exists sp. intros x Hx. apply dict_get_elem; [done|].
    eapply (ty_spec _ _ Hty); [exact Hty'|]. by eapply slices_elem.
  - destruct (get_num_blocks_spec _ _ avail _ _ (Hpos _ Hp) Ha Hov Hn) as (_ & Hle & _).
    pose proof (total_bytes_const (page * n) (shared_by_pool grouped <$> seq 0 gs) groups n) as Ht.
    rewrite length_fmap, length_seq, <-list_fmap_compose in Ht. unfold compose in Ht.
    unfold total_tensor_bytes in *. cbn [kv_cache_tensors] in *. rewrite Ht. lia.
Qed.

Definition hybrid_dict : spec_dict :=
  [("l0"%string, RabitQAttentionSpec toy_attn None None (Some 4%Z) None None); ("l1"%string, SlidingWindowSpec toy_attn 32);
   ("l2"%string, SlidingWindowSpec toy_attn 32); ("l3"%string, RabitQAttentionSpec toy_attn None None (Some 4%Z) None None);
   ("l4"%string, SlidingWindowSpec toy_attn 32)].

Lemma page_size_config_partition_witness :
  match get_kv_cache_config_uniform_page_size (mkSettings (toy_cfg 64) None false) hybrid_dict 100000000 with
  | Ok cfg => concat (shared_by <$> kv_cache_tensors cfg) ≡ₚ hybrid_dict.*1
  | Raise _ => False
  end.
Proof.
  destruct (get_kv_cache_config_uniform_page_size (mkSettings (toy_cfg 64) None false) hybrid_dict 100000000)
    as [cfg|e] eqn:E; [|vm_compute in E; discriminate].
  apply (page_size_config_partition (mkSettings (toy_cfg 64) None false) hybrid_dict 100000000 cfg).
  - apply (bool_decide_unpack _). vm_compute. exact I.
  - exact E.
  - reflexivity.
  - lia.
  - intros pg H. vm_compute in H. injection H as <-. reflexivity.
Defined.

(** ** Workers *)

Lemma insert_group_perm g l r : insert_group g l = Ok r -> r ≡ₚ g :: l.
Proof.
  induction l as [|h l IH] in r |- *; cbn [insert_group]; [by intros [= <-]|].
  intros (lt & _ & H)%bind_Ok. destruct lt; [|by injection H as <-].
  apply bind_Ok in H as (r' & Hr & [= <-]). rewrite (IH _ Hr). apply Permutation_swap.
Qed.

Lemma sort_groups_perm l r : sort_groups l = Ok r -> r ≡ₚ l.
Proof.
  induction l as [|g l IH] in r |- *; cbn [sort_groups]; [by intros [= <-]|].
  intros (r' & Hr & Hi)%bind_Ok. rewrite (insert_group_perm _ _ _ Hi). by rewrite (IH _ Hr).
Qed.

Lemma mapM_outcome_Forall2 {A B} (f : A -> outcome B) l r : mapM f l = Ok r -> Forall2 (fun x y => f x = Ok y) l r.
Proof.
  induction l as [|x l IH] in r |- *; cbn [mapM]; [intros [= <-]; constructor|].
  intros (y & Hy & (r' & Hr & [= <-])%bind_Ok)%bind_Ok. constructor; auto.
Qed.

Lemma min_blocks_spec c0 rest :
  let m := foldr (fun c m => Z.min (num_blocks c) m) (num_blocks c0) rest in
  (forall c, c ∈ c0 :: rest -> (m <= num_blocks c)%Z) /\ exists c, c ∈ c0 :: rest /\ num_blocks c = m.
Proof.
  induction rest as [|c rest [IH1 (c' & Hc' & IH2)]]; cbn [foldr].
  - split; [intros c ->%list_elem_of_singleton; lia|exists c0; split; [left|done]].
  - set (m := foldr _ _ rest) in *. split.
    + intros x [->|[->|Hx]%elem_of_cons]%elem_of_cons; [|lia|].
      * specialize (IH1 c0 ltac:(left)). lia.
      * specialize (IH1 x ltac:(by right)). lia.
    + destruct (Z.min_spec (num_blocks c) m) as [[_ ->]|[_ ->]]; [exists c; split; [right; left|done]|].
      exists c'. split; [|done]. apply elem_of_cons in Hc' as [->|]; [left|right; by right].
Qed.

Lemma same_group_specs_eq a b :
  same_group_specs a b = true -> length a = length b -> group_spec <$> a = group_spec <$> b.
Proof.
  unfold same_group_specs. induction a as [|x a IH] in b |- *; intros H Hl; destruct b as [|y b]; try done.
  cbn [zip zip_with forallb] in H. apply andb_true_iff in H as [E H]. apply bool_decide_eq_true in E.
  rewrite !fmap_cons, E. f_equal. apply IH; [exact H|]. by injection Hl.
Qed.

(** Unifying the workers' configurations: all get the smallest number of blocks among them, no
    tensor is changed, every worker keeps its groups up to their order, and workers with as
    many groups as the first one end with its specs in its order. *)
Theorem unify_kv_cache_configs_consistent configs cs :
  unify_kv_cache_configs configs = Ok cs ->
  (exists n, (forall c, c ∈ cs -> num_blocks c = n) /\ (forall c, c ∈ configs -> (n <= num_blocks c)%Z) /\
     exists c, c ∈ configs /\ num_blocks c = n) /\
  Forall2 (fun c c' => kv_cache_tensors c' = kv_cache_tensors c /\ kv_cache_groups c' ≡ₚ kv_cache_groups c) configs cs /\
  (forall c0 c, head cs = Some c0 -> c ∈ cs -> length (kv_cache_groups c) = length (kv_cache_groups c0) ->
     group_spec <$> kv_cache_groups c = group_spec <$> kv_cache_groups c0).
Proof.
  intros (sorted & Hs & H)%bind_Ok. apply mapM_outcome_Forall2 in Hs. destruct sorted as [|c0 rest]; [done|].
  apply bind_Ok in H as ([] & Hall%assert_Ok & H). set (m := foldr _ _ rest) in *.
  assert (cs = set_num_blocks m <$> (c0 :: rest)) as -> by (by injection H).
  assert (Hrel : Forall2 (fun c s => num_blocks s = num_blocks c /\ kv_cache_tensors s = kv_cache_tensors c /\
    kv_cache_groups s ≡ₚ kv_cache_groups c) configs (c0 :: rest)).
  { eapply Forall2_impl; [exact Hs|]. intros c s (gs & Hg & [= <-])%bind_Ok. cbn. eauto using sort_groups_perm. }
  destruct (min_blocks_spec c0 rest) as [Hmin (cm & Hcm & Hm)]. fold m in Hmin, Hm.
  split_and!.
  - exists m. split_and!.
    + intros c (s & -> & _)%list_elem_of_fmap. done.
    + intros c (i & Hi)%list_elem_of_lookup_1. destruct (Forall2_lookup_l _ _ _ _ _ Hrel Hi) as (s & Hsi & <- & _).
      apply Hmin. by eapply list_elem_of_lookup_2.
    + apply list_elem_of_lookup_1 in Hcm as [i Hi]. destruct (Forall2_lookup_r _ _ _ _ _ Hrel Hi) as (c & Hci & E & _).
      exists c. split; [by eapply list_elem_of_lookup_2|congruence].
  - apply Forall2_fmap_r. eapply Forall2_impl; [exact Hrel|]. intros c s (_ & H2 & H3). done.
  - assert (Hspec : forall c, c ∈ c0 :: rest -> length (kv_cache_groups c) = length (kv_cache_groups c0) ->
      group_spec <$> kv_cache_groups c = group_spec <$> kv_cache_groups c0).
    { intros c [->|Hc]%elem_of_cons Hl; [done|]. symmetry. apply same_group_specs_eq; [|done].
      rewrite forallb_forall in Hall. apply Hall. by apply list_elem_of_In. }
    intros c1 c [= <-] (s & -> & Hsc)%list_elem_of_fmap Hl. cbn in *. by apply Hspec.
Qed.

Lemma unify_kv_cache_configs_consistent_witness :
  let g := mkGroup ["l0"%string] demo_layer in
  let h := mkGroup ["l1"%string] (SlidingWindowSpec toy_attn 32) in
  match unify_kv_cache_configs [mkConfig 10 [] [h; g]; mkConfig 7 [] [g; h]] with
  | Ok cs => exists n, forall c, c ∈ cs -> num_blocks c = n
  | Raise _ => False
  end.
Proof.
  intros g h. destruct (unify_kv_cache_configs [mkConfig 10 [] [h; g]; mkConfig 7 [] [g; h]]) as [cs|e] eqn:E;
    [|vm_compute in E; discriminate].
  destruct (unify_kv_cache_configs_consistent _ _ E) as ((n & Hn & _) & _). exists n. exact Hn.
Defined.

(** *** The specs of the layers *)

Lemma dict_put_keys k s d x : x ∈ (dict_put k s d).*1 <-> x = k \/ x ∈ d.*1.
Proof.
  induction d as [|[k' s'] d IH]; cbn [dict_put]; [set_solver|].
  case_decide as Hk; rewrite !fmap_cons, !elem_of_cons; cbn [fst]; [naive_solver|]. rewrite IH. naive_solver.
Qed.

Lemma dict_put_nodup k s d : NoDup d.*1 -> NoDup (dict_put k s d).*1.
Proof.
  induction d as [|[k' s'] d IH]; intros Hnd; cbn [dict_put]; [repeat constructor; apply not_elem_of_nil|].
  apply NoDup_cons in Hnd as [Hk' Hnd]. case_decide as Hk; rewrite fmap_cons; cbn [fst]; constructor; auto.
  - by subst.
  - rewrite dict_put_keys. naive_solver.
Qed.

Lemma dict_put_elem k s d n v : (n, v) ∈ dict_put k s d -> (n = k /\ v = s) \/ (n, v) ∈ d.
Proof.
  induction d as [|[k' s'] d IH]; cbn [dict_put]; [set_solver|].
  case_decide; rewrite !elem_of_cons; naive_solver.
Qed.

Lemma dict_put_other k s d n v : n <> k -> (n, v) ∈ d -> (n, v) ∈ dict_put k s d.
Proof.
  intros Hn. induction d as [|[k' s'] d IH]; cbn [dict_put]; [by intros ?%elem_of_nil|].
  case_decide; rewrite !elem_of_cons; naive_solver.
Qed.

Lemma dict_put_new k s d : (k, s) ∈ dict_put k s d.
Proof.
  induction d as [|[k' s'] d IH]; cbn [dict_put]; [left|]. case_decide; [left|by right].
Qed.

(** Where a spec comes from. *)
Definition attn_origin (c : RunnerConfig) (a : AttnModule) (sp : KVCacheSpec) : Prop :=
  kv_sharing_target_layer_name a = None /\
  match attn_type a with
  | DECODER => decoder_spec c a = Ok sp
  | ENCODER_DECODER => sp = CrossAttentionSpec (module_attn c a)
  | _ => False
  end.

Lemma attn_loop_spec c layers : forall d sh d' sh',
  NoDup d.*1 -> attn_loop c layers d sh = Ok (d', sh') ->
  NoDup d'.*1 /\
  (forall n sp, (n, sp) ∈ d' -> (n, sp) ∈ d \/ exists a, (n, a) ∈ layers /\ attn_origin c a sp) /\
  (forall n sp, (n, sp) ∈ d -> n ∉ layers.*1 -> (n, sp) ∈ d') /\
  (NoDup layers.*1 -> forall n a, (n, a) ∈ layers -> kv_sharing_target_layer_name a = None -> attn_type a = DECODER ->
     exists sp, decoder_spec c a = Ok sp /\ (n, sp) ∈ d').
Proof.
  induction layers as [|[name a] rest IH]; intros d sh d' sh' Hnd; cbn [attn_loop].
  - intros [= <- <-]. split_and!; [done|auto|auto|]. intros _ n a H. by apply elem_of_nil in H.
  - (** one step that puts [sp] or leaves the dict alone *)
    assert (Hput : forall sp, attn_origin c a sp -> attn_loop c rest (dict_put name sp d) sh = Ok (d', sh') ->
      NoDup d'.*1 /\ (forall n sp, (n, sp) ∈ d' -> (n, sp) ∈ d \/ exists a0, (n, a0) ∈ (name, a) :: rest /\ attn_origin c a0 sp) /\
      (forall n sp, (n, sp) ∈ d -> n ∉ ((name, a) :: rest).*1 -> (n, sp) ∈ d') /\
      (NoDup ((name, a) :: rest).*1 -> forall n a0, (n, a0) ∈ (name, a) :: rest -> kv_sharing_target_layer_name a0 = None ->
         attn_type a0 = DECODER -> exists sp, decoder_spec c a0 = Ok sp /\ (n, sp) ∈ d')).
    { intros sp Ho H. destruct (IH _ _ _ _ (dict_put_nodup name sp d Hnd) H) as (I1 & I2 & I3 & I4). split_and!; [done|..].
      - intros n sp' Hin. destruct (I2 _ _ Hin) as [Hd|(a0 & Ha0 & Ho0)].
        + destruct (dict_put_elem _ _ _ _ _ Hd) as [[-> ->]|?]; [right; exists a; split; [left|done]|by left].
        + right. exists a0. split; [by right|done].
      - rewrite fmap_cons. cbn [fst]. intros n sp' Hin [Hne Hni]%not_elem_of_cons. apply I3; [by apply dict_put_other|done].
      - rewrite fmap_cons. cbn [fst]. intros [Hni Hnr]%NoDup_cons n a0 [[= -> ->]|Hin]%elem_of_cons Hs Ht; [|eauto].
        exists sp. destruct Ho as [_ Ho]. rewrite Ht in Ho. split; [done|]. apply I3; [apply dict_put_new|done]. }
    assert (Hskip : forall sh0, (kv_sharing_target_layer_name a <> None \/ attn_type a <> DECODER) ->
      attn_loop c rest d sh0 = Ok (d', sh') ->
      NoDup d'.*1 /\ (forall n sp, (n, sp) ∈ d' -> (n, sp) ∈ d \/ exists a0, (n, a0) ∈ (name, a) :: rest /\ attn_origin c a0 sp) /\
      (forall n sp, (n, sp) ∈ d -> n ∉ ((name, a) :: rest).*1 -> (n, sp) ∈ d') /\
      (NoDup ((name, a) :: rest).*1 -> forall n a0, (n, a0) ∈ (name, a) :: rest -> kv_sharing_target_layer_name a0 = None ->
         attn_type a0 = DECODER -> exists sp, decoder_spec c a0 = Ok sp /\ (n, sp) ∈ d')).
    { intros sh0 Hno H. destruct (IH _ _ _ _ Hnd H) as (I1 & I2 & I3 & I4). split_and!; [done|..].
      - intros n sp' Hin. destruct (I2 _ _ Hin) as [Hd|(a0 & Ha0 & Ho0)]; [by left|].
        right. exists a0. split; [by right|done].
      - rewrite fmap_cons. intros n sp' Hin [Hne Hni]%not_elem_of_cons. by apply I3.
      - rewrite fmap_cons. intros [Hni Hnr]%NoDup_cons n a0 [[= -> ->]|Hin]%elem_of_cons Hs Ht; [naive_solver|eauto]. }
    destruct (kv_sharing_target_layer_name a) as [t|] eqn:Hsh; [apply Hskip; by left|].
    destruct (attn_type a) eqn:Ht; try (apply Hskip; right; congruence); try done.
    + intros (sp & Hsp & H)%bind_Ok. apply (Hput sp); [|done]. split; [done|]. by rewrite Ht.
    + apply Hput. split; [done|]. by rewrite Ht.
Qed.

Lemma mamba_loop_spec c ms : forall d,
  NoDup d.*1 ->
  let d' := foldl (fun d '(name, m) => dict_put name (mamba_spec c m) d) d ms in
  NoDup d'.*1 /\ (forall n sp, (n, sp) ∈ d' -> (n, sp) ∈ d \/ exists m, (n, m) ∈ ms /\ sp = mamba_spec c m) /\
  (forall n sp, (n, sp) ∈ d -> n ∉ ms.*1 -> (n, sp) ∈ d').
Proof.
  induction ms as [|[name m] ms IH]; intros d Hnd; cbn [foldl]; [split_and!; auto|].
  destruct (IH _ (dict_put_nodup name (mamba_spec c m) d Hnd)) as (I1 & I2 & I3). split_and!; [done|..].
  - intros n sp Hin. destruct (I2 _ _ Hin) as [Hd|(m' & Hm' & ->)]; [|right; exists m'; split; [by right|done]].
    destruct (dict_put_elem _ _ _ _ _ Hd) as [[-> ->]|?]; [right; exists m; split; [left|done]|by left].
  - rewrite fmap_cons. intros n sp Hin [Hne Hni]%not_elem_of_cons. apply I3; [by apply dict_put_other|done].
Qed.


Definition demo_runner : RunnerConfig :=
  mkRunner 16 false true (Some 4%Z) (Some 64%Z) None None (mkDtype "bfloat16" 2) None "llama" true 4096 None.
Definition demo_modules : list (string * AttnModule) :=
  [("l0"%string, mkAttnModule None DECODER None false 8 128); ("l1"%string, mkAttnModule (Some "l0"%string) DECODER None false 8 128);
   ("l2"%string, mkAttnModule None ENCODER_ONLY None false 8 128)].

