(* ===== verification/Startup.v ===== *)
(** From the planned configuration to the first request: the memory check of
    [vllm/v1/core/kv_cache_utils.py] against the slot allocation of
    [vllm/v1/core/kv_cache_manager.py] over the same configuration. *)
From stdpp Require Import base gmap list strings.
From Stdlib Require Import ZArith Lia.
From S2P Require Import Prelude BlockQueue Request HashKeys BlockPool CacheSpec SingleType Coordinator CacheManager CacheConfig.
Open Scope nat_scope.

(** * A manager no request has used *)

Lemma occ_refs_empty b m : (forall id, blocks_of m id = []) -> occ_refs b (req_to_blocks m) = 0.
Proof.
  intros H. apply occ_not_in. intros (id & l & Hl & Hb)%elem_of_refs. specialize (H id). unfold blocks_of in H.
  rewrite Hl in H. simpl in H. subst l. by apply elem_of_nil in Hb.
Qed.

Lemma total_refs_empty b c : (forall i id, group_blocks c i id = []) -> total_refs b (single_type_managers c) = 0.
Proof.
  intros H. unfold total_refs.
  assert (Hm : forall m, m ∈ single_type_managers c -> forall id, blocks_of m id = []).
  { intros m [i Hi]%list_elem_of_lookup_1 id. by rewrite <-(group_blocks_lookup _ _ _ _ Hi). }
  induction (single_type_managers c) as [|m ms IH]; [done|]. simpl.
  rewrite occ_refs_empty by (apply Hm; left). apply IH. intros m' Hm'. apply Hm. by right.
Qed.

(** With empty tables every block but the null block is free. *)
Lemma all_free fl c :
  coord_inv no_ref fl c -> (forall i id, group_blocks c i id = []) -> length fl = num_gpu_blocks (co_pool c) - 1.
Proof.
  intros Hc H. pose proof (fr_nodup _ _ (po_queue _ _ (po_core _ _ (ci_pool _ _ _ Hc)))) as Hnd.
  assert (Hperm : fl ≡ₚ Blk <$> seq 1 (num_gpu_blocks (co_pool c) - 1)).
  { apply NoDup_Permutation; [done|apply NoDup_fmap; [by intros ? ? [=]|apply NoDup_seq]|].
    intros b. rewrite (po_free _ _ (ci_pool _ _ _ Hc)), list_elem_of_fmap. split.
    - intros ((i & -> & Hi) & H0 & _). exists i. split; [done|]. apply elem_of_seq. assert (i <> 0) by congruence. lia.
    - intros (i & -> & Hi%elem_of_seq). assert (in_pool (co_pool c) (Blk i)) as Hin by (exists i; split; [done|lia]).
      assert (Blk i <> Blk 0) as H0 by (intros [=]; lia). split_and!; [done..|].
      rewrite (ci_refs _ _ _ Hc _ Hin H0), total_refs_empty by done. done. }
  rewrite Hperm, length_fmap, length_seq. done.
Qed.

Section fresh.
Context (cfg : KVCacheConfig) (max_len : nat) (caching eagle log ui : bool) (k : KVCacheManager).
Context (g : KVCacheGroupSpec) (a : AttentionSpec) (sw cs : option Z).
Hypothesis Hinit : kvm_init cfg max_len caching eagle log false ui 1 = Ok k.
Hypothesis Hgroups : kv_cache_groups cfg = [g].
Hypothesis Hfull : full_fields (group_spec g) = Some (a, sw, cs).
Hypothesis Hbs : 0 < attn_block_size a.

Lemma full_block_size : block_size (group_spec g) = attn_block_size a.
Proof. revert Hfull. by destruct (group_spec g); intros [= -> -> ->]. Qed.

Lemma fresh_fields : kvm_max_model_len k = max_len /\ kvm_enable_caching k = caching /\ num_kv_cache_groups k = 1.
Proof. destruct (proj1 (bind_Ok _ _ _) Hinit) as (bs & _ & (c & _ & [= <-])%bind_Ok). rewrite Hgroups. done. Qed.

Lemma fresh_coordinator :
  coord_inv no_ref (Blk <$> seq 1 (Z.to_nat (num_blocks cfg) - 1)) (coordinator k) /\
  (forall i id, group_blocks (coordinator k) i id = []) /\
  num_gpu_blocks (co_pool (coordinator k)) = Z.to_nat (num_blocks cfg) /\
  enable_caching (co_pool (coordinator k)) = caching /\
  enable_kv_cache_events (co_pool (coordinator k)) = false /\
  single_type_managers (coordinator k) =
    [mkMgr FullAttentionManager (attn_block_size a) (group_spec g) ∅ ∅ 0 (Blk 0)].
Proof.
  apply kvm_init_coordinator in Hinit as Hc. destruct (get_coordinator_inv _ _ _ _ _ _ _ Hc) as (H1 & _ & H2 & H3 & H4).
  assert (Hcase : exists cls, coordinator_init cfg eagle caching false ui 1 cls = Ok (coordinator k)).
  { unfold get_kv_cache_coordinator in Hc. rewrite Hgroups in Hc. destruct caching; simpl in Hc; eauto. }
  destruct Hcase as (cls & (p & Hp & (ms & Hms & E)%bind_Ok)%bind_Ok). rewrite Hgroups in Hms.
  assert (0 < Z.to_nat (num_blocks cfg)) as Hpos.
  { unfold pool_init in Hp. by destruct (Nat.ltb_spec 0 (Z.to_nat (num_blocks cfg))). }
  destruct (pool_init_spec _ caching false ui Hpos) as (p' & Hp' & Hok & _ & _ & Hev & _).
  rewrite Hp in Hp'. injection Hp' as <-. injection E as E. rewrite <-E in *. cbn [co_pool single_type_managers] in *.
  split_and!; try done. apply bind_Ok in Hms as (m & Hm & (r & [= <-] & [= <-])%bind_Ok).
  f_equal. unfold manager_init in Hm. apply bind_Ok in Hm as (kind & Hk & [= <-]).
  rewrite full_block_size, (po_null _ _ (po_core _ _ Hok)). f_equal.
  revert Hk Hfull. by destruct (group_spec g); intros [= <-].
Qed.

Lemma fresh_manager i m :
  single_type_managers (coordinator k) !! i = Some m ->
  i = 0 /\ m = mkMgr FullAttentionManager (attn_block_size a) (group_spec g) ∅ ∅ 0 (Blk 0).
Proof.
  destruct fresh_coordinator as (_ & _ & _ & _ & _ & ->). destruct i; [by intros [= <-]|done].
Qed.

Lemma fresh_unpublished i b id comp : b ∉ unpublished (coordinator k) id comp [[]] i.
Proof.
  unfold unpublished, pruned. destruct (_ !! i) as [m|] eqn:Hm; [|apply not_elem_of_nil].
  apply fresh_manager in Hm as (-> & ->). unfold saved_num. cbn. rewrite lookup_empty, lookup_insert_eq.
  unfold blocks_of. cbn. rewrite lookup_empty. apply not_elem_of_nil.
Qed.

(** A first request meets the contract of [allocate_slots]. *)
Lemma fresh_contract r num_new (delay : bool) :
  num_computed_tokens r = 0%Z -> 0 < num_new -> num_tokens r / attn_block_size a <= length (block_hashes r) ->
  alloc_contract k r num_new 0 None 0 delay 0.
Proof.
  intros Hcomp Hnew Hh. destruct fresh_fields as (F1 & F2 & F3).
  destruct fresh_coordinator as (_ & Hg & _ & Hca & Hev & Hms).
  assert (Hempty : forall i m, single_type_managers (coordinator k) !! i = Some m -> blocks_of m (request_id r) = []).
  { intros i m (-> & ->)%fresh_manager. unfold blocks_of. cbn. by rewrite lookup_empty. }
  split; [done|..]; rewrite F3, Hcomp; cbn [default replicate Z.to_nat].
  - split.
    + intros i m Hm. rewrite (Hempty _ _ Hm). apply fresh_manager in Hm as (-> & ->).
      split; [intros i j Hj; by rewrite lookup_nil in Hj|cbn; lia].
    + by rewrite Hms.
    + intros b Hb. by apply elem_of_nil in Hb.
    + intros b Hb. by apply elem_of_nil in Hb.
    + intros i m ni Hm _. unfold save_ready. rewrite (Hempty _ _ Hm). apply fresh_manager in Hm as (-> & ->).
      cbn. by rewrite lookup_empty.
    + done.
    + left. rewrite Hms. intros i Hi. unfold deficit. rewrite Hms. replace i with 0 by (simpl in Hi; lia). cbn.
      unfold blocks_of. cbn. rewrite lookup_empty. cbn. unfold required_blocks, tokens_needed. cbn.
      match goal with |- (0 <= cdiv ?x ?y - _ - _)%Z => pose proof (cdiv_nonneg x y ltac:(lia) ltac:(lia)) end. lia.
  - intros Hc _. rewrite F2 in Hc. split; [done|by rewrite Hca|..].
    + intros i m (-> & ->)%fresh_manager. cbn. split_and!; [done|done|done| |].
      * transitivity (num_tokens r / attn_block_size a); [apply Nat.Div0.div_le_mono; lia|done].
      * exists 0. rewrite lookup_empty, lookup_insert_eq. split; [done|lia].
    + intros i b Hb. by destruct (fresh_unpublished i b (request_id r) 0).
    + intros i j b Hb. by destruct (fresh_unpublished i b (request_id r) 0).
Qed.

(** The first request gets its slots exactly when its pages are fewer than the blocks. *)
Lemma first_request_run r num_new (delay : bool) :
  num_computed_tokens r = 0%Z -> 0 < num_new <= max_len -> num_tokens r / attn_block_size a <= length (block_hashes r) ->
  exists o k', allocate_slots r num_new 0 None 0 delay 0 k = (Ok o, k') /\
    (o = None <-> num_blocks cfg <= cdiv (Z.of_nat num_new) (Z.of_nat (attn_block_size a)))%Z.
Proof.
  intros Hcomp Hnew Hh. destruct fresh_fields as (F1 & F2 & F3).
  destruct fresh_coordinator as (Hc & Hg & Hnum & _ & _ & Hms).
  destruct (allocate_slots_spec k _ r num_new 0 None 0 delay 0 (fresh_contract r num_new delay Hcomp ltac:(lia) Hh) Hc)
    as (c1 & fl1 & Hc1 & S1 & T1 & O1 & Hif). rewrite Hcomp, F1, F3 in Hif. cbn [default replicate] in Hif.
  assert (Hempty : forall i id, group_blocks c1 i id = []).
  { intros i id. destruct (decide (id = request_id r)) as [->|Hid]; [|by rewrite O1].
    destruct (decide (i < length (single_type_managers (coordinator k)))) as [Hi|Hi].
    - rewrite T1 by done. unfold pruned. destruct (_ !! i) as [m|] eqn:Hm; [|done]. apply fresh_manager in Hm as (-> & ->).
      unfold blocks_of. cbn. by rewrite lookup_empty.
    - unfold group_blocks. rewrite lookup_ge_None_2; [done|]. rewrite (same_shape_length _ _ S1). lia. }
  assert (Hpos : (1 <= num_blocks cfg)%Z).
  { pose proof (po_num _ _ (po_core _ _ (ci_pool _ _ _ Hc))) as Hp. rewrite Hnum in Hp. lia. }
  assert (Hfl : Z.of_nat (length fl1) = (num_blocks cfg - 1)%Z).
  { rewrite (all_free _ _ Hc1 Hempty). destruct S1 as ((-> & _) & _). rewrite Hnum. lia. }
  assert (Hneed : total_need c1 (request_id r) num_new 0 [[]] = cdiv (Z.of_nat num_new) (Z.of_nat (attn_block_size a))).
  { unfold total_need. rewrite (same_shape_length _ _ S1), Hms. cbn [length sumz concat app].
    change (num_evictable (co_pool c1) []) with 0.
    rewrite (deficit_shape (coordinator k)) by (done || by rewrite Hempty, Hg). unfold deficit. rewrite Hms. cbn.
    unfold blocks_of. cbn. rewrite lookup_empty. cbn. unfold required_blocks, tokens_needed. cbn. lia. }
  replace (Nat.min (Z.to_nat 0 + 0 + num_new + 0) max_len) with num_new in Hif by lia.
  rewrite Hneed, Hfl in Hif. destruct (Z.ltb_spec (num_blocks cfg - 1) (cdiv (Z.of_nat num_new) (Z.of_nat (attn_block_size a)))).
  - rewrite Hif. eexists _, _. split; [done|]. split; [lia|done].
  - destruct Hif as (nb & c4 & c5 & Hrun & _). rewrite Hrun. eexists _, _. split; [done|]. split; [done|lia].
Qed.
End fresh.

(** The capacity of a fresh manager with one full-attention group (RaBitQ included): a first
    request of [num_new] tokens gets its slots exactly when its pages are fewer than the planned
    blocks, because one block is the null block; it is refused with [None] otherwise, and nothing
    raises. *)
Theorem first_request_capacity cfg max_len caching eagle log ui k g a sw cs r num_new (delay : bool) :
  kvm_init cfg max_len caching eagle log false ui 1 = Ok k -> kv_cache_groups cfg = [g] ->
  full_fields (group_spec g) = Some (a, sw, cs) -> 0 < attn_block_size a ->
  num_computed_tokens r = 0%Z -> 0 < num_new <= max_len -> num_tokens r / attn_block_size a <= length (block_hashes r) ->
  exists o k', allocate_slots r num_new 0 None 0 delay 0 k = (Ok o, k') /\
    (o = None <-> num_blocks cfg <= cdiv (Z.of_nat num_new) (Z.of_nat (attn_block_size a)))%Z.
Proof. intros. by eapply first_request_run. Qed.

Lemma first_request_capacity_witness :
  exists o k', allocate_slots demo_r 6 0 None 0 false 0 demo_kvm = (Ok o, k') /\ o <> None.
Proof.
  destruct (first_request_capacity demo_cfg 64 true false true false demo_kvm
    (mkGroup ["layer.0"%string] (RabitQAttentionSpec demo_attn None None (Some 4%Z) None None)) demo_attn None None demo_r 6 false)
    as (o & k' & H & Ho).
  - exact demo_kvm_init.
  - reflexivity.
  - reflexivity.
  - simpl. lia.
  - reflexivity.
  - lia.
  - vm_compute. lia.
  - exists o, k'. split; [exact H|]. rewrite Ho. vm_compute. intros E. apply E. reflexivity.
Defined.

Lemma page_block_size a : (0 < attn_page_size_bytes a)%Z -> 0 < attn_block_size a.
Proof. unfold attn_page_size_bytes. intros H. destruct (attn_block_size a); [|lia]. rewrite Z.mul_0_r in H. lia. Qed.


(** 40 tokens of the demonstration plan need exactly 393216 bytes. *)
Definition exact_r : Request := set_block_hashes [[7]; [8]; [9]]%Z (toy_request (Z.of_nat <$> seq 0 40) None None []).
Definition exact_cfg : KVCacheConfig :=
  match (get_kv_cache_config 393216 demo_plan).1 with Ok c => c | Raise _ => mkConfig 0 [] [] end.
Definition exact_kvm : KVCacheManager :=
  match kvm_init exact_cfg 40 true false false false false 1 with Ok k => k | Raise _ => demo_kvm end.

