(* ===== verification/EncoderCache.v ===== *)
(** The encoder cache: [vllm/v1/core/encoder_cache_manager.py], and the two scheduler methods that
    drive it, [_try_schedule_encoder_inputs] and [_free_encoder_inputs] of
    [vllm/v1/core/sched/scheduler.py].

    The manager counts encoder tokens; entries without a reference stay until space is needed.
    A Python [OrderedDict] is an association list, oldest entry first. *)
From stdpp Require Import base gmap sets list strings fin_maps.
From Stdlib Require Import ZArith Lia.
From S2P Require Import Prelude Request.
Open Scope nat_scope.

(** * State *)

Record EncoderCacheManager := mkEnc {
  cache_size : Z;
  num_free_slots : Z;
  num_freeable_slots : Z;
  cached : gmap string (gset string);
  freeable : list (string * nat);
  freed : list string
}.

Definition enc_init (size : Z) : EncoderCacheManager := mkEnc size size size ∅ [] [].

Definition set_cached_map (c : gmap string (gset string)) (m : EncoderCacheManager) : EncoderCacheManager :=
  mkEnc (cache_size m) (num_free_slots m) (num_freeable_slots m) c (freeable m) (freed m).
Definition set_freeable (l : list (string * nat)) (m : EncoderCacheManager) : EncoderCacheManager :=
  mkEnc (cache_size m) (num_free_slots m) (num_freeable_slots m) (cached m) l (freed m).
Definition set_freed (l : list string) (m : EncoderCacheManager) : EncoderCacheManager :=
  mkEnc (cache_size m) (num_free_slots m) (num_freeable_slots m) (cached m) (freeable m) l.
Definition add_free (n : Z) (m : EncoderCacheManager) : EncoderCacheManager :=
  mkEnc (cache_size m) (num_free_slots m + n) (num_freeable_slots m) (cached m) (freeable m) (freed m).
Definition add_freeable (n : Z) (m : EncoderCacheManager) : EncoderCacheManager :=
  mkEnc (cache_size m) (num_free_slots m) (num_freeable_slots m + n) (cached m) (freeable m) (freed m).

(** [OrderedDict] assignment: an existing key keeps its place. *)
Fixpoint od_set (k : string) (n : nat) (l : list (string * nat)) : list (string * nat) :=
  match l with
  | [] => [(k, n)]
  | (k', n') :: l' => if decide (k = k') then (k, n) :: l' else (k', n') :: od_set k n l'
  end.

(** [OrderedDict.pop(key)]. *)
Fixpoint od_pop (k : string) (l : list (string * nat)) : outcome (nat * list (string * nat)) :=
  match l with
  | [] => Raise KeyError
  | (k', n) :: l' =>
      if decide (k = k') then Ok (n, l')
      else '(x, r) ← od_pop k l'; Ok (x, (k', n) :: r)
  end.

(** * Operations *)

(** [request.mm_hashes[input_id]]. *)
Definition mm_hash {S} (r : Request) (input_id : nat) : M S string :=
  match mm_hashes r !! input_id with Some h => mret h | None => raise IndexError end.

(** [self.cached[mm_hash]]. *)
Definition refs_of_hash (h : string) : M EncoderCacheManager (gset string) :=
  m ← get;
  match cached m !! h with Some s => mret s | None => raise KeyError end.

Definition check_and_update_cache (r : Request) (input_id : nat) : M EncoderCacheManager bool :=
  h ← mm_hash r input_id;
  m ← get;
  match cached m !! h with
  | None => mret false
  | Some refs =>
      (if decide (refs = ∅) then
         '(num_tokens, l) ← lift_out (od_pop h (freeable m));
         modify (set_freeable l) ;;
         modify (add_freeable (- Z.of_nat num_tokens))
       else mret tt) ;;
      refs ← refs_of_hash h;
      modify (fun m => set_cached_map (<[h := refs ∪ {[request_id r]}]> (cached m)) m) ;;
      mret true
  end.

(** The eviction loop: an iteration removes an entry of [freeable], and an empty one raises, so
    [length freeable + 1] iterations are enough. *)
Fixpoint evict_loop (fuel : nat) (num_tokens : Z) : M EncoderCacheManager unit :=
  match fuel with
  | O => mret tt
  | S f =>
      m ← get;
      if (num_free_slots m <? num_tokens)%Z then
        match freeable m with
        | [] => raise KeyError
        | (h, num_free_token) :: rest =>
            modify (set_freeable rest) ;;
            _ ← refs_of_hash h;
            modify (fun m => set_cached_map (delete h (cached m)) m) ;;
            modify (fun m => set_freed (freed m ++ [h]) m) ;;
            modify (add_free (Z.of_nat num_free_token)) ;;
            evict_loop f num_tokens
        end
      else mret tt
  end.

Definition can_allocate (r : Request) (input_id : nat) (encoder_compute_budget num_tokens_to_schedule : Z)
  : M EncoderCacheManager bool :=
  n ← lift_out (get_num_encoder_tokens r input_id);
  if (encoder_compute_budget <? Z.of_nat n)%Z then mret false
  else
    let num_tokens := (Z.of_nat n + num_tokens_to_schedule)%Z in
    m ← get;
    if (num_tokens <=? num_free_slots m)%Z then mret true
    else if (num_freeable_slots m <? num_tokens)%Z then mret false
    else evict_loop (S (length (freeable m))) num_tokens ;; mret true.

Definition allocate (r : Request) (input_id : nat) : M EncoderCacheManager unit :=
  h ← mm_hash r input_id;
  modify (fun m => match cached m !! h with
                   | None => set_cached_map (<[h := ∅]> (cached m)) m
                   | Some _ => m
                   end) ;;
  n ← lift_out (get_num_encoder_tokens r input_id);
  m ← get;
  assertM (Z.of_nat n <=? num_free_slots m)%Z ;;
  assertM (Z.of_nat n <=? num_freeable_slots m)%Z ;;
  refs ← refs_of_hash h;
  modify (fun m => set_cached_map (<[h := refs ∪ {[request_id r]}]> (cached m)) m) ;;
  modify (add_free (- Z.of_nat n)) ;;
  modify (add_freeable (- Z.of_nat n)).

(** The set of indices, in ascending order (small integers iterate in that order). *)
Definition get_cached_input_ids (m : EncoderCacheManager) (r : Request) : list nat :=
  filter (fun i => is_Some (mm_hashes r !! i ≫= fun h => cached m !! h)) (seq 0 (length (mm_hashes r))).

Definition free_encoder_input (r : Request) (input_id : nat) : M EncoderCacheManager unit :=
  h ← mm_hash r input_id;
  m ← get;
  match cached m !! h with
  | None => mret tt
  | Some refs =>
      if decide (refs = ∅) then mret tt
      else
        let refs := refs ∖ {[request_id r]} in
        modify (fun m => set_cached_map (<[h := refs]> (cached m)) m) ;;
        if decide (refs = ∅) then
          n ← lift_out (get_num_encoder_tokens r input_id);
          modify (fun m => set_freeable (od_set h n (freeable m)) m) ;;
          modify (add_freeable (Z.of_nat n))
        else mret tt
  end.

Definition enc_free (r : Request) : M EncoderCacheManager unit :=
  m ← get;
  forM (get_cached_input_ids m r) (fun i => free_encoder_input r i).

Definition get_freed_mm_hashes : M EncoderCacheManager (list string) :=
  m ← get;
  modify (set_freed []) ;;
  mret (freed m).

(** ** Budgets *)

Record EncBudgetConfig := mkEncBudget {
  disable_chunked_mm_input : bool;
  eb_max_num_batched_tokens : Z;
  max_num_encoder_input_tokens : Z;
  encoder_cache_size : Z
}.

Definition compute_text_encoder_budget : Z * Z := (0%Z, 0%Z).

(** [max_tokens_by_modality]: the values of the mapping. *)
Definition compute_mm_encoder_budget (c : EncBudgetConfig) (max_tokens_by_modality : list Z)
  : outcome (Z * Z) :=
  match max_tokens_by_modality with
  | [] => Ok (0%Z, 0%Z)
  | x :: xs =>
      let max_tokens_per_mm_item := foldl Z.max x xs in
      if disable_chunked_mm_input c && (eb_max_num_batched_tokens c <? max_tokens_per_mm_item)%Z
      then Raise ValueError
      else Ok (Z.max (max_num_encoder_input_tokens c) max_tokens_per_mm_item,
               Z.max (encoder_cache_size c) max_tokens_per_mm_item)
  end.

(** The registry's answers are arguments: whether the model takes multi-modal inputs, and the
    maximum tokens per modality. *)
Definition compute_encoder_budget (supports_multimodal_inputs : bool) (c : EncBudgetConfig)
    (max_tokens_by_modality : list Z) : outcome (Z * Z) :=
  if supports_multimodal_inputs then compute_mm_encoder_budget c max_tokens_by_modality
  else Ok compute_text_encoder_budget.

(** * The scheduler's use of it *)

(** The loop state of [_try_schedule_encoder_inputs]. *)
Record EncSched := mkEncSched {
  es_inputs : list nat;
  es_hashes : gset string;
  es_tokens : Z;
  es_budget : Z
}.

(** [for i, pos_info in enumerate(mm_positions)]; the result is the loop state and the number of
    new tokens. *)
Fixpoint schedule_encoder_loop (is_encoder_decoder disable_chunked : bool) (r : Request)
    (num_computed num_new : Z) (i : nat) (positions : list PlaceholderRange) (st : EncSched)
  : M EncoderCacheManager (EncSched * Z) :=
  match positions with
  | [] => mret (st, num_new)
  | p :: rest =>
      let start_pos := Z.of_nat (pr_offset p) in
      let num_encoder_tokens := Z.of_nat (pr_length p) in
      let next := schedule_encoder_loop is_encoder_decoder disable_chunked r num_computed num_new (S i) rest in
      if (num_computed + num_new <=? start_pos)%Z then mret (st, num_new)
      else if is_encoder_decoder && (0 <? num_computed)%Z then
        assertM (start_pos =? 0)%Z ;; next st
      else if (start_pos + num_encoder_tokens <=? num_computed)%Z then next st
      else
        skip ← (if is_encoder_decoder then mret false
                else
                  h ← mm_hash r i;
                  if decide (h ∈ es_hashes st) then mret true
                  else check_and_update_cache r i);
        if (skip : bool) then next st
        else if disable_chunked && (num_computed <? start_pos)%Z
                && (num_computed + num_new <? start_pos + num_encoder_tokens)%Z
        then mret (st, start_pos - num_computed)%Z
        else
          ok ← can_allocate r i (es_budget st) (es_tokens st);
          if negb (ok : bool) then
            if (num_computed <? start_pos)%Z then mret (st, start_pos - num_computed)%Z
            else mret (st, 0%Z)
          else
            h ← mm_hash r i;
            next (mkEncSched (es_inputs st ++ [i]) (es_hashes st ∪ {[h]}) (es_tokens st + num_encoder_tokens)
                    (es_budget st - num_encoder_tokens))
  end.

(** [request.has_encoder_inputs]: the request has multi-modal features. *)
Definition has_encoder_inputs (r : Request) : bool := negb (length (mm_hashes r) =? 0).

Definition try_schedule_encoder_inputs (is_encoder_decoder disable_chunked : bool) (r : Request)
    (num_computed num_new encoder_compute_budget : Z) : M EncoderCacheManager (list nat * Z * Z) :=
  if (num_new =? 0)%Z || negb (has_encoder_inputs r) then mret ([], num_new, encoder_compute_budget)
  else
    assertM (negb (length (mm_positions r) =? 0)) ;;
    '(st, n) ← schedule_encoder_loop is_encoder_decoder disable_chunked r num_computed num_new 0 (mm_positions r)
                 (mkEncSched [] ∅ 0 encoder_compute_budget);
    mret (es_inputs st, n, es_budget st).

(** [for i in encoder_inputs_to_schedule: self.encoder_cache_manager.allocate(request, i)]. *)
Definition allocate_inputs (r : Request) (ids : list nat) : M EncoderCacheManager unit :=
  forM ids (allocate r).

Definition free_encoder_inputs (is_encoder_decoder : bool) (r : Request) : M EncoderCacheManager unit :=
  m ← get;
  forM (get_cached_input_ids m r) (fun i =>
    match mm_positions r !! i with
    | None => raise IndexError
    | Some p =>
        if is_encoder_decoder && (0 <? num_computed_tokens r)%Z then free_encoder_input r i
        else if (Z.of_nat (pr_offset p) + Z.of_nat (pr_length p) <=? num_computed_tokens r)%Z
        then free_encoder_input r i
        else mret tt
    end).

(** * Symbolic execution of the manager's operations *)

Lemma wp_refs_of_hash h refs Q E m : cached m !! h = Some refs -> Q refs m -> wp (refs_of_hash h) Q E m.
Proof. intros Hh HQ. unfold refs_of_hash. wp_steps. by rewrite Hh. Qed.

Ltac enc_step :=
  lazymatch goal with
  | |- wp (lift_out (Ok _)) _ _ _ => apply (wp_lift _ _ _ _ _ eq_refl); cbn beta
  | |- wp _ _ _ _ => wp_step
  end.
Ltac enc_steps := repeat enc_step.

(** * The accounting invariant *)

(** The number of encoder tokens of an input is a function of its hash. *)
Section invariant.
Context (size : string -> nat).

Record mm_ok (r : Request) : Prop := {
  mo_length : length (mm_positions r) = length (mm_hashes r);
  mo_size : forall i h p, mm_hashes r !! i = Some h -> mm_positions r !! i = Some p -> pr_length p = size h
}.

(** The tokens of all entries, and of those without a reference. *)
Definition held (c : gmap string (gset string)) : Z :=
  map_fold (fun h _ acc => (Z.of_nat (size h) + acc)%Z) 0%Z c.
Definition unreferenced (l : list (string * nat)) : Z := foldr (fun e acc => (Z.of_nat e.2 + acc)%Z) 0%Z l.

(** [freeable] lists the entries without a reference; the free slots are what the entries leave, and
    the freeable slots what the referenced entries leave. *)
Record enc_ok (m : EncoderCacheManager) : Prop := {
  eo_keys : NoDup (freeable m).*1;
  eo_unref : forall h n, (h, n) ∈ freeable m <-> cached m !! h = Some ∅ /\ n = size h;
  eo_free : (num_free_slots m = cache_size m - held (cached m))%Z;
  eo_freeable : (num_freeable_slots m = num_free_slots m + unreferenced (freeable m))%Z;
  eo_nonneg : (0 <= num_free_slots m)%Z
}.

Lemma held_insert c h s : c !! h = None -> held (<[h := s]> c) = (Z.of_nat (size h) + held c)%Z.
Proof. intros Hc. unfold held. rewrite map_fold_insert_L; [done| |done]. intros. lia. Qed.

Lemma held_delete c h s : c !! h = Some s -> held c = (Z.of_nat (size h) + held (delete h c))%Z.
Proof. intros Hc. rewrite <-(held_insert _ _ s) by apply lookup_delete_eq. by rewrite insert_delete_id. Qed.

Lemma held_update c h s s' : c !! h = Some s -> held (<[h := s']> c) = held c.
Proof.
  intros Hc. rewrite (held_delete c h s Hc), <-(held_insert _ h s') by apply lookup_delete_eq.
  by rewrite insert_delete_eq.
Qed.

Lemma unreferenced_cons e l : unreferenced (e :: l) = (Z.of_nat e.2 + unreferenced l)%Z.
Proof. done. Qed.

#[local] Arguments unreferenced : simpl never.
#[local] Arguments held : simpl never.

Lemma unreferenced_nonneg l : (0 <= unreferenced l)%Z.
Proof. induction l; rewrite ?unreferenced_cons; [done|lia]. Qed.

Lemma enc_init_ok n : (0 <= n)%Z -> enc_ok (enc_init n).
Proof.
  intros Hn. split; cbn; [apply NoDup_nil_2| |unfold held; rewrite map_fold_empty; lia|unfold unreferenced; cbn; lia|done].
  intros h k. rewrite lookup_empty. split; [by intros ?%elem_of_nil|by intros [? _]].
Qed.

(** ** Ordered dictionaries *)

Lemma od_pop_spec k n l :
  NoDup l.*1 -> (k, n) ∈ l -> exists l', od_pop k l = Ok (n, l') /\ NoDup l'.*1 /\
    (forall e, e ∈ l' <-> e ∈ l /\ e.1 <> k) /\ unreferenced l = (Z.of_nat n + unreferenced l')%Z.
Proof.
  induction l as [|[k' n'] l IH]; intros Hnd Hin; [by apply elem_of_nil in Hin|]. cbn [od_pop].
  apply NoDup_cons in Hnd as [Hk' Hnd]. case_decide as Hk.
  - subst k'. apply elem_of_cons in Hin as [[= ->]|Hin].
    + exists l. split_and!; [done|done| |done]. intros [k2 n2]. rewrite elem_of_cons. cbn. split.
      * intros He. split; [by right|]. intros ->. apply Hk'. apply list_elem_of_fmap. by exists (k, n2).
      * intros [[[= -> ->]|?] ?]; done.
    + destruct Hk'. apply list_elem_of_fmap. by exists (k, n).
  - apply elem_of_cons in Hin as [[= -> ->]|Hin]; [done|]. destruct (IH Hnd Hin) as (l' & -> & Hnd' & He & Hs).
    exists ((k', n') :: l'). cbn [mbind outcome_bind]. split_and!; [done| | |rewrite !unreferenced_cons; lia].
    + rewrite fmap_cons. constructor; [|done]. intros ([k2 n2] & E & [Hin2 _]%He)%list_elem_of_fmap. cbn in E. subst k2.
      apply Hk'. apply list_elem_of_fmap. by exists (k', n2).
    + intros [k2 n2]. rewrite !elem_of_cons, He. cbn. naive_solver.
Qed.

Lemma od_set_new k n l :
  k ∉ l.*1 -> NoDup l.*1 -> NoDup (od_set k n l).*1 /\ (forall e, e ∈ od_set k n l <-> e = (k, n) \/ e ∈ l) /\
    unreferenced (od_set k n l) = (Z.of_nat n + unreferenced l)%Z.
Proof.
  intros Hk Hnd. assert (od_set k n l = l ++ [(k, n)]) as ->.
  { induction l as [|[k' n'] l IH]; [done|]. cbn [od_set]. rewrite fmap_cons in Hk, Hnd. cbn [fst] in Hk, Hnd.
    apply not_elem_of_cons in Hk as [Hk Hl]. apply NoDup_cons in Hnd as [_ Hnd]. rewrite decide_False by done.
    by rewrite IH. }
  split_and!.
  - rewrite fmap_app. apply NoDup_app. split_and!; [done| |apply NoDup_singleton]. intros x Hx ->%list_elem_of_singleton. done.
  - intros e. rewrite elem_of_app, list_elem_of_singleton. tauto.
  - clear. induction l as [|e l IH]; [unfold unreferenced; cbn; lia|]. cbn [app]. rewrite !unreferenced_cons. lia.
Qed.

(** ** The eviction loop *)

(** Nothing referenced is evicted, and nothing appears. *)
Definition keeps_referenced (m m' : EncoderCacheManager) : Prop :=
  (forall h s, s <> ∅ -> cached m !! h = Some s -> cached m' !! h = Some s) /\
  (forall h s, cached m' !! h = Some s -> cached m !! h = Some s).

Lemma evict_one m h n rest :
  enc_ok m -> freeable m = (h, n) :: rest ->
  cached m !! h = Some ∅ /\ n = size h /\
  enc_ok (add_free (Z.of_nat n) (set_freed (freed m ++ [h]) (set_cached_map (delete h (cached m)) (set_freeable rest m)))).
Proof.
  intros [H1 H2 H3 H4 H5] Hl. rewrite Hl in *. destruct (proj1 (H2 h n) ltac:(left)) as [Hc ->].
  apply NoDup_cons in H1 as [Hh Hnd]. split_and!; [done|done|]. split; cbn in *.
  - done.
  - intros h' n'. destruct (decide (h' = h)) as [->|Hne].
    + rewrite lookup_delete_eq. split; [|by intros [? _]]. intros Hin. destruct Hh. apply list_elem_of_fmap. by exists (h, n').
    + rewrite lookup_delete_ne by done. rewrite <-H2, elem_of_cons. split; [by right|]. by intros [[= ? ?]|?].
  - rewrite H3, (held_delete _ _ _ Hc). lia.
  - rewrite unreferenced_cons in H4. cbn in H4. lia.
  - lia.
Qed.

(** The entries evicted are the [k] oldest without a reference, and one fewer would not do. *)
Definition evicts_oldest (need : Z) (m m' : EncoderCacheManager) : Prop :=
  exists k, freeable m' = drop k (freeable m) /\ freed m' = freed m ++ (take k (freeable m)).*1 /\
    forall j, j < k -> (num_free_slots m + unreferenced (take j (freeable m)) < need)%Z.

Lemma evicts_none need m : evicts_oldest need m m.
Proof. exists 0. rewrite drop_0, take_0, app_nil_r. split_and!; [done..|lia]. Qed.

Lemma evict_loop_spec fuel : forall need m E,
  enc_ok m -> (need <= num_freeable_slots m)%Z -> length (freeable m) < fuel ->
  wp (evict_loop fuel need) (fun _ m' => enc_ok m' /\ (need <= num_free_slots m')%Z /\ cache_size m' = cache_size m /\
    num_freeable_slots m' = num_freeable_slots m /\ keeps_referenced m m' /\
    evicts_oldest need m m') E m.
Proof.
  induction fuel as [|f IH]; intros need m E Hok Hneed Hfuel; [lia|]. cbn [evict_loop]. wp_step. wp_step.
  destruct (Z.ltb_spec (num_free_slots m) need) as [Hlt|Hge].
  2:{ wp_step. split_and!; try done. apply evicts_none. }
  destruct (freeable m) as [|[h n] rest] eqn:Hl.
  { pose proof (eo_freeable m Hok) as Hf. rewrite Hl in Hf. unfold unreferenced in Hf. simpl in Hf. lia. }
  destruct (evict_one m h n rest Hok Hl) as (Hc & Hn & Hok'). wp_step. wp_step.
  unfold refs_of_hash. wp_step. wp_step. wp_step. cbn [cached set_freeable]. rewrite Hc. wp_step. wp_step. wp_step. wp_step. wp_step. wp_step. wp_step.
  set (m1 := add_free _ _) in *. simpl in Hfuel.
  eapply wp_mono; [apply (IH need m1 E Hok'); cbn; lia| |done].
  intros [] m' (I1 & I2 & I3 & I4 & [I5 I6] & k & I7 & I8 & I9). cbn in I7, I8, I9. split_and!; try done.
  - split.
    + intros h' s Hs Hh. apply I5; [done|]. cbn. rewrite lookup_delete_ne; [done|]. intros ->. congruence.
    + intros h' s Hh. apply I6 in Hh. cbn in Hh. by apply lookup_delete_Some in Hh as [_ ?].
  - exists (S k). rewrite Hl, I7, I8. cbn. split_and!; [done|by rewrite <-app_assoc|]. intros [|j] Hj; [unfold unreferenced; cbn; lia|].
    cbn [take]. rewrite unreferenced_cons. cbn. specialize (I9 j ltac:(lia)). lia.
Qed.

(** ** One operation at a time *)

Lemma not_in_keys (l : list (string * nat)) h : (forall n, (h, n) ∉ l) -> h ∉ l.*1.
Proof. intros Hn ([h' n] & -> & Hin)%list_elem_of_fmap. by destruct (Hn n). Qed.

Lemma input_size r i h : mm_ok r -> mm_hashes r !! i = Some h ->
  exists p, mm_positions r !! i = Some p /\ pr_length p = size h.
Proof.
  intros Hr Hi. destruct (mm_positions r !! i) as [p|] eqn:Hp; [exists p; eauto using mo_size|].
  apply lookup_lt_Some in Hi. apply lookup_ge_None in Hp. rewrite (mo_length r Hr) in Hp. lia.
Qed.

Lemma num_encoder_tokens_size r i h : mm_ok r -> mm_hashes r !! i = Some h -> get_num_encoder_tokens r i = Ok (size h).
Proof. intros Hr Hi. destruct (input_size r i h Hr Hi) as (p & Hp & <-). unfold get_num_encoder_tokens. by rewrite Hp. Qed.

(** A reference is added to a cached entry. *)
Definition referenced (h : string) (id : string) (refs : gset string) (m : EncoderCacheManager) : EncoderCacheManager :=
  set_cached_map (<[h := refs ∪ {[id]}]> (cached m)) m.

Lemma add_ref_nonempty (refs : gset string) (id : string) : refs ∪ {[id]} <> ∅.
Proof. intros E. assert (id ∈ refs ∪ {[id]}) as Hid by set_solver+. rewrite E in Hid. set_solver+Hid. Qed.

Lemma check_and_update_spec r i h m :
  enc_ok m -> mm_ok r -> mm_hashes r !! i = Some h ->
  wp (check_and_update_cache r i) (fun b m' => enc_ok m' /\ num_free_slots m' = num_free_slots m /\
      cache_size m' = cache_size m /\ freed m' = freed m /\
      match cached m !! h with
      | None => b = false /\ m' = m
      | Some refs => b = true /\ cached m' = <[h := refs ∪ {[request_id r]}]> (cached m)
      end) noexc m.
Proof.
  intros Hok Hr Hi. unfold check_and_update_cache, mm_hash. rewrite Hi. do 4 wp_step.
  destruct (cached m !! h) as [refs|] eqn:Hc; [|by wp_steps].
  wp_step. case_decide as He.
  - subst refs. destruct (od_pop_spec h (size h) (freeable m) (eo_keys m Hok)) as (l & Hpop & Hnd & Hl & Hsum).
    { by apply (eo_unref m Hok). }
    rewrite Hpop. enc_steps. apply wp_refs_of_hash with ∅; [done|]. wp_steps. split_and!; try done.
    destruct Hok as [H1 H2 H3 H4 H5]. split; cbn.
    + done.
    + intros h' n'. rewrite Hl, H2. cbn. destruct (decide (h' = h)) as [->|Hne].
      * rewrite lookup_insert_eq. split; [by intros [_ ?]|]. intros [E%(inj Some) _]. by destruct (add_ref_nonempty ∅ (request_id r)).
      * rewrite lookup_insert_ne by done. tauto.
    + by rewrite (held_update _ _ _ _ Hc).
    + lia.
    + done.
  - wp_steps. apply wp_refs_of_hash with refs; [done|]. wp_steps. split_and!; try done. destruct Hok as [H1 H2 H3 H4 H5]. split; cbn; [done| |by rewrite (held_update _ _ _ _ Hc)|done|done].
    intros h' n'. rewrite H2. destruct (decide (h' = h)) as [->|Hne]; [|by rewrite lookup_insert_ne].
    rewrite Hc, lookup_insert_eq. split; intros [E%(inj Some) _]; [done|by destruct (add_ref_nonempty refs (request_id r))].
Qed.

Lemma can_allocate_spec r i h budget scheduled m :
  enc_ok m -> mm_ok r -> mm_hashes r !! i = Some h ->
  wp (can_allocate r i budget scheduled) (fun ok m' => enc_ok m' /\
      (ok = true <-> (Z.of_nat (size h) <= budget /\ Z.of_nat (size h) + scheduled <= num_freeable_slots m)%Z) /\
      (ok = true -> (Z.of_nat (size h) + scheduled <= num_free_slots m')%Z) /\ (ok = false -> m' = m) /\
      cache_size m' = cache_size m /\ num_freeable_slots m' = num_freeable_slots m /\ keeps_referenced m m' /\
      evicts_oldest (Z.of_nat (size h) + scheduled) m m') noexc m.
Proof.
  intros Hok Hr Hi. unfold can_allocate. rewrite (num_encoder_tokens_size r i h Hr Hi). do 2 enc_step.
  assert (keeps_referenced m m) as Hkeep by (by split). pose proof (unreferenced_nonneg (freeable m)).
  pose proof (eo_freeable m Hok) as Hf. pose proof (evicts_none (Z.of_nat (size h) + scheduled) m) as Hev.
  destruct (Z.ltb_spec budget (Z.of_nat (size h))).
  { wp_step. split_and!; try done. split; [done|lia]. }
  wp_step. wp_step. destruct (Z.leb_spec (Z.of_nat (size h) + scheduled) (num_free_slots m)).
  { wp_step. split_and!; try done. split; [lia|done]. }
  destruct (Z.ltb_spec (num_freeable_slots m) (Z.of_nat (size h) + scheduled)).
  { wp_step. split_and!; try done. split; [done|lia]. }
  wp_step. eapply wp_mono; [apply (evict_loop_spec _ (Z.of_nat (size h) + scheduled) m); [done|lia|lia]| |done].
  intros [] m' (I1 & I2 & I3 & I4 & I5 & I6). wp_step. split_and!; try done; lia.
Qed.

Lemma allocate_spec r i h m :
  enc_ok m -> mm_ok r -> mm_hashes r !! i = Some h -> cached m !! h = None -> (Z.of_nat (size h) <= num_free_slots m)%Z ->
  wp (allocate r i) (fun _ m' => enc_ok m' /\ num_free_slots m' = (num_free_slots m - Z.of_nat (size h))%Z /\
      cached m' = <[h := {[request_id r]}]> (cached m) /\ cache_size m' = cache_size m /\ freed m' = freed m) noexc m.
Proof.
  intros Hok Hr Hi Hc Hn. unfold allocate, mm_hash. rewrite Hi, (num_encoder_tokens_size r i h Hr Hi).
  pose proof (unreferenced_nonneg (freeable m)). destruct Hok as [H1 H2 H3 H4 H5].
  do 4 wp_step. rewrite Hc. enc_steps. apply wp_assertM; [apply Z.leb_le; cbn; lia|].
  wp_step. apply wp_assertM; [apply Z.leb_le; cbn; lia|]. wp_step. apply wp_refs_of_hash with ∅; [apply lookup_insert_eq|].
  wp_steps. cbn. rewrite union_empty_l_L, insert_insert_eq. split_and!; [|lia|done..]. split; cbn.
  - done.
  - intros h' n'. rewrite H2. destruct (decide (h' = h)) as [->|Hne]; [|by rewrite lookup_insert_ne].
    rewrite Hc, lookup_insert_eq. split; [by intros [? _]|]. intros [E%(inj Some) _]. set_solver+E.
  - rewrite held_insert by done. lia.
  - lia.
  - lia.
Qed.

Lemma free_encoder_input_spec r i h m :
  enc_ok m -> mm_ok r -> mm_hashes r !! i = Some h ->
  wp (free_encoder_input r i) (fun _ m' => enc_ok m' /\ num_free_slots m' = num_free_slots m /\ cache_size m' = cache_size m /\
      freed m' = freed m /\ cached m' = alter (fun refs => refs ∖ {[request_id r]}) h (cached m)) noexc m.
Proof.
  intros Hok Hr Hi. unfold free_encoder_input, mm_hash. rewrite Hi. do 4 wp_step.
  destruct (cached m !! h) as [refs|] eqn:Hc.
  2:{ wp_step. split_and!; try done. symmetry. apply map_eq. intros h'. destruct (decide (h' = h)) as [->|Hne].
      - by rewrite lookup_alter_eq, Hc.
      - by rewrite lookup_alter_ne. }
  assert (alter (fun refs => refs ∖ {[request_id r]}) h (cached m) = <[h := refs ∖ {[request_id r]}]> (cached m)) as Halt.
  { apply map_eq. intros h'. destruct (decide (h' = h)) as [->|Hne].
    - by rewrite lookup_alter_eq, Hc, lookup_insert_eq.
    - by rewrite lookup_alter_ne, lookup_insert_ne. }
  rewrite Halt. case_decide as He.
  { wp_step. split_and!; try done. rewrite insert_id; [done|]. rewrite Hc, He. f_equal. set_solver+. }
  do 2 wp_step. pose proof (eo_unref m Hok h) as Hu. destruct Hok as [H1 H2 H3 H4 H5].
  case_decide as He'.
  - rewrite (num_encoder_tokens_size r i h Hr Hi). enc_steps.
    destruct (od_set_new h (size h) (freeable m)) as (O1 & O2 & O3); [|done|].
    { apply not_in_keys. intros n [[= ?] _]%Hu. congruence. }
    cbn. split_and!; try done. split; cbn; [done| |by rewrite (held_update _ _ _ _ Hc)|lia|done].
    intros h' n'. rewrite O2, H2. destruct (decide (h' = h)) as [->|Hne].
    + rewrite lookup_insert_eq, He', Hc. split.
      * intros [[= ->]|[[= ?] _]]; [done|congruence].
      * intros [_ ->]. by left.
    + rewrite lookup_insert_ne by done. split; [intros [[= ? ?]|?]; done|by right].
  - wp_step. split_and!; try done. split; cbn; [done| |by rewrite (held_update _ _ _ _ Hc)|done|done].
    intros h' n'. rewrite H2. destruct (decide (h' = h)) as [->|Hne]; [|by rewrite lookup_insert_ne].
    rewrite Hc, lookup_insert_eq. split; intros [[= E] _]; congruence.
Qed.

(** ** A request's inputs *)

Lemma cached_input_valid m r i : i ∈ get_cached_input_ids m r -> exists h, mm_hashes r !! i = Some h.
Proof.
  unfold get_cached_input_ids. rewrite list_elem_of_filter, elem_of_seq. intros [_ [_ Hi]].
  by apply lookup_lt_is_Some_2.
Qed.

Definition enc_stable (m m' : EncoderCacheManager) : Prop :=
  enc_ok m' /\ num_free_slots m' = num_free_slots m /\ cache_size m' = cache_size m /\ freed m' = freed m.

Lemma free_inputs_spec (f : nat -> M EncoderCacheManager unit) r m :
  enc_ok m ->
  (forall i h m', enc_ok m' -> mm_hashes r !! i = Some h -> wp (f i) (fun _ => enc_stable m') noexc m') ->
  wp (forM (get_cached_input_ids m r) f) (fun _ => enc_stable m) noexc m.
Proof.
  intros Hok Hf.
  eapply wp_mono; [apply (wp_forM f (fun l m' => (forall i, i ∈ l -> exists h, mm_hashes r !! i = Some h) /\ enc_stable m m'))| |done].
  - split; [|by split_and!]. intros i. apply cached_input_valid.
  - intros i l m' (Hl & H1 & H2 & H3 & H4). destruct (Hl i ltac:(left)) as [h Hi].
    eapply wp_mono; [by apply (Hf i h)| |done]. intros _ m'' (J1 & J2 & J3 & J4).
    split; [intros; apply Hl; by right|]. split_and!; [done|congruence..].
  - intros _ m' [_ ?]. done.
Qed.

Lemma free_input_stable r i h m :
  enc_ok m -> mm_ok r -> mm_hashes r !! i = Some h -> wp (free_encoder_input r i) (fun _ => enc_stable m) noexc m.
Proof.
  intros Hok Hr Hi. eapply wp_mono; [by apply (free_encoder_input_spec r i h)| |done].
  intros _ m' (H1 & H2 & H3 & H4 & _). by split_and!.
Qed.

Lemma enc_free_spec r m : enc_ok m -> mm_ok r -> wp (enc_free r) (fun _ => enc_stable m) noexc m.
Proof.
  intros Hok Hr. unfold enc_free. do 2 wp_step. apply free_inputs_spec; [done|].
  intros i h m' Hok' Hi. by apply (free_input_stable r i h).
Qed.

Lemma free_encoder_inputs_spec ed r m : enc_ok m -> mm_ok r -> wp (free_encoder_inputs ed r) (fun _ => enc_stable m) noexc m.
Proof.
  intros Hok Hr. unfold free_encoder_inputs. do 2 wp_step. apply free_inputs_spec; [done|].
  intros i h m' Hok' Hi. destruct (input_size r i h Hr Hi) as (p & -> & _).
  pose proof (free_input_stable r i h m' Hok' Hr Hi). repeat case_match; [done|done|]. by wp_step; split_and!.
Qed.

(** ** Scheduling for a model without a separate encoder *)

Definition total_size (hs : list string) : Z := foldr (fun h acc => (Z.of_nat (size h) + acc)%Z) 0%Z hs.

Lemma total_size_app hs h : total_size (hs ++ [h]) = (total_size hs + Z.of_nat (size h))%Z.
Proof. unfold total_size. induction hs; cbn in *; lia. Qed.

Lemma total_size_nonneg hs : (0 <= total_size hs)%Z.
Proof. unfold total_size. induction hs; cbn in *; lia. Qed.

(** [for i in encoder_inputs_to_schedule: allocate(request, i)]. *)
Lemma allocate_inputs_spec r ids hs : forall m,
  enc_ok m -> mm_ok r -> Forall2 (fun i h => mm_hashes r !! i = Some h) ids hs -> NoDup hs ->
  (forall h, h ∈ hs -> cached m !! h = None) -> (total_size hs <= num_free_slots m)%Z ->
  wp (allocate_inputs r ids) (fun _ m' => enc_ok m' /\ cache_size m' = cache_size m /\
      forall h, cached m' !! h = if decide (h ∈ hs) then Some {[request_id r]} else cached m !! h) noexc m.
Proof.
  intros m Hok Hr Hids. revert m Hok. induction Hids as [|i h ids hs Hi Hids IH]; intros m Hok Hnd Hnone Htot.
  { unfold allocate_inputs. cbn. split_and!; [done..|]. intros h. rewrite decide_False; [done|]. by intros ?%elem_of_nil. }
  apply NoDup_cons in Hnd as [Hh Hnd]. unfold total_size in Htot. cbn in Htot. fold (total_size hs) in Htot.
  pose proof (total_size_nonneg hs). unfold allocate_inputs. cbn [forM]. wp_step.
  eapply wp_mono; [apply (allocate_spec r i h m); [done..|by apply Hnone; left|lia]| |done].
  intros _ m1 (H1 & H2 & H3 & H4 & H5).
  eapply wp_mono; [apply (IH m1)| |done]; [done|done| |lia|].
  - intros h' Hh'. rewrite H3, lookup_insert_ne by (intros ->; done). apply Hnone. by right.
  - intros _ m2 (J1 & J2 & J3). split_and!; [done|congruence|]. intros h'. rewrite J3, H3.
    destruct (decide (h' = h)) as [->|Hne].
    + rewrite decide_False by done. rewrite lookup_insert_eq, decide_True; [done|by left].
    + rewrite lookup_insert_ne by done. destruct (decide (h' ∈ hs)).
      * rewrite decide_True; [done|by right].
      * rewrite decide_False; [done|]. rewrite elem_of_cons. by intros [?|?].
Qed.

(** The placeholder overlaps the tokens from [lo] up to [hi] (excluded). *)
Definition overlaps (lo hi : Z) (p : PlaceholderRange) : Prop :=
  (lo < hi /\ Z.of_nat (pr_offset p) < hi /\ lo < Z.of_nat (pr_offset p) + Z.of_nat (pr_length p))%Z.

Definition holds_input (m : EncoderCacheManager) (r : Request) (h : string) : Prop :=
  exists refs, cached m !! h = Some refs /\ request_id r ∈ refs.

(** References other requests hold stay. *)
Definition refs_grow (m m' : EncoderCacheManager) : Prop :=
  forall h s, s <> ∅ -> cached m !! h = Some s -> exists s', cached m' !! h = Some s' /\ s ⊆ s'.

Lemma refs_grow_refl m : refs_grow m m.
Proof. intros h s Hs Hh. by exists s. Qed.

Lemma refs_grow_trans m1 m2 m3 : refs_grow m1 m2 -> refs_grow m2 m3 -> refs_grow m1 m3.
Proof.
  intros H12 H23 h s Hs Hh. destruct (H12 h s Hs Hh) as (s2 & H2 & Hsub). destruct (H23 h s2) as (s3 & H3 & Hsub3); [|done|].
  - intros ->. apply Hs. set_solver+Hsub.
  - exists s3. split; [done|]. by etrans.
Qed.

Lemma holds_grow m m' r h : refs_grow m m' -> holds_input m r h -> holds_input m' r h.
Proof.
  intros Hg (refs & Hc & Hid). destruct (Hg h refs) as (s' & Hs' & Hsub); [set_solver+Hid|done|].
  exists s'. split; [done|]. by apply Hsub.
Qed.

Section schedule.
Context (r : Request) (c n b0 : Z) (m0 : EncoderCacheManager).
Context (Hr : mm_ok r) (Hc : (0 <= c)%Z) (Hn : (0 <= n)%Z).
Context (Hsorted : forall i j p q, i < j -> mm_positions r !! i = Some p -> mm_positions r !! j = Some q -> pr_offset p <= pr_offset q).

(** The loop invariant: the inputs before [i] that overlap the step are scheduled or held. *)
Definition covered (hi : Z) (st : EncSched) (m : EncoderCacheManager) (Q : nat -> Prop) : Prop :=
  forall j h p, Q j -> mm_hashes r !! j = Some h -> mm_positions r !! j = Some p -> overlaps c hi p ->
    h ∈ es_hashes st \/ holds_input m r h.

Record picked (st : EncSched) (m : EncoderCacheManager) : Prop := {
  pk_ok : enc_ok m;
  pk_size : cache_size m = cache_size m0;
  pk_grow : refs_grow m0 m;
  pk_hashes : exists hs, Forall2 (fun i h => mm_hashes r !! i = Some h) (es_inputs st) hs /\ NoDup hs /\
      (forall h, h ∈ es_hashes st <-> h ∈ hs) /\ es_tokens st = total_size hs;
  pk_none : forall h, h ∈ es_hashes st -> cached m !! h = None;
  pk_budget : (es_budget st = b0 - es_tokens st)%Z;
  pk_nonneg : (0 <= es_budget st)%Z;
  pk_room : (es_tokens st <= num_free_slots m)%Z
}.

Definition loop_post (res : EncSched * Z) (m : EncoderCacheManager) : Prop :=
  picked res.1 m /\ covered (c + res.2) res.1 m (fun _ => True) /\ (0 <= res.2 <= n)%Z /\
  (res.2 = n \/ exists i p, mm_positions r !! i = Some p /\ overlaps c (c + n) p /\ res.2 = Z.max 0 (Z.of_nat (pr_offset p) - c)).

(** The loop stops before input [i]: nothing from [i] on overlaps the tokens left. *)
Lemma loop_stops i p st m hi :
  covered (c + n) st m (fun j => j < i) -> mm_positions r !! i = Some p ->
  (hi <= c + n)%Z -> (hi <= Z.max c (Z.of_nat (pr_offset p)))%Z -> covered hi st m (fun _ => True).
Proof.
  intros Hcov Hp Hhi Hstart j h q _ Hh Hq (Ho & Ho1 & Ho2). destruct (Nat.lt_ge_cases j i) as [Hj|Hj].
  - apply (Hcov j h q Hj Hh Hq). unfold overlaps. lia.
  - assert (pr_offset p <= pr_offset q) by (destruct (decide (i = j)) as [->|]; [simplify_eq; lia|apply (Hsorted i j); [lia|done..]]).
    exfalso. lia.
Qed.

Lemma picked_check st m m' refs h :
  picked st m -> enc_ok m' -> num_free_slots m' = num_free_slots m -> cache_size m' = cache_size m -> cached m !! h = Some refs ->
  cached m' = <[h := refs ∪ {[request_id r]}]> (cached m) -> picked st m' /\ refs_grow m m' /\ holds_input m' r h.
Proof.
  intros [P1 P0 P2 P3 P4 P5 P6 P7] Hok Hf Hcs Hh Hc'. assert (refs_grow m m') as Hg.
  { intros h' s Hs Hh'. rewrite Hc'. destruct (decide (h' = h)) as [->|].
    - rewrite lookup_insert_eq. eexists. split; [done|]. simplify_eq. set_solver+.
    - rewrite lookup_insert_ne by done. by exists s. }
  split_and!; [|done|].
  - split; try done; [by rewrite Hcs|by eapply refs_grow_trans| |lia]. intros h' Hin. rewrite Hc'.
    rewrite lookup_insert_ne; [by apply P4|]. intros <-. apply P4 in Hin. congruence.
  - exists (refs ∪ {[request_id r]}). rewrite Hc', lookup_insert_eq. split; [done|set_solver+].
Qed.

Lemma keeps_grow m m' : keeps_referenced m m' -> refs_grow m m'.
Proof. intros [Hk _] h s Hs Hh. exists s. split; [by apply Hk|done]. Qed.

Lemma keeps_none m m' h : keeps_referenced m m' -> cached m !! h = None -> cached m' !! h = None.
Proof. intros [_ Hk] Hh. destruct (cached m' !! h) eqn:E; [|done]. apply Hk in E. congruence. Qed.

Lemma picked_extend st m m' i h p :
  picked st m -> mm_hashes r !! i = Some h -> mm_positions r !! i = Some p -> h ∉ es_hashes st -> cached m !! h = None ->
  enc_ok m' -> cache_size m' = cache_size m -> keeps_referenced m m' -> (Z.of_nat (size h) <= es_budget st)%Z ->
  (Z.of_nat (size h) + es_tokens st <= num_free_slots m')%Z ->
  picked (mkEncSched (es_inputs st ++ [i]) (es_hashes st ∪ {[h]}) (es_tokens st + Z.of_nat (pr_length p))
            (es_budget st - Z.of_nat (pr_length p))) m'.
Proof.
  intros [P1 P0 P2 (hs & Q1 & Q2 & Q3 & Q4) P4 P5 P6 P7] Hi Hp Hnew Hnone Hok Hcs Hk Hb Hroom.
  rewrite (mo_size r Hr i h p Hi Hp). split; cbn; [done|by rewrite Hcs|eapply refs_grow_trans; [done|by apply keeps_grow]| | |lia..].
  - exists (hs ++ [h]). split_and!.
    + apply Forall2_app; [done|by constructor].
    + apply NoDup_app. split_and!; [done| |apply NoDup_singleton]. intros x Hx ->%list_elem_of_singleton. by apply Hnew, Q3.
    + intros h'. rewrite elem_of_union, elem_of_singleton, elem_of_app, list_elem_of_singleton, Q3. done.
    + by rewrite total_size_app, Q4.
  - intros h' [Hin| ->%elem_of_singleton]%elem_of_union; apply (keeps_none m); [done|by apply P4|done|done].
Qed.

Lemma covered_step st st' m m' i h p :
  covered (c + n) st m (fun j => j < i) -> mm_hashes r !! i = Some h -> mm_positions r !! i = Some p ->
  es_hashes st ⊆ es_hashes st' -> refs_grow m m' ->
  (overlaps c (c + n) p -> h ∈ es_hashes st' \/ holds_input m' r h) -> covered (c + n) st' m' (fun j => j < S i).
Proof.
  intros Hcov Hi Hp Hsub Hg Hnew j h' q Hj Hh Hq Ho. destruct (decide (j = i)) as [->|].
  - simplify_eq. by apply Hnew.
  - destruct (Hcov j h' q ltac:(cbn in *; lia) Hh Hq Ho) as [?|?]; [left; by apply Hsub|right; by eapply holds_grow].
Qed.

Lemma schedule_loop_spec dc : forall rest i st m,
  drop i (mm_positions r) = rest -> (0 < n)%Z -> picked st m -> covered (c + n) st m (fun j => j < i) ->
  wp (schedule_encoder_loop false dc r c n i rest st) loop_post noexc m.
Proof.
  induction rest as [|p rest IH]; intros i st m Hrest Hpos Hp Hcov; cbn [schedule_encoder_loop].
  { wp_step. unfold loop_post. split_and!; cbn; [done| |lia..|by left]. intros j h q _ Hh Hq Ho. apply (Hcov j h q); [|done..].
    apply lookup_lt_Some in Hq. apply drop_nil_inv in Hrest. lia. }
  assert (mm_positions r !! i = Some p) as Hpi.
  { rewrite <-(Nat.add_0_r i), <-lookup_drop, Hrest. done. }
  assert (drop (S i) (mm_positions r) = rest) as Hrest'.
  { replace (S i) with (i + 1) by lia. by rewrite <-drop_drop, Hrest. }
  destruct (mm_hashes r !! i) as [h|] eqn:Hi.
  2:{ apply lookup_lt_Some in Hpi. apply lookup_ge_None in Hi. rewrite (mo_length r Hr) in Hpi. lia. }
  pose proof (mo_size r Hr i h p Hi Hpi) as Hsize.
  assert (forall st' m' hi, picked st' m' -> covered (c + n) st' m' (fun j => j < i) ->
    (0 <= hi <= n)%Z -> (hi <= Z.max 0 (Z.of_nat (pr_offset p) - c))%Z ->
    (hi = n \/ overlaps c (c + n) p /\ hi = Z.max 0 (Z.of_nat (pr_offset p) - c)) -> loop_post (st', hi) m') as Hstop.
  { intros st' m' hi Hp' Hcov' Hhi Hle Hcase. unfold loop_post. split_and!; cbn; [done| |lia..|naive_solver].
    apply (loop_stops i p); [done..|lia|lia]. }
  destruct (Z.leb_spec (c + n) (Z.of_nat (pr_offset p))) as [Hbreak|Hin].
  { wp_step. apply Hstop; [done|done|lia|lia|by left]. }
  cbn [andb]. destruct (Z.leb_spec (Z.of_nat (pr_offset p) + Z.of_nat (pr_length p)) c) as [Hdone|Hneed].
  { apply IH; [done..|]. eapply covered_step; [done..|apply refs_grow_refl|]. intros Ho. unfold overlaps in Ho. lia. }
  unfold mm_hash. rewrite Hi. do 3 wp_step. case_decide as Hsched.
  { wp_step. apply IH; [done..|]. eapply covered_step; [done..|apply refs_grow_refl|]. by left. }
  eapply wp_mono; [by apply (check_and_update_spec r i h m (pk_ok _ _ Hp))| |done]. cbn beta.
  intros b m1 (C1 & C2 & C3 & C4 & C5). destruct (cached m !! h) as [refs|] eqn:Hh.
  { destruct C5 as [-> C5]. destruct (picked_check st m m1 refs h) as (D1 & D2 & D3); [done..|].
    apply IH; [done..|]. eapply covered_step; [done..|]. by right. }
  destruct C5 as [-> ->].
  assert (overlaps c (c + n) p) as Ho by (unfold overlaps; lia).
  destruct (_ && _ && _) eqn:Hdc.
  { wp_step. apply andb_prop in Hdc as [[_ Hlt%Z.ltb_lt]%andb_prop _]. apply Hstop; [done|done|lia..|]. right. split; [done|lia]. }
  wp_step. eapply wp_mono; [by apply (can_allocate_spec r i h (es_budget st) (es_tokens st) m (pk_ok _ _ Hp))| |done]. cbn beta.
  intros ok m2 (E1 & E2 & E3 & E4 & E5 & E6 & E7 & E8). destruct ok; cbn [negb].
  - destruct (proj1 E2 eq_refl) as [E2a E2b]. wp_step. wp_step. apply IH; [done..| |].
    + apply (picked_extend st m m2 i h p); auto.
    + eapply covered_step; [done..| |by apply keeps_grow|]; cbn; [set_solver+|]. intros _. left. set_solver+.
  - rewrite (E4 eq_refl). destruct (Z.ltb_spec c (Z.of_nat (pr_offset p))); wp_step;
      (apply Hstop; [done|done|lia..|]); right; (split; [done|lia]).
Qed.

End schedule.

End invariant.

(** * The properties *)

(** [for i in encoder_inputs_to_schedule] follows the scheduling of the inputs. *)
Definition schedule_and_allocate (is_encoder_decoder disable_chunked : bool) (r : Request)
    (num_computed num_new budget : Z) : M EncoderCacheManager (list nat * Z * Z) :=
  '(ids, n, b) ← try_schedule_encoder_inputs is_encoder_decoder disable_chunked r num_computed num_new budget;
  allocate_inputs r ids ;;
  mret (ids, n, b).

Lemma schedule_and_allocate_spec size dc r c n b m :
  enc_ok size m -> mm_ok size r -> (0 <= c)%Z -> (0 <= n)%Z -> (0 <= b)%Z ->
  (forall i j p q, i < j -> mm_positions r !! i = Some p -> mm_positions r !! j = Some q -> pr_offset p <= pr_offset q) ->
  wp (schedule_and_allocate false dc r c n b) (fun res m' =>
      let '(ids, n', b') := res in
      enc_ok size m' /\ cache_size m' = cache_size m /\ refs_grow m m' /\ (0 <= n' <= n)%Z /\ (0 <= b' <= b)%Z /\
      (forall j h p, mm_hashes r !! j = Some h -> mm_positions r !! j = Some p -> overlaps c (c + n') p -> holds_input m' r h) /\
      (n' = n \/ exists i p, mm_positions r !! i = Some p /\ overlaps c (c + n) p /\
         n' = Z.max 0 (Z.of_nat (pr_offset p) - c))) noexc m.
Proof.
  intros Hok Hr Hc Hn Hb Hs. unfold schedule_and_allocate, try_schedule_encoder_inputs, has_encoder_inputs. wp_step.
  destruct (Z.eqb_spec n 0) as [->|Hn0]; cbn [orb].
  { wp_step. unfold allocate_inputs. cbn [forM]. wp_steps. split_and!; [done|done|apply refs_grow_refl|lia..| |by left].
    intros j h p _ _ Ho. unfold overlaps in Ho. lia. }
  destruct (Nat.eqb_spec (length (mm_hashes r)) 0) as [Hz|Hnz]; cbn [negb].
  { wp_step. unfold allocate_inputs. cbn [forM]. wp_steps. split_and!; [done|done|apply refs_grow_refl|lia..| |by left].
    intros j h p Hj. apply lookup_lt_Some in Hj. lia. }
  wp_step. apply wp_assertM; [rewrite (mo_length size r Hr); by apply negb_true_iff, Nat.eqb_neq|]. wp_step.
  eapply wp_mono; [apply (schedule_loop_spec size r c n b m Hr Hn Hs dc _ 0); [done|lia| |]| |done].
  - split; cbn; [done|done|apply refs_grow_refl| | |lia|lia|].
    + exists []. split_and!; [constructor|apply NoDup_nil_2| |done]. intros h. set_solver.
    + intros h. set_solver.
    + apply Hok.
  - intros j h p Hj. cbn in Hj. lia.
  - intros [st n'] m1 (Hp & Hcov & Hn' & Hcut). cbn [fst snd] in *. wp_step. wp_step.
    destruct Hp as [P1 P0 P2 (hs & Q1 & Q2 & Q3 & Q4) P4 P5 P6 P7].
    eapply wp_mono; [apply (allocate_inputs_spec size r (es_inputs st) hs m1); [done..| |lia]| |done].
    { intros h Hh. by apply P4, Q3. }
    intros _ m2 (R1 & R2 & R3). wp_step. pose proof (total_size_nonneg size hs). split_and!; [done|congruence| |lia..| |done].
    + eapply refs_grow_trans; [done|]. intros h s Hs' Hh. rewrite R3. rewrite decide_False; [by exists s|].
      intros Hin%Q3%P4. congruence.
    + intros j h p Hj Hpj Ho. destruct (Hcov j h p I Hj Hpj Ho) as [Hin|(refs & Hh & Hid)].
      * exists {[request_id r]}. rewrite R3, decide_True by (by apply Q3). split; [done|set_solver+].
      * exists refs. rewrite R3, decide_False; [done|]. intros Hin%Q3%P4. congruence.
Qed.

(** The calls of the scheduler, in any order. *)
Inductive enc_step (size : string -> nat) : EncoderCacheManager -> EncoderCacheManager -> Prop :=
| step_schedule dc r c n b m : mm_ok size r -> (0 <= c)%Z -> (0 <= n)%Z -> (0 <= b)%Z ->
    (forall i j p q, i < j -> mm_positions r !! i = Some p -> mm_positions r !! j = Some q -> pr_offset p <= pr_offset q) ->
    enc_step size m (schedule_and_allocate false dc r c n b m).2
| step_free_inputs r m : mm_ok size r -> enc_step size m (free_encoder_inputs false r m).2
| step_free r m : mm_ok size r -> enc_step size m (enc_free r m).2
| step_freed m : enc_step size m (get_freed_mm_hashes m).2.

Inductive enc_reachable (size : string -> nat) (capacity : Z) : EncoderCacheManager -> Prop :=
| reach_init : enc_reachable size capacity (enc_init capacity)
| reach_step m m' : enc_reachable size capacity m -> enc_step size m m' -> enc_reachable size capacity m'.

Lemma wp_noexc_snd {S A} (m : M S A) (Q : A -> S -> Prop) s : wp m Q noexc s -> exists a, Q a (m s).2.
Proof. intros (a & s' & -> & HQ)%wp_noexc_run. by exists a. Qed.

Lemma enc_step_ok size m m' : enc_ok size m -> enc_step size m m' -> enc_ok size m' /\ cache_size m' = cache_size m.
Proof.
  intros Hok Hs. destruct Hs as [dc r c n b m Hr Hc Hn Hb Hsort|r m Hr|r m Hr|m].
  - destruct (wp_noexc_snd _ _ _ (schedule_and_allocate_spec size dc r c n b m Hok Hr Hc Hn Hb Hsort)) as ([[ids n'] b'] & ? & ? & _). done.
  - by destruct (wp_noexc_snd _ _ _ (free_encoder_inputs_spec size false r m Hok Hr)) as (_ & ? & _ & ? & _).
  - by destruct (wp_noexc_snd _ _ _ (enc_free_spec size r m Hok Hr)) as (_ & ? & _ & ? & _).
  - split; [by destruct Hok; split|done].
Qed.

Lemma reachable_ok size capacity m : (0 <= capacity)%Z -> enc_reachable size capacity m -> enc_ok size m /\ cache_size m = capacity.
Proof.
  intros Hc. induction 1 as [|m m' _ [IH1 IH2] Hs]; [split; [by apply enc_init_ok|done]|].
  destruct (enc_step_ok size m m' IH1 Hs). split; congruence.
Qed.

(** The entries some request refers to. *)
Definition in_use (c : gmap string (gset string)) : gmap string (gset string) := filter (fun e => e.2 <> ∅) c.

Lemma held_split size (l : list (string * nat)) : forall c, NoDup l.*1 ->
  (forall h n, (h, n) ∈ l <-> c !! h = Some ∅ /\ n = size h) -> held size c = (unreferenced l + held size (in_use c))%Z.
Proof.
  induction l as [|[h n] l IH]; intros c Hnd Hl.
  - unfold in_use. rewrite map_filter_id; [done|]. intros h s Hs. cbn. intros ->.
    exact (not_elem_of_nil _ (proj2 (Hl h (size h)) (conj Hs eq_refl))).
  - apply NoDup_cons in Hnd as [Hh Hnd]. destruct (proj1 (Hl h n) ltac:(left)) as [Hc ->].
    rewrite (held_delete size c h ∅ Hc), unreferenced_cons, (IH (delete h c) Hnd).
    + assert (in_use (delete h c) = in_use c) as ->; [|cbn; lia]. unfold in_use. apply map_eq. intros h'.
      apply option_eq. intros s. rewrite !map_lookup_filter_Some, lookup_delete_Some. cbn.
      split; [naive_solver|]. intros [Hs Hne]. split_and!; [|done..]. intros <-. congruence.
    + intros h' n'. rewrite lookup_delete_Some. transitivity ((h', n') ∈ (h, size h) :: l /\ h <> h').
      * rewrite elem_of_cons. split; [|naive_solver]. intros Hin. split; [by right|]. intros <-. apply Hh, list_elem_of_fmap. by exists (h, n').
      * rewrite Hl. tauto.
Qed.


(** ** A model with a separate encoder *)

(** One encoder input, at position 0 (as for speech models). *)
Record encoder_request (r : Request) (h : string) (N : nat) : Prop := {
  er_hashes : mm_hashes r = [h];
  er_positions : mm_positions r = [mkRange 0 N]
}.

Lemma ed_schedule r h N dc n budget m (Q : list nat * Z * Z -> EncoderCacheManager -> Prop) :
  encoder_request r h N -> 0 < N -> (0 < n)%Z ->
  wp (can_allocate r 0 budget 0) (fun ok m1 => ok = true /\ (Z.of_nat N <= num_free_slots m1)%Z /\
      (Z.of_nat N <= num_freeable_slots m1)%Z /\
      Q ([0], n, (budget - Z.of_nat N)%Z)
        (mkEnc (cache_size m1) (num_free_slots m1 + - Z.of_nat N) (num_freeable_slots m1 + - Z.of_nat N)
           (<[h := default ∅ (cached m1 !! h) ∪ {[request_id r]}]> (cached m1)) (freeable m1) (freed m1))) noexc m ->
  wp (schedule_and_allocate true dc r 0 n budget) Q noexc m.
Proof.
  intros [Hh Hp] HN Hn Hcan.
  unfold schedule_and_allocate, try_schedule_encoder_inputs, has_encoder_inputs, allocate_inputs.
  rewrite (proj2 (Z.eqb_neq n 0)) by lia. rewrite Hh, Hp. cbn [orb negb length Nat.eqb assertM schedule_encoder_loop pr_offset pr_length andb].
  do 4 wp_step. change (Z.of_nat 0) with 0%Z. rewrite !Z.add_0_l.
  rewrite (proj2 (Z.leb_gt n 0)) by lia. rewrite (proj2 (Z.leb_gt (Z.of_nat N) 0)) by lia. cbn [Z.ltb Z.compare andb]. do 2 wp_step. rewrite andb_false_r. cbn [andb es_budget es_tokens].
  wp_step. eapply wp_mono; [apply Hcan| |done]. cbn beta. intros ok m1 (-> & H1 & H2 & HQ). cbn [negb].
  unfold mm_hash. rewrite Hh. cbn [lookup list_lookup]. do 4 wp_step. cbn [es_inputs app forM]. wp_step. unfold allocate, mm_hash, get_num_encoder_tokens.
  rewrite Hh, Hp. cbn [lookup list_lookup pr_length]. enc_steps.
  destruct (cached m1 !! h) as [refs|] eqn:Hc; (apply wp_assertM; [by apply Z.leb_le|]); enc_steps;
    (apply wp_assertM; [by apply Z.leb_le|]); wp_step.
  - apply wp_refs_of_hash with refs; [done|]. enc_steps. done.
  - apply wp_refs_of_hash with ∅; [apply lookup_insert_eq|]. enc_steps. cbn in HQ |- *. by rewrite insert_insert_eq.
Qed.

(** The last reference goes: the entry becomes freeable. *)
Lemma ed_free r h N m (Q : unit -> EncoderCacheManager -> Prop) :
  encoder_request r h N -> cached m !! h = Some {[request_id r]} ->
  Q tt (mkEnc (cache_size m) (num_free_slots m) (num_freeable_slots m + Z.of_nat N) (<[h := ∅]> (cached m))
          (od_set h N (freeable m)) (freed m)) ->
  wp (enc_free r) Q noexc m.
Proof.
  intros [Hh Hp] Hc HQ. unfold enc_free, get_cached_input_ids. rewrite Hh. do 2 wp_step. cbn [length seq].
  rewrite filter_cons_True by (cbn; by rewrite Hc). cbn [forM]. wp_step. unfold free_encoder_input, mm_hash. rewrite Hh.
  change ([h] !! 0) with (Some h). do 4 wp_step. rewrite Hc. rewrite decide_False by set_solver+. do 2 wp_step. rewrite difference_diag_L, decide_True by done.
  unfold get_num_encoder_tokens. rewrite Hp. cbn [lookup list_lookup pr_length]. enc_steps. done.
Qed.

Lemma ed_free_evicted r h N m (Q : unit -> EncoderCacheManager -> Prop) :
  encoder_request r h N -> cached m !! h = None -> Q tt m -> wp (enc_free r) Q noexc m.
Proof.
  intros [Hh Hp] Hc HQ. unfold enc_free, get_cached_input_ids. rewrite Hh. do 2 wp_step. cbn [length seq].
  rewrite filter_cons_False by (cbn; rewrite Hc; by intros [? ?]). done.
Qed.

Lemma ed_can_room r h N budget m (Q : bool -> EncoderCacheManager -> Prop) :
  encoder_request r h N -> (Z.of_nat N <= budget)%Z -> (Z.of_nat N <= num_free_slots m)%Z -> Q true m ->
  wp (can_allocate r 0 budget 0) Q noexc m.
Proof.
  intros [_ Hp] Hb Hf HQ. unfold can_allocate, get_num_encoder_tokens. rewrite Hp. cbn [lookup list_lookup pr_length].
  do 2 enc_step. rewrite (proj2 (Z.ltb_ge _ _)) by lia. do 2 wp_step. by rewrite (proj2 (Z.leb_le _ _)) by lia.
Qed.

Lemma ed_can_evict r h N budget h0 n0 refs rest m (Q : bool -> EncoderCacheManager -> Prop) :
  encoder_request r h N -> (Z.of_nat N <= budget)%Z -> (num_free_slots m < Z.of_nat N <= num_freeable_slots m)%Z ->
  freeable m = (h0, n0) :: rest -> cached m !! h0 = Some refs -> (Z.of_nat N <= num_free_slots m + Z.of_nat n0)%Z ->
  Q true (mkEnc (cache_size m) (num_free_slots m + Z.of_nat n0) (num_freeable_slots m) (delete h0 (cached m)) rest (freed m ++ [h0])) ->
  wp (can_allocate r 0 budget 0) Q noexc m.
Proof.
  intros [_ Hp] Hb Hf Hl Hc Hn HQ. unfold can_allocate, get_num_encoder_tokens. rewrite Hp. cbn [lookup list_lookup pr_length].
  do 2 enc_step. rewrite (proj2 (Z.ltb_ge _ _)) by lia. do 2 wp_step. rewrite (proj2 (Z.leb_gt _ _)) by lia.
  rewrite (proj2 (Z.ltb_ge _ _)) by lia. rewrite Hl. wp_step. cbn [length evict_loop]. do 2 wp_step.
  rewrite (proj2 (Z.ltb_lt _ _)), Hl by lia. do 3 wp_step. apply wp_refs_of_hash with refs; [done|]. do 8 wp_step. cbn [num_free_slots].
  rewrite (proj2 (Z.ltb_ge _ _)); [by wp_steps|]. cbn. lia.
Qed.

(** ** What the manager promises *)

Definition sorted_positions (r : Request) : Prop :=
  forall i j p q, i < j -> mm_positions r !! i = Some p -> mm_positions r !! j = Some q -> pr_offset p <= pr_offset q.


(** [can_allocate] answers yes exactly when the input fits the compute budget and, with the
    tokens already scheduled, the freeable slots; after a yes there is room; entries in use stay, and
    the entries evicted are the oldest unused ones, no more than needed; it never raises. *)
Theorem can_allocate_exact size capacity m r i h budget scheduled :
  (0 <= capacity)%Z -> enc_reachable size capacity m -> mm_ok size r -> mm_hashes r !! i = Some h ->
  exists ok m', can_allocate r i budget scheduled m = (Ok ok, m') /\
    (ok = true <-> (Z.of_nat (size h) <= budget /\
                    Z.of_nat (size h) + scheduled <= capacity - held size (in_use (cached m)))%Z) /\
    (ok = true -> (Z.of_nat (size h) + scheduled <= num_free_slots m')%Z) /\
    (ok = false -> m' = m) /\ in_use (cached m') = in_use (cached m) /\
    evicts_oldest (Z.of_nat (size h) + scheduled) m m'.
Proof.
  intros Hc Hm Hr Hi. destruct (reachable_ok size capacity m Hc Hm) as [Hok Hcap].
  pose proof (held_split size (freeable m) (cached m) (eo_keys _ _ Hok) (eo_unref _ _ Hok)) as Hsplit.
  destruct (wp_noexc_run _ _ _ (can_allocate_spec size r i h budget scheduled m Hok Hr Hi))
    as (ok & m' & E & H1 & H2 & H3 & H4 & H5 & H6 & [H7 H8] & H9).
  assert (num_freeable_slots m = (capacity - held size (in_use (cached m)))%Z) as Hf by (destruct Hok; lia).
  rewrite Hf in H2. exists ok, m'. split_and!; [done..| |done].
  unfold in_use. apply map_eq. intros h'. apply option_eq. intros s. rewrite !map_lookup_filter_Some. cbn. naive_solver.
Qed.

(** Scheduling the encoder inputs of a step and allocating them, for a decoder-only model: nothing
    raises, the budget is respected, every input that overlaps the tokens scheduled ends up in the cache
    with a reference of this request, references of others stay, and the step is cut short only at the
    start of an input that overlaps it. *)
Theorem encoder_schedule_sound size capacity m dc r c n b :
  (0 <= capacity)%Z -> enc_reachable size capacity m -> mm_ok size r -> sorted_positions r ->
  (0 <= c)%Z -> (0 <= n)%Z -> (0 <= b)%Z ->
  exists ids n' b' m', schedule_and_allocate false dc r c n b m = (Ok (ids, n', b'), m') /\
    enc_reachable size capacity m' /\ (0 <= n' <= n)%Z /\ (0 <= b' <= b)%Z /\ refs_grow m m' /\
    (forall j h p, mm_hashes r !! j = Some h -> mm_positions r !! j = Some p -> overlaps c (c + n') p -> holds_input m' r h) /\
    (n' = n \/ exists i p, mm_positions r !! i = Some p /\ overlaps c (c + n) p /\
       n' = Z.max 0 (Z.of_nat (pr_offset p) - c)).
Proof.
  intros Hcap Hm Hr Hs Hc Hn Hb. destruct (reachable_ok size capacity m Hcap Hm) as [Hok _].
  destruct (wp_noexc_run _ _ _ (schedule_and_allocate_spec size dc r c n b m Hok Hr Hc Hn Hb Hs))
    as ([[ids n'] b'] & m' & E & H1 & H2 & H3 & H4 & H5 & H6 & H7).
  exists ids, n', b', m'. split_and!; try done; [|lia..].
  apply (reach_step _ _ m); [done|]. replace m' with (schedule_and_allocate false dc r c n b m).2 by by rewrite E.
  by apply step_schedule.
Qed.

(** With a separate encoder the scheduler does not look an input up before allocating it. When the
    input of a request is still cached and unused, allocating it again takes its slots twice and leaves it
    listed as freeable: the next request evicts it while in use, and when all three requests have finished
    its slots are lost to both counters. *)
Theorem encoder_decoder_leak dc r1 r2 r3 h h3 N capacity n budget :
  encoder_request r1 h N -> encoder_request r2 h N -> encoder_request r3 h3 N -> h <> h3 ->
  0 < N -> (2 * Z.of_nat N <= capacity < 3 * Z.of_nat N)%Z -> (Z.of_nat N <= budget)%Z -> (0 < n)%Z ->
  exists m m',
    (schedule_and_allocate true dc r1 0 n budget ;; enc_free r1 ;;
     schedule_and_allocate true dc r2 0 n budget ;; schedule_and_allocate true dc r3 0 n budget) (enc_init capacity)
      = (Ok ([0], n, (budget - Z.of_nat N)%Z), m) /\
    cached m !! h = None /\ freed m = [h] /\
    (enc_free r2 ;; enc_free r3) m = (Ok tt, m') /\
    cached m' = {[h3 := ∅]} /\ num_freeable_slots m' = (capacity - Z.of_nat N)%Z /\
    num_free_slots m' = (capacity - 2 * Z.of_nat N)%Z.
Proof.
  intros H1 H2 H3 Hne HN Hcap Hb Hn. set (z := Z.of_nat N) in *.
  assert (wp (schedule_and_allocate true dc r1 0 n budget ;; enc_free r1 ;;
     schedule_and_allocate true dc r2 0 n budget ;; schedule_and_allocate true dc r3 0 n budget)
     (fun res m => res = ([0], n, (budget - z)%Z) /\
       m = mkEnc capacity (capacity - 2 * z) (capacity - 2 * z) {[h3 := {[request_id r3]}]} [] [h]) noexc (enc_init capacity)) as Hrun.
  { wp_step. apply (ed_schedule r1 h N); [done..|]. apply (ed_can_room r1 h N); [done..|cbn; lia|]. cbn. split_and!; [done|lia..|].
    wp_step. apply (ed_free r1 h N); [done| |].
    { cbn. rewrite lookup_insert_eq. f_equal. rewrite lookup_empty. cbn. by rewrite union_empty_l_L. }
    cbn [cached cache_size num_free_slots num_freeable_slots freeable freed od_set]. rewrite insert_insert_eq.
    wp_step. apply (ed_schedule r2 h N); [done..|]. apply (ed_can_room r2 h N); [done..|cbn; lia|]. cbn. split_and!; [done|lia..|].
    rewrite lookup_insert_eq, insert_insert_eq. cbn. rewrite union_empty_l_L.
    apply (ed_schedule r3 h3 N); [done..|]. eapply (ed_can_evict r3 h3 N budget h N {[request_id r2]} []);
      [done..|cbn; lia|done|apply lookup_insert_eq|cbn; lia|].
    cbn. split_and!; [done|lia..|done|]. rewrite delete_insert_eq, delete_empty, lookup_empty. cbn. rewrite union_empty_l_L.
    unfold singletonM, map_singleton. f_equal; lia. }
  set (m := mkEnc capacity _ _ _ _ _) in Hrun.
  assert (wp (enc_free r2 ;; enc_free r3) (fun _ m' => cached m' = {[h3 := ∅]} /\
     num_freeable_slots m' = (capacity - z)%Z /\ num_free_slots m' = (capacity - 2 * z)%Z) noexc m) as Hfree.
  { wp_step. apply (ed_free_evicted r2 h N); [done|by apply lookup_singleton_ne|].
    apply (ed_free r3 h3 N); [done|apply lookup_singleton_eq|]. cbn [cached num_free_slots num_freeable_slots].
    unfold m. cbn [cached num_free_slots num_freeable_slots]. split_and!; [apply insert_singleton_eq|unfold z; lia|done]. }
  destruct (wp_noexc_run _ _ _ Hrun) as (res & m1 & E1 & -> & ->).
  destruct (wp_noexc_run _ _ _ Hfree) as ([] & m2 & E2 & F1 & F2 & F3).
  exists m, m2. split_and!; [done|by apply lookup_singleton_ne|done..].
Qed.

Lemma foldl_max_spec l : forall x, (x <= foldl Z.max x l)%Z /\ (forall y, y ∈ l -> (y <= foldl Z.max x l)%Z) /\
  (foldl Z.max x l = x \/ foldl Z.max x l ∈ l).
Proof.
  induction l as [|a l IH]; intros x; cbn; [split_and!; [lia|by intros ? ?%elem_of_nil|by left]|].
  destruct (IH (Z.max x a)) as (H1 & H2 & H3). split_and!; [lia| |].
  - intros y [->|Hy]%elem_of_cons; [lia|by apply H2].
  - rewrite elem_of_cons. destruct H3 as [H3|H3]; [|by right; right]. destruct (Z.max_spec x a) as [[_ E]|[_ E]]; rewrite E in H3 |- *; tauto.
Qed.

Lemma max_item l x xs : l = x :: xs -> (forall y, y ∈ l -> (y <= foldl Z.max x xs)%Z) /\ foldl Z.max x xs ∈ l.
Proof.
  intros ->. destruct (foldl_max_spec xs x) as (H1 & H2 & H3). split.
  - intros y [->|Hy]%elem_of_cons; [done|by apply H2].
  - rewrite elem_of_cons. tauto.
Qed.

(** The budgets computed at startup: a [ValueError] exactly when multi-modal inputs may not be chunked
    and some item is longer than a batch; otherwise an item of any modality, on an empty cache of that size
    and with that compute budget, can be allocated at once. *)
Theorem encoder_budget_admits c items :
  (compute_encoder_budget true c items = Raise ValueError <->
     disable_chunked_mm_input c = true /\ exists y, y ∈ items /\ (eb_max_num_batched_tokens c < y)%Z) /\
  (forall compute size r i n y, compute_encoder_budget true c items = Ok (compute, size) ->
     get_num_encoder_tokens r i = Ok n -> y ∈ items -> (Z.of_nat n <= y)%Z ->
     can_allocate r i compute 0 (enc_init size) = (Ok true, enc_init size)).
Proof.
  unfold compute_encoder_budget, compute_mm_encoder_budget. destruct items as [|x xs] eqn:Hl.
  { split; [|by intros ??????? _ ?%elem_of_nil]. split; [done|]. by intros (_ & y & ?%elem_of_nil & _). }
  rewrite <-Hl. destruct (max_item items x xs Hl) as [Hmax Hin]. set (k := foldl Z.max x xs) in *. split.
  - destruct (disable_chunked_mm_input c); cbn [andb]; [|by split; [|intros [? _]]].
    destruct (Z.ltb_spec (eb_max_num_batched_tokens c) k).
    + split; [|done]. intros _. split; [done|]. by exists k.
    + split; [done|]. intros (_ & y & Hy & Hlt). apply Hmax in Hy. lia.
  - intros compute size r i n y Hc Hn Hy Hle. apply Hmax in Hy. case_match; [done|]. injection Hc as <- <-.
    unfold can_allocate. rewrite Hn. cbn. unfold mbind, M_bind, mret, M_ret, get, lift_out.
    rewrite (proj2 (Z.ltb_ge _ _)) by lia. rewrite (proj2 (Z.leb_le _ _)) by (cbn; lia). done.
Qed.

(** * Witnesses *)

Definition example_request (id : string) (hashes : list string) (positions : list PlaceholderRange) : Request :=
  mkRequest id 0 0 None None None 0 RUNNING false [] None 16 [] [] [] 0 [] 0 None positions hashes 0 0 [].

Definition example_size (h : string) : nat := if decide (h = "a"%string) then 3 else 4.
Definition example_two : Request := example_request "r1" ["a"; "b"]%string [mkRange 0 3; mkRange 10 4].

Lemma example_two_ok : mm_ok example_size example_two.
Proof.
  split; [done|]. intros [|[|i]] h p Hh Hp; cbn in Hh, Hp; [| |done].
  - by simplify_eq.
  - by simplify_eq.
Qed.

Lemma example_two_sorted : sorted_positions example_two.
Proof.
  intros [|[|i]] [|[|j]] p q Hij Hp Hq; cbn in Hp, Hq; try done; try lia; simplify_eq; cbn; lia.
Qed.

Lemma example_reachable : enc_reachable example_size 8 (schedule_and_allocate false false example_two 0 12 16 (enc_init 8)).2.
Proof.
  eapply reach_step; [apply reach_init|]. apply step_schedule; [apply example_two_ok|lia..|apply example_two_sorted].
Qed.


Lemma can_allocate_exact_witness :
  exists ok m', can_allocate example_two 1 16 3 (enc_init 8) = (Ok ok, m') /\
    (ok = true <-> (4 <= 16 /\ 4 + 3 <= 8 - held example_size (in_use ∅))%Z).
Proof.
  destruct (can_allocate_exact example_size 8 (enc_init 8) example_two 1 "b" 16 3 ltac:(lia) (reach_init _ _) example_two_ok eq_refl)
    as (ok & m' & H1 & H2 & _). exists ok, m'. split; [exact H1|exact H2].
Defined.

Lemma encoder_schedule_sound_witness :
  exists ids n' b' m', schedule_and_allocate false false example_two 0 12 16 (enc_init 8) = (Ok (ids, n', b'), m') /\
    (0 <= n' <= 12)%Z /\ (forall j h p, mm_hashes example_two !! j = Some h -> mm_positions example_two !! j = Some p ->
      overlaps 0 (0 + n') p -> holds_input m' example_two h).
Proof.
  destruct (encoder_schedule_sound example_size 8 (enc_init 8) false example_two 0 12 16 ltac:(lia) (reach_init _ _)
    example_two_ok example_two_sorted ltac:(lia) ltac:(lia) ltac:(lia)) as (ids & n' & b' & m' & H1 & _ & H2 & _ & _ & H3 & _).
  exists ids, n', b', m'. split; [exact H1|]. split; [exact H2|exact H3].
Defined.

(** Two requests with the same 1500-token audio, then a third with another one, cache of 4096. *)
Lemma encoder_decoder_leak_witness :
  let r id h := example_request id [h] [mkRange 0 1500] in
  exists m m',
    (schedule_and_allocate true false (r "1" "x")%string 0 4 4096 ;; enc_free (r "1" "x")%string ;;
     schedule_and_allocate true false (r "2" "x")%string 0 4 4096 ;; schedule_and_allocate true false (r "3" "y")%string 0 4 4096) (enc_init 4096)
      = (Ok ([0], 4%Z, (4096 - Z.of_nat 1500)%Z), m) /\ cached m !! "x"%string = None /\ freed m = ["x"%string] /\
    (enc_free (r "2" "x")%string ;; enc_free (r "3" "y")%string) m = (Ok tt, m') /\ cached m' = {["y"%string := ∅]} /\
    num_freeable_slots m' = (4096 - Z.of_nat 1500)%Z /\ num_free_slots m' = (4096 - 2 * Z.of_nat 1500)%Z.
Proof.
  cbv zeta. apply (encoder_decoder_leak false _ _ _ "x" "y" 1500 4096 4 4096); try (split; reflexivity); [done|lia..].
Defined.

Lemma encoder_budget_admits_witness :
  compute_encoder_budget true (mkEncBudget false 8 2 2) [3; 5]%Z = Ok (5, 5)%Z /\
  can_allocate example_two 1 5 0 (enc_init 5) = (Ok true, enc_init 5).
Proof.
  split; [reflexivity|].
  apply (proj2 (encoder_budget_admits (mkEncBudget false 8 2 2) [3; 5]%Z) 5%Z 5%Z example_two 1 4 5%Z); [reflexivity|reflexivity|right; left|lia].
Defined.
