(* ===== verification/RequestQueue.v ===== *)
(** The queues of waiting requests: [vllm/v1/core/sched/request_queue.py].

    Queues hold references to request objects; a reference is a natural number, and equality of requests is
    equality of references.  The first-come-first-served queue is a deque.  The priority queue is the binary heap
    of Python's [heapq] on tuples of priority, arrival time and request; comparing two different requests
    raises, and that exception is part of the model.  Arrival times are integers. *)
From stdpp Require Import base sets list sorting.
From Stdlib Require Import ZArith Lia.
From S2P Require Import Prelude.
Open Scope nat_scope.

(** * [heapq]

    The functions of the standard library on a list, in the form of its C implementation, which exchanges
    elements where the Python one leaves a hole.  A comparison may raise. *)
Section heapq.
Context {A : Type} (lt : A -> A -> outcome bool).

Definition swap (h : list A) (i j : nat) (x y : A) : list A := <[i := y]> (<[j := x]> h).

(** [_siftdown]: the element at [pos] goes up until its parent is not larger. *)
Fixpoint siftdown (fuel : nat) (h : list A) (startpos pos : nat) : outcome (list A) :=
  match fuel with
  | O => Ok h
  | S fuel =>
      if pos <=? startpos then Ok h
      else
        let parentpos := (pos - 1) / 2 in
        match h !! pos, h !! parentpos with
        | Some newitem, Some parent =>
            b ← lt newitem parent;
            if (b : bool) then siftdown fuel (swap h pos parentpos newitem parent) startpos parentpos else Ok h
        | _, _ => Raise IndexError
        end
  end.

(** The smaller child of [pos]: the right one unless the left one is smaller. *)
Definition smaller_child (h : list A) (pos : nat) : outcome nat :=
  let childpos := 2 * pos + 1 in
  let rightpos := childpos + 1 in
  match h !! childpos, h !! rightpos with
  | Some l, Some r => b ← lt l r; Ok (if (b : bool) then childpos else rightpos)
  | _, _ => Ok childpos
  end.

(** The first loop of [_siftup]: smaller children move up until a leaf is reached. *)
Fixpoint sift_to_leaf (fuel : nat) (h : list A) (pos : nat) : outcome (list A * nat) :=
  match fuel with
  | O => Ok (h, pos)
  | S fuel =>
      if 2 * pos + 1 <? length h then
        childpos ← smaller_child h pos;
        match h !! pos, h !! childpos with
        | Some x, Some c => sift_to_leaf fuel (swap h pos childpos x c) childpos
        | _, _ => Raise IndexError
        end
      else Ok (h, pos)
  end.

Definition siftup (h : list A) (pos : nat) : outcome (list A) :=
  '(h, leaf) ← sift_to_leaf (length h) h pos;
  siftdown (S leaf) h pos leaf.

Definition heappush (h : list A) (item : A) : outcome (list A) :=
  siftdown (S (length h)) (h ++ [item]) 0 (length h).

Definition heappop (h : list A) : outcome (A * list A) :=
  match last h with
  | None => Raise IndexError
  | Some lastelt =>
      let h := removelast h in
      match h with
      | [] => Ok (lastelt, [])
      | returnitem :: _ => h ← siftup (<[0 := lastelt]> h) 0; Ok (returnitem, h)
      end
  end.

(** [for i in reversed(range(n//2)): _siftup(x, i)]. *)
Fixpoint heapify_from (n : nat) (h : list A) : outcome (list A) :=
  match n with
  | O => Ok h
  | S n => h ← siftup h n; heapify_from n h
  end.

Definition heapify (h : list A) : outcome (list A) := heapify_from (length h / 2) h.

(** [while heap: yield heappop(heap)]. *)
Fixpoint heap_drain (fuel : nat) (h : list A) : outcome (list A) :=
  match fuel, h with
  | S fuel, _ :: _ => '(x, h) ← heappop h; l ← heap_drain fuel h; Ok (x :: l)
  | _, _ => Ok []
  end.

(** ** Correctness for elements that can be compared *)

Context (le : A -> A -> Prop) `{!Reflexive le, !Transitive le}.

(** Elements of [l] are compared by the total preorder [le]. *)
Definition comparable (l : list A) : Prop :=
  forall a b, a ∈ l -> b ∈ l -> exists r, lt a b = Ok r /\ (if r then le a b else le b a).

Lemma comparable_perm l l' : l ≡ₚ l' -> comparable l -> comparable l'.
Proof. intros Hp Hc a b Ha Hb. apply Hc; by rewrite Hp. Qed.

Lemma swap_perm h i j x y : h !! i = Some x -> h !! j = Some y -> swap h i j x y ≡ₚ h.
Proof. intros Hi Hj. unfold swap. by apply Permutation_insert_swap. Qed.

Lemma swap_lookup h i j x y k : h !! i = Some x -> h !! j = Some y -> i <> j ->
  swap h i j x y !! k = if decide (k = i) then Some y else if decide (k = j) then Some x else h !! k.
Proof.
  intros Hi Hj Hij. apply lookup_lt_Some in Hi as Hi', Hj as Hj'. unfold swap.
  destruct (decide (k = i)) as [->|]; [by rewrite list_lookup_insert_eq by (rewrite length_insert; lia)|].
  rewrite list_lookup_insert_ne by done. destruct (decide (k = j)) as [->|]; [by rewrite list_lookup_insert_eq by lia|].
  by rewrite list_lookup_insert_ne.
Qed.

Lemma swap_length h i j x y : length (swap h i j x y) = length h.
Proof. unfold swap. by rewrite !length_insert. Qed.

Definition parent (i : nat) : nat := (i - 1) / 2.

(** [le] holds at [i] if its element is not smaller than the one at [j]. *)
Definition ordered (h : list A) (j i : nat) : Prop := forall x y, h !! j = Some x -> h !! i = Some y -> le x y.

(** The heap property below [s]. *)
Definition heap_from (s : nat) (h : list A) : Prop := forall i, 0 < i -> s <= parent i -> ordered h (parent i) i.

(** [p] is in the subtree of [s]. *)
Inductive under (s : nat) : nat -> Prop :=
| under_root : under s s
| under_left p : under s p -> under s (2 * p + 1)
| under_right p : under s p -> under s (2 * p + 2).

Lemma parent_left p : parent (2 * p + 1) = p.
Proof. unfold parent. symmetry. apply (Nat.div_unique _ 2 _ 0); lia. Qed.
Lemma parent_right p : parent (2 * p + 2) = p.
Proof. unfold parent. symmetry. apply (Nat.div_unique _ 2 _ 1); lia. Qed.

Lemma parent_cases i : 0 < i -> i = 2 * parent i + 1 \/ i = 2 * parent i + 2.
Proof. intros Hi. unfold parent. pose proof (Nat.div_mod (i - 1) 2 ltac:(lia)). pose proof (Nat.mod_upper_bound (i - 1) 2 ltac:(lia)). lia. Qed.

Lemma under_ge s p : under s p -> s <= p.
Proof. induction 1; lia. Qed.

Lemma under_parent s p : under s p -> s < p -> under s (parent p) /\ parent p < p.
Proof.
  intros Hu Hlt. destruct Hu as [|p Hu|p Hu]; [lia| |]; rewrite ?parent_left, ?parent_right; (split; [done|lia]).
Qed.

(** The heap property below [s] but for the element at [pos], which may be smaller than the elements above it
    ([up]) or larger than those below it. *)
Definition almost (s pos : nat) (below : bool) (h : list A) : Prop :=
  (forall i, 0 < i -> s <= parent i -> i <> pos -> (below = true -> parent i <> pos) -> ordered h (parent i) i) /\
  (forall c, 0 < c -> parent c = pos -> s < pos -> ordered h (parent pos) c).

Lemma siftdown_spec fuel h s pos :
  pos < fuel -> pos < length h -> comparable h -> under s pos -> almost s pos false h ->
  exists h', siftdown fuel h s pos = Ok h' /\ h' ≡ₚ h /\ heap_from s h'.
Proof.
  induction fuel as [|fuel IH] in h, pos |- *; intros Hf Hl Hc Hu [H1 H2]; [lia|]. cbn [siftdown].
  destruct (Nat.leb_spec pos s) as [Hle|Hgt].
  { exists h. split_and!; [done|done|]. intros i Hi Hs. apply H1; [done|done| |done]. intros ->.
    destruct (parent_cases pos Hi); lia. }
  destruct (under_parent _ _ Hu Hgt) as [Hup Hplt]. apply under_ge in Hup as Hpge. fold (parent pos).
  destruct (lookup_lt_is_Some_2 h pos Hl) as [x Hx]. destruct (lookup_lt_is_Some_2 h (parent pos) ltac:(lia)) as [y Hy].
  rewrite Hx, Hy. destruct (Hc x y) as (r & -> & Hr); [by eapply list_elem_of_lookup_2..|]. cbn [mbind outcome_bind]. destruct r.
  - assert (forall k, swap h pos (parent pos) x y !! k = if decide (k = pos) then Some y else if decide (k = parent pos) then Some x else h !! k) as Hlk.
    { intros k. apply swap_lookup; [done|done|lia]. }
    edestruct (IH (swap h pos (parent pos) x y) (parent pos)) as (h' & E & Hp & Hh);
      [lia|rewrite swap_length; lia|eapply comparable_perm; [symmetry; by apply swap_perm|done]|done| |].
    + split.
      * intros i Hi Hs Hne _ a b Ha Hb. rewrite !Hlk in Ha, Hb.
        destruct (decide (i = pos)) as [->|Hip].
        { rewrite decide_False, decide_True in Ha by (done || lia). by simplify_eq. }
        rewrite (decide_False (P := i = parent pos)) in Hb by done.
        destruct (decide (parent i = pos)) as [Hpi|]; [simplify_eq; by eapply (H2 i)|].
        destruct (decide (parent i = parent pos)) as [Hpp|]; [|by eapply (H1 i)]. simplify_eq.
        trans y; [done|]. eapply (H1 i); try done; by rewrite ?Hpp.
      * intros c Hc0 Hpc Hsp a b Ha Hb. rewrite !Hlk in Ha, Hb.
        destruct (under_parent _ _ Hup Hsp) as [Hupp Hpplt]. apply under_ge in Hupp.
        rewrite !decide_False in Ha by lia.
        assert (le a y) as Hay by (eapply (H1 (parent pos)); done || lia).
        destruct (decide (c = pos)) as [->|]; [by simplify_eq|]. rewrite decide_False in Hb by (intros ->; destruct (parent_cases (parent pos)); lia).
        trans y; [done|]. eapply (H1 c); try done; by rewrite ?Hpc.
    + exists h'. split_and!; [done|by rewrite Hp, swap_perm|done].
  - exists h. split_and!; [done|done|]. intros i Hi Hs. destruct (decide (i = pos)) as [->|]; [|by apply H1].
    intros a b Ha Hb. by simplify_eq.
Qed.

Lemma smaller_child_spec h pos :
  comparable h -> 2 * pos + 1 < length h ->
  exists c, smaller_child h pos = Ok c /\ (c = 2 * pos + 1 \/ c = 2 * pos + 2) /\ c < length h /\
    forall i, 0 < i -> parent i = pos -> ordered h c i.
Proof.
  intros Hc Hl. unfold smaller_child. replace (2 * pos + 1 + 1) with (2 * pos + 2) by lia.
  destruct (lookup_lt_is_Some_2 h (2 * pos + 1) Hl) as [l Hleft]. rewrite Hleft.
  assert (forall i, 0 < i -> parent i = pos -> i = 2 * pos + 1 \/ i = 2 * pos + 2) as Hkids.
  { intros i Hi <-. by apply parent_cases. }
  destruct (h !! (2 * pos + 2)) as [r|] eqn:Hright.
  - destruct (Hc l r) as (b & -> & Hb); [by eapply list_elem_of_lookup_2..|]. cbn [mbind outcome_bind]. apply lookup_lt_Some in Hright as Hrl.
    exists (if b then 2 * pos + 1 else 2 * pos + 2). split_and!; [done|destruct b; lia|destruct b; lia|].
    intros i Hi Hp x y Hx Hy. destruct b, (Hkids i Hi Hp) as [->| ->]; by simplify_eq.
  - exists (2 * pos + 1). split_and!; [done|lia|done|]. intros i Hi Hp x y Hx Hy. destruct (Hkids i Hi Hp) as [->| ->]; by simplify_eq.
Qed.

Lemma sift_to_leaf_spec fuel h s pos :
  length h - pos <= fuel -> pos < length h -> comparable h -> under s pos -> almost s pos true h ->
  exists h' q, sift_to_leaf fuel h pos = Ok (h', q) /\ h' ≡ₚ h /\ q < length h' /\ under s q /\ almost s q false h'.
Proof.
  induction fuel as [|fuel IH] in h, pos |- *; intros Hf Hl Hc Hu [H1 H2]; [lia|]. cbn [sift_to_leaf].
  destruct (Nat.ltb_spec (2 * pos + 1) (length h)) as [Hin|Hleaf].
  2:{ exists h, pos. split_and!; [done|done|done|done|]. split; [|done]. intros i Hi Hs Hne _.
      destruct (decide (parent i = pos)) as [Hp|]; [|by apply H1]. intros a b _ Hb. apply lookup_lt_Some in Hb.
      destruct (parent_cases i Hi); lia. }
  destruct (smaller_child_spec h pos Hc Hin) as (c & -> & Hcc & Hcl & Hmin). cbn [mbind outcome_bind].
  destruct (lookup_lt_is_Some_2 h pos Hl) as [x Hx]. destruct (lookup_lt_is_Some_2 h c Hcl) as [y Hy]. rewrite Hx, Hy.
  assert (parent c = pos) as Hpc by (destruct Hcc as [->| ->]; [apply parent_left|apply parent_right]).
  assert (forall k, swap h pos c x y !! k = if decide (k = pos) then Some y else if decide (k = c) then Some x else h !! k) as Hlk.
  { intros k. apply swap_lookup; [done|done|lia]. }
  apply under_ge in Hu as Hsp.
  edestruct (IH (swap h pos c x y) c) as (h' & q & E & Hp & Hq & Huq & Ha); [rewrite swap_length; lia|by rewrite swap_length| | | |].
  - eapply comparable_perm; [symmetry; by apply swap_perm|done].
  - destruct Hcc as [->| ->]; by constructor.
  - split.
    + intros i Hi Hs Hne Hpar a b Ha Hb. specialize (Hpar eq_refl). rewrite !Hlk in Ha, Hb.
      rewrite (decide_False (P := i = c)) in Hb by done. rewrite (decide_False (P := parent i = c)) in Ha by done.
      destruct (decide (parent i = pos)) as [Hpi|].
      { rewrite decide_False in Hb by (intros ->; destruct (parent_cases pos); lia). injection Ha as <-. by eapply (Hmin i). }
      destruct (decide (i = pos)) as [->|]; [|by eapply (H1 i)]. injection Hb as <-.
      assert (s < pos) by (destruct (parent_cases pos); lia). by eapply (H2 c); [lia| | | |].
    + intros g Hg Hpg _ a b Ha Hb. rewrite !Hlk in Ha, Hb. rewrite Hpc in Ha. rewrite decide_True in Ha by done. injection Ha as <-.
      rewrite !decide_False in Hb by (destruct (parent_cases g Hg); lia).
      eapply (H1 g); try done; rewrite ?Hpg; try done; try lia. intros ->. destruct (parent_cases pos Hg); lia.
  - exists h', q. split_and!; [done|by rewrite Hp, swap_perm|done|done|done].
Qed.

(** A heap below the children of [s] becomes one below [s]. *)
Lemma siftup_spec h s : s < length h -> comparable h -> heap_from (S s) h ->
  exists h', siftup h s = Ok h' /\ h' ≡ₚ h /\ heap_from s h'.
Proof.
  intros Hs Hc Hh. unfold siftup.
  destruct (sift_to_leaf_spec (length h) h s s) as (h1 & q & -> & Hp & Hq & Hu & Ha); [lia|done|done|constructor| |].
  { split; [|lia]. intros i Hi Hsi _ Hne. apply Hh; [done|]. specialize (Hne eq_refl). lia. }
  cbn [mbind outcome_bind].
  destruct (siftdown_spec (S q) h1 s q) as (h' & -> & Hp' & Hh'); [lia|done|by eapply comparable_perm|done|done|].
  exists h'. split_and!; [done|by rewrite Hp'|done].
Qed.

Lemma heap_perm_length (h h' : list A) : h' ≡ₚ h -> length h' = length h.
Proof. by intros ->. Qed.

Lemma heapify_from_spec n h : n <= length h -> comparable h -> heap_from n h ->
  exists h', heapify_from n h = Ok h' /\ h' ≡ₚ h /\ heap_from 0 h'.
Proof.
  induction n as [|n IH] in h |- *; intros Hn Hc Hh; cbn [heapify_from]; [by exists h|].
  destruct (siftup_spec h n) as (h1 & -> & Hp & Hh1); [lia|done|done|]. cbn [mbind outcome_bind].
  destruct (IH h1) as (h' & -> & Hp' & Hh'); [rewrite Hp; lia|by eapply comparable_perm|done|].
  exists h'. split_and!; [done|by rewrite Hp'|done].
Qed.

Lemma heapify_spec h : comparable h -> exists h', heapify h = Ok h' /\ h' ≡ₚ h /\ heap_from 0 h'.
Proof.
  intros Hc. apply heapify_from_spec; [apply Nat.Div0.div_le_upper_bound; lia|done|].
  intros i Hi Hs a b _ Hb. apply lookup_lt_Some in Hb. pose proof (Nat.div_mod (length h) 2 ltac:(lia)).
  pose proof (Nat.mod_upper_bound (length h) 2 ltac:(lia)). destruct (parent_cases i Hi); lia.
Qed.

Lemma heappush_spec h x : comparable (h ++ [x]) -> heap_from 0 h ->
  exists h', heappush h x = Ok h' /\ h' ≡ₚ x :: h /\ heap_from 0 h'.
Proof.
  intros Hc Hh. unfold heappush.
  destruct (siftdown_spec (S (length h)) (h ++ [x]) 0 (length h)) as (h' & -> & Hp & Hh'); [lia|rewrite length_app; cbn; lia|done| | |].
  - clear. induction (length h) as [n IH] using lt_wf_ind. destruct n as [|n]; [constructor|].
    destruct (parent_cases (S n)) as [E|E]; [lia| |]; rewrite E; constructor; apply IH; lia.
  - split.
    + intros i Hi _ Hne _ a b Ha Hb. apply lookup_lt_Some in Hb as Hl. rewrite length_app in Hl. cbn in Hl.
      destruct (parent_cases i Hi); rewrite lookup_app_l in Ha, Hb by lia; by eapply (Hh i); [|lia|..].
    + intros c Hc0 Hpc Hl a b _ Hb. apply lookup_lt_Some in Hb. rewrite length_app in Hb. cbn in Hb. destruct (parent_cases c Hc0); lia.
  - exists h'. split_and!; [done| |done]. rewrite Hp. by rewrite Permutation_app_comm.
Qed.

(** The root is a least element. *)
Lemma heap_root h x y : heap_from 0 h -> h !! 0 = Some x -> y ∈ h -> le x y.
Proof.
  intros Hh Hx [i Hi]%list_elem_of_lookup. revert y Hi. induction i as [i IH] using lt_wf_ind. intros y Hi.
  destruct (decide (i = 0)) as [->|]; [by simplify_eq|]. apply lookup_lt_Some in Hi as Hl.
  destruct (lookup_lt_is_Some_2 h (parent i)) as [z Hz]; [destruct (parent_cases i); lia|].
  trans z; [apply (IH (parent i)); [destruct (parent_cases i); lia|done]|]. by eapply (Hh i); [lia|lia|..].
Qed.

Lemma heappop_spec h : comparable h -> heap_from 0 h -> h <> [] ->
  exists x h', heappop h = Ok (x, h') /\ h ≡ₚ x :: h' /\ heap_from 0 h' /\ h !! 0 = Some x.
Proof.
  intros Hc Hh Hne. unfold heappop. destruct (exists_last Hne) as (h0 & z & ->). rewrite last_snoc, removelast_last.
  destruct h0 as [|x t]; [by exists z, []|]. cbn [insert list_insert].
  assert (comparable (z :: t)) as Hc'. { intros a b Ha Hb. apply Hc; set_solver. }
  destruct (siftup_spec (z :: t) 0) as (h' & E & Hp & Hh'); [cbn; lia|done| |].
  { intros i Hi Hs a b Ha Hb. assert (forall k w, 0 < k -> (z :: t) !! k = Some w -> ((x :: t) ++ [z]) !! k = Some w) as Hk.
    { intros [|k] w ? Hw; [lia|]. cbn in *. by apply lookup_app_l_Some. }
    eapply (Hh i); [done|lia|apply Hk; [lia|done]|by apply Hk]. }
  cbn in E |- *. rewrite E. cbn [mbind outcome_bind]. exists x, h'. split_and!; [done| |done|done].
  rewrite Hp. cbn. by rewrite Permutation_app_comm.
Qed.

(** Popping until the heap is empty sorts it. *)
Lemma heap_drain_spec fuel h : length h <= fuel -> comparable h -> heap_from 0 h ->
  exists l, heap_drain fuel h = Ok l /\ l ≡ₚ h /\ StronglySorted le l.
Proof.
  induction fuel as [|fuel IH] in h |- *; intros Hf Hc Hh.
  { destruct h; [|cbn in Hf; lia]. exists []. split_and!; [done|done|constructor]. }
  destruct h as [|y h1] eqn:E; [exists []; split_and!; [done|done|constructor]|]. cbn [heap_drain]. rewrite <-E in *.
  destruct (heappop_spec h) as (x & h' & -> & Hp & Hh' & Hx); [done|done|by rewrite E|]. cbn [mbind outcome_bind].
  assert (comparable h') as Hc'. { intros a b Ha Hb. apply Hc; rewrite Hp; by right. }
  destruct (IH h') as (l & -> & Hl & Hs); [|done|done|]. { rewrite Hp in Hf. cbn in Hf. lia. }
  cbn [mbind outcome_bind]. exists (x :: l). split_and!; [done|by rewrite Hl, Hp|]. constructor; [done|]. apply Forall_forall. intros w Hw.
  apply (heap_root h); [done|done|]. rewrite Hp. right. by rewrite <-Hl.
Qed.
End heapq.

(** * The queues *)

Inductive SchedulingPolicy : Set := FCFS | PRIORITY.

(** [(request.priority, request.arrival_time, request)]. *)
Abbreviation Entry := (Z * Z * nat)%type.

(** Tuples are compared at the first position where they differ; [Request] has no [__lt__]. *)
Definition entry_lt (a b : Entry) : outcome bool :=
  let '(p1, t1, r1) := a in
  let '(p2, t2, r2) := b in
  if negb (p1 =? p2)%Z then Ok (p1 <? p2)%Z
  else if negb (t1 =? t2)%Z then Ok (t1 <? t2)%Z
  else if r1 =? r2 then Ok false
  else Raise TypeError.

Inductive RequestQueue :=
| FCFSRequestQueue (d : list nat)
| PriorityRequestQueue (heap : list Entry).

Definition create_request_queue (policy : SchedulingPolicy) : RequestQueue :=
  match policy with PRIORITY => PriorityRequestQueue [] | FCFS => FCFSRequestQueue [] end.

Section queue.
(** The priority and arrival time of a request, which never change. *)
Context (key : nat -> Z * Z).

Definition entry (r : nat) : Entry := (key r, r).

Definition add_request (r : nat) (q : RequestQueue) : outcome RequestQueue :=
  match q with
  | FCFSRequestQueue d => Ok (FCFSRequestQueue (d ++ [r]))
  | PriorityRequestQueue h => h ← heappush entry_lt h (entry r); Ok (PriorityRequestQueue h)
  end.

Definition pop_request (q : RequestQueue) : outcome (nat * RequestQueue) :=
  match q with
  | FCFSRequestQueue [] => Raise IndexError
  | FCFSRequestQueue (r :: d) => Ok (r, FCFSRequestQueue d)
  | PriorityRequestQueue [] => Raise IndexError
  | PriorityRequestQueue h => '(e, h) ← heappop entry_lt h; Ok (e.2, PriorityRequestQueue h)
  end.

Definition peek_request (q : RequestQueue) : outcome nat :=
  match q with
  | FCFSRequestQueue (r :: _) => Ok r
  | PriorityRequestQueue (e :: _) => Ok e.2
  | _ => Raise IndexError
  end.

Definition prepend_request (r : nat) (q : RequestQueue) : outcome RequestQueue :=
  match q with
  | FCFSRequestQueue d => Ok (FCFSRequestQueue (r :: d))
  | PriorityRequestQueue _ => add_request r q
  end.

(** [__iter__]: the heap is copied and popped. *)
Definition queue_iter (q : RequestQueue) : outcome (list nat) :=
  match q with
  | FCFSRequestQueue d => Ok d
  | PriorityRequestQueue h => l ← heap_drain entry_lt (length h) h; Ok (map snd l)
  end.

Definition queue_reversed (q : RequestQueue) : outcome (list nat) := l ← queue_iter q; Ok (reverse l).

Fixpoint add_all (rs : list nat) (q : RequestQueue) : outcome RequestQueue :=
  match rs with
  | [] => Ok q
  | r :: rs => q ← add_request r q; add_all rs q
  end.

(** [extendleft(reversed(requests))] for the deque: every element goes to the left of the previous one. *)
Definition prepend_requests (requests q : RequestQueue) : outcome RequestQueue :=
  match q with
  | FCFSRequestQueue d => l ← queue_reversed requests; Ok (FCFSRequestQueue (foldl (fun d r => r :: d) d l))
  | PriorityRequestQueue _ => l ← queue_iter requests; add_all l q
  end.

Fixpoint remove_first (r : nat) (l : list nat) : option (list nat) :=
  match l with
  | [] => None
  | x :: l' => if x =? r then Some l' else (fun l' => x :: l') <$> remove_first r l'
  end.

Definition remove_request (r : nat) (q : RequestQueue) : outcome RequestQueue :=
  match q with
  | FCFSRequestQueue d => match remove_first r d with Some d => Ok (FCFSRequestQueue d) | None => Raise ValueError end
  | PriorityRequestQueue h => h ← heapify entry_lt (filter (fun e => e.2 <> r) h); Ok (PriorityRequestQueue h)
  end.

Definition remove_requests (rs : list nat) (q : RequestQueue) : outcome RequestQueue :=
  match q with
  | FCFSRequestQueue d => Ok (FCFSRequestQueue (filter (fun r => r ∉ rs) d))
  | PriorityRequestQueue h => h ← heapify entry_lt (filter (fun e => e.2 ∉ rs) h); Ok (PriorityRequestQueue h)
  end.

(** The requests in the queue, in the order of the underlying list. *)
Definition queue_items (q : RequestQueue) : list nat :=
  match q with FCFSRequestQueue d => d | PriorityRequestQueue h => snd <$> h end.

Definition queue_len (q : RequestQueue) : nat := length (queue_items q).
Definition queue_bool (q : RequestQueue) : bool := 0 <? queue_len q.

(** ** The specification: a list in the order of service *)

Definition key_leb (a b : nat) : bool := ((key a).1 <? (key b).1)%Z || ((key a).1 =? (key b).1)%Z && ((key a).2 <=? (key b).2)%Z.

Fixpoint insert_by_key (r : nat) (l : list nat) : list nat :=
  match l with
  | [] => [r]
  | x :: l' => if key_leb r x then r :: l else x :: insert_by_key r l'
  end.

Inductive qop :=
| OAdd (r : nat) | OPop | OPeek | OPrepend (r : nat)
| OPutBack (skipped : list nat)
| ORemove (r : nat) | ORemoveAll (rs : list nat)
| OIter | OReversed | OLen.

(** The value an operation returns and the queue it leaves.  [OPutBack] is how the scheduler returns the requests it
    skipped: they are put one after the other at the head of a new queue, which then goes to the head of this one. *)
Definition qstep (policy : SchedulingPolicy) (o : qop) (q : RequestQueue) : outcome (list nat * RequestQueue) :=
  match o with
  | OAdd r => q ← add_request r q; Ok ([], q)
  | OPop => '(r, q) ← pop_request q; Ok ([r], q)
  | OPeek => r ← peek_request q; Ok ([r], q)
  | OPrepend r => q ← prepend_request r q; Ok ([], q)
  | OPutBack rs =>
      skipped ← foldl (fun s r => s ← s; prepend_request r s) (Ok (create_request_queue policy)) rs;
      q ← (if queue_bool skipped then prepend_requests skipped q else Ok q); Ok ([], q)
  | ORemove r => q ← remove_request r q; Ok ([], q)
  | ORemoveAll rs => q ← remove_requests rs q; Ok ([], q)
  | OIter => l ← queue_iter q; Ok (l, q)
  | OReversed => l ← queue_reversed q; Ok (l, q)
  | OLen => Ok ([queue_len q], q)
  end.

Definition spec_add (policy : SchedulingPolicy) (r : nat) (l : list nat) : list nat :=
  match policy with FCFS => l ++ [r] | PRIORITY => insert_by_key r l end.

Definition spec_step (policy : SchedulingPolicy) (o : qop) (l : list nat) : outcome (list nat * list nat) :=
  match o with
  | OAdd r => Ok ([], spec_add policy r l)
  | OPop => match l with r :: l => Ok ([r], l) | [] => Raise IndexError end
  | OPeek => match l with r :: _ => Ok ([r], l) | [] => Raise IndexError end
  | OPrepend r => Ok ([], match policy with FCFS => r :: l | PRIORITY => insert_by_key r l end)
  | OPutBack rs => Ok ([], match policy with FCFS => reverse rs ++ l | PRIORITY => foldr insert_by_key l rs end)
  | ORemove r =>
      match policy with
      | FCFS => match remove_first r l with Some l => Ok ([], l) | None => Raise ValueError end
      | PRIORITY => Ok ([], filter (fun x => x <> r) l)
      end
  | ORemoveAll rs => Ok ([], filter (fun x => x ∉ rs) l)
  | OIter => Ok (l, l)
  | OReversed => Ok (reverse l, l)
  | OLen => Ok ([length l], l)
  end.

(** The values returned by a sequence of operations, up to the first that raises, and its exception. *)
Fixpoint qrun {Q} (step : qop -> Q -> outcome (list nat * Q)) (os : list qop) (q : Q) : list (list nat) * option pyexc :=
  match os with
  | [] => ([], None)
  | o :: os =>
      match step o q with
      | Ok (v, q) => let '(vs, e) := qrun step os q in (v :: vs, e)
      | Raise e => ([], Some e)
      end
  end.
End queue.

(** ** Refinement *)

Definition entry_le (a b : Entry) : Prop := (a.1.1 < b.1.1 \/ a.1.1 = b.1.1 /\ a.1.2 <= b.1.2)%Z.

#[global] Instance entry_le_refl : Reflexive entry_le.
Proof. intros [[p t] r]. right. cbn. lia. Qed.
#[global] Instance entry_le_trans : Transitive entry_le.
Proof. intros [[p1 t1] r1] [[p2 t2] r2] [[p3 t3] r3]. unfold entry_le. cbn. lia. Qed.

Section refinement.
Context (key : nat -> Z * Z) (policy : SchedulingPolicy) (U : list nat).

(** Requests of a priority queue are told apart by priority and arrival time. *)
Definition keys_differ : Prop := policy = PRIORITY -> forall r r', r ∈ U -> r' ∈ U -> key r = key r' -> r = r'.
Context (Hkeys : keys_differ).

Abbreviation key_le := (fun a b => entry_le (entry key a) (entry key b)).

Lemma key_leb_spec a b : key_leb key a b = true <-> key_le a b.
Proof.
  unfold key_leb, entry_le, entry. cbn. destruct (key a) as [p1 t1], (key b) as [p2 t2]. cbn.
  rewrite orb_true_iff, andb_true_iff, Z.ltb_lt, Z.eqb_eq, Z.leb_le. tauto.
Qed.

Lemma key_le_total a b : key_le a b \/ key_le b a.
Proof. unfold entry_le, entry. cbn. lia. Qed.

Lemma insert_by_key_perm r l : insert_by_key key r l ≡ₚ r :: l.
Proof.
  induction l as [|x l IH]; [done|]. cbn [insert_by_key]. destruct (key_leb key r x); [done|]. rewrite IH. by rewrite Permutation_swap.
Qed.

Lemma insert_by_key_sorted r l : StronglySorted key_le l -> StronglySorted key_le (insert_by_key key r l).
Proof.
  induction 1 as [|x l Hl IH Hx]; cbn [insert_by_key]; [by repeat constructor|].
  destruct (key_leb key r x) eqn:E.
  - apply key_leb_spec in E. constructor; [by constructor|]. constructor; [done|].
    eapply Forall_impl; [exact Hx|]. intros y Hy. cbn in *. by trans (entry key x).
  - constructor; [done|]. rewrite insert_by_key_perm. constructor; [|done].
    destruct (key_le_total x r) as [|H]; [done|]. apply key_leb_spec in H. congruence.
Qed.

Lemma foldr_insert_perm rs l : foldr (insert_by_key key) l rs ≡ₚ rs ++ l.
Proof. induction rs as [|r rs IH]; cbn; [done|]. by rewrite insert_by_key_perm, IH. Qed.

Lemma foldr_insert_sorted rs l : StronglySorted key_le l -> StronglySorted key_le (foldr (insert_by_key key) l rs).
Proof. intros Hl. induction rs as [|r rs IH]; cbn; [done|]. by apply insert_by_key_sorted. Qed.

(** A heap of the requests [l]. *)
Definition is_queue (h : list Entry) (l : list nat) : Prop := heap_from entry_le 0 h /\ h ≡ₚ entry key <$> l.

Definition represents (q : RequestQueue) (l : list nat) : Prop :=
  match q with
  | FCFSRequestQueue d => policy = FCFS /\ d = l
  | PriorityRequestQueue h => policy = PRIORITY /\ is_queue h l /\ StronglySorted key_le l /\ l ⊆ U
  end.

Lemma comparable_entries h l : policy = PRIORITY -> h ≡ₚ entry key <$> l -> l ⊆ U -> comparable entry_lt entry_le h.
Proof.
  intros Hp Hh Hl a b Ha Hb. rewrite Hh in Ha, Hb. apply list_elem_of_fmap in Ha as (r1 & -> & Hr1), Hb as (r2 & -> & Hr2).
  specialize (Hkeys Hp r1 r2 (Hl _ Hr1) (Hl _ Hr2)). unfold entry_lt, entry, entry_le. cbn.
  destruct (key r1) as [p1 t1], (key r2) as [p2 t2]. cbn.
  destruct (Z.eqb_spec p1 p2) as [->|Hne]; cbn.
  2:{ eexists. split; [done|]. destruct (Z.ltb_spec p1 p2); lia. }
  destruct (Z.eqb_spec t1 t2) as [->|Hne]; cbn.
  2:{ eexists. split; [done|]. destruct (Z.ltb_spec t1 t2); lia. }
  rewrite (Hkeys eq_refl), Nat.eqb_refl. exists false. split; [done|lia].
Qed.

Lemma heap_add h l r : policy = PRIORITY -> is_queue h l -> l ⊆ U -> r ∈ U ->
  exists h', heappush entry_lt h (entry key r) = Ok h' /\ is_queue h' (r :: l).
Proof.
  intros Hp [Hh Hperm] Hl Hr. destruct (heappush_spec entry_lt entry_le h (entry key r)) as (h' & E & Hp' & Hh'); [|done|].
  - apply (comparable_entries _ (r :: l)); [done| |set_solver]. cbn. rewrite <-Hperm. by rewrite Permutation_app_comm.
  - exists h'. split; [done|]. split; [done|]. by rewrite Hp', Hperm.
Qed.

Lemma is_queue_perm h l l' : l ≡ₚ l' -> is_queue h l -> is_queue h l'.
Proof. intros Hl [H1 H2]. split; [done|]. by rewrite H2, Hl. Qed.

Lemma add_represents q l r : represents q l -> (policy = PRIORITY -> r ∈ U) ->
  exists q', add_request key r q = Ok q' /\ represents q' (spec_add key policy r l).
Proof.
  intros Hq Hr. destruct q as [d|h]; cbn [add_request represents] in *.
  - destruct Hq as [Hp ->]. eexists. split; [done|]. by rewrite Hp.
  - destruct Hq as (Hp & Hh & Hs & Hl). destruct (heap_add h l r Hp Hh Hl (Hr Hp)) as (h' & -> & Hh'). cbn [mbind outcome_bind].
    eexists. split; [done|]. rewrite Hp. cbn. split_and!; [done| |by apply insert_by_key_sorted|].
    + eapply is_queue_perm; [symmetry; apply insert_by_key_perm|done].
    + intros x Hx. rewrite insert_by_key_perm in Hx. specialize (Hr Hp). set_solver.
Qed.

Lemma represents_perm h l l' : represents (PriorityRequestQueue h) l -> l ≡ₚ l' -> StronglySorted key_le l' -> l = l'.
Proof.
  intros (Hp & _ & Hs & Hl) Hll Hs'. eapply StronglySorted_unique_strong; [|exact Hs|exact Hs'|done].
  intros x y Hx Hy H1 H2. cbn in *. rewrite <-Hll in Hy. apply (Hkeys Hp); [by apply Hl|by apply Hl|].
  unfold entry_le, entry in *. cbn in *. destruct (key x), (key y). cbn in *. f_equal; lia.
Qed.

Lemma add_all_represents rs : forall h l, represents (PriorityRequestQueue h) l -> rs ⊆ U ->
  exists h', add_all key rs (PriorityRequestQueue h) = Ok (PriorityRequestQueue h') /\ represents (PriorityRequestQueue h') (foldr (insert_by_key key) l rs).
Proof.
  induction rs as [|r rs IH]; intros h l Hq Hrs; cbn [add_all]; [eauto|].
  destruct (add_represents _ _ r Hq) as (q1 & E & Hq1); [set_solver|]. pose proof Hq as [Hp _]. rewrite Hp in Hq1. cbn in Hq1.
  destruct q1 as [d|h1]; [destruct Hq1 as [Hq1 _]; congruence|]. rewrite E. cbn [mbind outcome_bind].
  destruct (IH _ _ Hq1) as (h' & -> & Hh'); [set_solver|]. exists h'. split; [done|].
  assert (foldr (insert_by_key key) (insert_by_key key r l) rs = foldr (insert_by_key key) l (r :: rs)) as Heq; [|by rewrite <-Heq].
  eapply represents_perm; [exact Hh'| |].
  - rewrite !foldr_insert_perm, insert_by_key_perm. cbn. by rewrite Permutation_middle.
  - apply foldr_insert_sorted. apply Hq.
Qed.

(** The root of the heap is the first request. *)
Lemma is_queue_root h r l x : policy = PRIORITY -> is_queue h (r :: l) -> StronglySorted key_le (r :: l) -> r :: l ⊆ U ->
  h !! 0 = Some x -> x = entry key r.
Proof.
  intros Hp [Hh Hperm] Hs Hl Hx. assert (x ∈ entry key <$> r :: l) as (r' & -> & Hr')%list_elem_of_fmap.
  { rewrite <-Hperm. by eapply list_elem_of_lookup_2. }
  assert (entry_le (entry key r') (entry key r)) as H1.
  { eapply (heap_root entry_le h); [done|done|]. rewrite Hperm. by left. }
  assert (entry_le (entry key r) (entry key r')) as H2.
  { apply elem_of_cons in Hr' as [->|Hr']; [done|]. inversion Hs as [|? ? _ Hall]; subst. rewrite Forall_forall in Hall. by apply (Hall r'). }
  f_equal. apply (Hkeys Hp); [by apply Hl|apply Hl; by left|]. unfold entry_le, entry in *. cbn in *.
  destruct (key r), (key r'). cbn in *. f_equal; lia.
Qed.

Lemma heapify_represents l (P : nat -> Prop) `{forall x, Decision (P x)} h :
  represents (PriorityRequestQueue h) l ->
  exists h', heapify entry_lt (filter (fun e => P e.2) h) = Ok h' /\ represents (PriorityRequestQueue h') (filter P l).
Proof.
  intros (Hp & [Hh Hperm] & Hs & Hl).
  assert (filter (fun e : Entry => P e.2) h ≡ₚ entry key <$> filter P l) as Hf.
  { rewrite Hperm. clear. induction l as [|x l IH]; [done|]. rewrite fmap_cons, !filter_cons. cbn [entry snd].
    destruct (decide (P x)); cbn; by rewrite IH. }
  destruct (heapify_spec entry_lt entry_le (filter (fun e => P e.2) h)) as (h' & -> & Hp' & Hh').
  { eapply comparable_entries; [done|exact Hf|]. intros x [_ Hx]%list_elem_of_filter. by apply Hl. }
  exists h'. split; [done|]. split_and!; [done|by split; [|rewrite Hp']| |by intros x [_ Hx]%list_elem_of_filter; apply Hl].
  clear -Hs. induction Hs as [|x l Hl IH Hx]; [constructor|]. rewrite filter_cons. destruct (decide (P x)); [|done].
  constructor; [done|]. apply Forall_forall. intros y [_ Hy]%list_elem_of_filter. rewrite Forall_forall in Hx. by apply Hx.
Qed.

Lemma iter_represents q l : represents q l -> queue_iter q = Ok l.
Proof.
  destruct q as [d|h]; cbn; [by intros [_ ->]|]. intros Hq. pose proof Hq as (Hp & [Hh Hperm] & Hs & Hl).
  destruct (heap_drain_spec entry_lt entry_le (length h) h) as (e & -> & He & Hse); [done|by eapply comparable_entries|done|]. cbn.
  assert (entry key <$> map snd e = e) as Hee.
  { rewrite Hperm in He. clear -He. assert (forall x, x ∈ e -> x = entry key x.2) as Hx.
    { intros x Hx. rewrite He in Hx. by apply list_elem_of_fmap in Hx as (r & -> & _). }
    clear He. induction e as [|x e IH]; [done|]. cbn. rewrite IH by (intros; apply Hx; by right). f_equal. symmetry. apply Hx. by left. }
  f_equal. symmetry. eapply represents_perm; [exact Hq| |].
  - apply (fmap_Permutation snd) in He. rewrite Hperm in He. rewrite <-list_fmap_compose in He. cbn in He. rewrite list_fmap_id in He. by rewrite He.
  - clear -Hse Hee. rewrite <-Hee in Hse. revert Hse. generalize (map snd e). intros m Hm.
    induction m as [|x m IH]; [constructor|]. inversion Hm as [|? ? Hm1 Hm2]; subst. constructor; [by apply IH|].
    rewrite Forall_fmap in Hm2. exact Hm2.
Qed.

(** The references an operation puts in the queue. *)
Definition added (o : qop) : list nat :=
  match o with OAdd r => [r] | OPrepend r => [r] | OPutBack rs => rs | _ => [] end.

Lemma represents_length q l : represents q l -> length (queue_items q) = length l.
Proof.
  destruct q as [d|h]; cbn; [by intros [_ ->]|]. intros (_ & [_ Hperm] & _). by rewrite length_fmap, Hperm, length_fmap.
Qed.

Lemma empty_represents : represents (create_request_queue policy) [].
Proof.
  unfold create_request_queue. destruct policy eqn:E; cbn; [done|]. split_and!; [done|split; [|done]|constructor|set_solver].
  intros i Hi _ x y Hx. by rewrite lookup_nil in Hx.
Qed.

(** The queue of skipped requests. *)
Lemma skipped_represents rs : (policy = PRIORITY -> rs ⊆ U) ->
  exists q l, foldl (fun s r => s ← s; prepend_request key r s) (Ok (create_request_queue policy)) rs = Ok q /\
    represents q l /\ (policy = FCFS -> l = reverse rs) /\ l ≡ₚ rs.
Proof.
  intros Hrs. induction rs as [|r rs IH] using rev_ind.
  { exists (create_request_queue policy), []. split_and!; [done|apply empty_represents|done|done]. }
  destruct IH as (q & l & E & Hq & Hf & Hperm); [intros Hp x Hx; apply (Hrs Hp); set_solver|].
  rewrite foldl_snoc, E. cbn [mbind outcome_bind]. destruct q as [d|h]; cbn [prepend_request].
  - destruct Hq as [Hp ->]. exists (FCFSRequestQueue (r :: l)), (r :: l). split_and!; [done|by split| |].
    + intros _. by rewrite reverse_snoc, Hf.
    + rewrite Hperm. by rewrite Permutation_app_comm.
  - destruct (add_represents _ _ r Hq) as (q' & E' & Hq'); [intros Hp; apply (Hrs Hp); set_solver|]. pose proof Hq as [Hp _].
    exists q', (spec_add key policy r l). split_and!; [done|done|congruence|]. rewrite Hp. cbn. rewrite insert_by_key_perm, Hperm.
    by rewrite Permutation_app_comm.
Qed.

Lemma put_back_fcfs (d rs : list nat) : foldl (fun d r => r :: d) d rs = reverse rs ++ d.
Proof. induction rs as [|r rs IH] in d |- *; cbn [foldl]; [done|]. rewrite IH, reverse_cons, <-app_assoc. done. Qed.

(** One operation: both raise the same exception, or return the same value and stay related. *)
Lemma step_refines o q l : represents q l -> (policy = PRIORITY -> added o ⊆ U) ->
  match qstep key policy o q, spec_step key policy o l with
  | Ok (v, q'), Ok (v', l') => v = v' /\ represents q' l'
  | Raise e, Raise e' => e = e'
  | _, _ => False
  end.
Proof.
  intros Hq Ho. destruct o as [r| | |r|rs|r|rs| | |]; cbn [qstep spec_step added] in *.
  - destruct (add_represents _ _ r Hq) as (q' & -> & Hq'); [intros Hp; apply (Ho Hp); by left|]. by split.
  - destruct q as [[|x d]|h]; cbn in Hq; [by destruct Hq as [_ <-]|by destruct Hq as [Hp <-]|].
    pose proof Hq as (Hp & Hh & Hs & Hl). destruct l as [|r l].
    { destruct Hh as [_ Hh]. apply Permutation_nil_r in Hh. by subst h. }
    destruct (heappop_spec entry_lt entry_le h) as (x & h' & E & Hperm & Hh' & Hx);
      [eapply comparable_entries; [done|apply Hh|done]|apply Hh|intros ->; by destruct Hh as [_ Hh%Permutation_nil_l]|].
    assert (pop_request (PriorityRequestQueue h) = Ok (x.2, PriorityRequestQueue h')) as ->.
    { cbn. destruct h; [done|]. by rewrite E. }
    pose proof (is_queue_root h r l x Hp Hh Hs Hl Hx) as ->. cbn. split; [done|]. split_and!; [done| |by inversion Hs|set_solver].
    split; [done|]. destruct Hh as [_ Hh]. rewrite Hperm in Hh. cbn in Hh. by apply (inj (entry key r ::.)) in Hh.
  - destruct q as [[|x d]|h]; cbn in Hq; [by destruct Hq as [_ <-]|by destruct Hq as [Hp <-]|].
    pose proof Hq as (Hp & Hh & Hs & Hl). destruct l as [|r l].
    { destruct Hh as [_ Hh]. apply Permutation_nil_r in Hh. by subst h. }
    destruct h as [|x h]; [by destruct Hh as [_ ?%Permutation_nil_l]|]. cbn.
    assert (x = entry key r) as -> by exact (is_queue_root _ r l x Hp Hh Hs Hl eq_refl). by split.
  - destruct q as [d|h]; cbn [prepend_request].
    + destruct Hq as [Hp ->]. by rewrite Hp.
    + pose proof Hq as [Hp _]. destruct (add_represents _ _ r Hq) as (q' & -> & Hq'); [intros Hp'; apply (Ho Hp'); by left|]. by rewrite Hp in *.
  - destruct (skipped_represents rs Ho) as (sq & sl & -> & Hsq & Hf & Hperm). cbn [mbind outcome_bind].
    unfold queue_bool, queue_len. rewrite (represents_length _ _ Hsq). destruct (Nat.ltb_spec 0 (length sl)) as [Hlt|Hz].
    + destruct q as [d|h]; cbn [prepend_requests].
      * destruct Hq as [Hp ->]. unfold queue_reversed. rewrite (iter_represents _ _ Hsq). cbn [mbind outcome_bind].
        rewrite (Hf Hp), reverse_involutive, put_back_fcfs, Hp. by split.
      * pose proof Hq as [Hp _]. rewrite (iter_represents _ _ Hsq). cbn [mbind outcome_bind].
        destruct (add_all_represents sl h l Hq) as (h' & -> & Hh'); [intros z Hz; apply (Ho Hp); by rewrite <-Hperm|]. cbn [mbind outcome_bind]. rewrite Hp. split; [done|].
        assert (foldr (insert_by_key key) l sl = foldr (insert_by_key key) l rs) as <-; [|done].
        eapply represents_perm; [exact Hh'|by rewrite !foldr_insert_perm, Hperm|apply foldr_insert_sorted, Hq].
    + destruct sl; [|cbn in Hz; lia]. apply Permutation_nil_l in Hperm as <-. split; [done|].
      assert (match policy with FCFS => reverse [] ++ l | PRIORITY => foldr (insert_by_key key) l [] end = l) as ->; [|done].
      clear. by destruct policy.
  - destruct q as [d|h]; cbn [remove_request].
    + destruct Hq as [Hp ->]. rewrite Hp. by destruct (remove_first r l).
    + pose proof Hq as [Hp _]. destruct (heapify_represents l (fun x => x <> r) h Hq) as (h' & -> & Hh'). by rewrite Hp.
  - destruct q as [d|h]; cbn [remove_requests].
    + destruct Hq as [Hp ->]. by split.
    + destruct (heapify_represents l (fun x => x ∉ rs) h Hq) as (h' & -> & Hh'). by split.
  - by rewrite (iter_represents _ _ Hq).
  - unfold queue_reversed. by rewrite (iter_represents _ _ Hq).
  - split; [|done]. f_equal. unfold queue_len. by apply represents_length.
Qed.
End refinement.

Lemma qrun_refines key policy U os : forall q l, keys_differ key policy U -> (policy = PRIORITY -> concat (added <$> os) ⊆ U) ->
  represents key policy U q l -> qrun (qstep key policy) os q = qrun (spec_step key policy) os l.
Proof.
  induction os as [|o os IH]; intros q l Hk Hu Hq; [done|]. cbn [qrun]. cbn in Hu.
  pose proof (step_refines key policy U Hk o q l Hq ltac:(intros Hp; specialize (Hu Hp); set_solver)) as Hs.
  destruct (qstep key policy o q) as [[v q']|e], (spec_step key policy o l) as [[v' l']|e']; try done.
  - destruct Hs as [-> Hq']. by rewrite (IH _ _ Hk ltac:(intros Hp; specialize (Hu Hp); set_solver) Hq').
  - by rewrite Hs.
Qed.

(** C19: Both queues behave as a list in the order of service: whatever operations are run from an empty queue, they
    return the same values, and raise the same exception at the same point, as on a list that is appended to, or
    on a list kept sorted by priority and arrival time.  The priority queue needs that no two requests have the same
    priority and arrival time; the second of two that do cannot even be added to the first.  Requests that
    were skipped come back to the head of the first-come-first-served queue in the reverse of their order. *)
Theorem queue_refines key policy os :
  ((policy = PRIORITY -> forall r r', r ∈ concat (added <$> os) -> r' ∈ concat (added <$> os) -> key r = key r' -> r = r') ->
   qrun (qstep key policy) os (create_request_queue policy) = qrun (spec_step key policy) os []) /\
  (forall r r', r <> r' -> key r = key r' ->
     qrun (qstep key PRIORITY) [OAdd r; OAdd r'] (create_request_queue PRIORITY) = ([[]], Some TypeError)).
Proof.
  split.
  - intros Hk. eapply (qrun_refines _ _ (concat (added <$> os))); [exact Hk|done|]. by apply empty_represents.
  - intros r r' Hne Hkey. cbn. unfold entry. rewrite Hkey. destruct (key r') as [p t]. cbn. rewrite !Z.eqb_refl. cbn.
    by rewrite (proj2 (Nat.eqb_neq _ _)).
Qed.

Definition ex_key (r : nat) : Z * Z := (Z.of_nat (r mod 2), Z.of_nat r).

Lemma queue_refines_witness :
  qrun (qstep ex_key PRIORITY) [OAdd 1; OAdd 4; OAdd 3; OAdd 2; OPop; OPutBack [6; 0]; OIter; OPop] (create_request_queue PRIORITY) =
    ([[]; []; []; []; [2]; []; [0; 4; 6; 1; 3]; [0]], None) /\
  qrun (qstep (fun _ => (0, 7)%Z) PRIORITY) [OAdd 1; OAdd 2] (create_request_queue PRIORITY) = ([[]], Some TypeError).
Proof.
  split.
  - rewrite (proj1 (queue_refines ex_key PRIORITY [OAdd 1; OAdd 4; OAdd 3; OAdd 2; OPop; OPutBack [6; 0]; OIter; OPop])); [vm_compute; reflexivity|].
    intros _ r r' _ _ [= _ H]. by apply Nat2Z.inj in H.
  - apply (proj2 (queue_refines (fun _ => (0, 7)%Z) PRIORITY [])); [done|reflexivity].
Defined.
