(* ===== verification/Scheduler.v ===== *)
(** The scheduler of the engine: [vllm/v1/core/sched/scheduler.py] with [check_stop] and [remove_all] of
    [vllm/v1/core/sched/utils.py] and [AsyncScheduler] of [vllm/v1/core/sched/async_scheduler.py].

    Request objects live in a store and are referenced by the queues, as in the code, where the running list, the
    waiting queue and the dictionary of requests share them.  What the scheduler asks of the KV cache manager and of
    the encoder cache manager is the class [SchedResources]; SchedulerFacts.v states its laws and gives an instance.
    There is no KV connector; grammars and the sampled tokens are arguments.  A list in an output is a value: the code
    hands out [request.spec_token_ids], truncated, and clears it only after the output was used. *)
From stdpp Require Import base gmap sets list strings.
From Stdlib Require Import ZArith Lia.
From S2P Require Import Prelude BlockQueue Request RequestQueue EncoderCache.
Open Scope nat_scope.

(** * Requests *)

(** A request with the attributes that only the scheduler reads. *)
Record SReq := mkSReq {
  sr_req : Request;
  eos_token_id : option Z;
  sp_ignore_eos : bool;
  sp_stop_token_ids : list Z;
  stop_reason : option Z
}.

(** Assignments to attributes of a request. *)
Definition with_req (f : Request -> Request) (s : SReq) : SReq :=
  mkSReq (f (sr_req s)) (eos_token_id s) (sp_ignore_eos s) (sp_stop_token_ids s) (stop_reason s).
Definition set_stop_reason (x : Z) (s : SReq) : SReq :=
  mkSReq (sr_req s) (eos_token_id s) (sp_ignore_eos s) (sp_stop_token_ids s) (Some x).

Definition set_status (st : RequestStatus) (r : Request) : Request :=
  mkRequest (request_id r) (client_index r) (priority r) (sampling_params r) (pooling_params r)
    (lora_request r) (arrival_time r) st (use_structured_output r) (events r)
    (kv_transfer_params r) (max_tokens r) (prompt_token_ids r) (output_token_ids r) (all_token_ids r)
    (num_output_placeholders r) (spec_token_ids r) (num_computed_tokens r) (cache_salt r)
    (mm_positions r) (mm_hashes r) (num_cached_tokens r) (num_nans_in_logits r) (block_hashes r).
(** Computed tokens, draft tokens, placeholders and cached tokens. *)
Definition set_progress (computed : Z) (spec : list Z) (placeholders cached : Z) (r : Request) : Request :=
  mkRequest (request_id r) (client_index r) (priority r) (sampling_params r) (pooling_params r)
    (lora_request r) (arrival_time r) (status r) (use_structured_output r) (events r)
    (kv_transfer_params r) (max_tokens r) (prompt_token_ids r) (output_token_ids r) (all_token_ids r)
    placeholders spec computed (cache_salt r)
    (mm_positions r) (mm_hashes r) cached (num_nans_in_logits r) (block_hashes r).
Definition set_computed (n : Z) (r : Request) : Request :=
  set_progress n (spec_token_ids r) (num_output_placeholders r) (num_cached_tokens r) r.
Definition set_spec (l : list Z) (r : Request) : Request :=
  set_progress (num_computed_tokens r) l (num_output_placeholders r) (num_cached_tokens r) r.
Definition set_placeholders (n : Z) (r : Request) : Request :=
  set_progress (num_computed_tokens r) (spec_token_ids r) n (num_cached_tokens r) r.
Definition set_cached (n : Z) (r : Request) : Request :=
  set_progress (num_computed_tokens r) (spec_token_ids r) (num_output_placeholders r) n r.

Definition set_nans (n : Z) (r : Request) : Request :=
  mkRequest (request_id r) (client_index r) (priority r) (sampling_params r) (pooling_params r)
    (lora_request r) (arrival_time r) (status r) (use_structured_output r) (events r)
    (kv_transfer_params r) (max_tokens r) (prompt_token_ids r) (output_token_ids r) (all_token_ids r)
    (num_output_placeholders r) (spec_token_ids r) (num_computed_tokens r) (cache_salt r)
    (mm_positions r) (mm_hashes r) (num_cached_tokens r) n (block_hashes r).

(** [check_stop]: whether the request stops, and the request with its final status. *)
Definition check_stop (s : SReq) (max_model_len : Z) (pooler_output : option bool) : outcome (bool * SReq) :=
  let r := sr_req s in
  if (max_model_len <=? Z.of_nat (num_tokens r))%Z || (max_tokens r <=? Z.of_nat (num_output_tokens r))%Z
  then Ok (true, with_req (set_status FINISHED_LENGTH_CAPPED) s)
  else
    match pooling_params r with
    | Some _ =>
        match pooler_output with
        | Some _ => Ok (true, with_req (set_status FINISHED_STOPPED) s)
        | None => Ok (false, s)
        end
    | None =>
        _ ← assert_ (bool_decide (is_Some (sampling_params r)));
        match last (output_token_ids r) with
        | None => Raise IndexError
        | Some last_token_id =>
            if negb (sp_ignore_eos s) && bool_decide (eos_token_id s = Some last_token_id)
            then Ok (true, with_req (set_status FINISHED_STOPPED) s)
            else if bool_decide (last_token_id ∈ sp_stop_token_ids s)
            then Ok (true, set_stop_reason last_token_id (with_req (set_status FINISHED_STOPPED) s))
            else Ok (false, s)
        end
    end.

(** [_update_request_with_output] of the base class: the tokens that were appended, and whether the last one
    stopped the request. *)
Fixpoint append_and_check (hf : option hasher) (max_model_len : Z) (new_token_ids : list Z) (s : SReq) : outcome (list Z * bool * SReq) :=
  match new_token_ids with
  | [] => Ok ([], false, s)
  | t :: rest =>
      r ← append_output_token_ids hf [t] (sr_req s);
      '(stopped, s) ← check_stop (with_req (fun _ => r) s) max_model_len None;
      if (stopped : bool) then Ok ([t], true, s)
      else '(ts, stopped, s) ← append_and_check hf max_model_len rest s; Ok (t :: ts, stopped, s)
  end.

(** [remove_all]. *)
Definition remove_all (lst items_to_remove : list nat) : list nat :=
  match items_to_remove with
  | [] => lst
  | [item] => default lst (remove_first item lst)
  | _ => filter (fun r => r ∉ items_to_remove) lst
  end.

(** * The managers the scheduler drives *)

Abbreviation Blocks := (list (list bref)).

Class SchedResources (K : Type) := {
  (** [kv_cache_manager]; the number of new tokens is the scheduler's integer *)
  res_allocate_slots : Request -> Z -> nat -> option Blocks -> nat -> bool -> nat -> M K (option Blocks);
  res_get_computed_blocks : Request -> M K (Blocks * nat);
  res_create_empty_block_list : K -> Blocks;
  res_free : Request -> M K unit;
  res_get_blocks : K -> string -> Blocks;
  res_cache_blocks : Request -> Z -> M K unit;
  res_get_num_common_prefix_blocks : Request -> Z -> M K (list nat);
  res_take_events : M K unit;
  (** [encoder_cache_manager], [_try_schedule_encoder_inputs] and [_free_encoder_inputs] *)
  res_try_schedule_encoder_inputs : Request -> Z -> Z -> Z -> M K (list nat * Z * Z);
  res_allocate_encoder_inputs : Request -> list nat -> M K unit;
  res_free_encoder : Request -> M K unit;
  res_free_encoder_inputs : Request -> M K unit;
  res_get_freed_mm_hashes : M K (list string)
}.

(** * State *)

Record SchedulerConfig := mkSchedConfig {
  max_num_running_reqs : nat;
  max_num_scheduled_tokens : Z;
  max_model_len : Z;
  policy : SchedulingPolicy;
  long_prefill_token_threshold : Z;
  chunked_prefill_enabled : bool;
  num_lookahead_tokens : nat;
  max_num_encoder_input_tokens : Z;
  is_encoder_decoder : bool;
  (** the model is Whisper, and its encoder length *)
  is_whisper : bool;
  max_encoder_len : nat;
  (** [lora_config.max_loras] *)
  max_loras : option nat;
  sched_log_stats : bool;
  use_pp : bool;
  (** the class is [AsyncScheduler] *)
  async_scheduling : bool
}.

Record Scheduler (K : Type) := mkSched {
  store : gmap nat SReq;
  requests : gmap string nat;
  waiting : RequestQueue;
  running : list nat;
  finished_req_ids : gset string;
  resources : K
}.
Arguments mkSched {K}.
Arguments store {K}.
Arguments requests {K}.
Arguments waiting {K}.
Arguments running {K}.
Arguments finished_req_ids {K}.
Arguments resources {K}.

Section scheduler.
Context {K : Type} `{SchedResources K}.
Context (cfg : SchedulerConfig) (block_hasher : option hasher).
Abbreviation S := (Scheduler K).

Definition set_store (st : gmap nat SReq) (s : S) : S := mkSched st (requests s) (waiting s) (running s) (finished_req_ids s) (resources s).
Definition set_requests (m : gmap string nat) (s : S) : S := mkSched (store s) m (waiting s) (running s) (finished_req_ids s) (resources s).
Definition set_waiting (q : RequestQueue) (s : S) : S := mkSched (store s) (requests s) q (running s) (finished_req_ids s) (resources s).
Definition set_running (l : list nat) (s : S) : S := mkSched (store s) (requests s) (waiting s) l (finished_req_ids s) (resources s).
Definition set_finished (f : gset string) (s : S) : S := mkSched (store s) (requests s) (waiting s) (running s) f (resources s).
Definition set_resources (k : K) (s : S) : S := mkSched (store s) (requests s) (waiting s) (running s) (finished_req_ids s) k.

(** The object behind a reference. *)
Definition sreq (i : nat) : M S SReq := s ← get; deref (store s !! i).
Definition request (i : nat) : M S Request := q ← sreq i; mret (sr_req q).
Definition update (i : nat) (f : Request -> Request) : M S unit :=
  q ← sreq i; modify (fun s => set_store (<[i := with_req f q]> (store s)) s).
Definition put_sreq (i : nat) (q : SReq) : M S unit := modify (fun s => set_store (<[i := q]> (store s)) s).

(** What the queues compare. *)
Definition request_key (s : S) (i : nat) : Z * Z :=
  match store s !! i with Some q => (priority (sr_req q), arrival_time (sr_req q)) | None => (0, 0)%Z end.

Definition on_resources {A} (m : M K A) : M S A := zoom resources set_resources m.

(** An operation of the waiting queue that changes it. *)
Definition on_waiting (f : (nat -> Z * Z) -> RequestQueue -> outcome RequestQueue) : M S unit :=
  s ← get; q ← lift_out (f (request_key s) (waiting s)); modify (set_waiting q).

Definition pop_waiting : M S nat :=
  s ← get; '(r, q) ← lift_out (pop_request (waiting s)); modify (set_waiting q) ;; mret r.

(** [d[k] = v] on a dictionary in insertion order. *)
Fixpoint dict_set {V} (k : string) (v : V) (d : list (string * V)) : list (string * V) :=
  match d with
  | [] => [(k, v)]
  | (k', v') :: d => if decide (k = k') then (k, v) :: d else (k', v') :: dict_set k v d
  end.

Fixpoint dict_get {V} (k : string) (d : list (string * V)) : option V :=
  match d with
  | [] => None
  | (k', v) :: d => if decide (k = k') then Some v else dict_get k d
  end.

(** * [schedule] *)

(** The local variables of [schedule]. *)
Record Step := mkStep {
  scheduled_new_reqs : list nat;
  scheduled_resumed_reqs : list nat;
  scheduled_running_reqs : list nat;
  preempted_reqs : list nat;
  req_to_new_blocks : list (string * Blocks);
  num_scheduled_tokens : list (string * Z);
  token_budget : Z;
  scheduled_encoder_inputs : list (string * list nat);
  encoder_compute_budget : Z;
  scheduled_spec_decode_tokens : list (string * list Z);
  scheduled_loras : gset Z;
  skipped_waiting_requests : RequestQueue
}.

Definition new_step : Step :=
  mkStep [] [] [] [] [] [] (max_num_scheduled_tokens cfg) [] (max_num_encoder_input_tokens cfg) [] ∅ (create_request_queue (policy cfg)).

Definition st_running (l pre : list nat) (t : Step) : Step :=
  mkStep (scheduled_new_reqs t) (scheduled_resumed_reqs t) l pre (req_to_new_blocks t) (num_scheduled_tokens t) (token_budget t)
    (scheduled_encoder_inputs t) (encoder_compute_budget t) (scheduled_spec_decode_tokens t) (scheduled_loras t) (skipped_waiting_requests t).
Definition st_waiting (new resumed : list nat) (t : Step) : Step :=
  mkStep new resumed (scheduled_running_reqs t) (preempted_reqs t) (req_to_new_blocks t) (num_scheduled_tokens t) (token_budget t)
    (scheduled_encoder_inputs t) (encoder_compute_budget t) (scheduled_spec_decode_tokens t) (scheduled_loras t) (skipped_waiting_requests t).
(** [req_to_new_blocks[id] = blocks; num_scheduled_tokens[id] = n; token_budget -= n]. *)
Definition st_schedule (id : string) (blocks : Blocks) (n : Z) (t : Step) : Step :=
  mkStep (scheduled_new_reqs t) (scheduled_resumed_reqs t) (scheduled_running_reqs t) (preempted_reqs t)
    (dict_set id blocks (req_to_new_blocks t)) (dict_set id n (num_scheduled_tokens t)) (token_budget t - n)
    (scheduled_encoder_inputs t) (encoder_compute_budget t) (scheduled_spec_decode_tokens t) (scheduled_loras t) (skipped_waiting_requests t).
Definition st_spec (id : string) (l : list Z) (t : Step) : Step :=
  mkStep (scheduled_new_reqs t) (scheduled_resumed_reqs t) (scheduled_running_reqs t) (preempted_reqs t) (req_to_new_blocks t)
    (num_scheduled_tokens t) (token_budget t) (scheduled_encoder_inputs t) (encoder_compute_budget t)
    (dict_set id l (scheduled_spec_decode_tokens t)) (scheduled_loras t) (skipped_waiting_requests t).
Definition st_encoder (id : string) (l : list nat) (budget : Z) (t : Step) : Step :=
  mkStep (scheduled_new_reqs t) (scheduled_resumed_reqs t) (scheduled_running_reqs t) (preempted_reqs t) (req_to_new_blocks t)
    (num_scheduled_tokens t) (token_budget t) (dict_set id l (scheduled_encoder_inputs t)) budget
    (scheduled_spec_decode_tokens t) (scheduled_loras t) (skipped_waiting_requests t).
Definition st_loras (ls : gset Z) (t : Step) : Step :=
  mkStep (scheduled_new_reqs t) (scheduled_resumed_reqs t) (scheduled_running_reqs t) (preempted_reqs t) (req_to_new_blocks t)
    (num_scheduled_tokens t) (token_budget t) (scheduled_encoder_inputs t) (encoder_compute_budget t)
    (scheduled_spec_decode_tokens t) ls (skipped_waiting_requests t).
Definition st_skipped (q : RequestQueue) (t : Step) : Step :=
  mkStep (scheduled_new_reqs t) (scheduled_resumed_reqs t) (scheduled_running_reqs t) (preempted_reqs t) (req_to_new_blocks t)
    (num_scheduled_tokens t) (token_budget t) (scheduled_encoder_inputs t) (encoder_compute_budget t)
    (scheduled_spec_decode_tokens t) (scheduled_loras t) q.

(** [if encoder_inputs_to_schedule: ...]: record and allocate them. *)
Definition schedule_encoder (i : nat) (inputs : list nat) (new_budget : Z) (t : Step) : M S Step :=
  match inputs with
  | [] => mret t
  | _ =>
      r ← request i;
      on_resources (res_allocate_encoder_inputs r inputs) ;;
      mret (st_encoder (request_id r) inputs new_budget t)
  end.

(** ** Running requests *)

(** [max(self.running, key=lambda r: (r.priority, r.arrival_time))]: the first of the largest. *)
Definition key_ltb (a b : Z * Z) : bool := (a.1 <? b.1)%Z || (a.1 =? b.1)%Z && (a.2 <? b.2)%Z.
Definition max_by_key (key : nat -> Z * Z) (x : nat) (l : list nat) : nat :=
  foldl (fun best y => if key_ltb (key best) (key y) then y else best) x l.

(** The request to preempt, taken out of the running list. *)
Definition pick_victim (t : Step) : M S (nat * Step) :=
  s ← get;
  match policy cfg with
  | PRIORITY =>
      match running s with
      | [] => raise ValueError
      | x :: l =>
          let victim := max_by_key (request_key s) x l in
          modify (set_running (default (running s) (remove_first victim (running s)))) ;;
          mret (victim, st_running (default (scheduled_running_reqs t) (remove_first victim (scheduled_running_reqs t))) (preempted_reqs t) t)
      end
  | FCFS =>
      match last (running s) with
      | None => raise IndexError
      | Some victim => modify (set_running (removelast (running s))) ;; mret (victim, t)
      end
  end.

(** What is done with a preempted request; [now] is the time of the step. *)
Definition preempt (victim : nat) (now : Z) (t : Step) : M S Step :=
  r ← request victim;
  on_resources (res_free r) ;;
  on_resources (res_free_encoder r) ;;
  update victim (fun r => set_computed 0 (set_status PREEMPTED r)) ;;
  (if sched_log_stats cfg then update victim (record_event PREEMPTED_EVENT now) else mret tt) ;;
  on_waiting (fun key => prepend_request key victim) ;;
  mret (st_running (scheduled_running_reqs t) (preempted_reqs t ++ [victim]) t).

(** [while True]: allocate slots, preempting until there are some or the request itself was preempted. *)
Fixpoint preempt_loop (fuel : nat) (i : nat) (num_new_tokens : Z) (now : Z) (t : Step) : M S (option Blocks * Step) :=
  match fuel with
  | O => raise RuntimeError
  | Datatypes.S fuel =>
      r ← request i;
      new_blocks ← on_resources (res_allocate_slots r num_new_tokens 0 None (num_lookahead_tokens cfg) false 0);
      match new_blocks with
      | Some blocks => mret (Some blocks, t)
      | None =>
          '(victim, t) ← pick_victim t;
          t ← preempt victim now t;
          if victim =? i then mret (None, t) else preempt_loop fuel i num_new_tokens now t
      end
  end.

(** The tokens a running request may compute, before encoder inputs are considered. *)
Definition running_new_tokens (r : Request) (budget : Z) : Z :=
  let n := (Z.of_nat (num_tokens_with_spec r) + num_output_placeholders r - num_computed_tokens r)%Z in
  let n := if (0 <? long_prefill_token_threshold cfg)%Z && (long_prefill_token_threshold cfg <? n)%Z
           then long_prefill_token_threshold cfg else n in
  let n := Z.min n budget in
  Z.min n (max_model_len cfg - 1 - num_computed_tokens r).

(** The speculative tokens of a scheduled request. *)
Definition schedule_spec (i : nat) (num_new_tokens : Z) (t : Step) : M S Step :=
  r ← request i;
  match spec_token_ids r with
  | [] => mret t
  | spec =>
      let k := (num_new_tokens + num_computed_tokens r - Z.of_nat (num_tokens r))%Z in
      if (0 <? k)%Z then
        let spec := take (Z.to_nat k) spec in
        update i (set_spec spec) ;;
        mret (st_spec (request_id r) spec t)
      else mret t
  end.

Definition try_encoder (r : Request) (num_computed num_new budget : Z) : M S (list nat * Z * Z) :=
  if has_encoder_inputs r then on_resources (res_try_schedule_encoder_inputs r num_computed num_new budget)
  else mret ([], num_new, budget).

Fixpoint running_loop (fuel : nat) (req_index : nat) (now : Z) (t : Step) : M S Step :=
  match fuel with
  | O => raise RuntimeError
  | Datatypes.S fuel =>
      s ← get;
      match running s !! req_index with
      | None => mret t
      | Some i =>
          if negb (0 <? token_budget t)%Z then mret t
          else
            r ← request i;
            '(inputs, num_new_tokens, new_budget) ←
              try_encoder r (num_computed_tokens r) (running_new_tokens r (token_budget t)) (encoder_compute_budget t);
            if (num_new_tokens =? 0)%Z then running_loop fuel (Datatypes.S req_index) now t
            else
              '(new_blocks, t) ← preempt_loop (Datatypes.S (length (running s))) i num_new_tokens now t;
              match new_blocks with
              | None => mret t
              | Some blocks =>
                  let t := st_running (scheduled_running_reqs t ++ [i]) (preempted_reqs t) t in
                  let t := st_schedule (request_id r) blocks num_new_tokens t in
                  t ← schedule_spec i num_new_tokens t;
                  t ← schedule_encoder i inputs new_budget t;
                  running_loop fuel (Datatypes.S req_index) now t
              end
      end
  end.

(** The LoRAs of the scheduled running requests. *)
Fixpoint collect_loras (l : list nat) (acc : gset Z) : M S (gset Z) :=
  match l with
  | [] => mret acc
  | i :: l =>
      r ← request i;
      collect_loras l (match lora_request r with
                       | Some lr => if (0 <? lora_int_id lr)%Z then acc ∪ {[lora_int_id lr]} else acc
                       | None => acc
                       end)
  end.

Definition record_loras (t : Step) : M S Step :=
  match max_loras cfg with
  | None => mret t
  | Some m =>
      ls ← collect_loras (scheduled_running_reqs t) ∅;
      assertM (size ls <=? m) ;;
      mret (st_loras ls t)
  end.

(** ** Waiting requests *)

(** [self.waiting.pop_request(); skipped_waiting_requests.prepend_request(request)]. *)
Definition skip_waiting (i : nat) (t : Step) : M S Step :=
  _ ← pop_waiting;
  s ← get;
  q ← lift_out (prepend_request (request_key s) i (skipped_waiting_requests t));
  mret (st_skipped q t).

Definition lora_blocked (r : Request) (t : Step) : bool :=
  match max_loras cfg, lora_request r with
  | Some m, Some lr => (size (scheduled_loras t) =? m) && negb (bool_decide (lora_int_id lr ∈ scheduled_loras t))
  | _, _ => false
  end.

(** What becomes of the request at the head of the waiting queue. *)
Inductive verdict := Skip | Stop | Admit (t : Step).

(** The request at the head moves to the running list, with slots for [n] new tokens. *)
Definition move_to_running (now n num_computed : Z) (inputs : list nat) (new_budget : Z) (t : Step) : M S Step :=
  i ← pop_waiting;
  modify (fun s => set_running (running s ++ [i]) s) ;;
  (if sched_log_stats cfg then update i (record_event SCHEDULED now) else mret tt) ;;
  r ← request i;
  t ← match status r with
      | WAITING => mret (st_waiting (scheduled_new_reqs t ++ [i]) (scheduled_resumed_reqs t) t)
      | PREEMPTED => mret (st_waiting (scheduled_new_reqs t) (scheduled_resumed_reqs t ++ [i]) t)
      | _ => raise RuntimeError
      end;
  let t := match max_loras cfg, lora_request r with
           | Some _, Some lr => st_loras (scheduled_loras t ∪ {[lora_int_id lr]}) t
           | _, _ => t
           end in
  s ← get;
  let t := st_schedule (request_id r) (res_get_blocks (resources s) (request_id r)) n t in
  update i (fun r => set_computed num_computed (set_status RUNNING r)) ;;
  (if (num_cached_tokens r <? 0)%Z then update i (set_cached num_computed) else mret tt) ;;
  schedule_encoder i inputs new_budget t.

(** Tokens to compute, encoder inputs and slots. *)
Definition admit_waiting (i : nat) (now : Z) (t : Step) : M S verdict :=
  r ← request i;
  '(new_computed_blocks, num_hits, num_computed) ←
    (if (num_computed_tokens r =? 0)%Z then
       '(bs, n) ← on_resources (res_get_computed_blocks r); mret (bs, n, Z.of_nat n)
     else s ← get; mret (res_create_empty_block_list (resources s), 0, num_computed_tokens r));
  let n := (Z.of_nat (num_tokens r) - num_computed)%Z in
  let n := if (0 <? long_prefill_token_threshold cfg)%Z && (long_prefill_token_threshold cfg <? n)%Z
           then long_prefill_token_threshold cfg else n in
  if negb (chunked_prefill_enabled cfg) && (token_budget t <? n)%Z then mret Skip
  else
    let n := Z.min n (token_budget t) in
    assertM (0 <? n)%Z ;;
    '(inputs, n, new_budget) ← try_encoder r num_computed n (encoder_compute_budget t);
    if (n =? 0)%Z then mret Stop
    else
      let lookahead := if (num_computed_tokens r =? 0)%Z then 0 else num_lookahead_tokens cfg in
      num_encoder_tokens ←
        (if is_encoder_decoder cfg && has_encoder_inputs r then assertM (is_whisper cfg) ;; mret (max_encoder_len cfg) else mret 0);
      new_blocks ← on_resources (res_allocate_slots r n num_hits (Some new_computed_blocks) lookahead false num_encoder_tokens);
      match new_blocks with
      | None => mret Stop
      | Some _ =>
          t ← move_to_running now n num_computed inputs new_budget t; mret (Admit t)
      end.

(** [grammar_ready]: whether the grammar of a request has been compiled. *)
Fixpoint waiting_loop (fuel : nat) (grammar_ready : nat -> bool) (now : Z) (t : Step) : M S Step :=
  match fuel with
  | O => raise RuntimeError
  | Datatypes.S fuel =>
      s ← get;
      if negb (queue_bool (waiting s) && (0 <? token_budget t)%Z) then mret t
      else if length (running s) =? max_num_running_reqs cfg then mret t
      else
        i ← lift_out (peek_request (waiting s));
        r ← request i;
        (* without a connector [_update_waiting_for_remote_kv] fails its assertion *)
        assertM (negb (bool_decide (status r = WAITING_FOR_REMOTE_KVS))) ;;
        let fsm := bool_decide (status r = WAITING_FOR_FSM) in
        (if fsm && grammar_ready i then update i (set_status WAITING) else mret tt) ;;
        v ← (if fsm && negb (grammar_ready i) || lora_blocked r t then mret Skip else admit_waiting i now t);
        match v with
        | Skip => t ← skip_waiting i t; waiting_loop fuel grammar_ready now t
        | Stop => mret t
        | Admit t => waiting_loop fuel grammar_ready now t
        end
  end.

(** ** The output *)

Record CachedRequestData := mkCached {
  cr_req_id : string;
  cr_resumed_from_preemption : bool;
  cr_new_token_ids : option (list Z);
  cr_new_block_ids : Blocks;
  cr_num_computed_tokens : Z
}.

Record SchedulerOutput := mkOutput {
  so_new_reqs : list (string * Blocks);
  so_cached_reqs : list CachedRequestData;
  so_num_scheduled_tokens : list (string * Z);
  so_total_num_scheduled_tokens : Z;
  so_scheduled_spec_decode_tokens : list (string * list Z);
  so_scheduled_encoder_inputs : list (string * list nat);
  so_num_common_prefix_blocks : list nat;
  so_finished_req_ids : gset string;
  so_free_encoder_mm_hashes : list string
}.

Definition blocks_for (id : string) (t : Step) : M S Blocks :=
  match dict_get id (req_to_new_blocks t) with Some b => mret b | None => raise KeyError end.

Fixpoint make_new_request_data (l : list nat) (t : Step) : M S (list (string * Blocks)) :=
  match l with
  | [] => mret []
  | i :: l => r ← request i; b ← blocks_for (request_id r) t; rest ← make_new_request_data l t; mret ((request_id r, b) :: rest)
  end.

Fixpoint make_cached_request_data (resumed : bool) (l : list nat) (t : Step) : M S (list CachedRequestData) :=
  match l with
  | [] => mret []
  | i :: l =>
      r ← request i;
      n ← match dict_get (request_id r) (num_scheduled_tokens t) with Some n => mret n | None => raise KeyError end;
      let num_tokens := (n - Z.of_nat (length (default [] (dict_get (request_id r) (scheduled_spec_decode_tokens t)))))%Z in
      let start := Z.to_nat (num_computed_tokens r) in
      b ← blocks_for (request_id r) t;
      rest ← make_cached_request_data resumed l t;
      mret (mkCached (request_id r) resumed (if use_pp cfg then Some (take (Z.to_nat num_tokens) (drop start (all_token_ids r))) else None)
              b (num_computed_tokens r) :: rest)
  end.

Fixpoint advance_computed (l : list (string * Z)) : M S unit :=
  match l with
  | [] => mret tt
  | (id, n) :: l =>
      s ← get;
      match requests s !! id with
      | None => raise KeyError
      | Some i =>
          update i (fun r => set_computed (num_computed_tokens r + n) r) ;;
          r ← request i;
          (if has_encoder_inputs r then on_resources (res_free_encoder_inputs r) else mret tt) ;;
          advance_computed l
      end
  end.

(** [AsyncScheduler]: a request that will sample a token gets a placeholder for it. *)
Fixpoint add_placeholders (l : list (string * Z)) : M S unit :=
  match l with
  | [] => mret tt
  | (id, _) :: l =>
      s ← get;
      match requests s !! id with
      | None => raise KeyError
      | Some i =>
          r ← request i;
          (if (num_computed_tokens r =? Z.of_nat (num_tokens r) + num_output_placeholders r)%Z
           then update i (set_placeholders (num_output_placeholders r + 1)) else mret tt) ;;
          add_placeholders l
      end
  end.

Definition update_after_schedule (l : list (string * Z)) : M S unit :=
  advance_computed l ;;
  modify (set_finished ∅) ;;
  (if async_scheduling cfg then add_placeholders l else mret tt).

Definition total_scheduled (l : list (string * Z)) : Z := foldr (fun e acc => (e.2 + acc)%Z) 0%Z l.

(** The two phases, with the skipped requests put back. *)
Definition schedule_requests (grammar_ready : nat -> bool) (now : Z) : M S Step :=
  s ← get;
  t ← running_loop (Datatypes.S (length (running s))) 0 now new_step;
  t ← record_loras t;
  t ← (if bool_decide (preempted_reqs t = []) then
         s ← get; waiting_loop (Datatypes.S (queue_len (waiting s))) grammar_ready now t
       else mret t);
  (if queue_bool (skipped_waiting_requests t)
   then on_waiting (fun key => prepend_requests key (skipped_waiting_requests t)) else mret tt) ;;
  mret t.

Definition schedule (grammar_ready : nat -> bool) (now : Z) : M S SchedulerOutput :=
  t ← schedule_requests grammar_ready now;
  let total := total_scheduled (num_scheduled_tokens t) in
  assertM (total <=? max_num_scheduled_tokens cfg)%Z ;;
  assertM (0 <=? token_budget t)%Z ;;
  s ← get;
  assertM (length (running s) <=? max_num_running_reqs cfg) ;;
  assertM (length (scheduled_new_reqs t) + length (scheduled_resumed_reqs t) + length (scheduled_running_reqs t) <=? length (running s)) ;;
  common ← match running s with
           | [] => mret []
           | i :: _ => r ← request i; on_resources (res_get_num_common_prefix_blocks r (Z.of_nat (length (running s))))
           end;
  new_reqs ← make_new_request_data (scheduled_new_reqs t) t;
  cached ← make_cached_request_data false (scheduled_running_reqs t) t;
  resumed ← make_cached_request_data true (scheduled_resumed_reqs t) t;
  freed ← on_resources res_get_freed_mm_hashes;
  on_resources res_take_events ;;
  update_after_schedule (num_scheduled_tokens t) ;;
  mret (mkOutput new_reqs (cached ++ resumed) (num_scheduled_tokens t) total (scheduled_spec_decode_tokens t) (scheduled_encoder_inputs t)
          common (finished_req_ids s) freed).

(** * Requests in and out *)

Definition add_new_request (i : nat) (now : Z) : M S unit :=
  on_waiting (fun key => add_request key i) ;;
  r ← request i;
  modify (fun s => set_requests (<[request_id r := i]> (requests s)) s) ;;
  (if sched_log_stats cfg then update i (record_event QUEUED now) else mret tt).

Definition free_blocks (i : nat) : M S unit :=
  r ← request i;
  assertM (is_finished r) ;;
  on_resources (res_free r) ;;
  s ← get;
  match requests s !! request_id r with
  | None => raise KeyError
  | Some _ => modify (set_requests (delete (request_id r) (requests s)))
  end.

Definition free_request (i : nat) : M S unit :=
  r ← request i;
  assertM (is_finished r) ;;
  on_resources (res_free_encoder r) ;;
  modify (fun s => set_finished (finished_req_ids s ∪ {[request_id r]}) s) ;;
  free_blocks i.

(** The first pass of [finish_requests]: the running, the waiting and all the requests to finish. *)
Fixpoint find_requests (ids : list string) : M S (list nat * list nat * list nat) :=
  match ids with
  | [] => mret ([], [], [])
  | id :: ids =>
      s ← get;
      match requests s !! id with
      | None => find_requests ids
      | Some i =>
          r ← request i;
          '(run, wait, all) ← find_requests ids;
          mret (if bool_decide (status r = RUNNING) then (i :: run, wait, i :: all) else (run, i :: wait, i :: all))
      end
  end.

(** [request_ids] is a set: no identifier occurs twice. *)
Definition finish_requests (request_ids : list string) (finished_status : RequestStatus) : M S unit :=
  assertM (status_is_finished finished_status) ;;
  '(run, wait, valid) ← find_requests request_ids;
  modify (fun s => set_running (remove_all (running s) run) s) ;;
  (match wait with [] => mret tt | _ => on_waiting (fun _ => remove_requests wait) end) ;;
  forM valid (fun i => update i (set_status finished_status) ;; free_request i).

(** * [update_from_output] *)

Record ModelRunnerOutput := mkModelOutput {
  req_id_to_index : gmap string nat;
  sampled_token_ids : list (list Z);
  pooler_outputs : list (option bool);
  prompt_logprobs : gset string;
  num_nans : gmap string Z
}.

Record EngineCoreOutput := mkCoreOutput {
  eo_client_index : Z;
  eo_request_id : string;
  eo_new_token_ids : list Z;
  eo_finish_reason : option FinishReason;
  eo_stop_reason : option Z;
  eo_num_cached_tokens : Z
}.

(** [sampled_token_ids[req_index] if sampled_token_ids else []]. *)
Definition index_or {A} (d : A) (l : list A) (i : nat) : M S A :=
  match l with
  | [] => mret d
  | _ => match l !! i with Some x => mret x | None => raise IndexError end
  end.

(** [_update_request_with_output] of the scheduler's class. *)
Definition update_request_with_output (i : nat) (toks : list Z) : M S (list Z * bool) :=
  q ← sreq i;
  '(toks, stopped, q') ← lift_out (append_and_check block_hasher (max_model_len cfg) toks q);
  put_sreq i q' ;;
  (if async_scheduling cfg then
     update i (fun r => set_placeholders (num_output_placeholders r - Z.of_nat (length toks)) r) ;;
     r ← request i;
     assertM (0 <=? num_output_placeholders r)%Z ;;
     (if bool_decide (status (sr_req q) = RUNNING)
      then on_resources (res_cache_blocks r (num_computed_tokens r - num_output_placeholders r)) else mret tt)
   else mret tt) ;;
  mret (toks, stopped).

(** The rejected draft tokens were not computed. *)
Definition reject_drafts (i : nat) (drafts : option (list Z)) (generated : list Z) : M S unit :=
  match drafts with
  | Some ((_ :: _) as ds) =>
      let num_accepted := (Z.of_nat (length generated) - 1)%Z in
      let num_rejected := (Z.of_nat (length ds) - num_accepted)%Z in
      update i (fun r => set_computed (num_computed_tokens r - num_rejected) r)
  | _ => mret tt
  end.

(** One request of the loop: its output, if any, and where it stopped: [Some true] in the running list,
    [Some false] in the waiting queue. *)
Definition process_output (out : SchedulerOutput) (mo : ModelRunnerOutput) (id : string) (i : nat)
  : M S (list EngineCoreOutput * option bool) :=
  req_index ← match req_id_to_index mo !! id with Some x => mret x | None => raise KeyError end;
  generated ← index_or [] (sampled_token_ids mo) req_index;
  reject_drafts i (dict_get id (so_scheduled_spec_decode_tokens out)) generated ;;
  r ← request i;
  let status_before_stop := status r in
  '(toks, stopped) ← (match generated with [] => mret ([], false) | _ => update_request_with_output i generated end);
  '(pooler_output, stopped) ←
    (match pooler_outputs mo with
     | [] => mret (None, stopped)
     | _ =>
         po ← index_or None (pooler_outputs mo) req_index;
         q ← sreq i;
         '(stopped, q) ← lift_out (check_stop q (max_model_len cfg) po);
         put_sreq i q ;;
         mret (po, stopped)
     end);
  q ← sreq i;
  (if (stopped : bool) then free_request i else mret tt) ;;
  (match num_nans mo !! id with Some n => update i (set_nans n) | None => mret tt end) ;;
  let where_stopped := if (stopped : bool) then Some (bool_decide (status_before_stop = RUNNING)) else None in
  if negb (bool_decide (toks = [])) || bool_decide (is_Some pooler_output) then
    let r := sr_req q in
    update i (set_events []) ;;
    mret ([mkCoreOutput (client_index r) id toks (get_finished_reason r) (stop_reason q) (num_cached_tokens r)], where_stopped)
  else
    assertM (negb (bool_decide (id ∈ prompt_logprobs mo))) ;;
    mret ([], where_stopped).

(** The loop over the scheduled requests: outputs, and the requests that stopped in the running list and in the
    waiting queue. *)
Fixpoint output_loop (out : SchedulerOutput) (mo : ModelRunnerOutput) (l : list (string * Z))
  : M S (list EngineCoreOutput * list nat * list nat) :=
  match l with
  | [] => mret ([], [], [])
  | (id, n) :: l =>
      assertM (0 <? n)%Z ;;
      s ← get;
      match requests s !! id with
      | None => output_loop out mo l
      | Some i =>
          '(os, stopped) ← process_output out mo id i;
          '(os', run, wait) ← output_loop out mo l;
          mret (match stopped with
                | Some true => (os ++ os', i :: run, wait)
                | Some false => (os ++ os', run, i :: wait)
                | None => (os ++ os', run, wait)
                end)
      end
  end.

Definition update_from_output (out : SchedulerOutput) (mo : ModelRunnerOutput) : M S (list EngineCoreOutput) :=
  '(os, run, wait) ← output_loop out mo (so_num_scheduled_tokens out);
  modify (fun s => set_running (remove_all (running s) run) s) ;;
  (match wait with [] => mret tt | _ => on_waiting (fun _ => remove_requests wait) end) ;;
  mret os.

(** [should_advance] and [validate]: whether the grammar of a request advances, and the draft tokens it accepts. *)
Fixpoint update_draft_token_ids (should_advance : nat -> bool) (validate : nat -> list Z -> list Z) (drafts : list (string * list Z)) : M S unit :=
  match drafts with
  | [] => mret tt
  | (id, spec) :: drafts =>
      s ← get;
      match requests s !! id with
      | None => update_draft_token_ids should_advance validate drafts
      | Some i =>
          r ← request i;
          (if is_finished r then mret tt
           else match spec with
                | [] => update i (set_spec [])
                | _ => if should_advance i then update i (set_spec (validate i spec)) else update i (set_spec spec)
                end) ;;
          update_draft_token_ids should_advance validate drafts
      end
  end.

Definition get_request_counts (s : S) : nat * nat := (length (running s), queue_len (waiting s)).
Definition get_num_unfinished_requests (s : S) : nat := queue_len (waiting s) + length (running s).
Definition has_finished_requests (s : S) : bool := 0 <? size (finished_req_ids s).
Definition has_unfinished_requests (s : S) : bool := 0 <? get_num_unfinished_requests s.
Definition has_requests (s : S) : bool := has_unfinished_requests s || has_finished_requests s.
End scheduler.
