(* ===== verification/SchedulerFacts.v ===== *)
(** What the scheduler keeps: the invariants of [schedule], of the calls around it, and of runs of them. *)
From stdpp Require Import base gmap sets list strings.
From Stdlib Require Import ZArith Lia.
From S2P Require Import Prelude BlockQueue Request RequestQueue EncoderCache Scheduler.
Open Scope nat_scope.

(** What the managers promise the scheduler: they keep an invariant of their own, raise only exceptions in [E],
    and find fewer cached tokens than the request has; the encoder never gives a request more tokens than asked. *)
Class SchedResourceLaws (K : Type) `{SchedResources K} (E : pyexc -> Prop) := {
  res_inv : K -> Prop;
  law_allocate r n hits blocks la delay enc k : res_inv k ->
    wp (res_allocate_slots r n hits blocks la delay enc) (fun _ => res_inv) (fun e _ => E e) k;
  law_computed r k : res_inv k ->
    wp (res_get_computed_blocks r) (fun bn k' => res_inv k' /\ (0 < num_tokens r -> bn.2 < num_tokens r)) (fun e _ => E e) k;
  law_free r k : res_inv k -> wp (res_free r) (fun _ => res_inv) (fun e _ => E e) k;
  law_cache r n k : res_inv k -> wp (res_cache_blocks r n) (fun _ => res_inv) (fun e _ => E e) k;
  law_common r n k : res_inv k -> wp (res_get_num_common_prefix_blocks r n) (fun _ => res_inv) (fun e _ => E e) k;
  law_events k : res_inv k -> wp res_take_events (fun _ => res_inv) (fun e _ => E e) k;
  law_try r c n b k : res_inv k ->
    wp (res_try_schedule_encoder_inputs r c n b)
      (fun x k' => res_inv k' /\ (x.1.2 <= Z.max 0 n)%Z /\ (0 <= n -> 0 <= x.1.2)%Z) (fun e _ => E e) k;
  law_encode r l k : res_inv k -> wp (res_allocate_encoder_inputs r l) (fun _ => res_inv) (fun e _ => E e) k;
  law_free_encoder r k : res_inv k -> wp (res_free_encoder r) (fun _ => res_inv) (fun e _ => E e) k;
  law_free_inputs r k : res_inv k -> wp (res_free_encoder_inputs r) (fun _ => res_inv) (fun e _ => E e) k;
  law_freed k : res_inv k -> wp res_get_freed_mm_hashes (fun _ => res_inv) (fun e _ => E e) k
}.

Lemma submseteq_nodup {A} (l k : list A) : l ⊆+ k -> NoDup k -> NoDup l.
Proof. intros [k' ->]%submseteq_Permutation Hk. by apply NoDup_app in Hk as [? _]. Qed.

Section facts.
Context {K : Type} `{SchedResources K} {E : pyexc -> Prop} `{!SchedResourceLaws K E}.
Context (cfg : SchedulerConfig) (hf : option hasher).
Abbreviation S := (Scheduler K).
Abbreviation Exc := (fun (e : pyexc) (_ : S) => E e).

(** ** The primitives *)

Lemma wp_sreq i q (Q : SReq -> S -> Prop) Ex (s : S) : store s !! i = Some q -> Q q s -> wp (sreq i) Q Ex s.
Proof. intros Hq HQ. unfold sreq. wp_step. wp_step. rewrite Hq. by wp_step. Qed.

Lemma wp_request i q (Q : Request -> S -> Prop) Ex (s : S) : store s !! i = Some q -> Q (sr_req q) s -> wp (request i) Q Ex s.
Proof. intros Hq HQ. unfold request. wp_step. eapply wp_sreq; [done|]. by wp_step. Qed.

Lemma wp_update i q f (Q : unit -> S -> Prop) Ex (s : S) :
  store s !! i = Some q -> Q tt (set_store (<[i := with_req f q]> (store s)) s) -> wp (update i f) Q Ex s.
Proof. intros Hq HQ. unfold update. wp_step. eapply wp_sreq; [done|]. by wp_step. Qed.

Lemma wp_on_resources {A} (m : M K A) (R : A -> Prop) (Q : A -> S -> Prop) (s : S) :
  wp m (fun a k' => res_inv k' /\ R a) (fun e _ => E e) (resources s) ->
  (forall a k', res_inv k' -> R a -> Q a (set_resources k' s)) -> wp (on_resources m) Q Exc s.
Proof.
  intros Hm HQ. apply wp_zoom. eapply wp_mono; [exact Hm| |done]. intros a k' [Hk HR]. by apply HQ.
Qed.

Lemma wp_on_resources' {A} (m : M K A) (Q : A -> S -> Prop) (s : S) :
  wp m (fun _ => res_inv) (fun e _ => E e) (resources s) ->
  (forall a k', res_inv k' -> Q a (set_resources k' s)) -> wp (on_resources m) Q Exc s.
Proof.
  intros Hm HQ. apply (wp_on_resources _ (fun _ => True)); [|auto]. eapply wp_mono; [exact Hm|auto|done].
Qed.

Lemma dict_set_new {V} (id : string) (v : V) d : id ∉ d.*1 -> dict_set id v d = d ++ [(id, v)].
Proof.
  induction d as [|[id' v'] d IH]; [done|]. cbn [fmap list_fmap fst dict_set]. intros [Hne Hd]%not_elem_of_cons.
  rewrite decide_False by done. by rewrite IH.
Qed.

Lemma dict_get_set {V} (id id' : string) (v : V) d : dict_get id' (dict_set id v d) = if decide (id' = id) then Some v else dict_get id' d.
Proof.
  induction d as [|[id0 v0] d IH]; cbn [dict_set dict_get].
  - by destruct (decide (id' = id)).
  - destruct (decide (id = id0)) as [<-|Hne]; cbn [dict_get].
    + by destruct (decide (id' = id)).
    + rewrite IH. destruct (decide (id' = id0)) as [->|]; [|done]. by rewrite decide_False.
Qed.

Lemma dict_get_some {V} (id : string) (d : list (string * V)) : id ∈ d.*1 -> is_Some (dict_get id d).
Proof.
  induction d as [|[id0 v0] d IH]; [by intros ?%elem_of_nil|]. cbn. rewrite elem_of_cons. intros [->|Hd].
  - rewrite decide_True by done. eauto.
  - destruct (decide (id = id0)); [eauto|]. by apply IH.
Qed.

Lemma total_scheduled_app l l' : total_scheduled (l ++ l') = (total_scheduled l + total_scheduled l')%Z.
Proof. unfold total_scheduled. rewrite foldr_app. induction l as [|e l IH]; cbn [foldr]; [lia|]. rewrite IH. lia. Qed.

(** ** The state during [schedule] *)

(** A request that waits has computed nothing, and one that runs has tokens left within the model's length. *)
Definition fresh_ok (r : Request) : Prop :=
  (status r = WAITING \/ status r = WAITING_FOR_FSM \/ status r = PREEMPTED) /\ num_computed_tokens r = 0%Z.
Definition progress_ok (r : Request) : Prop :=
  (num_computed_tokens r <= Z.of_nat (num_tokens_with_spec r) + num_output_placeholders r)%Z /\
  (num_computed_tokens r <= max_model_len cfg - 1)%Z.

Definition scheduled (t : Step) : list nat := scheduled_running_reqs t ++ scheduled_new_reqs t ++ scheduled_resumed_reqs t.

(** The object of a request that the scheduler knows. *)
Definition known (s : S) (i : nat) (q : SReq) : Prop :=
  store s !! i = Some q /\ requests s !! request_id (sr_req q) = Some i /\ 0 < num_tokens (sr_req q).

(** With the running requests [run], the skipped ones [skip] and the waiting ones [wait]: every request is in one of the
    lists; the first [idx] running requests have been considered; the local variables agree with them.  [P] tells
    whether the requests not considered yet have progressed regularly. *)
Record mid (P : Prop) (run skip wait : list nat) (idx : nat) (t : Step) (s : S) : Prop := {
  m_run : running s = run;
  m_wait : waiting s = FCFSRequestQueue wait;
  m_skip : skipped_waiting_requests t = FCFSRequestQueue skip;
  m_nodup : NoDup (run ++ skip ++ wait);
  m_known : forall i, i ∈ run ++ skip ++ wait -> exists q, known s i q;
  m_requests : forall id i, requests s !! id = Some i ->
    i ∈ run ++ skip ++ wait /\ exists q, store s !! i = Some q /\ request_id (sr_req q) = id;
  m_status : forall i q, i ∈ run -> store s !! i = Some q -> status (sr_req q) = RUNNING;
  m_progress : P -> forall j i q, idx <= j -> run !! j = Some i -> store s !! i = Some q -> progress_ok (sr_req q);
  m_fresh : forall i q, i ∈ skip ++ wait -> store s !! i = Some q -> fresh_ok (sr_req q);
  m_sched : scheduled t ⊆+ take idx run;
  m_keys : forall id, id ∈ (num_scheduled_tokens t).*1 <->
    exists i q, i ∈ scheduled t /\ store s !! i = Some q /\ id = request_id (sr_req q);
  m_keys_nodup : NoDup (num_scheduled_tokens t).*1;
  m_blocks : forall id, id ∈ (num_scheduled_tokens t).*1 -> is_Some (dict_get id (req_to_new_blocks t));
  m_budget : (token_budget t + total_scheduled (num_scheduled_tokens t) = max_num_scheduled_tokens cfg)%Z;
  m_budget_nonneg : (0 <= token_budget t)%Z;
  m_counts : P -> Forall (fun e => 0 < e.2)%Z (num_scheduled_tokens t);
  m_max : length run <= max_num_running_reqs cfg;
  m_res : res_inv (resources s)
}.

Lemma mid_known P run skip wait idx t s i : mid P run skip wait idx t s -> i ∈ run ++ skip ++ wait -> exists q, known s i q.
Proof. intros Hm. apply Hm. Qed.

Lemma mid_resources P run skip wait idx t s k : mid P run skip wait idx t s -> res_inv k -> mid P run skip wait idx t (set_resources k s).
Proof. intros [] Hk. by split. Qed.

(** Writing to an object keeps the invariant when the identifier, the tokens and what its list asks stay. *)
Lemma mid_update P run skip wait idx t s i q f :
  mid P run skip wait idx t s -> store s !! i = Some q ->
  let r := sr_req q in
  request_id (f r) = request_id r -> num_tokens (f r) = num_tokens r ->
  (i ∈ run -> status (f r) = RUNNING) -> (P -> forall j, idx <= j -> run !! j = Some i -> progress_ok (f r)) ->
  (i ∈ skip ++ wait -> fresh_ok (f r)) ->
  mid P run skip wait idx t (set_store (<[i := with_req f q]> (store s)) s).
Proof.
  intros [] Hq r Hid Hnt Hst Hpr Hfr.
  assert (forall j q', <[i := with_req f q]> (store s) !! j = Some q' -> exists q0, store s !! j = Some q0 /\
    request_id (sr_req q') = request_id (sr_req q0) /\ num_tokens (sr_req q') = num_tokens (sr_req q0) /\
    (j = i /\ q' = with_req f q \/ j <> i /\ q' = q0)) as Hlk.
  { intros j q'. destruct (decide (j = i)) as [->|Hne]; [rewrite lookup_insert_eq|rewrite lookup_insert_ne by done].
    - intros [= <-]. exists q. split_and!; [done|done|done|]. by left.
    - intros Hq'. exists q'. split_and!; [done|done|done|]. by right. }
  assert (forall j q0, store s !! j = Some q0 -> exists q', <[i := with_req f q]> (store s) !! j = Some q' /\
    request_id (sr_req q') = request_id (sr_req q0) /\ num_tokens (sr_req q') = num_tokens (sr_req q0)) as Hlk'.
  { intros j q0 Hq0. destruct (decide (j = i)) as [->|Hne]; [rewrite lookup_insert_eq|rewrite lookup_insert_ne by done]; simplify_eq; eauto. }
  split; try done; cbn.
  - intros j Hj. destruct (m_known0 j Hj) as (q0 & Hq0 & Hr0 & Ht0). destruct (Hlk' j q0 Hq0) as (q' & Hq' & Hid' & Hnt').
    exists q'. split_and!; [done|by rewrite Hid'|by rewrite Hnt'].
  - intros id j Hj. destruct (m_requests0 id j Hj) as (Hin & q0 & Hq0 & Hr0). split; [done|].
    destruct (Hlk' j q0 Hq0) as (q' & Hq' & Hid' & _). exists q'. split; [done|]. by rewrite Hid'.
  - intros j q' Hj (q0 & Hq0 & _ & _ & [[-> ->]|[Hne ->]])%Hlk; [by apply Hst|by eapply m_status0].
  - intros HP j x q' Hle Hx (q0 & Hq0 & _ & _ & [[-> ->]|[Hne ->]])%Hlk; [by eapply Hpr|by eapply m_progress0].
  - intros j q' Hj (q0 & Hq0 & _ & _ & [[-> ->]|[Hne ->]])%Hlk; [by apply Hfr|by eapply m_fresh0].
  - intros id. rewrite m_keys0. split; intros (j & q0 & Hj & Hq0 & ->).
    + destruct (Hlk' j q0 Hq0) as (q' & Hq' & Hid' & _). exists j, q'. split_and!; [done|done|congruence].
    + apply Hlk in Hq0 as (q' & Hq' & Hid' & _). exists j, q'. split_and!; [done|done|congruence].
Qed.

(** The record equalities that the steps produce. *)
Lemma with_req_compose f g q : with_req g (with_req f q) = with_req (fun r => g (f r)) q.
Proof. done. Qed.

Definition preempted_request (now : Z) (r : Request) : Request :=
  let r := set_computed 0 (set_status PREEMPTED r) in
  if sched_log_stats cfg then record_event PREEMPTED_EVENT now r else r.

Lemma mid_preempt P run v wait idx t s q now k :
  mid P (run ++ [v]) [] wait idx t s -> idx <= length run -> store s !! v = Some q -> res_inv k ->
  mid P run [] (v :: wait) idx (st_running (scheduled_running_reqs t) (preempted_reqs t ++ [v]) t)
    (mkSched (<[v := with_req (preempted_request now) q]> (store s)) (requests s) (FCFSRequestQueue (v :: wait)) run (finished_req_ids s) k).
Proof.
  intros [] Hidx Hq Hk. cbn in *.
  assert (forall i, i ∈ run ++ v :: wait <-> i ∈ (run ++ [v]) ++ wait) as Hin by (intros i; rewrite <-app_assoc; done).
  rewrite <-app_assoc in m_nodup0. cbn in m_nodup0.
  assert (v ∉ run) as Hv by (apply NoDup_app in m_nodup0 as (_ & Hd & _); intros Hv; apply (Hd v Hv); by left).
  assert (request_id (preempted_request now (sr_req q)) = request_id (sr_req q) /\ num_tokens (preempted_request now (sr_req q)) = num_tokens (sr_req q) /\
    fresh_ok (preempted_request now (sr_req q))) as (Hid & Hnt & Hfr).
  { unfold preempted_request. destruct (sched_log_stats cfg); (split_and!; [done|done|split; [by right; right|done]]). }
  assert (forall j q0, store s !! j = Some q0 -> exists q', <[v := with_req (preempted_request now) q]> (store s) !! j = Some q' /\
    request_id (sr_req q') = request_id (sr_req q0) /\ num_tokens (sr_req q') = num_tokens (sr_req q0)) as Hlk.
  { intros j q0 Hq0. destruct (decide (j = v)) as [->|Hne]; [rewrite lookup_insert_eq|rewrite lookup_insert_ne by done]; simplify_eq; eauto. }
  split; cbn; try done.
  - intros i Hi%Hin. destruct (m_known0 i Hi) as (q0 & Hq0 & Hr0 & Ht0). cbn in *. destruct (Hlk i q0 Hq0) as (q' & Hq' & Hid' & Hnt').
    exists q'. split_and!; [done|by rewrite Hid'|by rewrite Hnt'].
  - intros id i Hi. destruct (m_requests0 id i Hi) as (Hi' & q0 & Hq0 & Hr0). split; [by apply Hin|].
    destruct (Hlk i q0 Hq0) as (q' & Hq' & Hid' & _). exists q'. split; [done|]. by rewrite Hid'.
  - intros i q' Hi. rewrite lookup_insert_ne by (by intros ->). apply m_status0. by apply elem_of_app; left.
  - intros HP j i q' Hle Hi. rewrite lookup_insert_ne by (intros ->; apply Hv; by eapply list_elem_of_lookup_2).
    eapply m_progress0; [done|exact Hle|]. by apply lookup_app_l_Some.
  - intros i q' Hi Hq'. destruct (decide (i = v)) as [->|Hne]; [rewrite lookup_insert_eq in Hq'; by simplify_eq|].
    rewrite lookup_insert_ne in Hq' by done. eapply m_fresh0; [|done]. apply elem_of_cons in Hi as [?|?]; done.
  - by rewrite take_app_le in m_sched0 by done.
  - intros id. rewrite m_keys0. split; intros (j & q0 & Hj & Hq0 & ->).
    + destruct (Hlk j q0 Hq0) as (q' & Hq' & Hid' & _). exists j, q'. split_and!; [done|done|congruence].
    + destruct (decide (j = v)) as [->|Hne].
      * rewrite lookup_insert_eq in Hq0. simplify_eq. exists v, q. split_and!; [done|done|exact Hid].
      * rewrite lookup_insert_ne in Hq0 by done. exists j, q0. done.
  - rewrite length_app in m_max0. lia.
Qed.

Lemma wp_preempt P run v wait idx t s now :
  mid P (run ++ [v]) [] wait idx t s -> idx <= length run ->
  wp (preempt cfg v now t)
    (fun t' s' => t' = st_running (scheduled_running_reqs t) (preempted_reqs t ++ [v]) t /\ mid P run [] (v :: wait) idx t' s' /\
       forall j, j <> v -> store s' !! j = store s !! j) Exc (set_running run s).
Proof.
  intros Hm Hidx. unfold preempt. destruct (mid_known _ _ _ _ _ _ _ v Hm) as (q & Hq & _); [set_solver|].
  wp_step. eapply wp_request; [exact Hq|]. wp_step. apply wp_on_resources'; [apply law_free, Hm|]. intros ? k1 Hk1.
  wp_step. apply wp_on_resources'; [by apply law_free_encoder|]. intros ? k2 Hk2.
  wp_step. eapply wp_update; [exact Hq|]. wp_step.
  apply (wp_mono _ (fun _ s' => s' = set_store (<[v := with_req (preempted_request now) q]> (store s)) (set_resources k2 (set_running run s))) _ Exc); [| |done].
  { unfold preempted_request. destruct (sched_log_stats cfg) eqn:El; [|by wp_step].
    eapply wp_update; [apply lookup_insert_eq|]. cbn. rewrite with_req_compose, insert_insert_eq. done. }
  intros ? s' ->. wp_step. unfold on_waiting. do 3 wp_step. eapply wp_lift; [cbn; by rewrite (m_wait _ _ _ _ _ _ _ Hm)|]. do 2 wp_step.
  split_and!; [done|exact (mid_preempt P run v wait idx t s q now k2 Hm Hidx Hq Hk2)|]. intros j Hj. by apply lookup_insert_ne.
Qed.

(** [i] is the running request at [idx]: it gets slots, and the running list still has it there; or the list now ends
    before it. *)
Lemma wp_preempt_loop P now i n idx : policy cfg = FCFS -> forall fuel run wait t s,
  length run - idx <= fuel -> run !! idx = Some i -> mid P run [] wait idx t s ->
  wp (preempt_loop cfg fuel i n now t)
     (fun x s' => exists run' wait', mid P run' [] wait' idx x.2 s' /\ run' ++ wait' = run ++ wait /\
        token_budget x.2 = token_budget t /\ length run' <= length run /\
        match x.1 with Some _ => run' !! idx = Some i /\ store s' !! i = store s !! i | None => preempted_reqs x.2 <> [] end) Exc s.
Proof.
  intros Hpol. induction fuel as [|fuel IH]; intros run wait t s Hf Hi Hm; apply lookup_lt_Some in Hi as Hl; [lia|]. cbn [preempt_loop].
  destruct (mid_known _ _ _ _ _ _ _ i Hm) as (q & Hq & _); [apply elem_of_app; left; by eapply list_elem_of_lookup_2|].
  wp_step. eapply wp_request; [exact Hq|]. wp_step. apply wp_on_resources'; [apply law_allocate, Hm|]. intros blocks k Hk.
  assert (mid P run [] wait idx t (set_resources k s)) as Hm1 by (by apply mid_resources). clear Hm.
  destruct blocks as [blocks|]; [wp_step; exists run, wait; cbn; split_and!; done|]. wp_step.
  unfold pick_victim. wp_step. wp_step. rewrite Hpol, (m_run _ _ _ _ _ _ _ Hm1).
  destruct (exists_last (l := run)) as (run0 & v & Hrun); [by destruct run|]. subst run. rewrite last_snoc, removelast_last. do 3 wp_step.
  rewrite length_app in Hl. cbn in Hl. wp_step.
  eapply wp_mono; [eapply wp_preempt; [exact Hm1|lia]| |done]. intros t' s' (-> & Hm' & Hst).
  destruct (Nat.eqb_spec v i) as [->|Hne].
  - wp_step. exists run0, (i :: wait). cbn. split_and!; [done|by rewrite <-app_assoc|done|rewrite length_app; lia|]. by destruct (preempted_reqs t).
  - assert (run0 !! idx = Some i) as Hi'.
    { rewrite lookup_app in Hi. destruct (run0 !! idx) as [j|] eqn:Ej; [done|]. apply lookup_ge_None in Ej.
      apply list_lookup_singleton_Some in Hi as [_ ->]. done. }
    eapply wp_mono; [apply (IH run0 (v :: wait) _ s'); [|done|done]| |done].
    + rewrite length_app in Hf. cbn in Hf. lia.
    + intros x s'' (run' & wait' & Hm'' & Heq & Hb & Hsc & Hx). exists run', wait'.
      split_and!; [done|by rewrite Heq, <-app_assoc|done|rewrite length_app; lia|]. destruct x.1; [|done]. destruct Hx as [Hx Hstx].
      split; [done|]. by rewrite Hstx, Hst.
Qed.

(** What of the local variables the invariant looks at. *)
Record same_core (t t' : Step) : Prop := {
  sc_sched : scheduled t' = scheduled t;
  sc_blocks : req_to_new_blocks t' = req_to_new_blocks t;
  sc_counts : num_scheduled_tokens t' = num_scheduled_tokens t;
  sc_budget : token_budget t' = token_budget t;
  sc_skipped : skipped_waiting_requests t' = skipped_waiting_requests t;
  sc_preempted : preempted_reqs t' = preempted_reqs t
}.

Lemma mid_core P run skip wait idx t t' s : mid P run skip wait idx t s -> same_core t t' -> mid P run skip wait idx t' s.
Proof. intros [] [E1 E2 E3 E4 E5 _]. split; rewrite ?E1, ?E2, ?E3, ?E4, ?E5; done. Qed.

Lemma mid_idx P run skip wait idx idx' t s : mid P run skip wait idx t s -> idx <= idx' -> mid P run skip wait idx' t s.
Proof.
  intros [] Hle. split; try done.
  - intros HP j i q Hj. apply m_progress0; [done|lia].
  - etrans; [done|]. replace (take idx run) with (take idx (take idx' run)) by (rewrite take_take; f_equal; lia).
    apply submseteq_take.
Qed.

Lemma known_inj s i j q q' : known s i q -> known s j q' -> request_id (sr_req q) = request_id (sr_req q') -> i = j.
Proof. intros (_ & Hi & _) (_ & Hj & _) Heq. rewrite Heq in Hi. congruence. Qed.

Lemma mid_submseteq P run skip wait idx t s i : mid P run skip wait idx t s -> i ∈ scheduled t -> i ∈ take idx run.
Proof. intros Hm Hi. eapply elem_of_submseteq; [exact Hi|apply Hm]. Qed.

Lemma mid_not_scheduled P run skip wait idx t s i : mid P run skip wait idx t s -> run !! idx = Some i -> i ∉ scheduled t.
Proof.
  intros Hm Hi Hs. apply (mid_submseteq _ _ _ _ _ _ _ _ Hm) in Hs as (k & Hk & Hlt)%elem_of_take.
  apply m_nodup, NoDup_app in Hm as [Hnd _]. pose proof (NoDup_lookup _ _ _ _ Hnd Hi Hk). lia.
Qed.

Lemma mid_key P run skip wait idx t s i q : mid P run skip wait idx t s -> i ∈ run -> store s !! i = Some q ->
  request_id (sr_req q) ∈ (num_scheduled_tokens t).*1 <-> i ∈ scheduled t.
Proof.
  intros Hm Hi Hq. rewrite (m_keys _ _ _ _ _ _ _ Hm). split; [|by exists i, q].
  intros (j & q' & Hj & Hq' & Heq). destruct (mid_known _ _ _ _ _ _ _ i Hm) as (q0 & Hk); [by apply elem_of_app; left|].
  apply (mid_submseteq _ _ _ _ _ _ _ _ Hm) in Hj as Hj'. apply elem_of_take in Hj' as (k & Hjk & _).
  destruct (mid_known _ _ _ _ _ _ _ j Hm) as (q'' & Hk'); [apply elem_of_app; left; by eapply list_elem_of_lookup_2|].
  assert (q0 = q /\ q'' = q') as [-> ->] by (destruct Hk, Hk'; split; congruence). by rewrite (known_inj _ _ _ _ _ Hk Hk').
Qed.

(** One of the first [idx] running requests is scheduled. *)
Lemma mid_schedule P run skip wait idx t s i q blocks n t' :
  mid P run skip wait idx t s -> i ∈ take idx run -> i ∉ scheduled t -> store s !! i = Some q ->
  (n <= token_budget t)%Z -> (P -> 0 < n)%Z ->
  scheduled t' ≡ₚ i :: scheduled t -> req_to_new_blocks t' = dict_set (request_id (sr_req q)) blocks (req_to_new_blocks t) ->
  num_scheduled_tokens t' = dict_set (request_id (sr_req q)) n (num_scheduled_tokens t) ->
  token_budget t' = (token_budget t - n)%Z -> skipped_waiting_requests t' = skipped_waiting_requests t ->
  mid P run skip wait idx t' s.
Proof.
  intros Hm Hi Hni Hq Hn HP Hsch Hbl Hct Hbu Hsk. set (id := request_id (sr_req q)) in *.
  assert (i ∈ run) as Hrun by (apply elem_of_take in Hi as (k & Hk & _); by eapply list_elem_of_lookup_2).
  assert (id ∉ (num_scheduled_tokens t).*1) as Hnew by (intros Hc; apply Hni; by apply (mid_key _ _ _ _ _ _ _ _ _ Hm Hrun Hq)). destruct Hm.
  rewrite (dict_set_new id n) in Hct by done.
  split; try done; rewrite ?Hsk, ?Hct, ?Hbu; try done.
  - rewrite Hsch. apply NoDup_submseteq.
    + constructor; [done|]. eapply submseteq_nodup; [exact m_sched0|]. eapply sublist_NoDup; [|apply sublist_take].
      by apply NoDup_app in m_nodup0 as [? _].
    + intros j [->|Hj]%elem_of_cons; [done|]. by eapply elem_of_submseteq.
  - intros id'. rewrite fmap_app, elem_of_app. cbn. rewrite list_elem_of_singleton, m_keys0. setoid_rewrite Hsch. setoid_rewrite elem_of_cons.
    split; [intros [(j & q' & ? & ? & ?)| ->]; [by exists j, q'; auto|by exists i, q; auto]|].
    intros (j & q' & [->|?] & Hq' & ->); [right; simplify_eq; done|left; by exists j, q'].
  - rewrite fmap_app. cbn. apply NoDup_app. split_and!; [done| |apply NoDup_singleton]. intros x Hx ->%list_elem_of_singleton. done.
  - intros id' Hid'. rewrite Hbl, dict_get_set. case_decide; [eauto|]. apply m_blocks0. rewrite fmap_app, elem_of_app in Hid'. cbn in Hid'.
    rewrite list_elem_of_singleton in Hid'. naive_solver.
  - rewrite total_scheduled_app. cbn. lia.
  - lia.
  - intros HP'. apply Forall_app. split; [by apply m_counts0|]. constructor; [by apply HP|done].
Qed.

(** ** Running requests *)

Lemma running_new_tokens_bounds r budget :
  (running_new_tokens cfg r budget <= budget)%Z /\
  (progress_ok r -> (0 <= budget)%Z -> (0 <= running_new_tokens cfg r budget)%Z).
Proof.
  unfold running_new_tokens, progress_ok. case_match eqn:Et; [|lia]. apply andb_true_iff in Et as [?%Z.ltb_lt ?%Z.ltb_lt]. lia.
Qed.

Lemma wp_try_encoder r c n b (s : S) : res_inv (resources s) ->
  wp (try_encoder r c n b) (fun x s' => exists k, s' = set_resources k s /\ res_inv k /\ (x.1.2 <= Z.max 0 n)%Z /\ (0 <= n -> 0 <= x.1.2)%Z) Exc s.
Proof.
  intros Hk. unfold try_encoder. destruct (has_encoder_inputs r).
  - eapply wp_on_resources; [by apply law_try|]. intros x k Hk' Hx. exists k. done.
  - wp_step. exists (resources s). cbn. split_and!; [by destruct s|done|lia|done].
Qed.

Lemma wp_schedule_encoder P run skip wait idx t s i inputs b : mid P run skip wait idx t s -> i ∈ run ->
  wp (schedule_encoder i inputs b t) (fun t' s' => mid P run skip wait idx t' s' /\ same_core t t') Exc s.
Proof.
  intros Hm Hi. unfold schedule_encoder. destruct inputs as [|x l]; [by wp_step|].
  destruct (mid_known _ _ _ _ _ _ _ i Hm) as (q & Hq & _); [by apply elem_of_app; left|].
  wp_step. eapply wp_request; [exact Hq|]. wp_step. apply wp_on_resources'; [apply law_encode, Hm|]. intros _ k Hk. wp_step.
  split; [|done]. eapply mid_core; [by apply mid_resources|done].
Qed.

Lemma mid_spec P run wait idx t s i q l : mid P run [] wait (Datatypes.S idx) t s -> run !! idx = Some i -> store s !! i = Some q ->
  mid P run [] wait (Datatypes.S idx) t (set_store (<[i := with_req (set_spec l) q]> (store s)) s).
Proof.
  intros Hm Hi Hq. apply list_elem_of_lookup_2 in Hi as Hin. eapply mid_update; [done|done|done|done| | |].
  - intros _. cbn. by eapply m_status.
  - intros _ j Hj Hj'. apply m_nodup, NoDup_app in Hm as [Hnd _]. pose proof (NoDup_lookup _ _ _ _ Hnd Hi Hj'). lia.
  - intros Hw. apply m_nodup, NoDup_app in Hm as (_ & Hd & _). by destruct (Hd i Hin).
Qed.

Lemma wp_schedule_spec P run wait idx t s i n : mid P run [] wait (Datatypes.S idx) t s -> run !! idx = Some i ->
  wp (schedule_spec i n t) (fun t' s' => mid P run [] wait (Datatypes.S idx) t' s' /\ same_core t t') Exc s.
Proof.
  intros Hm Hi. unfold schedule_spec.
  destruct (mid_known _ _ _ _ _ _ _ i Hm) as (q & Hq & _); [by apply elem_of_app; left; eapply list_elem_of_lookup_2|].
  wp_step. eapply wp_request; [exact Hq|]. destruct (spec_token_ids (sr_req q)) as [|x l]; [by wp_step|]. cbv zeta.
  case_match; [|by wp_step]. wp_step. eapply wp_update; [exact Hq|]. wp_step. split; [|done].
  eapply mid_core; [by eapply mid_spec|done].
Qed.

Lemma wp_running_loop P now : policy cfg = FCFS -> forall fuel idx run wait t s,
  length run - idx < fuel -> mid P run [] wait idx t s ->
  wp (running_loop cfg fuel idx now t)
     (fun t' s' => exists run' wait' idx', mid P run' [] wait' idx' t' s' /\ run' ++ wait' = run ++ wait) Exc s.
Proof.
  intros Hpol. induction fuel as [|fuel IH]; intros idx run wait t s Hf Hm; [lia|]. cbn [running_loop].
  wp_step. wp_step. pose proof (m_run _ _ _ _ _ _ _ Hm) as Hrun. rewrite Hrun.
  destruct (run !! idx) as [i|] eqn:Hi; [|wp_step; by exists run, wait, idx].
  destruct (0 <? token_budget t)%Z eqn:Hb; cbn [negb]; [apply Z.ltb_lt in Hb|wp_step; by exists run, wait, idx].
  apply lookup_lt_Some in Hi as Hlt. apply list_elem_of_lookup_2 in Hi as Hin.
  destruct (mid_known _ _ _ _ _ _ _ i Hm) as (q & Hq & _); [by apply elem_of_app; left|].
  wp_step. eapply wp_request; [exact Hq|]. wp_step.
  eapply wp_mono; [apply wp_try_encoder, Hm| |done]. intros [[inputs n] b'] s' (k & -> & Hk & Hn1 & Hn2). cbn in Hn1, Hn2.
  destruct (running_new_tokens_bounds (sr_req q) (token_budget t)) as [Hr1 Hr2].
  assert (P -> 0 <= n)%Z as Hn by (intros HP; apply Hn2, Hr2; [eapply m_progress; done|lia]).
  apply (mid_resources _ _ _ _ _ _ _ k) in Hm; [|done]. cbn beta.
  destruct (Z.eqb_spec n 0) as [->|Hne].
  { apply IH; [lia|by eapply mid_idx; [|apply Nat.le_succ_diag_r]]. }
  wp_step.
  eapply wp_mono; [apply (wp_preempt_loop P now i n idx Hpol _ run wait); [lia|done|done]| |done].
  intros [[blocks|] t1] s1 (run1 & wait1 & Hm1 & Heq & Hbt & Hsc & Hx); cbn [fst snd] in *; [|wp_step; by exists run1, wait1, idx].
  destruct Hx as [Hi1 Hq1]. cbn in Hq1. rewrite Hq in Hq1. cbv zeta. wp_step.
  eapply wp_mono; [eapply wp_schedule_spec; [eapply (mid_schedule P run1 [] wait1 (Datatypes.S idx) t1 s1 i q blocks n);
    [by eapply mid_idx; [|apply Nat.le_succ_diag_r]|apply elem_of_take; by exists idx; auto|by eapply mid_not_scheduled|done|
     lia|intros HP; specialize (Hn HP); lia| |done..]|done]| |done].
  { unfold scheduled. cbn. symmetry. rewrite <-app_assoc. apply Permutation_middle. }
  intros t2 s2 [Hm2 Hc2]. wp_step.
  eapply wp_mono; [eapply wp_schedule_encoder; [exact Hm2|by eapply list_elem_of_lookup_2]| |done].
  intros t3 s3 [Hm3 Hc3]. eapply wp_mono; [apply (IH _ run1 wait1)| |done]; [|done|].
  - lia.
  - intros t4 s4 (run4 & wait4 & idx4 & Hm4 & Heq4). exists run4, wait4, idx4. by rewrite Heq4.
Qed.

(** ** Waiting requests *)

Lemma mid_end P run skip wait idx t s : mid P run skip wait idx t s -> mid P run skip wait (length run) t s.
Proof.
  intros []. split; try done.
  - intros _ j i q Hj Hi%lookup_lt_Some. lia.
  - etrans; [done|]. rewrite firstn_all. apply submseteq_take.
Qed.

Lemma mid_skip_head P run skip wait i idx t s : mid P run skip (i :: wait) idx t s ->
  mid P run (i :: skip) wait idx (st_skipped (FCFSRequestQueue (i :: skip)) t) (set_waiting (FCFSRequestQueue wait) s).
Proof.
  intros []. assert (run ++ (i :: skip) ++ wait ≡ₚ run ++ skip ++ i :: wait) as Hp by (apply Permutation_app_head; cbn; apply Permutation_middle).
  split; try done; cbn [store requests set_waiting].
  - by rewrite Hp.
  - intros j. rewrite Hp. apply m_known0.
  - intros id j. rewrite Hp. apply m_requests0.
  - intros j q Hj. apply m_fresh0. cbn in Hj. rewrite elem_of_cons, elem_of_app in Hj. rewrite elem_of_app, elem_of_cons. naive_solver.
Qed.

Lemma mid_move P run skip wait i idx t s q f k : mid P run skip (i :: wait) idx t s -> length run < max_num_running_reqs cfg ->
  store s !! i = Some q -> res_inv k ->
  request_id (f (sr_req q)) = request_id (sr_req q) -> num_tokens (f (sr_req q)) = num_tokens (sr_req q) -> status (f (sr_req q)) = RUNNING ->
  mid P (run ++ [i]) skip wait (Datatypes.S (length run)) t
    (mkSched (<[i := with_req f q]> (store s)) (requests s) (FCFSRequestQueue wait) (run ++ [i]) (finished_req_ids s) k).
Proof.
  intros Hm Hmax Hq Hk Hid Hnt Hst. apply mid_end in Hm as []. rewrite firstn_all in m_sched0.
  assert ((run ++ [i]) ++ skip ++ wait ≡ₚ run ++ skip ++ i :: wait) as Hp by (rewrite <-app_assoc; apply Permutation_app_head; cbn; apply Permutation_middle).
  assert (i ∉ run) as Hi by (rewrite <-Hp in m_nodup0; apply NoDup_app in m_nodup0 as [(_ & Hd & _)%NoDup_app _]; intros Hi; apply (Hd i Hi); by left).
  assert (i ∉ skip ++ wait) as Hi' by (rewrite <-Hp, <-app_assoc in m_nodup0; apply NoDup_app in m_nodup0 as (_ & _ & Hd); by inv Hd).
  assert (forall j q0, store s !! j = Some q0 -> exists q', <[i := with_req f q]> (store s) !! j = Some q' /\
    request_id (sr_req q') = request_id (sr_req q0) /\ num_tokens (sr_req q') = num_tokens (sr_req q0)) as Hlk.
  { intros j q0 Hq0. destruct (decide (j = i)) as [->|Hne]; [rewrite lookup_insert_eq|rewrite lookup_insert_ne by done]; simplify_eq; eauto. }
  split; try done; cbn [store requests].
  - by rewrite Hp.
  - intros j. rewrite Hp. intros (q0 & Hq0 & Hr0 & Ht0)%m_known0. destruct (Hlk j q0 Hq0) as (q' & Hq' & Hid' & Hnt').
    exists q'. split_and!; [done|by rewrite Hid'|by rewrite Hnt'].
  - intros id j. rewrite Hp. intros (Hin & q0 & Hq0 & Hr0)%m_requests0. split; [done|].
    destruct (Hlk j q0 Hq0) as (q' & Hq' & Hid' & _). exists q'. split; [done|]. by rewrite Hid'.
  - intros j q' Hj Hq'. destruct (decide (j = i)) as [->|Hne]; [rewrite lookup_insert_eq in Hq'; by simplify_eq|].
    rewrite lookup_insert_ne in Hq' by done. eapply m_status0; [|done]. set_solver.
  - intros _ j x q' Hj Hx%lookup_lt_Some. rewrite length_app in Hx. cbn in Hx. lia.
  - intros j q' Hj. rewrite lookup_insert_ne by (by intros ->). apply m_fresh0.
    rewrite elem_of_app in *. rewrite elem_of_cons. naive_solver.
  - rewrite firstn_all2 by (rewrite length_app; cbn; lia). etrans; [done|]. apply submseteq_inserts_r. done.
  - intros id. rewrite m_keys0. split; intros (j & q0 & Hj & Hq0 & ->).
    + destruct (Hlk j q0 Hq0) as (q' & Hq' & Hid' & _). exists j, q'. split_and!; [done|done|congruence].
    + assert (j <> i) as Hne by (intros ->; apply Hi; by eapply elem_of_submseteq).
      rewrite lookup_insert_ne in Hq0 by done. exists j, q0. done.
  - rewrite length_app. cbn. lia.
Qed.

Definition ready_status (r : Request) : Prop := status r = WAITING \/ status r = PREEMPTED.

(** What the code does to a request it admits. *)
Definition admitted_request (now n : Z) (r : Request) : Request :=
  let r := if sched_log_stats cfg then record_event SCHEDULED now r else r in
  let r' := set_computed n (set_status RUNNING r) in
  if (num_cached_tokens r <? 0)%Z then set_cached n r' else r'.

Lemma wp_move_to_running P run skip wait i t s q now n c inputs b :
  max_loras cfg = None -> mid P run skip (i :: wait) (length run) t s -> store s !! i = Some q -> ready_status (sr_req q) ->
  length run < max_num_running_reqs cfg -> (0 < n <= token_budget t)%Z ->
  wp (move_to_running cfg now n c inputs b t)
     (fun t' s' => mid P (run ++ [i]) skip wait (Datatypes.S (length run)) t' s') Exc s.
Proof.
  intros Hlora Hm Hq Hst Hmax Hn. unfold move_to_running, pop_waiting. do 4 wp_step.
  eapply wp_lift; [rewrite (m_wait _ _ _ _ _ _ _ Hm); reflexivity|]. cbn beta iota. do 5 wp_step. wp_step.
  apply (wp_mono _ (fun _ s' => s' = set_store (<[i := with_req (fun r => if sched_log_stats cfg then record_event SCHEDULED now r else r) q]> (store s))
    (set_running (run ++ [i]) (set_waiting (FCFSRequestQueue wait) s))) _ Exc); [| |done].
  { rewrite <-(m_run _ _ _ _ _ _ _ Hm). destruct (sched_log_stats cfg); [by eapply wp_update; [exact Hq|]|wp_step].
    unfold set_store, set_running, set_waiting. cbn. f_equal. symmetry. apply insert_id. rewrite Hq. by destruct q. }
  intros _ ? ->. set (q1 := with_req _ q). wp_step. eapply wp_request; [apply lookup_insert_eq|]. wp_step.
  set (s2 := set_store _ _). assert (status (sr_req q1) = status (sr_req q)) as Hsq by (cbn; by destruct (sched_log_stats cfg)).
  apply (wp_mono _ (fun t1 s' => s' = s2 /\ scheduled t1 ≡ₚ i :: scheduled t /\ req_to_new_blocks t1 = req_to_new_blocks t /\
    num_scheduled_tokens t1 = num_scheduled_tokens t /\ token_budget t1 = token_budget t /\
    skipped_waiting_requests t1 = skipped_waiting_requests t) _ Exc); [| |done].
  { rewrite Hsq. unfold scheduled. destruct Hst as [-> | ->]; wp_step; cbn; split_and!; try done; solve_Permutation. }
  intros t1 ? (-> & Ht1 & Ht2 & Ht3 & Ht4 & Ht5). rewrite Hlora. cbn iota. do 2 wp_step.
  wp_step. eapply wp_update; [apply lookup_insert_eq|]. wp_step.
  apply (wp_mono _ (fun _ s' => s' = mkSched (<[i := with_req (admitted_request now c) q]> (store s)) (requests s) (FCFSRequestQueue wait)
    (run ++ [i]) (finished_req_ids s) (resources s)) _ Exc); [| |done].
  { assert (forall r', r' = admitted_request now c (sr_req q) -> with_req (fun _ => r') q = with_req (admitted_request now c) q)
      as Hadm by (by intros ? ->).
    unfold set_store. cbn. rewrite insert_insert_eq. destruct (num_cached_tokens _ <? 0)%Z eqn:En; [|wp_step; do 2 f_equal].
    - eapply wp_update; [apply lookup_insert_eq|]. unfold set_store. cbn. rewrite insert_insert_eq. do 2 f_equal. apply Hadm. unfold admitted_request. by rewrite En.
    - apply Hadm. unfold admitted_request. by rewrite En. }
  intros _ ? ->. set (s3 := mkSched _ _ _ _ _ _).
  assert (mid P (run ++ [i]) skip wait (Datatypes.S (length run)) t s3) as Hm3.
  { apply (mid_move _ _ _ _ _ _ _ _ _ _ _ Hm Hmax Hq); [apply Hm|..]; unfold admitted_request; (destruct (sched_log_stats cfg); case_match; done). }
  assert (request_id (sr_req (with_req (admitted_request now c) q)) = request_id (sr_req q1)) as Hid
    by (unfold q1, admitted_request; cbn; destruct (sched_log_stats cfg); case_match; done).
  eapply wp_mono; [eapply wp_schedule_encoder; [eapply (mid_schedule _ _ _ _ _ _ _ i _ _ n);
    [exact Hm3| | |apply lookup_insert_eq|lia|lia|exact Ht1| | | |by rewrite <-Ht5]|]|by intros ? ? [? _]|done].
  - rewrite firstn_all2 by (rewrite length_app; cbn; lia). apply elem_of_app. right. by left.
  - intros Hi. apply (mid_submseteq _ _ _ _ _ _ _ _ Hm) in Hi. rewrite firstn_all in Hi.
    apply m_nodup, NoDup_app in Hm as (_ & Hd & _). apply (Hd i Hi), elem_of_app. right. by left.
  - rewrite Hid, <-Ht2. done.
  - rewrite Hid, <-Ht3. done.
  - rewrite <-Ht4. done.
  - apply elem_of_app. right. by left.
Qed.

Lemma wp_admit P run skip wait i t s q now :
  max_loras cfg = None -> (is_encoder_decoder cfg = true -> is_whisper cfg = true) ->
  mid P run skip (i :: wait) (length run) t s -> store s !! i = Some q -> ready_status (sr_req q) ->
  (0 < token_budget t)%Z -> length run < max_num_running_reqs cfg ->
  wp (admit_waiting cfg i now t)
     (fun v s' => match v with
        | Skip => chunked_prefill_enabled cfg = false /\ mid P run skip (i :: wait) (length run) t s'
        | Stop => mid P run skip (i :: wait) (length run) t s'
        | Admit t' => mid P (run ++ [i]) skip wait (Datatypes.S (length run)) t' s'
        end) Exc s.
Proof.
  intros Hlora Hwh Hm Hq Hst Hb Hmax. unfold admit_waiting.
  destruct (m_fresh _ _ _ _ _ _ _ Hm i q) as [_ Hc]; [by apply elem_of_app; right; left|done|].
  destruct (mid_known _ _ _ _ _ _ _ i Hm) as (q0 & Hq0 & Hid & Hpos); [by rewrite !elem_of_app; right; right; left|].
  assert (q0 = q) as -> by congruence. clear Hq0.
  wp_step. eapply wp_request; [exact Hq|]. rewrite Hc. cbn [Z.eqb]. wp_step. wp_step.
  apply (wp_on_resources _ (fun bn => bn.2 < num_tokens (sr_req q))).
  { eapply wp_mono; [apply law_computed, Hm| |done]. intros bn k [? HR]. split; [done|by apply HR]. }
  intros [bs hits] k0 Hk0 Hhits. cbn in Hhits. apply (mid_resources _ _ _ _ _ _ _ k0) in Hm; [|done].
  wp_step. set (n0 := (Z.of_nat (num_tokens (sr_req q)) - Z.of_nat hits)%Z).
  set (n1 := if ((0 <? long_prefill_token_threshold cfg)%Z && (long_prefill_token_threshold cfg <? n0)%Z) then long_prefill_token_threshold cfg else n0).
  cbv zeta. fold n1.
  assert (0 < n1)%Z as Hn1 by (subst n1 n0; case_match eqn:Et; [apply andb_true_iff in Et as [?%Z.ltb_lt _]; done|lia]).
  destruct (negb (chunked_prefill_enabled cfg) && (token_budget t <? n1)%Z) eqn:Ech.
  { wp_step. apply andb_true_iff in Ech as [?%negb_true_iff _]. done. }
  wp_step. apply wp_assertM; [apply Z.ltb_lt; lia|]. wp_step.
  eapply wp_mono; [apply wp_try_encoder, Hm| |done]. intros [[inputs n] b'] s' (k & -> & Hk & Hn2 & Hn3). cbn in Hn2, Hn3.
  apply (mid_resources _ _ _ _ _ _ _ k) in Hm; [|done]. destruct (Z.eqb_spec n 0) as [->|Hne]; [by wp_step|].
  wp_step. apply (wp_mono _ (fun _ s' => s' = set_resources k (set_resources k0 s)) _ Exc); [| |done].
  { destruct (is_encoder_decoder cfg && has_encoder_inputs (sr_req q)) eqn:Ee; [|by wp_step].
    apply andb_true_iff in Ee as [Ee _]. wp_step. apply wp_assertM; [by apply Hwh|]. by wp_step. }
  intros enc ? ->. wp_step. apply wp_on_resources'; [by apply law_allocate|]. intros blocks k1 Hk1.
  apply (mid_resources _ _ _ _ _ _ _ k1) in Hm; [|done]. destruct blocks as [blocks|]; [|by wp_step].
  wp_step. eapply wp_mono; [eapply wp_move_to_running; [done|exact Hm|done..|]| |done]; [|intros t' s' Hm'; by wp_step].
  specialize (Hn3 ltac:(lia)). lia.
Qed.

(** [seen] was taken from the front of a line: [adm] was admitted and [sk] was skipped, each in its order. *)
Inductive took : list nat -> list nat -> list nat -> Prop :=
| took_nil : took [] [] []
| took_admit i seen adm sk : took seen adm sk -> took (i :: seen) (i :: adm) sk
| took_skip i seen adm sk : took seen adm sk -> took (i :: seen) adm (i :: sk).

Lemma took_all seen adm : took seen adm [] -> adm = seen.
Proof. remember [] as sk eqn:Hsk. induction 1; [done|f_equal; auto|done]. Qed.

Lemma mid_unblock P run skip wait i idx t s q : mid P run skip (i :: wait) idx t s -> store s !! i = Some q ->
  mid P run skip (i :: wait) idx t (set_store (<[i := with_req (set_status WAITING) q]> (store s)) s).
Proof.
  intros Hm Hq. assert (i ∈ skip ++ i :: wait) as Hi by (apply elem_of_app; right; by left).
  assert (i ∉ run) as Hn by (apply m_nodup, NoDup_app in Hm as (_ & Hd & _); intros Hr; by apply (Hd i)).
  eapply mid_update; [done..|by intros ?| |].
  - intros _ j _ Hj. destruct Hn. by eapply list_elem_of_lookup_2.
  - intros _. destruct (m_fresh _ _ _ _ _ _ _ Hm i q Hi Hq) as [_ Hc]. split; [by left|exact Hc].
Qed.

Lemma wp_waiting_loop P ready now :
  policy cfg = FCFS -> max_loras cfg = None -> (is_encoder_decoder cfg = true -> is_whisper cfg = true) ->
  forall fuel run skip wait t s, length wait < fuel -> mid P run skip wait (length run) t s ->
  wp (waiting_loop cfg fuel ready now t)
     (fun t' s' => exists seen adm sk wait', wait = seen ++ wait' /\ took seen adm sk /\
        mid P (run ++ adm) (reverse sk ++ skip) wait' (length (run ++ adm)) t' s' /\
        (chunked_prefill_enabled cfg = true -> (forall i, ready i = true) -> sk = [])) Exc s.
Proof.
  intros Hpol Hlora Hwh. induction fuel as [|fuel IH]; intros run skip wait t s Hf Hm; [lia|]. cbn [waiting_loop].
  assert (forall s', mid P run skip wait (length run) t s' -> exists seen adm sk wait', wait = seen ++ wait' /\ took seen adm sk /\
        mid P (run ++ adm) (reverse sk ++ skip) wait' (length (run ++ adm)) t s' /\
        (chunked_prefill_enabled cfg = true -> (forall i, ready i = true) -> sk = [])) as Hstop.
  { intros s' Hm'. exists [], [], [], wait. rewrite app_nil_r. split_and!; [done|constructor|done|done]. }
  do 2 wp_step. rewrite (m_wait _ _ _ _ _ _ _ Hm), (m_run _ _ _ _ _ _ _ Hm).
  destruct (negb (queue_bool (FCFSRequestQueue wait) && (0 <? token_budget t)%Z)) eqn:Hgo; [wp_step; by apply Hstop|].
  apply negb_false_iff, andb_true_iff in Hgo as [Hw Hb%Z.ltb_lt]. destruct wait as [|i wait]; [done|]. clear Hw.
  destruct (Nat.eqb_spec (length run) (max_num_running_reqs cfg)) as [|Hmax]; [wp_step; by apply Hstop|].
  assert (length run < max_num_running_reqs cfg) as Hmax' by (pose proof (m_max _ _ _ _ _ _ _ Hm); lia). clear Hmax.
  wp_step. eapply wp_lift; [done|].
  assert (i ∈ skip ++ i :: wait) as Hin by (apply elem_of_app; right; by left).
  destruct (mid_known _ _ _ _ _ _ _ i Hm) as (q & Hq & _); [by apply elem_of_app; right|].
  destruct (m_fresh _ _ _ _ _ _ _ Hm i q Hin Hq) as [Hst _].
  wp_step. eapply wp_request; [exact Hq|]. wp_step. apply wp_assertM; [by destruct Hst as [-> | [-> | ->]]|].
  wp_step. set (fsm := bool_decide (status (sr_req q) = WAITING_FOR_FSM)).
  apply (wp_mono _ (fun _ s1 => mid P run skip (i :: wait) (length run) t s1 /\ exists q1, store s1 !! i = Some q1 /\
    (fsm && negb (ready i) = false -> ready_status (sr_req q1))) _ Exc); [| |done].
  { destruct (fsm && ready i) eqn:Ef.
    - eapply wp_update; [exact Hq|]. split; [by apply mid_unblock|]. eexists. split; [apply lookup_insert_eq|]. intros _. by left.
    - wp_step. split; [done|]. exists q. split; [done|]. intros Ef'. unfold fsm in *. destruct Hst as [Hs|[Hs|Hs]]; [by left| |by right].
      rewrite Hs, bool_decide_eq_true_2 in Ef, Ef' by done. by destruct (ready i). }
  intros _ s1 (Hm1 & q1 & Hq1 & Hrs). unfold lora_blocked. rewrite Hlora, orb_false_r. wp_step.
  apply (wp_mono _ (fun v s' => match v with
        | Skip => (chunked_prefill_enabled cfg = false \/ ready i = false) /\ mid P run skip (i :: wait) (length run) t s'
        | Stop => mid P run skip (i :: wait) (length run) t s'
        | Admit t' => mid P (run ++ [i]) skip wait (Datatypes.S (length run)) t' s'
        end) _ Exc); [| |done].
  { destruct (fsm && negb (ready i)) eqn:Ef; [wp_step; apply andb_true_iff in Ef as [_ ?%negb_true_iff]; auto|].
    eapply wp_mono; [eapply wp_admit; eauto| |done]. intros [| |t'] s'; [intros [? ?]; auto|done|done]. }
  intros [| |t1] s2 Hv; [|wp_step; by apply Hstop|].
  - destruct Hv as [Hsk Hm2]. wp_step. unfold skip_waiting, pop_waiting. do 4 wp_step.
    eapply wp_lift; [rewrite (m_wait _ _ _ _ _ _ _ Hm2); reflexivity|]. cbn beta iota. do 6 wp_step.
    eapply wp_lift; [rewrite (m_skip _ _ _ _ _ _ _ Hm2); reflexivity|]. wp_step.
    eapply wp_mono; [apply (IH run (i :: skip) wait); [cbn in Hf; lia|by apply mid_skip_head]| |done].
    intros t' s' (seen & adm & sk & wait' & -> & Htook & Hm' & Hno). exists (i :: seen), adm, (i :: sk), wait'.
    split_and!; [done|by constructor| |intros Hc Hr; destruct Hsk; [congruence|by rewrite Hr in *]].
    by rewrite reverse_cons, <-app_assoc.
  - eapply wp_mono; [apply (IH (run ++ [i]) skip wait); [cbn in Hf; lia|by rewrite length_app, Nat.add_comm]| |done].
    intros t' s' (seen & adm & sk & wait' & -> & Htook & Hm' & Hno). exists (i :: seen), (i :: adm), sk, wait'.
    rewrite <-app_assoc in Hm'. split_and!; [done|by constructor|done|done].
Qed.

(** ** [schedule] *)

(** Between steps: nothing is skipped or scheduled. *)
Definition sched_inv (P : Prop) (run wait : list nat) (s : S) : Prop := mid P run [] wait 0 (new_step cfg) s.

(** How a step changes the lines: preempted requests go back to the front of the waiting line, requests are taken from its
    front, and those that are skipped come back in the opposite order. *)
Definition lines_moved (run wait run' wait' adm sk : list nat) : Prop :=
  exists run1 seen rest, run ++ wait = run1 ++ seen ++ rest /\ took seen adm sk /\ run' = run1 ++ adm /\ wait' = reverse sk ++ rest.

Lemma mid_put_back P run skip wait idx t s : mid P run skip wait idx t s ->
  mid P run [] (skip ++ wait) idx (st_skipped (FCFSRequestQueue []) t) (set_waiting (FCFSRequestQueue (skip ++ wait)) s).
Proof. intros []. by split. Qed.

Lemma wp_schedule_requests P run wait s ready now :
  policy cfg = FCFS -> max_loras cfg = None -> (is_encoder_decoder cfg = true -> is_whisper cfg = true) ->
  sched_inv P run wait s ->
  wp (schedule_requests cfg ready now)
     (fun t s' => exists run' wait' idx adm sk, mid P run' [] wait' idx (st_skipped (FCFSRequestQueue []) t) s' /\
        lines_moved run wait run' wait' adm sk /\
        (chunked_prefill_enabled cfg = true -> (forall i, ready i = true) -> sk = [])) Exc s.
Proof.
  intros Hpol Hlora Hwh Hm. unfold schedule_requests. do 2 wp_step. rewrite (m_run _ _ _ _ _ _ _ Hm). wp_step.
  eapply wp_mono; [apply (wp_running_loop P now Hpol _ 0 run wait); [lia|exact Hm]| |done].
  intros t1 s1 (run1 & wait1 & idx & Hm1 & Heq). unfold record_loras. rewrite Hlora. do 3 wp_step.
  apply (wp_mono _ (fun t s2 => exists seen adm sk rest, wait1 = seen ++ rest /\ took seen adm sk /\
    (exists idx, mid P (run1 ++ adm) (reverse sk) rest idx t s2) /\
    (chunked_prefill_enabled cfg = true -> (forall i, ready i = true) -> sk = [])) _ Exc); [| |done].
  { case_bool_decide.
    - do 2 wp_step. rewrite (m_wait _ _ _ _ _ _ _ Hm1). cbn [queue_len queue_items].
      eapply wp_mono; [apply (wp_waiting_loop P ready now Hpol Hlora Hwh _ run1 [] wait1); [apply Nat.lt_succ_diag_r|by eapply mid_end]| |done].
      intros t2 s2 (seen & adm & sk & rest & Hw & Htook & Hm2 & Hno). rewrite app_nil_r in Hm2. exists seen, adm, sk, rest. eauto.
    - wp_step. exists [], [], [], wait1. rewrite app_nil_r. split_and!; [done|constructor|by exists idx|done]. }
  intros t2 s2 (seen & adm & sk & rest & -> & Htook & [idx2 Hm2] & Hno). wp_step.
  assert (lines_moved run wait (run1 ++ adm) (reverse sk ++ rest) adm sk) as Hlines by (by exists run1, seen, rest).
  rewrite (m_skip _ _ _ _ _ _ _ Hm2). destruct (queue_bool (FCFSRequestQueue (reverse sk))) eqn:Eq.
  - unfold on_waiting. do 3 wp_step. eapply wp_lift; [rewrite (m_wait _ _ _ _ _ _ _ Hm2); reflexivity|]. cbn beta iota. do 2 wp_step.
    exists (run1 ++ adm), (reverse sk ++ rest), idx2, adm, sk. split_and!; [|done|done].
    rewrite put_back_fcfs, reverse_involutive. by apply mid_put_back.
  - do 2 wp_step. assert (sk = []) as -> by (apply Nat.ltb_ge in Eq; cbn [queue_len queue_items] in Eq;
      apply length_zero_iff_nil; rewrite <-length_reverse; unfold queue_len in Eq; cbn [queue_items] in Eq; lia).
    exists (run1 ++ adm), rest, idx2, adm, []. split_and!; [|done|done]. cbn in Hm2. eapply mid_core; [exact Hm2|].
    split; cbn; try done. symmetry. by apply (m_skip _ _ _ _ _ _ _ Hm2).
Qed.

Lemma sched_inv_after P P' run wait run' wait' idx t s s' :
  policy cfg = FCFS -> sched_inv P' run wait s -> mid P run' [] wait' idx t s' -> sched_inv False run' wait' s'.
Proof.
  intros Hpol Hs []. pose proof (m_budget_nonneg _ _ _ _ _ _ _ Hs) as Hb. cbn in Hb. unfold sched_inv, new_step.
  rewrite Hpol. split; try done; cbn.
  - intros id. split; [by intros ?%elem_of_nil|]. by intros (i & q & Hi%elem_of_nil & _).
  - constructor.
  - by intros id ?%elem_of_nil.
  - lia.
Qed.

Lemma wp_make_new t s l : (forall i, i ∈ l -> exists q, store s !! i = Some q /\ is_Some (dict_get (request_id (sr_req q)) (req_to_new_blocks t))) ->
  wp (make_new_request_data l t)
     (fun out s' => s' = s /\ Forall2 (fun i e => exists q, store s !! i = Some q /\ e.1 = request_id (sr_req q)) l out) Exc s.
Proof.
  induction l as [|i l IH]; intros Hl; cbn [make_new_request_data]; [by wp_step|].
  destruct (Hl i) as (q & Hq & b & Hb); [by left|]. wp_step. eapply wp_request; [exact Hq|]. wp_step. unfold blocks_for. rewrite Hb. do 2 wp_step.
  eapply wp_mono; [apply IH; intros j Hj; apply Hl; by right| |done]. intros out s' [-> Hout]. wp_step. split; [done|]. constructor; eauto.
Qed.

Lemma wp_make_cached resumed t s l :
  (forall i, i ∈ l -> exists q, store s !! i = Some q /\ is_Some (dict_get (request_id (sr_req q)) (req_to_new_blocks t)) /\
     is_Some (dict_get (request_id (sr_req q)) (num_scheduled_tokens t))) ->
  wp (make_cached_request_data cfg resumed l t)
     (fun out s' => s' = s /\ Forall2 (fun i e => exists q, store s !! i = Some q /\ cr_req_id e = request_id (sr_req q)) l out) Exc s.
Proof.
  induction l as [|i l IH]; intros Hl; cbn [make_cached_request_data]; [by wp_step|].
  destruct (Hl i) as (q & Hq & [b Hb] & [n Hn]); [by left|]. wp_step. eapply wp_request; [exact Hq|]. rewrite Hn. do 3 wp_step.
  unfold blocks_for. rewrite Hb. do 2 wp_step.
  eapply wp_mono; [apply IH; intros j Hj; apply Hl; by right| |done]. intros out s' [-> Hout]. wp_step. split; [done|]. constructor; eauto.
Qed.

(** The identifiers belong to running requests. *)
Definition ids_running (run : list nat) (s : S) (l : list (string * Z)) : Prop :=
  forall id, id ∈ l.*1 -> exists i, i ∈ run /\ requests s !! id = Some i.

(** Updates that only touch the progress of running requests. *)
Lemma sched_inv_progress run wait s i q c sp p ca : sched_inv False run wait s -> i ∈ run -> store s !! i = Some q ->
  sched_inv False run wait (set_store (<[i := with_req (set_progress c sp p ca) q]> (store s)) s).
Proof.
  intros Hs Hi Hq. eapply mid_update; [exact Hs|done|done|done|..].
  - intros _. by eapply m_status.
  - done.
  - intros Hw. apply m_nodup, NoDup_app in Hs as (_ & Hd & _). by destruct (Hd i Hi).
Qed.

Lemma wp_advance l run wait s : sched_inv False run wait s -> ids_running run s l ->
  wp (advance_computed l) (fun _ s' => sched_inv False run wait s' /\ requests s' = requests s) Exc s.
Proof.
  induction l as [|[id n] l IH] in s |- *; intros Hs Hl; cbn [advance_computed]; [by wp_step|].
  destruct (Hl id) as (i & Hi & Hr); [by left|]. do 2 wp_step. rewrite Hr.
  destruct (mid_known _ _ _ _ _ _ _ i Hs) as (q & Hq & _); [by apply elem_of_app; left|].
  wp_step. eapply wp_update; [exact Hq|]. wp_step. eapply wp_request; [apply lookup_insert_eq|].
  wp_step. set (s1 := set_store _ s).
  assert (sched_inv False run wait s1) as Hs1 by
    exact (sched_inv_progress _ _ _ _ _ (num_computed_tokens (sr_req q) + n) (spec_token_ids (sr_req q)) (num_output_placeholders (sr_req q))
      (num_cached_tokens (sr_req q)) Hs Hi Hq).
  apply (wp_mono _ (fun _ s2 => sched_inv False run wait s2 /\ requests s2 = requests s) _ Exc); [| |done].
  { destruct (has_encoder_inputs _); [|by wp_step]. apply wp_on_resources'; [apply law_free_inputs, Hs1|]. intros _ k Hk.
    split; [|done]. by apply mid_resources. }
  intros _ s2 [Hs2 Hreq]. eapply wp_mono; [apply IH; [done|]| |done].
  - intros id' Hid'. rewrite Hreq. apply Hl. by right.
  - intros _ s3 [? ->]. done.
Qed.

Lemma wp_placeholders l run wait s : sched_inv False run wait s -> ids_running run s l ->
  wp (add_placeholders l) (fun _ s' => sched_inv False run wait s' /\ requests s' = requests s) Exc s.
Proof.
  induction l as [|[id n] l IH] in s |- *; intros Hs Hl; cbn [add_placeholders]; [by wp_step|].
  destruct (Hl id) as (i & Hi & Hr); [by left|]. do 2 wp_step. rewrite Hr.
  destruct (mid_known _ _ _ _ _ _ _ i Hs) as (q & Hq & _); [by apply elem_of_app; left|].
  wp_step. eapply wp_request; [exact Hq|]. wp_step. assert (ids_running run s l) as Hl' by (intros id' ?; apply Hl; by right).
  apply (wp_mono _ (fun _ s2 => sched_inv False run wait s2 /\ requests s2 = requests s) _ Exc); [| |done].
  { case_match; [|by wp_step]. eapply wp_update; [exact Hq|]. split; [|done].
    exact (sched_inv_progress _ _ _ _ _ (num_computed_tokens (sr_req q)) (spec_token_ids (sr_req q)) (num_output_placeholders (sr_req q) + 1)
      (num_cached_tokens (sr_req q)) Hs Hi Hq). }
  intros _ s2 [Hs2 Hreq]. eapply wp_mono; [apply IH; [done|]| |done].
  - intros id'. rewrite Hreq. apply Hl'.
  - intros _ s3 [? ->]. done.
Qed.

Lemma mid_data P run wait idx t s i : mid P run [] wait idx t s -> i ∈ scheduled t ->
  exists q, store s !! i = Some q /\ is_Some (dict_get (request_id (sr_req q)) (req_to_new_blocks t)) /\
    is_Some (dict_get (request_id (sr_req q)) (num_scheduled_tokens t)).
Proof.
  intros Hm Hi. apply (mid_submseteq _ _ _ _ _ _ _ _ Hm) in Hi as Hr. apply elem_of_take in Hr as (k & Hr%list_elem_of_lookup_2 & _).
  destruct (mid_known _ _ _ _ _ _ _ i Hm) as (q & Hq & _); [by apply elem_of_app; left|].
  pose proof (proj2 (mid_key _ _ _ _ _ _ _ i q Hm Hr Hq) Hi) as Hid. exists q.
  split_and!; [done|by apply (m_blocks _ _ _ _ _ _ _ Hm)|by apply dict_get_some].
Qed.

Definition output_ids (out : SchedulerOutput) : list string := (fst <$> so_new_reqs out) ++ (cr_req_id <$> so_cached_reqs out).

(** The identifiers of scheduled requests are those with a token count. *)
Lemma ids_exact P run wait idx t s (ids : list string) l : mid P run [] wait idx t s -> l ≡ₚ scheduled t ->
  Forall2 (fun i id => exists q, store s !! i = Some q /\ id = request_id (sr_req q)) l ids -> ids ≡ₚ (num_scheduled_tokens t).*1.
Proof.
  intros Hm Hl Hf. assert (NoDup l) as Hnd.
  { rewrite Hl. eapply submseteq_nodup; [apply Hm|]. eapply sublist_NoDup; [|apply sublist_take]. by apply m_nodup, NoDup_app in Hm as [? _]. }
  assert (forall i, i ∈ l -> exists q, known s i q) as Hk.
  { intros i Hi. rewrite Hl in Hi. apply (mid_submseteq _ _ _ _ _ _ _ _ Hm), elem_of_take in Hi as (k & Hr%list_elem_of_lookup_2 & _).
    eapply mid_known; [done|]. by apply elem_of_app; left. }
  apply NoDup_Permutation; [|apply Hm|].
  - clear Hl. induction Hf as [|i id l ids (q & Hq & ->) Hf IH]; [constructor|]. apply NoDup_cons in Hnd as [Hni Hnd].
    constructor; [|apply IH; [done|intros j Hj; apply Hk; by right]].
    intros Hin. apply (list_elem_of_lookup_1 ids) in Hin as [j Hj]. eapply Forall2_lookup_r in Hf as (i' & Hi' & q' & Hq' & Heq); [|exact Hj].
    apply list_elem_of_lookup_2 in Hi'. destruct (Hk i) as (q1 & Hk1); [by left|]. destruct (Hk i') as (q2 & Hk2); [by right|].
    assert (q1 = q /\ q2 = q') as [-> ->] by (destruct Hk1, Hk2; split; congruence). by rewrite (known_inj _ _ _ _ _ Hk1 Hk2 Heq) in Hni.
  - intros id. rewrite (m_keys _ _ _ _ _ _ _ Hm). setoid_rewrite <-Hl. split.
    + intros [j Hj]%list_elem_of_lookup_1. eapply Forall2_lookup_r in Hf as (i & Hi%list_elem_of_lookup_2 & q & Hq & ->); [|exact Hj]. eauto.
    + intros (i & q & [j Hj]%list_elem_of_lookup_1 & Hq & ->). eapply Forall2_lookup_l in Hf as (id & Hid%list_elem_of_lookup_2 & q' & Hq' & ->); [|exact Hj].
      by simplify_eq.
Qed.

(** What one call of [schedule] promises about its output. *)
Record good_output (P : Prop) (run' : list nat) (out : SchedulerOutput) (s' : S) : Prop := {
  go_ids : output_ids out ≡ₚ (so_num_scheduled_tokens out).*1;
  go_nodup : NoDup (so_num_scheduled_tokens out).*1;
  go_running : ids_running run' s' (so_num_scheduled_tokens out);
  go_total : so_total_num_scheduled_tokens out = total_scheduled (so_num_scheduled_tokens out);
  go_budget : (so_total_num_scheduled_tokens out <= max_num_scheduled_tokens cfg)%Z;
  go_counts : P -> Forall (fun e => 0 < e.2)%Z (so_num_scheduled_tokens out)
}.

Lemma wp_update_after run wait s l : sched_inv False run wait s -> ids_running run s l ->
  wp (update_after_schedule cfg l) (fun _ s' => sched_inv False run wait s' /\ ids_running run s' l) Exc s.
Proof.
  intros Hs Hl. unfold update_after_schedule. wp_step. eapply wp_mono; [by apply (wp_advance l run wait)| |done].
  intros _ s1 [Hs1 Hreq]. do 2 wp_step. assert (sched_inv False run wait (set_finished ∅ s1)) as Hs2 by (by destruct Hs1).
  assert (ids_running run s1 l) as Hl1 by (intros id; rewrite Hreq; apply Hl).
  destruct (async_scheduling cfg); [|by wp_step]. eapply wp_mono; [by apply (wp_placeholders l run wait)| |done].
  intros _ s3 [Hs3 Hreq3]. split; [done|]. intros id Hid. rewrite Hreq3. by apply Hl1.
Qed.

Lemma wp_schedule P run wait s ready now :
  policy cfg = FCFS -> max_loras cfg = None -> (is_encoder_decoder cfg = true -> is_whisper cfg = true) ->
  sched_inv P run wait s ->
  wp (schedule cfg ready now)
     (fun out s' => exists run' wait' adm sk, sched_inv False run' wait' s' /\ good_output P run' out s' /\
        lines_moved run wait run' wait' adm sk /\
        (chunked_prefill_enabled cfg = true -> (forall i, ready i = true) -> sk = [])) Exc s.
Proof.
  intros Hpol Hlora Hwh Hs. unfold schedule. wp_step.
  eapply wp_mono; [by apply (wp_schedule_requests P run wait)| |done]. intros t s1 (run' & wait' & idx & adm & sk & Hm & Hlines & Hno).
  cbv zeta. pose proof (m_budget _ _ _ _ _ _ _ Hm) as Hbt. pose proof (m_budget_nonneg _ _ _ _ _ _ _ Hm) as Hb. cbn [st_skipped token_budget num_scheduled_tokens] in Hbt, Hb.
  wp_step. apply wp_assertM; [apply Z.leb_le; lia|]. wp_step. apply wp_assertM; [by apply Z.leb_le|]. do 2 wp_step.
  rewrite (m_run _ _ _ _ _ _ _ Hm). wp_step. apply wp_assertM; [apply Nat.leb_le, Hm|]. wp_step. apply wp_assertM.
  { apply Nat.leb_le. pose proof (submseteq_length _ _ (m_sched _ _ _ _ _ _ _ Hm)) as Hl. rewrite length_take in Hl. unfold scheduled in Hl.
    rewrite !length_app in Hl. cbn in Hl. lia. }
  wp_step. apply (wp_mono _ (fun _ s2 => exists k, s2 = set_resources k s1 /\ res_inv k) _ Exc); [| |done].
  { destruct run' as [|i run''] eqn:Er; [wp_step; exists (resources s1); split; [by destruct s1|apply Hm]|].
    destruct (mid_known _ _ _ _ _ _ _ i Hm) as (q & Hq & _); [by left|].
    wp_step. eapply wp_request; [exact Hq|]. apply wp_on_resources'; [apply law_common, Hm|]. intros _ k Hk. by exists k. }
  intros common ? (k & -> & Hk). apply (mid_resources _ _ _ _ _ _ _ k) in Hm; [|done]. set (s2 := set_resources k s1) in *.
  wp_step. eapply wp_mono; [apply wp_make_new| |done].
  { intros i Hi. destruct (mid_data _ _ _ _ _ _ i Hm) as (q & ? & ? & ?); [cbn; unfold scheduled; cbn; rewrite !elem_of_app; auto|eauto]. }
  intros new ? [-> Hnew]. wp_step. eapply wp_mono; [apply wp_make_cached| |done].
  { intros i Hi. eapply mid_data in Hm; [exact Hm|]. unfold scheduled. cbn. rewrite !elem_of_app. auto. }
  intros cached ? [-> Hcached]. wp_step. eapply wp_mono; [apply wp_make_cached| |done].
  { intros i Hi. eapply mid_data in Hm; [exact Hm|]. unfold scheduled. cbn. rewrite !elem_of_app. auto. }
  intros resumed ? [-> Hres]. wp_step. apply wp_on_resources'; [by apply law_freed|]. intros freed k1 Hk1.
  wp_step. apply wp_on_resources'; [by apply law_events|]. intros _ k2 Hk2.
  pose proof (mid_resources _ _ _ _ _ _ _ k2 (mid_resources _ _ _ _ _ _ _ k1 Hm Hk1) Hk2) as Hm2. set (s3 := set_resources k2 _) in *.
  assert (ids_running run' s3 (num_scheduled_tokens t)) as Hids.
  { intros id (i & q & Hi & Hq & ->)%(m_keys _ _ _ _ _ _ _ Hm2). apply (mid_submseteq _ _ _ _ _ _ _ _ Hm2), elem_of_take in Hi as (j & Hr%list_elem_of_lookup_2 & _).
    exists i. split; [done|]. destruct (mid_known _ _ _ _ _ _ _ i Hm2) as (q' & Hq' & Hid & _); [by apply elem_of_app; left|]. congruence. }
  wp_step. eapply wp_mono; [by apply (wp_update_after run' wait'); [eapply sched_inv_after|]| |done].
  intros _ s4 [Hs4 Hids4]. wp_step. exists run', wait', adm, sk. split_and!; [done| |done|done].
  split; cbn; [|apply Hm|done|done|lia|apply Hm].
  eapply (ids_exact _ _ _ _ _ _ _ (scheduled_new_reqs t ++ scheduled_running_reqs t ++ scheduled_resumed_reqs t) Hm).
  { unfold scheduled. cbn. solve_Permutation. }
  unfold output_ids. cbn. rewrite fmap_app. repeat apply Forall2_app; apply Forall2_fmap_r; done.
Qed.
End facts.

(** ** The smallest manager

    It counts the tokens each request holds and refuses when they exceed its slots; it has no prefix cache and no encoder
    inputs.  It raises nothing.  The examples run on it. *)
Module Counting.
Record Counter := mkCounter { slots : Z; tokens_held : gmap string Z }.

Definition total_held (m : gmap string Z) : Z := map_fold (fun _ n acc => (n + acc)%Z) 0%Z m.

Definition count_allocate (r : Request) (n : Z) (hits : nat) : M Counter (option Blocks) :=
  c ← get;
  let m := <[request_id r := (num_computed_tokens r + Z.of_nat hits + n)%Z]> (tokens_held c) in
  if (total_held m <=? slots c)%Z then modify (fun c => mkCounter (slots c) m) ;; mret (Some [])
  else mret None.

Definition count_free (r : Request) : M Counter unit :=
  modify (fun c => mkCounter (slots c) (delete (request_id r) (tokens_held c))).

#[export] Instance counting : SchedResources Counter := {
  res_allocate_slots r n hits _ _ _ _ := count_allocate r n hits;
  res_get_computed_blocks _ := mret ([], 0);
  res_create_empty_block_list _ := [];
  res_free := count_free;
  res_get_blocks _ _ := [];
  res_cache_blocks _ _ := mret tt;
  res_get_num_common_prefix_blocks _ _ := mret [];
  res_take_events := mret tt;
  res_try_schedule_encoder_inputs _ _ n b := mret ([], n, b);
  res_allocate_encoder_inputs _ _ := mret tt;
  res_free_encoder _ := mret tt;
  res_free_encoder_inputs _ := mret tt;
  res_get_freed_mm_hashes := mret []
}.

#[export] Instance counting_laws : SchedResourceLaws Counter (fun _ => False).
Proof.
  refine {| res_inv := fun _ => True |}; intros; unfold wp; cbn; try done.
  - unfold count_allocate, get, modify, mbind, M_bind, mret, M_ret. by destruct (_ <=? _)%Z.
  - lia.
Defined.
End Counting.
