(* ===== verification/EngineCore.v ===== *)
(** The engine's loop, [EngineCore] of [vllm/v1/engine/core.py], around the scheduler: requests come in and are aborted,
    a step schedules, executes the model and updates the requests from its output.  The executor is a parameter of each
    step.  The theorems are about every run of these operations. *)
From stdpp Require Import base gmap sets list strings.
From Stdlib Require Import ZArith Lia.
From S2P Require Import Prelude BlockQueue Request RequestQueue EncoderCache Scheduler SchedulerFacts.
Open Scope nat_scope.

Section engine.
Context {K : Type} `{SchedResources K}.
Context (cfg : SchedulerConfig) (hf : option hasher).
Abbreviation S := (Scheduler K).

(** The executor: the model's output for a scheduled batch, or an exception. *)
Definition Executor : Type := SchedulerOutput -> outcome ModelRunnerOutput.

(** [add_request]: [tasks] tells whether the pooling task of the request is supported. *)
Definition engine_add_request (supported : bool) (i : nat) (now : Z) : M S unit :=
  r ← request i;
  (if bool_decide (is_Some (pooling_params r)) && negb supported then raise ValueError else mret tt) ;;
  add_new_request cfg i now.

Definition abort_requests (ids : list string) : M S unit := finish_requests ids FINISHED_ABORTED.

(** [step]: the outputs and whether the model was executed. *)
Definition step (ready : nat -> bool) (now : Z) (execute_model : Executor) : M S (list EngineCoreOutput * bool) :=
  s ← get;
  if negb (has_requests s) then mret ([], false)
  else
    scheduler_output ← schedule cfg ready now;
    model_output ← lift_out (execute_model scheduler_output);
    outs ← update_from_output cfg hf scheduler_output model_output;
    mret (outs, (0 <? so_total_num_scheduled_tokens scheduler_output)%Z).

(** [post_step]: the draft tokens the executor has, if any. *)
Definition post_step (use_spec_decode model_executed : bool) (drafts : option (list (string * list Z)))
    (should_advance : nat -> bool) (validate : nat -> list Z -> list Z) : M S unit :=
  if use_spec_decode && model_executed then
    match drafts with Some d => update_draft_token_ids should_advance validate d | None => mret tt end
  else mret tt.

(** The engine before its first request. *)
Definition engine_init (k : K) : S := mkSched ∅ ∅ (create_request_queue (policy cfg)) [] ∅ k.

(** A request that has just been made. *)
Definition new_request_ok (q : SReq) : Prop :=
  (status (sr_req q) = WAITING \/ status (sr_req q) = WAITING_FOR_FSM) /\ num_computed_tokens (sr_req q) = 0%Z /\ 0 < num_tokens (sr_req q).

(** The completed calls: a new object with a new identifier is added, a set of requests is aborted, the engine steps,
    draft tokens arrive. *)
Inductive engine_step (s : S) : S -> Prop :=
| engine_adds supported i q now s' : store s !! i = None -> requests s !! request_id (sr_req q) = None -> new_request_ok q ->
    engine_add_request supported i now (set_store (<[i := q]> (store s)) s) = (Ok tt, s') -> engine_step s s'
| engine_aborts ids s' : NoDup ids -> abort_requests ids s = (Ok tt, s') -> engine_step s s'
| engine_steps ready now execute_model x s' : step ready now execute_model s = (Ok x, s') -> engine_step s s'
| engine_drafts sd ex drafts adv val s' : post_step sd ex drafts adv val s = (Ok tt, s') -> engine_step s s'.
End engine.

(** ** What holds between the parts of an update

    The requests of [out] are still in the lines but no longer known, or about to be forgotten; those of [pend] are known
    whether or not they are in a line, and may be in any state. *)
Section facts.
Context {K : Type} `{SchedResources K} {E : pyexc -> Prop} `{!SchedResourceLaws K E}.
Context (cfg : SchedulerConfig) (hf : option hasher).
Abbreviation S := (Scheduler K).
Abbreviation T := (fun (_ : pyexc) (_ : S) => True).

Record line_inv (run wait out pend : list nat) (s : S) : Prop := {
  l_run : running s = run;
  l_wait : waiting s = FCFSRequestQueue wait;
  l_nodup : NoDup (run ++ wait);
  l_known : forall i, (i ∈ run ++ wait /\ i ∉ out) \/ i ∈ pend -> exists q, known s i q;
  l_requests : forall id i, requests s !! id = Some i ->
    ((i ∈ run ++ wait /\ i ∉ out) \/ i ∈ pend) /\ exists q, store s !! i = Some q /\ request_id (sr_req q) = id;
  l_status : forall i q, i ∈ run -> i ∉ out -> store s !! i = Some q -> status (sr_req q) = RUNNING;
  l_fresh : forall i q, i ∈ wait -> i ∉ out -> store s !! i = Some q -> fresh_ok (sr_req q);
  l_max : length run <= max_num_running_reqs cfg;
  l_res : res_inv (resources s)
}.

Lemma line_of_inv P run wait s : sched_inv cfg P run wait s -> line_inv run wait [] [] s.
Proof.
  intros []. split; try done.
  - intros i [[Hi _]|Hi%elem_of_nil]; [by apply m_known|done].
  - intros id i (Hi & Hq)%m_requests. split; [|done]. left. split; [done|]. apply not_elem_of_nil.
  - intros i q Hi _. by apply m_status.
  - intros i q Hi _. by apply m_fresh.
Qed.

Lemma inv_of_line (P : Prop) run wait s : policy cfg = FCFS -> (0 <= max_num_scheduled_tokens cfg)%Z ->
  (P -> forall i q, i ∈ run -> store s !! i = Some q -> progress_ok cfg (sr_req q)) ->
  line_inv run wait [] [] s -> sched_inv cfg P run wait s.
Proof.
  intros Hpol Hmax HP []. unfold sched_inv, new_step. rewrite Hpol. split; try done; cbn.
  - intros i Hi. apply l_known0. left. split; [done|]. apply not_elem_of_nil.
  - intros id i ([[Hi _]|Hi%elem_of_nil] & Hq)%l_requests0; [done|done].
  - intros i q Hi. apply l_status0; [done|apply not_elem_of_nil].
  - intros HP' j i q _ Hj%list_elem_of_lookup_2. by apply HP.
  - intros i q Hi. apply l_fresh0; [done|apply not_elem_of_nil].
  - intros id. split; [by intros ?%elem_of_nil|]. by intros (i & q & Hi%elem_of_nil & _).
  - constructor.
  - by intros id ?%elem_of_nil.
  - lia.
Qed.

Lemma line_resources run wait out pend s k : line_inv run wait out pend s -> res_inv k -> line_inv run wait out pend (set_resources k s).
Proof. intros [] Hk. by split. Qed.

(** Requests may be set aside. *)
Lemma line_detach (D : list nat) run wait out pend s : line_inv run wait out pend s -> (forall i, i ∈ D -> i ∈ run ++ wait /\ i ∉ out) ->
  line_inv run wait (D ++ out) (D ++ pend) s.
Proof.
  intros [] HD. split; try done.
  - intros i [[Hi Ho]|Hi]; [apply l_known0; left; set_solver|]. apply elem_of_app in Hi as [Hi|Hi]; [|by apply l_known0; right].
    apply l_known0. left. by apply HD.
  - intros id i (Hi & Hq)%l_requests0. split; [|done]. destruct (decide (i ∈ D)); [right; set_solver|]. destruct Hi as [[? ?]|?]; [left|right]; set_solver.
  - intros i q Hi Ho. apply l_status0; [done|set_solver].
  - intros i q Hi Ho. apply l_fresh0; [done|set_solver].
Qed.

Lemma line_attach i q run wait out pend s : line_inv run wait (i :: out) (i :: pend) s -> store s !! i = Some q ->
  i ∈ run ++ wait -> i ∉ out -> (i ∈ run -> status (sr_req q) = RUNNING) -> (i ∈ wait -> fresh_ok (sr_req q)) -> line_inv run wait out pend s.
Proof.
  intros [] Hq Hi Ho Hst Hfr. split; try done.
  - intros j [[Hj Hjo]|Hj]; [|apply l_known0; right; by right]. destruct (decide (j = i)) as [->|Hne]; [apply l_known0; right; by left|].
    apply l_known0. left. split; [done|]. by apply not_elem_of_cons.
  - intros id j ([[Hj Hjo]|Hj] & Hq')%l_requests0; (split; [|done]); [left; set_solver|].
    apply elem_of_cons in Hj as [->|Hj]; [by left|by right].
  - intros j q' Hj Hjo Hq'. destruct (decide (j = i)) as [->|Hne]; [simplify_eq; by apply Hst|]. eapply l_status0; [done| |done]. by apply not_elem_of_cons.
  - intros j q' Hj Hjo Hq'. destruct (decide (j = i)) as [->|Hne]; [simplify_eq; by apply Hfr|]. eapply l_fresh0; [done| |done]. by apply not_elem_of_cons.
Qed.

(** A request that was set aside may be written to. *)
Lemma line_update i q q' run wait out pend s : line_inv run wait out pend s -> store s !! i = Some q -> i ∈ out ->
  request_id (sr_req q') = request_id (sr_req q) -> num_tokens (sr_req q) <= num_tokens (sr_req q') ->
  line_inv run wait out pend (set_store (<[i := q']> (store s)) s).
Proof.
  intros [] Hq Hi Hid Hnt. split; try done; cbn.
  - intros j (q0 & Hq0 & Hr0 & Ht0)%l_known0. destruct (decide (j = i)) as [->|Hne].
    + exists q'. simplify_eq. split_and!; [apply lookup_insert_eq|cbn; by rewrite Hid|lia].
    + exists q0. split_and!; [by cbn; rewrite lookup_insert_ne|done|done].
  - intros id j (Hj & q0 & Hq0 & Hr0)%l_requests0. split; [done|]. destruct (decide (j = i)) as [->|Hne].
    + exists q'. simplify_eq. split; [apply lookup_insert_eq|done].
    + exists q0. by rewrite lookup_insert_ne.
  - intros j q0 Hj Hjo. rewrite lookup_insert_ne by (by intros ->). by apply l_status0.
  - intros j q0 Hj Hjo. rewrite lookup_insert_ne by (by intros ->). by apply l_fresh0.
Qed.

(** Requests that were set aside may leave the lines. *)
Lemma line_remove (D : list nat) run wait out pend s : line_inv run wait out pend s -> (forall i, i ∈ D -> i ∈ out) ->
  line_inv (filter (fun i => i ∉ D) run) (filter (fun i => i ∉ D) wait) out pend
    (set_waiting (FCFSRequestQueue (filter (fun i => i ∉ D) wait)) (set_running (filter (fun i => i ∉ D) run) s)).
Proof.
  intros [] HD. split; try done; cbn.
  - rewrite <-filter_app. eapply sublist_NoDup; [done|apply sublist_filter].
  - intros i Hi. destruct (l_known0 i) as (q & Hq); [|exists q; exact Hq]. rewrite <-filter_app, list_elem_of_filter in Hi. naive_solver.
  - intros id i (Hi & Hq)%l_requests0. split; [|done]. rewrite <-filter_app, list_elem_of_filter. naive_solver.
  - intros i q [_ Hi]%list_elem_of_filter. by apply l_status0.
  - intros i q [_ Hi]%list_elem_of_filter. by apply l_fresh0.
  - pose proof (length_filter (fun i => i ∉ D) run). lia.
Qed.

(** The requests that have left the lines need not be listed. *)
Lemma line_forget run wait out s : line_inv run wait out [] s -> (forall i, i ∈ out -> i ∉ run ++ wait) -> line_inv run wait [] [] s.
Proof.
  intros [] Ho. assert (forall i, i ∈ run ++ wait -> i ∉ out) as Ho' by (intros i Hi Hi'; by apply (Ho i)). split; try done.
  - intros i [[Hi _]|Hi%elem_of_nil]; [|done]. apply l_known0. left. auto.
  - intros id i ([[Hi _]|Hi%elem_of_nil] & Hq)%l_requests0; [|done]. split; [|done]. left. split; [done|apply not_elem_of_nil].
  - intros i q Hi _. apply l_status0; [done|]. apply Ho', elem_of_app. by left.
  - intros i q Hi _. apply l_fresh0; [done|]. apply Ho', elem_of_app. by right.
Qed.

(** ** The primitives, whatever may be raised *)

Lemma wp_assert_any (b : bool) (Q : unit -> S -> Prop) s : (b = true -> Q tt s) -> wp (assertM b) Q T s.
Proof. destruct b; intros HQ; [by wp_step; apply HQ|done]. Qed.

Lemma wp_index_or {A} (d : A) l i (Q : A -> S -> Prop) s : (forall a, Q a s) -> wp (index_or d l i) Q T s.
Proof. intros HQ. unfold index_or. destruct l; [by wp_step|]. case_match; by wp_step. Qed.

Lemma wp_resources_any {A} (m : M K A) (Q : A -> S -> Prop) s : wp m (fun _ => res_inv) (fun e _ => E e) (resources s) ->
  (forall a k, res_inv k -> Q a (set_resources k s)) -> wp (on_resources m) Q T s.
Proof. intros Hm HQ. eapply wp_mono; [by apply wp_on_resources'|done|done]. Qed.

(** ** Freeing *)

Lemma known_line i run wait out pend s : line_inv run wait out pend s -> i ∈ pend -> exists q, known s i q.
Proof. intros Hs Hi. apply Hs. by right. Qed.

Definition requests_shrink (s s' : S) : Prop := forall id i, requests s' !! id = Some i -> requests s !! id = Some i.

Lemma line_delete i q run wait out pend s : line_inv run wait (i :: out) (i :: pend) s -> store s !! i = Some q -> i ∉ pend ->
  line_inv run wait (i :: out) pend (set_requests (delete (request_id (sr_req q)) (requests s)) s).
Proof.
  intros Hs Hq Hp. destruct (known_line i _ _ _ _ _ Hs) as (q0 & Hq0 & Hid & _); [by left|]. simplify_eq. destruct Hs. split; try done; cbn.
  - intros j Hj. destruct (l_known0 j) as (q' & Hq' & Hr' & Ht'); [destruct Hj; [by left|right; by right]|].
    exists q'. split_and!; [done| |done]. cbn. rewrite lookup_delete_ne; [done|]. intros Heq. rewrite Heq in Hid. assert (j = i) as -> by congruence.
    destruct Hj as [[_ Hj]|Hj]; [|done]. apply Hj. by left.
  - intros id j [Hne Hj]%lookup_delete_Some. apply l_requests0 in Hj as (Hj & q' & Hq' & <-). split; [|by exists q'].
    destruct Hj as [Hj|[->|Hj]%elem_of_cons]; [by left|by simplify_eq|by right].
Qed.

Lemma wp_free_request i q run wait out pend s : line_inv run wait (i :: out) (i :: pend) s -> store s !! i = Some q -> i ∉ pend ->
  wp (free_request i) (fun _ s' => line_inv run wait (i :: out) pend s' /\ store s' = store s /\ requests_shrink s s') T s.
Proof.
  intros Hs Hq Hp. unfold free_request, free_blocks. wp_step. eapply wp_request; [exact Hq|]. wp_step. apply wp_assert_any. intros Hfin.
  wp_step. apply wp_resources_any; [apply law_free_encoder, Hs|]. intros _ k Hk. do 2 wp_step. wp_step. eapply wp_request; [exact Hq|].
  wp_step. apply wp_assert_any. intros _. wp_step. apply wp_resources_any; [by apply law_free|]. intros _ k' Hk'. do 2 wp_step. cbn [requests set_resources set_finished].
  destruct (requests s !! request_id (sr_req q)); [|by wp_step]. wp_step. split_and!; [|done|].
  - apply (line_resources _ _ _ _ _ k') in Hs; [|done]. pose proof (line_delete i q _ _ _ _ _ Hs Hq Hp) as Hd. by destruct Hd.
  - intros id j Hj. cbn in Hj. by apply lookup_delete_Some in Hj as [_ Hj].
Qed.

(** ** Stopping *)

Lemma check_stop_keeps q m po b q' : check_stop q m po = Ok (b, q') ->
  request_id (sr_req q') = request_id (sr_req q) /\ num_tokens (sr_req q') = num_tokens (sr_req q) /\ (b = false -> q' = q).
Proof.
  unfold check_stop. intros Hc. repeat (case_match; simplify_eq/=; try by split_and!).
  all: destruct (assert_ _); simplify_eq/=; repeat (case_match; simplify_eq/=; try by split_and!).
  all: by split_and!.
Qed.

(** A request that has stopped stops again, whatever the pooler says. *)
Lemma check_stop_again q m b po q' q'' : check_stop q m None = Ok (true, q') -> check_stop q' m po = Ok (b, q'') -> b = true.
Proof.
  unfold check_stop. destruct (_ || _) eqn:Ec.
  { intros [= <-]. cbn. unfold num_tokens, num_output_tokens in *. cbn. rewrite Ec. by intros [= <-]. }
  destruct (pooling_params (sr_req q)) eqn:Epp; [done|].
  destruct (decide (is_Some (sampling_params (sr_req q)))) as [Hs|Hs]; [rewrite bool_decide_eq_true_2 by done|by rewrite bool_decide_eq_false_2]. cbn.
  destruct (last (output_token_ids (sr_req q))) as [t|] eqn:El; [|done].
  destruct (negb _ && _) eqn:Ei; [|destruct (bool_decide (t ∈ _)) eqn:Et; [|by intros [=]]]; intros [= <-]; cbn; unfold num_tokens, num_output_tokens in *;
    cbn in *; rewrite Ec, Epp, bool_decide_eq_true_2 by done; cbn; rewrite El, Ei; [|rewrite Et]; by intros [= <-].
Qed.

Lemma append_keeps toks r r' : append_output_token_ids hf toks r = Ok r' ->
  request_id r' = request_id r /\ num_tokens r <= num_tokens r' /\ status r' = status r.
Proof.
  unfold append_output_token_ids. intros Ha.
  assert (num_tokens r <= length (all_token_ids r ++ toks)) as Hl by (rewrite length_app; unfold num_tokens; lia).
  destruct hf as [h|]; [destruct (h _)|]; simplify_eq/=; by split_and!.
Qed.

Lemma append_and_check_keeps m toks : forall q ts b q', append_and_check hf m toks q = Ok (ts, b, q') ->
  request_id (sr_req q') = request_id (sr_req q) /\ num_tokens (sr_req q) <= num_tokens (sr_req q') /\
  (b = false -> status (sr_req q') = status (sr_req q)) /\
  (b = true -> forall po b' q'', check_stop q' m po = Ok (b', q'') -> b' = true).
Proof.
  induction toks as [|t toks IH]; intros q ts b q' Ha; cbn [append_and_check] in Ha; [by simplify_eq|].
  apply bind_Ok in Ha as (r & Hr & Ha). apply append_keeps in Hr as (Hr1 & Hr2 & Hr3).
  apply bind_Ok in Ha as ([st q1] & Hc & Ha). pose proof (check_stop_keeps _ _ _ _ _ Hc) as (Hc1 & Hc2 & Hc3). cbn in Hc1, Hc2.
  destruct st; simplify_eq/=.
  - split_and!; [congruence|lia|done|]. intros _ po b' q''. by eapply check_stop_again.
  - specialize (Hc3 eq_refl). subst q1. apply bind_Ok in Ha as ([[ts' b'] q1] & Ha & Hb). apply IH in Ha as (I1 & I2 & I3 & I4). cbn in *. simplify_eq.
    split_and!; [congruence|lia|intros Hb; rewrite I3 by done; done|done].
Qed.

(** ** One request of the loop *)

(** The request is set aside: it keeps its identity, whatever is written to it. *)
Record aside (run wait out pend : list nat) (i : nat) (s0 s : S) (q : SReq) : Prop := {
  a_line : line_inv run wait (i :: out) (i :: pend) s;
  a_req : requests s = requests s0;
  a_obj : store s !! i = Some q
}.

Lemma aside_write q' run wait out pend i s0 s q : aside run wait out pend i s0 s q ->
  request_id (sr_req q') = request_id (sr_req q) -> num_tokens (sr_req q) <= num_tokens (sr_req q') ->
  aside run wait out pend i s0 (set_store (<[i := q']> (store s)) s) q'.
Proof. intros [] Hid Hnt. split; [eapply line_update; [done|done|by left|done|done]|done|apply lookup_insert_eq]. Qed.

Lemma wp_aside_update f run wait out pend i s0 s q (Q : unit -> S -> Prop) : aside run wait out pend i s0 s q ->
  request_id (f (sr_req q)) = request_id (sr_req q) -> num_tokens (sr_req q) <= num_tokens (f (sr_req q)) ->
  (forall s', aside run wait out pend i s0 s' (with_req f q) -> Q tt s') -> wp (update i f) Q T s.
Proof. intros Ha Hid Hnt HQ. eapply wp_update; [apply Ha|]. apply HQ. by eapply aside_write. Qed.

Definition stops_again (q : SReq) : Prop := forall po b q', check_stop q (max_model_len cfg) po = Ok (b, q') -> b = true.

Lemma stops_again_placeholders n q : stops_again q -> stops_again (with_req (set_placeholders n) q).
Proof.
  intros Hq po b q' Hc. enough (exists q'', check_stop q (max_model_len cfg) po = Ok (b, q'')) as [q'' Hc'] by (by apply Hq in Hc').
  unfold check_stop in *. unfold num_tokens, num_output_tokens in *. cbn in *. destruct (_ || _); [naive_solver|].
  destruct (pooling_params _); [destruct po; naive_solver|]. destruct (assert_ _); [|done]. cbn in *.
  destruct (last _); [|done]. repeat (case_match; [naive_solver|]). naive_solver.
Qed.

Lemma wp_update_request_with_output toks run wait out pend i s0 s q : aside run wait out pend i s0 s q ->
  wp (update_request_with_output cfg hf i toks)
     (fun x s' => exists q', aside run wait out pend i s0 s' q' /\ (x.2 = false -> status (sr_req q') = status (sr_req q)) /\
        (x.2 = true -> stops_again q')) T s.
Proof.
  intros Ha. unfold update_request_with_output, sreq, put_sreq. do 2 wp_step. wp_step. rewrite (a_obj _ _ _ _ _ _ _ _ Ha). do 2 wp_step.
  apply wp_lift_any; [|done]. intros [[ts b] q1] (Hid & Hnt & Hst & Hag)%append_and_check_keeps. do 2 wp_step.
  apply (aside_write q1) in Ha as Ha1; [|done|done]. wp_step. set (s1 := set_store _ s) in *.
  apply (wp_mono _ (fun _ s' => exists q', aside run wait out pend i s0 s' q' /\ (b = false -> status (sr_req q') = status (sr_req q)) /\
        (b = true -> stops_again q')) _ T); [|by intros _ s' Hs'; wp_step|done].
  destruct (async_scheduling cfg); [|wp_step; exists q1; split_and!; [done|done|]; intros Hb po b' q''; by apply Hag].
  wp_step. eapply wp_aside_update; [exact Ha1|done|done|]. intros s2 Ha2. wp_step. eapply wp_request; [apply Ha2|]. wp_step. apply wp_assert_any. intros _.
  assert (exists q', aside run wait out pend i s0 s2 q' /\ (b = false -> status (sr_req q') = status (sr_req q)) /\ (b = true -> stops_again q')) as Hpost.
  { eexists. split; [exact Ha2|]. split; [exact Hst|]. intros Hb. apply stops_again_placeholders. intros po b' q''. by apply Hag. }
  case_match; [|by wp_step]. apply wp_resources_any; [apply law_cache, (a_line _ _ _ _ _ _ _ _ Ha2)|]. intros _ k Hk.
  destruct Hpost as (q' & [] & Hq'). exists q'. split; [|done]. split; [by apply line_resources|done|done].
Qed.

(** The request at the end of its turn: forgotten, or running. *)
Definition ended (run wait stopped : list nat) (i : nat) (s0 : S) (b : bool) (s : S) (q : SReq) : Prop :=
  if b then line_inv run wait (i :: stopped) [] s /\ requests_shrink s0 s /\ store s !! i = Some q
  else aside run wait stopped [] i s0 s q /\ status (sr_req q) = RUNNING.

Lemma wp_ended_update f run wait stopped i s0 b s q (Q : unit -> S -> Prop) : ended run wait stopped i s0 b s q ->
  request_id (f (sr_req q)) = request_id (sr_req q) -> num_tokens (f (sr_req q)) = num_tokens (sr_req q) -> status (f (sr_req q)) = status (sr_req q) ->
  (forall s', ended run wait stopped i s0 b s' (with_req f q) -> Q tt s') -> wp (update i f) Q T s.
Proof.
  intros He Hid Hnt Hst HQ. unfold ended in *. destruct b.
  - destruct He as (Hl & Hsh & Hq). eapply wp_update; [exact Hq|]. apply HQ. split_and!; [|done|apply lookup_insert_eq].
    eapply line_update; [done|done|by left|done|cbn; lia].
  - destruct He as [Ha Hr]. eapply wp_aside_update; [exact Ha|done|lia|]. intros s' Ha'. apply HQ. split; [done|cbn; by rewrite Hst].
Qed.

Lemma ended_result run wait stopped i s0 b s q st : ended run wait stopped i s0 b s q -> i ∈ run -> i ∉ stopped -> i ∉ wait -> st = RUNNING ->
  requests_shrink s0 s /\ match (if b then Some (bool_decide (st = RUNNING)) else None) with
     | Some true => line_inv run wait (i :: stopped) [] s
     | Some false => False
     | None => line_inv run wait stopped [] s
     end.
Proof.
  intros He Hi Hns Hw ->. unfold ended in He. destruct b; [by destruct He as (? & ? & _)|]. destruct He as [[Hl Hr Hq] Hst].
  split; [intros id j; by rewrite Hr|]. eapply line_attach; [exact Hl|exact Hq|by apply elem_of_app; left|done|done|done].
Qed.

(** One scheduled request that runs: it goes on, or it stopped and is forgotten. *)
Lemma wp_process_output out mo id i run wait stopped s :
  line_inv run wait stopped [] s -> requests s !! id = Some i -> i ∈ run ->
  wp (process_output cfg hf out mo id i)
     (fun x s' => requests_shrink s s' /\ match x.2 with
        | Some true => line_inv run wait (i :: stopped) [] s'
        | Some false => False
        | None => line_inv run wait stopped [] s'
        end) T s.
Proof.
  intros Hs Hid Hi. destruct (l_requests _ _ _ _ _ Hs _ _ Hid) as ([[Hi' Hns]|?%elem_of_nil] & q & Hq & Hqid); [|done].
  pose proof (l_status _ _ _ _ _ Hs _ _ Hi Hns Hq) as Hst.
  assert (i ∉ wait) as Hw by (pose proof (l_nodup _ _ _ _ _ Hs) as (_ & Hd & _)%NoDup_app; by apply Hd).
  assert (aside run wait stopped [] i s s q) as Ha.
  { split; [apply (line_detach [i]); [done|intros j ->%list_elem_of_singleton; done]|done|done]. }
  unfold process_output. wp_step. case_match; [wp_step|by wp_step]. wp_step. apply wp_index_or. intros generated. wp_step.
  apply (wp_mono _ (fun _ s1 => exists q1, aside run wait stopped [] i s s1 q1 /\ status (sr_req q1) = RUNNING) _ T); [| |done].
  { unfold reject_drafts. destruct (dict_get _ _) as [[|d ds]|]; try (wp_step; by exists q).
    eapply wp_aside_update; [exact Ha|done|done|]. intros s1 Ha1. eexists. split; [exact Ha1|exact Hst]. }
  intros _ s1 (q1 & Ha1 & Hst1). wp_step. eapply wp_request; [apply Ha1|]. rewrite Hst1. wp_step.
  apply (wp_mono _ (fun x s2 => exists q2, aside run wait stopped [] i s s2 q2 /\ (x.2 = false -> status (sr_req q2) = RUNNING) /\
        (x.2 = true -> stops_again q2)) _ T); [| |done].
  { destruct generated; [wp_step; exists q1; by split_and!|]. rewrite <-Hst1. by apply wp_update_request_with_output. }
  intros [toks b] s2 (q2 & Ha2 & Hrun2 & Hag2). cbn in Hrun2, Hag2. wp_step.
  apply (wp_mono _ (fun x s3 => exists q3, aside run wait stopped [] i s s3 q3 /\ (x.2 = false -> status (sr_req q3) = RUNNING)) _ T); [| |done].
  { destruct (pooler_outputs mo) as [|p ps]; [wp_step; exists q2; by split_and!|]. wp_step. apply wp_index_or. intros po.
    unfold sreq, put_sreq. do 2 wp_step. wp_step. rewrite (a_obj _ _ _ _ _ _ _ _ Ha2). do 2 wp_step. apply wp_lift_any; [|done]. intros [b' q3] Hc.
    pose proof (check_stop_keeps _ _ _ _ _ Hc) as (Hc1 & Hc2 & Hc3). do 3 wp_step. exists q3. split; [eapply aside_write; [exact Ha2|done|lia]|].
    cbn. intros ->. rewrite (Hc3 eq_refl) in *. apply Hrun2. destruct b; [by specialize (Hag2 eq_refl _ _ _ Hc)|done]. }
  intros [po b3] s3 (q3 & Ha3 & Hrun3). cbn in Hrun3. unfold sreq. do 2 wp_step. wp_step. rewrite (a_obj _ _ _ _ _ _ _ _ Ha3). do 2 wp_step.
  apply (wp_mono _ (fun _ s4 => ended run wait stopped i s b3 s4 q3) _ T); [| |done].
  { unfold ended. destruct b3; [|wp_step; split; [done|by apply Hrun3]]. eapply wp_mono; [eapply wp_free_request; [apply Ha3|apply Ha3|apply not_elem_of_nil]| |done].
    intros _ s4 (Hl4 & Hst4 & Hsh4). split_and!; [done| |by rewrite Hst4; apply Ha3]. intros id' j Hj%Hsh4. by rewrite (a_req _ _ _ _ _ _ _ _ Ha3) in Hj. }
  intros _ s4 He4. wp_step.
  apply (wp_mono _ (fun _ s5 => exists q5, ended run wait stopped i s b3 s5 q5) _ T); [| |done].
  { destruct (num_nans mo !! id); [|wp_step; by exists q3]. eapply wp_ended_update; [exact He4|done..|]. intros s5 He5. eauto. }
  intros _ s5 [q5 He5]. destruct (_ || _).
  - wp_step. eapply wp_ended_update; [exact He5|done..|]. intros s6 He6. wp_step. by eapply ended_result.
  - wp_step. apply wp_assert_any. intros _. wp_step. by eapply ended_result.
Qed.

(** ** Operations on the scheduler between schedules *)

Definition ids_run (run : list nat) (s : S) (l : list (string * Z)) : Prop :=
  forall id i, id ∈ l.*1 -> requests s !! id = Some i -> i ∈ run.

Lemma ids_run_shrink run s s' l : ids_run run s l -> requests_shrink s s' -> ids_run run s' l.
Proof. intros Hl Hsh id i Hid Hi. apply (Hl id); auto. Qed.

Lemma wp_output_loop out mo l run wait : forall stopped s,
  line_inv run wait stopped [] s -> ids_run run s l -> NoDup stopped -> stopped ⊆ run ->
  wp (output_loop cfg hf out mo l)
     (fun x s' => x.2 = [] /\ exists D, D ≡ₚ x.1.2 ++ stopped /\ line_inv run wait D [] s' /\ NoDup D /\ D ⊆ run) T s.
Proof.
  induction l as [|[id n] l IH]; intros stopped s Hs Hids Hnd Hsub; cbn [output_loop].
  { wp_step. split; [done|]. by exists stopped. }
  assert (ids_run run s l) as Hids' by (intros id' i' ?; apply Hids; by right).
  wp_step. apply wp_assert_any. intros _. do 2 wp_step. destruct (requests s !! id) as [i|] eqn:Hid; [|by apply IH].
  assert (i ∈ run) as Hi by (apply (Hids id); [by left|done]).
  destruct (l_requests _ _ _ _ _ Hs _ _ Hid) as ([[_ Hns]|?%elem_of_nil] & _); [|done].
  wp_step. eapply wp_mono; [by apply (wp_process_output out mo id i run wait stopped)| |done].
  intros [os st] s1 [Hsh Hst]. cbn in Hst. wp_step.
  destruct st as [[|]|]; [|done|].
  - eapply wp_mono; [apply (IH (i :: stopped) s1); [done|by eapply ids_run_shrink|by constructor|set_solver]| |done].
    intros [[os' rl] wl] s2 [Hw (D & HD & HD')]. wp_step. cbn in *. split; [done|]. exists D. split; [|done]. rewrite HD. solve_Permutation.
  - eapply wp_mono; [apply (IH stopped s1); [done|by eapply ids_run_shrink|done|done]| |done].
    intros [[os' rl] wl] s2 Hx. wp_step. exact Hx.
Qed.

Lemma remove_first_filter i l : NoDup l -> i ∈ l -> remove_first i l = Some (filter (fun j => j ∉ [i]) l).
Proof.
  induction 1 as [|j l Hj Hnd IH]; [by intros ?%elem_of_nil|]. intros Hi. cbn [remove_first].
  destruct (Nat.eqb_spec j i) as [->|Hne].
  - rewrite filter_cons_False by (intros Hn; apply Hn; by left). rewrite filter_all; [done|].
    intros x Hx ->%list_elem_of_singleton. done.
  - rewrite filter_cons_True by (by intros ->%list_elem_of_singleton).
    rewrite IH by (by apply elem_of_cons in Hi as [?|?]). done.
Qed.

Lemma remove_all_filter (l D : list nat) : NoDup l -> D ⊆ l -> remove_all l D = filter (fun i => i ∉ D) l.
Proof.
  intros Hnd HD. destruct D as [|i [|j D]]; cbn [remove_all]; [|rewrite remove_first_filter; [done|done|apply HD; by left]|done].
  symmetry. apply filter_all. intros x _. apply not_elem_of_nil.
Qed.

Lemma filter_notin_perm (D D' l : list nat) : D ≡ₚ D' -> filter (fun i => i ∉ D) l = filter (fun i => i ∉ D') l.
Proof. intros Hp. apply filter_ext_in. intros x _. by rewrite Hp. Qed.

Lemma wp_update_from_output out mo run wait s :
  line_inv run wait [] [] s -> ids_run run s (so_num_scheduled_tokens out) ->
  wp (update_from_output cfg hf out mo) (fun _ s' => exists run', line_inv run' wait [] [] s' /\ run' `sublist_of` run) T s.
Proof.
  intros Hs Hids. unfold update_from_output. wp_step.
  eapply wp_mono; [apply (wp_output_loop out mo _ run wait [] s); [done|done|constructor|apply list_subseteq_nil]| |done].
  intros [[os rl] wl] s1 [Hw (D & HD & Hl & Hnd & Hsub)]. cbn in Hw, HD. subst wl. rewrite app_nil_r in HD. do 2 wp_step. wp_step. wp_step. wp_step.
  pose proof (l_nodup _ _ _ _ _ Hl) as (Hndr & Hd & _)%NoDup_app.
  rewrite (l_run _ _ _ _ _ Hl), remove_all_filter by (done || by rewrite <-HD). rewrite <-(filter_notin_perm _ _ run HD).
  exists (filter (fun i => i ∉ D) run). split; [|apply sublist_filter].
  apply (line_remove D) in Hl as Hl'; [|done]. rewrite (filter_all (fun i => i ∉ D) wait) in Hl'
    by (intros x Hx Hx'; apply (Hd x); [by apply Hsub|done]).
  eapply (line_forget _ _ D).
  - destruct Hl'; split; try done. apply Hl.
  - intros i Hi. rewrite elem_of_app, list_elem_of_filter. intros [[? _]|Hi']; [done|]. apply (Hd i); [by apply Hsub|done].
Qed.

Lemma line_out_ext out' run wait out pend s : line_inv run wait out pend s -> (forall i, i ∈ out' <-> i ∈ out) -> line_inv run wait out' pend s.
Proof. intros [] Heq. split; try done; setoid_rewrite Heq; done. Qed.

(** The first pass of [finish_requests] finds requests of the two lines, each once. *)
Lemma wp_find_requests ids run wait s : line_inv run wait [] [] s -> NoDup ids ->
  wp (find_requests ids)
     (fun x s' => s' = s /\ x.1.1 ⊆ run /\ x.1.2 ⊆ wait /\ x.2 ≡ₚ x.1.1 ++ x.1.2 /\ NoDup x.2 /\
        forall i, i ∈ x.2 -> exists id, id ∈ ids /\ requests s !! id = Some i) T s.
Proof.
  intros Hs. induction ids as [|id ids IH]; intros Hnd; cbn [find_requests].
  { wp_step. cbn. split_and!; try done; [apply list_subseteq_nil..|constructor|by intros i ?%elem_of_nil]. }
  apply NoDup_cons in Hnd as [Hni Hnd]. do 2 wp_step. destruct (requests s !! id) as [i|] eqn:Hid.
  - destruct (l_requests _ _ _ _ _ Hs _ _ Hid) as ([[Hi _]|?%elem_of_nil] & q & Hq & Hqid); [|done].
    wp_step. eapply wp_request; [exact Hq|]. wp_step. eapply wp_mono; [by apply IH| |done].
    intros [[rl wl] valid] s' (-> & Hr & Hw & Hp & Hndv & Hv). cbn [fst snd] in *. wp_step.
    assert (i ∉ valid) as Hiv.
    { intros (id' & Hid' & Hi')%Hv. destruct (l_requests _ _ _ _ _ Hs _ _ Hi') as (_ & q' & Hq' & Hqid'). congruence. }
    assert (forall j, j ∈ i :: valid -> exists id0, id0 ∈ id :: ids /\ requests s !! id0 = Some j) as Hv'.
    { intros j [->|(id' & ? & ?)%Hv]%elem_of_cons; [exists id; split; [by left|done]|exists id'; split; [by right|done]]. }
    case_bool_decide as Hst; cbn; (split_and!; [done|..|by constructor|done]); [|done|by rewrite Hp|done| |rewrite Hp; solve_Permutation].
    + intros j [->|?]%elem_of_cons; [|by apply Hr]. apply elem_of_app in Hi as [?|Hi]; [done|].
      destruct (l_fresh _ _ _ _ _ Hs i q Hi) as [[Hf|[Hf|Hf]] _]; [apply not_elem_of_nil|done|congruence..].
    + intros j [->|?]%elem_of_cons; [|by apply Hw]. apply elem_of_app in Hi as [Hi|?]; [|done].
      destruct Hst. apply (l_status _ _ _ _ _ Hs i q Hi); [apply not_elem_of_nil|done].
  - eapply wp_mono; [by apply IH| |done]. intros x s' (-> & ? & ? & ? & ? & Hv). split_and!; try done.
    intros j (id' & ? & ?)%Hv. exists id'. split; [by right|done].
Qed.

Lemma wp_finish_all st l : forall run wait out s, line_inv run wait out l s -> l ⊆ out -> NoDup l ->
  wp (forM l (fun i => update i (set_status st) ;; free_request i)) (fun _ s' => line_inv run wait out [] s') T s.
Proof.
  induction l as [|i l IH]; intros run wait out s Hs Hsub Hnd; cbn [forM]; [by wp_step|]. apply NoDup_cons in Hnd as [Hni Hnd].
  destruct (known_line i _ _ _ _ _ Hs) as (q & Hq & _); [by left|]. wp_step. wp_step.
  assert (i ∈ out) as Hi by (apply Hsub; by left). assert (forall j, j ∈ i :: out <-> j ∈ out) as Hext by (intros j; rewrite elem_of_cons; naive_solver).
  eapply wp_update; [exact Hq|].
  eapply wp_mono; [eapply wp_free_request; [|apply lookup_insert_eq|done]| |done].
  - eapply line_out_ext; [|exact Hext]. eapply line_update; [exact Hs|exact Hq|done|done|done].
  - intros _ s1 (Hl1 & _). apply IH; [|set_solver|done]. eapply line_out_ext; [exact Hl1|]. intros j. by rewrite Hext.
Qed.

Lemma wp_finish_requests ids st run wait s : line_inv run wait [] [] s -> NoDup ids ->
  wp (finish_requests ids st) (fun _ s' => exists run' wait', line_inv run' wait' [] [] s') T s.
Proof.
  intros Hs Hnd. unfold finish_requests. wp_step. apply wp_assert_any. intros _. wp_step. eapply wp_mono; [by apply wp_find_requests| |done].
  intros [[rl wl] valid] ? (-> & Hr & Hw & Hp & Hndv & _). cbn in Hr, Hw, Hp, Hndv. do 2 wp_step.
  pose proof (l_nodup _ _ _ _ _ Hs) as (Hndr & Hd & Hndw)%NoDup_app.
  set (run' := filter (fun i => i ∉ valid) run). set (wait' := filter (fun i => i ∉ valid) wait).
  rewrite (l_run _ _ _ _ _ Hs), remove_all_filter by done.
  assert (filter (fun i => i ∉ rl) run = run') as -> by (apply filter_ext_in; intros x Hx; rewrite Hp, elem_of_app; naive_solver).
  assert (line_inv run' wait' valid valid (set_waiting (FCFSRequestQueue wait') (set_running run' s))) as Hl.
  { apply (line_remove valid); [|done]. pose proof (line_detach valid _ _ _ _ _ Hs) as Hdet. rewrite !app_nil_r in Hdet. apply Hdet.
    intros i Hi. rewrite Hp in Hi. apply elem_of_app in Hi. split; [apply elem_of_app; naive_solver|apply not_elem_of_nil]. }
  wp_step. apply (wp_mono _ (fun _ s1 => s1 = set_waiting (FCFSRequestQueue wait') (set_running run' s)) _ T); [| |done].
  - assert (wait' = filter (fun i => i ∉ wl) wait) as Hw' by (apply filter_ext_in; intros x Hx; rewrite Hp, elem_of_app; naive_solver).
    destruct wl as [|w wl].
    + wp_step. rewrite filter_all in Hw' by (intros; apply not_elem_of_nil). rewrite Hw', <-(l_wait _ _ _ _ _ Hs). by destruct s.
    + unfold on_waiting. do 3 wp_step. eapply wp_lift; [cbn [waiting set_running]; rewrite (l_wait _ _ _ _ _ Hs); reflexivity|]. wp_step. by rewrite Hw'.
  - intros _ ? ->. eapply wp_mono; [apply (wp_finish_all st valid); [exact Hl|done|done]| |done].
    intros u s2 Hl2. exists run', wait'. eapply line_forget; [exact Hl2|]. intros i Hi. unfold run', wait'. rewrite elem_of_app, !list_elem_of_filter. naive_solver.
Qed.

Lemma line_add i q f run wait s : line_inv run wait [] [] s -> store s !! i = None -> requests s !! request_id (sr_req q) = None ->
  new_request_ok q -> request_id (f (sr_req q)) = request_id (sr_req q) -> num_tokens (f (sr_req q)) = num_tokens (sr_req q) ->
  fresh_ok (f (sr_req q)) ->
  line_inv run (wait ++ [i]) [] [] (mkSched (<[i := with_req f q]> (store s)) (<[request_id (sr_req q) := i]> (requests s))
    (FCFSRequestQueue (wait ++ [i])) run (finished_req_ids s) (resources s)).
Proof.
  intros Hs Hi Hid (Hst & Hc & Ht) Hidf Hnt Hf. pose proof Hs as [].
  assert (forall j, j ∈ run ++ wait -> j <> i) as Hne.
  { intros j Hj ->. destruct (l_known0 i) as (q0 & Hq0 & _); [left; split; [done|apply not_elem_of_nil]|congruence]. }
  split; try done; cbn.
  - rewrite app_assoc. apply NoDup_app. split_and!; [done| |apply NoDup_singleton]. intros j Hj ->%list_elem_of_singleton. by destruct (Hne i).
  - intros j [[Hj _]|?%elem_of_nil]; [|done]. rewrite app_assoc in Hj. apply elem_of_app in Hj as [Hj| ->%list_elem_of_singleton].
    + destruct (l_known0 j) as (q0 & Hq0 & Hr0 & Ht0); [left; split; [done|apply not_elem_of_nil]|].
      exists q0. split_and!; [cbn; rewrite lookup_insert_ne; [done|apply not_eq_sym; by apply Hne]| |done].
      cbn. rewrite lookup_insert_ne; [done|]. intros Heq. congruence.
    + exists (with_req f q). split_and!; [apply lookup_insert_eq|cbn; rewrite Hidf; apply lookup_insert_eq|cbn; lia].
  - intros id j Hj. destruct (decide (request_id (sr_req q) = id)) as [<-|Hnid].
    + rewrite lookup_insert_eq in Hj. injection Hj as <-. split; [left; split; [set_solver|apply not_elem_of_nil]|].
      exists (with_req f q). by rewrite lookup_insert_eq.
    + rewrite lookup_insert_ne in Hj by done. apply l_requests0 in Hj as ([[Hj _]|?%elem_of_nil] & q0 & Hq0 & Hq0'); [|done].
      split; [left; split; [set_solver|apply not_elem_of_nil]|]. exists q0. rewrite lookup_insert_ne; [done|]. apply not_eq_sym. by apply Hne.
  - intros j q0 Hj Hjo. rewrite lookup_insert_ne by (apply not_eq_sym, Hne; set_solver). by apply l_status0.
  - intros j q0 Hj Hjo. apply elem_of_app in Hj as [Hj| ->%list_elem_of_singleton].
    + rewrite lookup_insert_ne by (apply not_eq_sym, Hne; set_solver). by apply l_fresh0.
    + rewrite lookup_insert_eq. by intros [= <-].
Qed.

Lemma wp_engine_add supported i q now run wait s : line_inv run wait [] [] s -> store s !! i = None ->
  requests s !! request_id (sr_req q) = None -> new_request_ok q ->
  wp (engine_add_request cfg supported i now) (fun _ s' => line_inv run (wait ++ [i]) [] [] s') T (set_store (<[i := q]> (store s)) s).
Proof.
  intros Hs Hi Hid Hq. unfold engine_add_request, add_new_request, on_waiting. wp_step. eapply wp_request; [apply lookup_insert_eq|].
  wp_step. case_match; [by wp_step|]. do 4 wp_step. wp_step. eapply wp_lift; [cbn; rewrite (l_wait _ _ _ _ _ Hs); reflexivity|]. wp_step.
  wp_step. eapply wp_request; [apply lookup_insert_eq|]. do 2 wp_step.
  pose proof (fun f => line_add i q f _ _ _ Hs Hi Hid Hq) as Hadd. destruct Hq as (Hst & Hc & Ht).
  assert (fresh_ok (sr_req q)) as Hf by (split; [tauto|done]).
  destruct (sched_log_stats cfg).
  - eapply wp_update; [apply lookup_insert_eq|]. specialize (Hadd (record_event QUEUED now) eq_refl eq_refl Hf).
    rewrite <-(l_run _ _ _ _ _ Hs) in Hadd at 2. unfold set_store. cbn. by rewrite insert_insert_eq.
  - wp_step. specialize (Hadd (fun r => r) eq_refl eq_refl Hf). rewrite <-(l_run _ _ _ _ _ Hs) in Hadd at 2. by destruct q.
Qed.

Lemma wp_update_draft adv val drafts run wait s : line_inv run wait [] [] s ->
  wp (update_draft_token_ids adv val drafts) (fun _ s' => line_inv run wait [] [] s') T s.
Proof.
  induction drafts as [|[id spec] drafts IH] in s |- *; intros Hs; cbn [update_draft_token_ids]; [by wp_step|]. do 2 wp_step.
  destruct (requests s !! id) as [i|] eqn:Hid; [|by apply IH].
  destruct (l_requests _ _ _ _ _ Hs _ _ Hid) as ([[Hi Hns]|?%elem_of_nil] & q & Hq & Hqid); [|done].
  assert (forall l s', s' = set_store (<[i := with_req (set_spec l) q]> (store s)) s -> line_inv run wait [] [] s') as Hset.
  { intros l ? ->. eapply (line_attach i (with_req (set_spec l) q)); [|apply lookup_insert_eq|done|done| |].
    - eapply line_update; [apply (line_detach [i] _ _ [] []); [exact Hs|by intros j ->%list_elem_of_singleton]|exact Hq|by left|done|done].
    - intros Hr. apply (l_status _ _ _ _ _ Hs i q Hr Hns Hq).
    - intros Hw. apply (l_fresh _ _ _ _ _ Hs i q Hw Hns Hq). }
  wp_step. eapply wp_request; [exact Hq|]. wp_step.
  apply (wp_mono _ (fun _ s' => line_inv run wait [] [] s') _ T); [|by intros _ s'; apply IH|done].
  destruct (is_finished _); [by wp_step|]. destruct spec; [|destruct (adv i)]; (eapply wp_update; [exact Hq|]; by eapply Hset).
Qed.

(** ** Runs of the engine *)

Lemma line_init k : policy cfg = FCFS -> res_inv k -> line_inv [] [] [] [] (engine_init cfg k).
Proof.
  intros Hpol Hk. unfold engine_init. rewrite Hpol. split; cbn; try done; try lia; try (by intros ? ? ?%elem_of_nil).
  - constructor.
  - intros i [[?%elem_of_nil _]|?%elem_of_nil]; done.
Qed.

Lemma wp_engine_step_call ready now ex run wait s :
  policy cfg = FCFS -> max_loras cfg = None -> (is_encoder_decoder cfg = true -> is_whisper cfg = true) -> (0 <= max_num_scheduled_tokens cfg)%Z ->
  line_inv run wait [] [] s -> wp (step cfg hf ready now ex) (fun _ s' => exists run' wait', line_inv run' wait' [] [] s') T s.
Proof.
  intros Hpol Hlora Hwh Hmax Hs. unfold step. do 2 wp_step. destruct (negb _); [wp_step; by exists run, wait|]. wp_step.
  eapply wp_mono; [apply (wp_schedule cfg False run wait); [done..|by apply inv_of_line]| |done].
  intros out s1 (run1 & wait1 & _ & _ & Hs1%line_of_inv & Hgo & _). wp_step. apply wp_lift_any; [|done]. intros mo _. wp_step.
  eapply wp_mono; [apply (wp_update_from_output out mo run1 wait1 s1 Hs1)| |done].
  - intros id i Hid Hi. destruct (go_running _ _ _ _ _ Hgo id Hid) as (i' & Hi' & Hr). congruence.
  - intros outs s2 (run2 & Hs2 & _). wp_step. by exists run2, wait1.
Qed.

Lemma engine_step_inv s s' run wait :
  policy cfg = FCFS -> max_loras cfg = None -> (is_encoder_decoder cfg = true -> is_whisper cfg = true) -> (0 <= max_num_scheduled_tokens cfg)%Z ->
  engine_step cfg hf s s' -> line_inv run wait [] [] s -> exists run' wait', line_inv run' wait' [] [] s'.
Proof.
  intros Hpol Hlora Hwh Hmax [sup i q now s1 Hi Hid Hq Hrun|ids s1 Hnd Hrun|ready now ex x s1 Hrun|sd ex drafts adv val s1 Hrun] Hs.
  - exists run, (wait ++ [i]). exact (wp_run_ok _ _ _ _ _ _ (wp_engine_add sup i q now _ _ _ Hs Hi Hid Hq) Hrun).
  - exact (wp_run_ok _ _ _ _ _ _ (wp_finish_requests ids _ _ _ _ Hs Hnd) Hrun).
  - exact (wp_run_ok _ _ _ _ _ _ (wp_engine_step_call ready now ex _ _ _ Hpol Hlora Hwh Hmax Hs) Hrun).
  - exists run, wait. unfold post_step in Hrun. destruct (sd && ex); [destruct drafts as [d|]|]; try by injection Hrun as <-.
    exact (wp_run_ok _ _ _ _ _ _ (wp_update_draft adv val d _ _ _ Hs) Hrun).
Qed.

Lemma engine_run_inv k s :
  policy cfg = FCFS -> max_loras cfg = None -> (is_encoder_decoder cfg = true -> is_whisper cfg = true) -> (0 <= max_num_scheduled_tokens cfg)%Z ->
  res_inv k -> rtc (engine_step cfg hf) (engine_init cfg k) s -> exists run wait, line_inv run wait [] [] s.
Proof.
  intros Hpol Hlora Hwh Hmax Hk Hrun. assert (exists run wait, line_inv run wait [] [] (engine_init cfg k)) as Hinit by (exists [], []; by apply line_init).
  induction Hrun as [|s s1 s2 Hstep _ IH]; [done|]. apply IH. destruct Hinit as (run & wait & Hs). by eapply engine_step_inv.
Qed.



(** C12: First come, first served: in every state the engine reaches, [schedule] takes the requests it admits from the
    front of the waiting queue in their order and puts those it preempts back in front of it; requests it skips return to
    the front in the opposite order.  When none can be skipped, the running list followed by the queue stays as it was. *)
Theorem fcfs_order k s ready now out s' :
  policy cfg = FCFS -> max_loras cfg = None -> (is_encoder_decoder cfg = true -> is_whisper cfg = true) -> (0 <= max_num_scheduled_tokens cfg)%Z ->
  res_inv k -> rtc (engine_step cfg hf) (engine_init cfg k) s -> schedule cfg ready now s = (Ok out, s') ->
  exists wait wait' adm sk, waiting s = FCFSRequestQueue wait /\ waiting s' = FCFSRequestQueue wait' /\
    lines_moved (running s) wait (running s') wait' adm sk /\
    (chunked_prefill_enabled cfg = true -> (forall i, ready i = true) -> running s' ++ wait' = running s ++ wait).
Proof.
  intros Hpol Hlora Hwh Hmax Hk Hrun Hsch. destruct (engine_run_inv k s) as (run & wait & Hs); [done..|].
  pose proof (wp_schedule cfg False run wait s ready now Hpol Hlora Hwh (inv_of_line False _ _ _ Hpol Hmax (fun f => False_ind _ f) Hs)) as Hw.
  destruct (wp_run_ok _ _ _ _ _ _ Hw Hsch) as (run' & wait' & adm & sk & Hi & _ & Hlines & Hno). exists wait, wait', adm, sk.
  rewrite (l_run _ _ _ _ _ Hs), (m_run _ _ _ _ _ _ _ _ Hi). split_and!; [apply Hs|apply Hi|done|].
  intros Hc Hr. destruct Hlines as (run1 & seen & rest & -> & Htook & -> & ->). rewrite (Hno Hc Hr) in *.
  apply took_all in Htook as ->. cbn. by rewrite <-app_assoc.
Qed.
End facts.

(** ** Examples

    Two requests of three and five tokens on a manager with eight slots, four tokens per step. *)
Module Examples.
Import Counting.

Definition ex_cfg : SchedulerConfig :=
  mkSchedConfig 2 4 16 FCFS 0 true 0 0 false false 0 None false false false.
Definition ex_req (id : string) (prompt : list Z) (prio arrival : Z) (lora : option LoRARequest) : SReq :=
  mkSReq (mkRequest id 0 prio (Some (mkSP (Some 8%Z) false None None)) None lora arrival WAITING false [] None 8 prompt [] prompt 0 [] 0 None [] [] (-1) 0 [])
    None true [] None.
Definition ex_a : SReq := ex_req "a" [1; 2; 3]%Z 0 0 None.
Definition ex_b : SReq := ex_req "b" [4; 5; 6; 7; 8]%Z 0 1 None.
Definition ex_start : Scheduler Counter := engine_init ex_cfg (mkCounter 8 ∅).
Definition ex_add (i : nat) (q : SReq) (s : Scheduler Counter) : Scheduler Counter :=
  (engine_add_request ex_cfg true i 0 (set_store (<[i := q]> (store s)) s)).2.
Definition ex_two : Scheduler Counter := ex_add 1 ex_b (ex_add 0 ex_a ex_start).

Lemma ex_reachable : rtc (engine_step ex_cfg None) ex_start ex_two.
Proof.
  assert (new_request_ok ex_a /\ new_request_ok ex_b) as [Ha Hb] by (split; (split_and!; [by left|done|cbn; lia])).
  eapply rtc_l; [apply (engine_adds ex_cfg None _ true 0 ex_a 0); [done|done|exact Ha|vm_compute; reflexivity]|].
  eapply rtc_l; [apply (engine_adds ex_cfg None _ true 1 ex_b 0); [done|done|exact Hb|vm_compute; reflexivity]|].
  vm_compute. apply rtc_refl.
Qed.

(** The first step computes all of "a" and one token of "b"; the model samples a token for "a". *)
Definition ex_sampled : Executor :=
  fun _ => Ok (mkModelOutput {["a"%string := 0; "b"%string := 1]} [[9%Z]; []] [] ∅ ∅).
Definition ex_three : Scheduler Counter := (step ex_cfg None (fun _ => true) 0 ex_sampled ex_two).2.

Lemma ex_reachable_three : rtc (engine_step ex_cfg None) ex_start ex_three.
Proof.
  etrans; [apply ex_reachable|]. apply rtc_once.
  eapply (engine_steps ex_cfg None _ (fun _ => true) 0 ex_sampled). vm_compute. reflexivity.
Qed.


Lemma ex_progress i q : i ∈ running ex_three -> store ex_three !! i = Some q -> progress_ok ex_cfg (sr_req q).
Proof.
  intros Hi Hq. assert (running ex_three = [0; 1]) as Hr by (vm_compute; reflexivity). rewrite Hr in Hi.
  apply elem_of_cons in Hi as [->|Hi%list_elem_of_singleton]; [|subst i]; vm_compute in Hq; injection Hq as <-; split; cbn; lia.
Qed.


Lemma fcfs_order_witness : exists out s' wait', schedule ex_cfg (fun _ => true) 1 ex_three = (Ok out, s') /\
  waiting s' = FCFSRequestQueue wait' /\ running s' ++ wait' = [0; 1].
Proof.
  destruct (schedule ex_cfg (fun _ => true) 1 ex_three) as [[out|e] s'] eqn:Hs; [|exfalso; vm_compute in Hs; discriminate].
  destruct (fcfs_order ex_cfg None (mkCounter 8 ∅) ex_three (fun _ => true) 1 out s' eq_refl eq_refl (fun e => e) ltac:(done) I ex_reachable_three Hs)
    as (wait & wait' & adm & sk & Hw & Hw' & _ & Heq). exists out, s', wait'. split_and!; [done|done|].
  rewrite Heq by done. vm_compute in Hw. injection Hw as <-. vm_compute. reflexivity.
Defined.
End Examples.
