(* ===== verification/SchedulerCases.v ===== *)
(** When requests stop, and situations in which the scheduler does not do what it means to: a prompt as long as the model
    that is prefilled in chunks, and preemption by priority of a request that was scheduled in the same step. *)
From stdpp Require Import base gmap sets list strings.
From Stdlib Require Import ZArith Lia.
From S2P Require Import Prelude BlockQueue Request RequestQueue EncoderCache Scheduler SchedulerFacts EngineCore.
Open Scope nat_scope.

(** ** Stopping *)

Section stopping.
Context (hf : option hasher) (m : Z).

(** Whether a request with these further output tokens stops, and how. *)
Definition stops_after (q : SReq) (ts : list Z) : option (RequestStatus * option Z) :=
  let r := sr_req q in
  if (m <=? Z.of_nat (num_tokens r + length ts))%Z || (max_tokens r <=? Z.of_nat (num_output_tokens r + length ts))%Z
  then Some (FINISHED_LENGTH_CAPPED, stop_reason q)
  else
    match pooling_params r, last ts with
    | None, Some t =>
        if negb (sp_ignore_eos q) && bool_decide (eos_token_id q = Some t) then Some (FINISHED_STOPPED, stop_reason q)
        else if bool_decide (t ∈ sp_stop_token_ids q) then Some (FINISHED_STOPPED, Some t)
        else None
    | _, _ => None
    end.

Definition grown (q : SReq) (ts : list Z) (q' : SReq) : Prop :=
  let r := sr_req q in let r' := sr_req q' in
  output_token_ids r' = output_token_ids r ++ ts /\ all_token_ids r' = all_token_ids r ++ ts /\
  max_tokens r' = max_tokens r /\ pooling_params r' = pooling_params r /\
  eos_token_id q' = eos_token_id q /\ sp_ignore_eos q' = sp_ignore_eos q /\ sp_stop_token_ids q' = sp_stop_token_ids q.

Lemma append_grown q t r : append_output_token_ids hf [t] (sr_req q) = Ok r ->
  let q1 := with_req (fun _ => r) q in grown q [t] q1 /\ stop_reason q1 = stop_reason q /\ status r = status (sr_req q).
Proof.
  unfold append_output_token_ids, grown. intros Ha. destruct hf as [h|]; [destruct (h _)|]; simplify_eq/=; by split_and!.
Qed.

Lemma grown_app q ts q1 ts' q2 : grown q ts q1 -> grown q1 ts' q2 -> grown q (ts ++ ts') q2.
Proof. unfold grown. intros (-> & -> & ? & ? & ? & ? & ?) (-> & -> & ? & ? & ? & ? & ?). rewrite !app_assoc. split_and!; congruence. Qed.

(** After one appended token the check is [stops_after]. *)
Lemma check_stop_exact q t q1 b q2 : grown q [t] q1 -> stop_reason q1 = stop_reason q -> check_stop q1 m None = Ok (b, q2) ->
  match stops_after q [t] with
  | Some (st, reason) => b = true /\ status (sr_req q2) = st /\ stop_reason q2 = reason /\ grown q [t] q2
  | None => b = false /\ q2 = q1
  end.
Proof.
  intros (Ho & Ha & Hm & Hp & He & Hi & Hs) Hr. unfold check_stop, stops_after, num_tokens, num_output_tokens.
  rewrite Ho, Ha, Hm, Hp, He, Hi, Hs, !length_app. cbn [last length].
  assert (forall st, grown q [t] (with_req (set_status st) q1)) as Hg by (by intros st; unfold grown; cbn).
  destruct (_ || _); [intros [= <- <-]; by split_and!|]. destruct (pooling_params (sr_req q)); [by intros [= <- <-]|].
  destruct (assert_ _); [|done]. cbn. rewrite last_snoc. destruct (negb _ && _); [intros [= <- <-]; by split_and!|].
  destruct (bool_decide _); intros [= <- <-]; [|done]. split_and!; [done..|]. apply (Hg FINISHED_STOPPED).
Qed.

Lemma stops_after_app q q1 ts ts' : grown q ts q1 -> stop_reason q1 = stop_reason q -> ts' <> [] -> stops_after q1 ts' = stops_after q (ts ++ ts').
Proof.
  intros (Ho & Ha & Hm & Hp & He & Hi & Hs) Hr Hne. unfold stops_after, num_tokens, num_output_tokens.
  rewrite Ho, Ha, Hm, Hp, He, Hi, Hs, Hr, !length_app, !Nat.add_assoc, last_app. by destruct (last ts') eqn:El; [|apply last_None in El].
Qed.

(** C14: Of the tokens a model returns, a request keeps them up to and including the first with which it reaches the
    model's length, its own maximum, its end-of-sequence token or a stop token; that one decides its final status and stop
    reason.  If none does, it keeps all and goes on as it was. *)
Theorem append_and_check_exact q toks ts b q' : append_and_check hf m toks q = Ok (ts, b, q') ->
  exists rest, toks = ts ++ rest /\ grown q ts q' /\
    (forall k, 0 < k < length ts -> stops_after q (take k ts) = None) /\
    if b then ts <> [] /\ stops_after q ts = Some (status (sr_req q'), stop_reason q')
    else rest = [] /\ (ts <> [] -> stops_after q ts = None) /\ status (sr_req q') = status (sr_req q) /\ stop_reason q' = stop_reason q.
Proof.
  revert q ts b q'. induction toks as [|t toks IH]; intros q ts b q' H; cbn [append_and_check] in H.
  { simplify_eq/=. exists []. split_and!; [done| |intros; lia|done|done|done|done]. unfold grown. by rewrite !app_nil_r. }
  apply bind_Ok in H as (r & Hr & H). apply append_grown in Hr as (Hg & Hre & Hst). set (q1 := with_req _ q) in *.
  apply bind_Ok in H as ([b1 q2] & Hc & H). pose proof (check_stop_exact q t q1 b1 q2 Hg Hre Hc) as Hx.
  destruct (stops_after q [t]) as [[st reason]|] eqn:Hs.
  - destruct Hx as (-> & Hst2 & Hre2 & Hg2). injection H as <- <- <-. exists toks. split_and!; [done|done|cbn; lia|done|].
    by rewrite Hs, Hst2, Hre2.
  - destruct Hx as [-> ->]. apply bind_Ok in H as ([[ts' b'] q3] & H & [= <- <- <-]).
    apply IH in H as (rest & -> & Hg3 & Hk & Hb). exists rest.
    assert (forall l, l <> [] -> stops_after q (t :: l) = stops_after q1 l) as Happ by (intros l Hl; symmetry; by apply (stops_after_app q q1 [t])).
    split_and!; [done|by apply (grown_app q [t] q1)| |].
    + intros [|[|k]] Hlt; cbn in Hlt; [lia|done|]. cbn [take]. destruct ts' as [|t' ts']; [cbn in Hlt; lia|].
      rewrite Happ by done. apply (Hk (Datatypes.S k)). cbn in *. lia.
    + destruct b'.
      * destruct Hb as [Hne Hb]. split; [done|]. by rewrite Happ.
      * destruct Hb as (-> & Hn & Hs3 & Hr3). split_and!; [done| |by rewrite Hs3|by rewrite Hr3].
        intros _. destruct ts' as [|t' ts']; [done|]. rewrite Happ by done. by apply Hn.
Qed.
End stopping.

(** ** A prompt as long as the model *)

Section starved.
Context {K : Type} `{SchedResources K} {E : pyexc -> Prop} `{!SchedResourceLaws K E}.
Context (cfg : SchedulerConfig) (hf : option hasher).
Abbreviation S := (Scheduler K).

(** All but the last of as many tokens as the model takes have been computed. *)
Record last_token_left (i : nat) (s : S) (q : SReq) : Prop := {
  lt_run : running s = [i];
  lt_wait : waiting s = FCFSRequestQueue [];
  lt_obj : store s !! i = Some q;
  lt_computed : num_computed_tokens (sr_req q) = (max_model_len cfg - 1)%Z;
  lt_left : (max_model_len cfg <= Z.of_nat (num_tokens (sr_req q)))%Z;
  lt_placeholders : (0 <= num_output_placeholders (sr_req q))%Z;
  lt_inputs : has_encoder_inputs (sr_req q) = false
}.

Lemma last_token_none i s q budget : last_token_left i s q -> (0 < budget)%Z -> running_new_tokens cfg (sr_req q) budget = 0%Z.
Proof.
  intros [_ _ _ Hc Hl Hp _] Hb. unfold running_new_tokens, num_tokens_with_spec. unfold num_tokens in Hl.
  case_match eqn:Et; [apply andb_true_iff in Et as [?%Z.ltb_lt _]|]; lia.
Qed.

Lemma running_loop_skip fuel idx now t (s : S) i q : running s !! idx = Some i -> store s !! i = Some q -> (0 < token_budget t)%Z ->
  has_encoder_inputs (sr_req q) = false -> running_new_tokens cfg (sr_req q) (token_budget t) = 0%Z ->
  running_loop cfg (Datatypes.S fuel) idx now t s = running_loop cfg fuel (Datatypes.S idx) now t s.
Proof.
  intros Hi Hq Hb Hin Hn. cbn [running_loop]. unfold get, request, sreq, try_encoder, mbind, M_bind at 1. rewrite Hi.
  replace (0 <? token_budget t)%Z with true by (symmetry; by apply Z.ltb_lt). cbn [negb].
  unfold mbind, M_bind, get, deref. rewrite Hq. cbn. rewrite Hin. cbn. by rewrite Hn.
Qed.

Lemma starved_has_requests i s q : last_token_left i s q -> has_requests s = true.
Proof. intros [Hr Hw _ _ _ _ _]. unfold has_requests, has_unfinished_requests, get_num_unfinished_requests. by rewrite Hr, Hw. Qed.

Lemma wp_starved_schedule i s q ready now :
  policy cfg = FCFS -> max_loras cfg = None -> (0 < max_num_scheduled_tokens cfg)%Z -> length (running s) <= max_num_running_reqs cfg ->
  res_inv (resources s) -> last_token_left i s q ->
  wp (schedule cfg ready now)
     (fun out s' => exists k, s' = set_finished ∅ (set_resources k s) /\ res_inv k /\
        so_num_scheduled_tokens out = [] /\ so_total_num_scheduled_tokens out = 0%Z) (fun e _ => E e) s.
Proof.
  intros Hpol Hlora Hb Hmax Hk Hl. pose proof (last_token_none _ _ _ _ Hl Hb) as Hnone. destruct Hl as [Hr Hw Hq Hc Ht Hp Hin].
  unfold schedule, schedule_requests. do 4 wp_step. rewrite Hr. cbn [length].
  eapply (run_wp _ _ _ _ (new_step cfg) s); [rewrite (running_loop_skip _ _ _ _ _ i q); [|by rewrite Hr|done..]; cbn [running_loop]; unfold mbind, M_bind, get; by rewrite Hr|].
  wp_step. unfold record_loras. rewrite Hlora. do 2 wp_step. cbn [new_step preempted_reqs]. rewrite bool_decide_eq_true_2 by done.
  do 2 wp_step. eapply (run_wp _ _ _ _ (new_step cfg) s); [rewrite Hw; cbn [queue_len queue_items length waiting_loop]; unfold mbind, M_bind, get; by rewrite Hw|].
  wp_step. cbn [new_step skipped_waiting_requests]. rewrite Hpol. cbn [create_request_queue queue_bool queue_len queue_items length Nat.ltb Nat.leb].
  do 2 wp_step. cbv [new_step]. cbn [num_scheduled_tokens token_budget scheduled_new_reqs scheduled_resumed_reqs scheduled_running_reqs length Nat.add].
  change (total_scheduled []) with 0%Z.
  wp_step. apply wp_assertM; [apply Z.leb_le; lia|]. wp_step. apply wp_assertM; [apply Z.leb_le; lia|]. do 2 wp_step.
  wp_step. apply wp_assertM; [by apply Nat.leb_le|]. wp_step. apply wp_assertM; [by apply Nat.leb_le; lia|]. wp_step. rewrite Hr.
  wp_step. eapply wp_request; [exact Hq|]. apply wp_on_resources'; [by apply law_common|]. intros common k1 Hk1.
  cbn [make_new_request_data make_cached_request_data]. do 6 wp_step.
  wp_step. apply wp_on_resources'; [by apply law_freed|]. intros freed k2 Hk2. wp_step. apply wp_on_resources'; [by apply law_events|]. intros _ k3 Hk3.
  unfold update_after_schedule. cbn [advance_computed add_placeholders]. do 4 wp_step. wp_step.
  apply (wp_mono _ (fun _ s' => s' = set_finished ∅ (set_resources k3 s)) _ (fun e _ => E e)); [by destruct (async_scheduling cfg); wp_step| |done].
  intros _ ? ->. wp_step. by exists k3.
Qed.

(** A request whose last token is number [max_model_len] is not served: when all the others have been computed, a step
    schedules nothing, executes an empty batch and leaves the request running as it was, so every later step does the
    same and the request gets neither an output token nor an end. *)
Theorem last_token_starves i s q ready now mo :
  policy cfg = FCFS -> max_loras cfg = None -> (0 < max_num_scheduled_tokens cfg)%Z -> length (running s) <= max_num_running_reqs cfg ->
  res_inv (resources s) -> last_token_left i s q ->
  wp (step cfg hf ready now (fun _ => Ok mo))
     (fun x s' => x = ([], false) /\ last_token_left i s' q /\ requests s' = requests s /\ res_inv (resources s')) (fun e _ => E e) s.
Proof.
  intros Hpol Hlora Hb Hmax Hk Hl. unfold step. do 2 wp_step. rewrite (starved_has_requests _ _ _ Hl). cbn [negb]. wp_step.
  eapply wp_mono; [by apply (wp_starved_schedule i s q)| |done]. intros out s1 (k & -> & Hk1 & Hout). cbn in Hout. destruct Hout as [Hn Ht].
  wp_step. eapply wp_lift; [done|]. wp_step. unfold update_from_output. rewrite Hn. cbn [output_loop]. do 2 wp_step. do 3 wp_step.
  wp_step. rewrite Ht. split_and!; [done| |done|done]. by destruct Hl.
Qed.
End starved.

(** ** Examples *)

Module CaseExamples.
Import Counting Examples.

Definition stop_req : SReq :=
  mkSReq (mkRequest "s" 0 0 (Some (mkSP (Some 8%Z) false None None)) None None 0 RUNNING false [] None 8 [1]%Z [] [1]%Z 0 [] 1 None [] [] (-1) 0 [])
    (Some 2%Z) false [7%Z] None.

Lemma append_and_check_exact_witness : exists q', append_and_check None 100 [5; 7; 6]%Z stop_req = Ok ([5; 7]%Z, true, q') /\
  stop_reason q' = Some 7%Z /\ stops_after 100 stop_req [5]%Z = None.
Proof.
  assert (exists q', append_and_check None 100 [5; 7; 6]%Z stop_req = Ok ([5; 7]%Z, true, q')) as [q' Hq] by (eexists; vm_compute; reflexivity).
  destruct (append_and_check_exact None 100 stop_req [5; 7; 6]%Z [5; 7]%Z true q' Hq) as (rest & _ & _ & Hk & _ & Hs).
  assert (stops_after 100 stop_req [5; 7]%Z = Some (FINISHED_STOPPED, Some 7%Z)) as Hs' by reflexivity. rewrite Hs' in Hs. injection Hs as _ Hr.
  exists q'. split_and!; [exact Hq|done|apply (Hk 1); cbn; lia].
Defined.

(** A prompt of four tokens, a model of four, steps of three. *)
Definition short_cfg : SchedulerConfig := mkSchedConfig 2 3 4 FCFS 0 true 0 0 false false 0 None false false false.
Definition full_prompt : SReq := ex_req "f" [1; 2; 3; 4]%Z 0 0 None.
Definition no_sample : ModelRunnerOutput := mkModelOutput {["f"%string := 0]} [[]] [] ∅ ∅.
Definition short_one : Scheduler Counter :=
  (engine_add_request short_cfg true 0 0 (set_store {[0 := full_prompt]} (engine_init short_cfg (mkCounter 8 ∅)))).2.
Definition short_two : Scheduler Counter := (step short_cfg None (fun _ => true) 0 (fun _ => Ok no_sample) short_one).2.

Lemma last_token_starves_witness : exists q,
  (step short_cfg None (fun _ => true) 0 (fun _ => Ok no_sample) short_one).1 = Ok ([], true) /\ last_token_left short_cfg 0 short_two q /\
  (step short_cfg None (fun _ => true) 1 (fun _ => Ok no_sample) short_two).1 = Ok ([], false).
Proof.
  assert (exists q, last_token_left short_cfg 0 short_two q) as [q Hq].
  { eexists. split; try (vm_compute; reflexivity); vm_compute; intros [=]. }
  exists q. split_and!; [vm_compute; reflexivity|exact Hq|].
  pose proof (last_token_starves (E := fun _ => False) short_cfg None 0 short_two q (fun _ => true) 1 no_sample eq_refl eq_refl eq_refl
    ltac:(vm_compute; lia) I Hq) as Hw.
  unfold wp in Hw. destruct (step _ _ _ _ _ _) as [[x|e] s']; [|done]. cbn. by destruct Hw as (-> & _).
Defined.

(** Five slots, by priority: "b" runs first, "a" is more urgent. *)
Definition prio_cfg : SchedulerConfig := mkSchedConfig 2 8 16 PRIORITY 0 true 0 0 false false 0 None false false false.
Definition prio_start : Scheduler Counter := engine_init prio_cfg (mkCounter 5 ∅).
Definition prio_b : SReq := ex_req "b" [4; 5]%Z 5 1 None.
Definition prio_a : SReq := ex_req "a" [1]%Z 0 2 None.
Definition prio_one : Scheduler Counter :=
  (engine_add_request prio_cfg true 1 0 (set_store {[1 := prio_b]} prio_start)).2.
Definition samples (l : list (string * list Z)) : Executor :=
  fun _ => Ok (mkModelOutput (list_to_map (imap (fun i e => (e.1, i)) l)) (snd <$> l) [] ∅ ∅).
Definition prio_two : Scheduler Counter := (step prio_cfg None (fun _ => true) 0 (samples [("b"%string, [9%Z])]) prio_one).2.
Definition prio_three : Scheduler Counter :=
  (engine_add_request prio_cfg true 0 0 (set_store (<[0 := prio_a]> (store prio_two)) prio_two)).2.
Definition prio_four : Scheduler Counter :=
  (step prio_cfg None (fun _ => true) 0 (samples [("b", [10%Z]); ("a", [11%Z])]%string) prio_three).2.

Lemma prio_reachable : rtc (engine_step prio_cfg None) prio_start prio_four.
Proof.
  assert (new_request_ok prio_a /\ new_request_ok prio_b) as [Ha Hb] by (split; (split_and!; [by left|done|cbn; lia])).
  eapply rtc_l; [apply (engine_adds prio_cfg None _ true 1 prio_b 0 prio_one); [done|done|exact Hb|vm_compute; reflexivity]|].
  eapply rtc_l; [apply (engine_steps prio_cfg None _ (fun _ => true) 0 (samples [("b"%string, [9%Z])]) ([mkCoreOutput 0 "b" [9]%Z None None 0], true) prio_two); vm_compute; reflexivity|].
  eapply rtc_l; [apply (engine_adds prio_cfg None _ true 0 prio_a 0 prio_three); [vm_compute; reflexivity|vm_compute; reflexivity|exact Ha|vm_compute; reflexivity]|].
  apply rtc_once. eapply (engine_steps prio_cfg None _ (fun _ => true) 0 (samples [("b", [10%Z]); ("a", [11%Z])]%string)). vm_compute. reflexivity.
Qed.

(** Under the priority policy the engine reaches a state in which [schedule] preempts a request that it scheduled in
    the same call and leaves its token count in the output: the workers are told to compute a token of a request they are
    not told about, and the request waits with a token counted as computed although its slots were freed. *)
Theorem priority_preempts_scheduled :
  exists s out s' q, rtc (engine_step prio_cfg None) prio_start s /\ schedule prio_cfg (fun _ => true) 1 s = (Ok out, s') /\
    "b"%string ∈ (so_num_scheduled_tokens out).*1 /\ "b"%string ∉ output_ids out /\
    1 ∉ running s' /\ store s' !! 1 = Some q /\ request_id (sr_req q) = "b"%string /\ status (sr_req q) = PREEMPTED /\
    num_computed_tokens (sr_req q) = 1%Z /\ tokens_held (resources s') !! "b"%string = None.
Proof.
  assert (exists out, (schedule prio_cfg (fun _ => true) 1 prio_four).1 = Ok out /\ (so_num_scheduled_tokens out).*1 = ["b"; "a"]%string /\ output_ids out = ["a"%string])
    as (out & Ho & Hn & Hi) by (eexists; split_and!; vm_compute; reflexivity).
  eexists prio_four, out, (schedule prio_cfg (fun _ => true) 1 prio_four).2, _. split_and!.
  - apply prio_reachable.
  - by apply run_fst.
  - rewrite Hn. by left.
  - rewrite Hi. by intros ?%list_elem_of_singleton.
  - assert (running (schedule prio_cfg (fun _ => true) 1 prio_four).2 = [0]) as -> by (vm_compute; reflexivity). by intros ?%list_elem_of_singleton.
  - vm_compute. reflexivity.
  - reflexivity.
  - reflexivity.
  - reflexivity.
  - vm_compute. reflexivity.
Qed.
End CaseExamples.
