(* ===== verification/NgramProposer.v ===== *)
(** The n-gram proposer of speculative decoding: [vllm/v1/spec_decode/ngram_proposer.py].

    The loop is compiled without bounds checks; an index outside of an array raises here, and the theorem shows that it
    does not happen.  Tokens are integers, lengths and positions naturals, as the counts are never negative; the bound on
    the drafts may be. *)
From stdpp Require Import base list.
From Stdlib Require Import ZArith Lia.
From S2P Require Import Prelude NumpyArrays.
Open Scope nat_scope.

Record NgramProposer := mkNgram {
  min_n : nat;
  max_n : nat;
  ng_k : Z;
  ng_max_model_len : Z
}.

(** The local variables of the loop. *)
Record NgramLoop := mkNgramLoop {
  lps : list nat;
  longest_ngram : nat;
  position : nat;
  prev_lps : nat;
  ng_i : nat
}.

(** One iteration. *)
Definition ngram_iter (tokens : list Z) (max_ngram : nat) (s : NgramLoop) : outcome NgramLoop :=
  let i := ng_i s in
  a ← at_index tokens (prev_lps s);
  b ← at_index tokens i;
  if (a =? b)%Z then
    let prev := S (prev_lps s) in
    let found := longest_ngram s <=? prev in
    lps' ← (if i <? max_ngram then store_at (lps s) i prev else Ok (lps s));
    prev' ← (if prev =? max_ngram then at_index lps' (max_ngram - 1) else Ok prev);
    Ok (mkNgramLoop lps' (if found then prev else longest_ngram s) (if found then i else position s) prev' (S i))
  else if negb (prev_lps s =? 0) then
    prev ← at_index (lps s) (prev_lps s - 1);
    Ok (mkNgramLoop (lps s) (longest_ngram s) (position s) prev i)
  else Ok (mkNgramLoop (lps s) (longest_ngram s) (position s) (prev_lps s) (S i)).

(** [while i < total_token].  An iteration either advances [i], and [prev_lps] by at most one, or makes [prev_lps]
    smaller, so twice the tokens are enough. *)
Fixpoint ngram_loop (fuel : nat) (tokens : list Z) (max_ngram : nat) (s : NgramLoop) : outcome NgramLoop :=
  match fuel with
  | O => Ok s
  | S f =>
      if ng_i s <? length tokens
      then s ← ngram_iter tokens max_ngram s; ngram_loop f tokens max_ngram s
      else Ok s
  end.

Definition ngram_start (max_ngram : nat) : NgramLoop := mkNgramLoop (replicate max_ngram 0) 0 0 0 1.

Definition find_longest_matched_ngram_and_propose_tokens (origin_tokens : list Z) (min_ngram max_ngram : nat)
    (max_model_len k : Z) : outcome (option (list Z)) :=
  let total_token := length origin_tokens in
  if total_token <? min_ngram then Ok None
  else
    let k := Z.min k (max_model_len - Z.of_nat total_token) in
    if (k <=? 0)%Z then Ok None
    else
      s ← ngram_loop (2 * total_token) (reverse origin_tokens) max_ngram (ngram_start max_ngram);
      if longest_ngram s <? min_ngram then Ok None
      else
        let start_position := total_token - 1 - position s + longest_ngram s in
        let k := Nat.min (Z.to_nat k) (total_token - start_position) in
        Ok (Some (take k (drop start_position origin_tokens))).

Definition propose (p : NgramProposer) (context_token_ids : list Z) : outcome (option (list Z)) :=
  find_longest_matched_ngram_and_propose_tokens context_token_ids (min_n p) (max_n p) (ng_max_model_len p) (ng_k p).

(** * Borders *)

Section borders.
Context (t : list Z).

(** The first [v] elements are the last [v] of the first [m], and not all of them. *)
Definition border (m v : nat) : Prop := v < m /\ forall j, j < v -> t !! j = t !! (m - v + j).

Lemma border_zero m : 0 < m -> border m 0.
Proof. split; [done|lia]. Qed.

Lemma border_trans m v w : border m v -> border v w -> border m w.
Proof.
  intros [Hv H1] [Hw H2]. split; [lia|]. intros j Hj. rewrite H2, H1 by lia. f_equal. lia.
Qed.

Lemma border_below m v w : border m v -> border m w -> w < v -> border v w.
Proof.
  intros [Hv H1] [Hw H2] Hlt. split; [done|]. intros j Hj. rewrite H2, (H1 (v - w + j)) by lia. f_equal. lia.
Qed.

Lemma border_ext m v : border m v -> t !! v = t !! m -> border (S m) (S v).
Proof.
  intros [Hv H1] Ht. split; [lia|]. intros j Hj. replace (S m - S v + j) with (m - v + j) by lia.
  destruct (decide (j = v)) as [->|]; [rewrite Ht; f_equal; lia|apply H1; lia].
Qed.

Lemma border_ext_inv m v : border (S m) (S v) -> border m v /\ t !! v = t !! m.
Proof.
  intros [Hv H1]. split; [split; [lia|]|].
  - intros j Hj. by rewrite H1 by lia.
  - rewrite H1 by lia. f_equal. lia.
Qed.

Definition longest_border (m v : nat) : Prop := border m v /\ forall w, border m w -> w <= v.

(** * The loop *)

Context (max_ngram : nat).
Hypothesis Hmax : 0 < max_ngram.

(** At the head of the loop: [prev_lps] is a border of what was read, no longer one can be extended, [lps] holds the
    longest borders of the prefixes read, and [longest_ngram], [position] the longest border met and where it was met
    last. *)
Record ngram_inv (s : NgramLoop) : Prop := {
  ni_range : 1 <= ng_i s;
  ni_prev : border (ng_i s) (prev_lps s);
  ni_cap : prev_lps s < max_ngram;
  ni_free : forall v, border (ng_i s) v -> prev_lps s < v -> v < max_ngram -> t !! v <> t !! ng_i s;
  ni_len : length (lps s) = max_ngram;
  ni_lps : forall j, j < ng_i s -> j < max_ngram -> exists v, lps s !! j = Some v /\ longest_border (S j) v;
  ni_zero : forall j, ng_i s <= j -> j < max_ngram -> lps s !! j = Some 0;
  ni_best : forall j v, 1 <= j -> j < ng_i s -> 0 < v <= max_ngram -> border (S j) v ->
    v <= longest_ngram s /\ (v = longest_ngram s -> j <= position s);
  ni_found : 0 < longest_ngram s ->
    longest_ngram s <= max_ngram /\ position s < ng_i s /\ border (S (position s)) (longest_ngram s)
}.

Lemma ngram_inv_start : ngram_inv (ngram_start max_ngram).
Proof.
  split; cbn; try lia.
  - apply border_zero; lia.
  - intros v [Hv _]. lia.
  - by rewrite length_replicate.
  - intros j Hj Hj'. assert (j = 0) as -> by lia. exists 0. rewrite lookup_replicate_2 by done.
    split; [done|]. split; [apply border_zero; lia|]. intros w [Hw _]. lia.
  - intros j _ Hj. by apply lookup_replicate_2.
Qed.

(** A border that was extended is the longest of at most [max_ngram] tokens. *)
Lemma extended_longest s v : ngram_inv s -> t !! prev_lps s = t !! ng_i s -> border (S (ng_i s)) v -> v <= max_ngram ->
  v <= S (prev_lps s).
Proof.
  intros Hs Heq Hv Hle. destruct v as [|v]; [lia|]. apply border_ext_inv in Hv as [Hv Ht].
  destruct (decide (v <= prev_lps s)) as [|Hgt]; [lia|]. destruct (ni_free s Hs v Hv ltac:(lia) ltac:(lia) Ht).
Qed.

Definition found_lps (s : NgramLoop) : list nat :=
  if ng_i s <? max_ngram then <[ng_i s := S (prev_lps s)]> (lps s) else lps s.

Lemma found_lps_spec s : ngram_inv s -> t !! prev_lps s = t !! ng_i s ->
  length (found_lps s) = max_ngram /\
  (forall j, j < S (ng_i s) -> j < max_ngram -> exists v, found_lps s !! j = Some v /\ longest_border (S j) v) /\
  (forall j, S (ng_i s) <= j -> j < max_ngram -> found_lps s !! j = Some 0).
Proof.
  intros Hs Heq. pose proof (ni_len s Hs) as Hlen. unfold found_lps. split_and!.
  - case_match; [by rewrite length_insert|done].
  - intros j Hj Hjm. destruct (decide (j = ng_i s)) as [->|Hne].
    + rewrite (proj2 (Nat.ltb_lt _ _)) by lia. rewrite list_lookup_insert_eq by lia. eexists. split; [done|].
      split; [apply border_ext; [apply Hs|done]|]. intros w Hw. apply extended_longest; [done..|]. destruct Hw. lia.
    + destruct (ni_lps s Hs j ltac:(lia) Hjm) as (v & Hv & Hb). exists v. split; [|done].
      case_match; [by rewrite list_lookup_insert_ne|done].
  - intros j Hj Hjm. case_match; [rewrite list_lookup_insert_ne by lia|]; apply (ni_zero s Hs); lia.
Qed.

(** The longest border of at most [max_ngram - 1] tokens of what was read, after a match. *)
Definition next_prev (s : NgramLoop) (p : nat) : Prop :=
  border (S (ng_i s)) p /\ p < max_ngram /\ forall v, border (S (ng_i s)) v -> v < max_ngram -> v <= p.

Lemma capped_prev s : ngram_inv s -> t !! prev_lps s = t !! ng_i s ->
  exists p, (if S (prev_lps s) =? max_ngram then at_index (found_lps s) (max_ngram - 1) else Ok (S (prev_lps s))) = Ok p /\
    p <= S (prev_lps s) /\ next_prev s p.
Proof.
  intros Hs Heq. pose proof (border_ext _ _ (ni_prev s Hs) Heq) as Hext. pose proof (ni_cap s Hs) as Hcap.
  destruct (Nat.eqb_spec (S (prev_lps s)) max_ngram) as [Hfull|Hno].
  - destruct (found_lps_spec s Hs Heq) as (_ & Hl & _). assert (S (prev_lps s) < S (ng_i s)) as Hlt by apply Hext.
    destruct (Hl (max_ngram - 1) ltac:(lia) ltac:(lia)) as (p & Hp & Hb & Hmost).
    replace (S (max_ngram - 1)) with (S (prev_lps s)) in Hb, Hmost by lia. assert (p < S (prev_lps s)) as Hlp by apply Hb.
    exists p. rewrite (at_index_ok _ _ _ Hp). split_and!; [done|lia|]. split_and!; [|lia|].
    + by apply (border_trans _ (S (prev_lps s))).
    + intros v Hv Hvm. apply Hmost. by apply (border_below (S (ng_i s))); [|done|lia].
  - exists (S (prev_lps s)). split_and!; [done|lia|]. split_and!; [done|lia|].
    intros v Hv Hvm. apply extended_longest; [done..|lia].
Qed.

(** ** The three ways through an iteration *)

Lemma ngram_inv_match s p : ngram_inv s -> t !! prev_lps s = t !! ng_i s -> next_prev s p ->
  let found := longest_ngram s <=? S (prev_lps s) in
  ngram_inv (mkNgramLoop (found_lps s) (if found then S (prev_lps s) else longest_ngram s)
    (if found then ng_i s else position s) p (S (ng_i s))).
Proof.
  intros Hs Heq (Hp1 & Hp2 & Hp3) found. destruct (found_lps_spec s Hs Heq) as (L1 & L2 & L3).
  pose proof (ni_cap s Hs) as Hcap. unfold found. split; cbn; try done.
  - lia.
  - intros v Hv Hpv Hvm. specialize (Hp3 v Hv Hvm). lia.
  - intros j v Hj Hji Hv Hb. destruct (decide (j = ng_i s)) as [->|Hne].
    + pose proof (extended_longest s v Hs Heq Hb ltac:(lia)). destruct (Nat.leb_spec (longest_ngram s) (S (prev_lps s))); lia.
    + destruct (ni_best s Hs j v Hj ltac:(lia) Hv Hb). destruct (Nat.leb_spec (longest_ngram s) (S (prev_lps s))); lia.
  - destruct (Nat.leb_spec (longest_ngram s) (S (prev_lps s))) as [|Hlt]; intros H0.
    + split_and!; [lia|lia|]. apply border_ext; [apply Hs|done].
    + destruct (ni_found s Hs H0) as (? & ? & ?). split_and!; [done|lia|done].
Qed.

Lemma ngram_inv_back s p : ngram_inv s -> t !! prev_lps s <> t !! ng_i s -> prev_lps s <> 0 ->
  lps s !! (prev_lps s - 1) = Some p ->
  p < prev_lps s /\ ngram_inv (mkNgramLoop (lps s) (longest_ngram s) (position s) p (ng_i s)).
Proof.
  intros Hs Hne H0 Hp. pose proof (ni_prev s Hs) as Hprev. pose proof (ni_cap s Hs). assert (prev_lps s < ng_i s) by apply Hprev.
  destruct (ni_lps s Hs (prev_lps s - 1) ltac:(lia) ltac:(lia)) as (p' & Hp' & Hb & Hmost). simplify_eq.
  replace (S (prev_lps s - 1)) with (prev_lps s) in Hb, Hmost by lia. assert (p < prev_lps s) by apply Hb. split; [done|].
  destruct Hs. split; cbn; try done.
  - by apply (border_trans _ (prev_lps s)).
  - lia.
  - intros v Hv Hpv Hvm. destruct (Nat.lt_trichotomy v (prev_lps s)) as [Hlt|[->|Hgt]]; [|done|by apply ni_free0].
    pose proof (Hmost v (border_below _ _ _ Hprev Hv Hlt)). lia.
Qed.

Lemma no_border s v : ngram_inv s -> t !! prev_lps s <> t !! ng_i s -> prev_lps s = 0 -> border (S (ng_i s)) v -> v <= max_ngram -> v = 0.
Proof.
  intros Hs Hne H0 Hv Hvm. destruct v as [|v]; [done|]. apply border_ext_inv in Hv as [Hv Ht].
  destruct v as [|v]; [by rewrite H0 in Hne|]. by destruct (ni_free s Hs _ Hv ltac:(lia) ltac:(lia)).
Qed.

Lemma ngram_inv_skip s : ngram_inv s -> t !! prev_lps s <> t !! ng_i s -> prev_lps s = 0 ->
  ngram_inv (mkNgramLoop (lps s) (longest_ngram s) (position s) (prev_lps s) (S (ng_i s))).
Proof.
  intros Hs Hne H0. pose proof (no_border s) as Hno. split; cbn.
  - lia.
  - rewrite H0. apply border_zero. lia.
  - apply Hs.
  - intros v Hv Hpv Hvm. pose proof (Hno v Hs Hne H0 Hv ltac:(lia)). lia.
  - apply Hs.
  - intros j Hj Hjm. destruct (decide (j = ng_i s)) as [->|]; [|apply (ni_lps s Hs); lia]. exists 0.
    split; [by apply (ni_zero s Hs)|]. split; [apply border_zero; lia|].
    intros w Hw. assert (w < S (ng_i s)) by apply Hw. pose proof (Hno w Hs Hne H0 Hw ltac:(lia)). lia.
  - intros j Hj Hjm. apply (ni_zero s Hs); lia.
  - intros j v Hj Hji Hv Hb. destruct (decide (j = ng_i s)) as [->|]; [|apply (ni_best s Hs); [done|lia|done..]].
    pose proof (Hno v Hs Hne H0 Hb ltac:(lia)). lia.
  - intros Hl. destruct (ni_found s Hs Hl) as (? & ? & ?). split_and!; [done|lia|done].
Qed.

Lemma ngram_iter_ok s : ngram_inv s -> ng_i s < length t ->
  exists s', ngram_iter t max_ngram s = Ok s' /\ ngram_inv s' /\ ng_i s' <= length t /\
    2 * (length t - ng_i s') + prev_lps s' < 2 * (length t - ng_i s) + prev_lps s.
Proof.
  intros Hs Hi. assert (prev_lps s < ng_i s) as Hp by apply Hs.
  destruct (lookup_lt_is_Some_2 t (prev_lps s) ltac:(lia)) as [a Ha], (lookup_lt_is_Some_2 t (ng_i s) Hi) as [b Hb].
  unfold ngram_iter. rewrite (at_index_ok _ _ _ Ha), (at_index_ok _ _ _ Hb). cbn [mbind outcome_bind].
  destruct (Z.eqb_spec a b) as [<-|Hne].
  - assert (t !! prev_lps s = t !! ng_i s) as Heq by congruence. destruct (capped_prev s Hs Heq) as (p & Hrun & Hle & Hn).
    assert ((if ng_i s <? max_ngram then store_at (lps s) (ng_i s) (S (prev_lps s)) else Ok (lps s)) = Ok (found_lps s)) as ->.
    { unfold found_lps, store_at. rewrite (ni_len s Hs). by destruct (ng_i s <? max_ngram). }
    cbn [mbind outcome_bind]. rewrite Hrun. cbn [mbind outcome_bind]. eexists.
    split; [done|]. split; [by apply ngram_inv_match|]. cbn. lia.
  - assert (t !! prev_lps s <> t !! ng_i s) as Hn by congruence.
    destruct (Nat.eqb_spec (prev_lps s) 0) as [H0|H0]; cbn [negb].
    + eexists. split; [done|]. split; [by apply ngram_inv_skip|]. cbn. lia.
    + pose proof (ni_cap s Hs). destruct (lookup_lt_is_Some_2 (lps s) (prev_lps s - 1)) as [p Hlp]; [rewrite (ni_len s Hs); lia|].
      rewrite (at_index_ok _ _ _ Hlp). cbn [mbind outcome_bind]. destruct (ngram_inv_back s p Hs Hn H0 Hlp) as [Hlt Hinv].
      eexists. split; [done|]. split; [done|]. cbn. lia.
Qed.

Lemma ngram_loop_ok fuel : forall s, ngram_inv s -> ng_i s <= length t -> 2 * (length t - ng_i s) + prev_lps s < fuel ->
  exists s', ngram_loop fuel t max_ngram s = Ok s' /\ ngram_inv s' /\ ng_i s' = length t.
Proof.
  induction fuel as [|fuel IH]; intros s Hs Hi Hf; [lia|]. cbn [ngram_loop].
  destruct (Nat.ltb_spec (ng_i s) (length t)) as [Hlt|]; [|exists s; split_and!; [done..|lia]].
  destruct (ngram_iter_ok s Hs Hlt) as (s' & -> & Hs' & Hi' & Hm). cbn [mbind outcome_bind]. apply IH; [done..|lia].
Qed.
End borders.

(** * The proposal *)

(** The last [v] tokens also stand at [s], not at the end. *)
Definition occurs_again (l : list Z) (v s : nat) : Prop :=
  s + v < length l /\ take v (drop s l) = drop (length l - v) l.

Lemma border_occurs l j v : j < length l -> border (reverse l) (S j) v <-> occurs_again l v (length l - 1 - j).
Proof.
  intros Hj. unfold border, occurs_again. split.
  - intros [Hv H]. split; [lia|]. apply list_eq. intros m. rewrite lookup_take, lookup_drop.
    case_decide as Hm; [|by rewrite lookup_drop, lookup_ge_None_2 by lia].
    specialize (H (v - 1 - m) ltac:(lia)). rewrite !reverse_lookup in H by lia. rewrite lookup_drop.
    replace (length l - v + m) with (length l - S (v - 1 - m)) by lia. rewrite H. f_equal. lia.
  - intros [Hv H]. split; [lia|]. intros m Hm. rewrite !reverse_lookup by lia.
    pose proof (f_equal (lookup (v - 1 - m)) H) as E. rewrite lookup_take, !lookup_drop, decide_True in E by lia.
    replace (length l - S m) with (length l - v + (v - 1 - m)) by lia. rewrite <-E. f_equal. lia.
Qed.

(** What the loop finds: the longest repeated suffix, and its first occurrence. *)
Lemma ngram_search l max_ngram : l <> [] -> 0 < max_ngram ->
  exists s, ngram_loop (2 * length l) (reverse l) max_ngram (ngram_start max_ngram) = Ok s /\
    (forall v' s', 0 < v' <= max_ngram -> occurs_again l v' s' ->
       v' <= longest_ngram s /\ (v' = longest_ngram s -> length l - 1 - position s <= s')) /\
    (0 < longest_ngram s -> longest_ngram s <= max_ngram /\ position s < length l /\
       occurs_again l (longest_ngram s) (length l - 1 - position s)).
Proof.
  intros Hl Hmax. assert (0 < length l) by (destruct l; [done|cbn; lia]).
  destruct (ngram_loop_ok (reverse l) max_ngram Hmax (2 * length l) (ngram_start max_ngram)) as (s & Hrun & Hs & Hi).
  - by apply ngram_inv_start.
  - rewrite length_reverse. cbn. lia.
  - rewrite length_reverse. cbn. lia.
  - rewrite length_reverse in Hi. exists s. split; [done|]. split.
    + intros v' s' Hv' Ho. assert (s' + v' < length l) by apply Ho.
      destruct (ni_best _ _ s Hs (length l - 1 - s') v') as [H1 H2]; [lia|lia|done| |].
      { apply border_occurs; [lia|]. by replace (length l - 1 - (length l - 1 - s')) with s' by lia. }
      split; [done|]. intros Hv. specialize (H2 Hv). lia.
    + intros H0. destruct (ni_found _ _ s Hs H0) as (? & ? & Hb). split_and!; [done|lia|]. apply border_occurs; [lia|done].
Qed.

Lemma occurs_again_nonneg l v s : occurs_again l v s -> s + v < length l.
Proof. by intros [? _]. Qed.

(** C38: The n-gram proposer never reads outside of its arrays and proposes the tokens that follow the first occurrence of
    the longest suffix of the context, of [min_n] to [max_n] tokens, that occurs before: as many as are asked for and as
    the model length and the context leave.  It proposes nothing exactly when the context is too short, the model length
    is reached, or no such suffix occurs before. *)
Theorem ngram_propose_exact p l : 0 < min_n p -> 0 < max_n p ->
  let k := Z.min (ng_k p) (ng_max_model_len p - Z.of_nat (length l)) in
  exists r, propose p l = Ok r /\
    match r with
    | None => length l < min_n p \/ (k <= 0)%Z \/ (forall v s, min_n p <= v <= max_n p -> ~ occurs_again l v s)
    | Some d => (0 < k)%Z /\ exists v s, min_n p <= v <= max_n p /\ occurs_again l v s /\
        (forall v' s', v' <= max_n p -> occurs_again l v' s' -> v' <= v /\ (v' = v -> s <= s')) /\
        d = take (Z.to_nat k) (drop (s + v) l) /\ d <> []
    end.
Proof.
  intros Hmin Hmax k. unfold propose, find_longest_matched_ngram_and_propose_tokens. cbv zeta. fold k.
  destruct (Nat.ltb_spec (length l) (min_n p)) as [|Hlen]; [exists None; auto|].
  destruct (Z.leb_spec k 0) as [|Hk]; [exists None; auto|].
  assert (l <> []) as Hl by (intros ->; cbn in Hlen; lia).
  destruct (ngram_search l (max_n p) Hl Hmax) as (s & -> & Hbest & Hfound). cbn [mbind outcome_bind].
  destruct (Nat.ltb_spec (longest_ngram s) (min_n p)) as [Hno|Hyes].
  - exists None. split; [done|]. right; right. intros v s' Hv Ho. destruct (Hbest v s' ltac:(lia) Ho). lia.
  - destruct (Hfound ltac:(lia)) as (Hv & Hpos & Ho). pose proof (occurs_again_nonneg _ _ _ Ho) as Hs.
    eexists. split; [done|]. split; [done|]. exists (longest_ngram s), (length l - 1 - position s).
    split_and!; [done|done|done| | |].
    + intros v' s' Hv' Ho'. destruct (decide (v' = 0)) as [->|]; [lia|]. by apply Hbest; [lia|].
    + rewrite <-take_take. f_equal. rewrite take_ge; [done|]. rewrite length_drop. lia.
    + intros E. apply (f_equal length) in E. rewrite length_take, length_drop in E. cbn in E. lia.
Qed.

(** The example of the method's comment, and the earliest of two occurrences. *)
Example propose_docstring : propose (mkNgram 2 3 4 100) [1; 2; 3; 4; 2; 3]%Z = Ok (Some [4; 2; 3]%Z).
Proof. reflexivity. Qed.

Example propose_earliest : propose (mkNgram 1 2 2 100) [7; 1; 8; 7; 2; 7]%Z = Ok (Some [1; 8]%Z).
Proof. reflexivity. Qed.

Example propose_overlap : propose (mkNgram 2 3 5 9) [4; 4; 4; 4; 4]%Z = Ok (Some [4; 4]%Z).
Proof. reflexivity. Qed.

Lemma ngram_propose_exact_witness : exists r, propose (mkNgram 2 3 4 100) [1; 2; 3; 4; 2; 3]%Z = Ok r /\ is_Some r.
Proof.
  destruct (ngram_propose_exact (mkNgram 2 3 4 100) [1; 2; 3; 4; 2; 3]%Z) as (r & Hr & Hx); [cbn; lia..|].
  exists r. split; [done|]. destruct r as [d|]; [by eexists|]. vm_compute in Hr. discriminate Hr.
Defined.
