(* ===== verification/BlockTable.v ===== *)
(** The block tables of the worker: [vllm/v1/worker/block_table.py].

    A table has a row of block ids per request of the batch, of a fixed width, and the number of valid ids of each row; a
    copy on the device is written by [commit].  Ids are 32-bit integers, and so is their product with the block size
    in [compute_slot_mapping].  Row and token indices are not negative; the two arrays of [compute_slot_mapping] have
    the same length. *)
From stdpp Require Import base list.
From Stdlib Require Import ZArith Lia.
From S2P Require Import Prelude NumpyArrays.
Open Scope nat_scope.

Record BlockTable := mkBlockTable {
  bt_block_size : nat;
  bt_max_num_reqs : nat;
  max_num_blocks_per_req : nat;
  bt_max_num_batched_tokens : nat;
  (** on the device *)
  block_table : list (list Z);
  block_table_cpu : list (list Z);
  num_blocks_per_row : list nat;
  slot_mapping_cpu : list Z;
  slot_mapping : list Z;
  bt_dcp_world_size : nat;
  bt_dcp_rank : nat
}.

(** [BlockTable.__init__]; the size and rank of the context-parallel group are arguments. *)
Definition block_table_init (block_size max_num_reqs max_blocks max_tokens dcp_world_size dcp_rank : nat) : BlockTable :=
  let zeros := replicate max_num_reqs (replicate max_blocks 0%Z) in
  mkBlockTable block_size max_num_reqs max_blocks max_tokens zeros zeros (replicate max_num_reqs 0)
    (replicate max_tokens 0%Z) (replicate max_tokens 0%Z) dcp_world_size dcp_rank.

Definition set_rows (rows : list (list Z)) (t : BlockTable) : BlockTable :=
  mkBlockTable (bt_block_size t) (bt_max_num_reqs t) (max_num_blocks_per_req t) (bt_max_num_batched_tokens t)
    (block_table t) rows (num_blocks_per_row t) (slot_mapping_cpu t) (slot_mapping t) (bt_dcp_world_size t) (bt_dcp_rank t).
Definition set_num_blocks (n : list nat) (t : BlockTable) : BlockTable :=
  mkBlockTable (bt_block_size t) (bt_max_num_reqs t) (max_num_blocks_per_req t) (bt_max_num_batched_tokens t)
    (block_table t) (block_table_cpu t) n (slot_mapping_cpu t) (slot_mapping t) (bt_dcp_world_size t) (bt_dcp_rank t).
Definition set_slots (m : list Z) (t : BlockTable) : BlockTable :=
  mkBlockTable (bt_block_size t) (bt_max_num_reqs t) (max_num_blocks_per_req t) (bt_max_num_batched_tokens t)
    (block_table t) (block_table_cpu t) (num_blocks_per_row t) m (slot_mapping t) (bt_dcp_world_size t) (bt_dcp_rank t).
Definition set_device (rows : list (list Z)) (m : list Z) (t : BlockTable) : BlockTable :=
  mkBlockTable (bt_block_size t) (bt_max_num_reqs t) (max_num_blocks_per_req t) (bt_max_num_batched_tokens t)
    rows (block_table_cpu t) (num_blocks_per_row t) (slot_mapping_cpu t) m (bt_dcp_world_size t) (bt_dcp_rank t).

(** [num_blocks_per_row[row]] and its assignment. *)
Definition read_num (row : nat) : M BlockTable nat := t ← get; lift_out (at_index (num_blocks_per_row t) row).
Definition write_num (row n : nat) : M BlockTable unit :=
  t ← get; l ← lift_out (store_at (num_blocks_per_row t) row n); modify (set_num_blocks l).
Definition read_row (row : nat) : M BlockTable (list Z) := t ← get; lift_out (at_index (block_table_cpu t) row).
Definition write_row (row : nat) (ids : list Z) : M BlockTable unit :=
  t ← get; l ← lift_out (store_at (block_table_cpu t) row ids); modify (set_rows l).

Definition append_row (block_ids : list Z) (row_idx : nat) : M BlockTable unit :=
  match block_ids with
  | [] => mret tt
  | _ =>
      let num_blocks := length block_ids in
      start ← read_num row_idx;
      write_num row_idx (start + num_blocks) ;;
      row ← read_row row_idx;
      row ← lift_out (assign_range row start (start + num_blocks) block_ids);
      write_row row_idx row
  end.

Definition add_row (block_ids : list Z) (row_idx : nat) : M BlockTable unit :=
  write_num row_idx 0 ;; append_row block_ids row_idx.

Definition move_row (src tgt : nat) : M BlockTable unit :=
  num_blocks ← read_num src;
  from ← read_row src;
  to ← read_row tgt;
  row ← lift_out (assign_range to 0 num_blocks (take num_blocks from));
  write_row tgt row ;;
  write_num tgt num_blocks.

Definition swap_row (src tgt : nat) : M BlockTable unit :=
  num_blocks_src ← read_num src;
  num_blocks_tgt ← read_num tgt;
  write_num src num_blocks_tgt ;;
  write_num tgt num_blocks_src ;;
  row_src ← read_row src;
  row_tgt ← read_row tgt;
  write_row src row_tgt ;;
  write_row tgt row_src.

(** The slot of a token at position [p] of the request in row [r], when the process keeps all tokens; and with tokens
    spread over a context-parallel group, -1 for those of other processes. *)
Definition slot_of (t : BlockTable) (r p : nat) : outcome Z :=
  b ← at_index (concat (block_table_cpu t)) (r * max_num_blocks_per_req t + p / bt_block_size t);
  Ok (wrap32 (b * Z.of_nat (bt_block_size t)) + Z.of_nat (p mod bt_block_size t))%Z.

Definition dcp_slot_of (t : BlockTable) (r p : nat) : outcome Z :=
  let virtual_block_size := bt_block_size t * bt_dcp_world_size t in
  b ← at_index (concat (block_table_cpu t)) (r * max_num_blocks_per_req t + p / virtual_block_size);
  let virtual_block_offset := p mod virtual_block_size in
  let mask := virtual_block_offset mod bt_dcp_world_size t =? bt_dcp_rank t in
  let block_offset := virtual_block_offset / bt_dcp_world_size t in
  Ok (if mask then (wrap32 (b * Z.of_nat (bt_block_size t)) + Z.of_nat block_offset)%Z else (-1)%Z).

(** [compute_slot_mapping]: the slots, then their assignment to the start of [slot_mapping_np]. *)
Definition compute_slot_mapping (req_indices positions : list nat) : M BlockTable unit :=
  t ← get;
  slots ← lift_out (mapM (fun '(r, p) => if 1 <? bt_dcp_world_size t then dcp_slot_of t r p else slot_of t r p)
                      (zip req_indices positions));
  m ← lift_out (assign_range (slot_mapping_cpu t) 0 (length req_indices) slots);
  modify (set_slots m).

(** [self.block_table[:num_reqs].copy_(...)], and the slots. *)
Definition commit_block_table (num_reqs : nat) : M BlockTable unit :=
  modify (fun t => set_device (take num_reqs (block_table_cpu t) ++ drop num_reqs (block_table t)) (slot_mapping t) t).
Definition commit_slot_mapping (num_tokens : nat) : M BlockTable unit :=
  modify (fun t => set_device (block_table t) (take num_tokens (slot_mapping_cpu t) ++ drop num_tokens (slot_mapping t)) t).

Definition clear : M BlockTable unit :=
  modify (fun t => set_rows ((fun row => replicate (length row) 0%Z) <$> block_table_cpu t)
                     (set_device ((fun row => replicate (length row) 0%Z) <$> block_table t) (slot_mapping t) t)).

(** * Several groups *)

(** [MultiGroupBlockTable.__init__]. *)
Definition multi_group_init (max_num_reqs : nat) (max_model_len : Z) (max_tokens : nat) (block_sizes : list nat)
    (num_speculative_tokens dcp_world_size dcp_rank : nat) : list BlockTable :=
  (fun block_size =>
     block_table_init block_size max_num_reqs
       (Z.to_nat (Z.max (cdiv max_model_len (Z.of_nat (block_size * dcp_world_size))) (1 + Z.of_nat num_speculative_tokens)))
       max_tokens dcp_world_size dcp_rank) <$> block_sizes.

(** [for i, block_table in enumerate(self.block_tables)]: the loop over the tables, [f i] on table [i]. *)
Definition on_table {A} (i : nat) (m : M BlockTable A) : M (list BlockTable) A :=
  ts ← get;
  match ts !! i with
  | None => raise IndexError
  | Some t => let '(o, t') := m t in modify (fun ts => <[i := t']> ts) ;; lift_out o
  end.
Definition for_tables (f : nat -> M BlockTable unit) : M (list BlockTable) unit :=
  ts ← get; forM (seq 0 (length ts)) (fun i => on_table i (f i)).

(** [block_ids[i]]. *)
Definition group_ids {S} (block_ids : list (list Z)) (i : nat) : M S (list Z) := lift_out (at_index block_ids i).

Definition mg_append_row (block_ids : list (list Z)) (row_idx : nat) : M (list BlockTable) unit :=
  for_tables (fun i => ids ← group_ids block_ids i; append_row ids row_idx).
Definition mg_add_row (block_ids : list (list Z)) (row_idx : nat) : M (list BlockTable) unit :=
  for_tables (fun i => ids ← group_ids block_ids i; add_row ids row_idx).
Definition mg_move_row (src tgt : nat) : M (list BlockTable) unit := for_tables (fun _ => move_row src tgt).
Definition mg_swap_row (src tgt : nat) : M (list BlockTable) unit := for_tables (fun _ => swap_row src tgt).
Definition mg_compute_slot_mapping (req_indices positions : list nat) : M (list BlockTable) unit :=
  for_tables (fun _ => compute_slot_mapping req_indices positions).
Definition mg_commit_block_table (num_reqs : nat) : M (list BlockTable) unit := for_tables (fun _ => commit_block_table num_reqs).
Definition mg_commit_slot_mapping (num_tokens : nat) : M (list BlockTable) unit := for_tables (fun _ => commit_slot_mapping num_tokens).
Definition mg_clear : M (list BlockTable) unit := for_tables (fun _ => clear).

(** * The rows as lists *)

(** The ids of the requests of the batch. *)
Definition bt_rows (t : BlockTable) : list (list Z) := zip_with take (num_blocks_per_row t) (block_table_cpu t).

Record bt_ok (t : BlockTable) : Prop := {
  bo_cpu : length (block_table_cpu t) = bt_max_num_reqs t;
  bo_num : length (num_blocks_per_row t) = bt_max_num_reqs t;
  bo_width : Forall (fun row => length row = max_num_blocks_per_req t) (block_table_cpu t);
  bo_fit : Forall (fun n => n <= max_num_blocks_per_req t) (num_blocks_per_row t);
  bo_slots : length (slot_mapping_cpu t) = bt_max_num_batched_tokens t
}.

(** What the row operations leave alone. *)
Definition same_table (t t' : BlockTable) : Prop :=
  bt_block_size t' = bt_block_size t /\ bt_max_num_reqs t' = bt_max_num_reqs t /\
  max_num_blocks_per_req t' = max_num_blocks_per_req t /\ bt_max_num_batched_tokens t' = bt_max_num_batched_tokens t /\
  block_table t' = block_table t /\ slot_mapping_cpu t' = slot_mapping_cpu t /\ slot_mapping t' = slot_mapping t /\
  bt_dcp_world_size t' = bt_dcp_world_size t /\ bt_dcp_rank t' = bt_dcp_rank t.

#[global] Instance same_table_preorder : PreOrder same_table.
Proof. split; [by intros t|]. intros t1 t2 t3. unfold same_table. intuition congruence. Qed.

Lemma bt_init_ok bs R K T w k : bt_ok (block_table_init bs R K T w k) /\ bt_rows (block_table_init bs R K T w k) = replicate R [].
Proof.
  split.
  - split; cbn; rewrite ?length_replicate; try done; apply Forall_replicate; [by rewrite length_replicate|lia].
  - unfold bt_rows. cbn. apply list_eq. intros i. rewrite lookup_zip_with. destruct (decide (i < R)).
    + by rewrite !lookup_replicate_2 by done.
    + by rewrite !lookup_ge_None_2 by (rewrite length_replicate; lia).
Qed.

Lemma bt_rows_length t : bt_ok t -> length (bt_rows t) = bt_max_num_reqs t.
Proof. intros Ht. unfold bt_rows. rewrite length_zip_with, (bo_cpu t Ht), (bo_num t Ht). lia. Qed.

(** A row of the table, with its number of ids. *)
Record row_is (t : BlockTable) (r n : nat) (row : list Z) : Prop := {
  ri_num : num_blocks_per_row t !! r = Some n;
  ri_row : block_table_cpu t !! r = Some row;
  ri_len : length row = max_num_blocks_per_req t;
  ri_fit : n <= max_num_blocks_per_req t
}.

Lemma bt_row t r : bt_ok t -> r < bt_max_num_reqs t -> exists n row, row_is t r n row.
Proof.
  intros Ht Hr. destruct (lookup_lt_is_Some_2 (num_blocks_per_row t) r) as [n Hn]; [rewrite (bo_num t Ht); lia|].
  destruct (lookup_lt_is_Some_2 (block_table_cpu t) r) as [row Hrow]; [rewrite (bo_cpu t Ht); lia|]. exists n, row. split; try done.
  - by apply (Forall_lookup_1 _ _ _ _ (bo_width t Ht) Hrow).
  - by apply (Forall_lookup_1 _ _ _ _ (bo_fit t Ht) Hn).
Qed.

Lemma row_is_rows t r n row : row_is t r n row -> bt_rows t !! r = Some (take n row).
Proof. intros [Hn Hr _ _]. unfold bt_rows. by rewrite lookup_zip_with, Hn; cbn; rewrite Hr. Qed.

Lemma row_is_length t r n row : row_is t r n row -> length (take n row) = n.
Proof. intros []. rewrite length_take. lia. Qed.

(** One row and its count are replaced. *)
Definition put_row (r n : nat) (row : list Z) (t : BlockTable) : BlockTable :=
  set_rows (<[r := row]> (block_table_cpu t)) (set_num_blocks (<[r := n]> (num_blocks_per_row t)) t).

Lemma put_row_ok t r n row : bt_ok t -> length row = max_num_blocks_per_req t -> n <= max_num_blocks_per_req t ->
  bt_ok (put_row r n row t) /\ same_table t (put_row r n row t) /\ bt_rows (put_row r n row t) = <[r := take n row]> (bt_rows t).
Proof.
  intros [] Hl Hn. split_and!.
  - split; cbn; rewrite ?length_insert; try done; by apply Forall_insert.
  - done.
  - unfold bt_rows. cbn. by rewrite <-insert_zip_with.
Qed.

Lemma wp_read_num t r n (Q : nat -> BlockTable -> Prop) E : num_blocks_per_row t !! r = Some n -> Q n t -> wp (read_num r) Q E t.
Proof. intros Hn HQ. unfold read_num. wp_step. wp_step. by apply (wp_lift _ n); [apply at_index_ok|]. Qed.

Lemma wp_write_num t r n (Q : unit -> BlockTable -> Prop) E : r < length (num_blocks_per_row t) ->
  Q tt (set_num_blocks (<[r := n]> (num_blocks_per_row t)) t) -> wp (write_num r n) Q E t.
Proof. intros Hr HQ. unfold write_num. do 3 wp_step. eapply wp_lift; [by apply store_at_ok|]. by wp_step. Qed.

Lemma wp_read_row t r row (Q : list Z -> BlockTable -> Prop) E : block_table_cpu t !! r = Some row -> Q row t -> wp (read_row r) Q E t.
Proof. intros Hn HQ. unfold read_row. wp_step. wp_step. by apply (wp_lift _ row); [apply at_index_ok|]. Qed.

Lemma wp_write_row t r row (Q : unit -> BlockTable -> Prop) E : r < length (block_table_cpu t) ->
  Q tt (set_rows (<[r := row]> (block_table_cpu t)) t) -> wp (write_row r row) Q E t.
Proof. intros Hr HQ. unfold write_row. do 3 wp_step. eapply wp_lift; [by apply store_at_ok|]. by wp_step. Qed.

(** ** The operations *)

Lemma wp_append_row t r n row ids E : bt_ok t -> row_is t r n row -> n + length ids <= max_num_blocks_per_req t ->
  wp (append_row ids r) (fun _ t' => bt_ok t' /\ same_table t t' /\ bt_rows t' = <[r := take n row ++ ids]> (bt_rows t)) E t.
Proof.
  intros Ht Hrow Hfit. pose proof (row_is_length _ _ _ _ Hrow) as Hln. pose proof (row_is_rows _ _ _ _ Hrow) as Hrows.
  destruct Hrow as [Hn Hr Hl Hle]. unfold append_row. destruct ids as [|id ids].
  { wp_step. split_and!; [done..|]. by rewrite app_nil_r, list_insert_id. }
  set (l := id :: ids) in *. wp_step. eapply wp_read_num; [done|]. wp_step. apply wp_write_num; [by eapply lookup_lt_Some|].
  wp_step. eapply wp_read_row; [exact Hr|]. wp_step. eapply wp_lift; [apply assign_range_exact; lia|].
  apply wp_write_row; [by eapply lookup_lt_Some|].
  destruct (put_row_ok t r (n + length l) (take n row ++ l ++ drop (n + length l) row) Ht) as (H1 & H2 & H3).
  - rewrite !length_app, length_drop, Hln. lia.
  - done.
  - split_and!; [done..|]. etransitivity; [exact H3|]. f_equal. rewrite app_assoc.
    rewrite take_app_le by (rewrite length_app, Hln; lia). apply take_ge. rewrite length_app, Hln. lia.
Qed.

Lemma wp_add_row t r ids E : bt_ok t -> r < bt_max_num_reqs t -> length ids <= max_num_blocks_per_req t ->
  wp (add_row ids r) (fun _ t' => bt_ok t' /\ same_table t t' /\ bt_rows t' = <[r := ids]> (bt_rows t)) E t.
Proof.
  intros Ht Hr Hfit. destruct (bt_row t r Ht Hr) as (n & row & Hrow). unfold add_row. wp_step.
  apply wp_write_num; [rewrite (bo_num t Ht); lia|].
  destruct (put_row_ok t r 0 row Ht (ri_len _ _ _ _ Hrow)) as (H1 & H2 & H3); [lia|].
  assert (set_num_blocks (<[r:=0]> (num_blocks_per_row t)) t = put_row r 0 row t) as ->.
  { unfold put_row, set_rows, set_num_blocks. cbn. by rewrite (list_insert_id (block_table_cpu t)) by apply Hrow. }
  eapply wp_mono; [apply (wp_append_row _ r 0 row); [done| |done]| |done].
  - destruct Hrow. split; cbn; rewrite ?list_lookup_insert_eq by (rewrite ?(bo_num t Ht), ?(bo_cpu t Ht); lia); try done. lia.
  - intros _ t' (G1 & G2 & G3). split_and!; [done|by etransitivity|]. rewrite G3, H3, !take_0. cbn. by rewrite list_insert_insert_eq.
Qed.

Lemma wp_move_row t src tgt n from E : bt_ok t -> row_is t src n from -> tgt < bt_max_num_reqs t ->
  wp (move_row src tgt) (fun _ t' => bt_ok t' /\ same_table t t' /\ bt_rows t' = <[tgt := take n from]> (bt_rows t)) E t.
Proof.
  intros Ht Hsrc Htgt. destruct (bt_row t tgt Ht Htgt) as (m & to & [Hm Hto Hlt Hfit]). pose proof (row_is_length _ _ _ _ Hsrc) as Hln.
  destruct Hsrc as [Hn Hr Hl Hle]. unfold move_row. wp_step. eapply wp_read_num; [done|]. wp_step. eapply wp_read_row; [exact Hr|].
  wp_step. eapply wp_read_row; [exact Hto|]. wp_step.
  eapply wp_lift. { rewrite <-Hln at 1. apply (assign_range_exact to 0). lia. }
  cbn [take app]. rewrite take_0, app_nil_l, Nat.add_0_l. wp_step. apply wp_write_row; [by eapply lookup_lt_Some|].
  apply wp_write_num; [by eapply lookup_lt_Some|].
  destruct (put_row_ok t tgt n (take n from ++ drop (length (take n from)) to) Ht) as (H1 & H2 & H3); [|done|].
  - rewrite length_app, length_drop, Hln. lia.
  - split_and!; [by destruct H1; split|done|]. etransitivity; [exact H3|]. f_equal. rewrite take_app_le by lia. apply take_ge. lia.
Qed.

Lemma wp_swap_row t src tgt n m from to E : bt_ok t -> row_is t src n from -> row_is t tgt m to ->
  wp (swap_row src tgt) (fun _ t' => bt_ok t' /\ same_table t t' /\
    bt_rows t' = <[tgt := take n from]> (<[src := take m to]> (bt_rows t))) E t.
Proof.
  intros Ht [Hn Hf Hlf Hnle] [Hm Hto Hlt Hmle]. unfold swap_row. pose proof (bo_cpu t Ht) as Hc. pose proof (bo_num t Ht) as Hu.
  pose proof (lookup_lt_Some _ _ _ Hn). pose proof (lookup_lt_Some _ _ _ Hm).
  wp_step. eapply wp_read_num; [done|]. wp_step. eapply wp_read_num; [done|].
  wp_step. apply wp_write_num; [done|]. wp_step. apply wp_write_num; [cbn; by rewrite length_insert|].
  wp_step. eapply wp_read_row; [exact Hf|]. wp_step. eapply wp_read_row; [exact Hto|].
  wp_step. apply wp_write_row; [cbn; lia|]. apply wp_write_row; [cbn; rewrite length_insert; lia|].
  destruct (put_row_ok t src m to Ht Hlt Hmle) as (H1 & H2 & H3).
  destruct (put_row_ok (put_row src m to t) tgt n from H1) as (G1 & G2 & G3); [done..|].
  split_and!; [by destruct G1; split|done|]. etransitivity; [exact G3|]. by rewrite H3.
Qed.

(** ** Refinement

    The operations of the batch on the rows, as operations on a list of lists. *)
Inductive BtOp := OpAppendRow (ids : list Z) (r : nat) | OpAddRow (ids : list Z) (r : nat) | OpMoveRow (src tgt : nat) | OpSwapRow (src tgt : nat).

Definition bt_op (o : BtOp) : M BlockTable unit :=
  match o with
  | OpAppendRow ids r => append_row ids r
  | OpAddRow ids r => add_row ids r
  | OpMoveRow src tgt => move_row src tgt
  | OpSwapRow src tgt => swap_row src tgt
  end.

(** The operation on lists; nothing if a row does not exist or has no room for the ids. *)
Definition rows_op (width : nat) (o : BtOp) (rows : list (list Z)) : option (list (list Z)) :=
  match o with
  | OpAppendRow ids r => l ← rows !! r; if length l + length ids <=? width then Some (<[r := l ++ ids]> rows) else None
  | OpAddRow ids r => _ ← rows !! r; if length ids <=? width then Some (<[r := ids]> rows) else None
  | OpMoveRow src tgt => l ← rows !! src; _ ← rows !! tgt; Some (<[tgt := l]> rows)
  | OpSwapRow src tgt => l ← rows !! src; l' ← rows !! tgt; Some (<[tgt := l]> (<[src := l']> rows))
  end.

Fixpoint bt_run (ops : list BtOp) : M BlockTable unit :=
  match ops with [] => mret tt | o :: ops => bt_op o ;; bt_run ops end.
Fixpoint rows_run (width : nat) (ops : list BtOp) (rows : list (list Z)) : option (list (list Z)) :=
  match ops with [] => Some rows | o :: ops => rows ← rows_op width o rows; rows_run width ops rows end.

Lemma row_of_lookup t r l : bt_ok t -> bt_rows t !! r = Some l -> exists n row, row_is t r n row /\ take n row = l.
Proof.
  intros Ht Hl. pose proof (lookup_lt_Some _ _ _ Hl) as Hr. rewrite bt_rows_length in Hr by done.
  destruct (bt_row t r Ht Hr) as (n & row & Hrow). exists n, row. split; [done|].
  rewrite (row_is_rows _ _ _ _ Hrow) in Hl. by injection Hl.
Qed.

Lemma wp_bt_op t o rows' E : bt_ok t -> rows_op (max_num_blocks_per_req t) o (bt_rows t) = Some rows' ->
  wp (bt_op o) (fun _ t' => bt_ok t' /\ same_table t t' /\ bt_rows t' = rows') E t.
Proof.
  intros Ht. destruct o as [ids r|ids r|src tgt|src tgt]; cbn; intros H.
  - apply bind_Some in H as (l & Hl & H). destruct (Nat.leb_spec (length l + length ids) (max_num_blocks_per_req t)) as [Hfit|]; [|done].
    injection H as <-. destruct (row_of_lookup _ _ _ Ht Hl) as (n & row & Hrow & <-). apply wp_append_row; [done..|].
    by rewrite (row_is_length _ _ _ _ Hrow) in Hfit.
  - apply bind_Some in H as (l & Hl & H). destruct (Nat.leb_spec (length ids) (max_num_blocks_per_req t)) as [Hfit|]; [|done].
    injection H as <-. apply wp_add_row; [done| |done]. apply lookup_lt_Some in Hl. by rewrite bt_rows_length in Hl.
  - apply bind_Some in H as (l & Hl & (l' & Hl' & [= <-])%bind_Some). destruct (row_of_lookup _ _ _ Ht Hl) as (n & row & Hrow & <-).
    apply wp_move_row; [done..|]. apply lookup_lt_Some in Hl'. by rewrite bt_rows_length in Hl'.
  - apply bind_Some in H as (l & Hl & (l' & Hl' & [= <-])%bind_Some).
    destruct (row_of_lookup _ _ _ Ht Hl) as (n & row & Hrow & <-), (row_of_lookup _ _ _ Ht Hl') as (n' & row' & Hrow' & <-).
    by apply wp_swap_row.
Qed.

Lemma wp_bt_run ops : forall t rows' E, bt_ok t -> rows_run (max_num_blocks_per_req t) ops (bt_rows t) = Some rows' ->
  wp (bt_run ops) (fun _ t' => bt_ok t' /\ same_table t t' /\ bt_rows t' = rows') E t.
Proof.
  induction ops as [|o ops IH]; intros t rows' E Ht H; cbn [bt_run rows_run] in *; [wp_step; by injection H as <-|].
  apply bind_Some in H as (rows & Ho & Hr). wp_step. eapply wp_mono; [by apply wp_bt_op| |done].
  intros _ t1 (H1 & H2 & H3). eapply wp_mono; [apply IH; [done|]| |done].
  - assert (max_num_blocks_per_req t1 = max_num_blocks_per_req t) as -> by apply H2. by rewrite H3.
  - intros _ t2 (G1 & G2 & G3). split_and!; [done|by etransitivity|done].
Qed.

(** * Slots *)

Section slots.
Context (t : BlockTable).
Hypothesis Ht : bt_ok t.
Hypothesis Hbs : 0 < bt_block_size t.

(** Entry [k] of row [r] is a valid id whose slots have 32-bit numbers. *)
Definition entry (r k : nat) (b : Z) : Prop :=
  (exists l, bt_rows t !! r = Some l /\ l !! k = Some b) /\ (0 <= b /\ b * Z.of_nat (bt_block_size t) < 2 ^ 31)%Z.

Lemma entry_unique r k b b' : entry r k b -> entry r k b' -> b = b'.
Proof. intros [(l & Hl & Hk) _] [(l' & Hl' & Hk') _]. congruence. Qed.

(** The flat table holds the entry where [compute_slot_mapping] reads it. *)
Lemma entry_flat r k b : entry r k b -> at_index (concat (block_table_cpu t)) (r * max_num_blocks_per_req t + k) = Ok b.
Proof.
  intros [(l & Hl & Hk) _]. destruct (row_of_lookup _ _ _ Ht Hl) as (n & row & [_ Hr Hlen Hfit] & <-).
  apply lookup_take_Some in Hk as [Hk _]. apply at_index_ok.
  assert (row_start (length <$> block_table_cpu t) r = r * max_num_blocks_per_req t) as <-; [|by eapply concat_lookup].
  unfold row_start. rewrite <-fmap_take. apply lookup_lt_Some in Hr.
  assert (forall rows, Forall (fun row : list Z => length row = max_num_blocks_per_req t) rows ->
    sum_list (length <$> rows) = length rows * max_num_blocks_per_req t) as ->.
  { induction 1 as [|x rows Hx _ IH]; [done|]. rewrite fmap_cons. change (length x + sum_list (length <$> rows) = S (length rows) * max_num_blocks_per_req t). rewrite IH, Hx. lia. }
  - rewrite length_take. f_equal. lia.
  - apply Forall_take, Ht.
Qed.

Lemma slot_of_exact r p b : entry r (p / bt_block_size t) b ->
  slot_of t r p = Ok (b * Z.of_nat (bt_block_size t) + Z.of_nat (p mod bt_block_size t))%Z.
Proof.
  intros He. unfold slot_of. rewrite (entry_flat _ _ _ He). cbn. rewrite wrap32_small; [done|]. destruct He as [_ ?]. nia.
Qed.

Lemma dcp_slot_of_exact r p b : entry r (p / (bt_block_size t * bt_dcp_world_size t)) b ->
  dcp_slot_of t r p = Ok (if (p mod (bt_block_size t * bt_dcp_world_size t)) mod bt_dcp_world_size t =? bt_dcp_rank t
    then (b * Z.of_nat (bt_block_size t) + Z.of_nat ((p mod (bt_block_size t * bt_dcp_world_size t)) / bt_dcp_world_size t))%Z else (-1)%Z).
Proof.
  intros He. unfold dcp_slot_of. rewrite (entry_flat _ _ _ He). cbn. rewrite wrap32_small; [done|]. destruct He as [_ ?]. nia.
Qed.

(** The tokens of a block are dealt to the processes of the group in turn. *)
Definition virtual_block_size : nat := bt_block_size t * bt_dcp_world_size t.
Definition owner (p : nat) : nat := (p mod virtual_block_size) mod bt_dcp_world_size t.
Definition token_slot (p : nat) (b : Z) : Z :=
  if owner p =? bt_dcp_rank t
  then (b * Z.of_nat (bt_block_size t) + Z.of_nat ((p mod virtual_block_size) / bt_dcp_world_size t))%Z else (-1)%Z.

Context (Hrank : bt_dcp_rank t < bt_dcp_world_size t).

Lemma token_slot_exact r p b : entry r (p / virtual_block_size) b ->
  (if 1 <? bt_dcp_world_size t then dcp_slot_of t r p else slot_of t r p) = Ok (token_slot p b).
Proof.
  intros He. unfold token_slot, owner, virtual_block_size in *. destruct (Nat.ltb_spec 1 (bt_dcp_world_size t)) as [Hw|Hw].
  - by apply dcp_slot_of_exact.
  - assert (bt_dcp_world_size t = 1) as Hw1 by lia. assert (bt_dcp_rank t = 0) as -> by lia. rewrite Hw1, Nat.mul_1_r in *.
    rewrite (slot_of_exact r p b He), Nat.mod_1_r, Nat.div_1_r. done.
Qed.

(** The slot of a token tells its block and its place in it. *)
Lemma token_slot_inj p b p' b' : (0 <= b)%Z -> (0 <= b')%Z -> (0 <= token_slot p b)%Z -> token_slot p b = token_slot p' b' ->
  b = b' /\ p mod virtual_block_size = p' mod virtual_block_size.
Proof.
  intros Hb Hb' H0 Heq. unfold token_slot in *. destruct (Nat.eqb_spec (owner p) (bt_dcp_rank t)) as [Ho|]; [|lia].
  destruct (Nat.eqb_spec (owner p') (bt_dcp_rank t)) as [Ho'|]; [|lia]. rewrite <-Ho' in Ho. unfold owner in Ho.
  set (x := p mod virtual_block_size) in *. set (x' := p' mod virtual_block_size) in *.
  assert (0 < virtual_block_size) as Hv by (unfold virtual_block_size; nia).
  assert (x < bt_dcp_world_size t * bt_block_size t /\ x' < bt_dcp_world_size t * bt_block_size t) as [Hx Hx'].
  { rewrite (Nat.mul_comm (bt_dcp_world_size t)). split; apply Nat.mod_upper_bound; nia. }
  apply Nat.Div0.div_lt_upper_bound in Hx, Hx'.
  assert (b = b') as -> by nia. split; [done|]. assert (x / bt_dcp_world_size t = x' / bt_dcp_world_size t) as Hd by lia.
  rewrite (Nat.div_mod_eq x (bt_dcp_world_size t)), (Nat.div_mod_eq x' (bt_dcp_world_size t)). congruence.
Qed.

(** A batch: the rows and positions of its tokens, and the ids of their blocks. *)
Definition batch_blocks (tokens : list (nat * nat)) (ids : list Z) : Prop :=
  Forall2 (fun rp b => entry rp.1 (rp.2 / virtual_block_size) b) tokens ids.
Definition batch_slots (tokens : list (nat * nat)) (ids : list Z) : list Z := zip_with (fun rp b => token_slot rp.2 b) tokens ids.

Lemma compute_slots_run tokens ids : batch_blocks tokens ids -> length tokens <= bt_max_num_batched_tokens t ->
  compute_slot_mapping tokens.*1 tokens.*2 t =
    (Ok tt, set_slots (batch_slots tokens ids ++ drop (length tokens) (slot_mapping_cpu t)) t).
Proof.
  intros Hb Hn. pose proof (Forall2_length _ _ _ Hb) as Hl.
  assert (mapM (fun '(r, p) => if 1 <? bt_dcp_world_size t then dcp_slot_of t r p else slot_of t r p) (zip tokens.*1 tokens.*2)
    = Ok (batch_slots tokens ids)) as Hm.
  { clear Hn Hl. rewrite zip_fst_snd. unfold batch_slots. induction Hb as [|[r p] b tokens ids He _ IH]; [done|]. cbn -[Nat.ltb].
    cbn in He. rewrite (token_slot_exact r p b He). cbn -[Nat.ltb]. by rewrite IH. }
  assert (length (batch_slots tokens ids) = length tokens) as Hs by (unfold batch_slots; rewrite length_zip_with; lia).
  assert (wp (compute_slot_mapping tokens.*1 tokens.*2)
    (fun _ t' => t' = set_slots (batch_slots tokens ids ++ drop (length tokens) (slot_mapping_cpu t)) t) noexc t) as Hw.
  { unfold compute_slot_mapping. do 3 wp_step. eapply wp_lift; [exact Hm|]. wp_step.
    rewrite length_fmap, <-Hs. eapply wp_lift; [apply (assign_range_exact _ 0); rewrite (bo_slots t Ht), Hs; lia|]. wp_step.
    by rewrite take_0. }
  destruct (wp_noexc_run _ _ _ Hw) as ([] & t' & Hrun & ->). exact Hrun.
Qed.
End slots.

(** The block tables of the worker, from construction on, hold for every row the list of block ids that appending,
    adding, moving and swapping rows as lists gives, as long as the rows are wide enough for it; committing copies the
    rows of the batch to the device. *)
Theorem block_table_refines bs R K T w k ops rows num_reqs : rows_run K ops (replicate R []) = Some rows ->
  exists t, (bt_run ops ;; commit_block_table num_reqs) (block_table_init bs R K T w k) = (Ok tt, t) /\ bt_rows t = rows /\
    forall r ids, r < num_reqs -> rows !! r = Some ids ->
      exists row, block_table t !! r = Some row /\ length row = K /\ take (length ids) row = ids.
Proof.
  intros Hrun. destruct (bt_init_ok bs R K T w k) as [H0 Hr0].
  destruct (wp_noexc_run _ _ _ (wp_bt_run ops _ rows noexc H0 ltac:(by rewrite Hr0))) as ([] & t1 & Ht1 & Hok & Hs & Hrows).
  eexists. unfold mbind, M_bind. rewrite Ht1. cbn. split; [done|]. split; [done|]. intros r ids Hr Hids. cbn.
  rewrite <-Hrows in Hids. destruct (row_of_lookup _ _ _ Hok Hids) as (n & row & Hrow & <-). exists row.
  rewrite lookup_app_l by (rewrite length_take; pose proof (lookup_lt_Some _ _ _ (ri_row _ _ _ _ Hrow)); lia).
  rewrite lookup_take_lt by done. split_and!; [apply Hrow| |].
  - rewrite (ri_len _ _ _ _ Hrow). by destruct Hs as (_ & _ & -> & _).
  - by rewrite (row_is_length _ _ _ _ Hrow).
Qed.

(** C39: The slots of a batch.  For tokens whose position lies in a block of their row, the mapping computed is, token by
    token, the block's first slot plus the place of the token in the block, or -1 where another process of the
    context-parallel group keeps the token, which is the case for all of its processes but one.  When no two rows write into
    the same block, no two tokens of the batch get the same slot. *)
Theorem slots_exact_and_distinct t tokens ids : bt_ok t -> 0 < bt_block_size t -> bt_dcp_rank t < bt_dcp_world_size t ->
  batch_blocks t tokens ids -> length tokens <= bt_max_num_batched_tokens t ->
  exists m, compute_slot_mapping tokens.*1 tokens.*2 t = (Ok tt, set_slots m t) /\ length m = bt_max_num_batched_tokens t /\
    (forall i r p b, tokens !! i = Some (r, p) -> ids !! i = Some b ->
       m !! i = Some (if owner t p =? bt_dcp_rank t
         then (b * Z.of_nat (bt_block_size t) + Z.of_nat (p mod virtual_block_size t / bt_dcp_world_size t))%Z else (-1)%Z) /\
       owner t p < bt_dcp_world_size t) /\
    (NoDup tokens ->
     (forall i j r p r' p' b, tokens !! i = Some (r, p) -> tokens !! j = Some (r', p') -> ids !! i = Some b -> ids !! j = Some b ->
        r = r' /\ p / virtual_block_size t = p' / virtual_block_size t) ->
     forall i j s, i < length tokens -> j < length tokens -> m !! i = Some s -> m !! j = Some s -> (0 <= s)%Z -> i = j).
Proof.
  intros Ht Hbs Hrank Hb Hn. eexists. split; [by apply compute_slots_run|]. pose proof (Forall2_length _ _ _ Hb) as Hl.
  assert (length (batch_slots t tokens ids) = length tokens) as Hs by (unfold batch_slots; rewrite length_zip_with; lia).
  assert (forall i r p b, tokens !! i = Some (r, p) -> ids !! i = Some b ->
    (batch_slots t tokens ids ++ drop (length tokens) (slot_mapping_cpu t)) !! i = Some (token_slot t p b)) as Hat.
  { intros i r p b Hi Hbi. rewrite lookup_app_l by (rewrite Hs; by eapply lookup_lt_Some). unfold batch_slots.
    by rewrite lookup_zip_with, Hi; cbn; rewrite Hbi. }
  split_and!.
  - rewrite length_app, Hs, length_drop, (bo_slots t Ht). lia.
  - intros i r p b Hi Hbi. split; [by eapply Hat|]. apply Nat.mod_upper_bound. lia.
  - intros Hnd Hex i j s Hi Hj Hsi Hsj H0.
    destruct (lookup_lt_is_Some_2 tokens i Hi) as [[r p] Hri], (lookup_lt_is_Some_2 tokens j Hj) as [[r' p'] Hrj].
    destruct (Forall2_lookup_l _ _ _ _ _ Hb Hri) as (b & Hbi & [_ [Hb0 _]]), (Forall2_lookup_l _ _ _ _ _ Hb Hrj) as (b' & Hbj & [_ [Hb0' _]]).
    rewrite (Hat _ _ _ _ Hri Hbi) in Hsi. rewrite (Hat _ _ _ _ Hrj Hbj) in Hsj. injection Hsi as <-. injection Hsj as Heq.
    destruct (token_slot_inj t Hbs Hrank p b p' b') as [<- Hmod]; [done..|]. destruct (Hex i j r p r' p' b) as [<- Hdiv]; [done..|].
    assert (p = p') as <-. { rewrite (Nat.div_mod_eq p (virtual_block_size t)), (Nat.div_mod_eq p' (virtual_block_size t)). congruence. }
    by eapply NoDup_lookup.
Qed.

(** Rows of four blocks of two tokens; request 0 has blocks 7 and 3, request 1 block 5. *)
Module TableCases.
Definition start : BlockTable := block_table_init 2 3 4 8 1 0.
Definition ops : list BtOp := [OpAddRow [9; 7] 0; OpAddRow [5] 1; OpAppendRow [3] 0; OpSwapRow 0 1; OpMoveRow 1 2; OpSwapRow 1 0]%Z.
Definition two : BlockTable := ((bt_run ops) start).2.

Example two_rows : bt_rows two = [[9; 7; 3]; [5]; [9; 7; 3]]%Z.
Proof. reflexivity. Qed.

Example two_slots : slot_mapping_cpu (compute_slot_mapping [0; 0; 1] [3; 4; 0] two).2 = [15; 6; 10; 0; 0; 0; 0; 0]%Z.
Proof. reflexivity. Qed.

(** A row that is full keeps the count of a single id more, and drops the id; two ids raise. *)
Example full_row_drops : let t := (add_row [1; 2; 3; 4]%Z 0 start).2 in
  (append_row [6]%Z 0 t).1 = Ok tt /\ num_blocks_per_row (append_row [6]%Z 0 t).2 = [5; 0; 0] /\
  block_table_cpu (append_row [6]%Z 0 t).2 = block_table_cpu t /\ (append_row [6; 8]%Z 0 t).1 = Raise ValueError.
Proof. vm_compute. done. Qed.

Lemma block_table_refines_witness : exists t, (bt_run ops ;; commit_block_table 2) start = (Ok tt, t) /\ take 3 <$> block_table t !! 0 = Some [9; 7; 3]%Z.
Proof.
  destruct (block_table_refines 2 3 4 8 1 0 ops [[9; 7; 3]; [5]; [9; 7; 3]]%Z 2 eq_refl) as (t & Hrun & _ & Hdev).
  exists t. split; [exact Hrun|]. destruct (Hdev 0 [9; 7; 3]%Z) as (row & -> & _ & H); [lia|done|]. cbn in *. by rewrite H.
Defined.

Lemma slots_exact_and_distinct_witness : exists m, compute_slot_mapping [0; 0; 1] [3; 4; 0] two = (Ok tt, set_slots m two) /\ m !! 1 = Some 6%Z.
Proof.
  destruct (wp_noexc_run _ _ _ (wp_bt_run ops start [[9; 7; 3]; [5]; [9; 7; 3]]%Z noexc (proj1 (bt_init_ok 2 3 4 8 1 0)) eq_refl))
    as ([] & t & Hrun & Hok & _). assert (t = two) as -> by (unfold two; by rewrite Hrun).
  destruct (slots_exact_and_distinct two [(0, 3); (0, 4); (1, 0)] [7; 3; 5]%Z) as (m & Hm & _ & Hat & _).
  - exact Hok.
  - vm_compute. lia.
  - vm_compute. lia.
  - repeat constructor; try (vm_compute; discriminate); eexists; split; reflexivity.
  - vm_compute. lia.
  - exists m. split; [exact Hm|]. destruct (Hat 1 0 4 3%Z eq_refl eq_refl) as [-> _]. reflexivity.
Defined.
End TableCases.
