(* ===== verification/InputBatch.v ===== *)
(** The persistent batch of the worker: [InputBatch] of [vllm/v1/worker/gpu_input_batch.py], [BatchUpdateBuilder] of
    [vllm/v1/sample/logits_processor/state.py] and [process_dict_updates] of [builtin.py] beside it.

    The arrays with a cell per index of the batch are one list of rows; the token rows have [max_model_len] cells.
    Floating-point parameters are rationals, which are only compared and copied.  A list of output tokens is shared with
    the cached state of its request and is named by the request's id.  The copies on the device, the log
    probabilities in progress and the sampling metadata are left out. *)
From stdpp Require Import base gmap sets list strings sorting.
From Stdlib Require Import ZArith QArith Lia.
From S2P Require Import Prelude NumpyArrays Request BlockTable.
Open Scope nat_scope.

(** * Changes of a step *)

Inductive MoveDirectionality : Set := UNIDIRECTIONAL | SWAP.

(** What sampling reads of the parameters of a request. *)
Record BatchSampling := mkBatchSampling {
  bs_greedy : bool;
  bs_temperature : Q;
  bs_top_p : Q;
  bs_top_k : Z;
  bs_frequency_penalty : Q;
  bs_presence_penalty : Q;
  bs_repetition_penalty : Q;
  bs_min_p : Q;
  bs_logprobs : option Z;
  bs_prompt_logprobs : option Z;
  (** empty for none *)
  bs_allowed_token_ids : list Z;
  bs_bad_words_token_ids : list (list Z);
  (** [logit_bias], empty for none; [min_tokens] and the tokens that may end the output. *)
  bs_logit_bias : list (Z * Q);
  bs_min_tokens : nat;
  bs_all_stop_token_ids : list Z
}.

(** An added request: its index, parameters, prompt and the name of its output list. *)
Record AddedRequest := mkAdded { ad_index : nat; ad_params : BatchSampling; ad_prompt : list Z; ad_output : string }.

Record BatchUpdateBuilder := mkBuilder {
  _removed : list nat;
  _is_removed_sorted : bool;
  moved : list (nat * nat * MoveDirectionality);
  added : list AddedRequest;
  batch_changed : bool
}.

Definition new_builder : BatchUpdateBuilder := mkBuilder [] false [] [] false.

Definition set_removed (l : list nat) (b : BatchUpdateBuilder) : BatchUpdateBuilder :=
  mkBuilder l (_is_removed_sorted b) (moved b) (added b) (batch_changed b).

(** [list.sort(reverse=True)] of integers. *)
Definition descending (a b : nat) : Prop := b <= a.
#[global] Instance descending_dec : RelDecision descending.
Proof. intros a b. unfold descending. apply _. Defined.
Definition sort_descending (l : list nat) : list nat := merge_sort descending l.

Definition ensure_removed_sorted (b : BatchUpdateBuilder) : BatchUpdateBuilder :=
  if _is_removed_sorted b then b
  else mkBuilder (sort_descending (_removed b)) true (moved b) (added b) (batch_changed b).

Definition removed_append (index : nat) : M BatchUpdateBuilder unit :=
  b ← get;
  if _is_removed_sorted b then raise RuntimeError
  else modify (fun b => mkBuilder (_removed b ++ [index]) (_is_removed_sorted b) (moved b) (added b) true).

Definition has_removed (b : BatchUpdateBuilder) : bool := negb (length (_removed b) =? 0).

Definition peek_removed : M BatchUpdateBuilder (option nat) :=
  b ← get;
  if has_removed b then
    modify ensure_removed_sorted ;;
    b ← get; mret (last (_removed b))
  else mret None.

Definition pop_removed : M BatchUpdateBuilder (option nat) :=
  b ← get;
  if has_removed b then
    modify ensure_removed_sorted ;;
    b ← get;
    modify (set_removed (removelast (_removed b))) ;;
    mret (last (_removed b))
  else mret None.

Definition builder_reset : M BatchUpdateBuilder bool := b ← get; modify (fun _ => new_builder) ;; mret (batch_changed b).

Record BatchUpdate := mkBatchUpdate {
  bu_batch_size : nat;
  bu_removed : list nat;
  bu_added : list AddedRequest;
  bu_moved : list (nat * nat * MoveDirectionality)
}.

(** After a step without changes the lists stay as they are, empty. *)
Definition get_and_reset (batch_size : nat) : M BatchUpdateBuilder (option BatchUpdate) :=
  b ← get;
  modify (fun b => mkBuilder (_removed b) false (moved b) (added b) false) ;;
  match _removed b, moved b, added b with
  | [], [], [] => mret None
  | r, m, a => modify (fun b => mkBuilder [] (_is_removed_sorted b) [] [] (batch_changed b)) ;; mret (Some (mkBatchUpdate batch_size r a m))
  end.

(** ** The dictionaries of logits processors *)

Section process.
Context {T : Type} (new_state : BatchSampling -> list Z -> string -> option T).

Definition process_added (d : gmap nat T) (a : AddedRequest) : gmap nat T :=
  match new_state (ad_params a) (ad_prompt a) (ad_output a) with
  | Some st => <[ad_index a := st]> d
  | None => delete (ad_index a) d
  end.

(** [a_entry = pop(a)], [b_entry = pop(b)], then the assignments. *)
Definition process_moved (d : gmap nat T) (m : nat * nat * MoveDirectionality) : gmap nat T :=
  let '(a, b, direct) := m in
  let a_entry := d !! a in
  let d := delete a d in
  let b_entry := d !! b in
  let d := delete b d in
  let d := match a_entry with Some e => <[b := e]> d | None => d end in
  match b_entry, direct with Some e, SWAP => <[a := e]> d | _, _ => d end.

(** [process_dict_updates], without the answer whether anything changed.  The guard [if req_entries] skips work on an
    empty dictionary only. *)
Definition process_dict_updates (d : gmap nat T) (u : option BatchUpdate) : gmap nat T :=
  match u with
  | None => d
  | Some u =>
      let d := foldl process_added d (bu_added u) in
      if decide (d = ∅) then d
      else foldl process_moved (foldl (fun d i => delete i d) d (bu_removed u)) (bu_moved u)
  end.
End process.

(** * The batch *)

(** A request as the worker caches it; [pooling_params] is its [requires_token_ids]. *)
Record CachedRequestState := mkCachedState {
  cs_req_id : string;
  cs_prompt_token_ids : list Z;
  cs_sampling_params : option BatchSampling;
  cs_pooling_params : option bool;
  cs_generator : option nat;
  cs_block_ids : list (list Z);
  cs_num_computed_tokens : nat;
  cs_output_token_ids : list Z;
  cs_lora_request : option LoRARequest
}.

Definition cs_num_tokens (r : CachedRequestState) : nat := length (cs_prompt_token_ids r) + length (cs_output_token_ids r).

Definition get_token_id (r : CachedRequestState) (idx : nat) : outcome Z :=
  if idx <? length (cs_prompt_token_ids r) then at_index (cs_prompt_token_ids r) idx
  else at_index (cs_output_token_ids r) (idx - length (cs_prompt_token_ids r)).

(** The columns of sampling parameters. *)
Record SamplingCells := mkCells {
  sc_temperature : Q;
  sc_top_p : Q;
  sc_top_k : Z;
  sc_frequency_penalty : Q;
  sc_presence_penalty : Q;
  sc_repetition_penalty : Q;
  sc_num_accepted_tokens : nat
}.

(** The cells of one index. *)
Record Row := mkRow {
  row_token_ids : list Z;
  row_num_tokens : nat;
  row_num_tokens_no_spec : nat;
  row_num_prompt_tokens : nat;
  row_num_computed_tokens : nat;
  row_lora : Z;
  row_sampling : SamplingCells;
  row_needs_token_ids : bool
}.

(** Sets of request ids. *)
Record ReqSets := mkSets {
  greedy_reqs : gset string;
  random_reqs : gset string;
  top_p_reqs : gset string;
  top_k_reqs : gset string;
  spec_decode_unsupported_reqs : gset string;
  frequency_penalties_reqs : gset string;
  presence_penalties_reqs : gset string;
  repetition_penalties_reqs : gset string;
  has_allowed_token_ids : gset string
}.

Record InputBatch := mkBatch {
  ib_max_num_reqs : nat;
  ib_max_model_len : nat;
  ib_vocab_size : nat;
  is_spec_decode : bool;
  is_pooling_model : bool;
  _req_ids : list (option string);
  req_output_token_ids : list (option string);
  req_id_to_index : gmap string nat;
  ib_rows : list Row;
  ib_block_table : list BlockTable;
  ib_sets : ReqSets;
  num_logprobs : gmap string Z;
  num_prompt_logprobs : gmap string Z;
  lora_id_to_request_ids : gmap Z (gset string);
  lora_id_to_lora_request : gmap Z LoRARequest;
  generators : gmap nat nat;
  bad_words_token_ids : gmap nat (list (list Z));
  allowed_token_ids_mask : option (list (list bool));
  ib_pooling_params : gmap string bool;
  batch_update_builder : BatchUpdateBuilder
}.

(** Assignments to attributes. *)
Definition set_roster (ids outs : list (option string)) (index : gmap string nat) (b : InputBatch) : InputBatch :=
  mkBatch
    (ib_max_num_reqs b) (ib_max_model_len b) (ib_vocab_size b) (is_spec_decode b) (is_pooling_model b) ids outs
    index (ib_rows b) (ib_block_table b) (ib_sets b) (num_logprobs b) (num_prompt_logprobs b)
    (lora_id_to_request_ids b) (lora_id_to_lora_request b) (generators b) (bad_words_token_ids b)
    (allowed_token_ids_mask b) (ib_pooling_params b) (batch_update_builder b).
Definition set_ib_rows (rows : list Row) (b : InputBatch) : InputBatch :=
  mkBatch
    (ib_max_num_reqs b) (ib_max_model_len b) (ib_vocab_size b) (is_spec_decode b) (is_pooling_model b)
    (_req_ids b) (req_output_token_ids b) (req_id_to_index b) rows (ib_block_table b) (ib_sets b)
    (num_logprobs b) (num_prompt_logprobs b) (lora_id_to_request_ids b) (lora_id_to_lora_request b)
    (generators b) (bad_words_token_ids b) (allowed_token_ids_mask b) (ib_pooling_params b)
    (batch_update_builder b).
Definition set_tables (ts : list BlockTable) (b : InputBatch) : InputBatch :=
  mkBatch
    (ib_max_num_reqs b) (ib_max_model_len b) (ib_vocab_size b) (is_spec_decode b) (is_pooling_model b)
    (_req_ids b) (req_output_token_ids b) (req_id_to_index b) (ib_rows b) ts (ib_sets b) (num_logprobs b)
    (num_prompt_logprobs b) (lora_id_to_request_ids b) (lora_id_to_lora_request b) (generators b)
    (bad_words_token_ids b) (allowed_token_ids_mask b) (ib_pooling_params b) (batch_update_builder b).
Definition set_sets (x : ReqSets) (b : InputBatch) : InputBatch :=
  mkBatch
    (ib_max_num_reqs b) (ib_max_model_len b) (ib_vocab_size b) (is_spec_decode b) (is_pooling_model b)
    (_req_ids b) (req_output_token_ids b) (req_id_to_index b) (ib_rows b) (ib_block_table b) x (num_logprobs b)
    (num_prompt_logprobs b) (lora_id_to_request_ids b) (lora_id_to_lora_request b) (generators b)
    (bad_words_token_ids b) (allowed_token_ids_mask b) (ib_pooling_params b) (batch_update_builder b).
Definition set_logprobs (x y : gmap string Z) (b : InputBatch) : InputBatch :=
  mkBatch
    (ib_max_num_reqs b) (ib_max_model_len b) (ib_vocab_size b) (is_spec_decode b) (is_pooling_model b)
    (_req_ids b) (req_output_token_ids b) (req_id_to_index b) (ib_rows b) (ib_block_table b) (ib_sets b) x y
    (lora_id_to_request_ids b) (lora_id_to_lora_request b) (generators b) (bad_words_token_ids b)
    (allowed_token_ids_mask b) (ib_pooling_params b) (batch_update_builder b).
Definition set_loras (x : gmap Z (gset string)) (y : gmap Z LoRARequest) (b : InputBatch) : InputBatch :=
  mkBatch
    (ib_max_num_reqs b) (ib_max_model_len b) (ib_vocab_size b) (is_spec_decode b) (is_pooling_model b)
    (_req_ids b) (req_output_token_ids b) (req_id_to_index b) (ib_rows b) (ib_block_table b) (ib_sets b)
    (num_logprobs b) (num_prompt_logprobs b) x y (generators b) (bad_words_token_ids b)
    (allowed_token_ids_mask b) (ib_pooling_params b) (batch_update_builder b).
Definition set_generators (x : gmap nat nat) (b : InputBatch) : InputBatch :=
  mkBatch
    (ib_max_num_reqs b) (ib_max_model_len b) (ib_vocab_size b) (is_spec_decode b) (is_pooling_model b)
    (_req_ids b) (req_output_token_ids b) (req_id_to_index b) (ib_rows b) (ib_block_table b) (ib_sets b)
    (num_logprobs b) (num_prompt_logprobs b) (lora_id_to_request_ids b) (lora_id_to_lora_request b) x
    (bad_words_token_ids b) (allowed_token_ids_mask b) (ib_pooling_params b) (batch_update_builder b).
Definition set_bad_words (x : gmap nat (list (list Z))) (b : InputBatch) : InputBatch :=
  mkBatch
    (ib_max_num_reqs b) (ib_max_model_len b) (ib_vocab_size b) (is_spec_decode b) (is_pooling_model b)
    (_req_ids b) (req_output_token_ids b) (req_id_to_index b) (ib_rows b) (ib_block_table b) (ib_sets b)
    (num_logprobs b) (num_prompt_logprobs b) (lora_id_to_request_ids b) (lora_id_to_lora_request b)
    (generators b) x (allowed_token_ids_mask b) (ib_pooling_params b) (batch_update_builder b).
Definition set_mask (x : option (list (list bool))) (b : InputBatch) : InputBatch :=
  mkBatch
    (ib_max_num_reqs b) (ib_max_model_len b) (ib_vocab_size b) (is_spec_decode b) (is_pooling_model b)
    (_req_ids b) (req_output_token_ids b) (req_id_to_index b) (ib_rows b) (ib_block_table b) (ib_sets b)
    (num_logprobs b) (num_prompt_logprobs b) (lora_id_to_request_ids b) (lora_id_to_lora_request b)
    (generators b) (bad_words_token_ids b) x (ib_pooling_params b) (batch_update_builder b).
Definition set_pooling (x : gmap string bool) (b : InputBatch) : InputBatch :=
  mkBatch
    (ib_max_num_reqs b) (ib_max_model_len b) (ib_vocab_size b) (is_spec_decode b) (is_pooling_model b)
    (_req_ids b) (req_output_token_ids b) (req_id_to_index b) (ib_rows b) (ib_block_table b) (ib_sets b)
    (num_logprobs b) (num_prompt_logprobs b) (lora_id_to_request_ids b) (lora_id_to_lora_request b)
    (generators b) (bad_words_token_ids b) (allowed_token_ids_mask b) x (batch_update_builder b).
Definition set_builder (x : BatchUpdateBuilder) (b : InputBatch) : InputBatch :=
  mkBatch
    (ib_max_num_reqs b) (ib_max_model_len b) (ib_vocab_size b) (is_spec_decode b) (is_pooling_model b)
    (_req_ids b) (req_output_token_ids b) (req_id_to_index b) (ib_rows b) (ib_block_table b) (ib_sets b)
    (num_logprobs b) (num_prompt_logprobs b) (lora_id_to_request_ids b) (lora_id_to_lora_request b)
    (generators b) (bad_words_token_ids b) (allowed_token_ids_mask b) (ib_pooling_params b) x.

Definition num_reqs (b : InputBatch) : nat := size (req_id_to_index b).

(** [InputBatch.__init__].  The columns of sampling parameters are not initialized there; any values may be in them. *)
Definition input_batch_init (max_num_reqs max_model_len max_tokens vocab_size : nat) (spec_decode pooling : bool)
    (block_sizes : list nat) (num_speculative_tokens dcp_world_size dcp_rank : nat) (cells : SamplingCells) : InputBatch :=
  mkBatch max_num_reqs max_model_len vocab_size spec_decode pooling [] [] ∅
    (replicate max_num_reqs (mkRow (replicate max_model_len 0%Z) 0 0 0 0 0%Z cells false))
    (multi_group_init max_num_reqs (Z.of_nat max_model_len) max_tokens block_sizes num_speculative_tokens dcp_world_size dcp_rank)
    (mkSets ∅ ∅ ∅ ∅ ∅ ∅ ∅ ∅ ∅) ∅ ∅ ∅ ∅ ∅ ∅ None ∅ new_builder.

Definition on_builder {A} (m : M BatchUpdateBuilder A) : M InputBatch A := zoom batch_update_builder set_builder m.
Definition on_tables {A} (m : M (list BlockTable) A) : M InputBatch A := zoom ib_block_table set_tables m.

Definition read_cells (i : nat) : M InputBatch Row := b ← get; lift_out (at_index (ib_rows b) i).
Definition write_cells (i : nat) (r : Row) : M InputBatch unit :=
  b ← get; rows ← lift_out (store_at (ib_rows b) i r); modify (set_ib_rows rows).

(** Assignments to cells of a row. *)
Definition with_tokens (l : list Z) (r : Row) : Row :=
  mkRow l (row_num_tokens r) (row_num_tokens_no_spec r) (row_num_prompt_tokens r) (row_num_computed_tokens r) (row_lora r) (row_sampling r) (row_needs_token_ids r).
Definition with_counts (tokens no_spec prompt computed : nat) (r : Row) : Row :=
  mkRow (row_token_ids r) tokens no_spec prompt computed (row_lora r) (row_sampling r) (row_needs_token_ids r).
Definition with_lora (z : Z) (r : Row) : Row :=
  mkRow (row_token_ids r) (row_num_tokens r) (row_num_tokens_no_spec r) (row_num_prompt_tokens r) (row_num_computed_tokens r) z (row_sampling r) (row_needs_token_ids r).
Definition with_sampling (c : SamplingCells) (r : Row) : Row :=
  mkRow (row_token_ids r) (row_num_tokens r) (row_num_tokens_no_spec r) (row_num_prompt_tokens r) (row_num_computed_tokens r) (row_lora r) c (row_needs_token_ids r).
Definition with_needs (x : bool) (r : Row) : Row :=
  mkRow (row_token_ids r) (row_num_tokens r) (row_num_tokens_no_spec r) (row_num_prompt_tokens r) (row_num_computed_tokens r) (row_lora r) (row_sampling r) x.
Definition with_accepted (n : nat) (r : Row) : Row :=
  let c := row_sampling r in
  with_sampling (mkCells (sc_temperature c) (sc_top_p c) (sc_top_k c) (sc_frequency_penalty c) (sc_presence_penalty c) (sc_repetition_penalty c) n) r.

Definition update_cells (i : nat) (f : Row -> Row) : M InputBatch unit := r ← read_cells i; write_cells i (f r).

(** ** [add_request] *)

Definition register_add_request (r : CachedRequestState) : M InputBatch nat :=
  popped ← on_builder pop_removed;
  b ← get;
  let new_req_index := match popped with Some i => i | None => num_reqs b end in
  assertM (new_req_index <? ib_max_num_reqs b) ;;
  modify (fun b =>
    let u := batch_update_builder b in
    set_builder (mkBuilder (_removed u) (_is_removed_sorted u) (moved u)
      (match cs_sampling_params r with
       | Some p => added u ++ [mkAdded new_req_index p (cs_prompt_token_ids r) (cs_req_id r)]
       | None => added u
       end) true) b) ;;
  mret new_req_index.

(** The entry of [_req_ids] and of [req_output_token_ids]. *)
Definition enlist (i : nat) (id : string) : M InputBatch unit :=
  b ← get;
  if i =? length (_req_ids b)
  then modify (fun b => set_roster (_req_ids b ++ [Some id]) (req_output_token_ids b ++ [Some id]) (req_id_to_index b) b)
  else
    ids ← lift_out (store_at (_req_ids b) i (Some id));
    outs ← lift_out (store_at (req_output_token_ids b) i (Some id));
    modify (fun b => set_roster ids outs (req_id_to_index b) b).

(** [if sampling_params.top_p < 1] and the like. *)
Definition add_if (c : bool) (id : string) (s : gset string) : gset string := if c then {[id]} ∪ s else s.

Definition is_spec_decode_unsupported (p : BatchSampling) : bool :=
  negb (Qeq_bool (bs_frequency_penalty p) 0) || negb (Qeq_bool (bs_presence_penalty p) 0)
  || negb (Qeq_bool (bs_repetition_penalty p) 1) || negb (Qle_bool (bs_min_p p) (1 # 100000)) || bool_decide (is_Some (bs_logprobs p)).

Definition effective_top_k (vocab_size : nat) (p : BatchSampling) : Z :=
  if (0 <? bs_top_k p)%Z && (bs_top_k p <? Z.of_nat vocab_size)%Z then bs_top_k p else Z.of_nat vocab_size.

Definition add_to_sets (b : InputBatch) (id : string) (p : BatchSampling) : ReqSets :=
  let s := ib_sets b in
  mkSets (add_if (bs_greedy p) id (greedy_reqs s))
    (add_if (negb (bs_greedy p)) id (random_reqs s))
    (add_if (negb (Qle_bool 1 (bs_top_p p))) id (top_p_reqs s))
    (add_if ((0 <? bs_top_k p)%Z && (bs_top_k p <? Z.of_nat (ib_vocab_size b))%Z) id (top_k_reqs s))
    (add_if (is_spec_decode b && is_spec_decode_unsupported p) id (spec_decode_unsupported_reqs s))
    (add_if (negb (Qeq_bool (bs_frequency_penalty p) 0)) id (frequency_penalties_reqs s))
    (add_if (negb (Qeq_bool (bs_presence_penalty p) 0)) id (presence_penalties_reqs s))
    (add_if (negb (Qeq_bool (bs_repetition_penalty p) 1)) id (repetition_penalties_reqs s))
    (add_if (negb (length (bs_allowed_token_ids p) =? 0)) id (has_allowed_token_ids s)).

Definition sampling_cells (vocab_size : nat) (p : BatchSampling) (accepted : nat) : SamplingCells :=
  mkCells (if bs_greedy p then (-1)%Q else bs_temperature p) (bs_top_p p) (effective_top_k vocab_size p)
    (bs_frequency_penalty p) (bs_presence_penalty p) (bs_repetition_penalty p) accepted.

(** The number of log probabilities, -1 for all. *)
Definition logprobs_entry (vocab_size : nat) (id : string) (n : option Z) (m : gmap string Z) : gmap string Z :=
  match n with
  | Some n => <[id := if (n =? -1)%Z then Z.of_nat vocab_size else n]> m
  | None => m
  end.

(** [mask[req_index] = True], then [mask[req_index][allowed] = False]. *)
Fixpoint clear_bits (row : list bool) (ids : list Z) : outcome (list bool) :=
  match ids with
  | [] => Ok row
  | t :: ids =>
      let n := Z.of_nat (length row) in
      let i := if (t <? 0)%Z then (t + n)%Z else t in
      if (0 <=? i)%Z && (i <? n)%Z then clear_bits (<[Z.to_nat i := false]> row) ids else Raise IndexError
  end.

Definition add_mask (i : nat) (p : BatchSampling) : M InputBatch unit :=
  match bs_allowed_token_ids p with
  | [] => mret tt
  | ids =>
      b ← get;
      let mask := default (replicate (ib_max_num_reqs b) (replicate (ib_vocab_size b) false)) (allowed_token_ids_mask b) in
      modify (set_mask (Some mask)) ;;
      mask' ← lift_out (store_at mask i (replicate (ib_vocab_size b) true));
      modify (set_mask (Some mask')) ;;
      row ← lift_out (clear_bits (replicate (ib_vocab_size b) true) ids);
      mask'' ← lift_out (store_at mask' i row);
      modify (set_mask (Some mask''))
  end.

Definition add_sampling (i : nat) (id : string) (generator : option nat) (p : BatchSampling) : M InputBatch unit :=
  modify (fun b => set_sets (add_to_sets b id p) b) ;;
  b ← get;
  update_cells i (fun r => with_sampling (sampling_cells (ib_vocab_size b) p (sc_num_accepted_tokens (row_sampling r))) r) ;;
  modify (fun b => set_generators (match generator with Some g => <[i := g]> (generators b) | None => generators b end) b) ;;
  modify (fun b => set_logprobs (logprobs_entry (ib_vocab_size b) id (bs_logprobs p) (num_logprobs b))
                     (logprobs_entry (ib_vocab_size b) id (bs_prompt_logprobs p) (num_prompt_logprobs b)) b) ;;
  add_mask i p ;;
  match bs_bad_words_token_ids p with
  | [] => mret tt
  | w => modify (fun b => set_bad_words (<[i := w]> (bad_words_token_ids b)) b)
  end.

Definition add_lora (i : nat) (id : string) (lora : option LoRARequest) : M InputBatch unit :=
  match lora with
  | Some l =>
      let z := lora_int_id l in
      update_cells i (with_lora z) ;;
      modify (fun b => set_loras (<[z := {[id]} ∪ default ∅ (lora_id_to_request_ids b !! z)]> (lora_id_to_request_ids b))
                         (<[z := l]> (lora_id_to_lora_request b)) b)
  | None => update_cells i (with_lora 0%Z)
  end.

Definition add_request (r : CachedRequestState) : M InputBatch nat :=
  i ← register_add_request r;
  let id := cs_req_id r in
  enlist i id ;;
  modify (fun b => set_roster (_req_ids b) (req_output_token_ids b) (<[id := i]> (req_id_to_index b)) b) ;;
  let n := length (cs_prompt_token_ids r) in
  update_cells i (fun row => with_counts (row_num_tokens row) (row_num_tokens_no_spec row) n (row_num_computed_tokens row) row) ;;
  row ← read_cells i;
  tokens ← lift_out (assign_range (row_token_ids row) 0 n (cs_prompt_token_ids r));
  write_cells i (with_tokens tokens row) ;;
  tokens ← lift_out (assign_range tokens n (n + length (cs_output_token_ids r)) (cs_output_token_ids r));
  update_cells i (fun row => with_counts (cs_num_tokens r) (cs_num_tokens r) n (cs_num_computed_tokens r) (with_tokens tokens row)) ;;
  on_tables (mg_add_row (cs_block_ids r) i) ;;
  match cs_sampling_params r, cs_pooling_params r with
  | Some p, _ => add_sampling i id (cs_generator r) p
  | None, Some needs =>
      modify (fun b => set_pooling (<[id := needs]> (ib_pooling_params b)) b) ;;
      update_cells i (with_needs needs)
  | None, None => raise NotImplementedError
  end ;;
  update_cells i (with_accepted 1) ;;
  add_lora i id (cs_lora_request r) ;;
  mret i.

(** ** [remove_request] *)

Definition remove_lora (i : nat) (id : string) : M InputBatch unit :=
  row ← read_cells i;
  let z := row_lora row in
  if (z =? 0)%Z then mret tt
  else
    b ← get;
    match lora_id_to_request_ids b !! z with
    | None => raise KeyError
    | Some ids =>
        let ids := ids ∖ {[id]} in
        if decide (ids = ∅)
        then modify (fun b => set_loras (delete z (lora_id_to_request_ids b)) (delete z (lora_id_to_lora_request b)) b)
        else modify (fun b => set_loras (<[z := ids]> (lora_id_to_request_ids b)) (lora_id_to_lora_request b) b)
    end ;;
    update_cells i (with_lora 0%Z).

Definition discard_all (id : string) (s : ReqSets) : ReqSets :=
  mkSets (greedy_reqs s ∖ {[id]}) (random_reqs s ∖ {[id]}) (top_p_reqs s ∖ {[id]}) (top_k_reqs s ∖ {[id]})
    (spec_decode_unsupported_reqs s ∖ {[id]}) (frequency_penalties_reqs s ∖ {[id]}) (presence_penalties_reqs s ∖ {[id]})
    (repetition_penalties_reqs s ∖ {[id]}) (has_allowed_token_ids s ∖ {[id]}).

Definition remove_request (id : string) : M InputBatch (option nat) :=
  b ← get;
  match req_id_to_index b !! id with
  | None => mret None
  | Some i =>
      modify (fun b => set_roster (_req_ids b) (req_output_token_ids b) (delete id (req_id_to_index b)) b) ;;
      on_builder (removed_append i) ;;
      b ← get;
      ids ← lift_out (store_at (_req_ids b) i None);
      outs ← lift_out (store_at (req_output_token_ids b) i None);
      modify (fun b => set_roster ids outs (req_id_to_index b) b) ;;
      remove_lora i id ;;
      if is_pooling_model b then modify (fun b => set_pooling (delete id (ib_pooling_params b)) b) ;; mret (Some i)
      else
        modify (fun b => set_sets (discard_all id (ib_sets b)) b) ;;
        modify (fun b => set_generators (delete i (generators b)) b) ;;
        modify (fun b => set_logprobs (delete id (num_logprobs b)) (delete id (num_prompt_logprobs b)) b) ;;
        modify (fun b => set_mask ((fun mask => <[i := replicate (ib_vocab_size b) false]> mask) <$> allowed_token_ids_mask b) b) ;;
        modify (fun b => set_bad_words (delete i (bad_words_token_ids b)) b) ;;
        mret (Some i)
  end.

(** ** [swap_states] *)

Definition swap_dict_values {V} (d : gmap nat V) (i j : nat) : gmap nat V :=
  let v1 := d !! i in
  let v2 := d !! j in
  let d := match v1 with Some v => <[j := v]> d | None => delete j d end in
  match v2 with Some v => <[i := v]> d | None => delete i d end.

(** Two cells of a list exchange their values. *)
Definition swap_cells {A} (l : list A) (i j : nat) : outcome (list A) :=
  x ← at_index l i; y ← at_index l j; Ok (<[j := x]> (<[i := y]> l)).

(** What [swap_states] exchanges between two rows: first what every model has, then the sampling columns. *)
Definition take_states (from to : Row) : Row :=
  with_lora (row_lora from)
    (with_counts (row_num_tokens from) (row_num_tokens_no_spec from) (row_num_prompt_tokens from) (row_num_computed_tokens from)
      (with_tokens (row_token_ids from) to)).
Definition take_sampling (from to : Row) : Row := with_sampling (row_sampling from) to.

Definition swap_rows (f : Row -> Row -> Row) (i j : nat) : M InputBatch unit :=
  x ← read_cells i; y ← read_cells j; write_cells i (f y x) ;; write_cells j (f x y).

Definition record_move (i j : nat) (d : MoveDirectionality) : M InputBatch unit :=
  modify (fun b => let u := batch_update_builder b in
    set_builder (mkBuilder (_removed u) (_is_removed_sorted u) (moved u ++ [(i, j, d)]) (added u) (batch_changed u)) b).

(** The rows of the mask are views of one tensor: the tuple assignment copies row [j] to row [i], and then row [i], which
    has changed, to row [j]. *)
Definition swap_mask_rows (i j : nat) : M InputBatch unit :=
  b ← get;
  match allowed_token_ids_mask b with
  | None => mret tt
  | Some mask =>
      _ ← lift_out (at_index mask i);
      y ← lift_out (at_index mask j);
      mask ← lift_out (store_at mask i y);
      y ← lift_out (at_index mask i);
      mask ← lift_out (store_at mask j y);
      modify (set_mask (Some mask))
  end.

Definition swap_states (i j : nat) : M InputBatch unit :=
  b ← get;
  old_i ← lift_out (at_index (_req_ids b) i);
  old_j ← lift_out (at_index (_req_ids b) j);
  ids ← lift_out (swap_cells (_req_ids b) i j);
  outs ← lift_out (swap_cells (req_output_token_ids b) i j);
  modify (fun b => set_roster ids outs (req_id_to_index b) b) ;;
  match old_i, old_j with
  | Some id_i, Some id_j =>
      match req_id_to_index b !! id_i, req_id_to_index b !! id_j with
      | Some x, Some y => modify (fun b => set_roster ids outs (<[id_j := x]> (<[id_i := y]> (req_id_to_index b))) b)
      | _, _ => raise KeyError
      end
  | _, _ => raise AssertionError
  end ;;
  swap_rows take_states i j ;;
  on_tables (mg_swap_row i j) ;;
  if is_pooling_model b then mret tt
  else
    record_move i j SWAP ;;
    swap_rows take_sampling i j ;;
    modify (fun b => set_generators (swap_dict_values (generators b) i j) b) ;;
    modify (fun b => set_bad_words (swap_dict_values (bad_words_token_ids b) i j) b) ;;
    swap_mask_rows i j.

(** ** [condense] *)

(** [while last_req_index in empty_req_indices: last_req_index -= 1]; it ends at a request, as there is one. *)
Fixpoint skip_removed (removed : list nat) (last_req_index : nat) : nat :=
  if decide (last_req_index ∈ removed)
  then match last_req_index with O => O | S l => skip_removed removed l end
  else last_req_index.

(** [d.pop(last)], and the value stored under [empty] if there was one. *)
Definition move_entry {V} (d : gmap nat V) (last empty : nat) : gmap nat V :=
  match d !! last with Some v => <[empty := v]> (delete last d) | None => d end.

(** The request at [last] moves to [empty]. *)
Definition move_request (last empty : nat) : M InputBatch unit :=
  b ← get;
  id ← lift_out (at_index (_req_ids b) last);
  out ← lift_out (at_index (req_output_token_ids b) last);
  assertM (bool_decide (is_Some id)) ;;
  ids ← lift_out (store_at (_req_ids b) empty id);
  ids ← lift_out (store_at ids last None);
  outs ← lift_out (store_at (req_output_token_ids b) empty out);
  outs ← lift_out (store_at outs last None);
  modify (fun b => set_roster ids outs
    (match id with Some id => <[id := empty]> (req_id_to_index b) | None => req_id_to_index b end) b) ;;
  from ← read_cells last;
  to ← read_cells empty;
  let n := row_num_tokens from in
  tokens ← lift_out (assign_range (row_token_ids to) 0 n (take n (row_token_ids from)));
  write_cells empty (with_counts n (row_num_tokens_no_spec from) (row_num_prompt_tokens from) (row_num_computed_tokens from)
                       (with_tokens tokens to)) ;;
  on_tables (mg_move_row last empty) ;;
  update_cells empty (with_lora (row_lora from)) ;;
  b ← get;
  if is_pooling_model b then mret tt
  else
    record_move last empty UNIDIRECTIONAL ;;
    update_cells empty (take_sampling from) ;;
    modify (fun b => set_generators (move_entry (generators b) last empty) b) ;;
    b ← get;
    match allowed_token_ids_mask b with
    | None => mret tt
    | Some mask =>
        row ← lift_out (at_index mask last);
        mask ← lift_out (store_at mask empty row);
        modify (set_mask (Some mask))
    end ;;
    modify (fun b => set_bad_words (move_entry (bad_words_token_ids b) last empty) b).

(** The loop; an iteration that does not break takes an index from [removed]. *)
Fixpoint condense_loop (fuel last_req_index : nat) : M InputBatch unit :=
  match fuel with
  | O => mret tt
  | S f =>
      b ← get;
      match _removed (batch_update_builder b) with
      | [] => mret tt
      | removed =>
          let last_req_index := skip_removed removed last_req_index in
          peeked ← on_builder peek_removed;
          match peeked with
          | None => raise AssertionError
          | Some empty_index =>
              if last_req_index <=? empty_index then mret tt
              else
                on_builder pop_removed ;;
                move_request last_req_index empty_index ;;
                condense_loop f (last_req_index - 1)
          end
      end
  end.

Definition condense : M InputBatch unit :=
  b ← get;
  let n := num_reqs b in
  modify (fun b => set_builder (ensure_removed_sorted (batch_update_builder b)) b) ;;
  b ← get;
  match _removed (batch_update_builder b) with
  | [] => mret tt
  | removed =>
      if n =? 0 then modify (fun b => set_roster [] [] (req_id_to_index b) b)
      else
        condense_loop (S (length removed)) (n + length removed - 1) ;;
        modify (fun b => set_roster (take n (_req_ids b)) (take n (req_output_token_ids b)) (req_id_to_index b) b)
  end.

(** [refresh_metadata] without the sampling metadata: the update handed to the logits processors. *)
Definition refresh_metadata : M InputBatch (option BatchUpdate) :=
  b ← get;
  if is_pooling_model b then on_builder builder_reset ;; mret None
  else on_builder (get_and_reset (num_reqs b)).

(** ** Reading *)

Definition all_greedy (b : InputBatch) : bool := bool_decide (random_reqs (ib_sets b) = ∅).
Definition all_random (b : InputBatch) : bool := bool_decide (greedy_reqs (ib_sets b) = ∅).
Definition no_top_p (b : InputBatch) : bool := bool_decide (top_p_reqs (ib_sets b) = ∅).
Definition no_top_k (b : InputBatch) : bool := bool_decide (top_k_reqs (ib_sets b) = ∅).
Definition no_penalties (b : InputBatch) : bool :=
  bool_decide (presence_penalties_reqs (ib_sets b) = ∅) && bool_decide (frequency_penalties_reqs (ib_sets b) = ∅)
  && bool_decide (repetition_penalties_reqs (ib_sets b) = ∅).
Definition no_prompt_logprob (b : InputBatch) : bool := bool_decide (num_prompt_logprobs b = ∅).
Definition no_allowed_token_ids (b : InputBatch) : bool := bool_decide (has_allowed_token_ids (ib_sets b) = ∅).

Definition max_num_logprobs (b : InputBatch) : option Z :=
  match (map_to_list (num_logprobs b)).*2 with [] => None | x :: l => Some (foldl Z.max x l) end.

Definition get_pooling_params (b : InputBatch) : outcome (list bool) :=
  _ ← assert_ (length (_req_ids b) =? size (ib_pooling_params b));
  mapM (fun id => match id ≫= fun id => ib_pooling_params b !! id with Some p => Ok p | None => Raise KeyError end) (_req_ids b).

(** [make_lora_inputs]: the adapter of each request and of each token, and the active adapters. *)
Definition make_lora_inputs (b : InputBatch) (num_scheduled_tokens : list Z) : list Z * list Z * list LoRARequest :=
  let m := take (num_reqs b) (row_lora <$> ib_rows b) in
  (m, repeat_each m num_scheduled_tokens, (map_to_list (lora_id_to_lora_request b)).*2).
