(* ===== verification/InputBatchFacts.v ===== *)
(** What the persistent batch of the worker keeps: every request's cells stay its own through removals, additions,
    condensing and swaps, and the updates handed to logits processors describe what happened. *)
From stdpp Require Import base gmap sets list strings sorting.
From Stdlib Require Import ZArith QArith Lia.
From S2P Require Import Prelude NumpyArrays Request BlockTable InputBatch.
Open Scope nat_scope.

(** * Loops over the block tables *)

Lemma wp_on_table {A} (ts : list BlockTable) i t (m : M BlockTable A) (Q : A -> list BlockTable -> Prop) E :
  ts !! i = Some t -> wp m (fun a t' => Q a (<[i := t']> ts)) (fun e t' => E e (<[i := t']> ts)) t -> wp (on_table i m) Q E ts.
Proof.
  intros Hi Hm. unfold on_table. do 2 wp_step. rewrite Hi. unfold wp in Hm. destruct (m t) as [[a|e] t']; wp_step; wp_step; done.
Qed.

(** Every table does its part, and the others do not change it. *)
Lemma wp_for_tables (f : nat -> M BlockTable unit) (P : nat -> BlockTable -> BlockTable -> Prop) ts E :
  (forall i t, ts !! i = Some t -> wp (f i) (fun _ t' => P i t t') noexc t) ->
  wp (for_tables f) (fun _ ts' => length ts' = length ts /\ forall i t t', ts !! i = Some t -> ts' !! i = Some t' -> P i t t') E ts.
Proof.
  intros Hf. unfold for_tables. wp_step. wp_step.
  eapply wp_mono; [apply (wp_forM _ (fun l ts' => length ts' = length ts /\ exists k, l = seq k (length ts - k) /\
    (forall i, k <= i -> ts' !! i = ts !! i) /\ forall i t t', i < k -> ts !! i = Some t -> ts' !! i = Some t' -> P i t t'))| |done].
  - split; [done|]. exists 0. split_and!; [by rewrite Nat.sub_0_r|done|lia].
  - intros i l ts1 (Hl & k & Heq & Hrest & Hdone). destruct (length ts - k) as [|n] eqn:En; [done|].
    injection Heq as -> ->. destruct (lookup_lt_is_Some_2 ts k) as [t Ht]; [lia|].
    apply (wp_on_table _ _ t); [by rewrite Hrest|]. eapply wp_mono; [by apply Hf| |done].
    intros ? t' HP. split; [by rewrite length_insert|]. exists (S k). split_and!; [f_equal; lia| |].
    + intros i Hi. rewrite list_lookup_insert_ne by lia. apply Hrest. lia.
    + intros i t0 t1 Hi H0 H1. destruct (decide (i = k)) as [->|Hne].
      * rewrite list_lookup_insert_eq in H1 by (rewrite Hl; by eapply lookup_lt_Some). by simplify_eq.
      * rewrite list_lookup_insert_ne in H1 by done. apply Hdone; [lia|done..].
  - intros _ ts1 (Hl & k & Heq & _ & Hdone). split; [done|]. intros i t t' Hi Hi'. apply Hdone; [|done..].
    apply (f_equal length) in Heq. rewrite length_seq in Heq. cbn in Heq. apply lookup_lt_Some in Hi. lia.
Qed.

(** * The invariant *)

(** The tables fit a batch of [n] rows. *)
Definition tables_ok (n : nat) (ts : list BlockTable) : Prop := Forall (fun t => bt_ok t /\ bt_max_num_reqs t = n) ts.

(** The block ids of row [i], one list per group. *)
Definition block_rows (ts : list BlockTable) (i : nat) : list (list Z) := (fun t => default [] (bt_rows t !! i)) <$> ts.

Definition occupied (b : InputBatch) (i : nat) : Prop := exists id, _req_ids b !! i = Some (Some id).

Record ib_core (b : InputBatch) : Prop := {
  oc_index : forall id i, req_id_to_index b !! id = Some i <-> _req_ids b !! i = Some (Some id);
  oc_outputs : req_output_token_ids b = _req_ids b;
  oc_fits : length (_req_ids b) <= ib_max_num_reqs b;
  oc_rows : length (ib_rows b) = ib_max_num_reqs b;
  oc_row : forall i r, ib_rows b !! i = Some r -> length (row_token_ids r) = ib_max_model_len b /\ row_num_tokens r <= ib_max_model_len b;
  oc_tables : tables_ok (ib_max_num_reqs b) (ib_block_table b);
  oc_generators : forall i g, generators b !! i = Some g -> occupied b i;
  oc_bad_words : forall i w, bad_words_token_ids b !! i = Some w -> occupied b i;
  oc_sets : forall id, id ∈ greedy_reqs (ib_sets b) ∪ random_reqs (ib_sets b) ∪ top_p_reqs (ib_sets b) ∪ top_k_reqs (ib_sets b)
    ∪ spec_decode_unsupported_reqs (ib_sets b) ∪ frequency_penalties_reqs (ib_sets b) ∪ presence_penalties_reqs (ib_sets b)
    ∪ repetition_penalties_reqs (ib_sets b) ∪ has_allowed_token_ids (ib_sets b) -> is_Some (req_id_to_index b !! id);
  oc_logprobs : forall id, is_Some (num_logprobs b !! id) \/ is_Some (num_prompt_logprobs b !! id) -> is_Some (req_id_to_index b !! id);
  oc_loras : forall i r id, ib_rows b !! i = Some r -> _req_ids b !! i = Some (Some id) -> row_lora r <> 0%Z ->
    exists ids, lora_id_to_request_ids b !! row_lora r = Some ids /\ id ∈ ids;
  oc_mask : forall mask, allowed_token_ids_mask b = Some mask -> length mask = ib_max_num_reqs b;
  oc_pooling : is_pooling_model b = false
}.

(** The gaps of the roster are the indices removed in this step. *)
Record ib_ok (b : InputBatch) : Prop := {
  ok_core : ib_core b;
  ok_removed : forall i, i ∈ _removed (batch_update_builder b) <-> _req_ids b !! i = Some None;
  ok_removed_once : NoDup (_removed (batch_update_builder b));
  ok_sorted : _is_removed_sorted (batch_update_builder b) = true -> Sorted descending (_removed (batch_update_builder b))
}.

Definition ok_index b (Hb : ib_ok b) := oc_index b (ok_core b Hb).
Definition ok_outputs b (Hb : ib_ok b) := oc_outputs b (ok_core b Hb).
Definition ok_fits b (Hb : ib_ok b) := oc_fits b (ok_core b Hb).
Definition ok_rows b (Hb : ib_ok b) := oc_rows b (ok_core b Hb).
Definition ok_row b (Hb : ib_ok b) := oc_row b (ok_core b Hb).
Definition ok_tables b (Hb : ib_ok b) := oc_tables b (ok_core b Hb).
Definition ok_generators b (Hb : ib_ok b) := oc_generators b (ok_core b Hb).
Definition ok_bad_words b (Hb : ib_ok b) := oc_bad_words b (ok_core b Hb).
Definition ok_sets b (Hb : ib_ok b) := oc_sets b (ok_core b Hb).
Definition ok_logprobs b (Hb : ib_ok b) := oc_logprobs b (ok_core b Hb).
Definition ok_loras b (Hb : ib_ok b) := oc_loras b (ok_core b Hb).
Definition ok_mask b (Hb : ib_ok b) := oc_mask b (ok_core b Hb).
Definition ok_pooling b (Hb : ib_ok b) := oc_pooling b (ok_core b Hb).

(** What the batch holds for a request: by index, and by id. *)
Record CellView := mkCellView {
  cv_tokens : list Z;
  cv_no_spec : nat;
  cv_prompt : nat;
  cv_computed : nat;
  cv_lora : Z;
  cv_sampling : SamplingCells;
  cv_generator : option nat;
  cv_bad_words : option (list (list Z));
  cv_blocks : list (list Z)
}.

Definition cell_view (b : InputBatch) (i : nat) : option CellView :=
  (fun r => mkCellView (take (row_num_tokens r) (row_token_ids r)) (row_num_tokens_no_spec r) (row_num_prompt_tokens r)
     (row_num_computed_tokens r) (row_lora r) (row_sampling r) (generators b !! i) (bad_words_token_ids b !! i)
     (block_rows (ib_block_table b) i)) <$> ib_rows b !! i.

Definition flags (s : ReqSets) (id : string) : list bool :=
  (fun x : gset string => bool_decide (id ∈ x)) <$>
    [greedy_reqs s; random_reqs s; top_p_reqs s; top_k_reqs s; spec_decode_unsupported_reqs s; frequency_penalties_reqs s;
     presence_penalties_reqs s; repetition_penalties_reqs s; has_allowed_token_ids s].

Definition id_view (b : InputBatch) (id : string) : list bool * option Z * option Z :=
  (flags (ib_sets b) id, num_logprobs b !! id, num_prompt_logprobs b !! id).

(** A request of the batch. *)
Definition req_view (b : InputBatch) (id : string) : option (CellView * (list bool * option Z * option Z)) :=
  i ← req_id_to_index b !! id; c ← cell_view b i; Some (c, id_view b id).

(** What never changes. *)
Definition same_limits (b b' : InputBatch) : Prop :=
  ib_max_num_reqs b' = ib_max_num_reqs b /\ ib_max_model_len b' = ib_max_model_len b /\ ib_vocab_size b' = ib_vocab_size b /\
  is_spec_decode b' = is_spec_decode b /\ is_pooling_model b' = is_pooling_model b.

#[global] Instance same_limits_preorder : PreOrder same_limits.
Proof. split; [by intros t|]. intros t1 t2 t3. unfold same_limits. intuition congruence. Qed.

(** ** Counting *)

Lemma roster_ids (l : list (option string)) (m : gmap string nat) :
  (forall id i, m !! id = Some i <-> l !! i = Some (Some id)) -> size m = length (omap id l).
Proof.
  intros Hm. assert (NoDup (omap id l)) as Hnd.
  { assert (forall i j id, l !! i = Some (Some id) -> l !! j = Some (Some id) -> i = j) as Hinj.
    { intros i j x Hi%Hm Hj%Hm. congruence. }
    clear Hm. induction l as [|[x|] l IH]; cbn; [constructor| |].
    - constructor.
      + intros (y & Hy & Hx)%list_elem_of_omap. cbn in Hx. subst y. apply list_elem_of_lookup in Hy as [j Hj].
        specialize (Hinj 0 (S j) x eq_refl Hj). done.
      + apply IH. intros i j id Hi Hj. specialize (Hinj (S i) (S j) id Hi Hj). lia.
    - apply IH. intros i j id Hi Hj. specialize (Hinj (S i) (S j) id Hi Hj). lia. }
  rewrite <-(size_list_to_set (C := gset string)) by done. rewrite <-size_dom. apply set_size_proper.
  intros x. rewrite elem_of_dom, elem_of_list_to_set, list_elem_of_omap. split.
  - intros [i Hi%Hm]. exists (Some x). split; [by eapply list_elem_of_lookup_2|done].
  - intros (y & Hy & Hx). cbn in Hx. subst y. apply list_elem_of_lookup in Hy as [i Hi%Hm]. eauto.
Qed.

(** The gaps of a list of options. *)
Lemma gaps_count (l : list (option string)) (gaps : list nat) : NoDup gaps -> (forall i, i ∈ gaps <-> l !! i = Some None) ->
  length (omap id l) + length gaps = length l.
Proof.
  intros Hnd Hg. assert (gaps ≡ₚ filter (fun i => l !! i = Some None) (seq 0 (length l))) as ->.
  { apply NoDup_Permutation; [done|apply NoDup_filter, NoDup_seq|]. intros i. rewrite list_elem_of_filter, Hg, elem_of_seq.
    split; [|by intros []]. intros Hi. split; [done|]. apply lookup_lt_Some in Hi. lia. }
  clear Hnd Hg. induction l as [|x l IH] using rev_ind; [done|].
  rewrite length_app, seq_app, filter_app, omap_app, !length_app. cbn [length seq].
  assert (filter (fun i => (l ++ [x]) !! i = Some None) (seq 0 (length l)) = filter (fun i => l !! i = Some None) (seq 0 (length l))) as ->.
  { apply filter_ext_in. intros i Hi%elem_of_seq. by rewrite lookup_app_l by lia. }
  rewrite filter_cons, filter_nil. rewrite lookup_app_r, Nat.sub_diag by lia. cbn [lookup list_lookup].
  destruct x as [x|]; case_decide; try done; cbn; lia.
Qed.

Lemma num_reqs_gaps b : ib_ok b -> num_reqs b + length (_removed (batch_update_builder b)) = length (_req_ids b).
Proof. intros Hb. unfold num_reqs. rewrite (roster_ids _ _ (ok_index b Hb)). apply gaps_count; apply Hb. Qed.

(** ** The primitives *)

Lemma wp_read_cells b i r (Q : Row -> InputBatch -> Prop) E : ib_rows b !! i = Some r -> Q r b -> wp (read_cells i) Q E b.
Proof. intros Hr HQ. unfold read_cells. do 2 wp_step. by apply (wp_lift _ r); [apply at_index_ok|]. Qed.

Lemma wp_write_cells b i r (Q : unit -> InputBatch -> Prop) E : i < length (ib_rows b) ->
  Q tt (set_ib_rows (<[i := r]> (ib_rows b)) b) -> wp (write_cells i r) Q E b.
Proof. intros Hi HQ. unfold write_cells. do 3 wp_step. eapply wp_lift; [by apply store_at_ok|]. by wp_step. Qed.

Lemma wp_update_cells b i f r (Q : unit -> InputBatch -> Prop) E : ib_rows b !! i = Some r ->
  Q tt (set_ib_rows (<[i := f r]> (ib_rows b)) b) -> wp (update_cells i f) Q E b.
Proof.
  intros Hr HQ. unfold update_cells. wp_step. eapply wp_read_cells; [done|]. apply wp_write_cells; [by eapply lookup_lt_Some|done].
Qed.

Lemma wp_on_builder {A} (m : M BatchUpdateBuilder A) Q E b :
  wp m (fun a u => Q a (set_builder u b)) (fun e u => E e (set_builder u b)) (batch_update_builder b) -> wp (on_builder m) Q E b.
Proof. apply wp_zoom. Qed.

Lemma wp_on_tables {A} (m : M (list BlockTable) A) Q E b :
  wp m (fun a ts => Q a (set_tables ts b)) (fun e ts => E e (set_tables ts b)) (ib_block_table b) -> wp (on_tables m) Q E b.
Proof. apply wp_zoom. Qed.

(** The row of an index. *)
Lemma row_at b i : ib_ok b -> i < ib_max_num_reqs b -> exists r, ib_rows b !! i = Some r.
Proof. intros Hb Hi. apply lookup_lt_is_Some_2. by rewrite (ok_rows b Hb). Qed.

Lemma occupied_lt b i : ib_ok b -> occupied b i -> i < ib_max_num_reqs b.
Proof. intros Hb [id Hi]. apply lookup_lt_Some in Hi. pose proof (ok_fits b Hb). lia. Qed.

(** * Removing *)

(** Request [id] at [i] gives up its adapter. *)
Lemma wp_remove_lora b i id r E : ib_rows b !! i = Some r ->
  (row_lora r <> 0%Z -> exists ids, lora_id_to_request_ids b !! row_lora r = Some ids /\ id ∈ ids) ->
  wp (remove_lora i id) (fun _ b' => exists x y, b' = set_loras x y (set_ib_rows (<[i := with_lora 0%Z r]> (ib_rows b)) b) /\
    forall z ids id', id' <> id -> lora_id_to_request_ids b !! z = Some ids -> id' ∈ ids ->
      exists ids', x !! z = Some ids' /\ id' ∈ ids') E b.
Proof.
  intros Hr Hl. unfold remove_lora. wp_step. eapply wp_read_cells; [done|]. cbv zeta. destruct (Z.eqb_spec (row_lora r) 0) as [H0|H0].
  - wp_step. exists (lora_id_to_request_ids b), (lora_id_to_lora_request b). split; [|eauto].
    assert (with_lora 0%Z r = r) as -> by (destruct r; cbn in *; by subst). rewrite list_insert_id by done. by destruct b.
  - destruct (Hl H0) as (ids & Hids & Hin). do 3 wp_step. rewrite Hids.
    assert (forall z ids0 id', id' <> id -> lora_id_to_request_ids b !! z = Some ids0 -> id' ∈ ids0 ->
      z = row_lora r -> id' ∈ ids ∖ {[id]}) as Hkeep by (intros z ids0 id' Hne Hz Hid ->; rewrite Hids in Hz; set_solver).
    case_decide as Hemp; wp_step; (eapply wp_update_cells; [exact Hr|]); do 2 eexists; (split; [reflexivity|]); intros z ids0 id' Hne Hz Hid; cbn.
    + rewrite lookup_delete_ne; [eauto|]. intros <-. specialize (Hkeep _ _ _ Hne Hz Hid eq_refl). set_solver.
    + destruct (decide (row_lora r = z)) as [<-|Hz']; [rewrite lookup_insert_eq; eauto|rewrite lookup_insert_ne by done; eauto].
Qed.

Lemma index_remove (l : list (option string)) (m : gmap string nat) id i :
  (forall id i, m !! id = Some i <-> l !! i = Some (Some id)) -> m !! id = Some i ->
  forall id' j, delete id m !! id' = Some j <-> <[i := None]> l !! j = Some (Some id').
Proof.
  intros Hm Hi id' j. pose proof (proj1 (Hm id i) Hi) as Hid. rewrite lookup_delete_Some, list_lookup_insert_Some, Hm. split.
  - intros [Hne Hj]. right. split; [|done]. intros <-. congruence.
  - intros [(_ & ? & _)|[Hne Hj]]; [done|]. split; [|done]. intros <-. apply Hm in Hj. congruence.
Qed.

(** What the other requests see of an operation. *)
Definition others_keep (b b' : InputBatch) (i : nat) (id : string) : Prop :=
  same_limits b b' /\ (forall j, j <> i -> cell_view b' j = cell_view b j) /\
  (forall id', id' <> id -> id_view b' id' = id_view b id').

Lemma flags_discard s id id' : id' <> id -> flags (discard_all id s) id' = flags s id'.
Proof. intros Hne. unfold flags, discard_all. cbn. repeat f_equal; apply bool_decide_ext; set_solver. Qed.

Lemma wp_remove_request b id i E : ib_ok b -> req_id_to_index b !! id = Some i -> _is_removed_sorted (batch_update_builder b) = false ->
  wp (remove_request id) (fun o b' => o = Some i /\ ib_ok b' /\ others_keep b b' i id /\ ib_block_table b' = ib_block_table b /\
    _req_ids b' = <[i := None]> (_req_ids b) /\ req_id_to_index b' = delete id (req_id_to_index b) /\
    batch_update_builder b' = mkBuilder (_removed (batch_update_builder b) ++ [i]) false (moved (batch_update_builder b))
      (added (batch_update_builder b)) true) E b.
Proof.
  intros Hb Hi Hs. pose proof (proj1 (ok_index b Hb id i) Hi) as Hid. pose proof (lookup_lt_Some _ _ _ Hid) as Hlt.
  assert (occupied b i) as Hocc by (by exists id). destruct (row_at b i Hb (occupied_lt b i Hb Hocc)) as [r Hr].
  unfold remove_request. do 2 wp_step. rewrite Hi. do 3 wp_step. apply wp_on_builder. unfold removed_append. do 2 wp_step.
  cbn [batch_update_builder set_roster]. rewrite Hs. wp_step. do 3 wp_step. cbn [set_builder set_roster _req_ids req_output_token_ids].
  eapply wp_lift; [by apply store_at_ok|]. wp_step. eapply wp_lift; [apply store_at_ok; by rewrite (ok_outputs b Hb)|]. do 3 wp_step.
  eapply wp_mono; [eapply (wp_remove_lora _ i id r)| |done]; [done| |].
  { cbn. by apply (ok_loras b Hb i r id). }
  intros _ b' (x & y & -> & Hlora). cbn [is_pooling_model set_loras set_ib_rows set_roster set_builder].
  rewrite (ok_pooling b Hb). wp_steps.
  assert (forall j, <[i:=None]> (_req_ids b) !! j = Some None <-> j = i \/ _req_ids b !! j = Some None) as Hnone.
  { intros j. destruct (decide (j = i)) as [->|Hne]; [rewrite list_lookup_insert_eq by done; naive_solver|].
    rewrite list_lookup_insert_ne by done. naive_solver. }
  assert (forall j, occupied b j -> j <> i -> exists id', id' <> id /\ <[i:=None]> (_req_ids b) !! j = Some (Some id')) as Hocc'.
  { intros j [id' Hid'] Hne. exists id'. rewrite list_lookup_insert_ne by done. split; [|done]. intros ->.
    apply (ok_index b Hb) in Hid'. congruence. }
  assert (forall id', id' <> id -> is_Some (req_id_to_index b !! id') -> is_Some (delete id (req_id_to_index b) !! id')) as Hdel.
  { intros id' Hne. by rewrite lookup_delete_ne. }
  split_and!; [done| | |done|done|done|cbn; by rewrite Hs].
  - split; [split| | |]; cbn.
    + by apply index_remove; [apply Hb|].
    + by rewrite (ok_outputs b Hb).
    + rewrite length_insert. apply Hb.
    + rewrite length_insert. apply Hb.
    + intros j r' [(<- & <- & _)|[_ Hr']]%list_lookup_insert_Some; [|by apply (ok_row b Hb j)]. cbn. by apply (ok_row b Hb i).
    + apply Hb.
    + intros j g [Hne Hg]%lookup_delete_Some. destruct (Hocc' j) as (id' & _ & ?); [by eapply ok_generators|done|]. by exists id'.
    + intros j g [Hne Hg]%lookup_delete_Some. destruct (Hocc' j) as (id' & _ & ?); [by eapply ok_bad_words|done|]. by exists id'.
    + intros id' Hin. apply Hdel; [set_solver|]. apply (ok_sets b Hb). clear -Hin. set_solver.
    + intros id' Hin. assert (id' <> id) as Hne by (intros ->; rewrite !lookup_delete_eq in Hin; by destruct Hin as [[]|[]]).
      rewrite !lookup_delete_ne in Hin by done. apply Hdel; [done|]. by apply (ok_logprobs b Hb).
    + intros j r' id' [(<- & <- & _)|[Hne Hr']]%list_lookup_insert_Some Hj Hz; [done|].
      rewrite list_lookup_insert_ne in Hj by done. destruct (ok_loras b Hb j r' id' Hr' Hj Hz) as (ids & Hids & Hin).
      apply (Hlora _ ids); [|done|done]. intros ->. apply (ok_index b Hb) in Hj. congruence.
    + intros mask (mask0 & Hm & ->)%fmap_Some. rewrite length_insert. by apply (ok_mask b Hb).
    + apply Hb.
    + intros j. rewrite elem_of_app, list_elem_of_singleton, (ok_removed b Hb), Hnone. tauto.
    + apply NoDup_app. split_and!; [apply Hb| |apply NoDup_singleton]. intros j Hj ->%list_elem_of_singleton.
      apply (ok_removed b Hb) in Hj. congruence.
    + by rewrite Hs.
  - split_and!; [done| |].
    + intros j Hj. unfold cell_view. cbn. by rewrite list_lookup_insert_ne, !lookup_delete_ne by done.
    + intros id' Hne. unfold id_view. cbn -[flags discard_all]. by rewrite flags_discard, !lookup_delete_ne by done.
Qed.

(** * Adding *)

Lemma sort_descending_spec u : (_is_removed_sorted u = true -> Sorted descending (_removed u)) ->
  Sorted descending (_removed (ensure_removed_sorted u)) /\ _removed (ensure_removed_sorted u) ≡ₚ _removed u /\
  _is_removed_sorted (ensure_removed_sorted u) = true.
Proof.
  intros Hs. unfold ensure_removed_sorted. destruct (_is_removed_sorted u) eqn:E; [by split_and!; auto|]. cbn.
  assert (Total descending) by (intros a b; unfold descending; lia).
  split_and!; [by apply Sorted_merge_sort|apply merge_sort_Permutation|done].
Qed.

Lemma wp_pop_removed u E : (_is_removed_sorted u = true -> Sorted descending (_removed u)) ->
  wp pop_removed (fun o u' => match o with
    | None => _removed u = [] /\ u' = u
    | Some i => _removed u ≡ₚ i :: _removed u' /\ Sorted descending (_removed u' ++ [i]) /\ u' = mkBuilder (_removed u') true (moved u) (added u) (batch_changed u)
    end) E u.
Proof.
  intros Hs. pose proof (sort_descending_spec u Hs) as (H1 & H2 & H3). unfold pop_removed, has_removed. do 2 wp_step. destruct (_removed u) as [|x l] eqn:El; cbn [length Nat.eqb negb]; [by wp_step|].
  wp_steps. set (v := ensure_removed_sorted u) in *.
  destruct (last (_removed v)) as [i|] eqn:Ei.
  - apply last_Some in Ei as [l' Hl']. rewrite Hl' in H1, H2 |- *. rewrite removelast_last.
    cbn [set_removed _removed]. rewrite <-H2. split_and!; [|done|].
    + by rewrite (Permutation_app_comm l' [i]).
    + unfold set_removed. rewrite H3. cbn. unfold v, ensure_removed_sorted. by destruct (_is_removed_sorted u).
  - apply last_None in Ei. rewrite Ei in H2. by apply Permutation_nil_cons in H2.
Qed.

(** An index where nothing is, and the roster with request [id] in it. *)
Definition free_index (b : InputBatch) (i : nat) : Prop :=
  (_removed (batch_update_builder b) = [] /\ i = length (_req_ids b)) \/ i ∈ _removed (batch_update_builder b).

Definition roster_with (b : InputBatch) (i : nat) (id : string) : list (option string) :=
  if i =? length (_req_ids b) then _req_ids b ++ [Some id] else <[i := Some id]> (_req_ids b).

Lemma free_not_occupied b i : ib_ok b -> free_index b i -> ~ occupied b i.
Proof.
  intros Hb [[_ ->]|Hi] [id Hid].
  - apply lookup_lt_Some in Hid. lia.
  - apply (ok_removed b Hb) in Hi. congruence.
Qed.

Lemma roster_with_lookup b i id : ib_ok b -> free_index b i -> forall j x,
  roster_with b i id !! j = Some x <-> (j = i /\ x = Some id) \/ (j <> i /\ _req_ids b !! j = Some x).
Proof.
  intros Hb Hi j x. unfold roster_with. destruct (Nat.eqb_spec i (length (_req_ids b))) as [->|Hne].
  - rewrite lookup_snoc_Some. split.
    + intros [[Hlt Hj]|[-> <-]]; [right; split; [lia|done]|by left].
    + intros [[-> ->]|[_ Hj]]; [by right|left]. split; [by eapply lookup_lt_Some|done].
  - assert (i < length (_req_ids b)) as Hlt by (destruct Hi as [[_ ->]|Hi]; [done|apply (ok_removed b Hb) in Hi; by eapply lookup_lt_Some]).
    rewrite list_lookup_insert_Some. naive_solver.
Qed.

Lemma roster_with_length b i id : ib_ok b -> free_index b i ->
  length (roster_with b i id) = length (_req_ids b) + (if i =? length (_req_ids b) then 1 else 0).
Proof. intros Hb Hi. unfold roster_with. destruct (_ =? _); [by rewrite length_app|rewrite length_insert; lia]. Qed.

(** The free index that [add_request] takes and the builder afterwards. *)
Definition enrolled (b : InputBatch) (r : CachedRequestState) (p : BatchSampling) (i : nat) (u : BatchUpdateBuilder) : Prop :=
  free_index b i /\ i < ib_max_num_reqs b /\
  u = mkBuilder (_removed u) (_is_removed_sorted u) (moved (batch_update_builder b))
        (added (batch_update_builder b) ++ [mkAdded i p (cs_prompt_token_ids r) (cs_req_id r)]) true /\
  (_removed (batch_update_builder b) = [] -> _removed u = []) /\
  (_removed (batch_update_builder b) <> [] -> _removed (batch_update_builder b) ≡ₚ i :: _removed u) /\
  (_is_removed_sorted u = true -> Sorted descending (_removed u)) /\
  (_removed u <> [] -> forall j, j ∈ _removed u -> i <= j).

Lemma last_least (l : list nat) i : Sorted descending (l ++ [i]) -> Sorted descending l /\ forall j, j ∈ l -> i <= j.
Proof.
  intros Hs. assert (Transitive descending) by (intros x y z; unfold descending; lia).
  apply Sorted_StronglySorted in Hs; [|done]. split; [apply StronglySorted_Sorted; by eapply StronglySorted_app_1_l|].
  intros j Hj. apply (StronglySorted_app_1_elem_of descending l [i] j i); [done|done|by left].
Qed.

Lemma wp_register b r p E : ib_ok b -> num_reqs b < ib_max_num_reqs b -> cs_sampling_params r = Some p ->
  wp (register_add_request r) (fun i b' => exists u, enrolled b r p i u /\ b' = set_builder u b) E b.
Proof.
  intros Hb Hn Hp. unfold register_add_request. wp_step. apply wp_on_builder.
  eapply wp_mono; [apply (wp_pop_removed _ noexc), Hb| |by intros ? ? []]. intros o u Ho. rewrite Hp.
  do 2 wp_step. pose proof (num_reqs_gaps b Hb) as Hg. destruct o as [i|].
  - destruct Ho as (Hperm & Hsort & Hu). apply last_least in Hsort as [Hsort Hleast].
    assert (i ∈ _removed (batch_update_builder b)) as Hi by (rewrite Hperm; by left).
    pose proof (proj1 (ok_removed b Hb i) Hi) as Hlt%lookup_lt_Some. pose proof (ok_fits b Hb).
    wp_step. apply wp_assertM; [cbn; apply Nat.ltb_lt; lia|]. do 3 wp_step. eexists. split; [|cbn; by destruct b].
    cbn. rewrite Hu. cbn. split_and!; [by right|lia|done| |done|done|auto].
    intros E0. rewrite E0 in Hperm. by apply Permutation_nil_cons in Hperm.
  - destruct Ho as [Hr ->]. rewrite Hr in Hg. cbn in Hg. wp_step. apply wp_assertM; [cbn; apply Nat.ltb_lt; done|]. do 3 wp_step.
    eexists. split; [|cbn; by destruct b]. cbn. rewrite Hr.
    fold (num_reqs b). split_and!; cbn; [left; split; [done|lia]|done|done|done|by rewrite Hr|by intros; constructor|done].
Qed.

Lemma clear_bits_ok ids : forall row : list bool, Forall (fun t => - Z.of_nat (length row) <= t < Z.of_nat (length row))%Z ids ->
  exists row', clear_bits row ids = Ok row' /\ length row' = length row.
Proof.
  induction ids as [|t ids IH]; intros row Hids; [by exists row|]. apply Forall_cons in Hids as [Ht Hids]. cbn.
  set (i := if (t <? 0)%Z then _ else t). assert (0 <= i < Z.of_nat (length row))%Z as Hi by (unfold i; destruct (Z.ltb_spec t 0); lia).
  rewrite (proj2 (Z.leb_le 0 i)), (proj2 (Z.ltb_lt i _)) by lia. cbn.
  destruct (IH (<[Z.to_nat i := false]> row)) as (row' & -> & Hl); [by rewrite length_insert|]. exists row'. by rewrite length_insert in Hl.
Qed.

Definition allowed_ok (vocab_size : nat) (p : BatchSampling) : Prop :=
  Forall (fun t => - Z.of_nat vocab_size <= t < Z.of_nat vocab_size)%Z (bs_allowed_token_ids p).

Lemma wp_add_mask b i p E : i < ib_max_num_reqs b -> allowed_ok (ib_vocab_size b) p ->
  (forall mask, allowed_token_ids_mask b = Some mask -> length mask = ib_max_num_reqs b) ->
  wp (add_mask i p) (fun _ b' => exists m, b' = set_mask m b /\ forall mask, m = Some mask -> length mask = ib_max_num_reqs b) E b.
Proof.
  intros Hi Hok Hm. unfold add_mask, allowed_ok in *. destruct (bs_allowed_token_ids p) as [|t ids].
  - wp_step. exists (allowed_token_ids_mask b). split; [by destruct b|done].
  - do 4 wp_step. set (mask := default _ _).
    assert (length mask = ib_max_num_reqs b) as Hl.
    { unfold mask. destruct (allowed_token_ids_mask b) as [m|] eqn:Em; cbn; [by apply Hm|apply length_replicate]. }
    wp_step. eapply wp_lift; [apply store_at_ok; lia|]. do 3 wp_step.
    destruct (clear_bits_ok (t :: ids) (replicate (ib_vocab_size b) true)) as (row & Hrow & _); [by rewrite length_replicate|].
    eapply wp_lift; [exact Hrow|]. wp_step. eapply wp_lift; [apply store_at_ok; rewrite length_insert; lia|]. wp_step.
    eexists. split; [by destruct b|]. intros ? [= <-]. by rewrite !length_insert.
Qed.

(** What [add_request] relies on. *)
Record add_ready (b : InputBatch) (r : CachedRequestState) (p : BatchSampling) : Prop := {
  ar_new : req_id_to_index b !! cs_req_id r = None;
  ar_room : num_reqs b < ib_max_num_reqs b;
  ar_params : cs_sampling_params r = Some p;
  ar_tokens : cs_num_tokens r <= ib_max_model_len b;
  ar_blocks : Forall2 (fun ids t => length ids <= max_num_blocks_per_req t) (cs_block_ids r) (ib_block_table b);
  ar_allowed : allowed_ok (ib_vocab_size b) p
}.

Definition lora_number (r : CachedRequestState) : Z := from_option lora_int_id 0%Z (cs_lora_request r).

(** The cells of a new request, over those of [row]. *)
Definition new_row (vocab_size : nat) (r : CachedRequestState) (p : BatchSampling) (row : Row) : Row :=
  mkRow (cs_prompt_token_ids r ++ cs_output_token_ids r ++ drop (cs_num_tokens r) (row_token_ids row))
    (cs_num_tokens r) (cs_num_tokens r) (length (cs_prompt_token_ids r)) (cs_num_computed_tokens r) (lora_number r)
    (sampling_cells vocab_size p 1) (row_needs_token_ids row).

Definition rows_added (ids : list (list Z)) (i : nat) (ts ts' : list BlockTable) : Prop :=
  length ts' = length ts /\ forall k t t' l, ts !! k = Some t -> ts' !! k = Some t' -> ids !! k = Some l ->
    bt_ok t' /\ same_table t t' /\ bt_rows t' = <[i := l]> (bt_rows t).

Lemma wp_mg_add_row ids i n ts E : tables_ok n ts -> i < n -> Forall2 (fun l t => length l <= max_num_blocks_per_req t) ids ts ->
  wp (mg_add_row ids i) (fun _ ts' => rows_added ids i ts ts') E ts.
Proof.
  intros Hts Hi Hf. unfold mg_add_row.
  eapply wp_mono; [apply (wp_for_tables _ (fun k t t' => forall l, ids !! k = Some l -> bt_ok t' /\ same_table t t' /\ bt_rows t' = <[i := l]> (bt_rows t)))| |done].
  - intros k t Ht. destruct (Forall2_lookup_r _ _ _ _ _ Hf Ht) as (l & Hl & Hfit). destruct (Forall_lookup_1 _ _ _ _ Hts Ht) as [Hok Hn].
    wp_step. unfold group_ids. eapply wp_lift; [by apply at_index_ok|].
    eapply wp_mono; [apply wp_add_row; [done|lia|done]| |done]. intros ? t' (H1 & H2 & H3) l' Hl'. simplify_eq. done.
  - intros _ ts' [Hl H]. split; [done|]. intros k t t' l Ht Ht' Hk. by apply (H k t t').
Qed.

(** The batch after [add_request] gave request [r] the index [i]. *)
Record joined (b : InputBatch) (r : CachedRequestState) (p : BatchSampling) (i : nat) (row : Row) (u : BatchUpdateBuilder) (b' : InputBatch) : Prop := {
  jo_limits : same_limits b b';
  jo_roster : _req_ids b' = roster_with b i (cs_req_id r);
  jo_outputs : req_output_token_ids b' = roster_with b i (cs_req_id r);
  jo_index : req_id_to_index b' = <[cs_req_id r := i]> (req_id_to_index b);
  jo_rows : ib_rows b' = <[i := new_row (ib_vocab_size b) r p row]> (ib_rows b);
  jo_tables : rows_added (cs_block_ids r) i (ib_block_table b) (ib_block_table b');
  jo_sets : ib_sets b' = add_to_sets b (cs_req_id r) p;
  jo_logprobs : num_logprobs b' = logprobs_entry (ib_vocab_size b) (cs_req_id r) (bs_logprobs p) (num_logprobs b);
  jo_prompt_logprobs : num_prompt_logprobs b' = logprobs_entry (ib_vocab_size b) (cs_req_id r) (bs_prompt_logprobs p) (num_prompt_logprobs b);
  jo_generators : generators b' = match cs_generator r with Some g => <[i := g]> (generators b) | None => generators b end;
  jo_bad_words : bad_words_token_ids b' = match bs_bad_words_token_ids p with [] => bad_words_token_ids b | w => <[i := w]> (bad_words_token_ids b) end;
  jo_mask : forall mask, allowed_token_ids_mask b' = Some mask -> length mask = ib_max_num_reqs b;
  jo_loras : forall z ids id, lora_id_to_request_ids b !! z = Some ids -> id ∈ ids -> exists ids', lora_id_to_request_ids b' !! z = Some ids' /\ id ∈ ids';
  jo_lora : lora_number r <> 0%Z -> exists ids, lora_id_to_request_ids b' !! lora_number r = Some ids /\ cs_req_id r ∈ ids;
  jo_builder : batch_update_builder b' = u
}.

Lemma wp_enlist b i id E : req_output_token_ids b = _req_ids b -> i <= length (_req_ids b) ->
  wp (enlist i id) (fun _ b' => b' = set_roster (roster_with b i id) (roster_with b i id) (req_id_to_index b) b) E b.
Proof.
  intros Ho Hi. unfold enlist. do 2 wp_step. unfold roster_with. destruct (Nat.eqb_spec i (length (_req_ids b))) as [->|Hne].
  - wp_step. by rewrite Ho.
  - wp_step. eapply wp_lift; [apply store_at_ok; lia|]. wp_step. eapply wp_lift; [apply store_at_ok; rewrite Ho; lia|].
    wp_step. by rewrite Ho.
Qed.

(** The token row of a new request. *)
Lemma token_row_ok (tokens prompt output : list Z) : length prompt + length output <= length tokens ->
  assign_range tokens 0 (length prompt) prompt = Ok (prompt ++ drop (length prompt) tokens) /\
  assign_range (prompt ++ drop (length prompt) tokens) (length prompt) (length prompt + length output) output =
    Ok (prompt ++ output ++ drop (length prompt + length output) tokens).
Proof.
  intros Hl. split.
  - etransitivity; [apply (assign_range_exact tokens 0); lia|]. by rewrite take_0.
  - rewrite assign_range_exact by (rewrite length_app, length_drop; lia). f_equal.
    rewrite take_app_length. f_equal. f_equal. rewrite drop_app_ge by lia. rewrite drop_drop. f_equal. lia.
Qed.

Lemma wp_add_lora b i id lora row E : ib_rows b !! i = Some row ->
  wp (add_lora i id lora) (fun _ b' => exists x y, b' = set_loras x y (set_ib_rows (<[i := with_lora (from_option lora_int_id 0%Z lora) row]> (ib_rows b)) b) /\
    (forall z ids id', lora_id_to_request_ids b !! z = Some ids -> id' ∈ ids -> exists ids', x !! z = Some ids' /\ id' ∈ ids') /\
    (from_option lora_int_id 0%Z lora <> 0%Z -> exists ids, x !! from_option lora_int_id 0%Z lora = Some ids /\ id ∈ ids)) E b.
Proof.
  intros Hr. unfold add_lora. destruct lora as [l|].
  - wp_step. eapply wp_update_cells; [exact Hr|]. wp_step. do 2 eexists. split; [reflexivity|]. cbn. split.
    + intros z ids id' Hz Hid. destruct (decide (lora_int_id l = z)) as [<-|Hne]; [|rewrite lookup_insert_ne by done; eauto].
      rewrite lookup_insert_eq, Hz. cbn. eexists. split; [done|]. set_solver.
    + intros _. rewrite lookup_insert_eq. eexists. split; [done|]. set_solver.
  - eapply wp_update_cells; [exact Hr|]. exists (lora_id_to_request_ids b), (lora_id_to_lora_request b).
    split; [by destruct b|]. split; [eauto|done].
Qed.

Lemma wp_add_sampling b i id g p row E : ib_rows b !! i = Some row -> i < ib_max_num_reqs b -> allowed_ok (ib_vocab_size b) p ->
  (forall mask, allowed_token_ids_mask b = Some mask -> length mask = ib_max_num_reqs b) ->
  wp (add_sampling i id g p) (fun _ b' => exists m, (forall mask, m = Some mask -> length mask = ib_max_num_reqs b) /\
    b' = mkBatch (ib_max_num_reqs b) (ib_max_model_len b) (ib_vocab_size b) (is_spec_decode b) (is_pooling_model b) (_req_ids b)
      (req_output_token_ids b) (req_id_to_index b)
      (<[i := with_sampling (sampling_cells (ib_vocab_size b) p (sc_num_accepted_tokens (row_sampling row))) row]> (ib_rows b))
      (ib_block_table b) (add_to_sets b id p)
      (logprobs_entry (ib_vocab_size b) id (bs_logprobs p) (num_logprobs b))
      (logprobs_entry (ib_vocab_size b) id (bs_prompt_logprobs p) (num_prompt_logprobs b))
      (lora_id_to_request_ids b) (lora_id_to_lora_request b)
      (match g with Some g => <[i := g]> (generators b) | None => generators b end)
      (match bs_bad_words_token_ids p with [] => bad_words_token_ids b | w => <[i := w]> (bad_words_token_ids b) end)
      m (ib_pooling_params b) (batch_update_builder b)) E b.
Proof.
  intros Hr Hi Hok Hm. unfold add_sampling. do 5 wp_step. eapply wp_update_cells; [exact Hr|]. do 5 wp_step.
  eapply wp_mono; [apply wp_add_mask; [exact Hi|exact Hok|exact Hm]| |done].
  intros _ b1 (m & -> & Hm'). cbn [ib_max_num_reqs set_logprobs set_generators set_ib_rows set_sets] in Hm'.
  destruct (bs_bad_words_token_ids p) as [|w ws]; [wp_step|wp_step]; exists m; by split.
Qed.

Lemma wp_add_request b r p E : ib_ok b -> add_ready b r p ->
  wp (add_request r) (fun i b' => exists row u, enrolled b r p i u /\ ib_rows b !! i = Some row /\ joined b r p i row u b') E b.
Proof.
  intros Hb [H1 H2 H3 H4 H5 H6]. unfold add_request. wp_step.
  eapply wp_mono; [by apply wp_register| |done]. intros i b1 (u & He & ->). pose proof He as (Hfree & Hlt & _).
  destruct (row_at b i Hb Hlt) as [row Hrow]. destruct (ok_row b Hb i row Hrow) as [Hlen _].
  assert (i <= length (_req_ids b)) as Hle by (destruct Hfree as [[_ ->]|Hin]; [done|apply (ok_removed b Hb), lookup_lt_Some in Hin; lia]).
  wp_step. eapply wp_mono; [apply wp_enlist; [apply Hb|exact Hle]| |done]. intros _ ? ->. do 2 wp_step.
  wp_step. eapply wp_update_cells; [exact Hrow|]. wp_step. eapply wp_read_cells; [apply list_lookup_insert_eq; by eapply lookup_lt_Some|].
  destruct (token_row_ok (row_token_ids row) (cs_prompt_token_ids r) (cs_output_token_ids r)) as [Ht1 Ht2]; [unfold cs_num_tokens in H4; lia|].
  wp_step. eapply wp_lift; [exact Ht1|]. wp_step. apply wp_write_cells; [cbn; rewrite length_insert; by eapply lookup_lt_Some|].
  wp_step. eapply wp_lift; [exact Ht2|]. cbn [ib_rows set_ib_rows]. rewrite list_insert_insert_eq.
  wp_step. eapply wp_update_cells; [apply list_lookup_insert_eq; by eapply lookup_lt_Some|]. cbn [ib_rows set_ib_rows]. rewrite list_insert_insert_eq.
  wp_step. apply wp_on_tables. eapply wp_mono; [apply (wp_mg_add_row _ _ _ _ noexc (ok_tables b Hb) Hlt H5)| |by intros ? ? []]. intros ? ts Hts.
  wp_step. rewrite H3. eapply wp_mono; [eapply wp_add_sampling; [apply list_lookup_insert_eq; by eapply lookup_lt_Some|exact Hlt|exact H6|apply Hb]| |done].
  intros ? b2 (m & Hm & ->). cbn [ib_rows set_tables set_ib_rows]. rewrite list_insert_insert_eq.
  wp_step. eapply wp_update_cells; [apply list_lookup_insert_eq; by eapply lookup_lt_Some|]. cbn [ib_rows set_ib_rows]. rewrite list_insert_insert_eq.
  wp_step. eapply wp_mono; [eapply wp_add_lora, list_lookup_insert_eq; by eapply lookup_lt_Some| |done].
  intros ? b3 (x & y & -> & Hk & Hl). wp_step. exists row, u. split_and!; [done|done|].
  split; try done. cbn. by rewrite list_insert_insert_eq.
Qed.

(** What a request brings to the batch. *)
Definition new_cell (vocab_size : nat) (r : CachedRequestState) (p : BatchSampling) : CellView :=
  mkCellView (cs_prompt_token_ids r ++ cs_output_token_ids r) (cs_num_tokens r) (length (cs_prompt_token_ids r)) (cs_num_computed_tokens r)
    (lora_number r) (sampling_cells vocab_size p 1) (cs_generator r)
    (match bs_bad_words_token_ids p with [] => None | w => Some w end) (cs_block_ids r).

Definition new_flags (vocab_size : nat) (spec : bool) (p : BatchSampling) : list bool :=
  [bs_greedy p; negb (bs_greedy p); negb (Qle_bool 1 (bs_top_p p));
   (0 <? bs_top_k p)%Z && (bs_top_k p <? Z.of_nat vocab_size)%Z;
   spec && is_spec_decode_unsupported p; negb (Qeq_bool (bs_frequency_penalty p) 0); negb (Qeq_bool (bs_presence_penalty p) 0);
   negb (Qeq_bool (bs_repetition_penalty p) 1); negb (length (bs_allowed_token_ids p) =? 0)].

Definition logprobs_of (vocab_size : nat) (n : option Z) : option Z :=
  (fun n => if (n =? -1)%Z then Z.of_nat vocab_size else n) <$> n.

Definition new_ids (b : InputBatch) (p : BatchSampling) : list bool * option Z * option Z :=
  (new_flags (ib_vocab_size b) (is_spec_decode b) p, logprobs_of (ib_vocab_size b) (bs_logprobs p), logprobs_of (ib_vocab_size b) (bs_prompt_logprobs p)).

Lemma elem_add_if c id id' (s : gset string) : id' ∈ add_if c id s <-> (c = true /\ id' = id) \/ id' ∈ s.
Proof. unfold add_if. destruct c; set_solver. Qed.

Lemma bool_add_if c id (s : gset string) : id ∉ s -> bool_decide (id ∈ add_if c id s) = c.
Proof. intros Hs. destruct c; [apply bool_decide_eq_true_2|apply bool_decide_eq_false_2]; rewrite elem_add_if; naive_solver. Qed.

Lemma flags_add_other b id p id' : id' <> id -> flags (add_to_sets b id p) id' = flags (ib_sets b) id'.
Proof.
  intros Hne. unfold flags, add_to_sets. cbn -[add_if]. repeat f_equal; apply bool_decide_ext; rewrite elem_add_if; naive_solver.
Qed.

Lemma flags_add_new b id p : ib_ok b -> req_id_to_index b !! id = None ->
  flags (add_to_sets b id p) id = new_flags (ib_vocab_size b) (is_spec_decode b) p.
Proof.
  intros Hb Hid. assert (forall s : gset string, (id ∈ s -> is_Some (req_id_to_index b !! id)) -> id ∉ s) as Hnot.
  { intros s H Hs. destruct (H Hs) as [? ?]. congruence. }
  pose proof (ok_sets b Hb id) as Hs. unfold flags, add_to_sets, new_flags. cbn -[add_if].
  rewrite !bool_add_if; [done|..]; apply Hnot; intros Hin; apply Hs; set_solver.
Qed.

Lemma logprobs_other n id id' v m : id' <> id -> logprobs_entry n id v m !! id' = m !! id'.
Proof. intros Hne. unfold logprobs_entry. destruct v; [by rewrite lookup_insert_ne|done]. Qed.

Lemma logprobs_new n id v m : m !! id = None -> logprobs_entry n id v m !! id = logprobs_of n v.
Proof. intros Hm. unfold logprobs_entry. destruct v; [by rewrite lookup_insert_eq|done]. Qed.

(** Tables that an operation rewrote. *)
Lemma tables_ok_next n ts ts' : tables_ok n ts -> length ts' = length ts ->
  (forall k t t', ts !! k = Some t -> ts' !! k = Some t' -> bt_ok t' /\ same_table t t') -> tables_ok n ts'.
Proof.
  intros Hts Hl H. apply Forall_lookup. intros k t' Ht'. destruct (lookup_lt_is_Some_2 ts k) as [t Ht]; [apply lookup_lt_Some in Ht'; lia|].
  destruct (H k t t' Ht Ht') as [H1 H2], (Forall_lookup_1 _ _ _ _ Hts Ht) as [_ Hn]. split; [done|]. by destruct H2 as (_ & -> & _).
Qed.

Lemma block_rows_from ts ts' j j' : length ts' = length ts ->
  (forall k t t', ts !! k = Some t -> ts' !! k = Some t' -> bt_rows t' !! j = bt_rows t !! j') -> block_rows ts' j = block_rows ts j'.
Proof.
  intros Hl H. apply list_eq. intros k. unfold block_rows. rewrite !list_lookup_fmap.
  destruct (decide (k < length ts)) as [Hlt|Hge]; [|by rewrite !lookup_ge_None_2 by lia].
  destruct (lookup_lt_is_Some_2 ts k Hlt) as [t Ht], (lookup_lt_is_Some_2 ts' k ltac:(lia)) as [t' Ht'].
  rewrite Ht, Ht'. cbn. by rewrite (H k t t').
Qed.

(** The tables keep their shapes and slots. *)
Definition same_tables : list BlockTable -> list BlockTable -> Prop := Forall2 same_table.

#[global] Instance same_tables_preorder : PreOrder same_tables.
Proof. unfold same_tables. split; apply _. Qed.

Lemma same_tables_next ts ts' : length ts' = length ts ->
  (forall k t t', ts !! k = Some t -> ts' !! k = Some t' -> bt_ok t' /\ same_table t t') -> same_tables ts ts'.
Proof. intros Hl H. apply Forall2_same_length_lookup. split; [done|]. intros k t t' Ht Ht'. by destruct (H k t t' Ht Ht'). Qed.

Lemma same_tables_fit (ids : list (list Z)) ts ts' : same_tables ts ts' ->
  Forall2 (fun l t => length l <= max_num_blocks_per_req t) ids ts -> Forall2 (fun l t => length l <= max_num_blocks_per_req t) ids ts'.
Proof.
  intros Hs Hf. revert ts' Hs. induction Hf as [|l t ids ts Hl Hf IH]; intros ts' Hs; inversion Hs as [|? t' ? ts2 Ht Hts]; subst; constructor; [|by apply IH].
  by destruct Ht as (_ & _ & -> & _).
Qed.

(** A row of a table of a batch with [n] rows. *)
Lemma bt_rows_lt n ts k t i : tables_ok n ts -> ts !! k = Some t -> i < n -> i < length (bt_rows t).
Proof. intros Hts Ht Hi. destruct (Forall_lookup_1 _ _ _ _ Hts Ht) as [Hok Hn]. by rewrite bt_rows_length, Hn. Qed.

Lemma block_rows_added n ids i ts ts' : tables_ok n ts -> i < n -> rows_added ids i ts ts' -> length ids = length ts ->
  tables_ok n ts' /\ same_tables ts ts' /\ block_rows ts' i = ids /\ forall j, j <> i -> block_rows ts' j = block_rows ts j.
Proof.
  intros Hts Hi [Hl H] Hids.
  assert (forall k t, ts !! k = Some t -> exists l, ids !! k = Some l) as Hk by (intros k t Ht%lookup_lt_Some; apply lookup_lt_is_Some_2; lia).
  assert (forall k t t', ts !! k = Some t -> ts' !! k = Some t' -> bt_ok t' /\ same_table t t') as Hst.
  { intros k t t' Ht Ht'. destruct (Hk k t Ht) as [l Hlk]. by destruct (H k t t' l Ht Ht' Hlk) as (? & ? & _). }
  split_and!; [by eapply tables_ok_next|by apply same_tables_next|..].
  - apply list_eq. intros k. unfold block_rows. rewrite list_lookup_fmap. destruct (decide (k < length ts)) as [Hlt|Hge]; [|by rewrite !lookup_ge_None_2 by lia].
    destruct (lookup_lt_is_Some_2 ts k Hlt) as [t Ht], (lookup_lt_is_Some_2 ts' k ltac:(lia)) as [t' Ht'], (Hk k t Ht) as [l Hlk].
    destruct (H k t t' l Ht Ht' Hlk) as (_ & _ & Hr). rewrite Ht', Hlk. cbn. rewrite Hr, list_lookup_insert_eq; [done|]. by apply (bt_rows_lt n ts k).
  - intros j Hj. apply block_rows_from; [done|]. intros k t t' Ht Ht'. destruct (Hk k t Ht) as [l Hlk].
    destruct (H k t t' l Ht Ht' Hlk) as (_ & _ & ->). by rewrite list_lookup_insert_ne.
Qed.

Lemma match_insert_other {V} (o : option V) i j (d : gmap nat V) : j <> i ->
  (match o with Some g => <[i := g]> d | None => d end) !! j = d !! j.
Proof. intros Hne. destruct o; [by rewrite lookup_insert_ne|done]. Qed.

Section joined.
Context (b : InputBatch) (r : CachedRequestState) (p : BatchSampling) (i : nat) (row : Row) (u : BatchUpdateBuilder) (b' : InputBatch).
Hypothesis Hb : ib_ok b.
Hypothesis Hready : add_ready b r p.
Hypothesis He : enrolled b r p i u.
Hypothesis Hrow : ib_rows b !! i = Some row.
Hypothesis Hj : joined b r p i row u b'.

Let id := cs_req_id r.
Let Hfree : free_index b i := proj1 He.

Lemma joined_index id' j : req_id_to_index b' !! id' = Some j <-> _req_ids b' !! j = Some (Some id').
Proof.
  rewrite (jo_index _ _ _ _ _ _ _ Hj), (jo_roster _ _ _ _ _ _ _ Hj), (roster_with_lookup b i _ Hb Hfree), lookup_insert_Some, (ok_index b Hb).
  split.
  - intros [[<- <-]|[Hne Hid]]; [by left|]. right. split; [|done]. intros ->. eapply free_not_occupied; [done|exact Hfree|by eexists].
  - intros [[-> [= ->]]|[Hne Hid]]; [by left|right]. split; [|done]. intros <-. apply (ok_index b Hb) in Hid. by rewrite (ar_new _ _ _ Hready) in Hid.
Qed.

Lemma joined_occupied j : occupied b j -> occupied b' j.
Proof.
  intros [id' Hid']. exists id'. rewrite (jo_roster _ _ _ _ _ _ _ Hj). apply roster_with_lookup; [done..|]. right. split; [|done].
  intros ->. eapply free_not_occupied; [done|exact Hfree|by eexists].
Qed.

Lemma joined_here : occupied b' i.
Proof. exists id. rewrite (jo_roster _ _ _ _ _ _ _ Hj). apply roster_with_lookup; [done..|]. by left. Qed.

Lemma joined_known id' : is_Some (req_id_to_index b !! id') \/ id' = id -> is_Some (req_id_to_index b' !! id').
Proof. rewrite (jo_index _ _ _ _ _ _ _ Hj). rewrite lookup_insert_is_Some. unfold id. destruct (decide (cs_req_id r = id')); naive_solver. Qed.

Lemma joined_removed j : j ∈ _removed u <-> _req_ids b' !! j = Some None.
Proof.
  pose proof He as (_ & _ & _ & Hu1 & Hu2 & _). rewrite (jo_roster _ _ _ _ _ _ _ Hj), (roster_with_lookup b i _ Hb Hfree).
  destruct (decide (_removed (batch_update_builder b) = [])) as [E|E].
  - rewrite (Hu1 E). assert (_req_ids b !! j <> Some None) as Hn by (rewrite <-(ok_removed b Hb), E; apply not_elem_of_nil).
    split; [by intros ?%elem_of_nil|]. intros [[_ ?]|[_ ?]]; done.
  - specialize (Hu2 E). pose proof (ok_removed_once b Hb) as Hnd. rewrite Hu2 in Hnd. apply NoDup_cons in Hnd as [Hni _].
    pose proof (ok_removed b Hb j) as Hr. rewrite Hu2, elem_of_cons in Hr. split.
    + intros Hju. right. split; [by intros ->|]. apply Hr. by right.
    + intros [[_ ?]|[Hne Hjn]]; [done|]. apply Hr in Hjn as [|]; [done|]. done.
Qed.

Lemma joined_ok : ib_ok b'.
Proof.
  destruct (jo_limits _ _ _ _ _ _ _ Hj) as (L1 & L2 & L3 & L4 & L5). pose proof He as (_ & Hlt & Hu & Hu1 & Hu2 & Hu3 & _).
  destruct (block_rows_added _ _ _ _ _ (ok_tables b Hb) Hlt (jo_tables _ _ _ _ _ _ _ Hj)) as (Ht & Hst & _); [by eapply Forall2_length, ar_blocks|].
  destruct (ok_row b Hb i row Hrow) as [Hrl Hrn]. pose proof (ar_tokens _ _ _ Hready) as Htok.
  split; [split| | |]; rewrite ?L1, ?L2, ?L5, ?(jo_builder _ _ _ _ _ _ _ Hj).
  - apply joined_index.
  - by rewrite (jo_roster _ _ _ _ _ _ _ Hj), (jo_outputs _ _ _ _ _ _ _ Hj).
  - rewrite (jo_roster _ _ _ _ _ _ _ Hj), roster_with_length by done. pose proof (ok_fits b Hb). destruct (Nat.eqb_spec i (length (_req_ids b))); lia.
  - rewrite (jo_rows _ _ _ _ _ _ _ Hj), length_insert. apply Hb.
  - intros j r'. rewrite (jo_rows _ _ _ _ _ _ _ Hj). intros [(<- & <- & _)|[_ Hr']]%list_lookup_insert_Some; [|by apply (ok_row b Hb j)].
    cbn. split; [|done]. rewrite !length_app, length_drop. unfold cs_num_tokens in *. lia.
  - done.
  - intros j g. rewrite (jo_generators _ _ _ _ _ _ _ Hj). destruct (decide (j = i)) as [->|Hne]; [intros _; apply joined_here|].
    rewrite match_insert_other by done. intros Hg. by eapply joined_occupied, ok_generators.
  - intros j w. rewrite (jo_bad_words _ _ _ _ _ _ _ Hj). destruct (decide (j = i)) as [->|Hne]; [intros _; apply joined_here|].
    destruct (bs_bad_words_token_ids p); rewrite ?lookup_insert_ne by done; intros Hg; by eapply joined_occupied, ok_bad_words.
  - intros id'. rewrite (jo_sets _ _ _ _ _ _ _ Hj). unfold add_to_sets. cbn -[add_if]. rewrite !elem_of_union, !elem_add_if. intros Hin.
    apply joined_known. destruct (decide (id' = id)) as [->|Hne]; [by right|left]. apply (ok_sets b Hb). rewrite !elem_of_union. unfold id in Hne. naive_solver.
  - intros id'. rewrite (jo_logprobs _ _ _ _ _ _ _ Hj), (jo_prompt_logprobs _ _ _ _ _ _ _ Hj). intros Hin. apply joined_known.
    destruct (decide (id' = id)) as [->|Hne]; [by right|left]. rewrite !logprobs_other in Hin by done. by apply (ok_logprobs b Hb).
  - intros j r' id'. rewrite (jo_rows _ _ _ _ _ _ _ Hj), (jo_roster _ _ _ _ _ _ _ Hj), (roster_with_lookup b i _ Hb Hfree).
    intros [(<- & <- & _)|[Hne Hr']]%list_lookup_insert_Some [[Hij Hid]|[Hij Hid]] Hz; try done.
    + injection Hid as ->. by apply (jo_lora _ _ _ _ _ _ _ Hj).
    + destruct (ok_loras b Hb j r' id' Hr' Hid Hz) as (ids & Hids & Hin). by eapply (jo_loras _ _ _ _ _ _ _ Hj).
  - apply (jo_mask _ _ _ _ _ _ _ Hj).
  - apply Hb.
  - apply joined_removed.
  - destruct (decide (_removed (batch_update_builder b) = [])) as [E|E]; [rewrite (Hu1 E); constructor|].
    pose proof (ok_removed_once b Hb) as Hnd. rewrite (Hu2 E) in Hnd. by apply NoDup_cons in Hnd as [_ ?].
  - done.
Qed.

Lemma joined_views : others_keep b b' i id /\ same_tables (ib_block_table b) (ib_block_table b') /\ cell_view b' i = Some (new_cell (ib_vocab_size b) r p) /\ id_view b' id = new_ids b p.
Proof.
  pose proof He as (_ & Hlt & _). pose proof (free_not_occupied b i Hb Hfree) as Hno.
  destruct (block_rows_added _ _ _ _ _ (ok_tables b Hb) Hlt (jo_tables _ _ _ _ _ _ _ Hj)) as (Ht & Hst & Hbi & Hbj); [by eapply Forall2_length, ar_blocks|].
  assert (generators b !! i = None) as Hg.
  { destruct (generators b !! i) as [g|] eqn:Eg; [|done]. by apply (ok_generators b Hb) in Eg. }
  assert (bad_words_token_ids b !! i = None) as Hw.
  { destruct (bad_words_token_ids b !! i) as [w|] eqn:Ew; [|done]. by apply (ok_bad_words b Hb) in Ew. }
  split; [split_and!|split_and!; [done|..]].
  - apply Hj.
  - intros j Hne. unfold cell_view. rewrite (jo_rows _ _ _ _ _ _ _ Hj), (jo_generators _ _ _ _ _ _ _ Hj), (jo_bad_words _ _ _ _ _ _ _ Hj).
    rewrite list_lookup_insert_ne, match_insert_other, Hbj by done.
    destruct (bs_bad_words_token_ids p); [done|]. by rewrite lookup_insert_ne.
  - intros id' Hne. unfold id_view.
    by rewrite (jo_sets _ _ _ _ _ _ _ Hj), (jo_logprobs _ _ _ _ _ _ _ Hj), (jo_prompt_logprobs _ _ _ _ _ _ _ Hj), flags_add_other, !logprobs_other.
  - unfold cell_view. rewrite (jo_rows _ _ _ _ _ _ _ Hj), list_lookup_insert_eq by (by eapply lookup_lt_Some). cbn. f_equal.
    unfold new_cell. f_equal.
    + rewrite app_assoc. apply take_app_length'. by rewrite length_app.
    + rewrite (jo_generators _ _ _ _ _ _ _ Hj). destruct (cs_generator r); [by rewrite lookup_insert_eq|done].
    + rewrite (jo_bad_words _ _ _ _ _ _ _ Hj). destruct (bs_bad_words_token_ids p); [done|by rewrite lookup_insert_eq].
    + done.
  - assert (req_id_to_index b !! id = None) as Hid by apply Hready. unfold id_view, new_ids.
    rewrite (jo_sets _ _ _ _ _ _ _ Hj), (jo_logprobs _ _ _ _ _ _ _ Hj), (jo_prompt_logprobs _ _ _ _ _ _ _ Hj), flags_add_new by done.
    assert (num_logprobs b !! id = None /\ num_prompt_logprobs b !! id = None) as [Hl1 Hl2].
    { pose proof (ok_logprobs b Hb id) as Hl. destruct (num_logprobs b !! id), (num_prompt_logprobs b !! id); try done;
        (destruct Hl as [? ?]; [eauto|congruence]). }
    by rewrite !logprobs_new.
Qed.
End joined.

(** * Condensing *)

Lemma move_entry_lookup {V} (d : gmap nat V) last e j : d !! e = None -> e <> last ->
  move_entry d last e !! j = if decide (j = e) then d !! last else if decide (j = last) then None else d !! j.
Proof.
  intros He Hne. unfold move_entry. destruct (d !! last) as [v|] eqn:Ev; repeat case_decide; subst; try done.
  - by rewrite lookup_insert_eq.
  - by rewrite lookup_insert_ne, lookup_delete_eq.
  - by rewrite lookup_insert_ne, lookup_delete_ne.
Qed.

Definition rows_moved (last e : nat) (ts ts' : list BlockTable) : Prop :=
  length ts' = length ts /\ forall k t t', ts !! k = Some t -> ts' !! k = Some t' ->
    bt_ok t' /\ same_table t t' /\ exists l, bt_rows t !! last = Some l /\ bt_rows t' = <[e := l]> (bt_rows t).

Lemma wp_mg_move_row n last e ts E : tables_ok n ts -> last < n -> e < n ->
  wp (mg_move_row last e) (fun _ ts' => rows_moved last e ts ts') E ts.
Proof.
  intros Hts Hlast He. unfold mg_move_row. apply wp_for_tables. intros k t Ht.
  destruct (Forall_lookup_1 _ _ _ _ Hts Ht) as [Hok Hn]. destruct (bt_row t last Hok ltac:(lia)) as (m & row & Hrow).
  eapply wp_mono; [apply wp_move_row; [exact Hok|exact Hrow|lia]| |done]. intros ? t' (H1 & H2 & H3).
  split_and!; [done|done|]. exists (take m row). split; [by apply row_is_rows|done].
Qed.

Lemma block_rows_moved n last e ts ts' : tables_ok n ts -> e < n -> rows_moved last e ts ts' ->
  tables_ok n ts' /\ same_tables ts ts' /\ block_rows ts' e = block_rows ts last /\ forall j, j <> e -> block_rows ts' j = block_rows ts j.
Proof.
  intros Hts He [Hl H].
  assert (forall k t t', ts !! k = Some t -> ts' !! k = Some t' -> bt_ok t' /\ same_table t t') as Hst.
  { intros k t t' Ht Ht'. by destruct (H k t t' Ht Ht') as (? & ? & _). }
  split_and!; [by eapply tables_ok_next|by apply same_tables_next|..].
  - apply block_rows_from; [done|]. intros k t t' Ht Ht'. destruct (H k t t' Ht Ht') as (_ & _ & l & -> & ->).
    apply list_lookup_insert_eq. by apply (bt_rows_lt n ts k).
  - intros j Hj. apply block_rows_from; [done|]. intros k t t' Ht Ht'. destruct (H k t t' Ht Ht') as (_ & _ & l & _ & ->).
    by rewrite list_lookup_insert_ne.
Qed.

Definition moved_row (from to : Row) : Row :=
  mkRow (take (row_num_tokens from) (row_token_ids from) ++ drop (row_num_tokens from) (row_token_ids to))
    (row_num_tokens from) (row_num_tokens_no_spec from) (row_num_prompt_tokens from) (row_num_computed_tokens from) (row_lora from)
    (row_sampling from) (row_needs_token_ids to).

(** The batch after the request [id] moved from [last] to [e]. *)
Record slipped (b : InputBatch) (last e : nat) (id : string) (from to : Row) (b' : InputBatch) : Prop := {
  sp_limits : same_limits b b';
  sp_roster : _req_ids b' = <[last := None]> (<[e := Some id]> (_req_ids b));
  sp_outputs : req_output_token_ids b' = <[last := None]> (<[e := Some id]> (_req_ids b));
  sp_index : req_id_to_index b' = <[id := e]> (req_id_to_index b);
  sp_rows : ib_rows b' = <[e := moved_row from to]> (ib_rows b);
  sp_tables : rows_moved last e (ib_block_table b) (ib_block_table b');
  sp_sets : ib_sets b' = ib_sets b;
  sp_logprobs : num_logprobs b' = num_logprobs b;
  sp_prompt_logprobs : num_prompt_logprobs b' = num_prompt_logprobs b;
  sp_generators : generators b' = move_entry (generators b) last e;
  sp_bad_words : bad_words_token_ids b' = move_entry (bad_words_token_ids b) last e;
  sp_mask : forall mask, allowed_token_ids_mask b' = Some mask -> length mask = ib_max_num_reqs b;
  sp_loras : lora_id_to_request_ids b' = lora_id_to_request_ids b;
  sp_builder : batch_update_builder b' =
    (let u := batch_update_builder b in mkBuilder (_removed u) (_is_removed_sorted u) (moved u ++ [(last, e, UNIDIRECTIONAL)]) (added u) (batch_changed u))
}.

Lemma core_row b i : ib_core b -> i < ib_max_num_reqs b -> exists r, ib_rows b !! i = Some r.
Proof. intros Hb Hi. apply lookup_lt_is_Some_2. by rewrite (oc_rows b Hb). Qed.

Lemma core_lt b i x : ib_core b -> _req_ids b !! i = Some x -> i < ib_max_num_reqs b.
Proof. intros Hb Hi. apply lookup_lt_Some in Hi. pose proof (oc_fits b Hb). lia. Qed.

Lemma wp_move_request b last e id E : ib_core b -> _req_ids b !! last = Some (Some id) -> _req_ids b !! e = Some None ->
  wp (move_request last e) (fun _ b' => exists from to, ib_rows b !! last = Some from /\ ib_rows b !! e = Some to /\
    slipped b last e id from to b') E b.
Proof.
  intros Hb Hlast He. pose proof (core_lt b last _ Hb Hlast) as Hl1. pose proof (core_lt b e _ Hb He) as Hl2.
  pose proof (lookup_lt_Some _ _ _ Hlast) as Hl3. pose proof (lookup_lt_Some _ _ _ He) as Hl4.
  destruct (core_row b last Hb Hl1) as [from Hfrom], (core_row b e Hb Hl2) as [to Hto].
  destruct (oc_row b Hb _ _ Hfrom) as [Hlf Hnf], (oc_row b Hb _ _ Hto) as [Hlt _]. pose proof (lookup_lt_Some _ _ _ Hto) as Hl5.
  assert (length (take (row_num_tokens from) (row_token_ids from)) = row_num_tokens from) as Htl by (rewrite length_take; lia).
  unfold move_request. do 2 wp_step. rewrite (oc_outputs b Hb).
  wp_step. eapply wp_lift; [by apply at_index_ok|]. wp_step. eapply wp_lift; [by apply at_index_ok|]. wp_step. apply wp_assertM; [done|].
  wp_step. eapply wp_lift; [by apply store_at_ok|]. wp_step. eapply wp_lift; [apply store_at_ok; by rewrite length_insert|].
  wp_step. eapply wp_lift; [by apply store_at_ok|]. wp_step. eapply wp_lift; [apply store_at_ok; by rewrite length_insert|].
  do 3 wp_step. eapply wp_read_cells; [exact Hfrom|]. wp_step. eapply wp_read_cells; [exact Hto|]. wp_step.
  eapply wp_lift. { rewrite <-Htl at 1. apply (assign_range_exact (row_token_ids to) 0). lia. }
  wp_step. apply wp_write_cells; [done|]. cbn [ib_rows set_roster set_ib_rows].
  wp_step. apply wp_on_tables. eapply wp_mono; [apply (wp_mg_move_row _ _ _ _ noexc (oc_tables b Hb) Hl1 Hl2)| |by intros ? ? []].
  intros ? ts Hts. wp_step. eapply wp_update_cells; [by apply list_lookup_insert_eq|]. cbn [ib_rows set_ib_rows set_tables]. rewrite list_insert_insert_eq.
  do 2 wp_step. cbn [is_pooling_model set_ib_rows set_tables set_roster]. rewrite (oc_pooling b Hb). unfold record_move.
  do 3 wp_step. eapply wp_update_cells; [by apply list_lookup_insert_eq|]. cbn [ib_rows set_ib_rows set_builder]. rewrite list_insert_insert_eq.
  do 5 wp_step. cbn [allowed_token_ids_mask set_generators set_ib_rows set_builder set_tables set_roster].
  assert (take_sampling from (with_lora (row_lora from) (with_counts (row_num_tokens from) (row_num_tokens_no_spec from) (row_num_prompt_tokens from)
    (row_num_computed_tokens from) (with_tokens (take 0 (row_token_ids to) ++ take (row_num_tokens from) (row_token_ids from) ++
       drop (0 + length (take (row_num_tokens from) (row_token_ids from))) (row_token_ids to)) to))) = moved_row from to) as Hrow.
  { unfold moved_row, take_sampling, with_sampling, with_lora, with_counts, with_tokens. cbn. by rewrite take_0, Htl. }
  destruct (allowed_token_ids_mask b) as [mask|] eqn:Hmask.
  - pose proof (oc_mask b Hb mask Hmask) as Hml. destruct (lookup_lt_is_Some_2 mask last) as [mrow Hmrow]; [lia|].
    wp_step. eapply wp_lift; [by apply at_index_ok|]. wp_step. eapply wp_lift; [apply store_at_ok; lia|]. wp_steps.
    exists from, to. split_and!; [done|done|]. split; try done; [exact (f_equal (fun x => <[e := x]> (ib_rows b)) Hrow)|]. intros ? [= <-]. by rewrite length_insert.
  - wp_steps. exists from, to. split_and!; [done|done|]. split; try done; [exact (f_equal (fun x => <[e := x]> (ib_rows b)) Hrow)|]. cbn. by rewrite Hmask.
Qed.
