(* ===== verification/BatchSteps.v ===== *)
(** A step of the persistent batch: removals, additions, condensing, swaps.  Every request keeps its cells, the batch is
    dense afterwards, and the update handed to the logits processors describes what happened. *)
From stdpp Require Import base gmap sets list strings sorting.
From Stdlib Require Import ZArith QArith Lia.
From S2P Require Import Prelude NumpyArrays Request BlockTable InputBatch InputBatchFacts.
Open Scope nat_scope.

(** * A move keeps the requests *)

(** [b'] is [b] with requests at other indices. *)
Record slid (b b' : InputBatch) : Prop := {
  sl_core : ib_core b';
  sl_limits : same_limits b b';
  sl_views : forall id, req_view b' id = req_view b id;
  sl_dom : dom (req_id_to_index b') = dom (req_id_to_index b);
  sl_tables : same_tables (ib_block_table b) (ib_block_table b')
}.

Lemma slid_refl b : ib_core b -> slid b b.
Proof. intros Hb. by split. Qed.

Lemma slid_trans b1 b2 b3 : slid b1 b2 -> slid b2 b3 -> slid b1 b3.
Proof. intros [] []. split; [done|by etransitivity|congruence..|by etransitivity]. Qed.

Section slipped.
Context (b : InputBatch) (last e : nat) (id : string) (from to : Row) (b' : InputBatch).
Hypothesis Hb : ib_core b.
Hypothesis Hlast : _req_ids b !! last = Some (Some id).
Hypothesis He : _req_ids b !! e = Some None.
Hypothesis Hfrom : ib_rows b !! last = Some from.
Hypothesis Hto : ib_rows b !! e = Some to.
Hypothesis Hs : slipped b last e id from to b'.

Lemma slip_ne : e <> last.
Proof. intros ->. congruence. Qed.

Lemma slip_vacant {V} (d : gmap nat V) : (forall i v, d !! i = Some v -> occupied b i) -> d !! e = None.
Proof. intros Hd. destruct (d !! e) as [v|] eqn:Ev; [|done]. destruct (Hd _ _ Ev) as [? ?]. congruence. Qed.

Lemma slip_roster i x : _req_ids b' !! i = Some x <->
  (i = last /\ x = None) \/ (i = e /\ x = Some id) \/ (i <> last /\ i <> e /\ _req_ids b !! i = Some x).
Proof.
  pose proof slip_ne as Hne. pose proof (lookup_lt_Some _ _ _ Hlast). pose proof (lookup_lt_Some _ _ _ He).
  rewrite (sp_roster _ _ _ _ _ _ _ Hs), !list_lookup_insert_Some, length_insert. naive_solver.
Qed.

Lemma slip_index id' i : req_id_to_index b' !! id' = Some i <-> _req_ids b' !! i = Some (Some id').
Proof.
  pose proof slip_ne as Hne. rewrite slip_roster, (sp_index _ _ _ _ _ _ _ Hs), lookup_insert_Some, (oc_index b Hb). split.
  - intros [[<- <-]|[Hid Hi]]; [by right; left|]. do 2 right. split_and!; [intros ->|intros ->|]; congruence.
  - intros [[_ ?]|[[-> [= ->]]|(H1 & H2 & Hi)]]; [done|by left|right]. split; [|done]. intros <-.
    apply (oc_index b Hb) in Hi. apply (oc_index b Hb) in Hlast. congruence.
Qed.

Lemma slip_occupied i : occupied b i -> i <> last -> occupied b' i.
Proof. intros [x Hx] Hi. exists x. apply slip_roster. do 2 right. split_and!; [done|intros ->; congruence|done]. Qed.

Lemma slip_entries {V} (d : gmap nat V) : (forall i v, d !! i = Some v -> occupied b i) ->
  forall i v, move_entry d last e !! i = Some v -> occupied b' i.
Proof.
  intros Hd i v. rewrite move_entry_lookup by (apply slip_ne || by apply slip_vacant). repeat case_decide; subst; [|done|].
  - intros _. exists id. apply slip_roster. by right; left.
  - intros Hv. apply slip_occupied; [by eapply Hd|done].
Qed.

Lemma slip_cell : cell_view b' e = cell_view b last /\ forall i, i <> e -> i <> last -> cell_view b' i = cell_view b i.
Proof.
  pose proof slip_ne as Hne. destruct (oc_row b Hb _ _ Hfrom) as [Hlf Hnf].
  destruct (block_rows_moved _ last e _ _ (oc_tables b Hb) (core_lt b e _ Hb He) (sp_tables _ _ _ _ _ _ _ Hs)) as (_ & _ & Hbe & Hbo).
  unfold cell_view. rewrite (sp_rows _ _ _ _ _ _ _ Hs), (sp_generators _ _ _ _ _ _ _ Hs), (sp_bad_words _ _ _ _ _ _ _ Hs). split.
  - rewrite list_lookup_insert_eq by (by eapply lookup_lt_Some). rewrite Hfrom. cbn. f_equal.
    rewrite !move_entry_lookup by (done || apply slip_vacant, Hb). rewrite !decide_True, Hbe by done. f_equal.
    apply take_app_length'. rewrite length_take. lia.
  - intros i Hie Hil. rewrite list_lookup_insert_ne by done.
    by rewrite !move_entry_lookup, !decide_False, Hbo by (done || apply slip_vacant, Hb).
Qed.

Lemma slip_dom : dom (req_id_to_index b') = dom (req_id_to_index b).
Proof. rewrite (sp_index _ _ _ _ _ _ _ Hs). apply dom_insert_lookup_L. apply (oc_index b Hb) in Hlast. eauto. Qed.

Lemma slip_known id' : is_Some (req_id_to_index b !! id') -> is_Some (req_id_to_index b' !! id').
Proof. rewrite <-!elem_of_dom. by rewrite slip_dom. Qed.

Lemma slip_core : ib_core b'.
Proof.
  destruct (sp_limits _ _ _ _ _ _ _ Hs) as (L1 & L2 & L3 & L4 & L5).
  destruct (oc_row b Hb _ _ Hfrom) as [Hlf Hnf], (oc_row b Hb _ _ Hto) as [Hlt _].
  split; rewrite ?L1, ?L2, ?L5.
  - apply slip_index.
  - by rewrite (sp_roster _ _ _ _ _ _ _ Hs), (sp_outputs _ _ _ _ _ _ _ Hs).
  - rewrite (sp_roster _ _ _ _ _ _ _ Hs), !length_insert. apply Hb.
  - rewrite (sp_rows _ _ _ _ _ _ _ Hs), length_insert. apply Hb.
  - intros i r. rewrite (sp_rows _ _ _ _ _ _ _ Hs). intros [(<- & <- & _)|[_ Hr]]%list_lookup_insert_Some; [|by apply (oc_row b Hb i)].
    cbn. rewrite length_app, length_take, length_drop. lia.
  - by eapply block_rows_moved; [apply Hb|by apply (core_lt b e _ Hb He)|apply Hs].
  - rewrite (sp_generators _ _ _ _ _ _ _ Hs). apply slip_entries, Hb.
  - rewrite (sp_bad_words _ _ _ _ _ _ _ Hs). apply slip_entries, Hb.
  - intros id'. rewrite (sp_sets _ _ _ _ _ _ _ Hs). intros Hin. by apply slip_known, (oc_sets b Hb).
  - intros id'. rewrite (sp_logprobs _ _ _ _ _ _ _ Hs), (sp_prompt_logprobs _ _ _ _ _ _ _ Hs). intros Hin. by apply slip_known, (oc_logprobs b Hb).
  - intros i r id'. rewrite (sp_rows _ _ _ _ _ _ _ Hs), (sp_loras _ _ _ _ _ _ _ Hs), slip_roster.
    intros [(<- & <- & _)|[Hne Hr]]%list_lookup_insert_Some [[_ ?]|[[Hi Hid]|(_ & _ & Hid)]] Hz; try done.
    + injection Hid as ->. by apply (oc_loras b Hb last from id).
    + congruence.
    + by apply (oc_loras b Hb i r id').
  - apply Hs.
  - apply Hb.
Qed.

Lemma slip_slid : slid b b'.
Proof.
  pose proof slip_cell as [Hc1 Hc2]. split; [apply slip_core|apply Hs| |apply slip_dom|].
  2: by eapply block_rows_moved; [apply Hb|by apply (core_lt b e _ Hb He)|apply Hs].
  intros id'. unfold req_view, id_view. rewrite (sp_index _ _ _ _ _ _ _ Hs), (sp_sets _ _ _ _ _ _ _ Hs), (sp_logprobs _ _ _ _ _ _ _ Hs), (sp_prompt_logprobs _ _ _ _ _ _ _ Hs).
  destruct (decide (id = id')) as [<-|Hne].
  - apply (oc_index b Hb) in Hlast. rewrite lookup_insert_eq, Hlast. cbn. by rewrite Hc1.
  - rewrite lookup_insert_ne by done. destruct (req_id_to_index b !! id') as [i|] eqn:Hi; [|done]. cbn.
    apply (oc_index b Hb) in Hi. rewrite Hc2; [done|intros ->; congruence..].
Qed.
End slipped.

(** * The dictionaries of logits processors *)

(** Lookups after insertions and deletions at keys that are equal or known to differ. *)
Ltac map_cells :=
  repeat first [rewrite lookup_insert_eq | rewrite lookup_insert_ne by done | rewrite lookup_delete_eq | rewrite lookup_delete_ne by done].

Lemma process_moved_lookup {T} (d : gmap nat T) a b direct j : process_moved d (a, b, direct) !! j =
  if decide (j = b) then d !! a else if decide (j = a) then match direct with SWAP => d !! b | UNIDIRECTIONAL => None end else d !! j.
Proof.
  unfold process_moved. destruct (decide (a = b)) as [->|Hab].
  - rewrite lookup_delete_eq. destruct (d !! b) as [x|] eqn:Hb, direct; repeat case_decide; subst;
      map_cells; congruence.
  - rewrite (lookup_delete_ne d a b) by done. destruct (d !! a) as [x|] eqn:Ha, (d !! b) as [y|] eqn:Hb, direct; repeat case_decide; subst;
      map_cells; congruence.
Qed.

Lemma foldl_delete_lookup {T} (l : list nat) (d : gmap nat T) j : foldl (fun d i => delete i d) d l !! j = if decide (j ∈ l) then None else d !! j.
Proof.
  induction l as [|i l IH] in d |- *; [by rewrite decide_False by apply not_elem_of_nil|]. cbn. rewrite IH.
  destruct (decide (j = i)) as [->|Hne].
  - rewrite (decide_True (P := i ∈ i :: l)), lookup_delete_eq by (by left). by case_decide.
  - rewrite lookup_delete_ne by done. repeat case_decide; try done; set_solver.
Qed.

(** Moves that leave [e] alone do not look at its entry. *)
Lemma moves_agree {T} ms e (d d' : gmap nat T) : (forall j, j <> e -> d !! j = d' !! j) -> (forall m, m ∈ ms -> m.1.1 <> e /\ m.1.2 <> e) ->
  forall j, j <> e -> foldl process_moved d ms !! j = foldl process_moved d' ms !! j.
Proof.
  induction ms as [|[[x y] direct] ms IH] in d, d' |- *; intros Hd Hm j Hj; [by apply Hd|]. cbn [foldl].
  destruct (Hm (x, y, direct)) as [Hx Hy]; [by left|]. apply IH; [|intros m Hin; apply Hm; by right|done].
  intros i Hi. rewrite !process_moved_lookup. repeat case_decide; try by apply Hd. destruct direct; [done|by apply Hd].
Qed.

Section tracks.
Context {T : Type} (new_state : BatchSampling -> list Z -> string -> option T) (d0 : gmap nat T).

(** The dictionary that a processor makes of [d0] with the changes recorded so far. *)
Definition applied (u : BatchUpdateBuilder) : gmap nat T :=
  foldl process_moved (foldl (fun d i => delete i d) (foldl (process_added new_state) d0 (added u)) (_removed u)) (moved u).

(** It has the entries of the requests of the batch at their indices. *)
Definition tracks (ent : string -> option T) (b : InputBatch) : Prop :=
  (forall i, applied (batch_update_builder b) !! i = _req_ids b !! i ≫= fun o => o ≫= ent) /\
  forall m, m ∈ moved (batch_update_builder b) -> m.1.1 ∉ _removed (batch_update_builder b) /\ m.1.2 ∉ _removed (batch_update_builder b).

Lemma applied_perm u u' : _removed u ≡ₚ _removed u' -> moved u = moved u' -> added u = added u' -> forall i, applied u !! i = applied u' !! i.
Proof.
  intros Hr Hm Ha i. unfold applied. rewrite Hm, Ha. f_equal. f_equal. apply map_eq. intros j. rewrite !foldl_delete_lookup.
  pose proof (elem_of_Permutation_proper j _ _ Hr). repeat case_decide; tauto.
Qed.

(** An index taken out of [_removed]. *)
Lemma applied_pop u u' e : _removed u ≡ₚ e :: _removed u' -> moved u = moved u' -> added u = added u' ->
  (forall m, m ∈ moved u -> m.1.1 ∉ _removed u /\ m.1.2 ∉ _removed u) -> forall j, j <> e -> applied u' !! j = applied u !! j.
Proof.
  intros Hr Hm Ha Hd j Hj. unfold applied. rewrite <-Hm, <-Ha. apply (moves_agree _ e).
  - intros i Hi. rewrite !foldl_delete_lookup. pose proof (elem_of_Permutation_proper i _ _ Hr) as H. rewrite elem_of_cons in H.
    repeat case_decide; tauto.
  - intros m Hin. assert (e ∈ _removed u) as He by (rewrite Hr; by left). destruct (Hd m Hin). split; intros <-; done.
  - done.
Qed.

Lemma process_moves_empty ms : foldl process_moved (∅ : gmap nat T) ms = ∅.
Proof.
  induction ms as [|[[x y] direct] ms IH]; [done|]. cbn [foldl]. replace (process_moved ∅ (x, y, direct)) with (∅ : gmap nat T); [done|].
  apply map_eq. intros j. rewrite process_moved_lookup, !lookup_empty. repeat case_decide; by destruct direct.
Qed.

(** [process_dict_updates] applies the recorded changes: its guard skips nothing that matters. *)
Lemma process_dict_updates_applied u n : process_dict_updates new_state d0 (Some (mkBatchUpdate n (_removed u) (added u) (moved u))) = applied u.
Proof.
  unfold process_dict_updates, applied. cbn. case_decide as Hd; [|done]. rewrite Hd.
  replace (foldl _ ∅ (_removed u)) with (∅ : gmap nat T); [by rewrite process_moves_empty|].
  apply map_eq. intros j. rewrite foldl_delete_lookup, lookup_empty. by case_decide.
Qed.
End tracks.

(** * Condensing *)

(** All indices above [top] are empty, and the empty ones up to it are the removed ones. *)
Record packing (b : InputBatch) (top : nat) : Prop := {
  pk_gaps : forall i, i < length (_req_ids b) -> _req_ids b !! i = Some None <-> i ∈ _removed (batch_update_builder b) \/ top < i;
  pk_removed : forall i, i ∈ _removed (batch_update_builder b) -> i < length (_req_ids b);
  pk_once : NoDup (_removed (batch_update_builder b));
  pk_sorted : Sorted descending (_removed (batch_update_builder b));
  pk_flag : _is_removed_sorted (batch_update_builder b) = true;
  pk_top : top < length (_req_ids b)
}.

(** The requests are at the indices below [k]. *)
Definition dense (b : InputBatch) (k : nat) : Prop :=
  k <= length (_req_ids b) /\ (forall i, i < length (_req_ids b) -> _req_ids b !! i = Some None <-> k <= i) /\
  forall i, i ∈ _removed (batch_update_builder b) -> k <= i.

Lemma skip_removed_spec removed top i : i <= top -> i ∉ removed ->
  skip_removed removed top ∉ removed /\ i <= skip_removed removed top <= top /\ forall j, skip_removed removed top < j <= top -> j ∈ removed.
Proof.
  intros Hi Hn. induction top as [|top IH]; cbn; case_decide as Hin.
  - assert (i = 0) as -> by lia. done.
  - split_and!; [done|lia..].
  - assert (i <> S top) by (intros ->; done). destruct IH as (H1 & H2 & H3); [lia|]. split_and!; [done|lia|lia|].
    intros j Hj. destruct (decide (j = S top)) as [->|]; [done|]. apply H3. lia.
  - split_and!; [done|lia..].
Qed.

Lemma wp_peek_removed u E : _is_removed_sorted u = true -> _removed u <> [] ->
  wp peek_removed (fun o u' => u' = u /\ o = last (_removed u)) E u.
Proof.
  intros Hs Hr. unfold peek_removed, has_removed. do 2 wp_step. destruct (_removed u) as [|x l] eqn:El; [done|]. cbn [length Nat.eqb negb].
  wp_steps. assert (ensure_removed_sorted u = u) as -> by (unfold ensure_removed_sorted; by rewrite Hs). by rewrite El.
Qed.

Lemma wp_pop_sorted u l e E : _is_removed_sorted u = true -> _removed u = l ++ [e] ->
  wp pop_removed (fun o u' => o = Some e /\ u' = set_removed l u) E u.
Proof.
  intros Hs Hr. unfold pop_removed, has_removed. do 2 wp_step. rewrite Hr, length_app, Nat.add_1_r. cbn [Nat.eqb negb].
  wp_steps. assert (ensure_removed_sorted u = u) as -> by (unfold ensure_removed_sorted; by rewrite Hs).
  rewrite Hr, removelast_last, last_snoc. done.
Qed.

Lemma dense_count b k : ib_core b -> dense b k -> num_reqs b = k.
Proof.
  intros Hb (Hk & Hd & _). unfold num_reqs. rewrite (roster_ids _ _ (oc_index b Hb)).
  pose proof (gaps_count (_req_ids b) (seq k (length (_req_ids b) - k))) as Hg. rewrite length_seq in Hg.
  enough (length (omap id (_req_ids b)) + (length (_req_ids b) - k) = length (_req_ids b)) by lia. apply Hg; [apply NoDup_seq|].
  intros i. rewrite elem_of_seq. split.
  - intros Hi. apply Hd; lia.
  - intros Hi. pose proof (lookup_lt_Some _ _ _ Hi) as Hlt. apply Hd in Hi; lia.
Qed.

Definition truncated (k : nat) (b : InputBatch) : InputBatch :=
  set_roster (take k (_req_ids b)) (take k (req_output_token_ids b)) (req_id_to_index b) b.

Lemma truncated_slid b k : ib_core b -> (forall i, occupied b i -> i < k) -> slid b (truncated k b).
Proof.
  intros Hb Hk. assert (forall i, occupied b i -> occupied (truncated k b) i) as Hocc.
  { intros i Ho. pose proof (Hk i Ho). destruct Ho as [id Hi]. exists id. cbn. by rewrite lookup_take_lt. }
  split; [|done..]. split; cbn; try apply Hb.
  - intros id i. rewrite (oc_index b Hb), lookup_take_Some. split; [|by intros []]. intros Hi. split; [done|]. apply Hk. by exists id.
  - by rewrite (oc_outputs b Hb).
  - rewrite length_take. pose proof (oc_fits b Hb). lia.
  - intros i g Hg. by eapply Hocc, oc_generators.
  - intros i g Hg. by eapply Hocc, oc_bad_words.
  - intros i r id Hr [Hi _]%lookup_take_Some Hz. by apply (oc_loras b Hb i r id).
Qed.

(** No gaps are left in the roster, and the indices still to be dropped are behind it. *)
Definition condensed (b : InputBatch) : Prop :=
  length (_req_ids b) = num_reqs b /\ (forall i, _req_ids b !! i <> Some None) /\
  forall i, i ∈ _removed (batch_update_builder b) -> num_reqs b <= i.

Lemma truncated_condensed b : ib_core b -> dense b (num_reqs b) -> condensed (truncated (num_reqs b) b).
Proof.
  intros Hb (H1 & H2 & H3). split_and!; [change (length (take (num_reqs b) (_req_ids b)) = num_reqs b); rewrite length_take; lia| |done].
  intros i [Hi Hlt]%lookup_take_Some. pose proof (lookup_lt_Some _ _ _ Hi) as Hl. apply H2 in Hi; lia.
Qed.

Section condense.
Context {T : Type} (new_state : BatchSampling -> list Z -> string -> option T) (d0 : gmap nat T) (ent : string -> option T).

(** A move out of [last] into the smallest empty index. *)
Lemma tracks_move b l e last id b' : tracks new_state d0 ent b -> _removed (batch_update_builder b) = l ++ [e] ->
  NoDup (l ++ [e]) -> last ∉ l ++ [e] -> _req_ids b !! last = Some (Some id) -> _req_ids b !! e = Some None ->
  _req_ids b' = <[last := None]> (<[e := Some id]> (_req_ids b)) ->
  batch_update_builder b' = (let u := set_removed l (batch_update_builder b) in
    mkBuilder (_removed u) (_is_removed_sorted u) (moved u ++ [(last, e, UNIDIRECTIONAL)]) (added u) (batch_changed u)) ->
  tracks new_state d0 ent b'.
Proof.
  intros [Ht Hm] Hr Hnd Hlast Hid He Hids Hu. set (u := batch_update_builder b) in *. rewrite Hr in Hm.
  assert (forall j, j <> e -> applied new_state d0 (set_removed l u) !! j = applied new_state d0 u !! j) as Hpop.
  { apply applied_pop; [by rewrite Hr, (Permutation_app_comm l [e])|done..|]. by rewrite Hr. }
  apply NoDup_app in Hnd as (_ & Hel & _). pose proof (lookup_lt_Some _ _ _ Hid). pose proof (lookup_lt_Some _ _ _ He).
  assert (e <> last) by (intros ->; congruence). split.
  - intros j. rewrite Hids, Hu. cbv zeta. unfold applied at 1. cbn [moved]. rewrite foldl_app. cbn [foldl].
    change (foldl process_moved _ (moved (set_removed l u))) with (applied new_state d0 (set_removed l u)). rewrite process_moved_lookup.
    repeat case_decide; subst.
    + rewrite Hpop, Ht, Hid by done. by rewrite list_lookup_insert_ne, list_lookup_insert_eq by done.
    + by rewrite list_lookup_insert_eq by (by rewrite length_insert).
    + rewrite Hpop, Ht by done. by rewrite !list_lookup_insert_ne by done.
  - rewrite Hu. cbn. intros m [Hin|Hin]%elem_of_app.
    + destruct (Hm m Hin). set_solver.
    + apply list_elem_of_singleton in Hin as ->. cbn. split; [set_solver|]. intros Hin. eapply Hel; [exact Hin|by left].
Qed.

Lemma packing_move b top l e last id b' : packing b top -> _removed (batch_update_builder b) = l ++ [e] -> e < last -> last <= top ->
  last ∉ l ++ [e] -> (forall j, last < j <= top -> j ∈ l ++ [e]) ->
  _req_ids b' = <[last := None]> (<[e := Some id]> (_req_ids b)) -> batch_update_builder b' =
    (let u := set_removed l (batch_update_builder b) in
     mkBuilder (_removed u) (_is_removed_sorted u) (moved u ++ [(last, e, UNIDIRECTIONAL)]) (added u) (batch_changed u)) ->
  packing b' (last - 1).
Proof.
  intros [H1 H2 H3 H4 H5 H6] Hr Hel Hlt Hn Hskip Hids Hu. rewrite Hr in *. pose proof (last_least l e H4) as [Hs Hleast].
  apply NoDup_app in H3 as (Hl & Hnd & _). split; rewrite ?Hids, ?Hu, ?length_insert; cbn.
  - intros i Hi. specialize (H1 i Hi). rewrite elem_of_app, list_elem_of_singleton in H1. rewrite elem_of_app, list_elem_of_singleton in Hn.
    destruct (decide (i = last)) as [->|Hil]; [rewrite list_lookup_insert_eq by (by rewrite length_insert); split; [lia|done]|].
    rewrite list_lookup_insert_ne by done. destruct (decide (i = e)) as [->|Hie].
    + rewrite list_lookup_insert_eq by done. split; [done|]. intros [Hin|?]; [|lia]. exfalso. eapply Hnd; [exact Hin|by left].
    + rewrite list_lookup_insert_ne, H1 by done. split; [intros [[?|?]|?]; [by left|done|right; lia]|].
      intros [?|?]; [by left; left|]. destruct (decide (i <= top)); [|right; lia]. specialize (Hskip i ltac:(lia)).
      rewrite elem_of_app, list_elem_of_singleton in Hskip. by left.
  - intros i Hi. apply H2. rewrite elem_of_app. by left.
  - done.
  - done.
  - done.
  - lia.
Qed.

(** The loop is over when nothing is left to fill, or the smallest empty index is above the last request. *)
Lemma packing_filled b top : packing b top -> _removed (batch_update_builder b) = [] -> dense b (S top).
Proof.
  intros [H1 H2 H3 H4 H5 H6] Er. rewrite Er in *. split_and!; [lia| |rewrite Er; intros i ?%elem_of_nil; done].
  intros i Hi. rewrite H1, elem_of_nil by done. split; [intros [[]|]; lia|by right].
Qed.

Lemma packing_break b top l e last : packing b top -> _removed (batch_update_builder b) = l ++ [e] -> last <= e -> last <= top ->
  last ∉ l ++ [e] -> (forall j, last < j <= top -> j ∈ l ++ [e]) -> dense b (S last).
Proof.
  intros [H1 H2 H3 H4 H5 H6] Hr Hle Hlt Hn Hskip. rewrite Hr in *. apply last_least in H4 as [_ Hleast].
  assert (forall j, j ∈ l ++ [e] -> S last <= j) as Habove.
  { intros j Hj. assert (j <> last) by (intros ->; done). apply elem_of_app in Hj as [Hj|Hj]; [specialize (Hleast _ Hj)|apply list_elem_of_singleton in Hj]; lia. }
  split_and!; [lia| |by rewrite Hr]. intros j Hj. rewrite H1 by done. split; [intros [?|?]; [by apply Habove|lia]|].
  intros ?. destruct (decide (j <= top)); [left; apply Hskip; lia|right; lia].
Qed.

(** The last request. *)
Lemma packing_last b top : ib_core b -> packing b top -> (exists id, id ∈ dom (req_id_to_index b)) ->
  let last := skip_removed (_removed (batch_update_builder b)) top in
  last ∉ _removed (batch_update_builder b) /\ last <= top /\ (forall j, last < j <= top -> j ∈ _removed (batch_update_builder b)) /\
  exists id, _req_ids b !! last = Some (Some id).
Proof.
  intros Hb [H1 H2 H3 H4 H5 H6] [id Hid]. cbv zeta. apply elem_of_dom in Hid as [i Hi]. apply (oc_index b Hb) in Hi.
  pose proof (H1 i (lookup_lt_Some _ _ _ Hi)) as Hg. rewrite Hi in Hg.
  destruct (skip_removed_spec (_removed (batch_update_builder b)) top i) as (Hl1 & Hl2 & Hl3).
  { destruct (decide (i <= top)); [done|]. assert (Some (Some id) = Some None) by (apply Hg; right; lia). done. }
  { intros ?. assert (Some (Some id) = Some None) by (apply Hg; by left). done. }
  split_and!; [done|lia|done|]. destruct (lookup_lt_is_Some_2 (_req_ids b) (skip_removed (_removed (batch_update_builder b)) top)) as [[x|] Hx]; [lia|eauto|].
  apply H1 in Hx; [|lia]. destruct Hx; [done|lia].
Qed.

Lemma wp_condense_loop b0 fuel : forall top b, slid b0 b -> packing b top -> tracks new_state d0 ent b ->
  length (_removed (batch_update_builder b)) <= fuel -> (exists id, id ∈ dom (req_id_to_index b0)) ->
  wp (condense_loop fuel top) (fun _ b' => slid b0 b' /\ (exists k, dense b' k) /\ tracks new_state d0 ent b' /\
    added (batch_update_builder b') = added (batch_update_builder b)) noexc b.
Proof.
  induction fuel as [|fuel IH]; intros top b Hs Hp Ht Hf Hne.
  { cbn [condense_loop]. wp_step. split_and!; [done| |done|done]. exists (S top). apply packing_filled; [done|]. by destruct (_removed _); [|cbn in Hf; lia]. }
  cbn [condense_loop]. do 2 wp_step. destruct (_removed (batch_update_builder b)) as [|x0 l0] eqn:Er.
  { wp_step. split_and!; [done| |done|done]. exists (S top). by apply packing_filled. }
  rewrite <-Er in *. destruct (exists_last (l := _removed (batch_update_builder b))) as (l & e & Hle); [by rewrite Er|].
  pose proof (sl_core _ _ Hs) as Hb. destruct (packing_last b top Hb Hp) as (Hl1 & Hl2 & Hl3 & id & Hid); [by rewrite (sl_dom _ _ Hs)|].
  set (last := skip_removed _ top) in *. pose proof Hp as [H1 H2 H3 _ H5 H6]. cbv zeta.
  wp_step. apply wp_on_builder. eapply wp_mono; [apply (wp_peek_removed _ noexc); [done|by rewrite Er]| |by intros ? ? []].
  intros ? u [-> ->]. rewrite Hle, last_snoc in *. assert (set_builder (batch_update_builder b) b = b) as -> by by destruct b.
  destruct (Nat.leb_spec last e) as [Hlee|Hgt].
  { wp_step. split_and!; [done| |done|done]. exists (S last). by eapply packing_break. }
  assert (_req_ids b !! e = Some None) as He.
  { assert (e ∈ _removed (batch_update_builder b)) by (rewrite Hle; apply elem_of_app; right; by left). apply H1; [by apply H2; rewrite <-Hle|left; by rewrite <-Hle]. }
  wp_step. apply wp_on_builder. eapply wp_mono; [apply (wp_pop_sorted _ l e noexc); done| |by intros ? ? []].
  intros ? u [-> ->]. set (b1 := set_builder _ b). assert (ib_core b1) as Hb1 by (destruct Hb; by split). wp_step.
  eapply wp_mono; [by apply (wp_move_request b1 last e id)| |done]. intros _ b2 (from & to & Hfrom & Hto & Hsl).
  assert (slid b1 b2) as Hs2 by (by eapply slip_slid).
  assert (slid b0 b2) as Hs3 by (eapply slid_trans; [exact Hs|]; destruct Hs2; by split).
  eapply wp_mono; [apply (IH (last - 1) b2 Hs3)| |done].
  - eapply packing_move; [exact Hp|exact Hle|done|done|done|done|apply Hsl|apply Hsl].
  - eapply tracks_move; [exact Ht|exact Hle|done|done|exact Hid|done|apply Hsl|apply Hsl].
  - rewrite (sp_builder _ _ _ _ _ _ _ Hsl). cbn. rewrite length_app in Hf. cbn in Hf. lia.
  - done.
  - intros _ b3 (? & ? & ? & Ha). split_and!; [done..|]. by rewrite Ha, (sp_builder _ _ _ _ _ _ _ Hsl).
Qed.

Lemma tracks_truncated b k : tracks new_state d0 ent b -> (forall i, occupied b i -> i < k) -> tracks new_state d0 ent (truncated k b).
Proof.
  intros [Ht Hm] Hk. split; [|done]. intros i. cbn. rewrite Ht. destruct (decide (i < k)); [by rewrite lookup_take_lt|].
  rewrite (lookup_take_ge _ k i) by lia. destruct (_req_ids b !! i) as [[id|]|] eqn:Hi; [|done..]. assert (i < k) by (apply Hk; by exists id). lia.
Qed.

Lemma tracks_sorted b u : tracks new_state d0 ent b -> _removed u ≡ₚ _removed (batch_update_builder b) -> moved u = moved (batch_update_builder b) ->
  added u = added (batch_update_builder b) -> tracks new_state d0 ent (set_builder u b).
Proof.
  intros [Ht Hm] Hr Hmv Ha. split.
  - intros i. cbn. rewrite <-Ht. by apply applied_perm.
  - cbn. intros m. rewrite Hmv, Hr. apply Hm.
Qed.

Lemma wp_condense b : ib_ok b -> tracks new_state d0 ent b ->
  wp condense (fun _ b' => slid b b' /\ condensed b' /\ tracks new_state d0 ent b' /\
    added (batch_update_builder b') = added (batch_update_builder b)) noexc b.
Proof.
  intros Hb Ht. pose proof (num_reqs_gaps b Hb) as Hg. unfold condense. do 4 wp_step.
  set (u := batch_update_builder b) in *. destruct (sort_descending_spec u (ok_sorted b Hb)) as (Hu1 & Hu2 & Hu3).
  assert (moved (ensure_removed_sorted u) = moved u /\ added (ensure_removed_sorted u) = added u) as [Hu4 Hu5] by (unfold ensure_removed_sorted; by destruct (_is_removed_sorted u)).
  set (v := ensure_removed_sorted u) in *. set (b1 := set_builder v b).
  assert (tracks new_state d0 ent b1) as Ht1 by (by apply tracks_sorted).
  assert (ib_core b1) as Hb1 by (destruct (ok_core b Hb); by split).
  assert (slid b b1) as Hs1 by (by split). do 2 wp_step. cbn [batch_update_builder set_builder b1].
  assert (forall i, i ∈ _removed v <-> _req_ids b !! i = Some None) as Hgap by (intros i; rewrite Hu2; apply Hb).
  destruct (_removed v) as [|x0 l0] eqn:Ev.
  - wp_step. split_and!; [done| |done|done]. apply Permutation_nil in Hu2. rewrite Hu2 in Hg. cbn in Hg. split_and!.
    + change (length (_req_ids b) = num_reqs b). lia.
    + intros i Hi. apply Hgap in Hi. by apply elem_of_nil in Hi.
    + cbn. rewrite Ev. by intros i ?%elem_of_nil.
  - rewrite <-Ev in *. destruct (Nat.eqb_spec (num_reqs b) 0) as [H0|H0].
    + wp_step. assert (forall i, occupied b1 i -> i < 0) as Hnone.
      { intros i [id Hi]. apply (oc_index b1 Hb1) in Hi. cbn in Hi. apply map_size_empty_inv in H0. by rewrite H0 in Hi. }
      change (set_roster [] [] _ _) with (truncated 0 b1). split_and!; [by eapply slid_trans, truncated_slid| |by apply tracks_truncated|done].
      split_and!; [done| |intros i _; change (num_reqs b <= i); lia]. intros i. cbn. by rewrite take_0.
    + pose proof (ok_removed_once b Hb) as Hnd. fold u in Hnd; rewrite <-Hu2 in Hnd. pose proof (Permutation_length Hu2) as Hul.
      wp_step. eapply wp_mono; [apply (wp_condense_loop b); [done| |done|cbn; lia|]| |done].
      * split; cbn; try done.
        -- intros i Hi. rewrite Hgap. split; [by left|]. intros [?|?]; [done|lia].
        -- intros i Hi%Hgap. by eapply lookup_lt_Some.
        -- lia.
      * destruct (map_choose (req_id_to_index b)) as (id & i & Hi); [intros E; unfold num_reqs in H0; by rewrite E, map_size_empty in H0|].
        exists id. apply elem_of_dom. eauto.
      * intros _ b2 (Hs2 & [k Hk] & Ht2 & Ha). wp_step. pose proof (sl_core _ _ Hs2) as Hb2. pose proof (dense_count b2 k Hb2 Hk) as <-.
        assert (num_reqs b2 = num_reqs b) as Hn by (unfold num_reqs; rewrite <-!size_dom; by rewrite (sl_dom _ _ Hs2)).
        rewrite <-Hn. change (set_roster _ _ _ _) with (truncated (num_reqs b2) b2).
        assert (forall i, occupied b2 i -> i < num_reqs b2) as Hocc.
        { intros i [id Hi]. destruct Hk as (_ & Hk & _). pose proof (lookup_lt_Some _ _ _ Hi) as Hlt. specialize (Hk i Hlt). rewrite Hi in Hk.
          destruct (decide (i < num_reqs b2)); [done|]. assert (Some (Some id) = Some None) by (apply Hk; lia). done. }
        split_and!; [by eapply slid_trans, truncated_slid|by apply truncated_condensed|by apply tracks_truncated|]. cbn. by rewrite Ha.
Qed.
End condense.

(** * Swapping *)

Lemma swap_dict_lookup {V} (d : gmap nat V) i j k : i <> j ->
  swap_dict_values d i j !! k = if decide (k = i) then d !! j else if decide (k = j) then d !! i else d !! k.
Proof.
  intros Hne. unfold swap_dict_values. destruct (d !! i) as [x|] eqn:Hi, (d !! j) as [y|] eqn:Hj; repeat case_decide; subst; map_cells; congruence.
Qed.

Definition rows_swapped (i j : nat) (ts ts' : list BlockTable) : Prop :=
  length ts' = length ts /\ forall k t t', ts !! k = Some t -> ts' !! k = Some t' ->
    bt_ok t' /\ same_table t t' /\ exists l l', bt_rows t !! i = Some l /\ bt_rows t !! j = Some l' /\ bt_rows t' = <[j := l]> (<[i := l']> (bt_rows t)).

Lemma wp_mg_swap_row n i j ts E : tables_ok n ts -> i < n -> j < n -> wp (mg_swap_row i j) (fun _ ts' => rows_swapped i j ts ts') E ts.
Proof.
  intros Hts Hi Hj. unfold mg_swap_row. apply wp_for_tables. intros k t Ht. destruct (Forall_lookup_1 _ _ _ _ Hts Ht) as [Hok Hn].
  destruct (bt_row t i Hok ltac:(lia)) as (m & row & Hrow), (bt_row t j Hok ltac:(lia)) as (m' & row' & Hrow').
  eapply wp_mono; [by apply wp_swap_row| |done]. intros ? t' (H1 & H2 & H3).
  split_and!; [done|done|]. exists (take m row), (take m' row'). split_and!; [by apply row_is_rows..|done].
Qed.

Lemma block_rows_swapped n i j ts ts' : tables_ok n ts -> i < n -> j < n -> i <> j -> rows_swapped i j ts ts' ->
  tables_ok n ts' /\ same_tables ts ts' /\ block_rows ts' i = block_rows ts j /\ block_rows ts' j = block_rows ts i /\
  forall k, k <> i -> k <> j -> block_rows ts' k = block_rows ts k.
Proof.
  intros Hts Hi Hj Hne [Hl H].
  assert (forall k t t', ts !! k = Some t -> ts' !! k = Some t' -> bt_ok t' /\ same_table t t') as Hst.
  { intros k t t' Ht Ht'. by destruct (H k t t' Ht Ht') as (? & ? & _). }
  split_and!; [by eapply tables_ok_next|by apply same_tables_next|..].
  - apply block_rows_from; [done|]. intros k t t' Ht Ht'. destruct (H k t t' Ht Ht') as (_ & _ & l & l' & _ & -> & ->).
    rewrite list_lookup_insert_ne by done. apply list_lookup_insert_eq. by apply (bt_rows_lt n ts k).
  - apply block_rows_from; [done|]. intros k t t' Ht Ht'. destruct (H k t t' Ht Ht') as (_ & _ & l & l' & -> & _ & ->).
    apply list_lookup_insert_eq. rewrite length_insert. by apply (bt_rows_lt n ts k).
  - intros k Hki Hkj. apply block_rows_from; [done|]. intros k' t t' Ht Ht'. destruct (H k' t t' Ht Ht') as (_ & _ & l & l' & _ & _ & ->).
    by rewrite !list_lookup_insert_ne.
Qed.

(** The cells of [from] over those of [to]. *)
Definition swapped_row (from to : Row) : Row := take_sampling from (take_states from to).

(** The batch after the requests [x] at [i] and [y] at [j] changed places. *)
Record swapped (b : InputBatch) (i j : nat) (x y : string) (ri rj : Row) (b' : InputBatch) : Prop := {
  sw_limits : same_limits b b';
  sw_roster : _req_ids b' = <[j := Some x]> (<[i := Some y]> (_req_ids b));
  sw_outputs : req_output_token_ids b' = <[j := Some x]> (<[i := Some y]> (_req_ids b));
  sw_index : req_id_to_index b' = <[y := i]> (<[x := j]> (req_id_to_index b));
  sw_rows : ib_rows b' = <[j := swapped_row ri rj]> (<[i := swapped_row rj ri]> (ib_rows b));
  sw_tables : rows_swapped i j (ib_block_table b) (ib_block_table b');
  sw_sets : ib_sets b' = ib_sets b;
  sw_logprobs : num_logprobs b' = num_logprobs b;
  sw_prompt_logprobs : num_prompt_logprobs b' = num_prompt_logprobs b;
  sw_generators : generators b' = swap_dict_values (generators b) i j;
  sw_bad_words : bad_words_token_ids b' = swap_dict_values (bad_words_token_ids b) i j;
  sw_mask : forall mask, allowed_token_ids_mask b' = Some mask -> length mask = ib_max_num_reqs b;
  sw_loras : lora_id_to_request_ids b' = lora_id_to_request_ids b;
  sw_builder : batch_update_builder b' =
    (let u := batch_update_builder b in mkBuilder (_removed u) (_is_removed_sorted u) (moved u ++ [(i, j, SWAP)]) (added u) (batch_changed u))
}.

Lemma wp_swap_mask_rows b i j E : i < ib_max_num_reqs b -> j < ib_max_num_reqs b ->
  (forall mask, allowed_token_ids_mask b = Some mask -> length mask = ib_max_num_reqs b) ->
  wp (swap_mask_rows i j) (fun _ b' => exists m, b' = set_mask m b /\ forall mask, m = Some mask -> length mask = ib_max_num_reqs b) E b.
Proof.
  intros Hi Hj Hm. unfold swap_mask_rows. do 2 wp_step. destruct (allowed_token_ids_mask b) as [mask|] eqn:Em; cycle 1.
  { wp_step. exists None. split; [|done]. destruct b. cbn in *. by subst. }
  specialize (Hm mask eq_refl). destruct (lookup_lt_is_Some_2 mask i) as [u Hu]; [lia|]. destruct (lookup_lt_is_Some_2 mask j) as [v Hv]; [lia|].
  wp_step. eapply wp_lift; [by apply at_index_ok|]. wp_step. eapply wp_lift; [by apply at_index_ok|].
  wp_step. eapply wp_lift; [apply store_at_ok; lia|]. wp_step. eapply wp_lift; [apply at_index_ok, list_lookup_insert_eq; lia|].
  wp_step. eapply wp_lift; [apply store_at_ok; rewrite length_insert; lia|]. wp_step.
  eexists. split; [done|]. intros ? [= <-]. by rewrite !length_insert.
Qed.

Lemma swap_cells_ok {A} (l : list A) i j x y : l !! i = Some x -> l !! j = Some y -> swap_cells l i j = Ok (<[j := x]> (<[i := y]> l)).
Proof. intros Hi Hj. unfold swap_cells. by rewrite (at_index_ok _ _ _ Hi), (at_index_ok _ _ _ Hj). Qed.

Lemma wp_swap_rows b f i j ri rj (Q : unit -> InputBatch -> Prop) E : ib_rows b !! i = Some ri -> ib_rows b !! j = Some rj ->
  Q tt (set_ib_rows (<[j := f ri rj]> (<[i := f rj ri]> (ib_rows b))) b) -> wp (swap_rows f i j) Q E b.
Proof.
  intros Hi Hj HQ. unfold swap_rows. wp_step. eapply wp_read_cells; [exact Hi|]. wp_step. eapply wp_read_cells; [exact Hj|].
  wp_step. apply wp_write_cells; [by eapply lookup_lt_Some|]. apply wp_write_cells; [cbn; rewrite length_insert; by eapply lookup_lt_Some|]. done.
Qed.

Lemma insert_pair_twice {A} (l : list A) i j a a' c c' : i <> j -> <[j := a']> (<[i := a]> (<[j := c']> (<[i := c]> l))) = <[j := a']> (<[i := a]> l).
Proof. intros Hne. by rewrite (list_insert_insert_ne _ i j), list_insert_insert_eq, list_insert_insert_eq by done. Qed.

Lemma wp_swap_states b i j x y E : ib_core b -> i <> j -> _req_ids b !! i = Some (Some x) -> _req_ids b !! j = Some (Some y) ->
  wp (swap_states i j) (fun _ b' => exists ri rj, ib_rows b !! i = Some ri /\ ib_rows b !! j = Some rj /\ swapped b i j x y ri rj b') E b.
Proof.
  intros Hb Hne Hx Hy. pose proof (core_lt b i _ Hb Hx) as Hi. pose proof (core_lt b j _ Hb Hy) as Hj.
  destruct (core_row b i Hb Hi) as [ri Hri], (core_row b j Hb Hj) as [rj Hrj].
  pose proof (lookup_lt_Some _ _ _ Hri) as Hli. pose proof (lookup_lt_Some _ _ _ Hrj) as Hlj.
  unfold swap_states. do 2 wp_step. rewrite (oc_outputs b Hb).
  wp_step. eapply wp_lift; [by apply at_index_ok|]. wp_step. eapply wp_lift; [by apply at_index_ok|].
  wp_step. eapply wp_lift; [by apply swap_cells_ok|]. wp_step. eapply wp_lift; [by apply swap_cells_ok|].
  do 3 wp_step. cbn [req_id_to_index set_roster]. rewrite (proj2 (oc_index b Hb x i) Hx), (proj2 (oc_index b Hb y j) Hy).
  wp_step. wp_step. eapply wp_swap_rows; [exact Hri|exact Hrj|].
  wp_step. apply wp_on_tables. eapply wp_mono; [apply (wp_mg_swap_row _ _ _ _ noexc (oc_tables b Hb) Hi Hj)| |by intros ? ? []].
  intros ? ts Hts. cbn [is_pooling_model]. rewrite (oc_pooling b Hb). unfold record_move. do 2 wp_step.
  wp_step. eapply wp_swap_rows; [cbn; rewrite list_lookup_insert_ne by done; by apply list_lookup_insert_eq|cbn; apply list_lookup_insert_eq; by rewrite length_insert|].
  do 4 wp_step. eapply wp_mono; [apply wp_swap_mask_rows; [exact Hi|exact Hj|apply Hb]| |done].
  intros ? b' (m & -> & Hm). exists ri, rj. split_and!; [done|done|]. split; try done. by apply insert_pair_twice.
Qed.

Section swapped.
Context (b : InputBatch) (i j : nat) (x y : string) (ri rj : Row) (b' : InputBatch).
Hypothesis Hb : ib_core b.
Hypothesis Hne : i <> j.
Hypothesis Hx : _req_ids b !! i = Some (Some x).
Hypothesis Hy : _req_ids b !! j = Some (Some y).
Hypothesis Hri : ib_rows b !! i = Some ri.
Hypothesis Hrj : ib_rows b !! j = Some rj.
Hypothesis Hs : swapped b i j x y ri rj b'.

Lemma swap_other : x <> y.
Proof. intros E. pose proof (proj2 (oc_index b Hb x i) Hx) as H1. pose proof (proj2 (oc_index b Hb y j) Hy) as H2. congruence. Qed.

Lemma swap_roster k z : _req_ids b' !! k = Some z <->
  (k = i /\ z = Some y) \/ (k = j /\ z = Some x) \/ (k <> i /\ k <> j /\ _req_ids b !! k = Some z).
Proof.
  pose proof (lookup_lt_Some _ _ _ Hx). pose proof (lookup_lt_Some _ _ _ Hy).
  rewrite (sw_roster _ _ _ _ _ _ _ _ Hs), !list_lookup_insert_Some, length_insert. naive_solver.
Qed.

Lemma swap_index id k : req_id_to_index b' !! id = Some k <-> _req_ids b' !! k = Some (Some id).
Proof.
  pose proof swap_other as Hxy. pose proof (oc_index b Hb) as Ho. rewrite swap_roster, (sw_index _ _ _ _ _ _ _ _ Hs), !lookup_insert_Some, Ho. split.
  - intros [[<- <-]|[H1 [[<- <-]|[H2 Hk]]]]; [by left|by right; left|]. do 2 right. split_and!; [intros ->|intros ->|]; congruence.
  - intros [[-> [= ->]]|[[-> [= ->]]|(H1 & H2 & Hk)]]; [by left|by right; split; [|left]|]. apply Ho in Hk, Hx, Hy.
    right. split; [congruence|right]. split; [congruence|]. by apply Ho.
Qed.

Lemma swap_occupied k : occupied b' k <-> occupied b k.
Proof.
  unfold occupied. setoid_rewrite swap_roster. split.
  - intros [id [[-> _]|[[-> _]|(_ & _ & Hk)]]]; eauto.
  - intros [id Hk]. destruct (decide (k = i)); [by exists y; left|]. destruct (decide (k = j)); [by exists x; right; left|]. exists id. by do 2 right.
Qed.

Lemma swap_entries {V} (d : gmap nat V) : (forall k v, d !! k = Some v -> occupied b k) ->
  forall k v, swap_dict_values d i j !! k = Some v -> occupied b' k.
Proof.
  intros Hd k v. rewrite swap_dict_lookup, swap_occupied by done. repeat case_decide; subst; intros Hv; [by exists x|by exists y|by eapply Hd].
Qed.

Lemma swap_cell : cell_view b' i = cell_view b j /\ cell_view b' j = cell_view b i /\ forall k, k <> i -> k <> j -> cell_view b' k = cell_view b k.
Proof.
  pose proof (lookup_lt_Some _ _ _ Hri). pose proof (lookup_lt_Some _ _ _ Hrj).
  destruct (block_rows_swapped _ i j _ _ (oc_tables b Hb) (core_lt b i _ Hb Hx) (core_lt b j _ Hb Hy) Hne (sw_tables _ _ _ _ _ _ _ _ Hs)) as (_ & _ & Bi & Bj & Bo).
  unfold cell_view. rewrite (sw_rows _ _ _ _ _ _ _ _ Hs), (sw_generators _ _ _ _ _ _ _ _ Hs), (sw_bad_words _ _ _ _ _ _ _ _ Hs). split_and!.
  - rewrite list_lookup_insert_ne, list_lookup_insert_eq, Hrj, !swap_dict_lookup, !decide_True, Bi by done. done.
  - rewrite list_lookup_insert_eq, Hri, !swap_dict_lookup, !(decide_False (P := j = i)), !decide_True, Bj by (by rewrite ?length_insert). done.
  - intros k Hki Hkj. by rewrite !list_lookup_insert_ne, !swap_dict_lookup, !decide_False, Bo by done.
Qed.

Lemma swap_dom : dom (req_id_to_index b') = dom (req_id_to_index b).
Proof.
  rewrite (sw_index _ _ _ _ _ _ _ _ Hs). assert (is_Some (req_id_to_index b !! x)) by (apply (oc_index b Hb) in Hx; eauto).
  assert (is_Some (req_id_to_index b !! y)) by (apply (oc_index b Hb) in Hy; eauto).
  rewrite !dom_insert_lookup_L; [done|done|]. rewrite lookup_insert_is_Some. destruct (decide (x = y)); [by left|by right].
Qed.

Lemma swap_core : ib_core b'.
Proof.
  destruct (sw_limits _ _ _ _ _ _ _ _ Hs) as (L1 & L2 & L3 & L4 & L5). destruct (oc_row b Hb _ _ Hri), (oc_row b Hb _ _ Hrj).
  assert (forall id, is_Some (req_id_to_index b !! id) -> is_Some (req_id_to_index b' !! id)) as Hk by (intros id; rewrite <-!elem_of_dom; by rewrite swap_dom).
  split; rewrite ?L1, ?L2, ?L5.
  - apply swap_index.
  - by rewrite (sw_roster _ _ _ _ _ _ _ _ Hs), (sw_outputs _ _ _ _ _ _ _ _ Hs).
  - rewrite (sw_roster _ _ _ _ _ _ _ _ Hs), !length_insert. apply Hb.
  - rewrite (sw_rows _ _ _ _ _ _ _ _ Hs), !length_insert. apply Hb.
  - intros k r. rewrite (sw_rows _ _ _ _ _ _ _ _ Hs). intros [(<- & <- & _)|[_ [(<- & <- & _)|[_ Hr]]%list_lookup_insert_Some]]%list_lookup_insert_Some;
      [done..|by apply (oc_row b Hb k)].
  - eapply block_rows_swapped; [apply Hb|by apply (core_lt b i _ Hb Hx)|by apply (core_lt b j _ Hb Hy)|done|apply Hs].
  - rewrite (sw_generators _ _ _ _ _ _ _ _ Hs). apply swap_entries, Hb.
  - rewrite (sw_bad_words _ _ _ _ _ _ _ _ Hs). apply swap_entries, Hb.
  - intros id. rewrite (sw_sets _ _ _ _ _ _ _ _ Hs). intros Hin. by apply Hk, (oc_sets b Hb).
  - intros id. rewrite (sw_logprobs _ _ _ _ _ _ _ _ Hs), (sw_prompt_logprobs _ _ _ _ _ _ _ _ Hs). intros Hin. by apply Hk, (oc_logprobs b Hb).
  - intros k r id. rewrite (sw_rows _ _ _ _ _ _ _ _ Hs), (sw_loras _ _ _ _ _ _ _ _ Hs), swap_roster.
    intros [(<- & <- & _)|[? [(<- & <- & _)|[? Hr]]%list_lookup_insert_Some]]%list_lookup_insert_Some Hk' Hz.
    + destruct Hk' as [[? _]|[[_ [= ->]]|(? & ? & _)]]; [congruence| |done]. by apply (oc_loras b Hb i ri x).
    + destruct Hk' as [[_ [= ->]]|[[? _]|(? & _)]]; [|congruence|done]. by apply (oc_loras b Hb j rj y).
    + destruct Hk' as [[? _]|[[? _]|(_ & _ & Hid)]]; [congruence..|]. by apply (oc_loras b Hb k r id).
  - apply Hs.
  - apply Hb.
Qed.

Lemma swap_slid : slid b b'.
Proof.
  pose proof swap_cell as (Ci & Cj & Co). pose proof swap_other as Hxy. split; [apply swap_core|apply Hs| |apply swap_dom|].
  2: by eapply block_rows_swapped; [apply Hb|by apply (core_lt b i _ Hb Hx)|by apply (core_lt b j _ Hb Hy)|done|apply Hs].
  intros id. unfold req_view, id_view. rewrite (sw_index _ _ _ _ _ _ _ _ Hs), (sw_sets _ _ _ _ _ _ _ _ Hs), (sw_logprobs _ _ _ _ _ _ _ _ Hs), (sw_prompt_logprobs _ _ _ _ _ _ _ _ Hs).
  pose proof (proj2 (oc_index b Hb x i) Hx) as Hxi. pose proof (proj2 (oc_index b Hb y j) Hy) as Hyj.
  destruct (decide (id = y)) as [->|Hy']; [rewrite lookup_insert_eq, Hyj; cbn; by rewrite Ci|].
  rewrite lookup_insert_ne by done. destruct (decide (id = x)) as [->|Hx']; [rewrite lookup_insert_eq, Hxi; cbn; by rewrite Cj|].
  rewrite lookup_insert_ne by done. destruct (req_id_to_index b !! id) as [k|] eqn:Hk; [|done]. cbn.
  apply (oc_index b Hb) in Hk. rewrite Co; [done|intros ->; congruence..].
Qed.

Lemma swap_condensed : condensed b -> condensed b'.
Proof.
  intros (H1 & H2 & H3). assert (num_reqs b' = num_reqs b) as Hn by (unfold num_reqs; rewrite <-!size_dom; by rewrite swap_dom).
  rewrite <-Hn in H1, H3. unfold condensed. rewrite (sw_builder _ _ _ _ _ _ _ _ Hs). cbn. split_and!; [|..|done].
  - by rewrite (sw_roster _ _ _ _ _ _ _ _ Hs), !length_insert.
  - intros k Hk. apply swap_roster in Hk as [[_ ?]|[[_ ?]|(_ & _ & Hk)]]; [done..|]. by eapply H2.
Qed.

Lemma swap_tracks {T} new_state (d0 : gmap nat T) ent : condensed b -> tracks new_state d0 ent b -> tracks new_state d0 ent b'.
Proof.
  intros (Hlen & _ & Hr) [Ht Hm]. set (u := batch_update_builder b) in *.
  pose proof (lookup_lt_Some _ _ _ Hx) as Hi. pose proof (lookup_lt_Some _ _ _ Hy) as Hj. split.
  - intros k. rewrite (sw_roster _ _ _ _ _ _ _ _ Hs), (sw_builder _ _ _ _ _ _ _ _ Hs). cbv zeta. fold u. unfold applied. cbn [moved added _removed].
    rewrite foldl_app. cbn [foldl]. change (foldl process_moved _ (moved u)) with (applied new_state d0 u). rewrite process_moved_lookup, !Ht.
    repeat case_decide; subst.
    + by rewrite list_lookup_insert_eq, Hx by (by rewrite length_insert).
    + by rewrite list_lookup_insert_ne, list_lookup_insert_eq, Hy by done.
    + by rewrite !list_lookup_insert_ne by done.
  - rewrite (sw_builder _ _ _ _ _ _ _ _ Hs). cbn. fold u. intros m [Hin|Hin]%elem_of_app; [by apply Hm|].
    apply list_elem_of_singleton in Hin as ->. cbn. split; intros Hin%Hr; lia.
Qed.
End swapped.

(** * The batch as a map of requests *)

Definition ReqView : Type := CellView * (list bool * option Z * option Z).

Definition batch_map (b : InputBatch) : gmap string ReqView := map_imap (fun id _ => req_view b id) (req_id_to_index b).

Lemma batch_map_lookup b id : batch_map b !! id = req_view b id.
Proof. unfold batch_map. rewrite map_lookup_imap. unfold req_view. by destruct (req_id_to_index b !! id). Qed.

Lemma batch_map_dom b : ib_core b -> dom (batch_map b) = dom (req_id_to_index b).
Proof.
  intros Hb. apply set_eq. intros id. rewrite !elem_of_dom, batch_map_lookup. unfold req_view, cell_view.
  destruct (req_id_to_index b !! id) as [i|] eqn:Hi; cbn; [|done]. apply (oc_index b Hb), (core_lt b i _ Hb) in Hi.
  destruct (core_row b i Hb Hi) as [r ->]. cbn. split; eauto.
Qed.

Lemma batch_map_size b : ib_core b -> size (batch_map b) = num_reqs b.
Proof. intros Hb. unfold num_reqs. rewrite <-!size_dom. by rewrite (batch_map_dom b Hb). Qed.

Lemma slid_map b b' : slid b b' -> batch_map b' = batch_map b.
Proof. intros Hs. apply map_eq. intros id. rewrite !batch_map_lookup. apply Hs. Qed.

(** What holds from the start of a step until the batch is condensed. *)
Record open_step (b0 b : InputBatch) : Prop := {
  os_ok : ib_ok b;
  os_moved : moved (batch_update_builder b) = [];
  os_limits : same_limits b0 b;
  os_tables : same_tables (ib_block_table b0) (ib_block_table b)
}.

Lemma open_step_next b0 b b' : open_step b0 b -> ib_ok b' -> moved (batch_update_builder b') = [] -> same_limits b b' ->
  same_tables (ib_block_table b) (ib_block_table b') -> open_step b0 b'.
Proof. intros [] ? ? ? ?. split; [done|done|by etransitivity..]. Qed.

Section entries.
Context {T : Type} (new_state : BatchSampling -> list Z -> string -> option T) (d0 : gmap nat T).

Lemma tracks_remove ent b b' i : moved (batch_update_builder b) = [] -> _req_ids b' = <[i := None]> (_req_ids b) -> i < length (_req_ids b) ->
  batch_update_builder b' = mkBuilder (_removed (batch_update_builder b) ++ [i]) false (moved (batch_update_builder b)) (added (batch_update_builder b)) true ->
  tracks new_state d0 ent b -> tracks new_state d0 ent b'.
Proof.
  intros Hmv Hids Hi Hu [Ht _]. split; rewrite Hu; cbn; rewrite Hmv; [|by intros m ?%elem_of_nil]. intros j. rewrite Hids.
  unfold applied in *. cbn. rewrite Hmv in Ht. cbn in Ht. rewrite foldl_app. cbn.
  destruct (decide (j = i)) as [->|Hne]; [by rewrite lookup_delete_eq, list_lookup_insert_eq|].
  by rewrite lookup_delete_ne, list_lookup_insert_ne, Ht by done.
Qed.

(** The entries once request [r] is added. *)
Definition ent_add (ent : string -> option T) (r : CachedRequestState) : string -> option T :=
  fun id => if decide (id = cs_req_id r) then cs_sampling_params r ≫= fun p => new_state p (cs_prompt_token_ids r) id else ent id.

Lemma tracks_add ent b r p i u row b' : ib_ok b -> add_ready b r p -> enrolled b r p i u -> joined b r p i row u b' ->
  moved (batch_update_builder b) = [] -> tracks new_state d0 ent b -> tracks new_state d0 (ent_add ent r) b'.
Proof.
  intros Hb Hr He Hj Hmv [Ht _]. pose proof He as (Hfree & _ & Hu & Hu1 & Hu2 & _).
  assert (moved u = []) as Hmv' by (by rewrite Hu). assert (added u = added (batch_update_builder b) ++ [mkAdded i p (cs_prompt_token_ids r) (cs_req_id r)]) as Ha by (by rewrite Hu).
  assert (forall j, j ∈ _removed u <-> j <> i /\ j ∈ _removed (batch_update_builder b)) as Hrm.
  { intros j. destruct (decide (_removed (batch_update_builder b) = [])) as [E|E].
    - rewrite (Hu1 E), E. split; [by intros ?%elem_of_nil|by intros [_ ?%elem_of_nil]].
    - pose proof (ok_removed_once b Hb) as Hnd. pose proof (Hu2 E) as Hp. rewrite Hp in Hnd. apply NoDup_cons in Hnd as [Hni _].
      rewrite Hp, elem_of_cons. split; [|naive_solver]. intros Hin. split; [by intros ->|by right]. }
  split; rewrite (jo_builder _ _ _ _ _ _ _ Hj); [|rewrite Hmv'; by intros m ?%elem_of_nil]. intros j.
  unfold applied in *. rewrite Hmv', Ha. rewrite Hmv in Ht. cbn in Ht |- *. specialize (Ht j). rewrite foldl_delete_lookup in Ht.
  rewrite foldl_delete_lookup, foldl_app. cbn. unfold process_added at 1. cbn.
  assert (_req_ids b' !! j = if decide (j = i) then Some (Some (cs_req_id r)) else _req_ids b !! j) as ->.
  { apply option_eq. intros x. rewrite (jo_roster _ _ _ _ _ _ _ Hj), (roster_with_lookup b i _ Hb Hfree). destruct (decide (j = i)).
    - split; [by intros [[_ ->]|[? _]]|intros [= <-]; by left].
    - split; [by intros [[? _]|[_ ?]]|by right]. }
  destruct (decide (j = i)) as [->|Hne].
  - rewrite decide_False by (rewrite Hrm; naive_solver). cbn. unfold ent_add. rewrite decide_True, (ar_params _ _ _ Hr) by done. cbn.
    destruct (new_state p _ _); [by rewrite lookup_insert_eq|by rewrite lookup_delete_eq].
  - rewrite (decide_ext _ (j ∈ _removed (batch_update_builder b)) _ _) by (rewrite Hrm; naive_solver).
    assert ((match new_state p (cs_prompt_token_ids r) (cs_req_id r) with
      | Some st => <[i:=st]> (foldl (process_added new_state) d0 (added (batch_update_builder b)))
      | None => delete i (foldl (process_added new_state) d0 (added (batch_update_builder b)))
      end) !! j = foldl (process_added new_state) d0 (added (batch_update_builder b)) !! j) as ->.
    { destruct (new_state p _ _); [by rewrite lookup_insert_ne|by rewrite lookup_delete_ne]. }
    rewrite Ht. destruct (_req_ids b !! j) as [[id|]|] eqn:Hj'; [|by case_decide..]. cbn. unfold ent_add. destruct (decide (id = cs_req_id r)) as [Hid|]; [|done].
    subst id. apply (ok_index b Hb) in Hj'. by rewrite (ar_new _ _ _ Hr) in Hj'.
Qed.
End entries.

(** * Steps on the map *)

(** Removing keeps the other requests; an unknown id changes nothing. *)
Lemma wp_remove_step b0 b id E : open_step b0 b -> _is_removed_sorted (batch_update_builder b) = false ->
  wp (remove_request id) (fun _ b' => open_step b0 b' /\ _is_removed_sorted (batch_update_builder b') = false /\
    batch_map b' = delete id (batch_map b) /\
    forall (T : Type) new_state (d0 : gmap nat T) ent, tracks new_state d0 ent b -> tracks new_state d0 ent b') E b.
Proof.
  intros Hb Hs. destruct (req_id_to_index b !! id) as [i|] eqn:Hi.
  - eapply wp_mono; [by apply (wp_remove_request b id i noexc (os_ok _ _ Hb))| |by intros ? ? []].
    intros ? b' (-> & Hok & (Hlim & Hcell & Hid) & Htab & Hids & Hidx & Hu). pose proof (os_moved _ _ Hb) as Hmv. rewrite Hu. split_and!.
    + apply (open_step_next b0 b); [done..|by rewrite Hu|done|by rewrite Htab].
    + done.
    + apply map_eq. intros id'. rewrite batch_map_lookup. destruct (decide (id' = id)) as [->|Hne].
      * rewrite lookup_delete_eq. unfold req_view. by rewrite Hidx, lookup_delete_eq.
      * rewrite lookup_delete_ne, batch_map_lookup by done. unfold req_view. rewrite Hidx, lookup_delete_ne, Hid by done.
        destruct (req_id_to_index b !! id') as [j|] eqn:Hj; [|done]. cbn. rewrite Hcell; [done|]. intros ->.
        apply (ok_index b (os_ok _ _ Hb)) in Hi, Hj. congruence.
    + intros T new_state d0 ent. apply (tracks_remove _ _ ent b b' i); [done..| |done]. apply (ok_index b (os_ok _ _ Hb)) in Hi. by eapply lookup_lt_Some.
  - unfold remove_request. do 2 wp_step. rewrite Hi. wp_step. split_and!; [done..| |done]. symmetry. apply delete_id. rewrite batch_map_lookup.
    unfold req_view. by rewrite Hi.
Qed.

(** Adding gives the request its view. *)
Definition new_view (b : InputBatch) (r : CachedRequestState) (p : BatchSampling) : ReqView := (new_cell (ib_vocab_size b) r p, new_ids b p).

Lemma wp_add_step b0 b r p E : open_step b0 b -> add_ready b r p ->
  wp (add_request r) (fun _ b' => open_step b0 b' /\ batch_map b' = <[cs_req_id r := new_view b r p]> (batch_map b) /\
    forall (T : Type) new_state (d0 : gmap nat T) ent, tracks new_state d0 ent b -> tracks new_state d0 (ent_add new_state ent r) b') E b.
Proof.
  intros Hb Hr. pose proof (os_ok _ _ Hb) as Hok. eapply wp_mono; [by apply (wp_add_request b r p noexc)| |by intros ? ? []].
  intros i b' (row & u & He & Hrow & Hj). pose proof (joined_ok b r p i row u b' Hok Hr He Hrow Hj) as Hok'.
  destruct (joined_views b r p i row u b' Hok Hr He Hrow Hj) as ((Hlim & Hcell & Hid) & Htab & Hci & Hidi). split_and!.
  - apply (open_step_next b0 b); [done..| |done|done]. rewrite (jo_builder _ _ _ _ _ _ _ Hj). destruct He as (_ & _ & -> & _). apply Hb.
  - apply map_eq. intros id'. rewrite batch_map_lookup. unfold req_view. rewrite (jo_index _ _ _ _ _ _ _ Hj).
    destruct (decide (id' = cs_req_id r)) as [->|Hne].
    + rewrite !lookup_insert_eq. cbn. by rewrite Hci, Hidi.
    + rewrite !lookup_insert_ne, batch_map_lookup by done. unfold req_view. rewrite Hid by done.
      destruct (req_id_to_index b !! id') as [j|] eqn:Hj'; [|done]. cbn. rewrite Hcell; [done|]. intros ->.
      apply (ok_index b Hok) in Hj'. by apply (free_not_occupied b i Hok); [apply He|exists id'].
  - intros T new_state d0 ent Ht. exact (tracks_add new_state d0 ent b r p i u row b' Hok Hr He Hj (os_moved _ _ Hb) Ht).
Qed.
