(* ===== verification/ModelRunner.v ===== *)
(** The model runner of the worker: [_update_states], [_prepare_inputs] and the bookkeeping after sampling of
    [GPUModelRunner] in [vllm/v1/worker/gpu_model_runner.py], and [reorder_batch_to_split_decodes_and_prefills] of
    [vllm/v1/attention/backends/utils.py].

    The runner keeps the state of every request it has seen and the persistent batch.  Images, M-RoPE positions, pooling
    updates, attention metadata and the model itself are left out.  Sets are iterated in an order that is an argument. *)
From stdpp Require Import base gmap sets list strings.
From Stdlib Require Import ZArith QArith Lia.
From S2P Require Import Prelude NumpyArrays Request BlockTable InputBatch.
Open Scope nat_scope.

(** * Reordering *)

(** The indices of the requests with at most [threshold] tokens, and of the others. *)
Fixpoint split_requests (threshold : nat) (scheduled : gmap string nat) (i : nat) (ids : list (option string)) : outcome (list nat * list nat) :=
  match ids with
  | [] => Ok ([], [])
  | id :: ids =>
      match id ≫= fun id => scheduled !! id with
      | None => Raise KeyError
      | Some num_tokens =>
          '(decodes, prefills) ← split_requests threshold scheduled (S i) ids;
          Ok (if num_tokens <=? threshold then (i :: decodes, prefills) else (decodes, i :: prefills))
      end
  end.

Fixpoint reorder_loop (decodes prefills rounds : list nat) (modified : bool) : M InputBatch bool :=
  match rounds with
  | [] => mret modified
  | i :: rounds =>
      decode_idx ← lift_out (at_index decodes (length decodes - i));
      if decode_idx <? length decodes then mret modified
      else
        prefill_idx ← lift_out (at_index prefills (i - 1));
        swap_states prefill_idx decode_idx ;;
        reorder_loop decodes prefills rounds true
  end.

Definition reorder_batch_to_split_decodes_and_prefills (scheduled : gmap string nat) (decode_threshold : nat) : M InputBatch bool :=
  b ← get;
  '(decodes, prefills) ← lift_out (split_requests decode_threshold scheduled 0 (_req_ids b));
  reorder_loop decodes prefills (seq 1 (Nat.min (length decodes) (length prefills))) false.

(** * The state of the runner and its input *)

Record NewRequestData := mkNewReq {
  nr_req_id : string;
  nr_prompt_token_ids : list Z;
  nr_sampling_params : option BatchSampling;
  (** the seed, for seeded sampling; it also names the generator *)
  nr_seed : option nat;
  nr_pooling_params : option bool;
  nr_block_ids : list (list Z);
  nr_num_computed_tokens : nat;
  nr_lora_request : option LoRARequest
}.

(** An entry of [CachedRequestData]. *)
Record CachedRequest := mkCachedReq {
  cq_req_id : string;
  cq_resumed_from_preemption : bool;
  cq_new_token_ids : list Z;
  cq_new_block_ids : option (list (list Z));
  cq_num_computed_tokens : nat
}.

Record StepInput := mkStepInput {
  scheduled_new_reqs : list NewRequestData;
  scheduled_cached_reqs : list CachedRequest;
  num_scheduled_tokens : gmap string nat;
  scheduled_spec_decode_tokens : gmap string (list Z);
  si_finished_req_ids : gset string;
  free_encoder_mm_hashes : list string
}.

Record GPUModelRunner := mkModelRunner {
  rn_requests : gmap string CachedRequestState;
  input_batch : InputBatch;
  (** the hashes of the encoder outputs kept *)
  encoder_cache : gset string
}.

Definition set_rn_requests (x : gmap string CachedRequestState) (w : GPUModelRunner) : GPUModelRunner := mkModelRunner x (input_batch w) (encoder_cache w).
Definition set_input_batch (x : InputBatch) (w : GPUModelRunner) : GPUModelRunner := mkModelRunner (rn_requests w) x (encoder_cache w).
Definition set_encoder_cache (x : gset string) (w : GPUModelRunner) : GPUModelRunner := mkModelRunner (rn_requests w) (input_batch w) x.
Definition on_batch {A} (m : M InputBatch A) : M GPUModelRunner A := zoom input_batch set_input_batch m.

Definition rn_request (id : string) : M GPUModelRunner CachedRequestState :=
  w ← get; match rn_requests w !! id with Some r => mret r | None => raise KeyError end.
Definition store_request (id : string) (r : CachedRequestState) : M GPUModelRunner unit := modify (fun w => set_rn_requests (<[id := r]> (rn_requests w)) w).

Definition drop_request (id : string) : M GPUModelRunner unit := on_batch (remove_request id) ;; mret tt.

(** ** New requests *)

Definition new_req_state (q : NewRequestData) : CachedRequestState :=
  mkCachedState (nr_req_id q) (nr_prompt_token_ids q) (nr_sampling_params q) (nr_pooling_params q)
    (match nr_sampling_params q with Some _ => nr_seed q | None => None end)
    (nr_block_ids q) (nr_num_computed_tokens q) [] (nr_lora_request q).

Definition add_new_request (q : NewRequestData) : M GPUModelRunner unit :=
  w ← get;
  assertM (negb (is_pooling_model (input_batch w)) || bool_decide (is_Some (nr_pooling_params q))) ;;
  store_request (nr_req_id q) (new_req_state q).

(** ** Running and resumed requests *)

(** [new_token_ids[-n:]]. *)
Definition last_tokens (l : list Z) (n : nat) : list Z := drop (length l - n) l.

(** The tokens that the scheduler sends back to all stages of the pipeline but the last. *)
Definition append_sampled (r : CachedRequestState) (num_computed_tokens : nat) (new_token_ids : list Z) : outcome (list Z) :=
  let num_new_tokens := (Z.of_nat (num_computed_tokens + length new_token_ids) - Z.of_nat (cs_num_tokens r))%Z in
  if (num_new_tokens =? 1)%Z
  then t ← index_at new_token_ids (-1); Ok (cs_output_token_ids r ++ [t])
  else if (0 <? num_new_tokens)%Z then Ok (cs_output_token_ids r ++ last_tokens new_token_ids (Z.to_nat num_new_tokens))
  else Ok (cs_output_token_ids r).

(** [for block_ids, new_ids in zip(...): block_ids.extend(new_ids)]. *)
Fixpoint extend_blocks (block_ids new_block_ids : list (list Z)) : list (list Z) :=
  match block_ids, new_block_ids with
  | ids :: block_ids, new :: new_block_ids => (ids ++ new) :: extend_blocks block_ids new_block_ids
  | _, _ => block_ids
  end.

Definition update_blocks (resumed : bool) (block_ids : list (list Z)) (new_block_ids : option (list (list Z))) : outcome (list (list Z)) :=
  match resumed, new_block_ids with
  | false, Some new => Ok (extend_blocks block_ids new)
  | false, None => Ok block_ids
  | true, Some new => Ok new
  | true, None => Raise AssertionError
  end.

Definition with_progress (r : CachedRequestState) (computed : nat) (outputs : list Z) (blocks : list (list Z)) : CachedRequestState :=
  mkCachedState (cs_req_id r) (cs_prompt_token_ids r) (cs_sampling_params r) (cs_pooling_params r) (cs_generator r) blocks computed outputs
    (cs_lora_request r).

(** [token_ids_cpu[i, start:stop] = ids]. *)
Definition write_tokens (i start stop : nat) (ids : list Z) : M InputBatch unit :=
  row ← read_cells i;
  tokens ← lift_out (assign_range (row_token_ids row) start stop ids);
  write_cells i (with_tokens tokens row).

(** The scheduled draft tokens of a request go behind its tokens. *)
Definition write_spec_tokens (i : nat) (spec_token_ids : list Z) : M InputBatch unit :=
  match spec_token_ids with
  | [] => mret tt
  | _ =>
      let n := length spec_token_ids in
      row ← read_cells i;
      let start := row_num_tokens_no_spec row in
      write_tokens i start (start + n) spec_token_ids ;;
      update_cells i (fun row => with_counts (row_num_tokens row + n) (row_num_tokens_no_spec row) (row_num_prompt_tokens row) (row_num_computed_tokens row) row)
  end.

(** A request at index [i] of the batch. *)
Definition update_persistent (last_rank : bool) (i : nat) (q : CachedRequest) (spec_token_ids : list Z) : M InputBatch unit :=
  update_cells i (fun row => with_counts (row_num_tokens row) (row_num_tokens_no_spec row) (row_num_prompt_tokens row) (cq_num_computed_tokens q) row) ;;
  match cq_new_block_ids q with
  | Some ids => on_tables (mg_append_row ids i)
  | None => mret tt
  end ;;
  (if last_rank then mret tt
   else
     let start := cq_num_computed_tokens q in
     let stop := start + length (cq_new_token_ids q) in
     write_tokens i start stop (cq_new_token_ids q) ;;
     update_cells i (fun row => with_counts stop stop (row_num_prompt_tokens row) (row_num_computed_tokens row) row)) ;;
  write_spec_tokens i spec_token_ids.

(** The state of the request, then its place in the batch; the answer is whether it has to be added. *)
Definition update_cached_request (last_rank : bool) (spec : gmap string (list Z)) (q : CachedRequest) : M GPUModelRunner bool :=
  let id := cq_req_id q in
  r ← rn_request id;
  outputs ← (if last_rank then mret (cs_output_token_ids r)
             else lift_out (append_sampled r (cq_num_computed_tokens q) (cq_new_token_ids q)));
  blocks ← lift_out (update_blocks (cq_resumed_from_preemption q) (cs_block_ids r) (cq_new_block_ids q));
  store_request id (with_progress r (cq_num_computed_tokens q) outputs blocks) ;;
  w ← get;
  match req_id_to_index (input_batch w) !! id with
  | None => mret true
  | Some i => on_batch (update_persistent last_rank i q (default [] (spec !! id))) ;; mret false
  end.

(** The requests to add are objects of [self.requests]; here, their ids. *)
Definition update_cached_requests (last_rank : bool) (spec : gmap string (list Z)) (qs : list CachedRequest) (to_add : list string) : M GPUModelRunner (list string) :=
  foldM qs to_add (fun to_add q =>
    add ← update_cached_request last_rank spec q; mret (if add : bool then to_add ++ [cq_req_id q] else to_add)).

Definition add_to_batch (id : string) : M GPUModelRunner unit := r ← rn_request id; on_batch (add_request r) ;; mret tt.

(** [_may_reorder_batch]; [threshold] is [reorder_batch_threshold]. *)
Definition may_reorder_batch (has_kv_cache_groups : bool) (dcp_world_size : nat) (threshold : option nat) (scheduled : gmap string nat) : M InputBatch unit :=
  if negb has_kv_cache_groups then mret tt
  else match threshold with
       | None => mret tt
       | Some t =>
           (if 1 <? dcp_world_size then assertM (t =? 1) else mret tt) ;;
           reorder_batch_to_split_decodes_and_prefills scheduled t ;; mret tt
       end.

Section step.
(** The order in which a set is iterated. *)
Context (order : gset string -> list string).
Context (last_rank has_kv_cache_groups : bool) (dcp_world_size : nat) (threshold : option nat).

Definition remove_finished (s : StepInput) : M GPUModelRunner unit :=
  forM (order (si_finished_req_ids s)) (fun id => modify (fun w => set_rn_requests (delete id (rn_requests w)) w)) ;;
  forM (order (si_finished_req_ids s)) drop_request ;;
  forM (free_encoder_mm_hashes s) (fun h => modify (fun w => set_encoder_cache (encoder_cache w ∖ {[h]}) w)).

Definition remove_unscheduled (s : StepInput) : M GPUModelRunner unit :=
  w ← get;
  forM (order (dom (req_id_to_index (input_batch w)) ∖ dom (num_scheduled_tokens s))) drop_request.

Definition add_new_requests (s : StepInput) : M GPUModelRunner unit := forM (scheduled_new_reqs s) add_new_request.

(** [_update_states]; the update for the logits processors is its result. *)
Definition update_states (s : StepInput) : M GPUModelRunner (option BatchUpdate) :=
  remove_finished s ;;
  remove_unscheduled s ;;
  add_new_requests s ;;
  reqs_to_add ← update_cached_requests last_rank (scheduled_spec_decode_tokens s) (scheduled_cached_reqs s) (nr_req_id <$> scheduled_new_reqs s);
  forM reqs_to_add add_to_batch ;;
  on_batch condense ;;
  on_batch (may_reorder_batch has_kv_cache_groups dcp_world_size threshold (num_scheduled_tokens s)) ;;
  on_batch refresh_metadata.
End step.

(** * The inputs of the model *)

Section inputs.
(** The length of [arange_np]. *)
Context (arange_len : nat).

(** [_get_cumsum_and_arange]. *)
Definition get_cumsum_and_arange (num_tokens : list Z) : outcome (list Z * list Z) :=
  let cu_num_tokens := cumsum num_tokens in
  total_num_tokens ← index_at cu_num_tokens (-1);
  let cumsums_offsets := repeat_each (zip_with Z.sub cu_num_tokens num_tokens) num_tokens in
  let arange := Z.of_nat <$> seq 0 (Nat.min (Z.to_nat total_num_tokens) arange_len) in
  if length arange =? length cumsums_offsets then Ok (cu_num_tokens, zip_with Z.sub arange cumsums_offsets) else Raise ValueError.

(** [_calc_spec_decode_metadata], over the token ids of the step. *)
Record SpecDecodeMetadata := mkSpecMeta {
  draft_token_ids : list Z;
  num_draft_tokens : list Z;
  cu_num_draft_tokens : list Z;
  target_logits_indices : list Z;
  bonus_logits_indices : list Z;
  logits_indices : list Z
}.

Definition calc_spec_decode_metadata (input_ids num_draft_tokens cu_num_scheduled_tokens : list Z) : outcome SpecDecodeMetadata :=
  let num_sampled_tokens := Z.succ <$> num_draft_tokens in
  '(cu_num_sampled_tokens, arange) ← get_cumsum_and_arange num_sampled_tokens;
  let logits_indices := zip_with Z.add (repeat_each (zip_with Z.sub cu_num_scheduled_tokens num_sampled_tokens) num_sampled_tokens) arange in
  let bonus_logits_indices := Z.pred <$> cu_num_sampled_tokens in
  '(cu_num_draft_tokens, arange) ← get_cumsum_and_arange num_draft_tokens;
  let target_logits_indices := zip_with Z.add (repeat_each (zip_with Z.sub cu_num_sampled_tokens num_sampled_tokens) num_draft_tokens) arange in
  ids ← take_at input_ids logits_indices;
  draft_token_ids ← take_at ids (Z.succ <$> target_logits_indices);
  Ok (mkSpecMeta draft_token_ids num_draft_tokens cu_num_draft_tokens target_logits_indices bonus_logits_indices logits_indices).

(** ** [_prepare_input_ids]

    With asynchronous scheduling the tokens sampled in the step before are not in [input_ids] yet: the last token of a
    request that was in that step is copied from [prev_sampled_token_ids].  [gpu] is the array on the device before,
    [items] the items of [req_id_to_index]. *)

Record PrevStep := mkPrev {
  prev_sampled_token_ids : list Z;
  prev_req_id_to_index : gmap string nat
}.

(** The positions of the common requests in the inputs, and their indices in the step before. *)
Fixpoint common_requests (prev : gmap string nat) (cu_num_tokens : list Z) (items : list (string * nat)) : outcome (list (Z * nat)) :=
  match items with
  | [] => Ok []
  | (id, cur_index) :: items =>
      match prev !! id with
      | None => common_requests prev cu_num_tokens items
      | Some prev_index =>
          c ← at_index cu_num_tokens cur_index;
          rest ← common_requests prev cu_num_tokens items;
          Ok ((c - 1, prev_index)%Z :: rest)
      end
  end.

(** [scatter_] along dimension 0. *)
Fixpoint scatter_ids (gpu : list Z) (index : list Z) (src : list Z) : outcome (list Z) :=
  match index, src with
  | i :: index, x :: src =>
      if (i <? 0)%Z then Raise RuntimeError else g ← store_at gpu (Z.to_nat i) x; scatter_ids g index src
  | _, _ => Ok gpu
  end.

Definition copy_to_gpu (n : nat) (cpu gpu : list Z) : list Z := take n cpu ++ drop n gpu.

Definition prepare_input_ids (prev : option PrevStep) (items : list (string * nat)) (total_num_scheduled_tokens : nat)
    (cu_num_tokens cpu gpu : list Z) : outcome (list Z) :=
  match prev with
  | None => Ok (copy_to_gpu total_num_scheduled_tokens cpu gpu)
  | Some p =>
      common ← common_requests (prev_req_id_to_index p) cu_num_tokens items;
      let n := length common in
      let indices_match := forallb (fun '(f, i) => (Z.of_nat i =? f)%Z) common in
      let max_flattened_index := foldl Z.max (-1)%Z common.*1 in
      let gpu := if n <? total_num_scheduled_tokens then copy_to_gpu total_num_scheduled_tokens cpu gpu else gpu in
      if n =? 0 then Ok gpu
      else if indices_match && (max_flattened_index =? Z.of_nat n - 1)%Z
      then assign_range gpu 0 n (take n (prev_sampled_token_ids p))
      else
        src ← mapM (at_index (prev_sampled_token_ids p)) common.*2;
        scatter_ids gpu common.*1 src
  end.

(** ** [_prepare_inputs] *)

Record ModelInputs := mkInputs {
  in_positions : list nat;
  in_input_ids : list Z;
  in_query_start_loc : list Z;
  in_seq_lens : list Z;
  in_logits_indices : list Z;
  in_spec_decode_metadata : option SpecDecodeMetadata
}.

(** The number of draft tokens of each request. *)
Fixpoint count_drafts (index : gmap string nat) (spec : list (string * list Z)) (l : list Z) : outcome (list Z) :=
  match spec with
  | [] => Ok l
  | (id, ids) :: spec =>
      match index !! id with
      | None => Raise KeyError
      | Some i => l ← store_at l i (Z.of_nat (length ids)); count_drafts index spec l
      end
  end.

Definition scheduled_of (scheduled : gmap string nat) (id : option string) : outcome nat :=
  match id ≫= fun id => scheduled !! id with Some n => Ok n | None => Raise KeyError end.

(** The position of a token: behind the computed ones of its request. *)
Definition position_of (rows : list Row) (t : nat * Z) : outcome nat :=
  row ← at_index rows t.1; Ok (row_num_computed_tokens row + Z.to_nat t.2).

(** [prev] is what asynchronous scheduling keeps of the step before, [items] the items of [req_id_to_index] and [gpu] the
    token ids on the device. *)
Definition prepare_inputs (s : StepInput) (total_num_scheduled_tokens : nat) (prev : option PrevStep) (items : list (string * nat))
    (gpu : list Z) : M InputBatch ModelInputs :=
  assertM (0 <? total_num_scheduled_tokens) ;;
  b ← get;
  let n := num_reqs b in
  assertM (0 <? n) ;;
  on_tables (mg_commit_block_table n) ;;
  tokens ← lift_out (mapM (scheduled_of (num_scheduled_tokens s)) (_req_ids b));
  let req_indices := repeat_each (seq 0 n) (counts tokens) in
  '(cu_num_tokens, arange) ← lift_out (get_cumsum_and_arange (counts tokens));
  positions ← lift_out (mapM (position_of (ib_rows b)) (zip req_indices arange));
  (if length positions =? total_num_scheduled_tokens then mret tt else raise ValueError) ;;
  let token_indices := zip_with (fun p r => Z.of_nat (p + r * ib_max_model_len b)) positions req_indices in
  cpu ← lift_out (take_at (concat (row_token_ids <$> ib_rows b)) token_indices);
  on_tables (mg_compute_slot_mapping req_indices positions) ;;
  on_tables (mg_commit_slot_mapping total_num_scheduled_tokens) ;;
  last_cu ← lift_out (index_at cu_num_tokens (-1));
  let query_start_loc := 0%Z :: cu_num_tokens ++ replicate (ib_max_num_reqs b - n) last_cu in
  let seq_lens := zip_with (fun row t => Z.of_nat (row_num_computed_tokens row + t)) (take n (ib_rows b)) tokens ++ replicate (ib_max_num_reqs b - n) 0%Z in
  input_ids ← lift_out (prepare_input_ids prev items total_num_scheduled_tokens cu_num_tokens cpu gpu);
  if size (scheduled_spec_decode_tokens s) =? 0
  then mret (mkInputs positions input_ids query_start_loc seq_lens (Z.pred <$> cu_num_tokens) None)
  else
    drafts ← lift_out (count_drafts (req_id_to_index b) (map_to_list (scheduled_spec_decode_tokens s)) (replicate n 0%Z));
    meta ← lift_out (calc_spec_decode_metadata input_ids drafts cu_num_tokens);
    mret (mkInputs positions input_ids query_start_loc seq_lens (logits_indices meta) (Some meta)).
End inputs.

(** * After sampling *)

(** The requests whose sampled token is dropped, since their prompt is not complete. *)
Fixpoint discard_indices (requests : gmap string CachedRequestState) (scheduled : gmap string nat) (i : nat) (ids : list (option string)) : outcome (list nat) :=
  match ids with
  | [] => Ok []
  | id :: ids =>
      r ← (match id ≫= fun id => requests !! id with Some r => Ok r | None => Raise KeyError end);
      n ← scheduled_of scheduled id;
      rest ← discard_indices requests scheduled (S i) ids;
      Ok (if cs_num_computed_tokens r + n <? cs_num_tokens r then i :: rest else rest)
  end.

(** [valid_sampled_token_ids[i].clear()]. *)
Fixpoint clear_discarded (indices : list nat) (sampled : list (list Z)) : outcome (list (list Z)) :=
  match indices with
  | [] => Ok sampled
  | i :: indices => sampled ← store_at sampled i []; clear_discarded indices sampled
  end.

(** A request takes its sampled tokens. *)
Definition record_sampled (i : nat) (sampled_ids : list Z) : M GPUModelRunner unit :=
  match sampled_ids with
  | [] => mret tt
  | _ =>
      w ← get;
      row ← on_batch (read_cells i);
      let start_idx := row_num_tokens_no_spec row in
      let end_idx := start_idx + length sampled_ids in
      assertM (end_idx <=? ib_max_model_len (input_batch w)) ;;
      on_batch (write_tokens i start_idx end_idx sampled_ids) ;;
      on_batch (update_cells i (fun row => with_counts end_idx end_idx (row_num_prompt_tokens row) (row_num_computed_tokens row) row)) ;;
      id ← lift_out (at_index (_req_ids (input_batch w)) i);
      match id with
      | None => raise KeyError
      | Some id =>
          r ← rn_request id;
          store_request id (with_progress r (cs_num_computed_tokens r) (cs_output_token_ids r ++ sampled_ids) (cs_block_ids r))
      end
  end.

Fixpoint record_all (i : nat) (sampled : list (list Z)) : M GPUModelRunner unit :=
  match sampled with
  | [] => mret tt
  | ids :: sampled => record_sampled i ids ;; record_all (S i) sampled
  end.

(** [_bookkeeping_sync] without log probabilities and without asynchronous scheduling; [sampled] are the tokens of each
    request.  The rewinding of generators is left out. *)
Definition bookkeeping_sync (s : StepInput) (sampled : list (list Z)) : M GPUModelRunner (list (list Z)) :=
  w ← get;
  discard ← lift_out (discard_indices (rn_requests w) (num_scheduled_tokens s) 0 (_req_ids (input_batch w)));
  valid_sampled_token_ids ← lift_out (clear_discarded discard sampled);
  record_all 0 valid_sampled_token_ids ;;
  mret valid_sampled_token_ids.
