(* ===== verification/BatchReorder.v ===== *)
(** What [reorder_batch_to_split_decodes_and_prefills] does: the requests with few tokens come first, by swaps that keep
    every request. *)
From stdpp Require Import base gmap sets list strings sorting.
From Stdlib Require Import ZArith QArith Lia.
From S2P Require Import Prelude NumpyArrays Request BlockTable InputBatch InputBatchFacts BatchSteps ModelRunner.
Open Scope nat_scope.

(** * Counting indices *)

Lemma bounded_length (l : list nat) a b : NoDup l -> (forall x, x ∈ l -> a <= x < b) -> length l <= b - a.
Proof.
  intros Hnd Hl. rewrite <-(length_seq (b - a) a). apply submseteq_length, NoDup_submseteq; [done|].
  intros x Hx%Hl. apply elem_of_seq. lia.
Qed.

Lemma all_below (l : list nat) n : NoDup l -> length l = n -> (forall x, x ∈ l -> x < n) -> forall j, j < n -> j ∈ l.
Proof.
  intros Hnd Hlen Hl j Hj. assert (l ≡ₚ seq 0 n) as ->; [|apply elem_of_seq; lia].
  apply submseteq_length_Permutation; [|by rewrite length_seq, Hlen].
  apply NoDup_submseteq; [done|]. intros x Hx%Hl. apply elem_of_seq. lia.
Qed.

Lemma in_take {A} (l : list A) k x : x ∈ take k l -> x ∈ l.
Proof. intros Hx. rewrite <-(take_drop k l). apply elem_of_app. by left. Qed.

Lemma in_drop {A} (l : list A) k x : x ∈ drop k l -> x ∈ l.
Proof. intros Hx. rewrite <-(take_drop k l). apply elem_of_app. by right. Qed.

(** The ascending indices [ds] and [ps] of the two kinds of requests of a batch of [n]. *)
Record split_of (n : nat) (ds ps : list nat) : Prop := {
  so_once : NoDup (ds ++ ps);
  so_all : forall j, j ∈ ds ++ ps <-> j < n;
  so_ds : StronglySorted lt ds;
  so_ps : StronglySorted lt ps
}.

Section split.
Context (n : nat) (ds ps : list nat).
Hypothesis Hs : split_of n ds ps.

Lemma split_length : length ds + length ps = n.
Proof.
  rewrite <-length_app. assert (ds ++ ps ≡ₚ seq 0 n) as ->; [|apply length_seq].
  apply NoDup_Permutation; [apply Hs|apply NoDup_seq|]. intros j. rewrite elem_of_seq, (so_all _ _ _ Hs). lia.
Qed.

(** Once [k] rounds swapped the requests of the last [k] of [ds] with those of the first [k] of [ps], all later ones of
    [ds] being behind the front, the loop is over. *)
Definition now_decodes (k : nat) : list nat := take (length ds - k) ds ++ take k ps.

Lemma now_decodes_once k : NoDup (now_decodes k).
Proof.
  pose proof (so_once _ _ _ Hs) as (H1 & H2 & H3)%NoDup_app. apply NoDup_app. split_and!.
  - rewrite <-(take_drop (length ds - k) ds) in H1. by apply NoDup_app in H1 as (? & _).
  - intros x Hx Hx'. apply (H2 x); [by eapply in_take|].
    by eapply in_take.
  - rewrite <-(take_drop k ps) in H3. by apply NoDup_app in H3 as (? & _).
Qed.

Lemma split_front k x : k <= length ps -> k <= length ds -> (forall d, d ∈ drop (length ds - k) ds -> length ds <= d) ->
  x ∈ take k ps -> x < length ds.
Proof.
  intros Hk Hkd Hback Hx. destruct (decide (x < length ds)) as [|Hge]; [done|]. exfalso.
  apply elem_of_take in Hx as (m & Hm & Hmk). pose proof split_length as Hn. pose proof (lookup_lt_Some _ _ _ Hm) as Hml.
  assert (NoDup (drop (length ds - k) ds ++ drop m ps)) as Hnd.
  { pose proof (so_once _ _ _ Hs) as Hnd. rewrite <-(take_drop (length ds - k) ds), <-app_assoc in Hnd. apply NoDup_app in Hnd as (_ & _ & Hnd).
    apply NoDup_app in Hnd as (H1 & H2 & H3). rewrite <-(take_drop m ps) in H2, H3. apply NoDup_app in H3 as (_ & _ & H3).
    apply NoDup_app. split_and!; [done| |done]. intros y Hy Hy'. apply (H2 y Hy). apply elem_of_app. by right. }
  apply bounded_length with (a := length ds) (b := n) in Hnd.
  - rewrite length_app, !length_drop in Hnd. lia.
  - intros y Hy. split.
    + apply elem_of_app in Hy as [Hy|Hy]; [by apply Hback|]. pose proof (so_ps _ _ _ Hs) as Hsort.
      rewrite <-(take_drop m ps) in Hsort. apply StronglySorted_app in Hsort as (_ & _ & Hsort).
      rewrite (drop_S _ _ _ Hm) in Hy, Hsort. apply elem_of_cons in Hy as [->|Hy]; [lia|].
      inversion Hsort as [|? ? _ Hall]; subst. rewrite Forall_forall in Hall. specialize (Hall y Hy). lia.
    + apply (so_all _ _ _ Hs). apply elem_of_app in Hy as [Hy|Hy]; apply elem_of_app; [left|right];
        by eapply in_drop.
Qed.

Lemma split_back k x : k <= length ds -> (forall d, d ∈ drop (length ds - k) ds -> length ds <= d) ->
  k = Nat.min (length ds) (length ps) \/ (k < length ds /\ exists d, ds !! (length ds - S k) = Some d /\ d < length ds) ->
  x ∈ take (length ds - k) ds -> x < length ds.
Proof.
  intros Hk Hback Hstop Hx. pose proof split_length as Hn. pose proof (so_ds _ _ _ Hs) as Hsort.
  destruct Hstop as [Hmin|(Hlt & d & Hd & Hdl)].
  - destruct (decide (x < length ds)) as [|Hge]; [done|]. exfalso. destruct (decide (k = length ds)) as [->|Hne].
    { rewrite Nat.sub_diag, take_0 in Hx. by apply elem_of_nil in Hx. }
    assert (k = length ps) as Hkp by lia. pose proof (so_once _ _ _ Hs) as (Hnd & _ & _)%NoDup_app.
    assert (NoDup (x :: drop (length ds - k) ds)) as Hnd'.
    { rewrite <-(take_drop (length ds - k) ds) in Hnd. apply NoDup_app in Hnd as (_ & H2 & H3). constructor; [by apply H2|done]. }
    apply bounded_length with (a := length ds) (b := n) in Hnd'.
    + cbn in Hnd'. rewrite length_drop in Hnd'. lia.
    + intros y Hy. split; [apply elem_of_cons in Hy as [->|Hy]; [lia|by apply Hback]|].
      apply (so_all _ _ _ Hs), elem_of_app. left. apply elem_of_cons in Hy as [->|Hy].
      * by eapply in_take.
      * by eapply in_drop.
  - replace (length ds - k) with (S (length ds - S k)) in Hx by lia. rewrite (take_S_r _ _ _ Hd) in Hx.
    apply elem_of_app in Hx as [Hx|Hx]; [|by apply list_elem_of_singleton in Hx as ->].
    rewrite <-(take_drop (length ds - S k) ds) in Hsort. apply (StronglySorted_app_1_elem_of lt _ _ x d) in Hsort; [lia|done|].
    rewrite (drop_S _ _ _ Hd). by left.
Qed.

Lemma reorder_done k : k <= length ps -> k <= length ds -> (forall d, d ∈ drop (length ds - k) ds -> length ds <= d) ->
  k = Nat.min (length ds) (length ps) \/ (k < length ds /\ exists d, ds !! (length ds - S k) = Some d /\ d < length ds) ->
  forall j, j ∈ now_decodes k <-> j < length ds.
Proof.
  intros Hkp Hkd Hback Hstop j. assert (forall x, x ∈ now_decodes k -> x < length ds) as Hb.
  { intros x [Hx|Hx]%elem_of_app; [by eapply split_back|by eapply split_front]. }
  split; [apply Hb|]. apply all_below; [apply now_decodes_once| |done].
  unfold now_decodes. rewrite length_app, !length_take. lia.
Qed.

(** A round of the loop. *)
Lemma now_decodes_round k d p : k < length ps -> k < length ds -> ds !! (length ds - S k) = Some d -> ps !! k = Some p ->
  d ∈ now_decodes k /\ p ∉ now_decodes k /\ p <> d /\ forall j, j ∈ now_decodes (S k) <-> j = p \/ (j <> d /\ j ∈ now_decodes k).
Proof.
  intros Hkp Hkd Hd Hp. pose proof (now_decodes_once k) as H1. pose proof (so_once _ _ _ Hs) as (Hnd & Hdp & Hnp)%NoDup_app.
  assert (d ∈ ds) as Hdin by (by eapply list_elem_of_lookup_2). assert (p ∈ ps) as Hpin by (by eapply list_elem_of_lookup_2).
  assert (take (length ds - k) ds = take (length ds - S k) ds ++ [d]) as Et.
  { replace (length ds - k) with (S (length ds - S k)) by lia. by apply take_S_r. }
  assert (take (S k) ps = take k ps ++ [p]) as Ep by by apply take_S_r.
  assert (p ∉ take k ps) as Hpk.
  { rewrite <-(take_drop k ps) in Hnp. apply NoDup_app in Hnp as (_ & H & _). intros Hin. apply (H p Hin). rewrite (drop_S _ _ _ Hp). by left. }
  assert (p <> d) as Hne by (intros ->; by eapply Hdp).
  unfold now_decodes in *. rewrite Et in *. rewrite Ep. split_and!.
  - rewrite !elem_of_app, list_elem_of_singleton. tauto.
  - rewrite !elem_of_app, list_elem_of_singleton. intros [[Hin|?]|?]; [|done..].
    apply elem_of_take in Hin as (? & Hin & _). apply (Hdp p); [by eapply list_elem_of_lookup_2|done].
  - done.
  - rewrite <-app_assoc in H1. apply NoDup_app in H1 as (_ & H2 & H3). cbn in H3. apply NoDup_cons in H3 as [H3 _].
    intros j. rewrite !elem_of_app, !list_elem_of_singleton. specialize (H2 j). rewrite elem_of_app, list_elem_of_singleton in H2.
    destruct (decide (j = d)) as [->|]; [|tauto]. split; [|intros [?|[? _]]; done]. intros [Hin|[Hin|?]]; [exfalso; apply H2; [done|by left]|done|by left].
Qed.
End split.

(** * The two kinds of requests *)

(** At index [j], counted from [i], a request with a number of tokens that satisfies [P]. *)
Definition kind_at (P : nat -> Prop) (scheduled : gmap string nat) (ids : list (option string)) (i j : nat) : Prop :=
  i <= j /\ exists id n, ids !! (j - i) = Some (Some id) /\ scheduled !! id = Some n /\ P n.

Definition is_decode (threshold : nat) (scheduled : gmap string nat) (b : InputBatch) (j : nat) : Prop :=
  exists id n, _req_ids b !! j = Some (Some id) /\ scheduled !! id = Some n /\ n <= threshold.

Lemma kind_cons P scheduled id n ids i j : scheduled !! id = Some n ->
  kind_at P scheduled (Some id :: ids) i j <-> (j = i /\ P n) \/ kind_at P scheduled ids (S i) j.
Proof.
  intros Hn. unfold kind_at. split.
  - intros (Hij & id' & n' & Hl & Hn' & HP). destruct (decide (j = i)) as [->|Hne].
    + rewrite Nat.sub_diag in Hl. injection Hl as <-. left. by simplify_eq.
    + right. split; [lia|]. exists id', n'. replace (j - i) with (S (j - S i)) in Hl by lia. done.
  - intros [[-> HP]|(Hij & id' & n' & Hl & Hn' & HP)].
    + split; [done|]. exists id, n. by rewrite Nat.sub_diag.
    + split; [lia|]. exists id', n'. by replace (j - i) with (S (j - S i)) by lia.
Qed.

Lemma strong_cons i (l : list nat) : StronglySorted lt l -> (forall j, j ∈ l -> i < j) -> StronglySorted lt (i :: l).
Proof. intros Hl Hi. constructor; [done|]. by apply Forall_forall. Qed.

Lemma strong_once (l : list nat) : StronglySorted lt l -> NoDup l.
Proof.
  induction 1 as [|x l Hl IH Hx]; constructor; [|done]. intros Hin. rewrite Forall_forall in Hx. specialize (Hx x Hin). lia.
Qed.

Lemma split_requests_spec threshold scheduled ids : forall i,
  (forall x, x ∈ ids -> exists id n, x = Some id /\ scheduled !! id = Some n) ->
  exists ds ps, split_requests threshold scheduled i ids = Ok (ds, ps) /\ StronglySorted lt ds /\ StronglySorted lt ps /\
    (forall j, j ∈ ds <-> kind_at (fun n => n <= threshold) scheduled ids i j) /\
    (forall j, j ∈ ps <-> kind_at (fun n => ~ n <= threshold) scheduled ids i j).
Proof.
  induction ids as [|x ids IH]; intros i Hk.
  - exists [], []. split_and!; [done|constructor..| |]; intros j; (split; [by intros ?%elem_of_nil|intros (_ & id & n & Hl & _); by rewrite lookup_nil in Hl]).
  - destruct (Hk x) as (id & n & -> & Hn); [by left|]. destruct (IH (S i)) as (ds & ps & Hs & H1 & H2 & H3 & H4); [intros y Hy; apply Hk; by right|].
    cbn. rewrite Hn, Hs. cbn. destruct (Nat.leb_spec n threshold) as [Hle|Hgt].
    + exists (i :: ds), ps. split_and!; [done| |done| |].
      * apply strong_cons; [done|]. intros j [Hj _]%H3. lia.
      * intros j. rewrite elem_of_cons, H3, (kind_cons _ _ _ _ _ _ _ Hn). tauto.
      * intros j. rewrite H4, (kind_cons _ _ _ _ _ _ _ Hn). tauto.
    + exists ds, (i :: ps). split_and!; [done|done| | |].
      * apply strong_cons; [done|]. intros j [Hj _]%H4. lia.
      * intros j. rewrite H3, (kind_cons _ _ _ _ _ _ _ Hn). split; [by right|]. intros [[_ ?]|?]; [lia|done].
      * intros j. rewrite elem_of_cons, H4, (kind_cons _ _ _ _ _ _ _ Hn). assert (~ n <= threshold) by lia. tauto.
Qed.

(** The requests of a condensed batch, all scheduled. *)
Definition all_scheduled (scheduled : gmap string nat) (b : InputBatch) : Prop :=
  forall x, x ∈ _req_ids b -> exists id n, x = Some id /\ scheduled !! id = Some n.

Lemma split_batch threshold scheduled b : all_scheduled scheduled b ->
  exists ds ps, split_requests threshold scheduled 0 (_req_ids b) = Ok (ds, ps) /\ split_of (length (_req_ids b)) ds ps /\
    forall j, j ∈ ds <-> is_decode threshold scheduled b j.
Proof.
  intros Hk. destruct (split_requests_spec threshold scheduled (_req_ids b) 0 Hk) as (ds & ps & Hs & H1 & H2 & H3 & H4).
  exists ds, ps. split_and!; [done| |].
  - split; [|..|done|done].
    + apply NoDup_app. split_and!; [by apply strong_once| |by apply strong_once]. intros j Hj Hj'. apply H3 in Hj as (_ & id & n & Hl & Hn & Hle).
      apply H4 in Hj' as (_ & id' & n' & Hl' & Hn' & Hle'). by simplify_eq.
    + intros j. rewrite elem_of_app, H3, H4. unfold kind_at. rewrite Nat.sub_0_r. split.
      * intros [(_ & id & n & Hl & _)|(_ & id & n & Hl & _)]; by eapply lookup_lt_Some.
      * intros Hj. apply lookup_lt_is_Some_2 in Hj as [x Hx]. destruct (Hk x) as (id & n & -> & Hn); [by eapply list_elem_of_lookup_2|].
        destruct (decide (n <= threshold)); [left|right]; (split; [lia|]); by exists id, n.
  - intros j. rewrite H3. unfold kind_at, is_decode. rewrite Nat.sub_0_r. split; [by intros [_ ?]|intros ?; split; [lia|done]].
Qed.

(** * The loop *)

(** What holds between condensing and refreshing: nothing but the order of the requests changes. *)
Record arranged (b b' : InputBatch) : Prop := {
  ag_slid : slid b b';
  ag_condensed : condensed b';
  ag_tracks : forall (T : Type) new_state (d0 : gmap nat T) ent, tracks new_state d0 ent b -> tracks new_state d0 ent b'
}.

Lemma arranged_refl b : ib_core b -> condensed b -> arranged b b.
Proof. intros Hb Hc. split; [by apply slid_refl|done..]. Qed.

Lemma arranged_trans b1 b2 b3 : arranged b1 b2 -> arranged b2 b3 -> arranged b1 b3.
Proof. intros [] []. split; [by eapply slid_trans|done|]. intros. eauto. Qed.

Lemma condensed_at b i : condensed b -> i < length (_req_ids b) -> exists id, _req_ids b !! i = Some (Some id).
Proof. intros (_ & H & _) Hi. destruct (lookup_lt_is_Some_2 (_req_ids b) i Hi) as [[id|] Hx]; [eauto|]. by apply H in Hx. Qed.

Lemma wp_swap_arranged b i j E : ib_core b -> condensed b -> i <> j -> i < length (_req_ids b) -> j < length (_req_ids b) ->
  wp (swap_states i j) (fun _ b' => arranged b b' /\ length (_req_ids b') = length (_req_ids b) /\
    forall k, _req_ids b' !! k = if decide (k = i) then _req_ids b !! j else if decide (k = j) then _req_ids b !! i else _req_ids b !! k) E b.
Proof.
  intros Hb Hc Hne Hi Hj. destruct (condensed_at b i Hc Hi) as [x Hx], (condensed_at b j Hc Hj) as [y Hy].
  eapply wp_mono; [by apply (wp_swap_states b i j x y noexc Hb)| |by intros ? ? []]. intros _ b' (ri & rj & Hri & Hrj & Hs). split_and!.
  - split; [by eapply swap_slid|by eapply swap_condensed|]. intros T new_state d0 ent Ht. by eapply swap_tracks.
  - by rewrite (sw_roster _ _ _ _ _ _ _ _ Hs), !length_insert.
  - intros k. rewrite (sw_roster _ _ _ _ _ _ _ _ Hs), Hx, Hy. repeat case_decide; subst.
    + by rewrite list_lookup_insert_ne, list_lookup_insert_eq by done.
    + by rewrite list_lookup_insert_eq by (by rewrite length_insert).
    + by rewrite !list_lookup_insert_ne by done.
Qed.

Lemma is_decode_swap threshold scheduled b b' i j : i <> j -> is_decode threshold scheduled b j -> ~ is_decode threshold scheduled b i ->
  (forall k, _req_ids b' !! k = if decide (k = i) then _req_ids b !! j else if decide (k = j) then _req_ids b !! i else _req_ids b !! k) ->
  forall k, is_decode threshold scheduled b' k <-> k = i \/ (k <> j /\ is_decode threshold scheduled b k).
Proof.
  intros Hne Hj Hi Hids k. unfold is_decode in *. rewrite Hids. destruct (decide (k = i)) as [->|Hki]; [split; [by left|done]|].
  destruct (decide (k = j)) as [->|Hkj]; [split; [done|intros [?|[? _]]; done]|]. split; [by right|intros [?|[_ ?]]; done].
Qed.

Lemma wp_reorder_loop threshold scheduled n ds ps b0 m : forall k b modified, split_of n ds ps -> k + m = Nat.min (length ds) (length ps) ->
  arranged b0 b -> length (_req_ids b) = n -> (forall j, is_decode threshold scheduled b j <-> j ∈ now_decodes ds ps k) ->
  (forall d, d ∈ drop (length ds - k) ds -> length ds <= d) ->
  wp (reorder_loop ds ps (seq (S k) m) modified) (fun _ b' => arranged b0 b' /\ length (_req_ids b') = n /\
    forall j, is_decode threshold scheduled b' j <-> j < length ds) noexc b.
Proof.
  induction m as [|m IH]; intros k b modified Hs Hm Ha Hn Hd Hback; cbn [seq reorder_loop].
  { wp_step. split_and!; [done..|]. intros j. rewrite Hd. eapply reorder_done; [done|lia|lia|done|left; lia]. }
  destruct (lookup_lt_is_Some_2 ds (length ds - S k)) as [d Hdk]; [lia|]. destruct (lookup_lt_is_Some_2 ps k) as [p Hpk]; [lia|].
  wp_step. eapply wp_lift; [by apply at_index_ok|]. destruct (Nat.ltb_spec d (length ds)) as [Hlt|Hge].
  { wp_step. split_and!; [done..|]. intros j. rewrite Hd. eapply reorder_done; [done|lia|lia|done|right; split; [lia|eauto]]. }
  destruct (now_decodes_round n ds ps Hs k d p) as (Hdin & Hpn & Hne & Hround); [lia|lia|done..|].
  wp_step. replace (S k - 1) with k by lia. eapply wp_lift; [by apply at_index_ok|]. wp_step.
  assert (p < length (_req_ids b) /\ d < length (_req_ids b)) as [Hp' Hd'].
  { rewrite Hn. split; apply (so_all _ _ _ Hs), elem_of_app; [right|left]; by eapply list_elem_of_lookup_2. }
  eapply wp_mono; [apply (wp_swap_arranged b p d noexc); [apply Ha|apply Ha|done..]| |by intros ? ? []].
  intros _ b1 (Ha1 & Hl1 & Hids). apply (IH (S k) b1 true Hs); [lia|by eapply arranged_trans|by rewrite Hl1| |].
  - intros j. rewrite (is_decode_swap _ _ b b1 p d Hne), Hround, Hd; [done| |by rewrite Hd|done]. by apply Hd.
  - intros x. rewrite (drop_S _ _ _ Hdk). replace (S (length ds - S k)) with (length ds - k) by lia.
    intros [->|Hx]%elem_of_cons; [done|by apply Hback].
Qed.

(** The decodes come first. *)
Definition decodes_first (threshold : nat) (scheduled : gmap string nat) (b : InputBatch) : Prop :=
  exists num_decodes, num_decodes <= length (_req_ids b) /\ forall j, is_decode threshold scheduled b j <-> j < num_decodes.

Lemma wp_reorder threshold scheduled b E : ib_core b -> condensed b -> all_scheduled scheduled b ->
  wp (reorder_batch_to_split_decodes_and_prefills scheduled threshold) (fun _ b' => arranged b b' /\
    length (_req_ids b') = length (_req_ids b) /\ decodes_first threshold scheduled b') E b.
Proof.
  intros Hb Hc Hk. destruct (split_batch threshold scheduled b Hk) as (ds & ps & Hs & Hsp & Hds). unfold reorder_batch_to_split_decodes_and_prefills.
  do 3 wp_step. eapply wp_lift; [exact Hs|].
  eapply wp_mono; [apply (wp_reorder_loop threshold scheduled (length (_req_ids b)) ds ps b _ 0 b false Hsp); [done|by apply arranged_refl|done| |]| |by intros ? ? []].
  - intros j. unfold now_decodes. rewrite take_0, app_nil_r, Nat.sub_0_r, firstn_all. by rewrite Hds.
  - intros d. rewrite Nat.sub_0_r, drop_all. by intros ?%elem_of_nil.
  - intros _ b' (Ha & Hl & Hd). split_and!; [done..|]. exists (length ds). split; [|done]. rewrite Hl, <-(split_length _ _ _ Hsp). lia.
Qed.
