(* ===== verification/ModelRunnerFacts.v ===== *)
(** The model runner mirrors the scheduler: after [_update_states] the persistent batch holds exactly the scheduled
    requests, each with the tokens, blocks and parameters of its cached state. *)
From stdpp Require Import base gmap sets list strings sorting.
From Stdlib Require Import ZArith QArith Lia.
From S2P Require Import Prelude NumpyArrays Request BlockTable InputBatch InputBatchFacts BatchSteps ModelRunner BatchReorder.
Open Scope nat_scope.

(** * Rewriting the cells of a request *)

Definition rows_appended (ids : list (list Z)) (i : nat) (ts ts' : list BlockTable) : Prop :=
  length ts' = length ts /\ forall k t t' l, ts !! k = Some t -> ts' !! k = Some t' -> ids !! k = Some l ->
    bt_ok t' /\ same_table t t' /\ exists l0, bt_rows t !! i = Some l0 /\ bt_rows t' = <[i := l0 ++ l]> (bt_rows t).

(** The rows have room for the ids. *)
Definition append_fits (ids : list (list Z)) (i : nat) (ts : list BlockTable) : Prop :=
  Forall2 (fun l t => forall l0, bt_rows t !! i = Some l0 -> length l0 + length l <= max_num_blocks_per_req t) ids ts.

Lemma wp_mg_append_row ids i n ts E : tables_ok n ts -> i < n -> append_fits ids i ts ->
  wp (mg_append_row ids i) (fun _ ts' => rows_appended ids i ts ts') E ts.
Proof.
  intros Hts Hi Hf. unfold mg_append_row.
  eapply wp_mono; [apply (wp_for_tables _ (fun k t t' => forall l, ids !! k = Some l -> bt_ok t' /\ same_table t t' /\
    exists l0, bt_rows t !! i = Some l0 /\ bt_rows t' = <[i := l0 ++ l]> (bt_rows t)))| |done].
  - intros k t Ht. destruct (Forall2_lookup_r _ _ _ _ _ Hf Ht) as (l & Hl & Hfit). destruct (Forall_lookup_1 _ _ _ _ Hts Ht) as [Hok Hn].
    destruct (bt_row t i Hok ltac:(lia)) as (m & row & Hrow). pose proof (row_is_rows _ _ _ _ Hrow) as Hr0. specialize (Hfit _ Hr0).
    rewrite (row_is_length _ _ _ _ Hrow) in Hfit. wp_step. unfold group_ids. eapply wp_lift; [by apply at_index_ok|].
    eapply wp_mono; [by apply wp_append_row| |done]. intros ? t' (H1 & H2 & H3) l' Hl'. simplify_eq. split_and!; [done|done|]. by exists (take m row).
  - intros _ ts' [Hl H]. split; [done|]. intros k t t' l Ht Ht' Hk. by apply (H k t t').
Qed.

Lemma extend_blocks_zip ids new : length new = length ids -> extend_blocks ids new = zip_with app ids new.
Proof. revert new. induction ids as [|l ids IH]; intros [|l' new] Hl; try done. cbn. f_equal. apply IH. by injection Hl. Qed.

Lemma block_rows_appended n ids i ts ts' : tables_ok n ts -> i < n -> length ids = length ts -> rows_appended ids i ts ts' ->
  tables_ok n ts' /\ same_tables ts ts' /\ block_rows ts' i = extend_blocks (block_rows ts i) ids /\
  forall j, j <> i -> block_rows ts' j = block_rows ts j.
Proof.
  intros Hts Hi Hids [Hl H].
  assert (forall k t, ts !! k = Some t -> exists l, ids !! k = Some l) as Hk by (intros k t Ht%lookup_lt_Some; apply lookup_lt_is_Some_2; lia).
  assert (forall k t t', ts !! k = Some t -> ts' !! k = Some t' -> bt_ok t' /\ same_table t t') as Hst.
  { intros k t t' Ht Ht'. destruct (Hk k t Ht) as [l Hlk]. by destruct (H k t t' l Ht Ht' Hlk) as (? & ? & _). }
  split_and!; [by eapply tables_ok_next|by apply same_tables_next|..].
  - unfold block_rows. rewrite extend_blocks_zip by (by rewrite length_fmap). apply list_eq. intros k. rewrite lookup_zip_with, !list_lookup_fmap.
    destruct (ts !! k) as [t|] eqn:Ht; cbn; [|apply lookup_ge_None in Ht; rewrite lookup_ge_None_2 by lia; done].
    destruct (lookup_lt_is_Some_2 ts' k) as [t' Ht']; [rewrite Hl; by eapply lookup_lt_Some|]. destruct (Hk k t Ht) as [l Hlk].
    destruct (H k t t' l Ht Ht' Hlk) as (_ & _ & l0 & Hl0 & Hr). rewrite Ht', Hlk. cbn. rewrite Hl0, Hr, list_lookup_insert_eq; [done|].
    by apply (bt_rows_lt n ts k).
  - intros j Hj. apply block_rows_from; [done|]. intros k t t' Ht Ht'. destruct (Hk k t Ht) as [l Hlk].
    destruct (H k t t' l Ht Ht' Hlk) as (_ & _ & l0 & _ & ->). by rewrite list_lookup_insert_ne.
Qed.

(** The batch with other cells at index [i], for the same adapter. *)
Definition touched (i : nat) (row : Row) (ts : list BlockTable) (b : InputBatch) : InputBatch :=
  set_ib_rows (<[i := row]> (ib_rows b)) (set_tables ts b).

Record touch_ok (b : InputBatch) (i : nat) (row : Row) (ts : list BlockTable) : Prop := {
  tc_tokens : length (row_token_ids row) = ib_max_model_len b;
  tc_count : row_num_tokens row <= ib_max_model_len b;
  tc_lora : forall r, ib_rows b !! i = Some r -> row_lora row = row_lora r;
  tc_tables : tables_ok (ib_max_num_reqs b) ts;
  tc_same : same_tables (ib_block_table b) ts;
  tc_others : forall j, j <> i -> block_rows ts j = block_rows (ib_block_table b) j
}.

Lemma touched_step b0 b i row ts : open_step b0 b -> touch_ok b i row ts -> open_step b0 (touched i row ts b).
Proof.
  intros Hb Ht. pose proof (os_ok _ _ Hb) as Hok. apply (open_step_next b0 b); [done| |apply Hb|done|apply Ht].
  destruct Hok as [[O1 O2 O3 O4 O5 O6 O7 O8 O9 O10 O11 O12 O13] K2 K3 K4]. split; [split| | |]; try done; cbn.
  - by rewrite length_insert.
  - intros j r [(<- & <- & _)|[_ Hr]]%list_lookup_insert_Some; [split; apply Ht|by apply (O5 j)].
  - apply Ht.
  - intros j r id [(<- & <- & Hlt)|[_ Hr]]%list_lookup_insert_Some Hid Hz; [|by apply (O11 j r id)].
    destruct (lookup_lt_is_Some_2 _ _ Hlt) as [r Hr]. rewrite (tc_lora _ _ _ _ Ht r Hr) in *. by apply (O11 i r id).
Qed.

Definition touched_cell (b : InputBatch) (i : nat) (row : Row) (ts : list BlockTable) : CellView :=
  mkCellView (take (row_num_tokens row) (row_token_ids row)) (row_num_tokens_no_spec row) (row_num_prompt_tokens row)
    (row_num_computed_tokens row) (row_lora row) (row_sampling row) (generators b !! i) (bad_words_token_ids b !! i) (block_rows ts i).

Lemma touched_map b i row ts id : ib_core b -> touch_ok b i row ts -> req_id_to_index b !! id = Some i ->
  batch_map (touched i row ts b) = <[id := (touched_cell b i row ts, id_view b id)]> (batch_map b).
Proof.
  intros Hb Ht Hid. apply map_eq. intros id'. rewrite batch_map_lookup. unfold req_view. cbn.
  assert (i < length (ib_rows b)) as Hi.
  { apply (oc_index b Hb) in Hid. rewrite (oc_rows b Hb). by eapply core_lt. }
  destruct (decide (id' = id)) as [->|Hne].
  - rewrite lookup_insert_eq, Hid. cbn. unfold cell_view. cbn. by rewrite list_lookup_insert_eq.
  - rewrite lookup_insert_ne, batch_map_lookup by done. unfold req_view. destruct (req_id_to_index b !! id') as [j|] eqn:Hj; [|done]. cbn.
    assert (j <> i) as Hji by (intros ->; apply (oc_index b Hb) in Hid, Hj; congruence).
    unfold cell_view, touched. cbn [ib_rows ib_block_table generators bad_words_token_ids set_ib_rows set_tables]. rewrite list_lookup_insert_ne, (tc_others _ _ _ _ Ht) by done. done.
Qed.

Lemma touched_tracks {T} new_state (d0 : gmap nat T) ent i row ts b : tracks new_state d0 ent b -> tracks new_state d0 ent (touched i row ts b).
Proof. done. Qed.

(** * Requests and their views *)

(** A view with draft tokens behind the tokens. *)
Definition draft_view (drafts : list Z) (v : ReqView) : ReqView :=
  (mkCellView (cv_tokens v.1 ++ drafts) (cv_no_spec v.1) (cv_prompt v.1) (cv_computed v.1) (cv_lora v.1) (cv_sampling v.1)
     (cv_generator v.1) (cv_bad_words v.1) (cv_blocks v.1), v.2).

Lemma draft_view_nil v : draft_view [] v = v.
Proof. destruct v as [[] ?]. unfold draft_view. cbn. by rewrite app_nil_r. Qed.

Lemma new_view_limits b b' r p : same_limits b b' -> new_view b' r p = new_view b r p.
Proof. intros (_ & _ & L3 & L4 & _). unfold new_view, new_ids. by rewrite L3, L4. Qed.

Definition blocks_fit (ids : list (list Z)) (b : InputBatch) : Prop :=
  Forall2 (fun l t => length l <= max_num_blocks_per_req t) ids (ib_block_table b).

(** The row that shows request [r] with draft tokens. *)
Lemma drafted_row b id i r p drafts : ib_core b -> req_id_to_index b !! id = Some i -> batch_map b !! id = Some (draft_view drafts (new_view b r p)) ->
  exists row, ib_rows b !! i = Some row /\ row_num_tokens row = cs_num_tokens r + length drafts /\ row_num_tokens_no_spec row = cs_num_tokens r /\
    take (cs_num_tokens r) (row_token_ids row) = cs_prompt_token_ids r ++ cs_output_token_ids r /\
    length (row_token_ids row) = ib_max_model_len b /\ cs_num_tokens r + length drafts <= ib_max_model_len b /\
    touched_cell b i row (ib_block_table b) = (draft_view drafts (new_view b r p)).1 /\ id_view b id = new_ids b p.
Proof.
  intros Hb Hid Hv. rewrite batch_map_lookup in Hv. unfold req_view in Hv. rewrite Hid in Hv. cbn in Hv.
  apply bind_Some in Hv as (c & Hc & Heq). unfold cell_view in Hc. apply fmap_Some in Hc as (row & Hrow & ->).
  apply (inj Some) in Heq. pose proof (f_equal snd Heq) as Hids. apply (f_equal fst) in Heq. destruct (oc_row b Hb i row Hrow) as [Hlen Hle].
  exists row. cbn [fst snd draft_view new_view] in Heq, Hids. pose proof Heq as Hcell.
  injection Heq as Ht Hns _ _ _ _ _ _ _. assert (row_num_tokens row = cs_num_tokens r + length drafts) as Hn.
  { apply (f_equal length) in Ht. cbn in Ht. rewrite length_take, !length_app in Ht. unfold cs_num_tokens. lia. }
  split_and!; [done|done|done| |done|lia|exact Hcell|done].
  apply (f_equal (take (cs_num_tokens r))) in Ht. rewrite take_take, Hn, Nat.min_l in Ht by lia. rewrite Ht. apply take_app_length'.
  cbn. rewrite length_app. done.
Qed.

Lemma view_row b id i r p : ib_core b -> req_id_to_index b !! id = Some i -> batch_map b !! id = Some (new_view b r p) ->
  exists row, ib_rows b !! i = Some row /\ row_num_tokens row = cs_num_tokens r /\ row_num_tokens_no_spec row = cs_num_tokens r /\
    take (cs_num_tokens r) (row_token_ids row) = cs_prompt_token_ids r ++ cs_output_token_ids r /\
    length (row_token_ids row) = ib_max_model_len b /\ cs_num_tokens r <= ib_max_model_len b /\
    touched_cell b i row (ib_block_table b) = new_cell (ib_vocab_size b) r p /\ id_view b id = new_ids b p.
Proof.
  intros Hb Hid Hv. rewrite <-(draft_view_nil (new_view b r p)) in Hv. destruct (drafted_row b id i r p [] Hb Hid Hv) as (row & H1 & H2 & H3 & H4 & H5 & H6 & H7 & H8).
  rewrite draft_view_nil in H7. exists row. rewrite Nat.add_0_r in H2, H6. done.
Qed.

Lemma append_fits_of b id i r p new : ib_core b -> req_id_to_index b !! id = Some i -> batch_map b !! id = Some (new_view b r p) ->
  length new = length (ib_block_table b) -> blocks_fit (extend_blocks (cs_block_ids r) new) b -> append_fits new i (ib_block_table b).
Proof.
  intros Hb Hid Hv Hlen Hfit. destruct (view_row b id i r p Hb Hid Hv) as (row & Hrow & _ & _ & _ & _ & _ & Hcell & _).
  assert (block_rows (ib_block_table b) i = cs_block_ids r) as Hbl by exact (f_equal cv_blocks Hcell).
  unfold blocks_fit in Hfit. rewrite <-Hbl, extend_blocks_zip in Hfit by (unfold block_rows; by rewrite length_fmap).
  apply Forall2_same_length_lookup. split; [done|]. intros k l t Hl Ht l0 Hl0.
  rewrite Forall2_same_length_lookup in Hfit. destruct Hfit as [_ Hfit]. rewrite <-length_app. apply (Hfit k); [|done].
  rewrite lookup_zip_with. unfold block_rows. rewrite list_lookup_fmap, Ht, Hl. cbn. by rewrite Hl0.
Qed.

(** The row with draft tokens. *)
Definition spec_row (row : Row) (spec : list Z) : Row :=
  match spec with
  | [] => row
  | _ => with_counts (row_num_tokens row + length spec) (row_num_tokens_no_spec row) (row_num_prompt_tokens row) (row_num_computed_tokens row)
           (with_tokens (take (row_num_tokens_no_spec row) (row_token_ids row) ++ spec ++ drop (row_num_tokens_no_spec row + length spec) (row_token_ids row)) row)
  end.

Lemma spec_row_tokens row spec n : row_num_tokens row = n -> row_num_tokens_no_spec row = n -> n <= length (row_token_ids row) ->
  take (row_num_tokens (spec_row row spec)) (row_token_ids (spec_row row spec)) = take n (row_token_ids row) ++ spec.
Proof.
  intros <- Hns Hn. unfold spec_row. destruct spec as [|t spec]; [by rewrite app_nil_r|]. generalize (t :: spec) as l. intros l. cbn. rewrite Hns, app_assoc.
  apply take_app_length'. rewrite length_app, length_take. lia.
Qed.

Lemma spec_row_cells row spec : row_num_tokens_no_spec (spec_row row spec) = row_num_tokens_no_spec row /\
  row_num_prompt_tokens (spec_row row spec) = row_num_prompt_tokens row /\ row_num_computed_tokens (spec_row row spec) = row_num_computed_tokens row /\
  row_lora (spec_row row spec) = row_lora row /\ row_sampling (spec_row row spec) = row_sampling row.
Proof. by destruct spec. Qed.

Lemma wp_write_spec_tokens b i row spec E : ib_rows b !! i = Some row -> row_num_tokens_no_spec row + length spec <= length (row_token_ids row) ->
  wp (write_spec_tokens i spec) (fun _ b' => b' = set_ib_rows (<[i := spec_row row spec]> (ib_rows b)) b) E b.
Proof.
  intros Hrow Hfit. pose proof (lookup_lt_Some _ _ _ Hrow) as Hi. unfold write_spec_tokens, spec_row. destruct spec as [|t spec].
  { wp_step. rewrite list_insert_id by done. by destruct b. }
  set (l := t :: spec) in *. wp_step. eapply wp_read_cells; [exact Hrow|]. cbv zeta. wp_step. unfold write_tokens.
  wp_step. eapply wp_read_cells; [exact Hrow|]. wp_step. eapply wp_lift; [by apply assign_range_exact|].
  apply wp_write_cells; [done|]. eapply wp_update_cells; [by apply list_lookup_insert_eq|]. cbn [ib_rows set_ib_rows].
  by rewrite list_insert_insert_eq.
Qed.

(** The view after an update. *)
Definition moved_on (r : CachedRequestState) (q : CachedRequest) : CachedRequestState :=
  with_progress r (cq_num_computed_tokens q) (cs_output_token_ids r)
    (match cq_new_block_ids q with Some new => extend_blocks (cs_block_ids r) new | None => cs_block_ids r end).

Lemma wp_update_persistent b id i r p q spec E : ib_core b -> req_id_to_index b !! id = Some i -> batch_map b !! id = Some (new_view b r p) ->
  (forall new, cq_new_block_ids q = Some new -> length new = length (ib_block_table b) /\ blocks_fit (extend_blocks (cs_block_ids r) new) b) ->
  cs_num_tokens r + length spec <= ib_max_model_len b ->
  wp (update_persistent true i q spec) (fun _ b' => exists row ts, b' = touched i row ts b /\ touch_ok b i row ts /\
    (touched_cell b i row ts, id_view b id) = draft_view spec (new_view b (moved_on r q) p)) E b.
Proof.
  intros Hb Hid Hv Hnew Hspec. destruct (view_row b id i r p Hb Hid Hv) as (row & Hrow & Hn & Hns & Htok & Hlen & Hle & Hcell & Hidv).
  pose proof (lookup_lt_Some _ _ _ Hrow) as Hi. assert (i < ib_max_num_reqs b) as Hlt by (by rewrite <-(oc_rows b Hb)).
  set (row1 := with_counts (row_num_tokens row) (row_num_tokens_no_spec row) (row_num_prompt_tokens row) (cq_num_computed_tokens q) row).
  assert (forall ts, tables_ok (ib_max_num_reqs b) ts -> same_tables (ib_block_table b) ts -> (forall j, j <> i -> block_rows ts j = block_rows (ib_block_table b) j) ->
    block_rows ts i = cs_block_ids (moved_on r q) ->
    wp (write_spec_tokens i spec) (fun _ b' => exists row ts, b' = touched i row ts b /\ touch_ok b i row ts /\
      (touched_cell b i row ts, id_view b id) = draft_view spec (new_view b (moved_on r q) p)) E (set_tables ts (set_ib_rows (<[i := row1]> (ib_rows b)) b))) as Hrest.
  { intros ts Hok Hsame Ho Hbl. eapply wp_mono; [apply (wp_write_spec_tokens _ i row1); [by apply list_lookup_insert_eq|cbn; lia]| |done].
    intros _ b' ->. exists (spec_row row1 spec), ts. split_and!.
    - unfold touched. cbn. by rewrite list_insert_insert_eq.
    - unfold spec_row. destruct spec as [|t spec]; cbn in Hspec; split; cbn; try done; try lia; try (intros r0 Hr0; rewrite Hrow in Hr0; by injection Hr0 as <-).
      rewrite length_app, length_take, length_cons, length_app, length_drop. lia.
    - rewrite Hidv. unfold draft_view, new_view. cbn. f_equal. unfold touched_cell in *. injection Hcell as C1 C2 C3 C4 C5 C6 C7 C8 C9.
      destruct (spec_row_cells row1 spec) as (-> & -> & -> & -> & ->). rewrite (spec_row_tokens row1 spec (cs_num_tokens r)) by (cbn; lia).
      cbn. by rewrite Htok, Hbl, C3, C5, C6, C7, C8, Hns. }
  unfold update_persistent. wp_step. eapply wp_update_cells; [exact Hrow|]. fold row1. wp_step.
  destruct (cq_new_block_ids q) as [new|] eqn:Hq.
  - destruct (Hnew new eq_refl) as [Hl Hfit]. pose proof (append_fits_of b id i r p new Hb Hid Hv Hl Hfit) as Haf.
    apply wp_on_tables. eapply wp_mono; [apply (wp_mg_append_row new i _ _ noexc (oc_tables b Hb) Hlt Haf)| |by intros ? ? []].
    intros ? ts Hts. destruct (block_rows_appended _ new i _ ts (oc_tables b Hb) Hlt Hl Hts) as (T1 & T2 & T3 & T4).
    wp_step. wp_step. apply Hrest; [done..|]. rewrite T3. unfold moved_on. rewrite Hq. cbn. f_equal. exact (f_equal cv_blocks Hcell).
  - wp_step. wp_step. wp_step. assert (set_ib_rows (<[i:=row1]> (ib_rows b)) b = set_tables (ib_block_table b) (set_ib_rows (<[i:=row1]> (ib_rows b)) b)) as -> by by destruct b.
    apply Hrest; [apply Hb|done|done|]. unfold moved_on. rewrite Hq. exact (f_equal cv_blocks Hcell).
Qed.

(** * The phases of [_update_states] *)

(** The dictionaries of logits processors follow. *)
Definition keeps (b b' : InputBatch) : Prop :=
  forall (T : Type) new_state (d0 : gmap nat T) ent, tracks new_state d0 ent b -> tracks new_state d0 ent b'.

#[global] Instance keeps_preorder : PreOrder keeps.
Proof. split; [by intros b T|]. intros b1 b2 b3 H1 H2 T ns d0 ent Ht. by apply H2, H1. Qed.

Lemma wp_on_batch {A} (m : M InputBatch A) Q E w :
  wp m (fun a b => Q a (set_input_batch b w)) (fun e b => E e (set_input_batch b w)) (input_batch w) -> wp (on_batch m) Q E w.
Proof. apply wp_zoom. Qed.

(** A cached state that the batch [b] has room for. *)
Record request_ok (b : InputBatch) (id : string) (r : CachedRequestState) : Prop := {
  rq_id : cs_req_id r = id;
  rq_params : exists p, cs_sampling_params r = Some p /\ allowed_ok (ib_vocab_size b) p;
  rq_tokens : cs_num_tokens r <= ib_max_model_len b;
  rq_blocks : blocks_fit (cs_block_ids r) b
}.

Definition requests_ok (b : InputBatch) (rs : gmap string CachedRequestState) : Prop := forall id r, rs !! id = Some r -> request_ok b id r.

(** The views of the batch are those of the cached states, with draft tokens behind the tokens. *)
Definition mirrors (b : InputBatch) (rs : gmap string CachedRequestState) (drafts : gmap string (list Z)) (m : gmap string ReqView) : Prop :=
  forall id v, m !! id = Some v -> exists r p, rs !! id = Some r /\ cs_sampling_params r = Some p /\
    v = draft_view (default [] (drafts !! id)) (new_view b r p).

(** During a step that started with the batch [b0]. *)
Record phase (b0 : InputBatch) (drafts : gmap string (list Z)) (w : GPUModelRunner) : Prop := {
  ph_step : open_step b0 (input_batch w);
  ph_requests : requests_ok b0 (rn_requests w);
  ph_mirrors : mirrors b0 (rn_requests w) drafts (batch_map (input_batch w))
}.

Lemma phase_member b0 drafts w id : phase b0 drafts w -> id ∈ dom (batch_map (input_batch w)) -> exists i, req_id_to_index (input_batch w) !! id = Some i.
Proof. intros Hp Hid. rewrite batch_map_dom in Hid by apply Hp. by apply elem_of_dom in Hid. Qed.

(** ** Removals *)

Lemma wp_drop_all b0 l : forall w, open_step b0 (input_batch w) -> _is_removed_sorted (batch_update_builder (input_batch w)) = false ->
  wp (forM l drop_request) (fun _ w' => rn_requests w' = rn_requests w /\ open_step b0 (input_batch w') /\
    _is_removed_sorted (batch_update_builder (input_batch w')) = false /\ keeps (input_batch w) (input_batch w') /\
    forall id, batch_map (input_batch w') !! id = if decide (id ∈ l) then None else batch_map (input_batch w) !! id) noexc w.
Proof.
  induction l as [|x l IH]; intros w Hw Hs; cbn [forM].
  { wp_step. split_and!; [done..|]. intros id. by rewrite decide_False by apply not_elem_of_nil. }
  wp_step. unfold drop_request. wp_step. apply wp_on_batch. eapply wp_mono; [by apply (wp_remove_step b0 _ x noexc)| |by intros ? ? []].
  intros ? b1 (H1 & H2 & H3 & H4). wp_step. eapply wp_mono; [by apply IH| |done].
  intros _ w' (G1 & G2 & G3 & G4 & G5). split_and!; [done..|by etransitivity|]. intros id. rewrite G5. cbn. rewrite H3.
  destruct (decide (id = x)) as [->|Hne].
  - rewrite lookup_delete_eq, (decide_True (P := x ∈ x :: l)) by by left. by case_decide.
  - rewrite lookup_delete_ne by done. rewrite (decide_ext (id ∈ x :: l) (id ∈ l)); [done|]. rewrite elem_of_cons. tauto.
Qed.

Section update.
Context (order : gset string -> list string) (Horder : forall s x, x ∈ order s <-> x ∈ s).

(** What is left of the batch. *)
Definition kept_ids (s : StepInput) (w : GPUModelRunner) : gset string :=
  (dom (batch_map (input_batch w)) ∖ si_finished_req_ids s) ∩ dom (num_scheduled_tokens s).

Lemma kept_elem s w id : id ∈ kept_ids s w <-> is_Some (batch_map (input_batch w) !! id) /\ id ∉ si_finished_req_ids s /\ id ∈ dom (num_scheduled_tokens s).
Proof. unfold kept_ids. rewrite elem_of_intersection, elem_of_difference, <-elem_of_dom. tauto. Qed.

Lemma wp_forget l : forall w E, wp (forM l (fun id => modify (fun w => set_rn_requests (delete id (rn_requests w)) w)))
  (fun _ w' => input_batch w' = input_batch w /\ forall id, rn_requests w' !! id = if decide (id ∈ l) then None else rn_requests w !! id) E w.
Proof.
  induction l as [|x l IH]; intros w E; cbn [forM].
  { wp_step. split; [done|]. intros id. by rewrite decide_False by apply not_elem_of_nil. }
  do 2 wp_step. eapply wp_mono; [apply IH| |done]. intros _ w' [H1 H2]. split; [done|]. intros id. rewrite H2. cbn.
  destruct (decide (id = x)) as [->|Hne].
  - rewrite lookup_delete_eq, (decide_True (P := x ∈ x :: l)) by by left. by case_decide.
  - rewrite lookup_delete_ne by done. rewrite (decide_ext (id ∈ x :: l) (id ∈ l)); [done|]. rewrite elem_of_cons. tauto.
Qed.

Lemma wp_encoder_free l : forall w E, wp (forM l (fun h => modify (fun w => set_encoder_cache (encoder_cache w ∖ {[h]}) w)))
  (fun _ w' => input_batch w' = input_batch w /\ rn_requests w' = rn_requests w) E w.
Proof. induction l as [|x l IH]; intros w E; cbn [forM]; [by wp_step|]. do 2 wp_step. eapply wp_mono; [apply IH|done|done]. Qed.

Lemma wp_removals s w : phase (input_batch w) ∅ w -> _is_removed_sorted (batch_update_builder (input_batch w)) = false ->
  wp (remove_finished order s ;; remove_unscheduled order s) (fun _ w' => phase (input_batch w) ∅ w' /\ keeps (input_batch w) (input_batch w') /\
    dom (batch_map (input_batch w')) = kept_ids s w /\
    forall id, rn_requests w' !! id = if decide (id ∈ si_finished_req_ids s) then None else rn_requests w !! id) noexc w.
Proof.
  intros Hp Hs. unfold remove_finished. do 2 wp_step. eapply wp_mono; [apply wp_forget| |done]. intros ? w1 [Hb1 Hr1].
  wp_step. eapply wp_mono; [apply (wp_drop_all (input_batch w)); [rewrite Hb1; apply Hp|by rewrite Hb1]| |done].
  intros ? w2 (Hr2 & Ho2 & Hs2 & Hk2 & Hm2). eapply wp_mono; [apply wp_encoder_free| |done]. intros ? w3 [Hb3 Hr3].
  unfold remove_unscheduled. do 2 wp_step. eapply wp_mono; [apply (wp_drop_all (input_batch w)); by rewrite Hb3| |done].
  intros _ w4 (Hr4 & Ho4 & Hs4 & Hk4 & Hm4). rewrite Hb3 in Hk4, Hm4. rewrite Hb1 in Hk2, Hm2.
  assert (forall id, rn_requests w4 !! id = if decide (id ∈ si_finished_req_ids s) then None else rn_requests w !! id) as Hreq.
  { intros id. rewrite Hr4, Hr3, Hr2, Hr1. apply decide_ext, Horder. }
  assert (forall id, batch_map (input_batch w4) !! id = if decide (id ∈ kept_ids s w) then batch_map (input_batch w) !! id else None) as Hmap.
  { intros id. rewrite Hm4. rewrite Hm2, (decide_ext _ _ None (batch_map (input_batch w) !! id) (Horder (si_finished_req_ids s) id)).
    assert (id ∈ order (dom (req_id_to_index (input_batch w3)) ∖ dom (num_scheduled_tokens s)) <->
      is_Some (if decide (id ∈ si_finished_req_ids s) then None else batch_map (input_batch w) !! id) /\ id ∉ dom (num_scheduled_tokens s)) as Hu.
    { rewrite Horder, elem_of_difference, Hb3, <-(batch_map_dom (input_batch w2)), elem_of_dom, Hm2 by apply Ho2.
      by rewrite (decide_ext _ _ None (batch_map (input_batch w) !! id) (Horder (si_finished_req_ids s) id)). }
    rewrite Hb3 in Hu.
    pose proof (kept_elem s w id) as Hk. destruct (decide (id ∈ si_finished_req_ids s)).
    - rewrite (decide_False (P := id ∈ kept_ids s w)) by tauto. by case_decide.
    - destruct (batch_map (input_batch w) !! id) as [v|]; [|by repeat case_decide].
      destruct (decide (id ∈ dom (num_scheduled_tokens s))).
      + rewrite decide_False, decide_True; [done|apply Hk; eauto|by intros [_ ?]%Hu].
      + rewrite decide_True, decide_False; [done|by intros (_ & _ & ?)%Hk|apply Hu; eauto]. }
  split_and!; [|by etransitivity| |done].
  - split; [done| |].
    + intros id r. rewrite Hreq. case_decide; [done|]. apply Hp.
    + intros id v. rewrite Hmap. case_decide as Hid; [|done]. intros Hv. apply kept_elem in Hid as (_ & Hid & _). destruct (ph_mirrors _ _ _ Hp id v Hv) as (r & p & Hr & Hrest).
      exists r, p. by rewrite Hreq, decide_False.
  - apply set_eq. intros id. rewrite elem_of_dom, Hmap. case_decide as Hid; [|split; [by intros [? ?]|done]].
    split; [done|]. intros _. by apply kept_elem in Hid as [? _].
Qed.
End update.

(** ** New requests *)

Lemma wp_rn_request w id r (Q : CachedRequestState -> GPUModelRunner -> Prop) E : rn_requests w !! id = Some r -> Q r w -> wp (rn_request id) Q E w.
Proof. intros Hr HQ. unfold rn_request. do 2 wp_step. rewrite Hr. by wp_step. Qed.

(** A cached state that is not in the batch changes. *)
Lemma phase_store b0 drafts w id r : phase b0 drafts w -> request_ok b0 id r -> id ∉ dom (batch_map (input_batch w)) ->
  phase b0 drafts (set_rn_requests (<[id := r]> (rn_requests w)) w).
Proof.
  intros [H1 H2 H3] Hr Hid. split; [done| |].
  - intros id' r'. cbn. intros [[<- <-]|[_ Hr']]%lookup_insert_Some; [done|by apply H2].
  - intros id' v Hv. destruct (H3 id' v Hv) as (r' & p & Hr' & Hrest). exists r', p. split; [|done]. cbn. rewrite lookup_insert_ne; [done|].
    intros <-. apply Hid, elem_of_dom. eauto.
Qed.

Lemma wp_add_new b0 l : forall w, phase b0 ∅ w -> NoDup (nr_req_id <$> l) ->
  (forall q, q ∈ l -> request_ok b0 (nr_req_id q) (new_req_state q) /\ nr_req_id q ∉ dom (batch_map (input_batch w))) ->
  wp (forM l add_new_request) (fun _ w' => phase b0 ∅ w' /\ input_batch w' = input_batch w /\
    (forall id, id ∉ nr_req_id <$> l -> rn_requests w' !! id = rn_requests w !! id) /\
    forall q, q ∈ l -> rn_requests w' !! nr_req_id q = Some (new_req_state q)) noexc w.
Proof.
  induction l as [|q l IH]; intros w Hp Hnd Hl; cbn [forM].
  { wp_step. split_and!; [done..|]. by intros q ?%elem_of_nil. }
  cbn in Hnd. apply NoDup_cons in Hnd as [Hq Hnd]. destruct (Hl q) as [Hok Hout]; [by left|].
  wp_step. unfold add_new_request. do 3 wp_step. apply wp_assertM.
  { by rewrite (oc_pooling _ (ok_core _ (os_ok _ _ (ph_step _ _ _ Hp)))). }
  unfold store_request. wp_step. eapply wp_mono; [apply (IH (set_rn_requests (<[nr_req_id q := new_req_state q]> (rn_requests w)) w)); [by apply phase_store|done|]| |done].
  { intros q' Hq'. apply Hl. by right. }
  intros _ w' (H1 & H2 & H3 & H4). split_and!; [done|done| |].
  - intros id Hid. cbn in Hid. apply not_elem_of_cons in Hid as [Hne Hid]. rewrite H3 by done. cbn. by rewrite lookup_insert_ne.
  - intros q' [->|Hq']%elem_of_cons; [|by apply H4]. rewrite H3 by done. cbn. by rewrite lookup_insert_eq.
Qed.

(** ** Running and resumed requests *)

(** The cached state after an update, on the last stage of the pipeline. *)
Definition next_state (r : CachedRequestState) (q : CachedRequest) : CachedRequestState :=
  with_progress r (cq_num_computed_tokens q) (cs_output_token_ids r)
    (match cq_new_block_ids q with
     | Some new => if cq_resumed_from_preemption q then new else extend_blocks (cs_block_ids r) new
     | None => cs_block_ids r
     end).

(** What the scheduler guarantees for an entry, with the ids [K] in the batch. *)
Record cached_ok (b0 : InputBatch) (spec : gmap string (list Z)) (K : gset string) (q : CachedRequest) (r : CachedRequestState) : Prop := {
  ck_next : request_ok b0 (cq_req_id q) (next_state r q);
  ck_resumed : cq_resumed_from_preemption q = true -> is_Some (cq_new_block_ids q) /\ cq_req_id q ∉ K;
  ck_groups : forall new, cq_new_block_ids q = Some new -> length new = length (ib_block_table b0);
  ck_spec : cs_num_tokens r + length (default [] (spec !! cq_req_id q)) <= ib_max_model_len b0
}.

Lemma blocks_fit_next b0 b ids : open_step b0 b -> blocks_fit ids b0 -> blocks_fit ids b.
Proof. intros Hb. apply same_tables_fit, Hb. Qed.

Lemma wp_cached_request b0 drafts spec K q r w : phase b0 drafts w -> dom (batch_map (input_batch w)) = K ->
  rn_requests w !! cq_req_id q = Some r -> drafts !! cq_req_id q = None -> cached_ok b0 spec K q r ->
  wp (update_cached_request true spec q) (fun add w' => add = bool_decide (cq_req_id q ∉ K) /\ dom (batch_map (input_batch w')) = K /\
    phase b0 (if decide (cq_req_id q ∈ K) then <[cq_req_id q := default [] (spec !! cq_req_id q)]> drafts else drafts) w' /\
    keeps (input_batch w) (input_batch w') /\ rn_requests w' = <[cq_req_id q := next_state r q]> (rn_requests w)) noexc w.
Proof.
  intros Hp HK Hr Hd [C1 C2 C3 C4]. set (id := cq_req_id q) in *. pose proof (ph_step _ _ _ Hp) as Ho. pose proof (ok_core _ (os_ok _ _ Ho)) as Hb.
  unfold update_cached_request. wp_step. eapply wp_rn_request; [exact Hr|]. do 3 wp_step.
  eapply (wp_lift _ (cs_block_ids (next_state r q))).
  { unfold update_blocks, next_state. cbn. destruct (cq_resumed_from_preemption q), (cq_new_block_ids q); try done.
    by destruct C2 as [[? ?] _]. }
  fold id. unfold store_request. do 2 wp_step. change (with_progress r _ _ _) with (next_state r q).
  set (w1 := set_rn_requests _ w). do 2 wp_step. change (input_batch w1) with (input_batch w).
  destruct (req_id_to_index (input_batch w) !! id) as [i|] eqn:Hi.
  - assert (id ∈ K) as HidK by (rewrite <-HK, batch_map_dom by done; apply elem_of_dom; eauto).
    assert (cq_resumed_from_preemption q = false) as Hres by (destruct (cq_resumed_from_preemption q); [by destruct C2|done]).
    assert (next_state r q = moved_on r q) as Hnext by (unfold next_state; by rewrite Hres).
    pose proof HidK as Hv. rewrite <-HK in Hv. apply elem_of_dom in Hv as [v Hv].
    destruct (ph_mirrors _ _ _ Hp id v Hv) as (r' & p & Hr' & Hpar & ->). fold id in Hr. rewrite Hr in Hr'. injection Hr' as <-.
    rewrite Hd in Hv. cbn in Hv. rewrite draft_view_nil, <-(new_view_limits _ _ _ _ (os_limits _ _ Ho)) in Hv.
    pose proof (os_limits _ _ Ho) as (L1 & L2 & _).
    wp_step. apply wp_on_batch. eapply wp_mono; [apply (wp_update_persistent (input_batch w) id i r p q (default [] (spec !! id)) noexc Hb Hi Hv)| |by intros ? ? []].
    + intros new Hnew. split; [rewrite (C3 new Hnew); eapply Forall2_length, Ho|]. apply (blocks_fit_next b0); [done|].
      pose proof (rq_blocks _ _ _ C1) as Hf. rewrite Hnext in Hf. unfold moved_on in Hf. by rewrite Hnew in Hf.
    + by rewrite L2.
    + intros _ b' (row & ts & -> & Ht & Hview). wp_step. cbn [input_batch set_input_batch rn_requests].
      pose proof (touched_map (input_batch w) i row ts id Hb Ht Hi) as Hmap.
      assert (dom (batch_map (touched i row ts (input_batch w))) = K) as Hdom.
      { rewrite Hmap, dom_insert_L, HK. set_solver. }
      split_and!; [by rewrite bool_decide_eq_false_2 by auto|done| | |done].
      * rewrite decide_True by done. split; [by apply touched_step| |].
        -- intros id' r'. cbn [rn_requests set_input_batch w1 set_rn_requests]. intros [[<- <-]|[_ Hr']]%lookup_insert_Some; [done|by apply Hp].
        -- intros id' v'. cbn [input_batch set_input_batch rn_requests w1 set_rn_requests]. rewrite Hmap. intros [[<- <-]|[Hne Hv']]%lookup_insert_Some.
           ++ exists (next_state r q), p. rewrite !lookup_insert_eq, Hview. split_and!; [done|done|]. cbn [default].
              by rewrite (new_view_limits _ _ _ _ (os_limits _ _ Ho)), Hnext.
           ++ rewrite !lookup_insert_ne by done. by apply Hp.
      * intros T ns d0 ent Htr. exact Htr.
  - assert (id ∉ K) as HidK by (rewrite <-HK, batch_map_dom by done; rewrite elem_of_dom, Hi; by intros []).
    wp_step. split_and!; [by rewrite bool_decide_eq_true_2 by auto|done| |done|done]. rewrite decide_False by done. apply phase_store; [done|done|by rewrite HK].
Qed.

Lemma wp_cached_requests b0 spec K qs : forall drafts w to_add, phase b0 drafts w -> dom (batch_map (input_batch w)) = K -> NoDup (cq_req_id <$> qs) ->
  (forall q, q ∈ qs -> drafts !! cq_req_id q = None /\ exists r, rn_requests w !! cq_req_id q = Some r /\ cached_ok b0 spec K q r) ->
  wp (update_cached_requests true spec qs to_add) (fun to_add' w' => exists drafts', phase b0 drafts' w' /\ keeps (input_batch w) (input_batch w') /\
    dom (batch_map (input_batch w')) = K /\ to_add' = to_add ++ filter (fun id => id ∉ K) (cq_req_id <$> qs) /\
    (forall id, id ∉ cq_req_id <$> qs -> rn_requests w' !! id = rn_requests w !! id /\ drafts' !! id = drafts !! id) /\
    forall q r, q ∈ qs -> rn_requests w !! cq_req_id q = Some r -> rn_requests w' !! cq_req_id q = Some (next_state r q) /\
      drafts' !! cq_req_id q = if decide (cq_req_id q ∈ K) then Some (default [] (spec !! cq_req_id q)) else None) noexc w.
Proof.
  induction qs as [|q qs IH]; intros drafts w to_add Hp HK Hnd Hqs; unfold update_cached_requests in *; cbn [foldM].
  { wp_step. exists drafts. split_and!; [done..|by rewrite app_nil_r|done|]. by intros q r ?%elem_of_nil. }
  cbn in Hnd. apply NoDup_cons in Hnd as [Hq Hnd]. destruct (Hqs q) as (Hd & r & Hr & Hck); [by left|].
  do 2 wp_step. eapply wp_mono; [by apply (wp_cached_request b0 drafts spec K q r w)| |done].
  intros add w1 (-> & Hdom & Hp1 & Hk1 & Hr1). wp_step. set (drafts1 := if decide _ then _ else _) in Hp1.
  assert (forall id, id <> cq_req_id q -> drafts1 !! id = drafts !! id) as Hd1 by (intros id Hne; unfold drafts1; case_decide; [by rewrite lookup_insert_ne|done]).
  eapply wp_mono; [apply (IH drafts1 w1); [done|done|done|]| |done].
  { intros q' Hq'. assert (cq_req_id q' <> cq_req_id q) as Hne by (intros E; apply Hq; rewrite <-E; apply list_elem_of_fmap; eauto).
    rewrite Hd1, Hr1, lookup_insert_ne by done. apply Hqs. by right. }
  intros to_add' w2 (drafts2 & G1 & G2 & G3 & -> & G5 & G6). exists drafts2. split_and!; [done|by etransitivity|done| | |].
  - rewrite fmap_cons, filter_cons. destruct (decide (cq_req_id q ∉ K)); [rewrite bool_decide_eq_true_2 by done; by rewrite <-app_assoc|by rewrite bool_decide_eq_false_2].
  - intros id [Hne Hid]%not_elem_of_cons. destruct (G5 id Hid) as [-> ->]. by rewrite Hr1, lookup_insert_ne, Hd1.
  - intros q' r' [->|Hq']%elem_of_cons Hr'.
    + fold (cq_req_id <$> qs) in Hq. destruct (G5 (cq_req_id q) Hq) as [-> ->]. rewrite Hr in Hr'. injection Hr' as <-. rewrite Hr1, lookup_insert_eq. split; [done|].
      unfold drafts1. case_decide; [by rewrite lookup_insert_eq|done].
    + apply G6; [done|]. rewrite Hr1, lookup_insert_ne; [done|]. intros E. apply Hq. rewrite E. apply list_elem_of_fmap. eauto.
Qed.

(** ** Adding *)

(** The entries of logits processors once the requests [l] are added. *)
Definition ent_after {T} (new_state : BatchSampling -> list Z -> string -> option T) (rs : gmap string CachedRequestState) (l : list string)
    (ent : string -> option T) : string -> option T :=
  fun id => if decide (id ∈ l) then r ← rs !! id; p ← cs_sampling_params r; new_state p (cs_prompt_token_ids r) id else ent id.

Lemma tracks_ext {T} new_state (d0 : gmap nat T) ent ent' b : (forall id, ent id = ent' id) -> tracks new_state d0 ent b -> tracks new_state d0 ent' b.
Proof. intros He [H1 H2]. split; [|done]. intros i. rewrite H1. destruct (_req_ids b !! i) as [[id|]|]; [|done..]. cbn. apply He. Qed.

Lemma mirrors_add b0 rs drafts m id r p : mirrors b0 rs drafts m -> rs !! id = Some r -> cs_sampling_params r = Some p -> drafts !! id = None ->
  mirrors b0 rs drafts (<[id := new_view b0 r p]> m).
Proof.
  intros Hm Hr Hp Hd id' v [[<- <-]|[_ Hv]]%lookup_insert_Some; [|by apply Hm]. exists r, p. rewrite Hd. cbn. by rewrite draft_view_nil.
Qed.

Lemma room_subset (X : gset string) id l : id ∉ X -> X ⊂ X ∪ list_to_set (id :: l).
Proof. set_solver. Qed.

Lemma room_next (X : gset string) id l : (X ∪ {[id]}) ∪ list_to_set l = X ∪ list_to_set (id :: l).
Proof. set_solver. Qed.

Lemma wp_add_all b0 drafts l : forall w, phase b0 drafts w -> NoDup l ->
  (forall id, id ∈ l -> id ∉ dom (batch_map (input_batch w)) /\ drafts !! id = None /\ is_Some (rn_requests w !! id)) ->
  size (dom (batch_map (input_batch w)) ∪ list_to_set l) <= ib_max_num_reqs b0 ->
  wp (forM l add_to_batch) (fun _ w' => phase b0 drafts w' /\ rn_requests w' = rn_requests w /\
    dom (batch_map (input_batch w')) = dom (batch_map (input_batch w)) ∪ list_to_set l /\
    forall (T : Type) new_state (d0 : gmap nat T) ent, tracks new_state d0 ent (input_batch w) ->
      tracks new_state d0 (ent_after new_state (rn_requests w) l ent) (input_batch w')) noexc w.
Proof.
  induction l as [|id l IH]; intros w Hp Hnd Hl Hroom; cbn [forM].
  { wp_step. split_and!; [done..|set_solver|]. intros T ns d0 ent. apply tracks_ext. intros id. unfold ent_after.
    by rewrite decide_False by apply not_elem_of_nil. }
  apply NoDup_cons in Hnd as [Hid Hnd]. destruct (Hl id) as (Hout & Hd & [r Hr]); [by left|].
  pose proof (ph_step _ _ _ Hp) as Ho. pose proof (os_ok _ _ Ho) as Hok. pose proof (os_limits _ _ Ho) as (L1 & L2 & L3 & _).
  destruct (ph_requests _ _ _ Hp id r Hr) as [R1 (p & R2 & R2') R3 R4].
  assert (add_ready (input_batch w) r p) as Hready.
  { split; rewrite ?R1, ?L1, ?L2, ?L3; try done.
    - rewrite batch_map_dom in Hout by apply Hok. by apply not_elem_of_dom in Hout.
    - rewrite <-batch_map_size, <-size_dom by apply Hok. eapply Nat.lt_le_trans; [|exact Hroom]. by apply subset_size, room_subset.
    - by apply (blocks_fit_next b0). }
  wp_step. unfold add_to_batch. wp_step. eapply wp_rn_request; [exact Hr|]. wp_step. apply wp_on_batch.
  eapply wp_mono; [by apply (wp_add_step b0 (input_batch w) r p noexc)| |by intros ? ? []]. intros ? b1 (H1 & H2 & H3). wp_step. rewrite R1 in H2.
  rewrite (new_view_limits _ _ _ _ (os_limits _ _ Ho)) in H2.
  assert (dom (batch_map b1) = dom (batch_map (input_batch w)) ∪ {[id]}) as Hdom by (by rewrite H2, dom_insert_L, (union_comm_L {[id]})).
  eapply wp_mono; [apply (IH (set_input_batch b1 w)); [|done| |]| |done]; cbn [input_batch set_input_batch rn_requests].
  - split; [done|apply Hp|]. cbn. rewrite H2. by apply mirrors_add; [apply Hp|..].
  - intros id' Hid'. rewrite Hdom. destruct (Hl id') as (G1 & G2 & G3); [by right|]. split_and!; [|done|done]. intros [?|Heq%elem_of_singleton]%elem_of_union; [done|by subst].
  - by rewrite Hdom, room_next.
  - intros _ w' (G1 & G2 & G3 & G4). split_and!; [done|done|by rewrite G3, Hdom, room_next|].
    intros T ns d0 ent Ht. eapply tracks_ext; [|by apply G4, H3]. intros id'. unfold ent_after, ent_add. rewrite R1.
    destruct (decide (id' = id)) as [->|Hne].
    + rewrite decide_False, (decide_True (P := id ∈ id :: l)), Hr by (done || by left). done.
    + by rewrite (decide_ext (id' ∈ id :: l) (id' ∈ l)) by (rewrite elem_of_cons; tauto).
Qed.

(** ** The end of the step *)

Lemma wp_refresh b E : is_pooling_model b = false ->
  wp refresh_metadata (fun u b' => b' = set_builder new_builder b /\
    forall (T : Type) new_state (d : gmap nat T), process_dict_updates new_state d u = applied new_state d (batch_update_builder b)) E b.
Proof.
  intros Hpool. unfold refresh_metadata. do 2 wp_step. rewrite Hpool. apply wp_on_builder. unfold get_and_reset. do 4 wp_step.
  destruct (batch_update_builder b) as [r s m a c] eqn:Hu. cbn [_removed moved added].
  destruct r as [|r1 r]; [destruct m as [|m1 m]; [destruct a as [|a1 a]|]|]; wp_steps; (split; [done|]); intros T ns d; try done;
    exact (process_dict_updates_applied ns d (mkBuilder _ s _ _ c) _).
Qed.

(** * The step *)

(** Between steps. *)
Record runner_ok (drafts : gmap string (list Z)) (w : GPUModelRunner) : Prop := {
  ro_batch : ib_ok (input_batch w);
  ro_builder : batch_update_builder (input_batch w) = new_builder;
  ro_requests : requests_ok (input_batch w) (rn_requests w);
  ro_mirrors : mirrors (input_batch w) (rn_requests w) drafts (batch_map (input_batch w))
}.

Definition new_ids_of (s : StepInput) : list string := nr_req_id <$> scheduled_new_reqs s.
Definition cached_ids_of (s : StepInput) : list string := cq_req_id <$> scheduled_cached_reqs s.

(** What the scheduler guarantees: the entries are the scheduled requests, each once; new ones are not in the batch,
    unless they finished and came back; the others are known; and the batch has room for all of it. *)
Record step_ok (s : StepInput) (w : GPUModelRunner) : Prop := {
  st_new : forall q, q ∈ scheduled_new_reqs s -> request_ok (input_batch w) (nr_req_id q) (new_req_state q) /\ nr_req_id q ∉ kept_ids s w;
  st_distinct : NoDup (new_ids_of s ++ cached_ids_of s);
  st_cached : forall q, q ∈ scheduled_cached_reqs s -> cq_req_id q ∉ si_finished_req_ids s /\ exists r, rn_requests w !! cq_req_id q = Some r /\
    cached_ok (input_batch w) (scheduled_spec_decode_tokens s) (kept_ids s w) q r;
  st_scheduled : dom (num_scheduled_tokens s) = list_to_set (new_ids_of s ++ cached_ids_of s);
  st_room : size (num_scheduled_tokens s) <= ib_max_num_reqs (input_batch w)
}.

Lemma idle_condensed b : ib_ok b -> _removed (batch_update_builder b) = [] -> condensed b.
Proof.
  intros Hb Hr. pose proof (num_reqs_gaps b Hb) as Hg. rewrite Hr in Hg. cbn in Hg. split_and!; [lia| |rewrite Hr; by intros i ?%elem_of_nil].
  intros i Hi. apply (ok_removed b Hb) in Hi. rewrite Hr in Hi. by apply elem_of_nil in Hi.
Qed.

Lemma settled_ok b : ib_core b -> condensed b -> ib_ok (set_builder new_builder b).
Proof.
  intros [] (_ & Hn & _). split; [by split| |constructor|done]. cbn. intros i. split; [by intros ?%elem_of_nil|]. by intros ?%Hn.
Qed.

Lemma condensed_scheduled scheduled b : ib_core b -> condensed b -> dom (batch_map b) = dom scheduled -> all_scheduled scheduled b.
Proof.
  intros Hb (_ & Hn & _) Hdom x Hx. apply list_elem_of_lookup in Hx as [i Hi]. destruct x as [id|]; [|by apply Hn in Hi].
  assert (id ∈ dom scheduled) as Hid. { rewrite <-Hdom, batch_map_dom by done. apply elem_of_dom. apply (oc_index b Hb) in Hi. eauto. }
  apply elem_of_dom in Hid as [n Hid]. eauto.
Qed.

(** Reordering is off, or allowed for the context-parallel group. *)
Definition reorder_ok (dcp_world_size : nat) (threshold : option nat) : Prop := dcp_world_size <= 1 \/ threshold = Some 1 \/ threshold = None.

Lemma wp_may_reorder has_groups dcp threshold scheduled b E : ib_core b -> condensed b -> all_scheduled scheduled b -> reorder_ok dcp threshold ->
  wp (may_reorder_batch has_groups dcp threshold scheduled) (fun _ b' => arranged b b' /\
    (has_groups = true -> forall t, threshold = Some t -> decodes_first t scheduled b')) E b.
Proof.
  intros Hb Hc Hs Hr. unfold may_reorder_batch. destruct has_groups; cbn [negb]; [|wp_step; split; [by apply arranged_refl|done]].
  destruct threshold as [t|]; [|wp_step; split; [by apply arranged_refl|done]].
  wp_step. assert (wp (if 1 <? dcp then assertM (t =? 1) else mret tt) (fun _ b' => b' = b) E b) as Ha.
  { destruct (Nat.ltb_spec 1 dcp); [|by wp_step]. destruct Hr as [?|[[= ->]|?]]; [lia| |done]. by apply wp_assertM. }
  eapply wp_mono; [exact Ha| |done]. intros ? ? ->. wp_step. eapply wp_mono; [by apply (wp_reorder t scheduled b noexc)| |by intros ? ? []].
  intros ? b' (H1 & H2 & H3). wp_step. split; [done|]. by intros _ ? [= <-].
Qed.

(** A processor without entries follows any batch. *)
Lemma tracks_nothing b : moved (batch_update_builder b) = [] -> tracks (T := unit) (fun _ _ _ => None) ∅ (fun _ => None) b.
Proof.
  intros Hm. split; rewrite ?Hm; [|by intros m ?%elem_of_nil]. intros i. unfold applied. rewrite Hm. cbn. rewrite foldl_delete_lookup.
  assert (forall l, foldl (process_added (fun _ _ _ => None)) (∅ : gmap nat unit) l = ∅) as ->.
  { intros l. induction l as [|a l IH]; [done|]. cbn [foldl]. assert (process_added (fun _ _ _ => None) (∅ : gmap nat unit) a = ∅) as -> by apply delete_empty. done. }
  rewrite lookup_empty. destruct (_req_ids b !! i) as [[]|]; by case_decide.
Qed.

Lemma wp_condense_all b : ib_ok b -> moved (batch_update_builder b) = [] ->
  wp condense (fun _ b' => slid b b' /\ condensed b' /\ keeps b b') noexc b.
Proof.
  intros Hb Hm. pose proof (wp_condense _ _ _ b Hb (tracks_nothing b Hm)) as H0.
  assert (forall (T : Type) ns (d0 : gmap nat T) ent, tracks ns d0 ent b -> wp condense (fun _ b' => tracks ns d0 ent b') noexc b) as HT.
  { intros T ns d0 ent Ht. eapply wp_mono; [by apply (wp_condense ns d0 ent b Hb)| |done]. by intros ? ? (_ & _ & ? & _). }
  unfold wp in *. destruct (condense b) as [[u|e] b']; [|done]. destruct H0 as (H1 & H2 & _). split_and!; [done..|exact HT].
Qed.

(** The cached states stay good for a batch with the same limits and tables. *)
Lemma request_ok_next b b' id r : same_limits b b' -> same_tables (ib_block_table b) (ib_block_table b') -> request_ok b id r -> request_ok b' id r.
Proof.
  intros (L1 & L2 & L3 & _) Ht [R1 R2 R3 R4]. split; [done|by rewrite L3|by rewrite L2|by eapply same_tables_fit].
Qed.

Lemma mirrors_next b b' rs drafts m : same_limits b b' -> mirrors b rs drafts m -> mirrors b' rs drafts m.
Proof. intros Hl Hm id v Hv. destruct (Hm id v Hv) as (r & p & ? & ? & ->). exists r, p. by rewrite (new_view_limits _ _ _ _ Hl). Qed.

Section step.
Context (order : gset string -> list string) (Horder : forall s x, x ∈ order s <-> x ∈ s).
Context (has_groups : bool) (dcp : nat) (threshold : option nat) (Hreorder : reorder_ok dcp threshold).
Context (s : StepInput) (w : GPUModelRunner) (Hw : runner_ok ∅ w) (Hst : step_ok s w).

(** The requests that have to be added. *)
Definition added_ids : list string := new_ids_of s ++ filter (fun id => id ∉ kept_ids s w) (cached_ids_of s).

Definition kept_drafts (id : string) : list Z := if decide (id ∈ kept_ids s w) then default [] (scheduled_spec_decode_tokens s !! id) else [].

(** The cached states after the step. *)
Record states_after (w' : GPUModelRunner) : Prop := {
  sa_new : forall q, q ∈ scheduled_new_reqs s -> rn_requests w' !! nr_req_id q = Some (new_req_state q);
  sa_cached : forall q r, q ∈ scheduled_cached_reqs s -> rn_requests w !! cq_req_id q = Some r -> rn_requests w' !! cq_req_id q = Some (next_state r q);
  sa_other : forall id, id ∉ dom (num_scheduled_tokens s) ->
    rn_requests w' !! id = if decide (id ∈ si_finished_req_ids s) then None else rn_requests w !! id
}.

Lemma added_elem id : id ∈ added_ids <-> id ∈ dom (num_scheduled_tokens s) /\ id ∉ kept_ids s w.
Proof.
  unfold added_ids. rewrite elem_of_app, list_elem_of_filter, (st_scheduled _ _ Hst), elem_of_list_to_set, elem_of_app. split; [|tauto].
  intros [Hn|?]; [|tauto]. split; [by left|]. apply list_elem_of_fmap in Hn as (q & -> & Hq). by apply (st_new _ _ Hst).
Qed.

Lemma added_once : NoDup added_ids.
Proof.
  pose proof (st_distinct _ _ Hst) as (H1 & H2 & H3)%NoDup_app. apply NoDup_app. split_and!; [done| |by apply NoDup_filter].
  intros id Hid [_ Hc]%list_elem_of_filter. by eapply H2.
Qed.

Lemma runner_phase : phase (input_batch w) ∅ w.
Proof. split; [|apply Hw..]. split; [apply Hw|by rewrite (ro_builder _ _ Hw)|done|done]. Qed.

(** Removals, new requests and updates. *)
Lemma wp_gather : wp (remove_finished order s ;; remove_unscheduled order s ;; add_new_requests s ;;
    update_cached_requests true (scheduled_spec_decode_tokens s) (scheduled_cached_reqs s) (nr_req_id <$> scheduled_new_reqs s))
  (fun to_add w' => to_add = added_ids /\ states_after w' /\ keeps (input_batch w) (input_batch w') /\ dom (batch_map (input_batch w')) = kept_ids s w /\
    exists drafts, phase (input_batch w) drafts w' /\ (forall id, default [] (drafts !! id) = kept_drafts id) /\
      forall id, id ∈ added_ids -> drafts !! id = None) noexc w.
Proof.
  pose proof (st_distinct _ _ Hst) as (Hnn & Hnc & Hcc)%NoDup_app.
  pose proof (wp_removals order Horder s w runner_phase ltac:(by rewrite (ro_builder _ _ Hw))) as Hrem.
  assert (forall (A : Type) (k : M GPUModelRunner A) Q E, wp (remove_finished order s ;; remove_unscheduled order s) (fun _ => wp k Q E) E w ->
    wp (remove_finished order s ;; remove_unscheduled order s ;; k) Q E w) as Hassoc.
  { intros A k Q E Hk. unfold wp, mbind, M_bind in *. destruct (remove_finished order s w) as [[[]|e] w0]; [|done]. by destruct (remove_unscheduled order s w0) as [[[]|e] w1]. }
  apply Hassoc. eapply wp_mono; [exact Hrem| |done]. clear Hassoc Hrem. intros _ w1 (Hp1 & Hk1 & Hd1 & Hr1). wp_step.
  eapply wp_mono; [apply (wp_add_new (input_batch w) (scheduled_new_reqs s) w1 Hp1 Hnn)| |done].
  { intros q Hq. rewrite Hd1. by apply (st_new _ _ Hst). }
  intros ? w2 (Hp2 & Hb2 & Ho2 & Hn2). rewrite <-Hb2 in Hd1, Hk1.
  assert (forall q, q ∈ scheduled_cached_reqs s -> rn_requests w2 !! cq_req_id q = rn_requests w !! cq_req_id q) as Hsame.
  { intros q Hq. rewrite Ho2, Hr1, decide_False; [done|by apply (st_cached _ _ Hst)|]. intros Hin. apply (Hnc _ Hin). apply list_elem_of_fmap. eauto. }
  eapply wp_mono; [apply (wp_cached_requests (input_batch w) (scheduled_spec_decode_tokens s) (kept_ids s w) _ ∅ w2); [done|done|done|]| |done].
  { intros q Hq. split; [apply lookup_empty|]. destruct (st_cached _ _ Hst q Hq) as (_ & r & Hr & Hck). exists r. by rewrite Hsame. }
  intros to_add w3 (drafts & Hp3 & Hk3 & Hd3 & -> & Ho3 & Hc3).
  assert (forall id, id ∉ cached_ids_of s -> drafts !! id = None) as Hdn.
  { intros id Hid. destruct (Ho3 id Hid) as [_ ->]. apply lookup_empty. }
  assert (forall id, id ∈ cached_ids_of s -> drafts !! id = if decide (id ∈ kept_ids s w) then Some (default [] (scheduled_spec_decode_tokens s !! id)) else None) as Hdc.
  { intros id (q & -> & Hq)%list_elem_of_fmap. destruct (st_cached _ _ Hst q Hq) as (_ & r & Hr & _). by apply (Hc3 q r); [|rewrite Hsame]. }
  split_and!; [done| |by etransitivity|done|exists drafts; split_and!; [done| |]].
  - split.
    + intros q Hq. destruct (Ho3 (nr_req_id q)) as [-> _]; [|by apply Hn2]. intros Hin. eapply Hnc; [|exact Hin]. apply list_elem_of_fmap. eauto.
    + intros q r Hq Hr. by apply (Hc3 q r); [|rewrite Hsame].
    + intros id Hid. rewrite (st_scheduled _ _ Hst), elem_of_list_to_set, elem_of_app in Hid. destruct (Ho3 id) as [-> _]; [tauto|]. rewrite Ho2; [apply Hr1|tauto].
  - intros id. unfold kept_drafts. destruct (decide (id ∈ cached_ids_of s)) as [Hin|Hout]; [rewrite Hdc by done; by case_decide|].
    rewrite Hdn by done. case_decide as Hid; [|done]. exfalso. pose proof Hid as Hid'. apply kept_elem in Hid as (_ & _ & Hid).
    rewrite (st_scheduled _ _ Hst), elem_of_list_to_set, elem_of_app in Hid. destruct Hid as [Hid|?]; [|done].
    apply list_elem_of_fmap in Hid as (q & -> & Hq). by apply (st_new _ _ Hst) in Hq as [_ ?].
  - intros id Hid. destruct (decide (id ∈ cached_ids_of s)) as [Hin|Hout]; [|by apply Hdn]. rewrite Hdc by done. apply added_elem in Hid as [_ ?]. by rewrite decide_False.
Qed.

Lemma wp_update_states : wp (update_states order true has_groups dcp threshold s) (fun u w' => exists drafts, runner_ok drafts w' /\
    (forall id, default [] (drafts !! id) = kept_drafts id) /\ states_after w' /\ same_limits (input_batch w) (input_batch w') /\
    dom (batch_map (input_batch w')) = dom (num_scheduled_tokens s) /\
    (has_groups = true -> forall t, threshold = Some t -> decodes_first t (num_scheduled_tokens s) (input_batch w')) /\
    forall (T : Type) new_state (d : gmap nat T) ent, tracks new_state d ent (input_batch w) ->
      forall i, process_dict_updates new_state d u !! i = _req_ids (input_batch w') !! i ≫= fun o => o ≫= ent_after new_state (rn_requests w') added_ids ent) noexc w.
Proof.
  unfold update_states.
  assert (forall (A : Type) (k : list string -> M GPUModelRunner A) Q E,
    wp (remove_finished order s ;; remove_unscheduled order s ;; add_new_requests s ;;
      update_cached_requests true (scheduled_spec_decode_tokens s) (scheduled_cached_reqs s) (nr_req_id <$> scheduled_new_reqs s)) (fun l => wp (k l) Q E) E w ->
    wp (remove_finished order s ;; remove_unscheduled order s ;; add_new_requests s ;;
      l ← update_cached_requests true (scheduled_spec_decode_tokens s) (scheduled_cached_reqs s) (nr_req_id <$> scheduled_new_reqs s); k l) Q E w) as Hassoc.
  { intros A k Q E Hk. unfold wp, mbind, M_bind in *. destruct (remove_finished order s w) as [[[]|e] w0]; [|done].
    destruct (remove_unscheduled order s w0) as [[[]|e] w1]; [|done]. destruct (add_new_requests s w1) as [[[]|e] w2]; [|done].
    by destruct (update_cached_requests _ _ _ _ w2) as [[l|e] w3]. }
  apply Hassoc. eapply wp_mono; [apply wp_gather| |done]. clear Hassoc. intros ? w1 (-> & Hsa & Hk1 & Hd1 & drafts & Hp1 & Hdr & Hdn).
  assert (kept_ids s w ∪ list_to_set added_ids = dom (num_scheduled_tokens s)) as Hall.
  { apply set_eq. intros id. rewrite elem_of_union, elem_of_list_to_set, added_elem. pose proof (kept_elem s w id). destruct (decide (id ∈ kept_ids s w)); tauto. }
  wp_step. eapply wp_mono; [apply (wp_add_all (input_batch w) drafts added_ids w1 Hp1 added_once)| |done].
  { intros id Hid. rewrite Hd1. split_and!; [by apply added_elem|by apply Hdn|]. apply elem_of_app in Hid as [Hid|[_ Hid]%list_elem_of_filter]; apply list_elem_of_fmap in Hid as (q & -> & Hq).
    - rewrite (sa_new _ Hsa q Hq). eauto.
    - destruct (st_cached _ _ Hst q Hq) as (_ & r & Hr & _). rewrite (sa_cached _ Hsa q r Hq Hr). eauto. }
  { rewrite Hd1, Hall, size_dom. apply Hst. }
  intros ? w2 (Hp2 & Hr2 & Hd2 & Ht2). rewrite Hd1, Hall in Hd2. pose proof (os_ok _ _ (ph_step _ _ _ Hp2)) as Hok2.
  wp_step. apply wp_on_batch. eapply wp_mono; [by apply wp_condense_all, Hp2| |by intros ? ? []].
  intros ? b3 (Hs3 & Hc3 & Hk3). wp_step. apply wp_on_batch. cbn [input_batch set_input_batch].
  eapply wp_mono; [apply (wp_may_reorder has_groups dcp threshold _ b3 noexc (sl_core _ _ Hs3) Hc3)| |by intros ? ? []]; [|done|].
  { apply condensed_scheduled; [apply Hs3|done|]. by rewrite (slid_map _ _ Hs3). }
  intros ? b4 ([Hs4 Hc4 Hk4] & Hdf). apply wp_on_batch. cbn [input_batch set_input_batch].
  pose proof (slid_trans _ _ _ Hs3 Hs4) as Hs. eapply wp_mono; [apply (wp_refresh b4 noexc), (oc_pooling _ (sl_core _ _ Hs4))| |by intros ? ? []].
  intros u b5 [-> Hu]. set (w5 := set_input_batch _ _).
  assert (same_limits (input_batch w) b4) as Hl by (etransitivity; [apply Hp2|apply Hs]).
  assert (same_tables (ib_block_table (input_batch w)) (ib_block_table b4)) as Htb by (etransitivity; [apply Hp2|apply Hs]).
  exists drafts. split_and!.
  - split; [by apply settled_ok; [apply Hs4|]|done| |].
    + intros id r Hr. apply (request_ok_next (input_batch w)); [done..|]. by apply Hp2.
    + change (mirrors b4 (rn_requests w2) drafts (batch_map b4)). rewrite (slid_map _ _ Hs). apply (mirrors_next (input_batch w)); [done|apply Hp2].
  - done.
  - destruct Hsa as [S1 S2 S3]. split; cbn; rewrite Hr2; done.
  - done.
  - change (dom (batch_map b4) = dom (num_scheduled_tokens s)). by rewrite (slid_map _ _ Hs).
  - done.
  - intros T ns d ent Ht i. rewrite Hu. change (rn_requests w5) with (rn_requests w2). rewrite Hr2. by apply Hk4, Hk3, Ht2, Hk1.
Qed.
End step.
