(* ===== verification/RunnerSteps.v ===== *)
(** The steps of the model runner: the bookkeeping after sampling, the properties of the persistent batch over a step,
    and runs on a small worker. *)
From stdpp Require Import base gmap sets list strings sorting.
From Stdlib Require Import ZArith QArith Lia.
From S2P Require Import Prelude NumpyArrays Request BlockTable InputBatch InputBatchFacts BatchSteps ModelRunner BatchReorder ModelRunnerFacts.
Open Scope nat_scope.

(** * Recording the sampled tokens *)

Definition with_outputs (ids : list Z) (r : CachedRequestState) : CachedRequestState :=
  with_progress r (cs_num_computed_tokens r) (cs_output_token_ids r ++ ids) (cs_block_ids r).

Lemma with_outputs_nil r : with_outputs [] r = r.
Proof. destruct r. unfold with_outputs, with_progress. cbn. by rewrite app_nil_r. Qed.

Lemma with_outputs_tokens ids r : cs_num_tokens (with_outputs ids r) = cs_num_tokens r + length ids.
Proof. unfold cs_num_tokens. cbn. rewrite length_app. lia. Qed.

(** The row that holds the tokens behind those of the request. *)
Definition recorded_row (row : Row) (ids : list Z) : Row :=
  let n := row_num_tokens_no_spec row in
  with_counts (n + length ids) (n + length ids) (row_num_prompt_tokens row) (row_num_computed_tokens row)
    (with_tokens (take n (row_token_ids row) ++ ids ++ drop (n + length ids) (row_token_ids row)) row).

Lemma recorded_ok b id i r p drafts row ids : ib_core b -> req_id_to_index b !! id = Some i -> batch_map b !! id = Some (draft_view drafts (new_view b r p)) ->
  ib_rows b !! i = Some row -> cs_num_tokens r + length ids <= ib_max_model_len b ->
  touch_ok b i (recorded_row row ids) (ib_block_table b) /\
  (touched_cell b i (recorded_row row ids) (ib_block_table b), id_view b id) = new_view b (with_outputs ids r) p.
Proof.
  intros Hb Hid Hv Hrow Hfit. destruct (drafted_row b id i r p drafts Hb Hid Hv) as (row' & Hrow' & Hn & Hns & Htok & Hlen & Hle & Hcell & Hidv).
  rewrite Hrow in Hrow'. injection Hrow' as <-. split.
  - split; cbn; try done.
    + rewrite !length_app, length_take, length_drop. lia.
    + lia.
    + intros r0 Hr0. rewrite Hrow in Hr0. by injection Hr0 as <-.
    + apply Hb.
  - rewrite Hidv. unfold new_view. f_equal. unfold touched_cell in *. injection Hcell as C1 C2 C3 C4 C5 C6 C7 C8 C9. unfold recorded_row. cbn.
    unfold new_cell. rewrite with_outputs_tokens. cbn. rewrite Hns, C3, C4, C5, C6, C7, C8, C9, !app_assoc, Htok.
    f_equal. apply take_app_length'. rewrite !length_app. unfold cs_num_tokens. lia.
Qed.

Lemma wp_record_sampled drafts w i id r ids : runner_ok drafts w -> req_id_to_index (input_batch w) !! id = Some i -> rn_requests w !! id = Some r ->
  ids <> [] -> cs_num_tokens r + length ids <= ib_max_model_len (input_batch w) ->
  wp (record_sampled i ids) (fun _ w' => runner_ok (delete id drafts) w' /\ _req_ids (input_batch w') = _req_ids (input_batch w) /\
    req_id_to_index (input_batch w') = req_id_to_index (input_batch w) /\
    same_limits (input_batch w) (input_batch w') /\ rn_requests w' = <[id := with_outputs ids r]> (rn_requests w)) noexc w.
Proof.
  intros [Hok Hbu Hrq Hmi] Hid Hr Hids Hfit. pose proof (ok_core _ Hok) as Hb.
  assert (is_Some (batch_map (input_batch w) !! id)) as [v Hv] by (apply elem_of_dom; rewrite batch_map_dom by done; apply elem_of_dom; eauto).
  destruct (Hmi id v Hv) as (r' & p & Hr' & Hp & Heq). rewrite Hr in Hr'. injection Hr' as <-. rewrite Heq in Hv. clear v Heq.
  destruct (drafted_row _ id i r p _ Hb Hid Hv) as (row & Hrow & _ & Hns & _ & Hlen & _).
  destruct (recorded_ok _ id i r p _ row ids Hb Hid Hv Hrow Hfit) as [Ht Hview].
  pose proof (lookup_lt_Some _ _ _ Hrow) as Hi. pose proof (proj1 (oc_index _ Hb id i) Hid) as Hroster.
  unfold record_sampled. destruct ids as [|x ids']; [done|]. clear Hids. set (ids := x :: ids') in *. do 3 wp_step.
  apply wp_on_batch. eapply wp_read_cells; [exact Hrow|]. wp_step. rewrite Hns. apply wp_assertM; [apply Nat.leb_le; lia|].
  wp_step. apply wp_on_batch. unfold write_tokens. wp_step. eapply wp_read_cells; [exact Hrow|]. wp_step.
  eapply wp_lift; [by apply assign_range_exact; rewrite Hlen|]. apply wp_write_cells; [done|]. wp_step. apply wp_on_batch.
  eapply wp_update_cells; [by apply list_lookup_insert_eq|]. cbn beta. wp_step. cbn [input_batch set_input_batch _req_ids].
  eapply wp_lift; [by apply at_index_ok|]. cbn beta iota. wp_step. eapply wp_rn_request; [exact Hr|]. unfold store_request. wp_step.
  change (with_progress r _ _ _) with (with_outputs ids r).
  cbn [ib_rows set_ib_rows input_batch set_input_batch rn_requests]. rewrite list_insert_insert_eq.
  set (b' := set_ib_rows _ _). assert (b' = touched i (recorded_row row ids) (ib_block_table (input_batch w)) (input_batch w)) as Eb.
  { unfold b', touched, recorded_row. rewrite Hns. by destruct (input_batch w). }
  assert (open_step (input_batch w) (input_batch w)) as Hopen by (split; [done|by rewrite Hbu|done|done]).
  pose proof (touched_step _ _ _ _ _ Hopen Ht) as Hstep. rewrite <-Eb in Hstep.
  pose proof (touched_map _ _ _ _ id Hb Ht Hid) as Hmap. rewrite <-Eb, Hview in Hmap.
  split_and!; [|done..]. split; cbn [input_batch set_input_batch set_rn_requests rn_requests].
  - apply Hstep.
  - done.
  - intros id' r'. intros [[<- <-]|[_ Hr']]%lookup_insert_Some; [|by apply (request_ok_next (input_batch w)); [..|apply Hrq]].
    destruct (Hrq id r Hr) as [R1 R2 R3 R4]. split; [done|done| |done]. by rewrite with_outputs_tokens.
  - intros id' v. rewrite Hmap. intros [[<- <-]|[Hne Hv']]%lookup_insert_Some.
    + exists (with_outputs ids r), p. rewrite lookup_insert_eq, lookup_delete_eq. cbn. by rewrite draft_view_nil.
    + destruct (Hmi id' v Hv') as (r' & p' & Hr' & Hp' & ->). exists r', p'. by rewrite lookup_insert_ne, lookup_delete_ne by done.
Qed.

(** The tokens of a request in a list that starts at index [k]. *)
Definition taken (index : gmap string nat) (k : nat) (sampled : list (list Z)) (id : string) : list Z :=
  match index !! id with Some j => if k <=? j then default [] (sampled !! (j - k)) else [] | None => [] end.

Lemma taken_nil index k id : taken index k [] id = [].
Proof. unfold taken. destruct (index !! id); [|done]. by destruct (k <=? n). Qed.

Lemma taken_cons index k ids l id : taken index k (ids :: l) id = if decide (index !! id = Some k) then ids else taken index (S k) l id.
Proof.
  unfold taken. destruct (index !! id) as [j|]; [|by case_decide]. destruct (decide (Some j = Some k)) as [[= ->]|Hne].
  - by rewrite Nat.leb_refl, Nat.sub_diag.
  - assert (j <> k) by congruence. destruct (Nat.leb_spec k j), (Nat.leb_spec (S k) j); try lia; [|done].
    by replace (j - k) with (S (j - S k)) by lia.
Qed.

Definition outputs_taken (took : string -> list Z) (rs rs' : gmap string CachedRequestState) : Prop :=
  forall id, rs' !! id = with_outputs (took id) <$> rs !! id.

Lemma wp_record_all l : forall k drafts w, runner_ok drafts w -> k + length l <= length (_req_ids (input_batch w)) ->
  (forall id r, rn_requests w !! id = Some r -> cs_num_tokens r + length (taken (req_id_to_index (input_batch w)) k l id) <= ib_max_model_len (input_batch w)) ->
  wp (record_all k l) (fun _ w' => exists drafts', runner_ok drafts' w' /\ _req_ids (input_batch w') = _req_ids (input_batch w) /\
    same_limits (input_batch w) (input_batch w') /\ outputs_taken (taken (req_id_to_index (input_batch w)) k l) (rn_requests w) (rn_requests w') /\
    forall id, drafts' !! id = if decide (taken (req_id_to_index (input_batch w)) k l id = []) then drafts !! id else None) noexc w.
Proof.
  induction l as [|ids l IH]; intros k drafts w Hw Hk Hroom; cbn [record_all].
  { wp_step. exists drafts. split_and!; [done..| |].
    - intros id. rewrite taken_nil. destruct (rn_requests w !! id) as [r|]; [|done]. cbn. by rewrite with_outputs_nil.
    - intros id. by rewrite taken_nil. }
  pose proof (ok_core _ (ro_batch _ _ Hw)) as Hb.
  destruct (lookup_lt_is_Some_2 (_req_ids (input_batch w)) k) as [x Hx]; [cbn in Hk; lia|].
  assert (exists id, x = Some id) as [id ->].
  { destruct (idle_condensed _ (ro_batch _ _ Hw)) as (_ & Hn & _); [by rewrite (ro_builder _ _ Hw)|]. destruct x; [eauto|by apply Hn in Hx]. }
  pose proof (proj2 (oc_index _ Hb id k) Hx) as Hid.
  assert (forall id', req_id_to_index (input_batch w) !! id' = Some k <-> id' = id) as Honly.
  { intros id'. split; [|by intros ->]. intros Hid'. apply (oc_index _ Hb) in Hid'. congruence. }
  wp_step. destruct ids as [|t ids'] eqn:Eids.
  { unfold record_sampled at 1. wp_step. eapply wp_mono; [apply (IH (S k) drafts w Hw); [cbn in Hk; lia|]| |done].
    - intros id' r' Hr'. specialize (Hroom id' r' Hr'). rewrite taken_cons in Hroom. case_decide as Hd; [|done].
      unfold taken. rewrite Hd. destruct (Nat.leb_spec (S k) k); [lia|done].
    - intros _ w' (drafts' & G1 & G2 & G3 & G4 & G5). exists drafts'.
      assert (forall id', taken (req_id_to_index (input_batch w)) k ([] :: l) id' = taken (req_id_to_index (input_batch w)) (S k) l id') as He.
      { intros id'. rewrite taken_cons. case_decide as Hd; [|done]. unfold taken. rewrite Hd. destruct (Nat.leb_spec (S k) k); [lia|done]. }
      split_and!; [done..| |]; intros id'; rewrite He; [apply G4|apply G5]. }
  rewrite <-Eids in *. assert (ids <> []) as Hne by (by rewrite Eids). clear Eids.
  assert (exists r, rn_requests w !! id = Some r) as [r Hr].
  { assert (is_Some (batch_map (input_batch w) !! id)) as [v Hv] by (apply elem_of_dom; rewrite batch_map_dom by done; apply elem_of_dom; eauto).
    destruct (ro_mirrors _ _ Hw id v Hv) as (r & _ & ? & _). eauto. }
  eapply wp_mono; [apply (wp_record_sampled drafts w k id r ids Hw Hid Hr Hne)| |done].
  { specialize (Hroom id r Hr). by rewrite taken_cons, decide_True in Hroom. }
  intros _ w1 (H1 & H2 & H3 & H4 & H5). pose proof H4 as (_ & L2 & _).
  eapply wp_mono; [apply (IH (S k) (delete id drafts) w1 H1); [rewrite H2; cbn in Hk; lia|]| |done].
  { intros id' r'. rewrite H5, H3, L2. intros [[<- <-]|[Hn Hr']]%lookup_insert_Some.
    - unfold taken. rewrite Hid. destruct (Nat.leb_spec (S k) k); [lia|]. rewrite with_outputs_tokens. cbn. specialize (Hroom id r Hr).
      rewrite taken_cons, decide_True in Hroom by done. lia.
    - specialize (Hroom id' r' Hr'). rewrite taken_cons, decide_False in Hroom by (intros ?%Honly; congruence). done. }
  intros _ w' (drafts' & G1 & G2 & G3 & G4 & G5). exists drafts'. rewrite H3 in G4, G5. split_and!; [done|by rewrite G2|by etransitivity| |].
  - intros id'. rewrite G4, H5, taken_cons. destruct (decide (id' = id)) as [->|Hn].
    + rewrite lookup_insert_eq, Hr, decide_True by done. cbn. unfold taken. rewrite Hid. destruct (Nat.leb_spec (S k) k); [lia|]. by rewrite with_outputs_nil.
    + rewrite lookup_insert_ne by done. by rewrite decide_False by (by intros ?%Honly).
  - intros id'. rewrite G5, taken_cons. destruct (decide (id' = id)) as [->|Hn].
    + rewrite lookup_delete_eq. rewrite (decide_True (P := req_id_to_index _ !! id = Some k)) by done. rewrite (decide_False (P := ids = [])) by done. by case_decide.
    + rewrite lookup_delete_ne by done. by rewrite (decide_False (P := req_id_to_index _ !! id' = Some k)) by (by intros ?%Honly).
Qed.

(** ** Partial prompts *)

(** The prompt of the request is not complete after the step. *)
Definition discarded (rs : gmap string CachedRequestState) (scheduled : gmap string nat) (id : string) : bool :=
  match rs !! id, scheduled !! id with Some r, Some n => cs_num_computed_tokens r + n <? cs_num_tokens r | _, _ => false end.

Definition settled_samples (rs : gmap string CachedRequestState) (scheduled : gmap string nat) (ids : list (option string)) (sampled : list (list Z)) : list (list Z) :=
  zip_with (fun id l => if from_option (discarded rs scheduled) false id then [] else l) ids sampled.

Definition all_known (rs : gmap string CachedRequestState) (scheduled : gmap string nat) (ids : list (option string)) : Prop :=
  Forall (fun x => exists id, x = Some id /\ is_Some (rs !! id) /\ is_Some (scheduled !! id)) ids.

Lemma discard_indices_spec rs scheduled ids : forall k, all_known rs scheduled ids ->
  exists l, discard_indices rs scheduled k ids = Ok l /\
    forall j, j ∈ l <-> k <= j /\ from_option (from_option (discarded rs scheduled) false) false (ids !! (j - k)) = true.
Proof.
  induction ids as [|x ids IH]; intros k Hk; cbn [discard_indices].
  { exists []. split; [done|]. intros j. rewrite lookup_nil. split; [by intros ?%elem_of_nil|by intros [_ ?]]. }
  apply Forall_cons in Hk as [(id & -> & [r Hr] & [n Hn]) Hk]. destruct (IH (S k) Hk) as (l & Hl & Hin). cbn. rewrite Hr. cbn.
  unfold scheduled_of. cbn. rewrite Hn. cbn. rewrite Hl. cbn. eexists. split; [done|]. intros j.
  assert (forall y, y ∈ (if cs_num_computed_tokens r + n <? cs_num_tokens r then k :: l else l) <-> (y = k /\ discarded rs scheduled id = true) \/ y ∈ l) as ->.
  { intros y. unfold discarded. rewrite Hr, Hn. destruct (_ <? _); [rewrite elem_of_cons|]; naive_solver. }
  rewrite Hin. destruct (decide (j = k)) as [->|Hne].
  - rewrite Nat.sub_diag. cbn. split; [intros [[_ ?]|[? _]]; [done|lia]|]. intros [_ ?]. by left.
  - split.
    + intros [[? _]|[Hle ?]]; [done|]. split; [lia|]. by replace (j - k) with (S (j - S k)) by lia.
    + intros [Hle Hd]. right. split; [lia|]. by replace (j - k) with (S (j - S k)) in Hd by lia.
Qed.

Lemma clear_discarded_spec l : forall sampled, (forall j, j ∈ l -> j < length sampled) ->
  exists out, clear_discarded l sampled = Ok out /\ length out = length sampled /\
    forall j, out !! j = if decide (j ∈ l) then Some [] else sampled !! j.
Proof.
  induction l as [|i l IH]; intros sampled Hl; cbn [clear_discarded].
  { exists sampled. split_and!; [done..|]. intros j. by rewrite decide_False by apply not_elem_of_nil. }
  rewrite store_at_ok by (apply Hl; by left). cbn. destruct (IH (<[i := []]> sampled)) as (out & H1 & H2 & H3).
  { intros j Hj. rewrite length_insert. apply Hl. by right. }
  exists out. rewrite length_insert in H2. split_and!; [done..|]. intros j. rewrite H3. destruct (decide (j ∈ l)) as [Hj|Hj].
  - by rewrite decide_True by by right.
  - destruct (decide (j = i)) as [->|Hne].
    + rewrite list_lookup_insert_eq by (apply Hl; by left). by rewrite decide_True by by left.
    + rewrite list_lookup_insert_ne by done. rewrite decide_False; [done|]. by intros [?|?]%elem_of_cons.
Qed.

Lemma settled_run rs scheduled ids sampled : all_known rs scheduled ids -> length sampled = length ids ->
  (l ← discard_indices rs scheduled 0 ids; clear_discarded l sampled) = Ok (settled_samples rs scheduled ids sampled).
Proof.
  intros Hk Hlen. destruct (discard_indices_spec rs scheduled ids 0 Hk) as (l & Hl & Hin). cbn. rewrite Hl. cbn.
  destruct (clear_discarded_spec l sampled) as (out & H1 & H2 & H3).
  { intros j [_ Hj]%Hin. rewrite Nat.sub_0_r in Hj. rewrite Hlen. destruct (ids !! j) eqn:E; [by eapply lookup_lt_Some|done]. }
  rewrite H1. f_equal. apply list_eq. intros j. rewrite H3. unfold settled_samples. rewrite lookup_zip_with. specialize (Hin j). rewrite Nat.sub_0_r in Hin.
  destruct (ids !! j) as [x|] eqn:Ex; cbn in *.
  - destruct (lookup_lt_is_Some_2 sampled j) as [t Ht]; [rewrite Hlen; by eapply lookup_lt_Some|]. rewrite Ht. cbn.
    destruct (from_option (discarded rs scheduled) false x); [rewrite decide_True by (apply Hin; split; [lia|done]); done|].
    rewrite decide_False; [done|]. by intros [_ ?]%Hin.
  - rewrite decide_False by (by intros [_ ?]%Hin). apply lookup_ge_None_2. rewrite Hlen. by apply lookup_ge_None.
Qed.

(** The sampled tokens of a request, without those of partial prompts. *)
Definition valid_tokens (s : StepInput) (w : GPUModelRunner) (sampled : list (list Z)) : string -> list Z :=
  fun id => if discarded (rn_requests w) (num_scheduled_tokens s) id then [] else taken (req_id_to_index (input_batch w)) 0 sampled id.

(** What sampling gives: a list per request, with room for its tokens; a request with draft tokens gets at least one. *)
Record samples_ok (s : StepInput) (drafts : gmap string (list Z)) (w : GPUModelRunner) (sampled : list (list Z)) : Prop := {
  sm_length : length sampled = num_reqs (input_batch w);
  sm_room : forall id r, rn_requests w !! id = Some r -> cs_num_tokens r + length (valid_tokens s w sampled id) <= ib_max_model_len (input_batch w);
  sm_drafts : forall id, id ∈ dom (batch_map (input_batch w)) -> default [] (drafts !! id) <> [] -> valid_tokens s w sampled id <> []
}.

Lemma settled_taken s w sampled id : ib_core (input_batch w) -> length sampled = length (_req_ids (input_batch w)) ->
  taken (req_id_to_index (input_batch w)) 0 (settled_samples (rn_requests w) (num_scheduled_tokens s) (_req_ids (input_batch w)) sampled) id = valid_tokens s w sampled id.
Proof.
  intros Hb Hl. unfold valid_tokens, taken. destruct (req_id_to_index (input_batch w) !! id) as [j|] eqn:Hj; [|by destruct (discarded _ _ _)].
  cbn. rewrite Nat.sub_0_r. unfold settled_samples. rewrite lookup_zip_with. apply (oc_index _ Hb) in Hj. rewrite Hj. cbn.
  destruct (lookup_lt_is_Some_2 sampled j) as [t Ht]; [rewrite Hl; by eapply lookup_lt_Some|]. rewrite Ht. by destruct (discarded _ _ _).
Qed.

Lemma wp_bookkeeping s drafts w sampled : runner_ok drafts w -> dom (batch_map (input_batch w)) = dom (num_scheduled_tokens s) ->
  samples_ok s drafts w sampled ->
  wp (bookkeeping_sync s sampled) (fun valid w' => runner_ok ∅ w' /\ _req_ids (input_batch w') = _req_ids (input_batch w) /\
    same_limits (input_batch w) (input_batch w') /\ outputs_taken (valid_tokens s w sampled) (rn_requests w) (rn_requests w') /\
    valid = settled_samples (rn_requests w) (num_scheduled_tokens s) (_req_ids (input_batch w)) sampled) noexc w.
Proof.
  intros Hw Hdom [S1 S2 S3]. pose proof (ok_core _ (ro_batch _ _ Hw)) as Hb.
  destruct (idle_condensed _ (ro_batch _ _ Hw)) as (Hlen & Hn & _); [by rewrite (ro_builder _ _ Hw)|]. rewrite <-Hlen in S1.
  assert (all_known (rn_requests w) (num_scheduled_tokens s) (_req_ids (input_batch w))) as Hknown.
  { apply Forall_lookup. intros i x Hx. destruct x as [id|]; [|by apply Hn in Hx]. exists id.
    assert (id ∈ dom (batch_map (input_batch w))) as Hid by (rewrite batch_map_dom by done; apply (oc_index _ Hb) in Hx; apply elem_of_dom; eauto).
    split_and!; [done| |by apply elem_of_dom; rewrite <-Hdom]. apply elem_of_dom in Hid as [v Hv].
    destruct (ro_mirrors _ _ Hw id v Hv) as (r & _ & ? & _). eauto. }
  pose proof (settled_run _ _ _ sampled Hknown S1) as Hrun. apply bind_Ok in Hrun as (l & Hl & Hclear).
  unfold bookkeeping_sync. do 3 wp_step. eapply wp_lift; [exact Hl|]. cbn beta. wp_step. eapply wp_lift; [exact Hclear|]. cbn beta. wp_step.
  eapply wp_mono; [apply (wp_record_all _ 0 drafts w Hw)| |done].
  - unfold settled_samples. rewrite length_zip_with. lia.
  - intros id r Hr. rewrite settled_taken by done. by apply S2.
  - intros _ w' (drafts' & G1 & G2 & G3 & G4 & G5). wp_step. split_and!; [|done|done| |done].
    + destruct G1 as [Q1 Q2 Q3 Q4]. split; [done..|]. intros id v Hv. destruct (Q4 id v Hv) as (r & p & Hr & Hp & ->). exists r, p. split_and!; [done..|].
      rewrite lookup_empty. cbn. f_equal. rewrite G5, settled_taken by done. case_decide as Hd; [|done].
      assert (id ∈ dom (batch_map (input_batch w))) as Hid.
      { rewrite batch_map_dom by done. pose proof (elem_of_dom_2 _ _ _ Hv) as Hin. rewrite batch_map_dom in Hin by apply Q1. apply elem_of_dom in Hin as [i Hi].
        apply (oc_index _ (ok_core _ Q1)) in Hi. rewrite G2 in Hi. apply (oc_index _ Hb) in Hi. apply elem_of_dom. eauto. }
      destruct (default [] (drafts !! id)) eqn:E; [done|]. exfalso. eapply (S3 id Hid); [by rewrite E|done].
    + intros id. rewrite G4, settled_taken by done. done.
Qed.

(** * The properties of a step *)


(** C15: The dictionaries of the logits processors follow the batch.  Whatever a processor keeps per request (built by [new_state] from
    the parameters and the prompt of an added request), if its dictionary has, at every index of the batch, the entry of the
    request there, then so it has after [_update_states] and [process_dict_updates] with the update returned: whatever requests
    were removed, added, moved to fill gaps and swapped, the entries of others are where their requests are and nothing else is left. *)
Theorem logits_entries_follow (order : gset string -> list string) has_groups dcp threshold s w
    {T} (new_state : BatchSampling -> list Z -> string -> option T) (d : gmap nat T) (ent : string -> option T) :
  (forall l x, x ∈ order l <-> x ∈ l) -> reorder_ok dcp threshold -> runner_ok ∅ w -> step_ok s w ->
  (forall i, d !! i = _req_ids (input_batch w) !! i ≫= fun o => o ≫= ent) ->
  exists u w', update_states order true has_groups dcp threshold s w = (Ok u, w') /\
    forall i, process_dict_updates new_state d u !! i = _req_ids (input_batch w') !! i ≫= fun o => o ≫= fun id =>
      if decide (id ∈ added_ids s w) then r ← rn_requests w' !! id; p ← cs_sampling_params r; new_state p (cs_prompt_token_ids r) id else ent id.
Proof.
  intros Ho Hr Hw Hs Hd. destruct (wp_noexc_run _ _ _ (wp_update_states order Ho has_groups dcp threshold Hr s w Hw Hs))
    as (u & w' & Hrun & _ & _ & _ & _ & _ & _ & _ & H). exists u, w'. split; [done|]. apply (H T new_state d ent).
  split; rewrite (ro_builder _ _ Hw); [exact Hd|]. by intros m ?%elem_of_nil.
Qed.

(** Reordering for attention backends.  On a batch without gaps whose requests are scheduled, the reordering does not raise; the
    requests are the same, each with the same view, in another order: those with at most [threshold] tokens before all others. *)
Theorem decodes_come_first threshold scheduled w : runner_ok ∅ w -> all_scheduled scheduled (input_batch w) ->
  exists modified b', reorder_batch_to_split_decodes_and_prefills scheduled threshold (input_batch w) = (Ok modified, b') /\
    _req_ids b' ≡ₚ _req_ids (input_batch w) /\ (forall id, req_view b' id = req_view (input_batch w) id) /\
    exists num_decodes, forall i id n, _req_ids b' !! i = Some (Some id) -> scheduled !! id = Some n -> (n <= threshold <-> i < num_decodes).
Proof.
  intros Hw Hs. set (b := input_batch w) in *. pose proof (ok_core _ (ro_batch _ _ Hw)) as Hb.
  assert (condensed b) as Hc by (apply idle_condensed; [apply Hw|exact (f_equal _removed (ro_builder _ _ Hw))]).
  destruct (wp_noexc_run _ _ _ (wp_reorder threshold scheduled b noexc Hb Hc Hs)) as (m & b' & Hrun & [Hsl Hc' _] & _ & k & _ & Hk).
  exists m, b'. split; [done|]. split; [|split; [apply Hsl|]].
  - assert (forall b, ib_core b -> condensed b -> NoDup (_req_ids b)) as Hnd.
    { clear. intros b Hb (_ & Hn & _). apply NoDup_alt. intros i j [id|] Hi Hj; [|by apply Hn in Hi].
      apply (oc_index b Hb) in Hi, Hj. congruence. }
    assert (forall b id, ib_core b -> Some id ∈ _req_ids b <-> id ∈ dom (req_id_to_index b)) as Hin.
    { clear. intros b id Hb. rewrite list_elem_of_lookup, elem_of_dom. split; intros [i Hi]; exists i; by apply (oc_index b Hb). }
    assert (forall b, condensed b -> None ∉ _req_ids b) as Hno by (clear; intros b (_ & Hn & _) [i Hi]%list_elem_of_lookup; by apply Hn in Hi).
    apply NoDup_Permutation; [by apply Hnd; [apply Hsl|]|by apply Hnd|]. intros [id|].
    + rewrite !Hin, (sl_dom _ _ Hsl) by (done || apply Hsl). done.
    + split; intros Hx; by apply Hno in Hx.
  - exists k. intros i id n Hi Hn. rewrite <-Hk. unfold is_decode. split; [intros; by exists id, n|].
    intros (id' & n' & Hi' & Hn' & ?). simplify_eq. done.
Qed.

(** ** Reachable workers *)

(** A worker as constructed. *)
Definition worker_init (max_num_reqs max_model_len max_tokens vocab_size : nat) (spec_decode : bool) (block_sizes : list nat)
    (num_speculative_tokens dcp_world_size dcp_rank : nat) (cells : SamplingCells) : GPUModelRunner :=
  mkModelRunner ∅ (input_batch_init max_num_reqs max_model_len max_tokens vocab_size spec_decode false block_sizes num_speculative_tokens
    dcp_world_size dcp_rank cells) ∅.

Lemma worker_init_ok R L T V sp bs k w n cells : runner_ok ∅ (worker_init R L T V sp bs k w n cells).
Proof.
  split; cbn; [|done| |]; [|by intros id r ?%lookup_empty_Some|intros id v; rewrite batch_map_lookup; done].
  split; cbn; [split; cbn| | |done]; try done; try lia.
  - by rewrite length_replicate.
  - intros i r Hi. apply lookup_replicate in Hi as [-> _]. cbn. rewrite length_replicate. lia.
  - apply Forall_fmap, Forall_forall. intros b _. split; [apply bt_init_ok|done].
  - intros id [[? Hx]|[? Hx]]; by rewrite lookup_empty in Hx.
  - intros i. rewrite lookup_nil. split; [by intros ?%elem_of_nil|done].
  - constructor.
Qed.

(** The draft tokens of a step that are written to the batch. *)
Definition step_drafts_kept (s : StepInput) (w : GPUModelRunner) : gmap string (list Z) := map_imap (fun id _ => Some (kept_drafts s w id)) (num_scheduled_tokens s).

Section runs.
Context (order : gset string -> list string) (has_groups : bool) (dcp : nat) (threshold : option nat).

(** The workers that steps reach, with inputs as the scheduler makes them. *)
Inductive worker_reachable : GPUModelRunner -> Prop :=
| wr_start R L T V sp bs k w n cells : worker_reachable (worker_init R L T V sp bs k w n cells)
| wr_step w s u w1 sampled valid w2 : worker_reachable w -> step_ok s w ->
    update_states order true has_groups dcp threshold s w = (Ok u, w1) ->
    samples_ok s (step_drafts_kept s w) w1 sampled ->
    bookkeeping_sync s sampled w1 = (Ok valid, w2) -> worker_reachable w2.
End runs.

(** C7: Every worker that steps reach, from construction on, mirrors its cached states between steps; and from such a worker the next
    step runs without an exception: [_update_states], and, for tokens sampled for its requests, the bookkeeping, which drops the
    tokens of requests with a partial prompt and puts those of the others behind the outputs of their request. *)
Theorem worker_invariant (order : gset string -> list string) has_groups dcp threshold w :
  (forall l x, x ∈ order l <-> x ∈ l) -> reorder_ok dcp threshold -> worker_reachable order has_groups dcp threshold w ->
  runner_ok ∅ w /\ forall s sampled, step_ok s w ->
    exists u w1, update_states order true has_groups dcp threshold s w = (Ok u, w1) /\
      (samples_ok s (step_drafts_kept s w) w1 sampled ->
       exists w2, bookkeeping_sync s sampled w1 =
           (Ok (settled_samples (rn_requests w1) (num_scheduled_tokens s) (_req_ids (input_batch w1)) sampled), w2) /\
         _req_ids (input_batch w2) = _req_ids (input_batch w1) /\
         forall id, rn_requests w2 !! id = with_outputs (valid_tokens s w1 sampled id) <$> rn_requests w1 !! id).
Proof.
  intros Ho Hr Hw.
  assert (forall w s, runner_ok ∅ w -> step_ok s w -> exists u w1, update_states order true has_groups dcp threshold s w = (Ok u, w1) /\
    forall sampled, samples_ok s (step_drafts_kept s w) w1 sampled -> wp (bookkeeping_sync s sampled) (fun valid w2 => runner_ok ∅ w2 /\
      _req_ids (input_batch w2) = _req_ids (input_batch w1) /\ outputs_taken (valid_tokens s w1 sampled) (rn_requests w1) (rn_requests w2) /\
      valid = settled_samples (rn_requests w1) (num_scheduled_tokens s) (_req_ids (input_batch w1)) sampled) noexc w1) as Hstep.
  { clear Hw w. intros w s Hw Hs. destruct (wp_noexc_run _ _ _ (wp_update_states order Ho has_groups dcp threshold Hr s w Hw Hs))
      as (u & w1 & Hrun & drafts & H1 & H2 & _ & _ & H5 & _). exists u, w1. split; [done|]. intros sampled [S1 S2 S3].
    assert (samples_ok s drafts w1 sampled) as Hsm.
    { split; [done..|]. intros id Hid Hdr. apply S3; [done|]. rewrite H5 in Hid. apply elem_of_dom in Hid as [n Hn].
      unfold step_drafts_kept. rewrite map_lookup_imap, Hn. cbn. by rewrite <-H2. }
    eapply wp_mono; [by apply (wp_bookkeeping s drafts w1 sampled)| |done]. intros v w2 (G1 & G2 & _ & G4 & G5). done. }
  assert (runner_ok ∅ w) as Hok.
  { induction Hw as [|w s u w1 sampled valid w2 _ IH Hs Hu Hsm Hb]; [apply worker_init_ok|].
    destruct (Hstep w s IH Hs) as (u' & w1' & Hu' & H). rewrite Hu in Hu'. injection Hu' as <- <-.
    destruct (wp_noexc_run _ _ _ (H sampled Hsm)) as (valid' & w2' & Hb' & Hok & _). rewrite Hb in Hb'. by injection Hb' as <- <-. }
  split; [done|]. intros s sampled Hs. destruct (Hstep w s Hok Hs) as (u & w1 & Hu & H). exists u, w1. split; [done|].
  intros Hsm. destruct (wp_noexc_run _ _ _ (H sampled Hsm)) as (v & w2 & Hb & _ & H1 & H2 & ->). eauto.
Qed.

(** * A small worker

    Three requests of at most eight tokens, blocks of two tokens.  The first step adds all three and swaps [b], the
    only one with a single token, to the front; in the second [a] is finished, [c] moves to its index, and, since [b] has two draft
    tokens, to the front. *)
Module WorkerCases.
Definition cells : SamplingCells := mkCells 1 1 0 0 0 1 1.
Definition greedy (allowed : list Z) : BatchSampling := mkBatchSampling true 0 1 0 0 0 1 0 None None allowed [] [] 0 [].
Definition w0 : GPUModelRunner := worker_init 3 8 16 30 true [2] 2 1 0 cells.
Definition new_req (id : string) (prompt : list Z) (blocks : list Z) : NewRequestData :=
  mkNewReq id prompt (Some (greedy [])) None None [blocks] 0 None.
Definition step1 : StepInput :=
  mkStepInput [new_req "a" [1; 2; 3]%Z [4; 5]%Z; new_req "b" [6]%Z [7]%Z; new_req "c" [8; 9]%Z [2]%Z] []
    {["a" := 3; "b" := 1; "c" := 2]} ∅ ∅ [].
Definition sampled1 : list (list Z) := [[11]; [12]; [13]]%Z.
Definition step2 : StepInput :=
  mkStepInput [] [mkCachedReq "b" false [] (Some [[3]]%Z) 1; mkCachedReq "c" false [] (Some [[8]]%Z) 2]
    {["b" := 3; "c" := 1]} {["b" := [21; 22]%Z]} {["a"]} [].
Definition order (s : gset string) : list string := elements s.
Definition update (s : StepInput) : M GPUModelRunner (option BatchUpdate) := update_states order true true 1 (Some 1) s.
Definition w1 : GPUModelRunner := (update step1 w0).2.
Definition w2 : GPUModelRunner := (bookkeeping_sync step1 sampled1 w1).2.
Definition w3 : GPUModelRunner := (update step2 w2).2.

Example step2_moves : (update step2 w2).1 = Ok (Some (mkBatchUpdate 2 [] [] [(2, 1, UNIDIRECTIONAL); (0, 1, SWAP)])) /\ _req_ids (input_batch w3) = [Some "c"; Some "b"].
Proof. vm_compute. done. Qed.

Lemma order_elem l x : x ∈ order l <-> x ∈ l.
Proof. apply elem_of_elements. Qed.

Lemma greedy_allowed n : allowed_ok n (greedy []).
Proof. apply Forall_nil_2. Qed.

Lemma step1_ok : step_ok step1 w0.
Proof.
  split.
  - intros q Hq. assert (q = new_req "a" [1; 2; 3]%Z [4; 5]%Z \/ q = new_req "b" [6]%Z [7]%Z \/ q = new_req "c" [8; 9]%Z [2]%Z) as Hq' by set_solver.
    clear Hq. split; [|by destruct Hq' as [->|[->| ->]]; vm_compute].
    destruct Hq' as [->|[->| ->]]; (split; [done|by eexists; split; [|apply greedy_allowed]|vm_compute; lia|repeat constructor; vm_compute; lia]).
  - apply (bool_decide_unpack _). by vm_compute.
  - by intros q ?%elem_of_nil.
  - by vm_compute.
  - vm_compute. lia.
Qed.

Lemma reorder_one : reorder_ok 1 (Some 1).
Proof. right. by left. Qed.

Lemma after_step1 : exists u, update step1 w0 = (Ok u, w1) /\ runner_ok ∅ w1.
Proof.
  destruct (wp_noexc_run _ _ _ (wp_update_states order order_elem true 1 (Some 1) reorder_one step1 w0 (worker_init_ok _ _ _ _ _ _ _ _ _ _) step1_ok))
    as (u & w' & Hrun & drafts & H1 & H2 & _). assert (w' = w1) as -> by (unfold w1, update; by rewrite Hrun). exists u. split; [exact Hrun|].
  destruct H1 as [Q1 Q2 Q3 Q4]. split; [done..|]. intros id v Hv. destruct (Q4 id v Hv) as (r & p & Hr & Hp & ->). exists r, p. split_and!; [done..|].
  by rewrite H2.
Qed.

Lemma sampled1_ok drafts : (forall id, default [] (drafts !! id) = []) -> samples_ok step1 drafts w1 sampled1.
Proof.
  intros Hd. split; [vm_compute; reflexivity| |intros id _ Hne; destruct (Hne (Hd id))]. intros id r Hr.
  assert (id ∈ dom (rn_requests w1)) as Hid by (apply elem_of_dom; eauto). assert (dom (rn_requests w1) = {["a"; "b"; "c"]}) as Hdom by (vm_compute; reflexivity).
  rewrite Hdom in Hid. assert (id = "a" \/ id = "b" \/ id = "c") as Hc by (clear -Hid; set_solver). clear -Hr Hc.
  destruct Hc as [->|[->| ->]]; vm_compute in Hr; injection Hr as <-; vm_compute; lia.
Qed.

Lemma after_sampled1 : bookkeeping_sync step1 sampled1 w1 = (Ok sampled1, w2) /\ runner_ok ∅ w2.
Proof.
  destruct after_step1 as (u & _ & Hok). destruct (wp_noexc_run _ _ _ (wp_bookkeeping step1 ∅ w1 sampled1 Hok ltac:(by vm_compute) (sampled1_ok ∅ ltac:(by intros id; rewrite lookup_empty))))
    as (v & w' & Hrun & H1 & _). assert (w' = w2) as -> by (unfold w2; by rewrite Hrun). split; [|done]. rewrite Hrun. f_equal. f_equal.
  assert (v = match (bookkeeping_sync step1 sampled1 w1).1 with Ok v => v | _ => [] end) as -> by by rewrite Hrun. by vm_compute.
Qed.

Lemma small_ok w id r (prompt blocks : list Z) : cs_req_id r = id -> cs_sampling_params r = Some (greedy []) -> length prompt <= 8 -> cs_num_tokens r = length prompt ->
  cs_block_ids r = [blocks] -> length blocks <= 4 -> ib_max_model_len (input_batch w) = 8 ->
  max_num_blocks_per_req <$> ib_block_table (input_batch w) = [4] -> request_ok (input_batch w) id r.
Proof.
  intros H1 H2 H3 H4 H5 H6 H7 H8. split; [done|by exists (greedy []); split; [|apply greedy_allowed]|lia|]. unfold blocks_fit. rewrite H5.
  destruct (ib_block_table (input_batch w)) as [|t [|]]; try done. cbn in H8. constructor; [|constructor]. injection H8 as ->. done.
Qed.

Definition kept_b : CachedRequestState := mkCachedState "b" [6]%Z (Some (greedy [])) None None [[7]]%Z 0 [11]%Z None.
Definition kept_c : CachedRequestState := mkCachedState "c" [8; 9]%Z (Some (greedy [])) None None [[2]]%Z 0 [13]%Z None.

Lemma kept_states : rn_requests w2 !! "b" = Some kept_b /\ rn_requests w2 !! "c" = Some kept_c.
Proof. split; vm_compute; reflexivity. Qed.

Lemma step2_ok : step_ok step2 w2.
Proof.
  split.
  - by intros q ?%elem_of_nil.
  - apply (bool_decide_unpack _). by vm_compute.
  - intros q Hq. assert (q = mkCachedReq "b" false [] (Some [[3]]%Z) 1 \/ q = mkCachedReq "c" false [] (Some [[8]]%Z) 2) as [->| ->] by set_solver;
      (split; [apply (bool_decide_unpack _); by vm_compute|]).
    + exists kept_b. split; [apply kept_states|]. split; [|discriminate|intros new Hn; injection Hn as <-; vm_compute; reflexivity|vm_compute; lia].
      apply (small_ok _ _ _ [6; 11]%Z [7; 3]%Z); vm_compute; lia || reflexivity.
    + exists kept_c. split; [apply kept_states|]. split; [|discriminate|intros new Hn; injection Hn as <-; vm_compute; reflexivity|vm_compute; lia].
      apply (small_ok _ _ _ [8; 9; 13]%Z [2; 8]%Z); vm_compute; lia || reflexivity.
  - vm_compute. reflexivity.
  - vm_compute. lia.
Qed.


(** A processor that keeps the first token of the prompt, of every request but [a]. *)
Definition first_token : BatchSampling -> list Z -> string -> option Z := fun _ prompt id => if decide (id = "a") then None else head prompt.

Lemma logits_entries_follow_witness :
  let d := process_dict_updates first_token {[0 := 6%Z; 2 := 8%Z]} (match (update step2 w2).1 with Ok u => u | _ => None end) in
  d !! 0 = Some 8%Z /\ d !! 1 = Some 6%Z /\ d !! 2 = None.
Proof.
  destruct (logits_entries_follow order true 1 (Some 1) step2 w2 first_token {[0 := 6%Z; 2 := 8%Z]}
    (fun id => if decide (id = "b") then Some 6%Z else if decide (id = "c") then Some 8%Z else None) order_elem reorder_one (proj2 after_sampled1) step2_ok)
    as (u & w' & Hrun & H).
  - intros i. assert (_req_ids (input_batch w2) = [Some "b"; Some "a"; Some "c"]) as -> by (vm_compute; reflexivity). do 3 (destruct i as [|i]; [done|]). by rewrite lookup_insert_ne, lookup_singleton_ne by lia.
  - unfold update. rewrite Hrun. cbn [fst]. rewrite !H. assert (w' = w3) as -> by (unfold w3, update; by rewrite Hrun).
    assert (_req_ids (input_batch w3) = [Some "c"; Some "b"]) as -> by (vm_compute; reflexivity). assert (added_ids step2 w2 = []) as -> by (vm_compute; reflexivity).
    split_and!; reflexivity.
Defined.

Lemma decodes_come_first_witness : exists m b', reorder_batch_to_split_decodes_and_prefills {["b" := 4; "a" := 1; "c" := 1]} 1 (input_batch w2) = (Ok m, b') /\
  _req_ids b' ≡ₚ _req_ids (input_batch w2).
Proof.
  destruct (decodes_come_first 1 {["b" := 4; "a" := 1; "c" := 1]} w2 (proj2 after_sampled1)) as (m & b' & Hrun & Hp & _); [|by eauto].
  intros x Hx. assert (_req_ids (input_batch w2) = [Some "b"; Some "a"; Some "c"]) as Hids by (vm_compute; reflexivity). rewrite Hids in Hx.
  assert (x = Some "b" \/ x = Some "a" \/ x = Some "c") as Hc by (clear -Hx; set_solver). destruct Hc as [->|[->| ->]].
  - exists "b", 4; split; vm_compute; reflexivity.
  - exists "a", 1; split; vm_compute; reflexivity.
  - exists "c", 1; split; vm_compute; reflexivity.
Defined.

Lemma worker_invariant_witness : worker_reachable order true 1 (Some 1) w2 /\ exists u w', update step2 w2 = (Ok u, w').
Proof.
  assert (worker_reachable order true 1 (Some 1) w2) as Hw.
  { destruct after_step1 as (u & Hu & _). eapply (wr_step _ _ _ _ w0 step1 u w1 sampled1 sampled1 w2); [constructor|apply step1_ok|exact Hu| |apply after_sampled1].
    apply sampled1_ok. intros id. unfold step_drafts_kept. rewrite map_lookup_imap. by destruct (num_scheduled_tokens step1 !! id). }
  split; [exact Hw|]. destruct (worker_invariant order true 1 (Some 1) w2 order_elem reorder_one Hw) as [_ H].
  destruct (H step2 [] step2_ok) as (u & w' & Hu & _). eauto.
Defined.
End WorkerCases.
