(* ===== verification/RunnerInputs.v ===== *)
(** The inputs of the model: [_prepare_inputs] and [_calc_spec_decode_metadata] give the model the scheduled tokens of every
    request, with their positions and slots. *)
From stdpp Require Import base gmap sets list strings.
From Stdlib Require Import ZArith QArith Lia.
From S2P Require Import Prelude NumpyArrays Request BlockTable InputBatch InputBatchFacts BatchSteps ModelRunner BatchReorder ModelRunnerFacts RunnerSteps.
Open Scope nat_scope.

(** * Sums and ranges *)

Lemma row_start_all ns : row_start ns (length ns) = sum_list ns.
Proof. unfold row_start. by rewrite firstn_all. Qed.

Lemma run_cumsum_lookup ns i : i < length ns -> cumsum (counts ns) !! i = Some (Z.of_nat (row_start ns (S i))).
Proof. intros Hi. unfold cumsum. by rewrite cumsum_from_lookup. Qed.

Lemma run_cumsum_length ns : length (cumsum (counts ns)) = length ns.
Proof. unfold cumsum. by rewrite cumsum_length_from, length_fmap. Qed.

Lemma cumsum_last ns : ns <> [] -> index_at (cumsum (counts ns)) (-1) = Ok (Z.of_nat (sum_list ns)).
Proof.
  intros Hne. assert (0 < length ns) as Hl by (destruct ns; [done|cbn; lia]). unfold index_at. rewrite run_cumsum_length. cbn.
  rewrite (proj2 (Z.ltb_ge (-1 + Z.of_nat (length ns)) 0)) by lia. apply at_index_ok.
  replace (Z.to_nat (-1 + Z.of_nat (length ns))) with (length ns - 1) by lia. rewrite run_cumsum_lookup by lia.
  replace (S (length ns - 1)) with (length ns) by lia. by rewrite row_start_all.
Qed.

Lemma cumsum_and_arange al ns : ns <> [] -> sum_list ns <= al ->
  get_cumsum_and_arange al (counts ns) = Ok (cumsum (counts ns), aranges ns).
Proof.
  intros Hne Hal. unfold get_cumsum_and_arange. rewrite cumsum_last by done. cbn. rewrite Nat2Z.id, Nat.min_l by done.
  unfold cumsum. rewrite cumsum_starts. change (fun i => (0 + Z.of_nat (row_start ns i))%Z) with (fun i => Z.of_nat (row_start ns i)). pose proof (seq_sub_starts ns 0) as Hs. cbn in Hs.
  rewrite length_fmap, length_seq, repeat_each_length, Nat.eqb_refl by (by rewrite length_fmap, length_seq). by rewrite Hs.
Qed.

(** * Draft tokens *)

(** The last [d] elements. *)
Definition tail_of (d : nat) (l : list Z) : list Z := drop (length l - d) l.

(** The positions of the last [S d] tokens of every request, in the flat inputs. *)
Definition sample_positions (ns ds : list nat) : list Z :=
  concat (imap (fun i d => (fun j => Z.of_nat (row_start ns (S i) - S d + j)) <$> seq 0 (S d)) ds).

Lemma sub_succ_lists ns ds : Forall2 (fun n d => S d <= n) ns ds ->
  zip_with Z.sub (cumsum (counts ns)) (Z.succ <$> counts ds) = imap (fun i d => Z.of_nat (row_start ns (S i) - S d)) ds.
Proof.
  intros H. pose proof (Forall2_length _ _ _ H) as Hl. apply list_eq. intros i. rewrite lookup_zip_with, list_lookup_imap, !list_lookup_fmap.
  destruct (ds !! i) as [d|] eqn:Hd; cbn.
  - destruct (Forall2_lookup_r _ _ _ _ _ H Hd) as (n & Hn & Hle). rewrite run_cumsum_lookup by (by eapply lookup_lt_Some). cbn. f_equal.
    rewrite (row_start_S _ _ _ Hn). lia.
  - by destruct (cumsum (counts ns) !! i).
Qed.

Lemma zip_with_imap_r {A B C} (f : nat -> A -> B) (g : B -> A -> C) (l : list A) : zip_with g (imap f l) l = imap (fun i x => g (f i x) x) l.
Proof. apply list_eq. intros i. rewrite lookup_zip_with, !list_lookup_imap. by destruct (l !! i). Qed.

Lemma counts_succ ds : Z.succ <$> counts ds = counts (S <$> ds).
Proof. rewrite <-!list_fmap_compose. apply list_fmap_ext. intros _ d _. cbn. lia. Qed.

Lemma concat_imap_ext {A B} (f g : nat -> A -> list B) (l : list A) : (forall i x, l !! i = Some x -> f i x = g i x) -> concat (imap f l) = concat (imap g l).
Proof. intros H. f_equal. apply list_eq. intros i. rewrite !list_lookup_imap. destruct (l !! i) as [x|] eqn:Hx; [|done]. cbn. f_equal. by apply H. Qed.

(** An index per row and offset. *)
Lemma repeat_each_rows (vs : nat -> nat -> nat) (ds ms : list nat) : length ds = length ms ->
  zip_with Z.add (repeat_each (imap (fun i d => Z.of_nat (vs i d)) ds) (counts ms)) (aranges ms) =
  concat (imap (fun i d => (fun j => Z.of_nat (vs i d + j)) <$> seq 0 (default 0 (ms !! i))) ds).
Proof.
  intros Hl. rewrite repeat_each_add by (by rewrite length_imap). f_equal. apply list_eq. intros i. rewrite lookup_zip_with, !list_lookup_imap.
  destruct (ds !! i) as [d|] eqn:Hd; [|done]. destruct (lookup_lt_is_Some_2 ms i) as [m Hm]; [rewrite <-Hl; by eapply lookup_lt_Some|].
  cbn. rewrite Hm. cbn. f_equal. apply list_fmap_ext. intros _ j _. lia.
Qed.

Lemma take_rows_of {A} (ls : list (list A)) (ds : list nat) rest (k m : nat -> nat -> nat) : length ds = length ls ->
  (forall i l d, ls !! i = Some l -> ds !! i = Some d -> k i d + m i d <= length l) ->
  take_at (concat ls ++ rest) (concat (imap (fun i d => (fun j => Z.of_nat (row_start (length <$> ls) i + k i d + j)) <$> seq 0 (m i d)) ds)) =
    Ok (concat (imap (fun i d => take (m i d) (drop (k i d) (default [] (ls !! i)))) ds)).
Proof.
  intros Hl Hkm. pose proof (take_rows ls rest (fun i => k i (default 0 (ds !! i))) (fun i => m i (default 0 (ds !! i)))) as H.
  assert (forall B (f : nat -> nat -> B), imap f ds = imap (fun i _ => f i (default 0 (ds !! i))) ls) as He.
  { intros B f. apply list_eq. intros i. rewrite !list_lookup_imap. destruct (ds !! i) as [d|] eqn:Hd, (ls !! i) as [l|] eqn:Hl'; try done;
      [apply lookup_lt_Some in Hd; apply lookup_ge_None in Hl'|apply lookup_lt_Some in Hl'; apply lookup_ge_None in Hd]; lia. }
  rewrite !He, H.
  - f_equal. apply concat_imap_ext. intros i l Hi. by rewrite Hi.
  - intros i l Hi. destruct (lookup_lt_is_Some_2 ds i) as [d Hd]; [rewrite Hl; by eapply lookup_lt_Some|]. rewrite Hd. by apply (Hkm i l d).
Qed.

Lemma imap_default {A B} (f : nat -> A -> B) (l : list A) (x0 : A) : imap f l = imap (fun i _ => f i (default x0 (l !! i))) l.
Proof. apply list_eq. intros i. rewrite !list_lookup_imap. by destruct (l !! i). Qed.

Lemma fmap_concat {A B} (f : A -> B) (ls : list (list A)) : list_fmap A B f (concat ls) = concat (list_fmap _ _ (list_fmap A B f) ls).
Proof. induction ls as [|l ls IH]; [done|]. cbn. rewrite <-IH. apply fmap_app. Qed.

Section metadata.
Context (al : nat) (ls : list (list Z)) (rest : list Z) (ds : list nat).
Context (Hfit : Forall2 (fun l d => S d <= length l) ls ds).

Notation ns := (length <$> ls).
Notation sampled := (S <$> ds).

(** The positions of the tokens of a request, and its last tokens, as many as it has draft tokens and one more. *)
Definition position_rows : list (list Z) := imap (fun i d => (fun j => Z.of_nat (row_start ns (S i) - S d + j)) <$> seq 0 (S d)) ds.
Definition token_rows : list (list Z) := zip_with (fun d l => tail_of (S d) l) ds ls.

Lemma fit_at i d : ds !! i = Some d -> exists l, ls !! i = Some l /\ S d <= length l /\ row_start ns (S i) = row_start ns i + length l.
Proof.
  intros Hd. destruct (Forall2_lookup_r _ _ _ _ _ Hfit Hd) as (l & Hl & Hle). exists l. split_and!; [done..|]. apply row_start_S. by rewrite list_lookup_fmap, Hl.
Qed.

Lemma position_rows_length : length <$> position_rows = sampled.
Proof.
  apply list_eq. intros i. unfold position_rows. rewrite !list_lookup_fmap, list_lookup_imap. destruct (ds !! i); [|done]. cbn. by rewrite length_fmap, length_seq.
Qed.

Lemma token_rows_length : length <$> token_rows = sampled.
Proof.
  apply list_eq. intros i. unfold token_rows. rewrite !list_lookup_fmap, lookup_zip_with. destruct (ds !! i) as [d|] eqn:Hd; [|done]. cbn.
  destruct (fit_at i d Hd) as (l & -> & Hle & _). cbn. unfold tail_of. rewrite length_drop. f_equal. lia.
Qed.

Lemma take_sampled : take_at (concat ls ++ rest) (concat position_rows) = Ok (concat token_rows).
Proof.
  pose proof (take_rows_of ls ds rest (fun i d => length (default [] (ls !! i)) - S d) (fun _ d => S d)) as H. unfold position_rows, token_rows.
  assert (concat (imap (fun i d => (fun j => Z.of_nat (row_start ns (S i) - S d + j)) <$> seq 0 (S d)) ds) =
    concat (imap (fun i d => (fun j => Z.of_nat (row_start ns i + (length (default [] (ls !! i)) - S d) + j)) <$> seq 0 (S d)) ds)) as ->.
  { apply concat_imap_ext. intros i d Hd. destruct (fit_at i d Hd) as (l & -> & Hle & ->). cbn [default]. apply list_fmap_ext. intros _ j _. unfold id. lia. }
  rewrite H.
  - f_equal. f_equal. apply list_eq. intros i. rewrite list_lookup_imap, lookup_zip_with. destruct (ds !! i) as [d|] eqn:Hd; [|done].
    destruct (fit_at i d Hd) as (l & -> & Hle & _). cbn [default fmap option_fmap option_map mbind option_bind from_option]. f_equal. unfold tail_of, id. apply take_ge. rewrite length_drop. lia.
  - symmetry. by eapply Forall2_length.
  - intros i l d Hl Hd. rewrite Hl. cbn. destruct (fit_at i d Hd) as (l' & Hl' & Hle & _). simplify_eq. unfold id. lia.
Qed.

(** The indices of the tokens after the first of each row, less one, in a list with rows of these lengths. *)
Definition target_rows : list Z := concat (imap (fun i d => (fun j => Z.of_nat (row_start sampled i + j)) <$> seq 0 d) ds).

Lemma take_targets {A} (rows : list (list A)) (o : nat) : length <$> rows = sampled -> o <= 1 ->
  take_at (concat rows) ((fun z => z + Z.of_nat o)%Z <$> target_rows) = Ok (concat (zip_with (fun d row => take d (drop o row)) ds rows)).
Proof.
  intros Hr Ho. assert (length ds = length rows) as Hl by (apply (f_equal length) in Hr; rewrite !length_fmap in Hr; done).
  assert (forall i d row, ds !! i = Some d -> rows !! i = Some row -> length row = S d) as Hlen.
  { intros i d row Hd Hrow. apply (f_equal (fun l => l !! i)) in Hr. rewrite !list_lookup_fmap, Hd, Hrow in Hr. by injection Hr. }
  pose proof (take_rows_of rows ds [] (fun _ _ => o) (fun _ d => d) Hl) as H. rewrite app_nil_r, Hr in H.
  assert ((fun z => z + Z.of_nat o)%Z <$> target_rows = concat (imap (fun i d => (fun j => Z.of_nat (row_start sampled i + o + j)) <$> seq 0 d) ds)) as ->.
  { unfold target_rows. rewrite (fmap_concat _ (imap _ ds)), (fmap_imap _ (list_fmap _ _ _)). apply concat_imap_ext. intros i d _. cbn. rewrite <-list_fmap_compose.
    apply list_fmap_ext. intros _ j _. cbn. lia. }
  rewrite H.
  - f_equal. f_equal. apply list_eq. intros i. rewrite list_lookup_imap, lookup_zip_with. destruct (ds !! i) as [d|] eqn:Hd; [|done]. cbn.
    destruct (rows !! i) as [row|] eqn:Hrow; [done|]. apply lookup_lt_Some in Hd. apply lookup_ge_None in Hrow. lia.
  - intros i row d Hrow Hd. rewrite (Hlen i d row Hd Hrow). lia.
Qed.
End metadata.

Lemma starts_imap (ns : list nat) : zip_with Z.sub (cumsum (counts ns)) (counts ns) = (fun i => Z.of_nat (row_start ns i)) <$> seq 0 (length ns).
Proof. unfold cumsum. rewrite cumsum_starts. by apply list_fmap_ext. Qed.

Lemma imap_seq {A B} (f : nat -> B) (l : list A) : f <$> seq 0 (length l) = imap (fun i _ => f i) l.
Proof.
  apply list_eq. intros i. rewrite list_lookup_fmap, list_lookup_imap. destruct (decide (i < length l)) as [Hi|Hi].
  - rewrite lookup_seq_lt by done. destruct (lookup_lt_is_Some_2 l i Hi) as [x Hx]. by rewrite Hx.
  - by rewrite !lookup_ge_None_2 by (rewrite ?length_seq; lia).
Qed.

Lemma tail_drop d (l : list Z) : S d <= length l -> drop 1 (tail_of (S d) l) = tail_of d l.
Proof. intros Hl. unfold tail_of. rewrite drop_drop. f_equal. lia. Qed.

(** The metadata in closed form. *)
Lemma metadata_run al ls rest ds : ds <> [] -> Forall2 (fun l d => S d <= length l) ls ds -> sum_list (S <$> ds) <= al ->
  calc_spec_decode_metadata al (concat ls ++ rest) (counts ds) (cumsum (counts (length <$> ls))) =
    Ok (mkSpecMeta (concat (zip_with tail_of ds ls)) (counts ds) (cumsum (counts ds)) (target_rows ds) (Z.pred <$> cumsum (counts (S <$> ds)))
          (concat (position_rows ls ds))).
Proof.
  intros Hne Hfit Hal. unfold calc_spec_decode_metadata. rewrite counts_succ. pose proof (Forall2_length _ _ _ Hfit) as Hl.
  assert (sum_list ds <= sum_list (S <$> ds)) as Hsum by (clear; induction ds as [|d ds IH]; [done|]; cbn in *; unfold id in *; lia).
  rewrite (cumsum_and_arange al (S <$> ds)) by (done || by destruct ds). cbn [mbind outcome_bind].
  rewrite (cumsum_and_arange al ds) by (done || lia). cbn [mbind outcome_bind].
  assert (zip_with Z.add (repeat_each (zip_with Z.sub (cumsum (counts (length <$> ls))) (counts (S <$> ds))) (counts (S <$> ds))) (aranges (S <$> ds))
    = concat (position_rows ls ds)) as ->.
  { rewrite <-counts_succ, sub_succ_lists by (apply Forall2_fmap_l, Hfit). rewrite counts_succ, (repeat_each_rows (fun i d => row_start (length <$> ls) (S i) - S d)) by (by rewrite length_fmap).
    apply concat_imap_ext. intros i d Hd. rewrite list_lookup_fmap, Hd. done. }
  assert (zip_with Z.add (repeat_each (zip_with Z.sub (cumsum (counts (S <$> ds))) (counts (S <$> ds))) (counts ds)) (aranges ds) = target_rows ds) as ->.
  { rewrite starts_imap, length_fmap, (imap_seq _ ds), (repeat_each_rows (fun i _ => row_start (S <$> ds) i)) by done.
    apply concat_imap_ext. intros i d Hd. by rewrite Hd. }
  rewrite (take_sampled ls rest ds Hfit). cbn [mbind outcome_bind].
  assert (Z.succ <$> target_rows ds = (fun z => z + Z.of_nat 1)%Z <$> target_rows ds) as -> by by apply list_fmap_ext.
  rewrite (take_targets ds (token_rows ls ds) 1) by (by apply token_rows_length || lia). cbn [mbind outcome_bind]. f_equal. f_equal. f_equal.
  apply list_eq. intros i. unfold token_rows. rewrite !lookup_zip_with. destruct (ds !! i) as [d|] eqn:Hd; [|done]. cbn.
  destruct (fit_at ls ds Hfit i d Hd) as (l & -> & Hle & _). cbn. f_equal. rewrite tail_drop by done. apply take_ge. unfold tail_of. rewrite length_drop. lia.
Qed.

(** C40: The metadata of speculative decoding.  For inputs that are the scheduled tokens of the requests one after the other, more of them
    than draft tokens, the logits taken are those at the last positions of each request, one more than it has draft
    tokens; the draft tokens are the last of each request; the target logits of a draft token are those at the position
    before it, and the bonus logits of a request those at its last position. *)
Theorem spec_metadata_exact al ls rest ds : ds <> [] -> Forall2 (fun l d => S d <= length l) ls ds -> sum_list (S <$> ds) <= al ->
  exists meta, calc_spec_decode_metadata al (concat ls ++ rest) (counts ds) (cumsum (counts (length <$> ls))) = Ok meta /\
    take_at (concat ls ++ rest) (logits_indices meta) = Ok (concat (zip_with (fun d l => tail_of (S d) l) ds ls)) /\
    draft_token_ids meta = concat (zip_with tail_of ds ls) /\
    take_at (logits_indices meta) (target_logits_indices meta) =
      Ok (concat (imap (fun i d => (fun j => Z.of_nat (row_start (length <$> ls) (S i) - S d + j)) <$> seq 0 d) ds)) /\
    take_at (logits_indices meta) (bonus_logits_indices meta) =
      Ok ((fun i => Z.of_nat (row_start (length <$> ls) (S i) - 1)) <$> seq 0 (length ds)).
Proof.
  intros Hne Hfit Hal. eexists. split; [by apply metadata_run|]. cbn [logits_indices draft_token_ids target_logits_indices bonus_logits_indices].
  split; [by apply take_sampled|]. split; [done|]. split.
  - pose proof (take_targets ds (position_rows ls ds) 0 (position_rows_length ls ds) ltac:(lia)) as H.
    assert ((fun z => z + Z.of_nat 0)%Z <$> target_rows ds = target_rows ds) as E.
    { rewrite <-(list_fmap_id (target_rows ds)) at 2. apply list_fmap_ext. intros _ z _. cbn. unfold id. lia. }
    rewrite E in H. rewrite H. f_equal. f_equal. apply list_eq. intros i. unfold position_rows. rewrite lookup_zip_with, !list_lookup_imap.
    destruct (ds !! i) as [d|]; [|done]. cbn [fmap option_fmap option_map mbind option_bind]. f_equal.
    rewrite drop_0, seq_S, fmap_app. apply take_app_length'. by rewrite length_fmap, length_seq.
  - apply take_at_forall2. apply Forall2_fmap, Forall2_same_length_lookup. split; [by rewrite run_cumsum_length, length_seq, length_fmap|].
    intros i z j Hz Hj. apply lookup_seq in Hj as [-> Hj]. cbn in Hj. cbn [Nat.add]. rewrite run_cumsum_lookup in Hz by (by rewrite length_fmap). injection Hz as <-.
    destruct (lookup_lt_is_Some_2 ds i Hj) as [d Hd]. destruct (fit_at ls ds Hfit i d Hd) as (l & Hl & Hle & Hrs).
    assert ((S <$> ds) !! i = Some (S d)) as Hsd by (by rewrite list_lookup_fmap, Hd). rewrite (row_start_S _ _ _ Hsd).
    apply index_at_ok; [lia|]. replace (Z.to_nat (Z.pred (Z.of_nat (row_start (S <$> ds) i + S d)))) with (row_start (S <$> ds) i + d) by lia.
    rewrite <-(position_rows_length ls ds).
    apply (concat_lookup (position_rows ls ds) i ((fun j => Z.of_nat (row_start (length <$> ls) (S i) - S d + j)) <$> seq 0 (S d))).
    + unfold position_rows. by rewrite list_lookup_imap, Hd.
    + rewrite list_lookup_fmap, lookup_seq_lt by lia. cbn. f_equal. lia.
Qed.

Lemma spec_metadata_exact_witness : exists meta, calc_spec_decode_metadata 16 [7; 21; 22; 9; 5; 8; 0; 0]%Z [2; 0; 1]%Z [3; 4; 6]%Z = Ok meta /\
  draft_token_ids meta = [21; 22; 8]%Z /\ logits_indices meta = [0; 1; 2; 3; 4; 5]%Z.
Proof.
  destruct (spec_metadata_exact 16 [[7; 21; 22]; [9]; [5; 8]]%Z [0; 0]%Z [2; 0; 1]) as (meta & Hrun & _ & Hd & _).
  - done.
  - repeat constructor.
  - cbn. unfold id. lia.
  - exists meta. split; [exact Hrun|]. split; [exact Hd|]. assert (Ok meta = calc_spec_decode_metadata 16 [7; 21; 22; 9; 5; 8; 0; 0]%Z [2; 0; 1]%Z [3; 4; 6]%Z) as E by (symmetry; exact Hrun).
    vm_compute in E. injection E as ->. reflexivity.
Defined.

(** * The tokens of a step *)

(** The requests of the batch and positions of their scheduled tokens, request by request: [t] tokens of request [i] from position [k] on. *)
Definition token_list (ks ts : list nat) : list (nat * nat) :=
  concat (imap (fun i t => (fun j => (i, default 0 (ks !! i) + j)) <$> seq 0 t) ts).

Lemma zip_indices ts : forall o, zip (repeat_each (seq o (length ts)) (counts ts)) (aranges ts) =
  concat (imap (fun i t => (fun j => (o + i, Z.of_nat j)) <$> seq 0 t) ts).
Proof.
  induction ts as [|t ts IH]; intros o; [done|]. cbn [length seq]. rewrite repeat_each_cons. unfold aranges. cbn [fmap list_fmap concat imap].
  rewrite zip_with_app by (by rewrite length_replicate, length_fmap, length_seq). f_equal.
  - apply list_eq. intros j. rewrite lookup_zip_with, !list_lookup_fmap. destruct (decide (j < t)).
    + rewrite lookup_replicate_2, lookup_seq_lt by done. cbn. by rewrite Nat.add_0_r.
    + by rewrite !lookup_ge_None_2 by (rewrite ?length_replicate, ?length_seq; lia).
  - fold (aranges ts). rewrite (IH (S o)). apply concat_imap_ext. intros i x _. cbn. apply list_fmap_ext. intros _ j _. f_equal. lia.
Qed.

Lemma indices_of_tokens ks ts : repeat_each (seq 0 (length ts)) (counts ts) = (token_list ks ts).*1.
Proof.
  pose proof (f_equal (fmap fst) (zip_indices ts 0)) as H.
  rewrite fst_zip in H by (rewrite repeat_each_length, aranges_length; [done|by rewrite length_seq]). rewrite H. unfold token_list.
  rewrite !(fmap_concat fst (imap _ ts)), !(fmap_imap _ (list_fmap _ _ fst)). apply concat_imap_ext. intros i t _. cbn.
  rewrite <-!list_fmap_compose. by apply list_fmap_ext.
Qed.

Lemma Forall2_concat {A B} (P : A -> B -> Prop) ls ls' : Forall2 (Forall2 P) ls ls' -> Forall2 P (concat ls) (concat ls').
Proof. induction 1; [done|]. by apply Forall2_app. Qed.

Lemma mapM_Ok {A B} (f : A -> outcome B) l l' : Forall2 (fun x y => f x = Ok y) l l' -> mapM f l = Ok l'.
Proof. induction 1 as [|x y l l' Hx _ IH]; [done|]. cbn. rewrite Hx. cbn. by rewrite IH. Qed.

Lemma mapM_positions rows ks ts : (forall i t, ts !! i = Some t -> exists row, rows !! i = Some row /\ ks !! i = Some (row_num_computed_tokens row)) ->
  mapM (position_of rows) (zip (token_list ks ts).*1 (aranges ts)) = Ok (token_list ks ts).*2.
Proof.
  intros Hrows. rewrite <-(indices_of_tokens ks ts), zip_indices. unfold token_list.
  apply mapM_Ok. rewrite (fmap_concat snd (imap _ ts)), (fmap_imap _ (list_fmap _ _ snd)). apply Forall2_concat.
  apply Forall2_same_length_lookup. split; [by rewrite !length_imap|]. intros i x y. rewrite !list_lookup_imap. destruct (ts !! i) as [t|] eqn:Ht; [|done]. cbn.
  intros [= <-] [= <-]. rewrite <-list_fmap_compose. apply Forall2_fmap, Forall_Forall2_diag, Forall_forall. intros j _. cbn. unfold position_of. cbn.
  destruct (Hrows i t Ht) as (row & Hrow & Hk). rewrite (at_index_ok _ _ _ Hrow). cbn. by rewrite Hk, Nat2Z.id.
Qed.

(** The token ids at these places in rows of [L] cells. *)
Lemma take_tokens (rows : list (list Z)) (n L : nat) ks ts : length ts = n -> n <= length rows -> Forall (fun row => length row = L) rows ->
  (forall i t, ts !! i = Some t -> exists k, ks !! i = Some k /\ k + t <= L) ->
  take_at (concat rows) (zip_with (fun p r => Z.of_nat (p + r * L)) (token_list ks ts).*2 (token_list ks ts).*1) =
    Ok (concat (imap (fun i t => take t (drop (default 0 (ks !! i)) (default [] (rows !! i)))) ts)).
Proof.
  intros Hn Hle Hrows Hk. rewrite <-(take_drop n rows), concat_app.
  assert (zip_with (fun p r => Z.of_nat (p + r * L)) (token_list ks ts).*2 (token_list ks ts).*1 =
    concat (imap (fun i t => (fun j => Z.of_nat (row_start (length <$> take n rows) i + default 0 (ks !! i) + j)) <$> seq 0 t) ts)) as ->.
  { assert (forall l : list (nat * nat), zip_with (fun p r => Z.of_nat (p + r * L)) l.*2 l.*1 = (fun x => Z.of_nat (x.2 + x.1 * L)) <$> l) as ->
      by (intros l; induction l as [|[i p] l IH]; [done|]; cbn; by rewrite IH).
    unfold token_list. rewrite (fmap_concat _ (imap _ ts)), (fmap_imap _ (list_fmap _ _ _)). apply concat_imap_ext. intros i t Ht. cbn.
    rewrite <-list_fmap_compose. apply list_fmap_ext. intros _ j _. cbn. f_equal.
    assert (row_start (length <$> take n rows) i = i * L) as ->; [|lia]. unfold row_start. rewrite <-fmap_take.
    apply lookup_lt_Some in Ht. rewrite take_take, Nat.min_l by lia.
    assert (forall l : list (list Z), Forall (fun row => length row = L) l -> sum_list (length <$> l) = length l * L) as Hs.
    { induction 1 as [|x l Hx _ IH]; [done|]. rewrite fmap_cons. change (length x + sum_list (length <$> l) = S (length l) * L). rewrite IH, Hx. lia. }
    rewrite Hs by by apply Forall_take. rewrite length_take. f_equal. lia. }
  rewrite (take_rows_of (take n rows) ts _ (fun i _ => default 0 (ks !! i)) (fun _ t => t)).
  - f_equal. apply concat_imap_ext. intros i t Ht. rewrite take_drop, lookup_take_lt; [done|]. apply lookup_lt_Some in Ht. lia.
  - rewrite length_take. lia.
  - intros i row t Hrow Ht. apply lookup_take_Some in Hrow as [Hrow _]. destruct (Hk i t Ht) as (k & -> & Hle'). cbn.
    by rewrite (Forall_lookup_1 _ _ _ _ Hrows Hrow).
Qed.

Lemma token_list_length ks ts : length (token_list ks ts) = sum_list ts.
Proof.
  rewrite <-(length_fmap fst), <-indices_of_tokens. by rewrite repeat_each_length by (by rewrite length_seq).
Qed.

(** * The slots of a step *)

(** What happens to a table: its rows are copied to the device, and so are the slots of the tokens. *)
Record table_prepared (n : nat) (tokens : list (nat * nat)) (t t' : BlockTable) : Prop := {
  tp_ok : bt_ok t';
  tp_rows : bt_rows t' = bt_rows t;
  tp_reqs : bt_max_num_reqs t' = bt_max_num_reqs t;
  tp_width : max_num_blocks_per_req t' = max_num_blocks_per_req t;
  tp_device : n <= bt_max_num_reqs t -> take n (block_table t') = take n (block_table_cpu t);
  tp_slots : forall j r p b, tokens !! j = Some (r, p) -> entry t r (p / virtual_block_size t) b -> slot_mapping t' !! j = Some (token_slot t p b)
}.

(** A table that can take the tokens. *)
Definition table_ready (tokens : list (nat * nat)) (t : BlockTable) : Prop :=
  0 < bt_block_size t /\ bt_dcp_rank t < bt_dcp_world_size t /\ length tokens <= bt_max_num_batched_tokens t /\ exists ids, batch_blocks t tokens ids.

Definition rows_committed (n : nat) (t : BlockTable) : BlockTable :=
  set_device (take n (block_table_cpu t) ++ drop n (block_table t)) (slot_mapping t) t.
Definition slots_committed (tokens : list (nat * nat)) (ids : list Z) (t : BlockTable) : BlockTable :=
  let m := batch_slots t tokens ids ++ drop (length tokens) (slot_mapping_cpu t) in
  set_device (block_table t) (take (length tokens) m ++ drop (length tokens) (slot_mapping t)) (set_slots m t).

Lemma prepared_table n tokens ids t : bt_ok t -> length tokens <= bt_max_num_batched_tokens t -> batch_blocks t tokens ids ->
  table_prepared n tokens t (slots_committed tokens ids (rows_committed n t)).
Proof.
  intros Ht Hn Hb. pose proof (Forall2_length _ _ _ Hb) as Hl.
  assert (length (batch_slots t tokens ids) = length tokens) as Hs by (unfold batch_slots; rewrite length_zip_with; lia).
  split; try done.
  - destruct Ht as [T1 T2 T3 T4 T5]. split; try done. cbn. change (batch_slots (rows_committed n t) tokens ids) with (batch_slots t tokens ids).
    rewrite length_app, Hs, length_drop. lia.
  - intros Hr. cbn. apply take_app_length'. rewrite length_take, (bo_cpu t Ht). lia.
  - intros j r p b Hj He. change (batch_slots (rows_committed n t) tokens ids) with (batch_slots t tokens ids). pose proof (lookup_lt_Some _ _ _ Hj) as Hlt.
    cbn. change (batch_slots (rows_committed n t) tokens ids) with (batch_slots t tokens ids).
    rewrite take_app_length', lookup_app_l by lia. unfold batch_slots. rewrite lookup_zip_with, Hj.
    destruct (Forall2_lookup_l _ _ _ _ _ Hb Hj) as (b' & Hb' & He'). rewrite Hb'. cbn in *. by rewrite (entry_unique t _ _ _ _ He He').
Qed.

Lemma wp_prepare_tables n tokens ts E : Forall bt_ok ts -> Forall (table_ready tokens) ts ->
  wp (mg_commit_block_table n) (fun _ => wp (mg_compute_slot_mapping tokens.*1 tokens.*2) (fun _ => wp (mg_commit_slot_mapping (length tokens))
    (fun _ ts' => Forall2 (table_prepared n tokens) ts ts') E) E) E ts.
Proof.
  intros Hok Hr. eapply wp_mono; [apply (wp_for_tables _ (fun _ t t' => t' = rows_committed n t))| |done].
  { intros k t _. unfold commit_block_table. by wp_step. }
  intros _ ts1 [L1 H1]. eapply wp_mono; [apply (wp_for_tables _ (fun _ t t' => exists ids, batch_blocks t tokens ids /\
    t' = set_slots (batch_slots t tokens ids ++ drop (length tokens) (slot_mapping_cpu t)) t))| |done].
  { intros k t1 Ht1. destruct (lookup_lt_is_Some_2 ts k) as [t Ht]; [rewrite <-L1; by eapply lookup_lt_Some|]. rewrite (H1 k t t1 Ht Ht1).
    pose proof (Forall_lookup_1 _ _ _ _ Hok Ht) as Hokt. destruct (Forall_lookup_1 _ _ _ _ Hr Ht) as (R1 & R2 & R3 & ids & Hb).
    assert (bt_ok (rows_committed n t)) as Hok1 by (destruct Hokt; by split).
    unfold wp. rewrite (compute_slots_run (rows_committed n t) Hok1 R1 R2 tokens ids Hb R3). eauto. }
  intros _ ts2 [L2 H2]. eapply wp_mono; [apply (wp_for_tables _ (fun _ t t' => t' = set_device (block_table t)
    (take (length tokens) (slot_mapping_cpu t) ++ drop (length tokens) (slot_mapping t)) t))| |done].
  { intros k t _. unfold commit_slot_mapping. by wp_step. }
  intros _ ts3 [L3 H3]. apply Forall2_same_length_lookup. split; [congruence|]. intros k t t3 Ht Ht3.
  destruct (lookup_lt_is_Some_2 ts1 k) as [t1 Ht1]; [rewrite L1; by eapply lookup_lt_Some|].
  destruct (lookup_lt_is_Some_2 ts2 k) as [t2 Ht2]; [rewrite L2; by eapply lookup_lt_Some|].
  rewrite (H3 k t2 t3 Ht2 Ht3). destruct (H2 k t1 t2 Ht1 Ht2) as (ids & Hb & ->). rewrite (H1 k t t1 Ht Ht1) in *.
  destruct (Forall_lookup_1 _ _ _ _ Hr Ht) as (_ & _ & R3 & _). apply (prepared_table n tokens ids t); [by eapply Forall_lookup_1|done|exact Hb].
Qed.

(** * The scheduled tokens of a request *)

Definition batch_ids (b : InputBatch) : list string := omap (fun x => x) (_req_ids b).

Section requests.
Context (s : StepInput) (drafts : gmap string (list Z)) (w : GPUModelRunner).

Definition step_tokens (id : string) : nat := default 0 (num_scheduled_tokens s !! id).
Definition step_start (id : string) : nat := from_option cs_num_computed_tokens 0 (rn_requests w !! id).
Definition step_slice (id : string) : list Z :=
  match rn_requests w !! id with
  | Some r => take (step_tokens id) (drop (cs_num_computed_tokens r) (cs_prompt_token_ids r ++ cs_output_token_ids r ++ default [] (drafts !! id)))
  | None => []
  end.
Definition step_total : nat := sum_list (step_tokens <$> batch_ids (input_batch w)).

(** What the scheduler guarantees: the requests of the batch are the scheduled ones, their tokens are known, and their blocks cover them;
    draft tokens are scheduled up to the last one, behind at least one token. *)
Record inputs_ready (al : nat) : Prop := {
  ir_scheduled : dom (batch_map (input_batch w)) = dom (num_scheduled_tokens s);
  ir_total : 0 < step_total <= al;
  ir_known : forall id r t, rn_requests w !! id = Some r -> num_scheduled_tokens s !! id = Some t ->
    0 < t /\ cs_num_computed_tokens r + t <= cs_num_tokens r + length (default [] (drafts !! id));
  ir_tables : forall g t, ib_block_table (input_batch w) !! g = Some t ->
    0 < bt_block_size t /\ bt_dcp_rank t < bt_dcp_world_size t /\ step_total <= bt_max_num_batched_tokens t;
  ir_blocks : forall id r n g t, rn_requests w !! id = Some r -> num_scheduled_tokens s !! id = Some n -> ib_block_table (input_batch w) !! g = Some t ->
    exists l, cs_block_ids r !! g = Some l /\ cs_num_computed_tokens r + n <= length l * virtual_block_size t /\
      Forall (fun b => 0 <= b /\ b * Z.of_nat (bt_block_size t) < 2 ^ 31)%Z l;
  ir_drafts : forall id l, scheduled_spec_decode_tokens s !! id = Some l -> default [] (drafts !! id) = l /\
    exists r t, rn_requests w !! id = Some r /\ num_scheduled_tokens s !! id = Some t /\ length l < t /\
      cs_num_computed_tokens r + t = cs_num_tokens r + length l
}.
End requests.

(** The row of a request. *)
Lemma request_row drafts w i id : runner_ok drafts w -> _req_ids (input_batch w) !! i = Some (Some id) ->
  exists r p row, rn_requests w !! id = Some r /\ cs_sampling_params r = Some p /\ ib_rows (input_batch w) !! i = Some row /\
    row_num_computed_tokens row = cs_num_computed_tokens r /\ row_num_tokens row = cs_num_tokens r + length (default [] (drafts !! id)) /\
    take (row_num_tokens row) (row_token_ids row) = cs_prompt_token_ids r ++ cs_output_token_ids r ++ default [] (drafts !! id) /\
    row_num_tokens row <= ib_max_model_len (input_batch w) /\ block_rows (ib_block_table (input_batch w)) i = cs_block_ids r.
Proof.
  intros Hw Hi. pose proof (ok_core _ (ro_batch _ _ Hw)) as Hb. apply (oc_index _ Hb) in Hi.
  assert (is_Some (batch_map (input_batch w) !! id)) as [v Hv] by (apply elem_of_dom; rewrite batch_map_dom by done; apply elem_of_dom; eauto).
  destruct (ro_mirrors _ _ Hw id v Hv) as (r & p & Hr & Hp & ->).
  destruct (drafted_row _ id i r p _ Hb Hi Hv) as (row & Hrow & Hn & _ & _ & _ & Hle & Hcell & _).
  exists r, p, row. injection Hcell as C1 _ _ C4 _ _ _ _ C9. split_and!; try done; [by rewrite C1, app_assoc|by rewrite Hn].
Qed.

Lemma take_drop_known (l : list Z) k t n : k + t <= n -> take t (drop k l) = take t (drop k (take n l)).
Proof. intros H. by rewrite !take_drop_commute, take_take, Nat.min_l by lia. Qed.

(** The ids of a batch without gaps. *)
Lemma batch_ids_roster b : condensed b -> _req_ids b = Some <$> batch_ids b.
Proof.
  intros (_ & Hn & _). unfold batch_ids. generalize (_req_ids b), Hn. clear. intros l. induction l as [|[id|] l IH]; intros H; [done| |].
  - cbn. f_equal. apply IH. intros i. apply (H (S i)).
  - by destruct (H 0).
Qed.

Lemma token_list_elem ks ts i p : (i, p) ∈ token_list ks ts <-> exists t j, ts !! i = Some t /\ j < t /\ p = default 0 (ks !! i) + j.
Proof.
  unfold token_list. rewrite list_elem_of_In, in_concat. split.
  - intros (l & Hl & Hx). apply list_elem_of_In, list_elem_of_lookup in Hl as [i' Hl]. rewrite list_lookup_imap in Hl.
    destruct (ts !! i') as [t|] eqn:Ht; [|done]. cbn in Hl. injection Hl as <-. apply list_elem_of_In, list_elem_of_fmap in Hx as (j & [= -> ->] & Hj).
    apply elem_of_seq in Hj. exists t, j. split_and!; [done|lia|done].
  - intros (t & j & Ht & Hj & ->). exists ((fun j => (i, default 0 (ks !! i) + j)) <$> seq 0 t). split; apply list_elem_of_In.
    + apply list_elem_of_lookup. exists i. by rewrite list_lookup_imap, Ht.
    + apply list_elem_of_fmap. exists j. split; [done|]. apply elem_of_seq. lia.
Qed.

Lemma Forall2_choose {A B} (P : A -> B -> Prop) (l : list A) : Forall (fun x => exists y, P x y) l -> exists k, Forall2 P l k.
Proof. induction 1 as [|x l (y & Hy) _ (k & Hk)]; [by exists []|]. exists (y :: k). by constructor. Qed.

Lemma count_drafts_spec (index : gmap string nat) spec : forall (l : list Z), NoDup spec.*1 ->
  (forall id, id ∈ spec.*1 -> exists i, index !! id = Some i /\ i < length l) -> (forall id id' i, index !! id = Some i -> index !! id' = Some i -> id = id') ->
  exists l', count_drafts index spec l = Ok l' /\ length l' = length l /\
    forall id i x, index !! id = Some i -> l !! i = Some x -> l' !! i = Some (from_option (fun d : list Z => Z.of_nat (length d)) x (list_to_map (M := gmap string (list Z)) spec !! id)).
Proof.
  induction spec as [|[id d] spec IH]; intros l Hnd Hin Hinj; cbn [count_drafts]; [by exists l|].
  cbn in Hnd. apply NoDup_cons in Hnd as [Hid Hnd]. destruct (Hin id) as (i & Hi & Hlt); [by left|]. rewrite Hi, store_at_ok by done. cbn.
  destruct (IH (<[i := Z.of_nat (length d)]> l)) as (l' & H1 & H2 & H3); [done| |done|].
  { intros id' Hid'. rewrite length_insert. apply Hin. by right. }
  exists l'. rewrite length_insert in H2. split_and!; [done..|]. intros id' i' x Hi' Hx. destruct (decide (id' = id)) as [->|Hne].
  - rewrite Hi in Hi'. injection Hi' as <-. rewrite (H3 id i _ Hi (list_lookup_insert_eq _ _ _ Hlt)), lookup_insert_eq.
    by rewrite (not_elem_of_list_to_map_1 (M := gmap string)) by done.
  - rewrite lookup_insert_ne by done. apply H3; [done|]. rewrite list_lookup_insert_ne; [done|]. intros ->. by apply Hne, (Hinj id' id i').
Qed.

(** Token [j] of request [i]. *)
Lemma token_list_lookup ks ts i t j : ts !! i = Some t -> j < t -> token_list ks ts !! (row_start ts i + j) = Some (i, default 0 (ks !! i) + j).
Proof.
  intros Ht Hj. unfold token_list.
  assert (length <$> imap (fun i t => (fun j => (i, default 0 (ks !! i) + j)) <$> seq 0 t) ts = ts) as Hl.
  { apply list_eq. intros n. rewrite list_lookup_fmap, list_lookup_imap. destruct (ts !! n); [|done]. cbn. by rewrite length_fmap, length_seq. }
  pose proof (concat_lookup (imap (fun i t => (fun j => (i, default 0 (ks !! i) + j)) <$> seq 0 t) ts) i ((fun j => (i, default 0 (ks !! i) + j)) <$> seq 0 t) j) as H.
  rewrite Hl in H. apply H.
  - by rewrite list_lookup_imap, Ht.
  - by rewrite list_lookup_fmap, lookup_seq_lt.
Qed.

Lemma token_positions (f g : string -> nat) ids : (token_list (f <$> ids) (g <$> ids)).*2 = concat ((fun id => seq (f id) (g id)) <$> ids).
Proof.
  unfold token_list. rewrite (fmap_concat snd (imap _ _)), (fmap_imap _ (list_fmap _ _ snd)). f_equal. apply list_eq. intros i.
  rewrite list_lookup_imap, !list_lookup_fmap. destruct (ids !! i) as [id|] eqn:Hi; [|done]. cbn. f_equal. rewrite <-list_fmap_compose.
  change (fmap (fun j => f id + j) (seq 0 (g id)) = seq (f id) (g id)). by rewrite (fmap_add_seq (f id) 0), Nat.add_0_r.
Qed.

Section prepare.
Context (al : nat) (s : StepInput) (drafts : gmap string (list Z)) (w : GPUModelRunner).
Context (Hw : runner_ok drafts w) (Hr : inputs_ready s drafts w al).

Notation b := (input_batch w).
Notation ids := (batch_ids b).
Notation ks := (step_start w <$> ids).
Notation ts := (step_tokens s <$> ids).
Notation tokens := (token_list ks ts).
Notation slices := (step_slice s drafts w <$> ids).

Let Hb : ib_core b := ok_core _ (ro_batch _ _ Hw).

Lemma ready_condensed : condensed b.
Proof. apply idle_condensed; [apply Hw|]. by rewrite (ro_builder _ _ Hw). Qed.

Lemma roster_ids_eq : _req_ids b = Some <$> ids.
Proof. apply batch_ids_roster, ready_condensed. Qed.

Lemma ids_length : length ids = num_reqs b.
Proof. destruct ready_condensed as (H & _). rewrite <-H, roster_ids_eq. by rewrite length_fmap. Qed.

(** Request [i] of the batch, its row and its tokens. *)
Lemma request_at i id : ids !! i = Some id -> exists r t row, rn_requests w !! id = Some r /\ num_scheduled_tokens s !! id = Some t /\
  ib_rows b !! i = Some row /\ row_num_computed_tokens row = cs_num_computed_tokens r /\ 0 < t /\
  cs_num_computed_tokens r + t <= row_num_tokens row /\ row_num_tokens row <= ib_max_model_len b /\
  take t (drop (cs_num_computed_tokens r) (row_token_ids row)) = step_slice s drafts w id /\
  block_rows (ib_block_table b) i = cs_block_ids r /\ length (step_slice s drafts w id) = t.
Proof.
  intros Hi. assert (_req_ids b !! i = Some (Some id)) as Hro by (by rewrite roster_ids_eq, list_lookup_fmap, Hi).
  destruct (request_row drafts w i id Hw Hro) as (r & p & row & Hreq & _ & Hrow & Hc & Hn & Htok & Hle & Hbl).
  assert (is_Some (num_scheduled_tokens s !! id)) as [t Ht].
  { apply elem_of_dom. rewrite <-(ir_scheduled _ _ _ _ Hr), (batch_map_dom _ Hb). apply elem_of_dom. apply (oc_index _ Hb) in Hro. eauto. }
  destruct (ir_known _ _ _ _ Hr id r t Hreq Ht) as [Hpos Hk]. exists r, t, row.
  assert (length (cs_prompt_token_ids r ++ cs_output_token_ids r ++ default [] (drafts !! id)) = row_num_tokens row) as Hlen by (rewrite !length_app, Hn; unfold cs_num_tokens; lia).
  assert (take t (drop (cs_num_computed_tokens r) (row_token_ids row)) = step_slice s drafts w id) as Hsl.
  { unfold step_slice, step_tokens. rewrite Hreq, Ht. cbn. rewrite (take_drop_known (row_token_ids row) _ _ (row_num_tokens row)) by lia. by rewrite Htok. }
  split_and!; try done; try lia. unfold step_slice, step_tokens. rewrite Hreq, Ht. cbn. rewrite length_take, length_drop. lia.
Qed.

Lemma step_slices_length : length <$> slices = ts.
Proof.
  apply list_eq. intros i. rewrite !list_lookup_fmap. destruct (ids !! i) as [id|] eqn:Hi; [|done]. cbn.
  destruct (request_at i id Hi) as (r & t & row & _ & Ht & _ & _ & _ & _ & _ & _ & _ & ->). unfold step_tokens. by rewrite Ht.
Qed.

Lemma tokens_length : length tokens = step_total s w.
Proof. by rewrite token_list_length. Qed.

(** The block of a token. *)
Lemma token_entry g t i p : ib_block_table b !! g = Some t -> (i, p) ∈ tokens ->
  exists id r l x, ids !! i = Some id /\ rn_requests w !! id = Some r /\ cs_block_ids r !! g = Some l /\ l !! (p / virtual_block_size t) = Some x /\
    entry t i (p / virtual_block_size t) x.
Proof.
  intros Ht Hp. apply token_list_elem in Hp as (n & j & Hn & Hj & ->). rewrite list_lookup_fmap in Hn. apply fmap_Some in Hn as (id & Hid & ->).
  destruct (request_at i id Hid) as (r & n & row & Hreq & Hn & Hrow & _ & _ & _ & _ & _ & Hbl & _).
  destruct (ir_blocks _ _ _ _ Hr id r n g t Hreq Hn Ht) as (l & Hl & Hcov & Hval). destruct (ir_tables _ _ _ _ Hr g t Ht) as (Hbs & Hrank & _).
  rewrite list_lookup_fmap, Hid. cbn [fmap option_fmap option_map default]. unfold step_tokens in Hj. rewrite Hn in Hj. cbn in Hj.
  assert (step_start w id = cs_num_computed_tokens r) as Hk by (unfold step_start; by rewrite Hreq). cbn. rewrite Hk.
  set (p := cs_num_computed_tokens r + j).
  assert (p / virtual_block_size t < length l) as Hlt by (apply Nat.Div0.div_lt_upper_bound; lia).
  destruct (lookup_lt_is_Some_2 l _ Hlt) as [x Hx]. exists id, r, l, x. split_and!; [done..|]. split.
  - exists l. split; [|done]. apply (f_equal (fun l => l !! g)) in Hbl. unfold block_rows in Hbl. rewrite list_lookup_fmap, Ht, Hl in Hbl.
    cbn in Hbl. injection Hbl as Hbl. destruct (bt_rows t !! i) as [l'|] eqn:E; [by f_equal|]. exfalso. cbn in Hbl. subst l. cbn in Hlt. lia.
  - by apply (Forall_lookup_1 _ _ _ _ Hval Hx).
Qed.

Lemma tables_ready : Forall (table_ready tokens) (ib_block_table b).
Proof.
  apply Forall_lookup. intros g t Ht. destruct (ir_tables _ _ _ _ Hr g t Ht) as (H1 & H2 & H3). split_and!; [done..|by rewrite tokens_length|].
  apply Forall2_choose, Forall_forall. intros [i p] Hip. destruct (token_entry g t i p Ht Hip) as (_ & _ & _ & x & _ & _ & _ & _ & He). by exists x.
Qed.

(** ** Draft tokens *)

Definition step_drafts (id : string) : list Z := default [] (scheduled_spec_decode_tokens s !! id).
Notation ds := (length ∘ step_drafts <$> ids).

Lemma drafts_fit i id : ids !! i = Some id -> S (length (step_drafts id)) <= length (step_slice s drafts w id) /\
  tail_of (length (step_drafts id)) (step_slice s drafts w id) = step_drafts id.
Proof.
  intros Hi. destruct (request_at i id Hi) as (r & t & row & Hreq & Ht & _ & _ & Hpos & Hk & _ & _ & _ & Hlen). rewrite Hlen.
  unfold step_drafts. destruct (scheduled_spec_decode_tokens s !! id) as [l|] eqn:Hl; cbn.
  - destruct (ir_drafts _ _ _ _ Hr id l Hl) as (Hd & r' & t' & Hreq' & Ht' & Hlt & Heq).
    rewrite Hreq in Hreq'. injection Hreq' as <-. rewrite Ht in Ht'. injection Ht' as <-. split; [done|].
    unfold tail_of. rewrite Hlen. unfold step_slice, step_tokens. rewrite Hreq, Ht, Hd. cbn.
    rewrite take_ge by (rewrite length_drop, !length_app; unfold cs_num_tokens in *; lia). rewrite drop_drop, app_assoc.
    apply drop_app_length'. rewrite length_app. unfold cs_num_tokens in *. lia.
  - split; [done|]. unfold tail_of. rewrite Nat.sub_0_r, Hlen. apply drop_ge. lia.
Qed.

Lemma drafts_fit_all : Forall2 (fun l d => S d <= length l) slices ds.
Proof.
  apply Forall2_fmap, Forall_Forall2_diag, Forall_lookup. intros i id Hi. cbn. by apply (drafts_fit i).
Qed.

Lemma drafts_sum : sum_list (S <$> ds) <= al.
Proof.
  transitivity (sum_list (length <$> slices)); [|rewrite step_slices_length; apply Hr]. pose proof drafts_fit_all as H.
  induction H as [|l d ls ds Hld _ IH]; [done|]. cbn in *. unfold id in *. lia.
Qed.

Lemma step_count_drafts : exists l, count_drafts (req_id_to_index b) (map_to_list (scheduled_spec_decode_tokens s)) (replicate (num_reqs b) 0%Z) = Ok l /\ l = counts ds.
Proof.
  assert (forall id, is_Some (scheduled_spec_decode_tokens s !! id) -> exists i, req_id_to_index b !! id = Some i /\ i < num_reqs b) as Hin.
  { intros id [l Hl]. destruct (ir_drafts _ _ _ _ Hr id l Hl) as (_ & _ & t & _ & Ht & _).
    apply elem_of_dom_2 in Ht. rewrite <-(ir_scheduled _ _ _ _ Hr), (batch_map_dom _ Hb) in Ht. apply elem_of_dom in Ht as [i Hi]. exists i. split; [done|].
    apply (oc_index _ Hb) in Hi. destruct ready_condensed as (<- & _). by eapply lookup_lt_Some. }
  destruct (count_drafts_spec (req_id_to_index b) (map_to_list (scheduled_spec_decode_tokens s)) (replicate (num_reqs b) 0%Z)) as (l & H1 & H2 & H3).
  - apply NoDup_fst_map_to_list.
  - intros id ([id' d] & -> & Hd)%list_elem_of_fmap. apply elem_of_map_to_list in Hd. rewrite length_replicate. apply Hin. by exists d.
  - intros id id' i Hi Hi'. apply (oc_index _ Hb) in Hi, Hi'. congruence.
  - exists l. split; [done|]. rewrite length_replicate in H2. apply list_eq_same_length with (n := num_reqs b); [by rewrite !length_fmap, ids_length|done|].
    intros i x y Hi Hx Hy. rewrite !list_lookup_fmap in Hy. destruct (ids !! i) as [id|] eqn:Hid; [|done]. cbn in Hy. injection Hy as <-.
    assert (req_id_to_index b !! id = Some i) as Hix by (apply (oc_index _ Hb); by rewrite roster_ids_eq, list_lookup_fmap, Hid).
    rewrite (H3 id i 0%Z Hix (lookup_replicate_2 _ _ _ Hi)), list_to_map_to_list in Hx. injection Hx as <-. unfold step_drafts.
    by destruct (scheduled_spec_decode_tokens s !! id).
Qed.

Lemma step_metadata rest : ids <> [] -> calc_spec_decode_metadata al (concat slices ++ rest) (counts ds) (cumsum (counts ts)) =
  Ok (mkSpecMeta (concat (step_drafts <$> ids)) (counts ds) (cumsum (counts ds)) (target_rows ds) (Z.pred <$> cumsum (counts (S <$> ds)))
    (concat (position_rows slices ds))).
Proof.
  intros Hne. rewrite <-step_slices_length, metadata_run; [|by destruct ids|apply drafts_fit_all|apply drafts_sum]. f_equal. f_equal. f_equal.
  apply list_eq. intros i. rewrite lookup_zip_with, !list_lookup_fmap. destruct (ids !! i) as [id|] eqn:Hi; [|done]. cbn. f_equal. by apply (drafts_fit i).
Qed.

(** ** The inputs *)

Lemma step_scheduled : mapM (scheduled_of (num_scheduled_tokens s)) (_req_ids b) = Ok ts.
Proof.
  apply mapM_Ok. rewrite roster_ids_eq. apply Forall2_fmap, Forall_Forall2_diag, Forall_lookup. intros i id Hi.
  destruct (request_at i id Hi) as (r & t & row & _ & Ht & _). unfold scheduled_of, step_tokens. cbn. by rewrite Ht.
Qed.

Lemma step_cells i t : ts !! i = Some t -> exists row, ib_rows b !! i = Some row /\ ks !! i = Some (row_num_computed_tokens row).
Proof.
  intros Ht. rewrite list_lookup_fmap in Ht. apply fmap_Some in Ht as (id & Hid & _). destruct (request_at i id Hid) as (r & n & row & Hreq & _ & Hrow & Hc & _).
  exists row. split; [done|]. rewrite list_lookup_fmap, Hid. cbn. unfold step_start. by rewrite Hreq, Hc.
Qed.

Lemma step_inputs_cpu : take_at (concat (row_token_ids <$> ib_rows b)) (zip_with (fun p r => Z.of_nat (p + r * ib_max_model_len b)) tokens.*2 tokens.*1) = Ok (concat slices).
Proof.
  rewrite (take_tokens _ (num_reqs b)).
  - f_equal. f_equal. apply list_eq. intros i. rewrite list_lookup_imap, !list_lookup_fmap. destruct (ids !! i) as [id|] eqn:Hi; [|done]. cbn. f_equal.
    destruct (request_at i id Hi) as (r & t & row & Hreq & Ht & Hrow & _ & _ & _ & _ & Hsl & _). rewrite Hrow. cbn.
    unfold step_start, step_tokens at 1. by rewrite Hreq, Ht.
  - by rewrite length_fmap, ids_length.
  - rewrite length_fmap, (oc_rows _ Hb). destruct ready_condensed as (<- & _). apply (oc_fits _ Hb).
  - apply Forall_fmap, Forall_lookup. intros i row Hrow. by apply (oc_row _ Hb i row).
  - intros i t Ht. rewrite list_lookup_fmap in Ht. apply fmap_Some in Ht as (id & Hid & ->).
    destruct (request_at i id Hid) as (r & t & row & Hreq & Ht & _ & _ & _ & Hk & Hle & _). rewrite list_lookup_fmap, Hid. eexists. split; [done|].
    unfold step_start, step_tokens. rewrite Hreq, Ht. cbn. lia.
Qed.

Lemma step_seq_lens : zip_with (fun row t => Z.of_nat (row_num_computed_tokens row + t)) (take (num_reqs b) (ib_rows b)) ts =
  (fun id => Z.of_nat (step_start w id + step_tokens s id)) <$> ids.
Proof.
  apply list_eq. intros i. rewrite lookup_zip_with, !list_lookup_fmap. destruct (ids !! i) as [id|] eqn:Hi; cbn; [|by destruct (take _ _ !! i)].
  destruct (request_at i id Hi) as (r & t & row & Hreq & _ & Hrow & Hc & _). rewrite lookup_take_lt by (rewrite <-ids_length; by eapply lookup_lt_Some).
  rewrite Hrow. cbn. unfold step_start. by rewrite Hreq, Hc.
Qed.

(** The result of [_prepare_inputs]. *)
Definition step_inputs (gpu : list Z) : ModelInputs :=
  let meta := mkSpecMeta (concat (step_drafts <$> ids)) (counts ds) (cumsum (counts ds)) (target_rows ds) (Z.pred <$> cumsum (counts (S <$> ds)))
    (concat (position_rows slices ds)) in
  let spec := negb (size (scheduled_spec_decode_tokens s) =? 0) in
  mkInputs tokens.*2 (concat slices ++ drop (step_total s w) gpu)
    (0%Z :: cumsum (counts ts) ++ replicate (ib_max_num_reqs b - num_reqs b) (Z.of_nat (step_total s w)))
    (((fun id => Z.of_nat (step_start w id + step_tokens s id)) <$> ids) ++ replicate (ib_max_num_reqs b - num_reqs b) 0%Z)
    (if spec then logits_indices meta else Z.pred <$> cumsum (counts ts)) (if spec then Some meta else None).

Lemma wp_prepare_inputs items gpu : wp (prepare_inputs al s (step_total s w) None items gpu) (fun inputs b' => inputs = step_inputs gpu /\
  exists tables, b' = set_tables tables b /\ Forall2 (table_prepared (num_reqs b) tokens) (ib_block_table b) tables) noexc b.
Proof.
  destruct (ir_total _ _ _ _ Hr) as [Hpos Hal]. pose proof tokens_length as Htl.
  assert (ids <> []) as Hne by (intros E; unfold step_total in Hpos; rewrite E in Hpos; cbn in Hpos; lia).
  assert (ts <> []) as Hnt by (by destruct ids).
  assert (num_reqs b = length ids) as Hn by by rewrite ids_length.
  unfold prepare_inputs. wp_step. apply wp_assertM; [by apply Nat.ltb_lt|]. do 2 wp_step. cbv zeta. wp_step.
  apply wp_assertM; [apply Nat.ltb_lt; rewrite Hn; destruct ids; [done|cbn; lia]|].
  assert (Forall bt_ok (ib_block_table b)) as Hts by (eapply Forall_impl; [apply (oc_tables _ Hb)|]; by intros t [? _]).
  pose proof (wp_prepare_tables (num_reqs b) tokens (ib_block_table b) noexc Hts tables_ready) as Htab. clear Hts.
  wp_step. apply wp_on_tables. eapply wp_mono; [exact Htab| |by intros ? ? []]. clear Htab. intros [] ts1 Htab. cbn beta in Htab. cbn beta.
  wp_step. eapply wp_lift; [apply step_scheduled|]. cbn beta. wp_step.
  eapply wp_lift; [by apply cumsum_and_arange|]. cbn beta iota. wp_step.
  assert (repeat_each (seq 0 (num_reqs b)) (counts ts) = tokens.*1) as Hidx by (rewrite <-(indices_of_tokens ks ts), Hn; by rewrite length_fmap).
  rewrite !Hidx.
  eapply wp_lift; [apply mapM_positions, step_cells|]. cbn beta. wp_step.
  rewrite length_fmap, Htl, Nat.eqb_refl. wp_step. wp_step.
  eapply wp_lift; [apply step_inputs_cpu|]. cbn beta. wp_step.
  apply wp_on_tables. cbn [ib_block_table set_tables]. eapply wp_mono; [exact Htab| |by intros ? ? []]. clear Htab. intros [] ts2 Htab. cbn beta in Htab. cbn beta.
  wp_step. apply wp_on_tables. rewrite <-Htl. eapply wp_mono; [exact Htab| |by intros ? ? []]. clear Htab. intros [] ts3 Htab. cbn beta in Htab. cbn beta. rewrite Htl.
  wp_step. eapply wp_lift; [by apply cumsum_last|]. cbn beta. wp_step.
  assert (length (concat slices) = step_total s w) as Hcl by (rewrite length_concat_sum; by rewrite step_slices_length).
  eapply (wp_lift _ (concat slices ++ drop (step_total s w) gpu)).
  { unfold prepare_input_ids, copy_to_gpu. by rewrite take_ge by lia. }
  rewrite step_seq_lens. assert (exists tables, set_tables ts3 (set_tables ts2 (set_tables ts1 b)) = set_tables tables b /\
    Forall2 (table_prepared (num_reqs b) tokens) (ib_block_table b) tables) as Hend by by exists ts3.
  unfold step_inputs. destruct (Nat.eqb_spec (size (scheduled_spec_decode_tokens s)) 0) as [_|Hsp]; cbv zeta; cbn [negb].
  - wp_step. by split.
  - destruct step_count_drafts as (l & Hcd & ->). wp_step. eapply wp_lift; [exact Hcd|]. cbn beta. wp_step.
    eapply wp_lift; [by apply step_metadata|]. cbn beta. wp_step. by split.
Qed.
End prepare.


(** The second step of the small worker: one token of [c], three of [b], of which two are draft tokens. *)
Module InputCases.
Import WorkerCases.

Lemma step3_states : dom (rn_requests w3) = {["b"; "c"]} /\
  rn_requests w3 !! "b" = Some (mkCachedState "b" [6]%Z (Some (greedy [])) None None [[7; 3]]%Z 1 [11]%Z None) /\
  rn_requests w3 !! "c" = Some (mkCachedState "c" [8; 9]%Z (Some (greedy [])) None None [[2; 8]]%Z 2 [13]%Z None).
Proof. split; [|split]; vm_compute; reflexivity. Qed.

Lemma step3_tables g t : ib_block_table (input_batch w3) !! g = Some t -> g = 0 /\ bt_block_size t = 2 /\ bt_dcp_rank t = 0 /\ bt_dcp_world_size t = 1 /\
  bt_max_num_batched_tokens t = 16.
Proof.
  intros Ht. assert ((fun t => (bt_block_size t, bt_dcp_rank t, bt_dcp_world_size t, bt_max_num_batched_tokens t)) <$> ib_block_table (input_batch w3) = [(2, 0, 1, 16)]) as H
    by (vm_compute; reflexivity).
  apply (f_equal (fun l => l !! g)) in H. rewrite list_lookup_fmap, Ht in H. clear Ht. destruct g as [|[|]]; [|done..]. cbn in H. injection H as H1 H2 H3 H4. done.
Qed.

Lemma step3_ok : exists drafts, runner_ok drafts w3 /\ inputs_ready step2 drafts w3 64.
Proof.
  destruct (wp_noexc_run _ _ _ (wp_update_states order order_elem true 1 (Some 1) reorder_one step2 w2 (proj2 after_sampled1) step2_ok))
    as (u & w' & Hrun & drafts & Hok & Hd & _ & _ & Hdom & _). assert (w' = w3) as -> by (unfold w3, update; by rewrite Hrun). clear Hrun.
  exists drafts. split; [done|]. destruct step3_states as (Hkeys & Hb & Hc).
  assert (kept_drafts step2 w2 "b" = [21; 22]%Z) as Hdb by (vm_compute; reflexivity). assert (kept_drafts step2 w2 "c" = []) as Hdc by (vm_compute; reflexivity).
  assert (forall id r, rn_requests w3 !! id = Some r -> id = "b" \/ id = "c") as Hid.
  { intros id r Hr%elem_of_dom_2. rewrite Hkeys in Hr. clear -Hr. set_solver. }
  split; [done|vm_compute; lia|..].
  - intros id r t Hr Ht. rewrite Hd. destruct (Hid id r Hr) as [->| ->].
    + rewrite Hdb. rewrite Hb in Hr. injection Hr as <-. vm_compute in Ht. injection Ht as <-. cbn. unfold cs_num_tokens. cbn. lia.
    + rewrite Hdc. rewrite Hc in Hr. injection Hr as <-. vm_compute in Ht. injection Ht as <-. cbn. unfold cs_num_tokens. cbn. lia.
  - intros g t Ht. destruct (step3_tables g t Ht) as (_ & -> & -> & -> & ->). split_and!; [lia|lia|]. vm_compute. lia.
  - intros id r n g t Hr Hn Ht. destruct (step3_tables g t Ht) as (-> & Hbs & _ & Hdcp & _). unfold virtual_block_size. rewrite Hbs, Hdcp. destruct (Hid id r Hr) as [->| ->].
    + rewrite Hb in Hr. injection Hr as <-. vm_compute in Hn. injection Hn as <-. exists [7; 3]%Z. split; [done|]. cbn. split; [lia|]. repeat constructor; lia.
    + rewrite Hc in Hr. injection Hr as <-. vm_compute in Hn. injection Hn as <-. exists [2; 8]%Z. split; [done|]. cbn. split; [lia|]. repeat constructor; lia.
  - intros id l Hl. change (({["b" := [21; 22]%Z]} : gmap string (list Z)) !! id = Some l) in Hl. apply lookup_singleton_Some in Hl as [<- <-]. split; [by rewrite Hd|]. eexists _, 3. split_and!; [exact Hb|vm_compute; reflexivity|cbn; lia|].
    unfold cs_num_tokens. cbn. lia.
Qed.

End InputCases.

(** Runs in which the batch does not show what was asked for: the mask of allowed tokens, which the invariant does not cover, and draft
    tokens of a request that was not in the batch. *)
Module BatchCases.
Import WorkerCases.

Definition start4 : GPUModelRunner := worker_init 3 8 16 4 true [2] 2 1 0 cells.
Definition req (id : string) (prompt : list Z) (allowed : list Z) : NewRequestData :=
  mkNewReq id prompt (Some (greedy allowed)) None None [[1]]%Z 0 None.
Definition run (threshold : option nat) (s : StepInput) (w : GPUModelRunner) : GPUModelRunner :=
  (update_states order true true 1 threshold s w).2.

(** [swap_states] exchanges the rows of the mask through views: both get the row of the second request.  Here [a] may use token 1
    only, and its restriction is lost. *)
Example swap_loses_mask :
  let w := run (Some 1) (mkStepInput [req "a" [1; 2]%Z [1]%Z; req "b" [3]%Z []] [] {["a" := 2; "b" := 1]} ∅ ∅ []) start4 in
  _req_ids (input_batch w) = [Some "b"; Some "a"] /\ has_allowed_token_ids (ib_sets (input_batch w)) = {["a"]} /\
  allowed_token_ids_mask (input_batch w) = Some (replicate 3 (replicate 4 false)).
Proof. vm_compute. done. Qed.

(** [condense] leaves the row of a moved request at its old index, and [add_request] does not clear it: [d], which may use all
    tokens, gets the mask of [c]. *)
Example condense_leaves_mask :
  let w1 := run None (mkStepInput [req "a" [1]%Z []; req "b" [2]%Z []; req "c" [3]%Z [1]%Z] [] {["a" := 1; "b" := 1; "c" := 1]} ∅ ∅ []) start4 in
  let w2 := run None (mkStepInput [] [mkCachedReq "b" false [] None 1; mkCachedReq "c" false [] None 1] {["b" := 1; "c" := 1]} ∅ {["a"]} []) w1 in
  let w3 := run None (mkStepInput [req "d" [3]%Z []] [mkCachedReq "b" false [] None 1; mkCachedReq "c" false [] None 1] {["b" := 1; "c" := 1; "d" := 1]} ∅ ∅ []) w2 in
  _req_ids (input_batch w3) = [Some "c"; Some "b"; Some "d"] /\ has_allowed_token_ids (ib_sets (input_batch w3)) = {["c"]} /\
  allowed_token_ids_mask (input_batch w3) = Some [[true; false; true; true]; replicate 4 false; [true; false; true; true]].
Proof. vm_compute. done. Qed.

(** A running request that a step leaves out is added again when it is next scheduled, without its draft tokens: the model is given what
    the row holds behind its tokens. *)
Example readded_without_drafts :
  let w1 := run None (mkStepInput [req "a" [1]%Z []; req "b" [2]%Z []] [] {["a" := 1; "b" := 1]} ∅ ∅ []) start4 in
  let w2 := (bookkeeping_sync (mkStepInput [] [] {["a" := 1; "b" := 1]} ∅ ∅ []) [[5]; [6]]%Z w1).2 in
  let w3 := run None (mkStepInput [] [mkCachedReq "b" false [] None 1] {["b" := 1]} ∅ ∅ []) w2 in
  let s := mkStepInput [] [mkCachedReq "a" false [] (Some [[2]]%Z) 1] {["a" := 3]} {["a" := [21; 22]%Z]} ∅ [] in
  let w4 := run None s w3 in
  match (prepare_inputs 64 s 3 None [] [] (input_batch w4)).1 with
  | Ok inputs => take 3 (in_input_ids inputs) = [5; 0; 0]%Z /\ draft_token_ids <$> in_spec_decode_metadata inputs = Some [0; 0]%Z
  | _ => False
  end.
Proof. vm_compute. done. Qed.
End BatchCases.
