(* ===== verification/RabitqOps.v ===== *)
(** The integer kernels of the RaBitQ backend: [vllm/v1/attention/backends/rabitq_ops.py] (the mask
    update, the binary dot products) and [pack_binary_to_int32] of
    [vllm/v1/attention/backends/rabitq.py].

    A Triton launch runs one program per grid point.  The programs of a launch run concurrently, so the
    mask kernel is modelled by all the interleavings of the stores its programs make, the stores of one
    program in program order; the dot-product kernels write disjoint cells and are functions of the grid
    point.  Buffers are lists of integers; a masked load gives 0 where its mask is false. *)
From stdpp Require Import base list.
From Stdlib Require Import ZArith Lia.
From S2P Require Import Prelude.
Open Scope Z_scope.

(** * Buffers *)

(** [tl.load(ptr + off, mask=.., other=0)]. *)
Definition tl_load (buf : list Z) (off : Z) (mask : bool) : Z := if mask then buf !!! Z.to_nat off else 0.

(** [base + tl.arange(0, n)]. *)
Definition lanes (base : Z) (n : nat) : list Z := (fun i => base + Z.of_nat i) <$> seq 0 n.

Definition store_cell {A} (buf : list A) (e : Z * A) : list A := <[Z.to_nat e.1 := e.2]> buf.

(** * Updating the top-k mask *)

(** The stores of program [pid] of [rabitq_update_mask_kernel], in program order. *)
Definition rabitq_update_mask_kernel (indices : list Z) (num_quantized pending_start total_tokens : Z)
    (BLOCK_SIZE : nat) (pid : nat) : list (Z * Z) :=
  let base := Z.of_nat pid * Z.of_nat BLOCK_SIZE in
  let offsets := lanes base BLOCK_SIZE in
  let num_indices := Z.of_nat (length indices) in
  omap (fun o => if o <? total_tokens then Some (o, 0) else None) offsets
  ++ omap (fun o =>
       let idx_mask := o <? num_indices in
       let idx := tl_load indices o idx_mask in
       if idx_mask && (0 <=? idx) && (idx <? num_quantized) then Some (idx, 1) else None) offsets
  ++ omap (fun o => if o <? total_tokens - pending_start then Some (pending_start + o, 1) else None) offsets.

(** The interleavings of the stores of concurrent programs. *)
Inductive runs {A} : list (list (Z * A)) -> list (Z * A) -> Prop :=
| runs_done ps : Forall (fun p => p = []) ps -> runs ps []
| runs_step ps i e p es : ps !! i = Some (e :: p) -> runs (<[i := p]> ps) es -> runs ps (e :: es).

Definition mask_block : nat := 256.

Definition mask_grid (num_indices pending_start total_tokens : Z) : Z :=
  Z.max (Z.max (cdiv total_tokens (Z.of_nat mask_block)) (cdiv (Z.max (total_tokens - pending_start) 0) (Z.of_nat mask_block)))
    (Z.max (cdiv num_indices (Z.of_nat mask_block)) 1).

Definition mask_programs (indices : list Z) (num_quantized pending_start total_tokens : Z) : list (list (Z * Z)) :=
  rabitq_update_mask_kernel indices num_quantized pending_start total_tokens mask_block <$>
    seq 0 (Z.to_nat (mask_grid (Z.of_nat (length indices)) pending_start total_tokens)).

Definition clamp_pending (pending_start total_tokens : Z) : Z := Z.max 0 (Z.min pending_start total_tokens).

(** [mask_slice[indices] = 1]: negative indices count from the end. *)
Fixpoint set_ones (buf : list Z) (indices : list Z) : outcome (list Z) :=
  match indices with
  | [] => Ok buf
  | i :: rest =>
      let n := Z.of_nat (length buf) in
      if (- n <=? i) && (i <? n) then set_ones (store_cell buf (if i <? 0 then i + n else i, 1)) rest
      else Raise IndexError
  end.

(** [mask_slice[a:b] = v] for [0 <= a]. *)
Definition fill_slice (buf : list Z) (a b v : Z) : list Z :=
  imap (fun i x => if (a <=? Z.of_nat i) && (Z.of_nat i <? b) then v else x) buf.

(** The branch for tensors that are not on a GPU. *)
Definition update_topk_mask_cpu (mask_slice : list Z) (indices : option (list Z))
    (pending_start total_tokens : Z) : outcome (list Z) :=
  if total_tokens =? 0 then Ok mask_slice
  else
    let pending_start := clamp_pending pending_start total_tokens in
    let buf := fill_slice mask_slice 0 total_tokens 0 in
    buf ← match indices with
          | Some (i :: rest) => set_ones buf (i :: rest)
          | _ => Ok buf
          end;
    Ok (if pending_start <? total_tokens then fill_slice buf pending_start total_tokens 1 else buf).

(** The branch for GPU tensors: any run of the launch may be the one that happens. *)
Definition update_topk_mask_cuda (mask_slice : list Z) (indices : option (list Z))
    (num_quantized pending_start total_tokens : Z) (result : list Z) : Prop :=
  if total_tokens =? 0 then result = mask_slice
  else
    let pending_start := clamp_pending pending_start total_tokens in
    exists es, runs (mask_programs (default [] indices) num_quantized pending_start total_tokens) es /\
      result = foldl store_cell mask_slice es.

(** * Binary dot products *)

(** One program of [rabitq_binary_dot_quantized_kernel]: the lanes of one block. *)
Definition and_sum (x_b q_u : list Z) (x_offset q_offset head_size bit_idx block_start : Z) (BLOCK_SIZE : nat) : Z :=
  foldr Z.add 0 ((fun o =>
    let mask := o <? head_size in
    let x_vals := tl_load x_b (x_offset + o) mask in
    let q_vals := tl_load q_u (q_offset + o) mask in
    let q_bits := Z.land (Z.shiftr q_vals bit_idx) 1 in
    Z.land x_vals q_bits) <$> lanes block_start BLOCK_SIZE).

(** [for block_start in range(0, head_size, BLOCK_SIZE)]: [cdiv head_size BLOCK_SIZE] iterations. *)
Definition bit_sum (x_b q_u : list Z) (x_offset q_offset head_size bit_idx : Z) (BLOCK_SIZE : nat) : Z :=
  foldl (fun acc k => acc + and_sum x_b q_u x_offset q_offset head_size bit_idx (Z.of_nat k * Z.of_nat BLOCK_SIZE) BLOCK_SIZE)
    0 (seq 0 (Z.to_nat (cdiv head_size (Z.of_nat BLOCK_SIZE)))).

Definition rabitq_binary_dot_quantized_kernel (x_b q_u : list Z) (num_heads head_size : Z) (B_q BLOCK_SIZE : nat)
    (token_idx head_idx : Z) : Z :=
  let x_offset := (token_idx * num_heads + head_idx) * head_size in
  let q_offset := head_idx * head_size in
  foldl (fun result b => result + Z.shiftl 1 (Z.of_nat b) * bit_sum x_b q_u x_offset q_offset head_size (Z.of_nat b) BLOCK_SIZE)
    0 (seq 0 B_q).

(** [triton.next_power_of_2], for positive arguments. *)
Definition next_power_of_2 (n : Z) : Z := 2 ^ Z.log2_up n.

(** Rows of the output: one cell per token and head. *)
Definition binary_dot_quantized (x_b q_u : list Z) (num_tokens num_heads : nat) (head_size : Z) (B_q : nat) : list (list Z) :=
  let BLOCK_SIZE := Z.to_nat (next_power_of_2 (Z.min head_size 1024)) in
  (fun t => (fun h => rabitq_binary_dot_quantized_kernel x_b q_u (Z.of_nat num_heads) head_size B_q BLOCK_SIZE
                        (Z.of_nat t) (Z.of_nat h)) <$> seq 0 num_heads) <$> seq 0 num_tokens.

(** * Packing bits *)

(** [.to(torch.int32)] of a 64-bit integer. *)
Definition to_int32 (z : Z) : Z := (z + 2 ^ 31) mod 2 ^ 32 - 2 ^ 31.

(** [(row.to(int64) << bit_positions).sum()] of 32 bits. *)
Definition pack_word (bits : list Z) : Z :=
  to_int32 (foldr Z.add 0 (imap (fun i b => Z.shiftl b (Z.of_nat i)) bits)).

Fixpoint chunks32 (fuel : nat) (l : list Z) : list (list Z) :=
  match fuel with
  | O => []
  | S f => take 32 l :: chunks32 f (drop 32 l)
  end.

(** One [D]-element row; the view needs [D] to be a multiple of 32. *)
Definition pack_binary_to_int32 (row : list Z) : outcome (list Z) :=
  let D := length row in
  if Nat.eqb (D mod 32) 0 then Ok (pack_word <$> chunks32 (D / 32) row) else Raise RuntimeError.

(** * The mask kernel *)

Lemma elem_of_lanes base n o : o ∈ lanes base n <-> base <= o < base + Z.of_nat n.
Proof.
  unfold lanes. rewrite list_elem_of_fmap. setoid_rewrite elem_of_seq. split.
  - intros (i & -> & Hi). lia.
  - intros Ho. exists (Z.to_nat (o - base)). lia.
Qed.

(** Lane [o] belongs to program [pid]. *)
Definition lane_of (pid : nat) (o : Z) : Prop := Z.of_nat pid * Z.of_nat mask_block <= o < (Z.of_nat pid + 1) * Z.of_nat mask_block.

Lemma lane_of_unique pid pid' o : lane_of pid o -> lane_of pid' o -> pid = pid'.
Proof. unfold lane_of, mask_block. lia. Qed.

Lemma lane_of_div o : 0 <= o -> lane_of (Z.to_nat (o / Z.of_nat mask_block)) o.
Proof. intros Ho. unfold lane_of, mask_block. rewrite Z2Nat.id by (apply Z.div_pos; lia). pose proof (Z.div_mod o 256). pose proof (Z.mod_pos_bound o 256). lia. Qed.

Section mask.
Context (indices : list Z) (nq ps total : Z).

Local Abbreviation kernel := (rabitq_update_mask_kernel indices nq ps total mask_block).

Definition zero_lane (pid : nat) (c : Z) : Prop := lane_of pid c /\ c < total.
Definition scatter_lane (pid : nat) (c : Z) : Prop :=
  exists j : nat, lane_of pid (Z.of_nat j) /\ indices !! j = Some c /\ 0 <= c < nq.
Definition tail_lane (pid : nat) (c : Z) : Prop := lane_of pid (c - ps) /\ c < total.

(** What the stores of a program are, in three runs of lanes. *)
Lemma kernel_parts pid : exists zeros ones, kernel pid = zeros ++ ones /\
  (forall c v, (c, v) ∈ zeros <-> v = 0 /\ zero_lane pid c) /\
  (forall c v, (c, v) ∈ ones <-> v = 1 /\ (scatter_lane pid c \/ tail_lane pid c)).
Proof.
  unfold rabitq_update_mask_kernel. eexists _, _. split; [done|]. split; intros c v.
  - rewrite list_elem_of_omap. setoid_rewrite elem_of_lanes. unfold zero_lane, lane_of. split.
    + intros (o & Ho & E). destruct (Z.ltb_spec o total); simplify_eq. split; [done|]. lia.
    + intros [-> [Hl Hc]]. exists c. split; [lia|]. by rewrite (proj2 (Z.ltb_lt _ _)).
  - rewrite elem_of_app, !list_elem_of_omap. setoid_rewrite elem_of_lanes. unfold scatter_lane, tail_lane, lane_of. split.
    + intros [(o & Ho & E)|(o & Ho & E)].
      * destruct (Z.ltb_spec o (Z.of_nat (length indices))) as [Hlt|]; [|done]. cbn [andb tl_load] in E.
        destruct (Z.leb_spec 0 (indices !!! Z.to_nat o)), (Z.ltb_spec (indices !!! Z.to_nat o) nq); cbn in E; simplify_eq.
        split; [done|]. left. exists (Z.to_nat o). split; [unfold mask_block in *; lia|]. split; [|done].
        apply list_lookup_lookup_total_lt. unfold mask_block in *. lia.
      * destruct (Z.ltb_spec o (total - ps)); simplify_eq. split; [done|]. right. unfold mask_block in *. lia.
    + intros [-> [(j & Hj & Hi & Hc)|[Hl Hc]]].
      * left. exists (Z.of_nat j). split; [lia|]. pose proof (lookup_lt_Some _ _ _ Hi).
        rewrite (proj2 (Z.ltb_lt _ _)) by lia. cbn [andb tl_load]. rewrite Nat2Z.id, (list_lookup_total_correct _ _ _ Hi).
        rewrite (proj2 (Z.leb_le 0 c)), (proj2 (Z.ltb_lt c nq)) by lia. done.
      * right. exists (c - ps). split; [lia|]. rewrite (proj2 (Z.ltb_lt _ _)) by lia. f_equal. f_equal. lia.
Qed.

Lemma kernel_zero pid c : (c, 0) ∈ kernel pid <-> zero_lane pid c.
Proof. destruct (kernel_parts pid) as (zs & os & -> & Hz & Ho). rewrite elem_of_app, Hz, Ho. naive_solver. Qed.

Lemma kernel_one pid c : (c, 1) ∈ kernel pid <-> scatter_lane pid c \/ tail_lane pid c.
Proof. destruct (kernel_parts pid) as (zs & os & -> & Hz & Ho). rewrite elem_of_app, Hz, Ho. naive_solver. Qed.

Lemma kernel_values pid c v : (c, v) ∈ kernel pid -> v = 0 \/ v = 1.
Proof. destruct (kernel_parts pid) as (zs & os & -> & Hz & Ho). rewrite elem_of_app, Hz, Ho. tauto. Qed.
End mask.

#[local] Opaque rabitq_update_mask_kernel.

(** ** Runs *)

Lemma runs_elem {A} (ps : list (list (Z * A))) es e : runs ps es -> (e ∈ es <-> exists i p, ps !! i = Some p /\ e ∈ p).
Proof.
  induction 1 as [ps Hps|ps i e' p es Hi _ IH].
  - split; [by intros ?%elem_of_nil|]. intros (i & p & Hi & He). rewrite Forall_lookup in Hps.
    rewrite (Hps i p Hi) in He. by apply elem_of_nil in He.
  - rewrite elem_of_cons, IH. pose proof (lookup_lt_Some _ _ _ Hi) as Hlt. split.
    + intros [->|(j & q & Hj & He)]; [exists i, (e' :: p); split; [done|left]|].
      destruct (decide (i = j)) as [<-|]; [rewrite list_lookup_insert_eq in Hj by done; simplify_eq; exists i, (e' :: q); split; [done|by right]|].
      rewrite list_lookup_insert_ne in Hj by done. eauto.
    + intros (j & q & Hj & He). destruct (decide (i = j)) as [<-|].
      * rewrite Hi in Hj. simplify_eq. apply elem_of_cons in He as [->|He]; [by left|]. right. exists i, p.
        by rewrite list_lookup_insert_eq.
      * right. exists j, q. by rewrite list_lookup_insert_ne.
Qed.

Lemma store_length {A} (buf : list A) e : length (store_cell buf e) = length buf.
Proof. apply length_insert. Qed.

Lemma stores_length {A} (es : list (Z * A)) : forall buf, length (foldl store_cell buf es) = length buf.
Proof. induction es as [|e es IH]; intros buf; cbn; [done|]. by rewrite IH, store_length. Qed.

(** A cell no store writes keeps its value; one that only [v] is written to gets [v] or keeps its value. *)
Lemma stores_other {A} (es : list (Z * A)) c : forall buf, (forall a v, (a, v) ∈ es -> Z.to_nat a <> c) -> foldl store_cell buf es !! c = buf !! c.
Proof.
  induction es as [|[a v] es IH]; intros buf Hes; cbn; [done|]. rewrite IH by (intros a' v' ?; apply (Hes a' v'); by right).
  apply list_lookup_insert_ne. apply (Hes a v). left.
Qed.

Lemma store_cell_eq {A} (buf : list A) a v : (Z.to_nat a < length buf)%nat -> store_cell buf (a, v) !! Z.to_nat a = Some v.
Proof. intros H. by apply list_lookup_insert_eq. Qed.

Lemma store_cell_ne {A} (buf : list A) a v c : Z.to_nat a <> c -> store_cell buf (a, v) !! c = buf !! c.
Proof. intros H. by apply list_lookup_insert_ne. Qed.

(** Once a 1 is written to a cell that no later store zeroes, it stays. *)
Lemma stores_ones es c : forall buf, buf !! c = Some 1 -> (forall a v, (a, v) ∈ es -> Z.to_nat a = c -> v = 1) ->
  foldl store_cell buf es !! c = Some 1.
Proof.
  induction es as [|[a v] es IH]; intros buf Hb Hes; cbn [foldl]; [done|]. apply IH.
  - destruct (decide (Z.to_nat a = c)) as [Ha|Ha]; [|by rewrite store_cell_ne].
    rewrite (Hes a v ltac:(left) Ha), <-Ha. apply store_cell_eq. rewrite Ha. by eapply lookup_lt_Some.
  - intros a' v' Hin. apply Hes. by right.
Qed.

(** Only zeros are written: the cell is zero from then on. *)
Lemma stores_zeros es c : forall buf, (c < length buf)%nat -> buf !! c = Some 0 \/ (exists a v, (a, v) ∈ es /\ Z.to_nat a = c) ->
  (forall a v, (a, v) ∈ es -> Z.to_nat a = c -> v = 0) -> foldl store_cell buf es !! c = Some 0.
Proof.
  induction es as [|[a v] es IH]; intros buf Hlt Hb Hes; cbn [foldl].
  - destruct Hb as [Hb|(a & v & []%elem_of_nil & _)]; done.
  - apply IH; [by rewrite store_length| |intros a' v' Hin; apply Hes; by right].
    destruct (decide (Z.to_nat a = c)) as [Ha|Ha].
    + left. rewrite (Hes a v ltac:(left) Ha), <-Ha. apply store_cell_eq. by rewrite Ha.
    + rewrite store_cell_ne by done. destruct Hb as [?|(a' & v' & [?|?]%elem_of_cons & Ha')]; [by left|simplify_eq|right; eauto].
Qed.

(** Program [z] writes the 1 of a cell after its own zero, and no other program zeroes the cell: every run
    leaves a 1. *)
Lemma run_keeps_one ps es c z a p : forall buf,
  runs ps es -> (Z.to_nat c < length buf)%nat -> 0 <= c -> ps !! z = Some (a ++ (c, 1) :: p) ->
  (forall b v, (b, v) ∈ p -> Z.to_nat b = Z.to_nat c -> v = 1) ->
  (forall i q b v, i <> z -> ps !! i = Some q -> (b, v) ∈ q -> Z.to_nat b = Z.to_nat c -> v = 1) ->
  foldl store_cell buf es !! Z.to_nat c = Some 1.
Proof.
  intros buf Hr. revert a buf. induction Hr as [ps Hps|ps i e q es Hi Hr IH]; intros a buf Hlt Hc Hz Hp Hothers.
  - rewrite Forall_lookup in Hps. apply Hps in Hz. by destruct a.
  - cbn [foldl]. pose proof (lookup_lt_Some _ _ _ Hi) as Hil. destruct (decide (i = z)) as [->|Hne].
    + rewrite Hi in Hz. destruct a as [|e' a]; cbn in Hz; simplify_eq.
      * apply stores_ones; [by apply store_cell_eq|]. intros b v Hin Hb. apply (runs_elem _ _ _ Hr) in Hin as (j & r & Hj & Hin).
        destruct (decide (j = z)) as [->|Hjz].
        -- rewrite list_lookup_insert_eq in Hj by done. simplify_eq. by apply (Hp b v).
        -- rewrite list_lookup_insert_ne in Hj by done. by apply (Hothers j r b v).
      * apply (IH a); [by rewrite store_length|done|by rewrite list_lookup_insert_eq|done|].
        intros j r b v Hjz Hj. rewrite list_lookup_insert_ne in Hj by done. by apply (Hothers j r).
    + apply (IH a); [by rewrite store_length|done|by rewrite list_lookup_insert_ne|done|].
      intros j r b v Hjz Hj Hin. destruct (decide (i = j)) as [<-|].
      * rewrite list_lookup_insert_eq in Hj by done. simplify_eq. apply (Hothers i (e :: r) b v Hjz Hi). by right.
      * rewrite list_lookup_insert_ne in Hj by done. by apply (Hothers j r).
Qed.

(** The programs one after another, in any order, are a run. *)
Lemma runs_whole {A} (p : list (Z * A)) : forall ps i es, ps !! i = Some p -> runs (<[i := []]> ps) es -> runs ps (p ++ es).
Proof.
  induction p as [|e p IH]; intros ps i es Hi Hr; cbn [app].
  - by rewrite list_insert_id in Hr.
  - apply runs_step with i p; [done|]. apply IH with i; [apply list_lookup_insert_eq; by eapply lookup_lt_Some|].
    by rewrite list_insert_insert_eq.
Qed.

Lemma runs_in_order {A} order : forall ps : list (list (Z * A)), NoDup order -> (forall i p, ps !! i = Some p -> i ∉ order -> p = []) ->
  (forall i, i ∈ order -> (i < length ps)%nat) -> runs ps (concat ((fun i => ps !!! i) <$> order)).
Proof.
  induction order as [|i order IH]; intros ps Hnd Hrest Hlen.
  - apply runs_done. apply Forall_lookup. intros i p Hp. apply (Hrest i p Hp). apply not_elem_of_nil.
  - apply NoDup_cons in Hnd as [Hi Hnd]. cbn.
    assert (ps !! i = Some (ps !!! i)) as Hpi by (apply list_lookup_lookup_total_lt, Hlen; left).
    apply runs_whole with i; [done|].
    assert (concat ((fun j => ps !!! j) <$> order) = concat ((fun j => <[i := []]> ps !!! j) <$> order)) as ->.
    { f_equal. apply list_fmap_ext. intros k j Hj. symmetry. apply list_lookup_total_insert_ne. intros ->.
      apply Hi. by eapply list_elem_of_lookup_2. }
    apply IH; [done| |intros j Hj; rewrite length_insert; apply Hlen; by right].
    intros j p Hj Hnj. destruct (decide (i = j)) as [->|Hne].
    + rewrite list_lookup_insert_eq in Hj by (eapply lookup_lt_Some; exact Hpi). by simplify_eq.
    + rewrite list_lookup_insert_ne in Hj by done. apply (Hrest j p Hj). rewrite elem_of_cons. by intros [?|?].
Qed.

(** A cell has its old value, or one that was written to it. *)
Lemma stores_final {A} (es : list (Z * A)) c : forall buf, (c < length buf)%nat ->
  (foldl store_cell buf es !! c = buf !! c /\ forall a v, (a, v) ∈ es -> Z.to_nat a <> c) \/
  exists a v, (a, v) ∈ es /\ Z.to_nat a = c /\ foldl store_cell buf es !! c = Some v.
Proof.
  induction es as [|[a v] es IH]; intros buf Hlt; cbn [foldl].
  { left. split; [done|]. by intros ? ? ?%elem_of_nil. }
  destruct (IH (store_cell buf (a, v))) as [[Hf Hno]|(a' & v' & Hin & Ha & Hf)]; [by rewrite store_length| |].
  - destruct (decide (Z.to_nat a = c)) as [<-|Ha].
    + right. exists a, v. split_and!; [left|done|]. rewrite Hf. by apply store_cell_eq.
    + left. rewrite Hf, store_cell_ne by done. split; [done|]. intros a' v' [E|Hin]%elem_of_cons; [by simplify_eq|by apply (Hno a' v')].
  - right. exists a', v'. split_and!; [by right|done|done].
Qed.

(** ** The launch *)

Section launch.
Context (indices : list Z) (nq ps total : Z).
Context (Hps : 0 <= ps).

Local Abbreviation programs := (mask_programs indices nq ps total).
Local Abbreviation kernel := (rabitq_update_mask_kernel indices nq ps total mask_block).
Local Abbreviation grid := (mask_grid (Z.of_nat (length indices)) ps total).

Lemma programs_lookup i p : programs !! i = Some p <-> (i < Z.to_nat grid)%nat /\ p = kernel i.
Proof.
  unfold mask_programs. rewrite list_lookup_fmap. destruct (decide (i < Z.to_nat grid)%nat) as [Hi|Hi].
  - rewrite lookup_seq_lt by done. cbn. naive_solver.
  - rewrite lookup_seq_ge by lia. cbn. naive_solver lia.
Qed.

(** Every lane below [n] has its program, for [n] one of the three counts of the launch. *)
Lemma program_of_lane n o :
  n = total \/ n = total - ps \/ n = Z.of_nat (length indices) -> 0 <= o < n ->
  programs !! Z.to_nat (o / Z.of_nat mask_block) = Some (kernel (Z.to_nat (o / Z.of_nat mask_block))).
Proof.
  intros Hn Ho. apply programs_lookup. split; [|done].
  assert (o / Z.of_nat mask_block < grid); [|pose proof (Z.div_pos o (Z.of_nat mask_block) ltac:(lia) ltac:(unfold mask_block; lia)); lia].
  assert (o / Z.of_nat mask_block < cdiv n (Z.of_nat mask_block)).
  { pose proof (cdiv_spec n (Z.of_nat mask_block) ltac:(done)). pose proof (Z.div_mod o (Z.of_nat mask_block) ltac:(done)).
    pose proof (Z.mod_pos_bound o (Z.of_nat mask_block) ltac:(done)). nia. }
  unfold mask_grid. destruct Hn as [->|[->| ->]]; [lia| |lia]. rewrite (Z.max_l (total - ps) 0) by lia. lia.
Qed.

(** The cells the launch is asked to set. *)
Definition selected (c : Z) : Prop := (c ∈ indices /\ 0 <= c < nq) \/ ps <= c < total.

(** The program that zeroes the cell also sets it. *)
Definition own_lane (c : Z) : Prop :=
  let pid := Z.to_nat (c / Z.of_nat mask_block) in scatter_lane indices nq pid c \/ tail_lane ps total pid c.

Lemma selected_written c : selected c -> exists i, programs !! i = Some (kernel i) /\ (c, 1) ∈ kernel i.
Proof.
  intros [[[j Hj]%list_elem_of_lookup Hc]|Hc].
  - exists (Z.to_nat (Z.of_nat j / Z.of_nat mask_block)). pose proof (lookup_lt_Some _ _ _ Hj). split.
    + apply program_of_lane with (Z.of_nat (length indices)); [tauto|lia].
    + apply kernel_one. left. exists j. split_and!; [apply lane_of_div; lia|done|lia..].
  - exists (Z.to_nat ((c - ps) / Z.of_nat mask_block)). split.
    + apply program_of_lane with (total - ps); [tauto|lia].
    + apply kernel_one. right. split; [apply lane_of_div; lia|lia].
Qed.

Lemma own_selected c : own_lane c -> 0 <= c -> selected c.
Proof.
  intros [(j & _ & Hj & Hc)|[[Hl _] Hc]] H0; [left; split; [by eapply list_elem_of_lookup_2|done]|right].
  unfold mask_block in Hl. lia.
Qed.

Lemma store_value i p b v : programs !! i = Some p -> (b, v) ∈ p -> 0 <= b /\ (v = 0 /\ i = Z.to_nat (b / Z.of_nat mask_block) \/ v = 1 /\ selected b).
Proof.
  intros [_ ->]%programs_lookup Hin. destruct (kernel_values _ _ _ _ _ _ _ Hin) as [->| ->].
  - apply kernel_zero in Hin as [Hl _]. assert (0 <= b) by (unfold lane_of, mask_block in Hl; lia).
    split; [done|]. left. split; [done|]. apply (lane_of_unique _ _ b); [done|by apply lane_of_div].
  - apply kernel_one in Hin as [(j & _ & Hj & Hc)|[Hl Hc]].
    + split; [lia|]. right. split; [done|]. left. split; [by eapply list_elem_of_lookup_2|done].
    + assert (ps <= b) by (unfold lane_of, mask_block in Hl; lia). split; [lia|]. right. split; [done|]. by right.
Qed.

Lemma run_sound mask es c :
  runs programs es -> 0 <= c < total -> total <= Z.of_nat (length mask) ->
  foldl store_cell mask es !! Z.to_nat c = Some 0 \/ (foldl store_cell mask es !! Z.to_nat c = Some 1 /\ selected c).
Proof.
  intros Hr Hc Hlen. destruct (stores_final es (Z.to_nat c) mask) as [[_ Hno]|(a & v & Hin & Ha & Hf)]; [lia| |].
  - destruct (Hno c 0); [|done]. apply (runs_elem _ _ _ Hr). exists (Z.to_nat (c / Z.of_nat mask_block)), (kernel (Z.to_nat (c / Z.of_nat mask_block))).
    split; [apply program_of_lane with total; [tauto|lia]|]. apply kernel_zero. split; [apply lane_of_div; lia|lia].
  - apply (runs_elem _ _ _ Hr) in Hin as (i & p & Hi & Hin). destruct (store_value i p a v Hi Hin) as [Ha0 [[-> _]|[-> Hs]]]; [by left|].
    right. replace c with a by lia. by replace (Z.to_nat a) with (Z.to_nat c) by lia.
Qed.

Lemma run_own mask es c :
  runs programs es -> 0 <= c < total -> total <= Z.of_nat (length mask) -> own_lane c ->
  foldl store_cell mask es !! Z.to_nat c = Some 1.
Proof.
  intros Hr Hc Hlen Hown. set (z := Z.to_nat (c / Z.of_nat mask_block)).
  destruct (kernel_parts indices nq ps total z) as (zs & os & Hk & Hz & Ho).
  assert ((c, 1) ∈ os) as (o1 & o2 & ->)%list_elem_of_split by (by apply Ho).
  apply (run_keeps_one programs es c z (zs ++ o1) o2); [done|lia|lia| | |].
  - rewrite <-app_assoc, <-Hk. apply program_of_lane with total; [tauto|lia].
  - intros b v Hin Hb. destruct (proj1 (Ho b v)) as [? _]; [apply elem_of_app; right; by right|done].
  - intros i q b v Hi Hq Hin Hb. destruct (store_value i q b v Hq Hin) as [Hb0 [[-> ->]|[-> _]]]; [|done].
    destruct Hi. unfold z. by replace b with c by lia.
Qed.

(** The program that zeroes the cell can come last. *)
Lemma run_loses mask c :
  0 <= c < total -> total <= Z.of_nat (length mask) -> ~ own_lane c ->
  exists es, runs programs es /\ foldl store_cell mask es !! Z.to_nat c = Some 0.
Proof.
  intros Hc Hlen Hown. set (z := Z.to_nat (c / Z.of_nat mask_block)).
  assert (programs !! z = Some (kernel z)) as Hz by (apply program_of_lane with total; [tauto|lia]).
  set (order := filter (fun i => i <> z) (seq 0 (length programs)) ++ [z]).
  exists (concat ((fun i => programs !!! i) <$> order)). split.
  - apply runs_in_order; unfold order.
    + apply NoDup_app. split_and!; [apply NoDup_filter, NoDup_seq| |apply NoDup_singleton].
      intros x [Hx _]%list_elem_of_filter ->%list_elem_of_singleton. done.
    + intros i p Hi Hni. exfalso. apply Hni. rewrite elem_of_app, list_elem_of_filter, elem_of_seq, list_elem_of_singleton.
      apply lookup_lt_Some in Hi. destruct (decide (i = z)); [by right|left; split; [done|lia]].
    + intros i. rewrite elem_of_app, list_elem_of_filter, elem_of_seq, list_elem_of_singleton.
      intros [[_ ?]| ->]; [lia|by eapply lookup_lt_Some].
  - unfold order. rewrite fmap_app, concat_app, foldl_app. cbn [fmap list_fmap concat]. rewrite app_nil_r.
    rewrite (list_lookup_total_correct _ _ _ Hz). apply stores_zeros.
    + rewrite stores_length. lia.
    + right. exists c, 0. split; [|done]. apply kernel_zero. split; [apply lane_of_div; lia|lia].
    + intros a v Hin Ha. destruct (kernel_values _ _ _ _ _ _ _ Hin) as [->| ->]; [done|].
      apply kernel_one in Hin. assert (0 <= a).
      { destruct Hin as [(? & _ & _ & ?)|[Hl _]]; [lia|]. unfold lane_of, mask_block in Hl. lia. }
      destruct Hown. unfold own_lane. fold z. by replace c with a by lia.
Qed.
End launch.

#[local] Instance own_lane_dec indices nq ps total c : Decision (own_lane indices nq ps total c).
Proof.
  unfold own_lane. set (pid := Z.to_nat (c / Z.of_nat mask_block)).
  assert (scatter_lane indices nq pid c <->
    Exists (fun j => lane_of pid (Z.of_nat j) /\ indices !! j = Some c /\ 0 <= c < nq) (seq 0 (length indices))) as E.
  { rewrite Exists_exists. unfold scatter_lane. split; [|naive_solver].
    intros (j & H1 & H2 & H3). exists j. split; [|done]. apply elem_of_seq. apply lookup_lt_Some in H2. lia. }
  destruct (decide (Exists (fun j => lane_of pid (Z.of_nat j) /\ indices !! j = Some c /\ 0 <= c < nq) (seq 0 (length indices)))) as [H|H].
  - left. left. by apply E.
  - destruct (decide (lane_of pid (c - ps) /\ c < total)) as [H'|H']; [left; by right|right; rewrite E; by intros [?|?]].
Defined.

(** ** What the mask update does *)

(** C27: On a GPU, whatever order the programs of the launch run in, the mask marks only tokens of the given
    indices or pending tokens; a token that should be marked is marked in every run exactly when the program
    that clears its cell is also one that sets it.  Otherwise some run loses the token. *)
Theorem update_topk_mask_race mask_slice indices num_quantized pending_start total_tokens c :
  let ps := clamp_pending pending_start total_tokens in
  num_quantized <= total_tokens <= Z.of_nat (length mask_slice) -> 0 <= c < total_tokens ->
  (forall result, update_topk_mask_cuda mask_slice (Some indices) num_quantized pending_start total_tokens result ->
     result !! Z.to_nat c = Some 0 \/ (result !! Z.to_nat c = Some 1 /\ selected indices num_quantized ps total_tokens c)) /\
  ((forall result, update_topk_mask_cuda mask_slice (Some indices) num_quantized pending_start total_tokens result ->
      result !! Z.to_nat c = Some 1) <-> own_lane indices num_quantized ps total_tokens c).
Proof.
  intros ps Hlen Hc. assert (0 <= ps) as Hps by (unfold ps, clamp_pending; lia).
  unfold update_topk_mask_cuda. rewrite (proj2 (Z.eqb_neq _ _)) by lia. fold ps. cbn [default id]. split; [|split].
  - intros result (es & Hr & ->). apply (run_sound indices num_quantized ps total_tokens); first [done|lia].
  - intros Hall. destruct (decide (own_lane indices num_quantized ps total_tokens c)) as [|Hown]; [done|].
    destruct (run_loses indices num_quantized ps total_tokens Hps mask_slice c Hc ltac:(lia) Hown) as (es & Hr & H0).
    rewrite (Hall (foldl store_cell mask_slice es)) in H0; [done|]. by exists es.
  - intros Hown result (es & Hr & ->). apply (run_own indices num_quantized ps total_tokens); first [done|lia].
Qed.

Lemma set_ones_spec l : forall buf, (forall i, i ∈ l -> 0 <= i < Z.of_nat (length buf)) ->
  exists buf', set_ones buf l = Ok buf' /\ length buf' = length buf /\
    forall c, 0 <= c < Z.of_nat (length buf) -> buf' !! Z.to_nat c = if decide (c ∈ l) then Some 1 else buf !! Z.to_nat c.
Proof.
  induction l as [|i l IH]; intros buf Hl; cbn [set_ones].
  { exists buf. split_and!; [done|done|]. intros c _. by rewrite decide_False by apply not_elem_of_nil. }
  pose proof (Hl i ltac:(left)) as Hi. rewrite (proj2 (Z.leb_le _ _)), (proj2 (Z.ltb_lt i _)) by lia. cbn [andb].
  rewrite (proj2 (Z.ltb_ge i 0)) by lia.
  destruct (IH (store_cell buf (i, 1))) as (buf' & E & Hlen & Hbuf').
  { intros j Hj. rewrite store_length. apply Hl. by right. }
  rewrite store_length in *. exists buf'. split_and!; [done|done|]. intros c Hc. rewrite Hbuf' by done.
  destruct (decide (c = i)) as [->|Hne].
  - rewrite (decide_True (P := i ∈ i :: l)) by left. case_decide; [done|]. apply store_cell_eq. lia.
  - destruct (decide (c ∈ l)); [rewrite decide_True; [done|by right]|].
    rewrite decide_False by (rewrite elem_of_cons; by intros [?|?]). apply store_cell_ne. lia.
Qed.

Lemma fill_slice_lookup buf a b v c : 0 <= c < Z.of_nat (length buf) ->
  fill_slice buf a b v !! Z.to_nat c = if decide (a <= c < b) then Some v else buf !! Z.to_nat c.
Proof.
  intros Hc. unfold fill_slice. rewrite list_lookup_imap.
  destruct (lookup_lt_is_Some_2 buf (Z.to_nat c)) as [x ->]; [lia|]. cbn. rewrite Z2Nat.id by lia.
  destruct (Z.leb_spec a c), (Z.ltb_spec c b); cbn; case_decide; done || lia.
Qed.

Lemma fill_slice_length buf a b v : length (fill_slice buf a b v) = length buf.
Proof. apply length_imap. Qed.

Lemma cpu_mask_spec mask_slice indices nq pending_start total :
  let ps := clamp_pending pending_start total in
  0 < total <= Z.of_nat (length mask_slice) -> nq <= total -> (forall i, i ∈ indices -> 0 <= i < nq) ->
  exists result, update_topk_mask_cpu mask_slice (Some indices) pending_start total = Ok result /\
    length result = length mask_slice /\
    (forall c, 0 <= c < total -> result !! Z.to_nat c = Some (if decide (c ∈ indices \/ ps <= c < total) then 1 else 0)) /\
    (forall c, total <= c < Z.of_nat (length mask_slice) -> result !! Z.to_nat c = mask_slice !! Z.to_nat c).
Proof.
  intros ps Hlen Hnq Hind. unfold update_topk_mask_cpu. rewrite (proj2 (Z.eqb_neq _ _)) by lia. fold ps.
  set (buf := fill_slice mask_slice 0 total 0).
  assert (length buf = length mask_slice) as Hbl by apply fill_slice_length.
  destruct (set_ones_spec indices buf) as (buf' & E & Hl & Hb). { intros i Hi%Hind. lia. }
  replace (match indices with [] => Ok buf | i :: rest => set_ones buf (i :: rest) end) with (set_ones buf indices) by by destruct indices.
  rewrite E. cbn [mbind outcome_bind]. assert (0 <= ps <= total) by (unfold ps, clamp_pending; lia).
  assert (forall c, 0 <= c < Z.of_nat (length mask_slice) ->
    (if ps <? total then fill_slice buf' ps total 1 else buf') !! Z.to_nat c = if decide (ps <= c < total) then Some 1 else buf' !! Z.to_nat c) as Hf.
  { intros c Hc. destruct (Z.ltb_spec ps total); [apply fill_slice_lookup; lia|]. rewrite decide_False; [done|lia]. }
  eexists. split; [done|]. split; [destruct (ps <? total); rewrite ?fill_slice_length; lia|]. split; intros c Hc.
  - rewrite Hf by lia. destruct (decide (ps <= c < total)) as [H1|H1].
    + by rewrite decide_True by tauto.
    + rewrite Hb by lia. destruct (decide (c ∈ indices)); [by rewrite decide_True by tauto|].
      rewrite decide_False by tauto. unfold buf. rewrite fill_slice_lookup by lia. rewrite decide_True; [done|lia].
  - rewrite Hf by lia. rewrite decide_False by lia. rewrite Hb by lia. rewrite decide_False by (intros Hi%Hind; lia).
    unfold buf. rewrite fill_slice_lookup by lia. rewrite decide_False; [done|lia].
Qed.

(** When the launch has a single program (at most 256 tokens and at most 256 indices), the GPU mask is
    the one the CPU branch computes. *)
Theorem update_topk_mask_one_block mask_slice indices num_quantized pending_start total_tokens result :
  0 <= num_quantized <= total_tokens -> total_tokens <= Z.of_nat (length mask_slice) -> total_tokens <= 256 ->
  Z.of_nat (length indices) <= 256 -> (forall i, i ∈ indices -> 0 <= i < num_quantized) ->
  update_topk_mask_cuda mask_slice (Some indices) num_quantized pending_start total_tokens result ->
  update_topk_mask_cpu mask_slice (Some indices) pending_start total_tokens = Ok result.
Proof.
  intros Hnq Hlen Ht Hi Hind. destruct (decide (total_tokens = 0)) as [->|Hne].
  { unfold update_topk_mask_cuda, update_topk_mask_cpu. cbn. by intros ->. }
  unfold update_topk_mask_cuda. rewrite (proj2 (Z.eqb_neq _ _)) by lia. cbn [default id].
  set (ps := clamp_pending pending_start total_tokens) in *. assert (0 <= ps <= total_tokens) as Hps by (unfold ps, clamp_pending; lia).
  intros (es & Hr & ->). destruct (cpu_mask_spec mask_slice indices num_quantized pending_start total_tokens)
    as (ref & -> & Hl & Hin & Hout); [lia|lia|done|]. fold ps in Hin. f_equal. symmetry. apply list_eq. intros k.
  destruct (decide (k < length mask_slice)%nat) as [Hk|Hk].
  2:{ rewrite !lookup_ge_None_2; [done|lia|rewrite stores_length; lia]. }
  assert (forall o, 0 <= o < 256 -> Z.to_nat (o / Z.of_nat mask_block) = 0%nat) as Hlane.
  { intros o Ho. unfold mask_block. change (Z.of_nat 256) with 256. by rewrite Z.div_small. }
  rewrite <-(Nat2Z.id k). destruct (decide (Z.of_nat k < total_tokens)) as [Hkt|Hkt].
  - rewrite Hin by lia. destruct (decide _) as [Hs|Hs].
    + apply (run_own indices num_quantized ps total_tokens); [lia|done|lia|lia|]. unfold own_lane. rewrite Hlane by lia.
      destruct Hs as [[j Hj]%list_elem_of_lookup|Hs].
      * left. exists j. pose proof (lookup_lt_Some _ _ _ Hj). split; [unfold lane_of, mask_block; lia|]. split; [done|].
        apply Hind. by eapply list_elem_of_lookup_2.
      * right. split; [unfold lane_of, mask_block; lia|lia].
    + destruct (run_sound indices num_quantized ps total_tokens ltac:(lia) mask_slice es (Z.of_nat k) Hr ltac:(lia) ltac:(lia)) as [?|[_ Hsel]]; [done|].
      destruct Hs. destruct Hsel as [[? _]|?]; tauto.
  - rewrite Hout by lia. apply stores_other. intros a v Hin' Ha.
    apply (runs_elem _ _ _ Hr) in Hin' as (i & p & Hip & Hin').
    destruct (store_value indices num_quantized ps total_tokens ltac:(lia) i p a v Hip Hin') as [Ha0 Hc].
    apply programs_lookup in Hip as [_ ->].
    destruct Hc as [[-> _]|[-> [[_ ?]|?]]]; [|lia..]. apply kernel_zero in Hin' as [_ ?]. lia.
Qed.

(** * The dot-product kernels *)

(** ** Sums *)

Definition sumZ (n : nat) (f : nat -> Z) : Z := foldr Z.add 0 (f <$> seq 0 n).

Lemma foldr_add_app l k : foldr Z.add 0 (l ++ k) = foldr Z.add 0 l + foldr Z.add 0 k.
Proof. induction l as [|x l IH]; cbn [app foldr]; lia. Qed.

Lemma sumZ_S n f : sumZ (S n) f = sumZ n f + f n.
Proof. unfold sumZ. rewrite seq_S, fmap_app, foldr_add_app. cbn. lia. Qed.

Lemma sumZ_ext n f g : (forall i, (i < n)%nat -> f i = g i) -> sumZ n f = sumZ n g.
Proof. intros H. induction n as [|n IH]; [done|]. rewrite !sumZ_S, IH, H by auto with lia. done. Qed.

Lemma sumZ_zero n : sumZ n (fun _ => 0) = 0.
Proof. induction n; [done|]. rewrite sumZ_S. lia. Qed.

Lemma sumZ_add n f g : sumZ n (fun i => f i + g i) = sumZ n f + sumZ n g.
Proof. induction n; [done|]. rewrite !sumZ_S. lia. Qed.

Lemma sumZ_mul n c f : sumZ n (fun i => c * f i) = c * sumZ n f.
Proof. induction n; [unfold sumZ; cbn; lia|]. rewrite !sumZ_S. lia. Qed.

Lemma sumZ_swap n k f : sumZ n (fun i => sumZ k (fun j => f i j)) = sumZ k (fun j => sumZ n (fun i => f i j)).
Proof.
  induction n as [|n IH]; [cbn; by rewrite sumZ_zero|]. rewrite sumZ_S, IH, <-sumZ_add.
  apply sumZ_ext. intros. by rewrite sumZ_S.
Qed.

Lemma sumZ_plus n k f : sumZ (n + k) f = sumZ n f + sumZ k (fun i => f (n + i)%nat).
Proof.
  induction k as [|k IH]; [rewrite Nat.add_0_r; cbn; lia|]. rewrite Nat.add_succ_r, !sumZ_S, IH. lia.
Qed.

Lemma sumZ_blocks K B f : sumZ K (fun k => sumZ B (fun i => f (k * B + i)%nat)) = sumZ (K * B) f.
Proof. induction K as [|K IH]; [done|]. rewrite sumZ_S, IH. replace (S K * B)%nat with (K * B + B)%nat by lia. by rewrite sumZ_plus. Qed.

Lemma sumZ_cut n m f : (n <= m)%nat -> (forall i, (n <= i)%nat -> f i = 0) -> sumZ m f = sumZ n f.
Proof.
  intros Hnm Hf. replace m with (n + (m - n))%nat by lia. rewrite sumZ_plus.
  rewrite (sumZ_ext (m - n) (fun i => f (n + i)%nat) (fun _ => 0)), sumZ_zero; [lia|]. intros i _. apply Hf. lia.
Qed.

Lemma sumZ_bounds n f M : (forall i, (i < n)%nat -> 0 <= f i <= M) -> 0 <= sumZ n f <= Z.of_nat n * M.
Proof. intros H. induction n as [|n IH]; [unfold sumZ; cbn; lia|]. rewrite sumZ_S. pose proof (H n ltac:(lia)). specialize (IH ltac:(auto with lia)). lia. Qed.

Lemma foldl_sum n f : forall a, foldl (fun acc k => acc + f k) a (seq 0 n) = a + sumZ n f.
Proof.
  induction n as [|n IH]; intros a; [unfold sumZ; cbn; lia|]. rewrite seq_S, foldl_app, IH, sumZ_S. cbn. lia.
Qed.

(** ** Bits *)

Lemma bit_value q b : Z.land (Z.shiftr q b) 1 = Z.b2z (Z.testbit q b) \/ b < 0.
Proof.
  destruct (Z.lt_ge_cases b 0); [by right|left]. change 1 with (Z.ones 1). rewrite Z.land_ones by lia.
  rewrite <-Z.bit0_mod, Z.shiftr_spec, Z.add_0_l by lia. done.
Qed.

(** A number below [2 ^ n] is the sum of its bits. *)
Lemma bits_sum n q : 0 <= q < 2 ^ Z.of_nat n -> sumZ n (fun b => 2 ^ Z.of_nat b * Z.b2z (Z.testbit q (Z.of_nat b))) = q.
Proof.
  revert q. induction n as [|n IH]; intros q Hq; [unfold sumZ; cbn in *; lia|]. rewrite sumZ_S.
  rewrite Nat2Z.inj_succ, Z.pow_succ_r in Hq by lia. pose proof (Z.div_mod q (2 ^ Z.of_nat n) ltac:(lia)) as Hdm.
  pose proof (Z.mod_pos_bound q (2 ^ Z.of_nat n) ltac:(lia)) as Hm.
  rewrite (sumZ_ext _ _ (fun b => 2 ^ Z.of_nat b * Z.b2z (Z.testbit (q mod 2 ^ Z.of_nat n) (Z.of_nat b)))), IH by
    (try lia; intros; rewrite Z.mod_pow2_bits_low by lia; done).
  rewrite Z.testbit_spec' by lia.
  assert (q / 2 ^ Z.of_nat n < 2) by (apply Z.div_lt_upper_bound; lia).
  assert (0 <= q / 2 ^ Z.of_nat n) by (apply Z.div_pos; lia). rewrite (Z.mod_small (q / 2 ^ Z.of_nat n) 2) by lia. lia.
Qed.

Lemma land_bit x q b : 0 <= x <= 1 -> 0 <= b -> Z.land x (Z.land (Z.shiftr q b) 1) = x * Z.b2z (Z.testbit q b).
Proof.
  intros Hx Hb. destruct (bit_value q b) as [->|]; [|lia].
  assert (x = 0 \/ x = 1) as [->| ->] by lia; destruct (Z.testbit q b); done.
Qed.

(** ** One program *)

Lemma and_sum_spec x_b q_u xo qo D bit start BS :
  and_sum x_b q_u xo qo D bit start BS =
  sumZ BS (fun i => if start + Z.of_nat i <? D then
     Z.land (x_b !!! Z.to_nat (xo + (start + Z.of_nat i))) (Z.land (Z.shiftr (q_u !!! Z.to_nat (qo + (start + Z.of_nat i))) bit) 1) else 0).
Proof.
  unfold and_sum, sumZ, lanes. rewrite <-list_fmap_compose. f_equal. apply list_fmap_ext. intros ? i _. cbn.
  unfold tl_load. by destruct (start + Z.of_nat i <? D).
Qed.

Lemma bit_sum_spec x_b q_u xo qo (D : nat) bit BS : (0 < BS)%nat ->
  bit_sum x_b q_u xo qo (Z.of_nat D) bit BS =
  sumZ D (fun d => Z.land (x_b !!! Z.to_nat (xo + Z.of_nat d)) (Z.land (Z.shiftr (q_u !!! Z.to_nat (qo + Z.of_nat d)) bit) 1)).
Proof.
  intros HB. unfold bit_sum. rewrite foldl_sum, Z.add_0_l.
  set (g := fun d : nat => if Z.of_nat d <? Z.of_nat D then
    Z.land (x_b !!! Z.to_nat (xo + Z.of_nat d)) (Z.land (Z.shiftr (q_u !!! Z.to_nat (qo + Z.of_nat d)) bit) 1) else 0).
  set (K := Z.to_nat (cdiv (Z.of_nat D) (Z.of_nat BS))).
  rewrite (sumZ_ext K _ (fun k => sumZ BS (fun i => g (k * BS + i)%nat))).
  2:{ intros k _. rewrite and_sum_spec. apply sumZ_ext. intros i _. unfold g.
      by replace (Z.of_nat k * Z.of_nat BS + Z.of_nat i) with (Z.of_nat (k * BS + i)) by lia. }
  pose proof (cdiv_spec (Z.of_nat D) (Z.of_nat BS) ltac:(lia)). pose proof (cdiv_nonneg (Z.of_nat D) (Z.of_nat BS) ltac:(lia) ltac:(lia)).
  rewrite sumZ_blocks, (sumZ_cut D).
  - apply sumZ_ext. intros d Hd. unfold g. by rewrite (proj2 (Z.ltb_lt _ _)) by lia.
  - unfold K. nia.
  - intros d Hd. unfold g. by rewrite (proj2 (Z.ltb_ge _ _)) by lia.
Qed.

Lemma next_power_of_2_pos n : 0 < next_power_of_2 n.
Proof. unfold next_power_of_2. pose proof (Z.log2_up_nonneg n). lia. Qed.

Lemma dot_kernel_value x_b q_u (T H D B_q : nat) t h :
  (forall i, 0 <= x_b !!! i <= 1) -> (forall i, 0 <= q_u !!! i < 2 ^ Z.of_nat B_q) -> (t < T)%nat -> (h < H)%nat ->
  exists row, binary_dot_quantized x_b q_u T H (Z.of_nat D) B_q !! t = Some row /\
    row !! h = Some (sumZ D (fun d => x_b !!! ((t * H + h) * D + d)%nat * q_u !!! (h * D + d)%nat)).
Proof.
  intros Hx Hq Ht Hh. eexists. split.
  { unfold binary_dot_quantized. rewrite list_lookup_fmap, lookup_seq_lt by done. done. }
  rewrite list_lookup_fmap, lookup_seq_lt by done. cbn [fmap option_fmap option_map]. f_equal.
  rewrite !Nat.add_0_l. unfold rabitq_binary_dot_quantized_kernel. rewrite foldl_sum, Z.add_0_l.
  pose proof (next_power_of_2_pos (Z.min (Z.of_nat D) 1024)).
  rewrite (sumZ_ext _ _ (fun b => sumZ D (fun d => 2 ^ Z.of_nat b * (x_b !!! ((t * H + h) * D + d)%nat * Z.b2z (Z.testbit (q_u !!! (h * D + d)%nat) (Z.of_nat b)))))).
  2:{ intros b _. rewrite bit_sum_spec by lia. rewrite Z.shiftl_1_l, <-sumZ_mul. apply sumZ_ext. intros d _.
      replace (Z.to_nat ((Z.of_nat t * Z.of_nat H + Z.of_nat h) * Z.of_nat D + Z.of_nat d)) with ((t * H + h) * D + d)%nat by lia.
      replace (Z.to_nat (Z.of_nat h * Z.of_nat D + Z.of_nat d)) with (h * D + d)%nat by lia.
      by rewrite land_bit by (done || lia). }
  rewrite sumZ_swap. apply sumZ_ext. intros d _.
  rewrite (sumZ_ext _ _ (fun b => x_b !!! ((t * H + h) * D + d)%nat * (2 ^ Z.of_nat b * Z.b2z (Z.testbit (q_u !!! (h * D + d)%nat) (Z.of_nat b))))) by (intros; lia).
  by rewrite sumZ_mul, bits_sum.
Qed.

(** The bit-serial kernel computes the dot product of the binary key and the quantized query of every token
    and head, for every head size (a multiple of the block or not); with 8-bit queries and heads of at most
    65793 elements the sum stays below [2 ^ 24], so accumulating it in single precision is exact. *)
Theorem binary_dot_quantized_exact x_b q_u (T H D B_q : nat) :
  (forall i, 0 <= x_b !!! i <= 1) -> (forall i, 0 <= q_u !!! i < 2 ^ Z.of_nat B_q) ->
  forall t h, (t < T)%nat -> (h < H)%nat ->
  exists row v, binary_dot_quantized x_b q_u T H (Z.of_nat D) B_q !! t = Some row /\ row !! h = Some v /\
    v = sumZ D (fun d => x_b !!! ((t * H + h) * D + d)%nat * q_u !!! (h * D + d)%nat) /\
    ((B_q <= 8)%nat -> Z.of_nat D <= 65793 -> 0 <= v < 2 ^ 24).
Proof.
  intros Hx Hq t h Ht Hh. destruct (dot_kernel_value x_b q_u T H D B_q t h Hx Hq Ht Hh) as (row & Hrow & Hv).
  eexists row, _. split_and!; [done|done|done|]. intros HB HD.
  destruct (sumZ_bounds D (fun d => x_b !!! ((t * H + h) * D + d)%nat * q_u !!! (h * D + d)%nat) 255) as [H1 H2]; [|change (2 ^ 24) with 16777216; lia].
  intros d _. specialize (Hx ((t * H + h) * D + d)%nat). specialize (Hq (h * D + d)%nat).
  assert (2 ^ Z.of_nat B_q <= 2 ^ 8) by (apply Z.pow_le_mono_r; lia). nia.
Qed.

(** * Packing *)

Fixpoint bits_value (l : list Z) : Z := match l with [] => 0 | b :: l' => b + 2 * bits_value l' end.

Lemma shifted_sum l : forall k, 0 <= k ->
  foldr Z.add 0 (imap (fun i b => Z.shiftl b (Z.of_nat i + k)) l) = 2 ^ k * bits_value l.
Proof.
  induction l as [|b l IH]; intros k Hk; [by rewrite Z.mul_0_r|]. rewrite imap_cons. cbn [foldr bits_value].
  rewrite (imap_ext _ (fun i x => Z.shiftl x (Z.of_nat i + (k + 1)))) by (intros; cbn; f_equal; lia).
  rewrite IH by lia. change (Z.of_nat 0) with 0. rewrite Z.add_0_l, Z.shiftl_mul_pow2, Z.pow_add_r by lia. ring.
Qed.

Definition is_bit (b : Z) : Prop := b = 0 \/ b = 1.

Lemma bits_value_bounds l : Forall is_bit l -> 0 <= bits_value l < 2 ^ Z.of_nat (length l).
Proof.
  induction 1 as [|b l Hb _ IH]; [cbn; lia|]. cbn [length bits_value]. rewrite Nat2Z.inj_succ, Z.pow_succ_r by lia.
  destruct Hb; lia.
Qed.

Lemma bits_value_testbit l : forall i, Forall is_bit l -> Z.testbit (bits_value l) (Z.of_nat i) = bool_decide (l !! i = Some 1).
Proof.
  induction l as [|b l IH]; intros i Hl; [by rewrite bool_decide_eq_false_2; [apply Z.testbit_0_l|]|].
  apply Forall_cons in Hl as [Hb Hl]. cbn [bits_value]. destruct i as [|i].
  - cbn [lookup list_lookup]. change (Z.of_nat 0) with 0. destruct Hb as [->| ->].
    + by rewrite Z.add_0_l, Z.testbit_even_0.
    + by rewrite Z.add_comm, Z.testbit_odd_0.
  - change ((b :: l) !! S i) with (l !! i). rewrite <-IH, Nat2Z.inj_succ by done.
    destruct Hb as [->| ->]; [rewrite Z.add_0_l; by apply Z.testbit_even_succ, Nat2Z.is_nonneg|].
    rewrite Z.add_comm. by apply Z.testbit_odd_succ, Nat2Z.is_nonneg.
Qed.

Lemma to_int32_mod z : to_int32 z mod 2 ^ 32 = z mod 2 ^ 32.
Proof. unfold to_int32. rewrite Zminus_mod, Z.mod_mod, <-Zminus_mod by lia. f_equal. lia. Qed.

Lemma to_int32_range z : - 2 ^ 31 <= to_int32 z < 2 ^ 31.
Proof. unfold to_int32. pose proof (Z.mod_pos_bound (z + 2 ^ 31) (2 ^ 32) ltac:(lia)). lia. Qed.

Lemma pack_word_spec l : Forall is_bit l -> (length l <= 32)%nat -> pack_word l mod 2 ^ 32 = bits_value l.
Proof.
  intros Hl Hlen. unfold pack_word. rewrite to_int32_mod.
  rewrite (imap_ext _ (fun i b => Z.shiftl b (Z.of_nat i + 0))) by (intros; by rewrite Z.add_0_r).
  rewrite shifted_sum by lia. rewrite Z.pow_0_r, Z.mul_1_l. pose proof (bits_value_bounds l Hl).
  apply Z.mod_small. assert (2 ^ Z.of_nat (length l) <= 2 ^ 32) by (apply Z.pow_le_mono_r; lia). lia.
Qed.

Lemma chunks32_lookup n : forall l k, (k < n)%nat -> chunks32 n l !! k = Some (take 32 (drop (32 * k) l)).
Proof.
  induction n as [|n IH]; intros l k Hk; [lia|]. cbn [chunks32]. destruct k as [|k]; [done|].
  cbn [lookup list_lookup]. rewrite IH by lia. rewrite drop_drop. do 3 f_equal. lia.
Qed.

(** C36: Packing a row of bits gives one 32-bit word per 32 of them, and bit [i] of word [k] is element
    [32 k + i] of the row (the sign bit included): nothing is lost.  A row that is not a multiple of 32 long
    raises. *)
Theorem pack_binary_roundtrip row :
  Forall is_bit row ->
  match pack_binary_to_int32 row with
  | Ok ws => length row = (32 * length ws)%nat /\
      forall k w, ws !! k = Some w -> - 2 ^ 31 <= w < 2 ^ 31 /\
        forall i, (i < 32)%nat -> Z.testbit (w mod 2 ^ 32) (Z.of_nat i) = bool_decide (row !! (32 * k + i)%nat = Some 1)
  | Raise e => e = RuntimeError /\ (length row mod 32 <> 0)%nat
  end.
Proof.
  intros Hrow. unfold pack_binary_to_int32. destruct (Nat.eqb_spec (length row mod 32) 0) as [Hm|Hm]; [|done].
  pose proof (Nat.div_mod_eq (length row) 32) as Hdm.
  assert (length (chunks32 (length row / 32) row) = (length row / 32)%nat) as Hlen.
  { generalize (length row / 32)%nat. clear. intros n. revert row. induction n as [|n IH]; intros row; cbn [chunks32 length]; [done|]. by rewrite IH. }
  split; [rewrite length_fmap; lia|]. intros k w Hw. rewrite list_lookup_fmap in Hw.
  assert (k < length row / 32)%nat as Hk.
  { destruct (chunks32 (length row / 32) row !! k) eqn:E; [|done]. apply lookup_lt_Some in E. lia. }
  rewrite chunks32_lookup in Hw by done. cbn in Hw. injection Hw as <-. split; [apply to_int32_range|].
  intros i Hi. assert (Forall is_bit (take 32 (drop (32 * k) row))) as Hb by (apply Forall_take, Forall_drop, Hrow).
  rewrite pack_word_spec, bits_value_testbit; [|done|done|rewrite length_take; lia].
  rewrite lookup_take_lt, lookup_drop by done. done.
Qed.

(** * Witnesses *)

(** 600 tokens: index 300 stands in lane 0, but its cell is cleared by the second program. *)
Lemma update_topk_mask_race_witness :
  ~ (forall result, update_topk_mask_cuda (replicate 600 0) (Some [300]) 600 600 600 result -> result !! Z.to_nat 300 = Some 1).
Proof.
  intros H. pose proof (proj1 (proj2 (update_topk_mask_race (replicate 600 0) [300] 600 600 600 300 ltac:(rewrite length_replicate; lia) ltac:(lia))) H) as Ho.
  destruct Ho as [(j & Hl & Hj & _)|[Hl _]].
  - destruct j as [|j]; [|done]. unfold lane_of, mask_block in Hl. vm_compute in Hl. destruct Hl as [Hl _]. by apply Hl.
  - unfold lane_of, mask_block, clamp_pending in Hl. vm_compute in Hl. destruct Hl as [Hl _]. by apply Hl.
Defined.

Lemma update_topk_mask_one_block_witness :
  exists result, update_topk_mask_cpu [0; 0; 1; 0] (Some [0]) 3 4 = Ok result.
Proof.
  assert (exists es, runs (mask_programs [0] 3 3 4) es) as [es Hes].
  { exists (concat ((fun i => mask_programs [0] 3 3 4 !!! i) <$> [0%nat])). apply runs_in_order.
    - apply NoDup_singleton.
    - intros i p Hp Hi. apply programs_lookup in Hp as [Hlt _]. destruct i; [destruct Hi; left|]. vm_compute in Hlt. lia.
    - intros i ->%list_elem_of_singleton. apply lookup_lt_is_Some_1. eexists. apply programs_lookup. split; [vm_compute; lia|reflexivity]. }
  exists (foldl store_cell [0; 0; 1; 0] es).
  apply (update_topk_mask_one_block [0; 0; 1; 0] [0] 3 3 4); [lia|cbn; lia|lia|cbn; lia| |].
  - intros i ->%list_elem_of_singleton. lia.
  - exists es. split; [exact Hes|reflexivity].
Defined.

Lemma binary_dot_quantized_exact_witness :
  exists row v, binary_dot_quantized [1; 0; 1; 1; 1; 0] [3; 2; 1] 2 1 3 2 !! 1%nat = Some row /\ row !! 0%nat = Some v /\ v = 5.
Proof.
  destruct (binary_dot_quantized_exact [1; 0; 1; 1; 1; 0] [3; 2; 1] 2 1 3 2) with 1%nat 0%nat as (row & v & H1 & H2 & H3 & _); [| |lia|lia|].
  - intros [|[|[|[|[|[|i]]]]]]; try (split; discriminate).
  - intros [|[|[|i]]]; split; first [discriminate|reflexivity].
  - exists row, v. split; [exact H1|]. split; [exact H2|]. rewrite H3. vm_compute. reflexivity.
Defined.

Lemma pack_binary_roundtrip_witness : exists w, pack_binary_to_int32 (replicate 31 0 ++ [1]) = Ok [w] /\ Z.testbit (w mod 2 ^ 32) 31 = true.
Proof.
  assert (Forall is_bit (replicate 31 0 ++ [1])) as Hb by (apply Forall_app; split; [apply Forall_replicate; by left|apply Forall_singleton; by right]).
  pose proof (pack_binary_roundtrip (replicate 31 0 ++ [1]) Hb) as H.
  exists (- 2 ^ 31). split; [vm_compute; reflexivity|].
  replace (pack_binary_to_int32 (replicate 31 0 ++ [1])) with (Ok [- 2 ^ 31] : outcome (list Z)) in H by (vm_compute; reflexivity).
  destruct H as [_ H]. destruct (H 0%nat (- 2 ^ 31) eq_refl) as [_ Hbit]. apply (Hbit 31%nat). lia.
Defined.
