(* ===== verification/RabitqQuant.v ===== *)
(** The arithmetic of the RaBitQ backend: quantizing keys (the PyTorch path and the Triton kernel),
    preparing queries and scoring, from [vllm/v1/attention/backends/rabitq.py] and [rabitq_ops.py].

    The scalars are those of PyTorch and Triton, an interface [Scalar]; a definition below names the same
    operations in the same places as the code.  The theorems about values are for scalars with exact
    arithmetic ([ExactScalar]); rounding is not modelled.  A tensor is taken apart along its token and
    head axes: a definition is the computation of one token and one key-value head. *)
From stdpp Require Import base list.
From Stdlib Require Import ZArith QArith Qcanon Lia Ring.
From S2P Require Import Prelude RabitqOps.
Open Scope nat_scope.

(** * Scalars *)

(** [flit m e] is the literal [m * 10 ^ e]; [fsum] is [Tensor.sum] and the contraction of an [einsum],
    [fnorm] is [torch.linalg.norm], [fle] a comparison, [ftoZ] the conversion to an unsigned byte. *)
Class Scalar (F : Type) := {
  f0 : F; f1 : F;
  fadd : F -> F -> F; fsub : F -> F -> F; fmul : F -> F -> F; fdiv : F -> F -> F; fopp : F -> F;
  fsqrt : F -> F; fround : F -> F;
  fle : F -> F -> bool;
  fofZ : Z -> F; ftoZ : F -> Z; flit : Z -> Z -> F;
  fsum : list F -> F; fnorm : list F -> F
}.

(** Exact arithmetic: a commutative ring, division the inverse of multiplication, sums in any order. *)
Class ExactScalar (F : Type) `{Scalar F} := {
  ex_ring : ring_theory f0 f1 fadd fmul fsub fopp eq;
  ex_sum : forall l, fsum l = foldr fadd f0 l;
  ex_div : forall a b, b <> f0 -> fmul (fdiv a b) b = a;
  ex_Z : forall a b, fofZ (a + b) = fadd (fofZ a) (fofZ b) /\ fofZ (a * b) = fmul (fofZ a) (fofZ b);
  ex_Z1 : fofZ 1 = f1;
  ex_lit : forall m, flit m 0 = fofZ m
}.

Section arithmetic.
Context {F : Type} `{Scalar F}.

Definition clamp_min (x lo : F) : F := if fle lo x then x else lo.
Definition clamp_max (x hi : F) : F := if fle x hi then x else hi.
Definition fmean (l : list F) : F := fdiv (fsum l) (fofZ (Z.of_nat (length l))).
Definition vsub (u v : list F) : list F := zip_with fsub u v.
Definition vadd (u v : list F) : list F := zip_with fadd u v.
Definition dot (u v : list F) : F := fsum (zip_with fmul u v).

(** Element [d] of every row. *)
Definition column (m : list (list F)) (d : nat) : list F := (fun row => nth d row f0) <$> m.

(** [einsum('h,hd->d', v, m)]. *)
Definition row_times (D : nat) (v : list F) (m : list (list F)) : list F := (fun d => dot v (column m d)) <$> seq 0 D.

(** * Keys *)

Record HeadMeta := mkHeadMeta {
  hm_x_b : list Z;
  hm_packed : list Z;
  hm_sum_x_b : F;
  hm_key_norm : F;
  hm_k_bar_dot_k : F;
  hm_cq_dot_kr : F
}.

(** Bits, norm, inner product, sum of bits and centroid product of a key, before packing. *)
Definition KeyCode : Type := list Z * F * F * F * F.

(** The PyTorch path of [_quantize_pending_keys] and of the prefill quantization, at one token and head. *)
Definition quantize_keys_torch (head_size : nat) (centroid_k : list F) (rotation_t : list (list F)) (cq key : list F) : KeyCode :=
  let centered := vsub key centroid_k in
  let norms := clamp_min (fnorm centered) (flit 1 (-6)) in
  let normalized := (fun x => fdiv x norms) <$> centered in
  let rotated_inv := row_times head_size normalized rotation_t in
  let bits := (fun x => if fle f0 x then 1%Z else 0%Z) <$> rotated_inv in
  let x_bar := (fun b => fsub (fmul (flit 2 0) (fofZ b)) (flit 1 0)) <$> bits in
  let rotated_normalized := row_times head_size normalized rotation_t in
  let k_bar_dot_k := fsum (zip_with fmul x_bar rotated_normalized) in
  let sum_x_b := fsum (fofZ <$> bits) in
  (bits, norms, k_bar_dot_k, sum_x_b, dot key cq).

(** [for d_block in range(0, head_size, BLOCK_D): acc += tl.sum(f(d_offsets))], the lanes beyond
    [head_size] loading 0. *)
Definition block_sum (head_size BLOCK_D : nat) (f : nat -> F) : F :=
  foldl (fun acc k => fadd acc (fsum ((fun i => let d := k * BLOCK_D + i in if d <? head_size then f d else f0) <$> seq 0 BLOCK_D)))
    f0 (seq 0 (Z.to_nat (cdiv (Z.of_nat head_size) (Z.of_nat BLOCK_D)))).

(** One program of [quantize_keys_fused_kernel]. *)
Definition quantize_keys_fused_kernel (head_size BLOCK_D : nat) (centroid_k : list F) (rotation_t : list (list F))
    (centroid_q key : list F) : KeyCode :=
  let k d := nth d key f0 in
  let ck d := nth d centroid_k f0 in
  let rot out_d d := nth d (nth out_d rotation_t []) f0 in
  let norm_sq := block_sum head_size BLOCK_D (fun d => let c := fsub (k d) (ck d) in fmul c c) in
  let cq_dot_kr := block_sum head_size BLOCK_D (fun d => fmul (k d) (nth d centroid_q f0)) in
  let norm := fsqrt (fadd norm_sq (flit 1 (-12))) in
  let normalized d := fdiv (fsub (k d) (ck d)) norm in
  let bits := (fun out_d =>
    let acc := block_sum head_size BLOCK_D (fun d => fmul (normalized d) (rot out_d d)) in
    if fle f0 acc then 1%Z else 0%Z) <$> seq 0 head_size in
  let inner := foldl (fun inner_acc out_d =>
    let rotated_norm_val := foldl (fun acc in_d => fadd acc (fmul (normalized in_d) (rot out_d in_d))) f0 (seq 0 head_size) in
    let x_bar_val := fsub (fmul (flit 2 0) (fofZ (nth out_d bits 0%Z))) (flit 1 0) in
    fadd inner_acc (fmul x_bar_val rotated_norm_val)) f0 (seq 0 head_size) in
  let sum_bits := foldl (fun acc out_d => fadd acc (fofZ (nth out_d bits 0%Z))) f0 (seq 0 head_size) in
  (bits, norm, inner, sum_bits, cq_dot_kr).

(** * Queries *)

Fixpoint fminimum (x : F) (l : list F) : F := match l with [] => x | y :: l' => fminimum (clamp_max x y) l' end.
Fixpoint fmaximum (x : F) (l : list F) : F := match l with [] => x | y :: l' => fmaximum (clamp_min x y) l' end.

Record QueryCode := mkQueryCode {
  qc_q_u : list Z;
  qc_Delta : F;
  qc_v_l : F;
  qc_sum_q_u : F;
  qc_q_norm : F;
  qc_qr_dot_ck : F
}.

(** The elementwise mean of the queries of a group. *)
Definition group_mean (D : nat) (qs : list (list F)) : list F := (fun d => fmean (column qs d)) <$> seq 0 D.

(** [_query_preprocess_impl] at one token and key-value head: [queries] and [centroids] are the query heads of
    the group.  [torch.min] of an empty tensor raises. *)
Definition query_preprocess (head_size : nat) (queries centroids : list (list F)) (centroid_k : list F)
    (rotation_t : option (list (list F))) (B_q : nat) : outcome QueryCode :=
  let centered := zip_with vsub queries centroids in
  let q_norms := (fun c => clamp_min (fnorm c) (flit 1 (-6))) <$> centered in
  let normalized := zip_with (fun c n => (fun x => fdiv x n) <$> c) centered q_norms in
  let normalized_kv := group_mean head_size normalized in
  let rotated_q := match rotation_t with Some r => row_times head_size normalized_kv r | None => normalized_kv end in
  match rotated_q with
  | [] => Raise IndexError
  | x :: xs =>
      let v_l := fminimum x xs in
      let v_r := fmaximum x xs in
      let max_val := fofZ (Z.shiftl 1 (Z.of_nat B_q) - 1) in
      let Delta := clamp_min (fdiv (fsub v_r v_l) max_val) (flit 1 (-8)) in
      let q_quantized := (fun y => clamp_max (clamp_min (fround (fdiv (fsub y v_l) Delta)) f0) max_val) <$> rotated_q in
      let q_r := group_mean head_size queries in
      Ok (mkQueryCode (ftoZ <$> q_quantized) Delta v_l (fsum q_quantized) (fmean q_norms) (dot q_r centroid_k))
  end.

(** * Scores *)

(** [x_bar_dot_q] of [_compute_approx_scores_for_request]. *)
Definition x_bar_dot_q (head_size : nat) (Delta v_l : F) (q_u x_b : list Z) : F :=
  let inner_product := fsum (zip_with (fun q x => fmul (fofZ q) (fofZ x)) q_u x_b) in
  let sqrt_D := fsqrt (fofZ (Z.of_nat head_size)) in
  let sum_x_b := fsum (fofZ <$> x_b) in
  let sum_q_u := fsum (fofZ <$> q_u) in
  let term1 := fmul (fdiv (fmul (flit 2 0) Delta) sqrt_D) inner_product in
  let term2 := fmul (fdiv (fmul (flit 2 0) v_l) sqrt_D) sum_x_b in
  let term3 := fmul (fopp (fdiv Delta sqrt_D)) sum_q_u in
  let term4 := fmul (fopp sqrt_D) v_l in
  fadd (fadd (fadd term1 term2) term3) term4.

(** [_compute_approx_scores_for_request]: the score of one quantized key. *)
Definition approx_score (head_size : nat) (qc : QueryCode) (m : HeadMeta) (cq_dot_ck : F) : F :=
  let xq := x_bar_dot_q head_size (qc_Delta qc) (qc_v_l qc) (qc_q_u qc) (hm_x_b m) in
  let approx_kq := fdiv xq (clamp_min (hm_k_bar_dot_k m) (flit 1 (-6))) in
  fsub (fadd (fadd (fmul (fmul (qc_q_norm qc) (hm_key_norm m)) approx_kq) (qc_qr_dot_ck qc)) (hm_cq_dot_kr m)) cq_dot_ck.

(** [x_bar_dot_q] of [_compute_approx_scores_for_request_l2]: codes are [+1] and [-1], not divided by the
    square root of [head_size]. *)
Definition x_bar_dot_q_l2 (head_size : nat) (Delta v_l : F) (q_u x_b : list Z) : F :=
  let inner_product := fsum (zip_with (fun q x => fmul (fofZ q) (fofZ x)) q_u x_b) in
  let sum_x_b := fsum (fofZ <$> x_b) in
  let sum_q_u := fsum (fofZ <$> q_u) in
  let term1 := fmul (fmul (flit 2 0) Delta) inner_product in
  let term2 := fmul (fmul (flit 2 0) v_l) sum_x_b in
  let term3 := fmul (fopp Delta) sum_q_u in
  let term4 := fmul (fopp (fofZ (Z.of_nat head_size))) v_l in
  fadd (fadd (fadd term1 term2) term3) term4.

(** [l2_dist_sq] of [_compute_approx_scores_for_request_l2], for one query head per key-value head. *)
Definition l2_dist_sq (q_norm key_norm approx_kq : F) (q_r centroid_q centroid_k : list F) (cq_dot_kr cq_dot_ck : F) : F :=
  let two := fofZ 2 in
  let qr_dot_ck := dot q_r centroid_k in
  let qr_dot_cq := dot q_r centroid_q in
  let cq_norm_sq := dot centroid_q centroid_q in
  let ck_norm_sq := dot centroid_k centroid_k in
  fadd (fsub (fsub (fadd (fsub (fadd (fsub (fadd (fmul q_norm q_norm) (fmul key_norm key_norm)) cq_norm_sq) ck_norm_sq)
    (fmul (fmul (fmul two q_norm) key_norm) approx_kq)) (fmul two qr_dot_cq)) (fmul two qr_dot_ck)) (fmul two cq_dot_kr)) (fmul two cq_dot_ck).
End arithmetic.
#[global] Arguments HeadMeta F : clear implicits.
#[global] Arguments QueryCode F : clear implicits.
#[global] Arguments KeyCode F : clear implicits.

(** * Exact arithmetic *)

Section exact.
Context {F : Type} `{ExactScalar F}.
Add Ring F_ring : ex_ring.

Lemma fofZ_0 : fofZ 0 = f0 :> F.
Proof.
  destruct (ex_Z 0 0) as [E _]. cbn in E. assert (fsub (fofZ 0) (fofZ 0) = fsub (fadd (fofZ 0) (fofZ 0)) (fofZ 0) :> F) as E' by by rewrite <-E.
  ring_simplify in E'. done.
Qed.

Lemma fofZ_2 : fofZ 2 = fadd f1 f1 :> F.
Proof. destruct (ex_Z 1 1) as [E _]. by rewrite <-ex_Z1, <-E. Qed.

Lemma fofZ_S n : fofZ (Z.of_nat (S n)) = fadd f1 (fofZ (Z.of_nat n)) :> F.
Proof. destruct (ex_Z 1 (Z.of_nat n)) as [E _]. by rewrite Nat2Z.inj_succ, <-Z.add_1_l, E, ex_Z1. Qed.

Lemma fsum_cons x (l : list F) : fsum (x :: l) = fadd x (fsum l).
Proof. by rewrite !ex_sum. Qed.

Lemma fsum_nil : fsum [] = f0 :> F.
Proof. by rewrite ex_sum. Qed.

Lemma fsum_app (l k : list F) : fsum (l ++ k) = fadd (fsum l) (fsum k).
Proof. induction l as [|x l IH]; cbn [app]; rewrite ?fsum_cons, ?fsum_nil, ?IH; ring. Qed.

(** ** The four terms of a score *)

(** The code of a key and of a query, as vectors. *)
Definition sign_vector (x_b : list Z) : list F := (fun b => fsub (fmul (fofZ 2) (fofZ b)) f1) <$> x_b.
Definition dequantized (Delta v_l : F) (q_u : list Z) : list F := (fun q => fadd v_l (fmul Delta (fofZ q))) <$> q_u.

Lemma terms_sum Delta v_l q_u : forall x_b, length x_b = length q_u ->
  dot (sign_vector x_b) (dequantized Delta v_l q_u) =
  fsub (fsub (fadd (fmul (fmul (fofZ 2) Delta) (fsum (zip_with (fun q x => fmul (fofZ q) (fofZ x)) q_u x_b)))
                   (fmul (fmul (fofZ 2) v_l) (fsum (fofZ <$> x_b))))
             (fmul Delta (fsum (fofZ <$> q_u)))) (fmul (fofZ (Z.of_nat (length q_u))) v_l).
Proof.
  unfold dot, sign_vector, dequantized. induction q_u as [|q q_u IH]; intros [|x x_b] Hl; try done.
  - change (Z.of_nat (length [])) with 0%Z. cbn [fmap list_fmap zip_with]. rewrite !fsum_nil, fofZ_0. ring.
  - cbn [fmap list_fmap zip_with length]. rewrite !fsum_cons, IH, fofZ_S by (cbn in Hl; lia). ring.
Qed.

Lemma x_bar_l2_value Delta v_l q_u x_b : length x_b = length q_u ->
  x_bar_dot_q_l2 (length q_u) Delta v_l q_u x_b = dot (sign_vector x_b) (dequantized Delta v_l q_u).
Proof. intros Hl. rewrite terms_sum by done. unfold x_bar_dot_q_l2. rewrite ex_lit. ring. Qed.

Lemma x_bar_value Delta v_l q_u x_b :
  let s := fsqrt (fofZ (Z.of_nat (length q_u))) in
  length x_b = length q_u -> fmul s s = fofZ (Z.of_nat (length q_u)) -> s <> f0 ->
  fmul (x_bar_dot_q (length q_u) Delta v_l q_u x_b) s = dot (sign_vector x_b) (dequantized Delta v_l q_u).
Proof.
  intros s Hl Hs Hs0. rewrite terms_sum by done. unfold x_bar_dot_q. fold s. rewrite ex_lit, <-Hs.
  pose proof (ex_div (fmul (fofZ 2) Delta) s Hs0) as E1. pose proof (ex_div (fmul (fofZ 2) v_l) s Hs0) as E2.
  pose proof (ex_div Delta s Hs0) as E3.
  generalize dependent (fdiv (fmul (fofZ 2) Delta) s). generalize dependent (fdiv (fmul (fofZ 2) v_l) s).
  generalize dependent (fdiv Delta s). intros d3 E3 d2 E2 d1 E1.
  set (ip := fsum (zip_with _ q_u x_b)). set (sx := fsum (fofZ <$> x_b)). set (sq := fsum (fofZ <$> q_u)).
  rewrite <-E1, <-E2. replace (fmul Delta sq) with (fmul (fmul d3 s) sq) by by rewrite E3. ring.
Qed.
End exact.

(** C28: The terms of a score are the inner product of the key's code with the dequantized query: the codes of the
    [l2] scorer are [+1] and [-1]; those of the other scorer are divided by the square root of the head size,
    so the two differ by that factor, for any query and key. *)
Theorem score_terms_exact {F} `{ExactScalar F} Delta v_l q_u x_b :
  let D := length q_u in
  let s := fsqrt (fofZ (Z.of_nat D)) in
  length x_b = D -> fmul s s = fofZ (Z.of_nat D) -> s <> f0 ->
  x_bar_dot_q_l2 D Delta v_l q_u x_b = dot (sign_vector x_b) (dequantized Delta v_l q_u) /\
  fmul (x_bar_dot_q D Delta v_l q_u x_b) s = x_bar_dot_q_l2 D Delta v_l q_u x_b.
Proof.
  intros D s Hl Hs Hs0. unfold D in *. split; [by apply x_bar_l2_value|]. rewrite x_bar_l2_value by done. by apply x_bar_value.
Qed.

(** * Rotations *)

Section rotations.
Context {F : Type} `{ExactScalar F}.
Add Ring F_ring2 : ex_ring.

Definition transpose (D : nat) (m : list (list F)) : list (list F) := column m <$> seq 0 D.

(** What the kernel multiplies a key with: row [out_d] of [rotation_t]. *)
Definition times_rows (v : list F) (m : list (list F)) : list F := dot v <$> m.

Lemma fold_sum (f : nat -> F) n : forall a, foldl (fun acc i => fadd acc (f i)) a (seq 0 n) = fadd a (fsum (f <$> seq 0 n)).
Proof.
  induction n as [|n IH]; intros a; [cbn; rewrite fsum_nil; ring|].
  rewrite seq_S, foldl_app, IH, fmap_app, fsum_app. cbn. rewrite fsum_cons, fsum_nil. ring.
Qed.

Lemma fsum_zero n : fsum ((fun _ => f0) <$> seq 0 n) = f0.
Proof. induction n as [|n IH]; [apply fsum_nil|]. rewrite seq_S, fmap_app, fsum_app, IH. cbn. rewrite fsum_cons, fsum_nil. ring. Qed.

Lemma fsum_shift (g : nat -> F) n k : fsum ((fun i => g (k + i)%nat) <$> seq 0 n) = fsum (g <$> seq k n).
Proof.
  f_equal. replace (seq k n) with (Nat.add k <$> seq 0 n) by (by rewrite fmap_add_seq, Nat.add_0_r).
  by rewrite <-list_fmap_compose.
Qed.

Lemma block_sum_spec D B (f : nat -> F) : (0 < B) -> block_sum D B f = fsum (f <$> seq 0 D).
Proof.
  intros HB. unfold block_sum. set (g := fun d => if d <? D then f d else f0).
  set (K := Z.to_nat (cdiv (Z.of_nat D) (Z.of_nat B))). rewrite fold_sum.
  assert (forall n, fsum ((fun k => fsum ((fun i => g (k * B + i)) <$> seq 0 B)) <$> seq 0 n) = fsum (g <$> seq 0 (n * B))) as Hblocks.
  { induction n as [|n IH]; [done|]. rewrite seq_S, fmap_app, fsum_app, IH. cbn [fmap list_fmap]. rewrite fsum_cons, fsum_nil, fsum_shift.
    replace (S n * B) with (n * B + B) by lia. rewrite seq_app, fmap_app, fsum_app. cbn [plus]. ring. }
  rewrite Hblocks. pose proof (cdiv_spec (Z.of_nat D) (Z.of_nat B) ltac:(lia)).
  assert (K * B = D + (K * B - D)) as -> by (unfold K; pose proof (cdiv_nonneg (Z.of_nat D) (Z.of_nat B)); nia).
  rewrite seq_app, fmap_app, fsum_app. cbn [plus].
  rewrite (list_fmap_ext g f (seq 0 D)). 2:{ intros ? d Hd%list_elem_of_lookup_2%elem_of_seq. unfold g. by rewrite (proj2 (Nat.ltb_lt _ _)) by lia. }
  rewrite (list_fmap_ext g (fun _ => f0) (seq D (K * B - D))).
  2:{ intros ? d Hd%list_elem_of_lookup_2%elem_of_seq. unfold g. by rewrite (proj2 (Nat.ltb_ge _ _)) by lia. }
  rewrite <-(fsum_shift (fun _ => f0) (K * B - D) D). cbv beta. rewrite fsum_zero. ring.
Qed.

Lemma fsum_nth (u v : list F) D : length u = D -> length v = D ->
  fsum ((fun d => fmul (nth d u f0) (nth d v f0)) <$> seq 0 D) = dot u v.
Proof.
  intros <-. revert v. induction u as [|x u IH]; intros [|y v] Hv; try done. cbn [length seq fmap list_fmap]. unfold dot. cbn [zip_with].
  rewrite !fsum_cons, <-seq_shift, <-list_fmap_compose. f_equal. apply (IH v). cbn in Hv. lia.
Qed.

(** A [D] by [D] matrix. *)
Definition square (D : nat) (m : list (list F)) : Prop := length m = D /\ Forall (fun row => length row = D) m.

Lemma times_rows_transpose D v m : square D m -> times_rows v m = row_times D v (transpose D m).
Proof.
  intros [Hm Hrows]. unfold times_rows, row_times. apply list_eq. intros i.
  rewrite !list_lookup_fmap. destruct (decide (i < D)) as [Hi|Hi].
  - rewrite lookup_seq_lt by done. destruct (lookup_lt_is_Some_2 m i) as [row Hrow]; [lia|]. rewrite Hrow. cbn. do 2 f_equal.
    rewrite Forall_lookup in Hrows. pose proof (Hrows i row Hrow) as Hlen. unfold column, transpose. rewrite <-list_fmap_compose.
    apply list_eq. intros j. rewrite list_lookup_fmap. destruct (decide (j < D)) as [Hj|Hj].
    + rewrite lookup_seq_lt by done. cbn. unfold compose, column. destruct (lookup_lt_is_Some_2 row j) as [x Hx]; [lia|]. rewrite Hx. f_equal.
      symmetry. apply nth_lookup_Some. rewrite list_lookup_fmap, Hrow. cbn. f_equal. by apply nth_lookup_Some.
    + rewrite lookup_seq_ge by lia. apply lookup_ge_None_2. lia.
  - rewrite lookup_seq_ge, lookup_ge_None_2 by lia. done.
Qed.
End rotations.

(** ** The kernel and the PyTorch path *)

Section fused.
Context {F : Type} `{ExactScalar F}.
Add Ring F_ring3 : ex_ring.

Definition sign_bits (v : list F) : list Z := (fun x => if fle f0 x then 1%Z else 0%Z) <$> v.

Lemma nth_fmap_seq {A} (f : nat -> A) D d x : d < D -> nth d (f <$> seq 0 D) x = f d.
Proof. intros Hd. apply nth_lookup_Some. rewrite list_lookup_fmap, lookup_seq_lt by done. done. Qed.

Lemma vsub_nth (u v : list F) D d : length u = D -> length v = D -> d < D -> nth d (vsub u v) f0 = fsub (nth d u f0) (nth d v f0).
Proof.
  intros Hu Hv Hd. destruct (lookup_lt_is_Some_2 u d) as [x Hx]; [lia|]. destruct (lookup_lt_is_Some_2 v d) as [y Hy]; [lia|].
  apply nth_lookup_Some. unfold vsub. rewrite lookup_zip_with, Hx. cbn. rewrite Hy. cbn.
  by rewrite (nth_lookup_Some _ _ _ _ Hx), (nth_lookup_Some _ _ _ _ Hy).
Qed.

Lemma vsub_length (u v : list F) : length u = length v -> length (vsub u v) = length u.
Proof. intros E. unfold vsub. rewrite length_zip_with. lia. Qed.

Lemma list_nth_seq {A} (l : list A) D x : length l = D -> l = (fun d => nth d l x) <$> seq 0 D.
Proof.
  intros <-. apply list_eq. intros i. rewrite list_lookup_fmap. destruct (decide (i < length l)).
  - rewrite lookup_seq_lt by done. cbn. destruct (lookup_lt_is_Some_2 l i) as [y Hy]; [lia|]. rewrite Hy. f_equal. symmetry. by apply nth_lookup_Some.
  - rewrite lookup_seq_ge, lookup_ge_None_2 by lia. done.
Qed.

(** Row [out_d] of the product the kernel forms. *)
Lemma kernel_row (key ck : list F) R norm D out_d :
  square D R -> length key = D -> length ck = D -> out_d < D ->
  fsum ((fun d => fmul (fdiv (fsub (nth d key f0) (nth d ck f0)) norm) (nth d (nth out_d R []) f0)) <$> seq 0 D) =
  nth out_d (times_rows ((fun x => fdiv x norm) <$> vsub key ck) R) f0.
Proof.
  intros [HR Hrows] Hk Hc Hd. destruct (lookup_lt_is_Some_2 R out_d) as [row Hrow]; [lia|].
  rewrite (nth_lookup_Some _ _ _ _ Hrow). symmetry. apply nth_lookup_Some. unfold times_rows. rewrite list_lookup_fmap, Hrow. cbn. f_equal.
  rewrite Forall_lookup in Hrows. rewrite <-(fsum_nth _ row D).
  - f_equal. apply list_fmap_ext. intros ? d Hdd%list_elem_of_lookup_2%elem_of_seq. f_equal.
    apply nth_lookup_Some. rewrite list_lookup_fmap.
    destruct (lookup_lt_is_Some_2 (vsub key ck) d) as [y Hy]; [rewrite vsub_length; lia|]. rewrite Hy. cbn. f_equal. f_equal.
    rewrite <-(vsub_nth key ck D d) by (done || lia). symmetry. by apply nth_lookup_Some.
  - rewrite length_fmap, vsub_length; lia.
  - by apply (Hrows out_d).
Qed.

Lemma fused_kernel_value D B ck R cq key :
  0 < B -> square D R -> length key = D -> length ck = D -> length cq = D ->
  let norm := fsqrt (fadd (dot (vsub key ck) (vsub key ck)) (flit 1 (-12))) in
  let v := row_times D ((fun x => fdiv x norm) <$> vsub key ck) (transpose D R) in
  let x_bar := (fun b => fsub (fmul (flit 2 0) (fofZ b)) (flit 1 0)) <$> sign_bits v in
  quantize_keys_fused_kernel D B ck R cq key = (sign_bits v, norm, dot x_bar v, fsum (fofZ <$> sign_bits v), dot key cq).
Proof.
  intros HB HR Hk Hc Hq norm v x_bar. unfold quantize_keys_fused_kernel. rewrite !block_sum_spec by done.
  assert (fsum ((fun d => fmul (fsub (nth d key f0) (nth d ck f0)) (fsub (nth d key f0) (nth d ck f0))) <$> seq 0 D)
          = dot (vsub key ck) (vsub key ck)) as ->.
  { rewrite <-(fsum_nth _ _ D) by (rewrite vsub_length; lia). f_equal. apply list_fmap_ext.
    intros ? d Hd%list_elem_of_lookup_2%elem_of_seq. rewrite (vsub_nth key ck D) by (done || lia). done. }
  rewrite (fsum_nth key cq D) by done. fold norm.
  assert (length v = D) as Hv by (unfold v, row_times; rewrite length_fmap, length_seq; done).
  assert (v = times_rows ((fun x => fdiv x norm) <$> vsub key ck) R) as Hvt by (unfold v; by rewrite <-times_rows_transpose).
  assert (forall out_d, out_d < D -> block_sum D B (fun d => fmul (fdiv (fsub (nth d key f0) (nth d ck f0)) norm) (nth d (nth out_d R []) f0)) = nth out_d v f0) as Hrow.
  { intros out_d Hd. rewrite block_sum_spec, kernel_row, Hvt by done. done. }
  assert (((fun out_d => if fle f0 (block_sum D B (fun d => fmul (fdiv (fsub (nth d key f0) (nth d ck f0)) norm) (nth d (nth out_d R []) f0))) then 1%Z else 0%Z) <$> seq 0 D) = sign_bits v) as Hbits.
  { unfold sign_bits. rewrite (list_nth_seq v D f0 Hv) at 1. rewrite <-list_fmap_compose. apply list_fmap_ext.
    intros ? d Hd%list_elem_of_lookup_2%elem_of_seq. unfold compose. by rewrite Hrow by lia. }
  cbv zeta. rewrite Hbits. assert (length (sign_bits v) = D) as Hlb by (unfold sign_bits; by rewrite length_fmap).
  apply (f_equal2 pair); [|done]. apply (f_equal2 pair); [apply (f_equal2 pair); [done|]|].
  - rewrite (fold_sum (fun out_d => fmul (fsub (fmul (flit 2 0) (fofZ (nth out_d (sign_bits v) 0%Z))) (flit 1 0))
      (foldl (fun acc in_d => fadd acc (fmul (fdiv (fsub (nth in_d key f0) (nth in_d ck f0)) norm) (nth in_d (nth out_d R []) f0))) f0 (seq 0 D))) D f0).
    rewrite <-(fsum_nth x_bar v D) by (unfold x_bar; rewrite ?length_fmap; done).
    transitivity (fsum ((fun d => fmul (nth d x_bar f0) (nth d v f0)) <$> seq 0 D)); [|done].
    match goal with |- fadd f0 ?a = _ => transitivity a; [ring|] end. f_equal. apply list_fmap_ext.
    intros ? d Hd%list_elem_of_lookup_2%elem_of_seq. f_equal.
    + symmetry. apply nth_lookup_Some. unfold x_bar. rewrite list_lookup_fmap.
      destruct (lookup_lt_is_Some_2 (sign_bits v) d) as [b Hb]; [lia|]. rewrite Hb, (nth_lookup_Some _ _ _ _ Hb). done.
    + rewrite (fold_sum (fun in_d => fmul (fdiv (fsub (nth in_d key f0) (nth in_d ck f0)) norm) (nth in_d (nth d R []) f0)) D f0).
      rewrite kernel_row by (done || lia). rewrite Hvt. ring.
  - rewrite (fold_sum (fun out_d => fofZ (nth out_d (sign_bits v) 0%Z)) D f0).
    match goal with |- fadd f0 ?a = _ => transitivity a; [ring|] end.
    transitivity (fsum (fofZ <$> ((fun d => nth d (sign_bits v) 0%Z) <$> seq 0 D)));
      [by rewrite <-list_fmap_compose|by rewrite <-(list_nth_seq _ D 0%Z Hlb)].
Qed.
End fused.

Section products.
Context {F : Type} `{ExactScalar F}.
Add Ring F_ring4 : ex_ring.

Lemma dot_cons x y (u v : list F) : dot (x :: u) (y :: v) = fadd (fmul x y) (dot u v).
Proof. unfold dot. cbn [zip_with]. apply fsum_cons. Qed.

Lemma dot_nil (v : list F) : dot [] v = f0.
Proof. apply fsum_nil. Qed.

(** [< a - b, c - d > = < a, c > - < a, d > - < b, c > + < b, d >]. *)
Lemma dot_vsub (a : list F) : forall b c d, length b = length a -> length c = length a -> length d = length a ->
  dot (vsub a b) (vsub c d) = fadd (fsub (fsub (dot a c) (dot a d)) (dot b c)) (dot b d).
Proof.
  unfold vsub. induction a as [|x a IH]; intros [|y b] [|z c] [|w d] Hb Hc Hd; try done.
  - cbn [zip_with]. rewrite !dot_nil. ring.
  - cbn [zip_with]. rewrite !dot_cons, IH by (cbn in *; lia). ring.
Qed.

Lemma dot_comm (u : list F) : forall v, dot u v = dot v u.
Proof.
  unfold dot. induction u as [|x u IH]; intros [|y v]; try done. cbn [zip_with]. rewrite !fsum_cons, IH. ring.
Qed.

Lemma l2_value (q k cq ck : list F) q_norm key_norm approx_kq :
  length k = length q -> length cq = length q -> length ck = length q ->
  fmul q_norm q_norm = dot (vsub q cq) (vsub q cq) -> fmul key_norm key_norm = dot (vsub k ck) (vsub k ck) ->
  fmul (fmul q_norm key_norm) approx_kq = dot (vsub q cq) (vsub k ck) ->
  l2_dist_sq q_norm key_norm approx_kq q cq ck (dot k cq) (dot cq ck) =
  fadd (dot (vsub q k) (vsub q k)) (fmul (fofZ 2) (fsub (dot ck ck) (dot k ck))).
Proof.
  intros Hk Hcq Hck Hqn Hkn Hp. unfold l2_dist_sq. cbv zeta.
  replace (fmul (fmul (fmul (fofZ 2) q_norm) key_norm) approx_kq) with (fmul (fofZ 2) (fmul (fmul q_norm key_norm) approx_kq)) by ring.
  rewrite Hp, Hqn, Hkn, !dot_vsub, fofZ_2 by (done || lia).
  rewrite ?(dot_comm cq q), ?(dot_comm ck k), ?(dot_comm k q), ?(dot_comm k cq), ?(dot_comm ck q), ?(dot_comm ck cq). ring.
Qed.

(** A quarter turn. *)
Definition quarter : list (list F) := [[f0; fopp f1]; [f1; f0]].

Lemma quarter_mismatch :
  dot (row_times 2 [f1; f0] quarter) (row_times 2 [f1; f0] quarter) = f1 /\ dot [f1; f0] [f1; f0] = f1 /\
  dot (row_times 2 [f1; f0] (transpose 2 quarter)) (row_times 2 [f1; f0] quarter) = fopp f1.
Proof.
  unfold transpose, row_times, column, quarter. cbn [fmap list_fmap seq nth]. rewrite !dot_cons, !dot_nil. split_and!; ring.
Qed.
End products.

(** The code of a key for a given norm and matrix: what both paths compute, each with its own two. *)
Definition key_code {F} `{Scalar F} (D : nat) (norm : F) (m : list (list F)) (centroid_k cq key : list F) : KeyCode F :=
  let v := row_times D ((fun x => fdiv x norm) <$> vsub key centroid_k) m in
  let x_bar := (fun b => fsub (fmul (flit 2 0) (fofZ b)) (flit 1 0)) <$> sign_bits v in
  (sign_bits v, norm, dot x_bar v, fsum (fofZ <$> sign_bits v), dot key cq).

(** Key quantization is not the same on the GPU and in PyTorch: the PyTorch path rotates the normalized key by
    [rotation_t], the Triton kernel by its transpose (and guards the norm differently).  Queries are rotated by
    [rotation_t] on both, and there is a rotation for which the inner product of a key and a query survives the
    PyTorch rotations and changes sign under the kernel's. *)
Theorem fused_kernel_transposes {F} `{ExactScalar F} D BLOCK_D (centroid_k : list F) rotation_t cq key :
  0 < BLOCK_D -> square D rotation_t -> length key = D -> length centroid_k = D -> length cq = D ->
  let centered := vsub key centroid_k in
  quantize_keys_torch D centroid_k rotation_t cq key =
    key_code D (clamp_min (fnorm centered) (flit 1 (-6))) rotation_t centroid_k cq key /\
  quantize_keys_fused_kernel D BLOCK_D centroid_k rotation_t cq key =
    key_code D (fsqrt (fadd (dot centered centered) (flit 1 (-12)))) (transpose D rotation_t) centroid_k cq key /\
  exists R k q, square 2 R /\ R = [[f0; fopp f1]; [f1; f0]] /\
    dot (row_times 2 k R) (row_times 2 q R) = f1 /\ dot k q = f1 /\
    dot (row_times 2 k (transpose 2 R)) (row_times 2 q R) = fopp f1 :> F.
Proof.
  intros HB HR Hk Hc Hq centered. split; [done|]. split; [by apply fused_kernel_value|].
  exists [[f0; fopp f1]; [f1; f0]], [f1; f0], [f1; f0]. split; [split; [done|by repeat constructor]|]. split; [done|].
  apply quarter_mismatch.
Qed.

(** The distance of the [l2] scorer is not the distance it documents: with an exact inner product of the centred
    vectors it exceeds the squared distance of query and key by twice [|c_k|^2 - <k, c_k>]. *)
Theorem l2_distance_off {F} `{ExactScalar F} (q k cq ck : list F) q_norm key_norm approx_kq :
  length k = length q -> length cq = length q -> length ck = length q ->
  fmul q_norm q_norm = dot (vsub q cq) (vsub q cq) -> fmul key_norm key_norm = dot (vsub k ck) (vsub k ck) ->
  fmul (fmul q_norm key_norm) approx_kq = dot (vsub q cq) (vsub k ck) ->
  l2_dist_sq q_norm key_norm approx_kq q cq ck (dot k cq) (dot cq ck) =
  fadd (dot (vsub q k) (vsub q k)) (fmul (fofZ 2) (fsub (dot ck ck) (dot k ck))).
Proof. apply l2_value. Qed.

(** * Rational scalars *)

(** Exact on perfect squares. *)
Definition qc_sqrt (x : Qc) : Qc := Q2Qc (Z.sqrt (Qnum (this x)) # Pos.sqrt (Qden (this x))).
Definition qc_floor (x : Qc) : Z := (Qnum (this x) / Zpos (Qden (this x)))%Z.
Definition qc_of_Z (z : Z) : Qc := Q2Qc (z # 1).
Definition qc_lit (m e : Z) : Qc :=
  Q2Qc (match e with Zneg p => m # Pos.pow 10 p | _ => (m * 10 ^ e)%Z # 1 end).
Definition qc_sum (l : list Qc) : Qc := foldr Qcplus 0%Qc l.

#[local] Instance qc_scalar : Scalar Qc := {
  f0 := 0%Qc; f1 := 1%Qc; fadd := Qcplus; fsub := Qcminus; fmul := Qcmult; fdiv := Qcdiv; fopp := Qcopp;
  fsqrt := qc_sqrt; fround x := qc_of_Z (qc_floor (x + Q2Qc (1 # 2))%Qc);
  fle a b := Qle_bool (this a) (this b);
  fofZ := qc_of_Z; ftoZ := qc_floor; flit := qc_lit;
  fsum := qc_sum; fnorm l := qc_sqrt (qc_sum (zip_with Qcmult l l))
}.

#[local] Instance qc_exact : ExactScalar Qc.
Proof.
  split.
  - exact Qcrt.
  - done.
  - intros a b Hb. cbn. rewrite Qcmult_comm. by apply Qcmult_div_r.
  - intros a b. cbn. unfold qc_of_Z. split; apply Qc_is_canon; cbn; rewrite !Qred_correct; unfold Qeq, Qplus, Qmult; cbn; lia.
  - done.
  - intros m. cbn. unfold qc_lit, qc_of_Z. by rewrite Z.pow_0_r, Z.mul_1_r.
Qed.

Lemma score_terms_exact_witness :
  let d := fsqrt (fofZ 4) : Qc in
  fmul d d = fofZ 4 /\
  fmul (x_bar_dot_q 4 1%Qc 0%Qc [3; 1; 0; 2]%Z [1; 0; 1; 1]%Z) d = x_bar_dot_q_l2 4 1%Qc 0%Qc [3; 1; 0; 2]%Z [1; 0; 1; 1]%Z.
Proof.
  split; [vm_compute; reflexivity|].
  apply (score_terms_exact (F := Qc) 1%Qc 0%Qc [3; 1; 0; 2]%Z [1; 0; 1; 1]%Z); [reflexivity|vm_compute; reflexivity|vm_compute; discriminate].
Defined.

(** A key on which the two paths differ in the first bit. *)
Lemma fused_kernel_transposes_witness :
  quantize_keys_fused_kernel 2 2 [0; 0]%Qc [[0; -(1)]; [1; 0]]%Qc [0; 0]%Qc [0; 1]%Qc =
    key_code 2 (fsqrt (fadd (dot (vsub [0; 1]%Qc [0; 0]%Qc) (vsub [0; 1]%Qc [0; 0]%Qc)) (flit 1 (-12)))) (transpose 2 [[0; -(1)]; [1; 0]]%Qc) [0; 0]%Qc [0; 0]%Qc [0; 1]%Qc /\
  (quantize_keys_fused_kernel 2 2 [0; 0]%Qc [[0; -(1)]; [1; 0]]%Qc [0; 0]%Qc [0; 1]%Qc).1.1.1.1 = [0; 1]%Z /\
  (quantize_keys_torch 2 [0; 0]%Qc [[0; -(1)]; [1; 0]]%Qc [0; 0]%Qc [0; 1]%Qc).1.1.1.1 = [1; 1]%Z.
Proof.
  split; [|split; vm_compute; reflexivity].
  assert (square 2 [[0; -(1)]; [1; 0]]%Qc) as Hsq by (split; [reflexivity|repeat constructor]).
  exact (proj1 (proj2 (fused_kernel_transposes (F := Qc) 2 2 [0; 0]%Qc [[0; -(1)]; [1; 0]]%Qc [0; 0]%Qc [0; 1]%Qc
    ltac:(lia) Hsq eq_refl eq_refl eq_refl))).
Defined.

Lemma l2_distance_off_witness :
  let two := qc_of_Z 2 in let three := qc_of_Z 3 in let four := qc_of_Z 4 in
  l2_dist_sq two three 1%Qc [two] [0]%Qc [1]%Qc (dot [four] [0]%Qc) (dot [0]%Qc [1]%Qc) =
  fadd (dot (vsub [two] [four]) (vsub [two] [four])) (fmul (fofZ 2) (fsub (dot [1]%Qc [1]%Qc) (dot [four] [1]%Qc))).
Proof. cbv zeta. apply (l2_distance_off (F := Qc)); vm_compute; reflexivity. Defined.
