(* ===== verification/RabitqBackend.v ===== *)
(** The bookkeeping of the RaBitQ attention backend: [vllm/v1/attention/backends/rabitq.py].

    A layer keeps, per request, the statistics of the prefill, then one row of metadata per quantized
    token and a count of tokens that are cached but not quantized yet.  [forward] is modelled for one layer
    and one step: what it does to these states and which mask it hands to the decode kernel.  The attention
    itself (FlashInfer) is not part of the state.  The six metadata tensors of a request have the same
    length and are written at the same rows, so they are one buffer of rows; a row of [torch.empty] is
    [None].  CUDA operators ([rabitq_int4_packed_binary_scores], [top_p_mask]) and [torch.topk] are
    arguments. *)
From stdpp Require Import base gmap list sorting strings.
From Stdlib Require Import ZArith Lia.
From S2P Require Import Prelude RabitqOps RabitqQuant.
Open Scope nat_scope.

Section backend.
Context {F : Type} `{Scalar F}.

(** A key: one vector per key-value head.  A query: one vector per query head. *)
Abbreviation heads := (list (list F)).
Abbreviation TokenMeta := (list (HeadMeta F)).

(** * State *)

Record Impl := mkImpl {
  num_kv_heads : nat;
  num_queries_per_kv : nat;
  head_size : nat;
  (** whether keys go through the Triton kernel, and its autotuned block *)
  use_triton : bool;
  block_d : nat
}.

Record RabitQRequestState := mkReq {
  sum_q : heads;
  sum_k : heads;
  count : nat;
  prepared : bool;
  centroid_q : option heads;
  centroid_k : option heads;
  total_tokens : nat;
  metadata : option (list (option TokenMeta));
  cq_dot_ck : option (list F);
  metadata_capacity : nat;
  metadata_write_index : nat;
  num_pending_decode_tokens : nat
}.

Record RabitQLayerState := mkLayer {
  rotation_t : list (list (list F));
  request_states : gmap string RabitQRequestState
}.

Definition set_states (m : gmap string RabitQRequestState) (l : RabitQLayerState) : RabitQLayerState :=
  mkLayer (rotation_t l) m.

Definition num_heads (i : Impl) : nat := num_kv_heads i * num_queries_per_kv i.

Definition zeros (n d : nat) : heads := replicate n (replicate d f0).

(** [state = RabitQRequestState(sum_q=zeros, sum_k=zeros)]. *)
Definition new_request_state (i : Impl) : RabitQRequestState :=
  mkReq (zeros (num_heads i) (head_size i)) (zeros (num_kv_heads i) (head_size i)) 0 false None None 0 None None 0 0 0.

Definition get_request_state (i : Impl) (o : option RabitQRequestState) : RabitQRequestState := default (new_request_state i) o.

(** * Prefill *)

(** [rows.sum(dim=0)] of [H] heads of [D] elements. *)
Definition rows_sum (H D : nat) (rows : list heads) : heads :=
  (fun h => (fun d => fsum ((fun row => nth d (nth h row []) f0) <$> rows)) <$> seq 0 D) <$> seq 0 H.

Definition heads_add (a b : heads) : heads := zip_with vadd a b.
Definition heads_div (a : heads) (n : nat) : heads := (fun row : list F => (fun x : F => fdiv x (fofZ (Z.of_nat n))) <$> row) <$> a.

(** [rows[start:end]] for [start <= end]. *)
Definition row_slice {A} (rows : list A) (start stop : nat) : list A := take (stop - start) (drop start rows).

Definition loc (start_locs : list nat) (i : nat) : outcome nat :=
  match start_locs !! i with Some x => Ok x | None => Raise IndexError end.

Definition update_prefill_request (i : Impl) (query key : list heads) (start stop : nat)
    (o : option RabitQRequestState) : RabitQRequestState :=
  let state := get_request_state i o in
  if prepared state then state
  else
    let n := stop - start in
    mkReq (heads_add (sum_q state) (rows_sum (num_heads i) (head_size i) (row_slice query start stop)))
          (heads_add (sum_k state) (rows_sum (num_kv_heads i) (head_size i) (row_slice key start stop)))
          (count state + n) (prepared state) (centroid_q state) (centroid_k state) (total_tokens state + n)
          (metadata state) (cq_dot_ck state) (metadata_capacity state) (metadata_write_index state)
          (num_pending_decode_tokens state).

(** [for idx, req_id in enumerate(req_ids)]: the iterations, each with the state of its request. *)
Fixpoint batch_loop (body : nat -> option RabitQRequestState -> outcome (option RabitQRequestState)) (idx : nat)
    (req_ids : list string) (m : gmap string RabitQRequestState) : outcome (gmap string RabitQRequestState) :=
  match req_ids with
  | [] => Ok m
  | req_id :: rest =>
      s ← body idx (m !! req_id);
      batch_loop body (S idx) rest (partial_alter (fun _ => s) req_id m)
  end.

Definition update_prefill_step (i : Impl) (query key : list heads) (start_locs : list nat) (idx : nat)
    (o : option RabitQRequestState) : outcome (option RabitQRequestState) :=
  start ← loc start_locs idx;
  stop ← loc start_locs (S idx);
  Ok (if stop <=? start then o else Some (update_prefill_request i query key start stop o)).

Definition update_prefill_stats (i : Impl) (query key : list heads) (req_ids : list string) (start_locs : list nat)
    (l : RabitQLayerState) : outcome RabitQLayerState :=
  match req_ids with
  | [] => Ok l
  | _ =>
      _ ← assert_ (S (length req_ids) <=? length start_locs);
      m ← batch_loop (fun idx => update_prefill_step i query key start_locs idx) 0 req_ids (request_states l);
      Ok (set_states m l)
  end.

(** [centroid_q.view(num_kv_heads, num_queries_per_kv, head_size).mean(dim=1)]. *)
Definition cq_reshaped (i : Impl) (cq : heads) : heads :=
  (fun h => group_mean (head_size i) (row_slice cq (h * num_queries_per_kv i) (S h * num_queries_per_kv i))) <$> seq 0 (num_kv_heads i).

(** One head of one key, packed. *)
Definition quantize_head (i : Impl) (ck : list F) (rot_t : list (list F)) (cq key : list F) : outcome (HeadMeta F) :=
  let '(bits, norm, k_bar_dot_k, sum_x_b, cq_dot_kr) :=
    if use_triton i then quantize_keys_fused_kernel (head_size i) (block_d i) ck rot_t cq key
    else quantize_keys_torch (head_size i) ck rot_t cq key in
  packed ← pack_binary_to_int32 bits;
  Ok (mkHeadMeta bits packed sum_x_b norm k_bar_dot_k cq_dot_kr).

Definition quantize_token (i : Impl) (ck : heads) (rot_t : list (list (list F))) (cq key : heads) : outcome TokenMeta :=
  foldr (fun h acc => m ← quantize_head i (nth h ck []) (nth h rot_t []) (nth h cq []) (nth h key []);
                      ms ← acc; Ok (m :: ms)) (Ok []) (seq 0 (num_kv_heads i)).

Fixpoint quantize_tokens (i : Impl) (ck : heads) (rot_t : list (list (list F))) (cq : heads) (keys : list heads) : outcome (list TokenMeta) :=
  match keys with
  | [] => Ok []
  | k :: ks => m ← quantize_token i ck rot_t cq k; ms ← quantize_tokens i ck rot_t cq ks; Ok (m :: ms)
  end.

(** [buffer[start:start + len(rows)] = rows]. *)
Definition write_rows (buf : list (option TokenMeta)) (start : nat) (rows : list TokenMeta) : list (option TokenMeta) :=
  take start buf ++ (Some <$> rows) ++ drop (start + length rows) buf.

(** The body of the loop of [_process_pending_quantization_async] (and of
    [_quantize_prefill_keys_immediately]) for a state that is not prepared. *)
Definition prepare_request (i : Impl) (rot_t : list (list (list F))) (keys : list heads) (state : RabitQRequestState) : outcome RabitQRequestState :=
  let num_prefill_tokens := length keys in
  let cq := heads_div (sum_q state) (count state) in
  let ck := heads_div (sum_k state) (count state) in
  let cqr := cq_reshaped i cq in
  rows ← quantize_tokens i ck rot_t cqr keys;
  let estimated_decode_tokens := Nat.max (num_prefill_tokens * 10) 512 in
  let capacity := num_prefill_tokens + estimated_decode_tokens in
  Ok (mkReq (zeros (num_heads i) (head_size i)) (zeros (num_kv_heads i) (head_size i)) (count state) true (Some cq) (Some ck)
        (total_tokens state) (Some (write_rows (replicate capacity None) 0 rows)) (Some (zip_with dot cqr ck))
        capacity num_prefill_tokens (num_pending_decode_tokens state)).

Definition quantize_prefill_step (i : Impl) (rot_t : list (list (list F))) (key : list heads) (start_locs : list nat) (idx : nat)
    (o : option RabitQRequestState) : outcome (option RabitQRequestState) :=
  match o with
  | None => Ok None
  | Some state =>
      if prepared state || (count state =? 0) then Ok o
      else
        start ← loc start_locs idx;
        stop ← loc start_locs (S idx);
        if stop <=? start then Ok o
        else state ← prepare_request i rot_t (row_slice key start stop) state; Ok (Some state)
  end.

Definition process_pending_quantization (i : Impl) (key : list heads) (req_ids : list string) (start_locs : list nat)
    (l : RabitQLayerState) : outcome RabitQLayerState :=
  m ← batch_loop (fun idx => quantize_prefill_step i (rotation_t l) key start_locs idx) 0 req_ids (request_states l);
  Ok (set_states m l).

(** [_quantize_prefill_keys_immediately], the same loop over the keys of the step, which nothing calls. *)
Definition quantize_prefill_keys_immediately (i : Impl) (key : list heads) (req_ids : list string) (start_locs : list nat)
    (l : RabitQLayerState) : outcome RabitQLayerState :=
  match req_ids with
  | [] => Ok l
  | _ => process_pending_quantization i key req_ids start_locs l
  end.

(** * Decode *)

Definition append_decode_step (start_locs : list nat) (idx : nat) (o : option RabitQRequestState) : outcome (option RabitQRequestState) :=
  start ← loc start_locs idx;
  stop ← loc start_locs (S idx);
  let n := stop - start in
  Ok (if n =? 0 then o
      else match o with
           | None => None
           | Some s =>
               if negb (prepared s) then o
               else Some (mkReq (sum_q s) (sum_k s) (count s) (prepared s) (centroid_q s) (centroid_k s)
                            (total_tokens s + n) (metadata s) (cq_dot_ck s) (metadata_capacity s)
                            (metadata_write_index s) (num_pending_decode_tokens s + n))
           end).

Definition append_decode_kv (req_ids : list string) (start_locs : list nat) (l : RabitQLayerState) : outcome RabitQLayerState :=
  m ← batch_loop (fun idx => append_decode_step start_locs idx) 0 req_ids (request_states l);
  Ok (set_states m l).

(** [_extract_keys_from_paged_cache]: position [p] is row [p % block_size] of block [block_table[p // block_size]]. *)
Definition extract_key (block_size : nat) (block_table : list nat) (key_cache : list (list heads)) (p : nat) : outcome heads :=
  match block_table !! (p / block_size) ≫= fun b => key_cache !! b ≫= fun blk => blk !! (p mod block_size) with
  | Some k => Ok k
  | None => Raise IndexError
  end.

Fixpoint extract_keys (block_size : nat) (block_table : list nat) (key_cache : list (list heads)) (ps : list nat) : outcome (list heads) :=
  match ps with
  | [] => Ok []
  | p :: ps => k ← extract_key block_size block_table key_cache p; ks ← extract_keys block_size block_table key_cache ps; Ok (k :: ks)
  end.

(** The metadata after making room for [new_write_index] rows. *)
Definition grow_metadata (new_write_index : nat) (s : RabitQRequestState) (buf : list (option TokenMeta)) : list (option TokenMeta) * nat :=
  if metadata_capacity s <? new_write_index then
    let new_capacity := Nat.max (new_write_index * 2) (metadata_capacity s + 512) in
    (take (metadata_write_index s) buf ++ replicate (new_capacity - metadata_write_index s) None, new_capacity)
  else (buf, metadata_capacity s).

Definition quantize_pending_keys (i : Impl) (rot_t : list (list (list F))) (block_size : nat) (block_table : list nat)
    (key_cache : list (list heads)) (s : RabitQRequestState) : outcome RabitQRequestState :=
  let num_pending := num_pending_decode_tokens s in
  if num_pending =? 0 then Ok s
  else
    let pending_start_pos := total_tokens s - num_pending in
    keys ← extract_keys block_size block_table key_cache (seq pending_start_pos num_pending);
    match centroid_k s, centroid_q s with
    | Some ck, Some cq =>
        rows ← quantize_tokens i ck rot_t (cq_reshaped i cq) keys;
        match metadata s with
        | None => Raise TypeError
        | Some buf =>
            let '(buf, cap) := grow_metadata (metadata_write_index s + num_pending) s buf in
            Ok (mkReq (sum_q s) (sum_k s) (count s) (prepared s) (centroid_q s) (centroid_k s) (total_tokens s)
                  (Some (write_rows buf (metadata_write_index s) rows)) (cq_dot_ck s) cap
                  (metadata_write_index s + num_pending) 0)
        end
    | _, _ => Raise AttributeError
    end.

(** ** Selection *)

(** A boolean tensor: its shape and its elements in row-major order. *)
Record BoolTensor := mkBools { bt_shape : list nat; bt_data : list bool }.

(** [t.any(dim=0)]; a 0-dimensional tensor reduces to itself. *)
Definition any_dim0 (t : BoolTensor) : BoolTensor :=
  match bt_shape t with
  | [] => t
  | d :: rest =>
      let n := foldr Nat.mul 1 rest in
      mkBools rest ((fun j => existsb (fun r => nth (r * n + j) (bt_data t) false) (seq 0 d)) <$> seq 0 n)
  end.

(** [dst[:n].copy_(src)] for a one-dimensional destination: a scalar or one-element source is broadcast. *)
Definition copy_into (n : nat) (src : BoolTensor) (dst : list Z) : outcome (list Z) :=
  let vals := (fun b : bool => if b then 1%Z else 0%Z) <$> bt_data src in
  match bt_shape src with
  | [] => Ok (replicate n (default 0%Z (head vals)) ++ drop n dst)
  | [d] => if d =? n then Ok (vals ++ drop n dst)
           else if d =? 1 then Ok (replicate n (default 0%Z (head vals)) ++ drop n dst) else Raise RuntimeError
  | _ => Raise RuntimeError
  end.

Inductive Selection := MaskSel (mask : BoolTensor) | IndexSel (idx : list Z).

(** Configuration of the runtime state, and the operators the selection calls: scores of the query codes of a
    step over the metadata rows, the nucleus mask of scores scaled by the square root of the head size, and
    the flattened indices of the [k] largest scores of every row. *)
Record Runtime := mkRuntime { b_q : option nat; topk : option Z; topp : option F; batch_size : nat }.
Context {Scores : Type}.
Context (packed_binary_scores : list (list (QueryCode F)) -> list (option TokenMeta) -> list F -> Scores).
Context (softmax_top_p_mask : Scores -> F -> F -> BoolTensor).
Context (torch_topk : Scores -> nat -> list Z).

(** The codes of one query token: one per key-value head. *)
Definition query_codes (i : Impl) (rot_t : list (list (list F))) (B_q : nat) (cq ck : heads) (query : heads) : outcome (list (QueryCode F)) :=
  foldr (fun h acc =>
    let g := num_queries_per_kv i in
    c ← query_preprocess (head_size i) (row_slice query (h * g) (S h * g)) (row_slice cq (h * g) (S h * g)) (nth h ck [])
          (Some (nth h rot_t [])) B_q;
    cs ← acc; Ok (c :: cs)) (Ok []) (seq 0 (num_kv_heads i)).

Fixpoint queries_codes (i : Impl) (rot_t : list (list (list F))) (B_q : nat) (cq ck : heads) (queries : list heads)
  : outcome (list (list (QueryCode F))) :=
  match queries with
  | [] => Ok []
  | q :: qs => c ← query_codes i rot_t B_q cq ck q; cs ← queries_codes i rot_t B_q cq ck qs; Ok (c :: cs)
  end.

Definition compute_quantized_topk_indices (i : Impl) (rt : Runtime) (rot_t : list (list (list F))) (s : RabitQRequestState)
    (query : list heads) (k : Z) : outcome (option Selection) :=
  let num_quantized := metadata_write_index s in
  match metadata s, b_q rt with
  | Some buf, Some B_q =>
      if (num_quantized =? 0) || (B_q =? 0) then Ok None
      else if (k <=? 0)%Z && bool_decide (topp rt = None) then Ok None
      else
        match centroid_q s, centroid_k s, cq_dot_ck s with
        | Some cq, Some ck, Some cc =>
            codes ← queries_codes i rot_t B_q cq ck query;
            let scores := packed_binary_scores codes (take num_quantized buf) cc in
            match topp rt with
            | Some p => Ok (Some (MaskSel (softmax_top_p_mask scores (fsqrt (fofZ (Z.of_nat (head_size i)))) p)))
            | None =>
                let topk_quantized := Z.min k (Z.of_nat num_quantized) in
                Ok (Some (IndexSel (torch_topk scores (Z.to_nat topk_quantized))))
            end
        | _, _, _ => Raise AttributeError
        end
  | _, _ => Ok None
  end.

(** What [_compute_topk_mask] and [_compute_topk_mask_single] write in a request's slice of the mask; the
    branch of [update_topk_mask] is the one for tensors that are not on a GPU. *)
Definition request_mask (i : Impl) (rt : Runtime) (rot_t : list (list (list F))) (s : RabitQRequestState) (query : list heads)
    (slice : list Z) : outcome (list Z) :=
  let num_quantized := metadata_write_index s in
  let num_total_kv := total_tokens s in
  let pending_start := num_total_kv - num_pending_decode_tokens s in
  sel ← (if (num_quantized =? 0) || bool_decide (metadata s = None) then Ok None
         else compute_quantized_topk_indices i rt rot_t s query (default (Z.of_nat num_quantized) (topk rt)));
  match sel with
  | Some (MaskSel m) =>
      slice ← copy_into num_quantized (any_dim0 (any_dim0 m)) slice;
      Ok (if pending_start <? num_total_kv then fill_slice slice (Z.of_nat pending_start) (Z.of_nat num_total_kv) 1 else slice)
  | Some (IndexSel idx) => update_topk_mask_cpu slice (Some idx) (Z.of_nat pending_start) (Z.of_nat num_total_kv)
  | None => update_topk_mask_cpu slice None (Z.of_nat pending_start) (Z.of_nat num_total_kv)
  end.

(** ** A decode step *)

(** [batch_info]: the request, its index in the batch, its first query token and their number. *)
Record BatchInfo := mkInfo { bi_req_id : string; bi_req_idx : nat; bi_start : nat; bi_num_tokens : nat }.

Fixpoint build_batch_info (start_locs : list nat) (idx : nat) (req_ids : list string) (m : gmap string RabitQRequestState)
  : outcome (list BatchInfo) :=
  match req_ids with
  | [] => Ok []
  | req_id :: rest =>
      start ← loc start_locs idx;
      stop ← loc start_locs (S idx);
      infos ← build_batch_info start_locs (S idx) rest m;
      Ok (if stop <=? start then infos
          else match m !! req_id with
               | Some s => if prepared s then mkInfo req_id idx start (stop - start) :: infos else infos
               | None => infos
               end)
  end.

Abbreviation States := (gmap string RabitQRequestState).

(** [info['state']]. *)
Definition state_of (req_id : string) : M States RabitQRequestState :=
  m ← get;
  match m !! req_id with Some s => mret s | None => raise KeyError end.

(** The paged cache of a step: the page size, the block table of every request of the batch, and the keys
    of every physical block. *)
Record PagedCache := mkPaged { pc_block_size : nat; pc_tables : nat -> list nat; pc_keys : list (list heads) }.

Definition quantize_if_full (i : Impl) (rt : Runtime) (rot_t : list (list (list F))) (pc : PagedCache) (info : BatchInfo) : M States unit :=
  s ← state_of (bi_req_id info);
  if batch_size rt <=? num_pending_decode_tokens s then
    s ← lift_out (quantize_pending_keys i rot_t (pc_block_size pc) (pc_tables pc (bi_req_idx info)) (pc_keys pc) s);
    modify (fun m : States => <[bi_req_id info := s]> m)
  else mret tt.

Definition quantize_full_batches (i : Impl) (rt : Runtime) (rot_t : list (list (list F))) (pc : PagedCache) (infos : list BatchInfo)
  : M States unit :=
  forM infos (quantize_if_full i rt rot_t pc).

(** [mask_offsets_list] and [total_kv_tokens]. *)
Fixpoint mask_offsets (m : States) (total : nat) (infos : list BatchInfo) : list nat * nat :=
  match infos with
  | [] => ([], total)
  | info :: rest =>
      let n := match m !! bi_req_id info with Some s => total_tokens s | None => 0 end in
      let '(offsets, all) := mask_offsets m (total + n) rest in (total :: offsets, all)
  end.

(** [topk_mask_unpacked_buffer[:total]] after making sure the buffer is long enough. *)
Definition mask_buffer (buffer : list Z) (total : nat) : list Z :=
  take total (if length buffer <? total then replicate total 0%Z else buffer).

Fixpoint fill_masks (i : Impl) (rt : Runtime) (rot_t : list (list (list F))) (offsets : list nat) (query : list heads) (query_idx : nat)
    (infos : list BatchInfo) (mask : list Z) : M States (list Z) :=
  match infos with
  | [] => mret mask
  | info :: rest =>
      s ← state_of (bi_req_id info);
      offset ← lift_out (loc offsets (bi_req_idx info));
      let slice := row_slice mask offset (offset + total_tokens s) in
      slice ← lift_out (request_mask i rt rot_t s (row_slice query query_idx (query_idx + bi_num_tokens info)) slice);
      fill_masks i rt rot_t offsets query (query_idx + bi_num_tokens info) rest
        (take offset mask ++ slice ++ drop (offset + length slice) mask)
  end.

(** [_compute_topk_mask]: the mask and the offset of every request in it. *)
Definition compute_topk_mask (i : Impl) (rt : Runtime) (rot_t : list (list (list F))) (pc : PagedCache) (buffer : list Z)
    (query : list heads) (infos : list BatchInfo) : M States (list Z * list nat) :=
  quantize_full_batches i rt rot_t pc infos ;;
  m ← get;
  match infos with
  | [info] =>
      s ← state_of (bi_req_id info);
      mask ← lift_out (request_mask i rt rot_t s query (mask_buffer buffer (total_tokens s)));
      mret (mask, [0])
  | _ =>
      let '(offsets, total) := mask_offsets m 0 infos in
      mask ← fill_masks i rt rot_t offsets query 0 infos (mask_buffer buffer total);
      mret (mask, offsets)
  end.

(** [t.nonzero(as_tuple=False).squeeze(-1)] for a tensor of at most one dimension; [None] is the empty matrix
    that a 0-dimensional tensor gives, whose last dimension of size 0 is not squeezed. *)
Definition nonzero (t : BoolTensor) : option (list Z) :=
  match bt_shape t with
  | [] => None
  | _ => Some (Z.of_nat <$> filter (fun j => nth j (bt_data t) false = true) (seq 0 (length (bt_data t))))
  end.

(** The positions one query token attends to in the fallback; a matrix and a vector cannot be concatenated. *)
Definition individual_indices (i : Impl) (rt : Runtime) (rot_t : list (list (list F))) (s : RabitQRequestState) (q : list heads)
  : outcome (list Z) :=
  let num_quantized := metadata_write_index s in
  let num_pending := num_pending_decode_tokens s in
  approx_indices ← compute_quantized_topk_indices i rt rot_t s q (default (Z.of_nat num_quantized) (topk rt));
  let idx_topk_sorted :=
    match approx_indices with
    | Some sel =>
        if 0 <? num_quantized then
          match sel with
          | MaskSel m => nonzero (any_dim0 (any_dim0 m))
          | IndexSel idx => Some (merge_sort Z.le idx)
          end
        else Some []
    | None => Some []
    end in
  if 0 <? num_pending then
    match idx_topk_sorted with
    | Some idx => Ok (idx ++ (Z.of_nat <$> seq (total_tokens s - num_pending) num_pending))
    | None => Raise RuntimeError
    end
  else Ok (default [] idx_topk_sorted).

Fixpoint individual_tokens (i : Impl) (rt : Runtime) (rot_t : list (list (list F))) (pc : PagedCache) (req_idx : nat) (s : RabitQRequestState)
    (query : list heads) (token_idx n : nat) : outcome (list (nat * list Z)) :=
  match n with
  | O => Ok []
  | S n =>
      idx ← individual_indices i rt rot_t s (row_slice query token_idx (S token_idx));
      _ ← extract_keys (pc_block_size pc) (pc_tables pc req_idx) (pc_keys pc) (Z.to_nat <$> idx);
      rest ← individual_tokens i rt rot_t pc req_idx s query (S token_idx) n;
      Ok ((token_idx, idx) :: rest)
  end.

(** The query tokens of the batch with the positions each attends to. *)
Fixpoint run_individual_decode (i : Impl) (rt : Runtime) (rot_t : list (list (list F))) (pc : PagedCache) (query : list heads)
    (infos : list BatchInfo) : M States (list (nat * list Z)) :=
  match infos with
  | [] => mret []
  | info :: rest =>
      quantize_if_full i rt rot_t pc info ;;
      s ← state_of (bi_req_id info);
      rows ← lift_out (individual_tokens i rt rot_t pc (bi_req_idx info) s query (bi_start info) (bi_num_tokens info));
      rows' ← run_individual_decode i rt rot_t pc query rest;
      mret (rows ++ rows')
  end.

(** What a step did for the output: FlashInfer wrote it; nobody did; the decode wrapper ran with a mask; or the
    per-request fallback attended to these positions. *)
Inductive StepResult :=
| FlashInferStep
| NothingWritten
| MaskedDecode (mask : list Z) (offsets : list nat)
| IndividualDecode (rows : list (nat * list Z)).

(** The decode wrapper planned in the metadata, if any: whether running it with a mask returns or raises. *)
Abbreviation Wrapper := (option (list Z -> list nat -> bool)).

(** [_run_batch_decode] catches every exception, with what the states have become by then. *)
Definition run_batch_decode (i : Impl) (rt : Runtime) (rot_t : list (list (list F))) (pc : PagedCache) (buffer : list Z)
    (run : list Z -> list nat -> bool) (query : list heads) (infos : list BatchInfo) : M States (option (list Z * list nat)) := fun m =>
  match compute_topk_mask i rt rot_t pc buffer query infos m with
  | (Ok (mask, offsets), m') => (Ok (if run mask offsets then Some (mask, offsets) else None), m')
  | (Raise _, m') => (Ok None, m')
  end.

Definition run_rabitq_decode (i : Impl) (rt : Runtime) (rot_t : list (list (list F))) (pc : PagedCache) (buffer : list Z) (wrapper : Wrapper)
    (query : list heads) (req_ids : list string) (start_locs : list nat) : M States StepResult :=
  m ← get;
  infos ← lift_out (build_batch_info start_locs 0 req_ids m);
  match infos with
  | [] => mret NothingWritten
  | _ =>
      r ← match wrapper with
          | Some run =>
              if forallb (fun info => bi_num_tokens info =? 1) infos then run_batch_decode i rt rot_t pc buffer run query infos else mret None
          | None => mret None
          end;
      match r with
      | Some (mask, offsets) => mret (MaskedDecode mask offsets)
      | None => rows ← run_individual_decode i rt rot_t pc query infos; mret (IndividualDecode rows)
      end
  end.

(** * Forward *)

(** The batch of a step, as the metadata describes it. *)
Record StepMeta := mkStep {
  max_q_len : nat;
  num_decode_tokens : nat;
  req_ids : list string;
  query_start_loc : list nat;
  rabitq_decode_wrapper : Wrapper
}.

(** [forward], for one layer: the states after the step, and what it did. *)
Definition forward (i : Impl) (rt : Runtime) (md : StepMeta) (query key : list heads) (pc : PagedCache) (buffer : list Z)
  : M RabitQLayerState StepResult :=
  let is_prefill := 1 <? max_q_len md in
  if is_prefill && negb (bool_decide (req_ids md = [])) then
    l ← get;
    l ← lift_out (update_prefill_stats i query key (req_ids md) (query_start_loc md) l);
    modify (fun _ => l) ;;
    (if bool_decide (b_q rt = None) then mret tt
     else
       l ← lift_out (process_pending_quantization i key (req_ids md) (query_start_loc md) l);
       modify (fun _ => l)) ;;
    mret FlashInferStep
  else if (0 <? num_decode_tokens md) && negb (bool_decide (b_q rt = None)) && negb (bool_decide (req_ids md = [])) then
    l ← get;
    l ← lift_out (append_decode_kv (req_ids md) (query_start_loc md) l);
    modify (fun _ => l) ;;
    zoom request_states set_states
      (run_rabitq_decode i rt (rotation_t l) pc buffer (rabitq_decode_wrapper md) query (req_ids md) (query_start_loc md))
  else mret FlashInferStep.

(** * What a step does to the count of tokens *)

Lemma batch_loop_spec body ids : forall idx m m', batch_loop body idx ids m = Ok m' -> NoDup ids ->
  (forall id, id ∉ ids -> m' !! id = m !! id) /\ forall j id, ids !! j = Some id -> body (idx + j) (m !! id) = Ok (m' !! id).
Proof.
  induction ids as [|id0 ids IH]; intros idx m m' Hl Hnd; cbn [batch_loop] in Hl.
  { injection Hl as <-. by split. }
  apply NoDup_cons in Hnd as [Hid0 Hnd]. apply bind_Ok in Hl as (s & Hs & Hl).
  destruct (IH _ _ _ Hl Hnd) as [Hout Hin]. split.
  - intros id Hid. apply not_elem_of_cons in Hid as [Hne Hid]. rewrite (Hout id Hid). by apply lookup_partial_alter_ne.
  - intros [|j] id Hj; cbn in Hj.
    + simplify_eq. rewrite Nat.add_0_r, (Hout id Hid0), lookup_partial_alter_eq. done.
    + replace (idx + S j) with (S idx + j) by lia. rewrite <-(Hin j id Hj). f_equal. symmetry. apply lookup_partial_alter_ne.
      intros <-. apply Hid0. by eapply list_elem_of_lookup_2.
Qed.

(** The tokens a state has counted, and whether it is prepared. *)
Definition counted (o : option RabitQRequestState) : nat := default 0 (total_tokens <$> o).
Definition is_prepared (o : option RabitQRequestState) : bool := default false (prepared <$> o).

Definition keeps_count (m m' : States) : Prop :=
  forall id, total_tokens <$> m' !! id = total_tokens <$> m !! id /\ prepared <$> m' !! id = prepared <$> m !! id.

Lemma keeps_count_trans m1 m2 m3 : keeps_count m1 m2 -> keeps_count m2 m3 -> keeps_count m1 m3.
Proof. intros H1 H2 id. destruct (H1 id), (H2 id). split; congruence. Qed.

Lemma quantize_pending_count i rot bs table cache s s' :
  quantize_pending_keys i rot bs table cache s = Ok s' -> total_tokens s' = total_tokens s /\ prepared s' = prepared s.
Proof.
  unfold quantize_pending_keys. destruct (num_pending_decode_tokens s =? 0); [by intros [= <-]|].
  intros (keys & _ & Hq)%bind_Ok. destruct (centroid_k s), (centroid_q s); try done.
  apply bind_Ok in Hq as (rows & _ & Hq). destruct (metadata s); [|done]. destruct (grow_metadata _ _ _). by injection Hq as <-.
Qed.

Lemma wp_state_of id (Q : RabitQRequestState -> States -> Prop) (E : pyexc -> States -> Prop) m :
  (forall s, m !! id = Some s -> Q s m) -> E KeyError m -> wp (state_of id) Q E m.
Proof. intros HQ HE. unfold state_of. wp_steps. destruct (m !! id) eqn:?; [by apply HQ|done]. Qed.

(** The requests of the batch information are those of the batch, at their indices. *)
Lemma build_batch_info_idx locs ids : forall idx m infos, build_batch_info locs idx ids m = Ok infos ->
  Forall (fun info => exists j, bi_req_idx info = idx + j /\ ids !! j = Some (bi_req_id info)) infos.
Proof.
  induction ids as [|id ids IH]; intros idx m infos Hb; cbn [build_batch_info] in Hb; [by injection Hb as <-|].
  apply bind_Ok in Hb as (a & _ & (b & _ & (rest & Hrest & Hb)%bind_Ok)%bind_Ok).
  assert (Forall (fun info => exists j, bi_req_idx info = idx + j /\ (id :: ids) !! j = Some (bi_req_id info)) rest) as Hr.
  { eapply Forall_impl; [by eapply IH|]. intros info (j & Hj & Hid). exists (S j). split; [lia|done]. }
  injection Hb as <-. destruct (_ <=? _); [done|]. destruct (m !! id) as [s|]; [|done]. destruct (prepared s); [|done].
  constructor; [|done]. exists 0. split; [cbn; lia|done].
Qed.

(** A decode step changes the states through [quantize_if_full] only: an invariant of that is one of the step,
    however it ends. *)
Section decode_invariant.
Context (i : Impl) (rt : Runtime) (rot : list (list (list F))) (pc : PagedCache) (ids : list string) (I : States -> Prop).

Definition in_batch (info : BatchInfo) : Prop := ids !! bi_req_idx info = Some (bi_req_id info).
Context (Hfull : forall info m, in_batch info -> I m -> wp (quantize_if_full i rt rot pc info) (fun _ => I) (fun _ => I) m).

Lemma quantize_full_batches_inv infos m : Forall in_batch infos -> I m ->
  wp (quantize_full_batches i rt rot pc infos) (fun _ => I) (fun _ => I) m.
Proof.
  intros Hi Hm. unfold quantize_full_batches.
  eapply wp_mono; [apply (wp_forM _ (fun l m' => Forall in_batch l /\ I m') (fun _ => I)); [done|]| |done]; [|by intros ? ? [_ ?]].
  intros info l m' [[Hin Hl]%Forall_cons Hm']. eapply wp_mono; [by apply Hfull| |done]. by split.
Qed.

Lemma fill_masks_inv offsets query infos : forall qi mask m, I m ->
  wp (fill_masks i rt rot offsets query qi infos mask) (fun _ => I) (fun _ => I) m.
Proof.
  induction infos as [|info infos IH]; intros qi mask m Hm; cbn [fill_masks]; [by wp_step|].
  wp_step. apply wp_state_of; [|done]. intros s Hs. wp_step. apply wp_lift_any; [|done]. intros off _.
  wp_step. apply wp_lift_any; [|done]. intros sl _. by apply IH.
Qed.

Lemma compute_topk_mask_inv buffer query infos m : Forall in_batch infos -> I m ->
  wp (compute_topk_mask i rt rot pc buffer query infos) (fun _ => I) (fun _ => I) m.
Proof.
  intros Hi Hm. unfold compute_topk_mask. wp_step. eapply wp_mono; [by apply quantize_full_batches_inv| |done]. intros ? m1 H1. do 2 wp_step.
  destruct infos as [|info [|]].
  - cbn [mask_offsets fill_masks]. wp_steps. done.
  - wp_step. apply wp_state_of; [|done]. intros s _. wp_step. apply wp_lift_any; [|done]. intros mask _. by wp_step.
  - destruct (mask_offsets m1 0 _) as [offsets total]. wp_step. eapply wp_mono; [by apply fill_masks_inv| |done].
    intros mask m2 H2. by wp_step.
Qed.

Lemma run_individual_inv query infos : forall m, Forall in_batch infos -> I m ->
  wp (run_individual_decode i rt rot pc query infos) (fun _ => I) (fun _ => I) m.
Proof.
  induction infos as [|info infos IH]; intros m Hi Hm; cbn [run_individual_decode]; [by wp_step|].
  apply Forall_cons in Hi as [Hin Hi]. wp_step. eapply wp_mono; [by apply Hfull| |done]. intros ? m1 H1. wp_step.
  apply wp_state_of; [|done]. intros s _. wp_step. apply wp_lift_any; [|done]. intros rows _. wp_step.
  eapply wp_mono; [by apply IH| |done]. intros rows' m2 H2. by wp_step.
Qed.

Lemma run_rabitq_decode_inv buffer w query locs m : I m ->
  wp (run_rabitq_decode i rt rot pc buffer w query ids locs) (fun _ => I) (fun _ => I) m.
Proof.
  intros Hm. unfold run_rabitq_decode. do 3 wp_step. apply wp_lift_any; [|done]. intros infos Hinfos%build_batch_info_idx.
  assert (Forall in_batch infos) as Hi. { eapply Forall_impl; [done|]. intros info (j & Hj & ?). unfold in_batch. by rewrite Hj. }
  destruct infos as [|info infos]; [by wp_step|]. wp_step.
  apply (wp_mono _ (fun _ => I) _ (fun _ => I)); [| |done].
  - destruct w as [run|]; [|by wp_step]. destruct (forallb _ _); [|by wp_step]. unfold run_batch_decode, wp.
    pose proof (compute_topk_mask_inv buffer query (info :: infos) m Hi Hm) as Hc. unfold wp in Hc.
    by destruct (compute_topk_mask _ _ _ _ _ _ _ m) as [[[mask offs]|e] m'].
  - intros r m1 H1. destruct r as [[mask offs]|]; [by wp_step|]. wp_step.
    eapply wp_mono; [by apply run_individual_inv| |done]. intros rows m2 H2. by wp_step.
Qed.
End decode_invariant.

Lemma quantize_if_full_count i rt rot pc m0 info m : keeps_count m0 m ->
  wp (quantize_if_full i rt rot pc info) (fun _ => keeps_count m0) (fun _ => keeps_count m0) m.
Proof.
  intros Hm. unfold quantize_if_full. wp_step. apply wp_state_of; [|done].
  intros s Hs. destruct (_ <=? _); [|by wp_step]. wp_step. apply wp_lift_any; [|done]. intros s' Hq. wp_step.
  apply quantize_pending_count in Hq as [Ht Hp]. intros id. destruct (decide (id = bi_req_id info)) as [->|Hne].
  - rewrite lookup_insert_eq. cbn. rewrite Ht, Hp. destruct (Hm (bi_req_id info)) as [<- <-]. by rewrite Hs.
  - rewrite lookup_insert_ne by done. apply Hm.
Qed.

(** The new tokens of a request in a step. *)
Definition step_tokens (md : StepMeta) (id : string) : nat :=
  match list_find (eq id) (req_ids md) with
  | Some (j, _) => default 0 (query_start_loc md !! S j) - default 0 (query_start_loc md !! j)
  | None => 0
  end.

Lemma loc_Ok locs j a : loc locs j = Ok a <-> locs !! j = Some a.
Proof. unfold loc. destruct (locs !! j); naive_solver. Qed.

Lemma update_prefill_step_count i q k locs j o o' :
  update_prefill_step i q k locs j o = Ok o' -> exists a b, locs !! j = Some a /\ locs !! S j = Some b /\
    counted o' = counted o + (if is_prepared o then 0 else b - a) /\ is_prepared o' = is_prepared o /\
    (a < b -> exists s, o' = Some s /\ (prepared s = false -> count s <> 0)) /\ (b <= a -> o' = o).
Proof.
  unfold update_prefill_step. intros (a & Ha & (b & Hb & [= <-])%bind_Ok)%bind_Ok. apply loc_Ok in Ha, Hb. exists a, b.
  split; [done|]. split; [done|]. destruct (Nat.leb_spec b a) as [Hle|Hlt].
  - split_and!; [destruct (is_prepared o); lia|done|lia|done].
  - unfold update_prefill_request, counted, is_prepared. destruct o as [s|]; cbn.
    + destruct (prepared s) eqn:Hp; cbn; (split_and!; [lia|done| |lia]); intros _; eexists; (split; [done|]); cbn; [congruence|lia].
    + split_and!; [lia|done| |lia]. intros _. eexists. split; [done|]. cbn. lia.
Qed.

Lemma quantize_prefill_step_count i rot k locs j o o' a b :
  quantize_prefill_step i rot k locs j o = Ok o' -> locs !! j = Some a -> locs !! S j = Some b ->
  counted o' = counted o /\ (b <= a -> o' = o) /\
  (a < b -> (exists s, o = Some s /\ (prepared s = false -> count s <> 0)) -> is_prepared o' = true).
Proof.
  unfold quantize_prefill_step. intros Hq Ha Hb. destruct o as [s|].
  2:{ injection Hq as <-. split_and!; [done|done|]. by intros _ (? & ? & _). }
  destruct (prepared s || (count s =? 0)) eqn:Hpc.
  { injection Hq as <-. split_and!; [done|done|]. intros _ (s' & [= <-] & Hc). cbn. destruct (prepared s); [done|].
    cbn in Hpc. apply Nat.eqb_eq in Hpc. by destruct (Hc eq_refl). }
  apply bind_Ok in Hq as (a' & Ha' & Hq). apply bind_Ok in Hq as (b' & Hb' & Hq). apply loc_Ok in Ha', Hb'. rewrite Ha in Ha'. rewrite Hb in Hb'. injection Ha' as <-. injection Hb' as <-.
  destruct (Nat.leb_spec b a) as [Hle|Hlt]; [injection Hq as <-; split_and!; [done|done|lia]|].
  apply bind_Ok in Hq as (s' & Hs' & [= <-]). unfold prepare_request in Hs'. apply bind_Ok in Hs' as (rows & _ & [= <-]).
  split_and!; [done|lia|done].
Qed.

Lemma append_decode_step_count locs j o o' : append_decode_step locs j o = Ok o' ->
  exists a b, locs !! j = Some a /\ locs !! S j = Some b /\
    counted o' = counted o + (if is_prepared o then b - a else 0) /\ is_prepared o' = is_prepared o.
Proof.
  unfold append_decode_step. intros (a & Ha & (b & Hb & [= <-])%bind_Ok)%bind_Ok. apply loc_Ok in Ha, Hb. exists a, b.
  split; [done|]. split; [done|]. destruct (Nat.eqb_spec (b - a) 0); [destruct (is_prepared o); lia|].
  destruct o as [s|]; [|done]. unfold counted, is_prepared. cbn. destruct (prepared s) eqn:Hp; cbn; rewrite ?Hp; lia.
Qed.

Lemma step_tokens_at md j id a b : NoDup (req_ids md) -> req_ids md !! j = Some id ->
  query_start_loc md !! j = Some a -> query_start_loc md !! S j = Some b -> step_tokens md id = b - a.
Proof.
  intros Hnd Hj Ha Hb. unfold step_tokens.
  assert (list_find (eq id) (req_ids md) = Some (j, id)) as ->; [|by rewrite Ha, Hb].
  apply list_find_Some. split_and!; [done|done|]. intros k y Hk Hkj <-. assert (k = j) by (by eapply NoDup_lookup). lia.
Qed.

Lemma step_tokens_absent md id : id ∉ req_ids md -> step_tokens md id = 0.
Proof.
  intros Hid. unfold step_tokens. destruct (list_find (eq id) (req_ids md)) as [[j y]|] eqn:E; [|done].
  apply list_find_Some in E as (Hj & -> & _). destruct Hid. by eapply list_elem_of_lookup_2.
Qed.

(** The kinds of step. *)
Definition prefill_step (md : StepMeta) : bool := 1 <? max_q_len md.
Definition decode_step (md : StepMeta) : bool := negb (prefill_step md) && (0 <? num_decode_tokens md).

Lemma prefill_count i q k locs rot md id m m1 m2 :
  NoDup (req_ids md) -> locs = query_start_loc md ->
  batch_loop (fun idx => update_prefill_step i q k locs idx) 0 (req_ids md) m = Ok m1 ->
  batch_loop (fun idx => quantize_prefill_step i rot k locs idx) 0 (req_ids md) m1 = Ok m2 ->
  counted (m2 !! id) = counted (m !! id) + (if is_prepared (m !! id) then 0 else step_tokens md id) /\
  is_prepared (m2 !! id) = is_prepared (m !! id) || (0 <? step_tokens md id).
Proof.
  intros Hnd -> H1 H2. destruct (batch_loop_spec _ _ _ _ _ H1 Hnd) as [Hout1 Hin1]. destruct (batch_loop_spec _ _ _ _ _ H2 Hnd) as [Hout2 Hin2].
  destruct (decide (id ∈ req_ids md)) as [[j Hj]%list_elem_of_lookup|Hid].
  2:{ rewrite Hout2, Hout1, step_tokens_absent by done. cbn. rewrite orb_false_r. destruct (is_prepared _); split; lia || done. }
  specialize (Hin1 j id Hj). specialize (Hin2 j id Hj). cbn in Hin1, Hin2.
  destruct (update_prefill_step_count _ _ _ _ _ _ _ Hin1) as (a & b & Ha & Hb & Hc & Hp & Hlt & Hle).
  destruct (quantize_prefill_step_count _ _ _ _ _ _ _ a b Hin2 Ha Hb) as (Hc2 & Hle2 & Hlt2).
  rewrite (step_tokens_at md j id a b Hnd Hj Ha Hb), Hc2, Hc. split; [done|].
  destruct (Nat.ltb_spec 0 (b - a)).
  - rewrite orb_true_r. apply Hlt2; [lia|]. apply Hlt. lia.
  - rewrite orb_false_r, Hle2, Hp by lia. done.
Qed.

Lemma decode_count md id m m1 m2 :
  NoDup (req_ids md) -> batch_loop (fun idx => append_decode_step (query_start_loc md) idx) 0 (req_ids md) m = Ok m1 -> keeps_count m1 m2 ->
  counted (m2 !! id) = counted (m !! id) + (if is_prepared (m !! id) then step_tokens md id else 0) /\
  is_prepared (m2 !! id) = is_prepared (m !! id).
Proof.
  intros Hnd H1 Hk. destruct (batch_loop_spec _ _ _ _ _ H1 Hnd) as [Hout Hin].
  destruct (Hk id) as [Ht Hp]. unfold counted at 1, is_prepared at 2. rewrite Ht, Hp. fold (counted (m1 !! id)) (is_prepared (m1 !! id)).
  destruct (decide (id ∈ req_ids md)) as [[j Hj]%list_elem_of_lookup|Hid].
  - specialize (Hin j id Hj). cbn in Hin. destruct (append_decode_step_count _ _ _ _ Hin) as (a & b & Ha & Hb & Hc & Hp').
    by rewrite (step_tokens_at md j id a b Hnd Hj Ha Hb).
  - rewrite Hout, step_tokens_absent by done. destruct (is_prepared (m !! id)); split; lia || done.
Qed.

Lemma forward_count i rt md query key pc buffer l r l' id :
  forward i rt md query key pc buffer l = (Ok r, l') -> NoDup (req_ids md) -> b_q rt <> None ->
  let n := step_tokens md id in
  let o := request_states l !! id in
  let o' := request_states l' !! id in
  counted o' = counted o + (if prefill_step md then (if is_prepared o then 0 else n)
                            else if decode_step md then (if is_prepared o then n else 0) else 0) /\
  is_prepared o' = is_prepared o || (prefill_step md && (0 <? n)).
Proof.
  intros Hf Hnd Hbq n o o'. unfold forward in Hf. fold (prefill_step md) in Hf. unfold decode_step.
  assert (req_ids md = [] -> n = 0) as Hempty by (intros E; apply step_tokens_absent; rewrite E; apply not_elem_of_nil).
  unfold n, o, o' in *. clear n o o'. destruct (prefill_step md); cbn [andb negb] in *.
  - destruct (bool_decide_reflect (req_ids md = [])) as [E|E]; cbn [negb] in Hf.
    { rewrite andb_false_r in Hf. injection Hf as <- <-. rewrite Hempty by done. cbn. rewrite orb_false_r. destruct (is_prepared _); split; lia || done. }
    unfold mbind, M_bind, get, lift_out, modify in Hf. destruct (update_prefill_stats _ _ _ _ _ _) as [l1|] eqn:E1; [|done].
    rewrite bool_decide_eq_false_2 in Hf by done. unfold get in Hf.
    destruct (process_pending_quantization _ _ _ _ _) as [l2|] eqn:E2; [|done]. injection Hf as <- <-.
    unfold update_prefill_stats in E1. destruct (req_ids md) as [|id0 ids] eqn:Hids; [done|]. rewrite <-Hids in *.
    apply bind_Ok in E1 as (_ & _ & E1). apply bind_Ok in E1 as (m1 & E1 & [= <-]).
    unfold process_pending_quantization in E2. apply bind_Ok in E2 as (m2 & E2 & [= <-]). cbn in E2.
    by apply (prefill_count i query key (query_start_loc md) (rotation_t l) md id (request_states l) m1 m2).
  - destruct (bool_decide_reflect (b_q rt = None)) as [?|_]; [done|]. rewrite orb_false_r. cbn [negb] in Hf. rewrite andb_true_r in Hf.
    destruct (0 <? num_decode_tokens md) eqn:Hd; cbn [andb] in Hf; [|injection Hf as <- <-; split; [lia|done]].
    destruct (bool_decide_reflect (req_ids md = [])) as [E|E]; cbn [negb] in Hf.
    { injection Hf as <- <-. rewrite Hempty by done. destruct (is_prepared _); split; lia || done. }
    unfold mbind, M_bind, get, lift_out, modify in Hf. destruct (append_decode_kv _ _ _) as [l1|] eqn:E1; [|done].
    unfold append_decode_kv in E1. apply bind_Ok in E1 as (m1 & E1 & [= <-]). unfold zoom in Hf. cbn [request_states set_states rotation_t] in Hf.
    pose proof (run_rabitq_decode_inv i rt (rotation_t l) pc (req_ids md) (keeps_count m1) (fun info m _ => quantize_if_full_count i rt _ pc m1 info m)
      buffer (rabitq_decode_wrapper md) query (query_start_loc md) m1 ltac:(by split)) as Hk.
    unfold wp in Hk. destruct (run_rabitq_decode _ _ _ _ _ _ _ _ _ m1) as [[r'|e] m2]; [|done]. injection Hf as <- <-. cbn [request_states].
    by apply (decode_count md id (request_states l) m1 m2).
Qed.

(** ** Runs of steps *)

Inductive forward_run (i : Impl) (rt : Runtime) : list StepMeta -> RabitQLayerState -> RabitQLayerState -> Prop :=
| run_nil l : forward_run i rt [] l l
| run_cons md mds query key pc buffer l r l1 l2 :
    NoDup (req_ids md) -> forward i rt md query key pc buffer l = (Ok r, l1) -> forward_run i rt mds l1 l2 ->
    forward_run i rt (md :: mds) l l2.

(** The tokens of a request that reach the cache over some steps. *)
Definition cached_tokens (id : string) (mds : list StepMeta) : nat := foldr (fun md acc => step_tokens md id + acc) 0 mds.

(** Every step that brings tokens of the request is its first prefill, or a decode step after it. *)
Fixpoint one_prefill_then_decode (id : string) (prep : bool) (mds : list StepMeta) : Prop :=
  match mds with
  | [] => True
  | md :: mds =>
      (step_tokens md id = 0 \/ (prep = false /\ prefill_step md = true) \/ (prep = true /\ decode_step md = true)) /\
      one_prefill_then_decode id (prep || (prefill_step md && (0 <? step_tokens md id))) mds
  end.

Lemma run_count i rt id mds : forall l l', forward_run i rt mds l l' -> b_q rt <> None ->
  let o := request_states l !! id in
  let o' := request_states l' !! id in
  counted o' <= counted o + cached_tokens id mds /\
  (counted o' = counted o + cached_tokens id mds <-> one_prefill_then_decode id (is_prepared o) mds).
Proof.
  induction mds as [|md mds IH]; intros l l' Hrun Hbq; inversion Hrun as [|? ? query key pc buffer ? r l1 ? Hnd Hf Hrun']; subst.
  { cbn. split; [lia|]. split; [done|lia]. }
  destruct (forward_count i rt md query key pc buffer l r l1 id Hf Hnd Hbq) as [Hc Hp].
  destruct (IH l1 l' Hrun' Hbq) as [Hle Hiff]. cbv zeta in *. cbn [cached_tokens foldr one_prefill_then_decode].
  fold (cached_tokens id mds). rewrite Hp in Hiff. unfold decode_step in *.
  destruct (prefill_step md), (is_prepared (request_states l !! id)), (0 <? num_decode_tokens md); cbn [negb andb orb] in *;
    (split; [lia|]); split; intros HH; try (split; [first [lia|naive_solver lia]|apply Hiff; lia]);
    try (destruct HH as [HH1 HH2%Hiff]; destruct HH1 as [?|[[? ?]|[? ?]]]; try congruence; lia).
Qed.

(** ** Metadata *)

(** The metadata of a request whose cached keys are [keys]. *)
Record meta_ok (i : Impl) (rot : list (list (list F))) (s : RabitQRequestState) (keys : list heads) : Prop := {
  mk_total : total_tokens s = length keys;
  mk_sum : metadata_write_index s + num_pending_decode_tokens s = total_tokens s;
  mk_rows : exists buf cq ck, metadata s = Some buf /\ centroid_q s = Some cq /\ centroid_k s = Some ck /\
    length buf = metadata_capacity s /\ metadata_write_index s <= metadata_capacity s /\
    forall p, p < metadata_write_index s -> exists key row,
      keys !! p = Some key /\ quantize_token i ck rot (cq_reshaped i cq) key = Ok row /\ buf !! p = Some (Some row)
}.

Lemma quantize_tokens_spec i ck rot cq keys : forall rows, quantize_tokens i ck rot cq keys = Ok rows ->
  length rows = length keys /\ forall p row, rows !! p = Some row -> exists key, keys !! p = Some key /\ quantize_token i ck rot cq key = Ok row.
Proof.
  induction keys as [|key keys IH]; intros rows Hq; cbn [quantize_tokens] in Hq; [by injection Hq as <-|].
  apply bind_Ok in Hq as (m & Hm & (ms & Hms & [= <-])%bind_Ok). destruct (IH ms Hms) as [Hl Hr]. split; [cbn; lia|].
  intros [|p] row Hp; cbn in Hp; [simplify_eq; eauto|]. by apply Hr.
Qed.

Lemma write_rows_length buf start rows : start + length rows <= length buf -> length (write_rows buf start rows) = length buf.
Proof. intros Hl. unfold write_rows. rewrite !length_app, length_take, length_fmap, length_drop. lia. Qed.

Lemma write_rows_lookup buf start rows p : start + length rows <= length buf ->
  write_rows buf start rows !! p = (if decide (start <= p < start + length rows) then Some <$> (rows !! (p - start)) else buf !! p).
Proof.
  intros Hl. unfold write_rows. destruct (decide (p < start)) as [Hlt|Hge].
  - rewrite decide_False by lia. rewrite lookup_app_l by (rewrite length_take; lia). by apply lookup_take_lt.
  - rewrite lookup_app_r by (rewrite length_take; lia). rewrite length_take, Nat.min_l by lia.
    destruct (decide (p < start + length rows)) as [Hlt|Hge'].
    + rewrite decide_True by lia. rewrite lookup_app_l by (rewrite length_fmap; lia). by rewrite list_lookup_fmap.
    + rewrite decide_False by lia. rewrite lookup_app_r by (rewrite length_fmap; lia). rewrite length_fmap, lookup_drop. f_equal. lia.
Qed.

Lemma prepare_request_ok i rot keys s s' : prepare_request i rot keys s = Ok s' ->
  total_tokens s = length keys -> num_pending_decode_tokens s = 0 -> meta_ok i rot s' keys /\ prepared s' = true.
Proof.
  unfold prepare_request. intros (rows & Hq & [= <-])%bind_Ok Ht Hp. split; [|done].
  destruct (quantize_tokens_spec _ _ _ _ _ _ Hq) as [Hl Hr]. split; cbn; [done|lia|].
  eexists _, _, _. split_and!; try done; [rewrite write_rows_length, length_replicate; [done|rewrite length_replicate; lia]|lia|].
  intros p Hlt. destruct (lookup_lt_is_Some_2 rows p) as [row Hrow]; [lia|]. destruct (Hr p row Hrow) as (key & Hkey & Hqt).
  exists key, row. split_and!; [done|done|]. rewrite write_rows_lookup by (rewrite length_replicate; lia).
  rewrite decide_True by lia. by rewrite Nat.sub_0_r, Hrow.
Qed.

Lemma append_ok i rot s keys new : meta_ok i rot s keys -> prepared s = true ->
  meta_ok i rot (mkReq (sum_q s) (sum_k s) (count s) (prepared s) (centroid_q s) (centroid_k s) (total_tokens s + length new)
    (metadata s) (cq_dot_ck s) (metadata_capacity s) (metadata_write_index s) (num_pending_decode_tokens s + length new)) (keys ++ new).
Proof.
  intros [H1 H2 (buf & cq & ck & E1 & E2 & E3 & E4 & E5 & E6)] _. split; cbn; [rewrite length_app; lia|lia|].
  exists buf, cq, ck. split_and!; try done. intros p Hp. destruct (E6 p Hp) as (key & row & Hk & Hq & Hb).
  exists key, row. split_and!; [|done|done]. by apply lookup_app_l_Some.
Qed.

(** The block table leads to the keys. *)
Definition cache_holds (bs : nat) (table : list nat) (cache : list (list heads)) (keys : list heads) : Prop :=
  forall p key, keys !! p = Some key -> extract_key bs table cache p = Ok key.

Lemma extract_keys_spec bs table cache keys n : forall start, cache_holds bs table cache keys -> start + n <= length keys ->
  extract_keys bs table cache (seq start n) = Ok (take n (drop start keys)).
Proof.
  induction n as [|n IH]; intros start Hc Hl; [done|]. cbn [seq extract_keys].
  destruct (lookup_lt_is_Some_2 keys start) as [key Hkey]; [lia|]. rewrite (Hc start key Hkey). cbn [mbind outcome_bind].
  rewrite IH by (done || lia). cbn. by rewrite (drop_S _ _ _ Hkey).
Qed.

Lemma grow_metadata_ok s buf w buf' cap :
  grow_metadata w s buf = (buf', cap) -> length buf = metadata_capacity s -> metadata_write_index s <= metadata_capacity s -> metadata_write_index s <= w ->
  length buf' = cap /\ w <= cap /\ forall p, p < metadata_write_index s -> buf' !! p = buf !! p.
Proof.
  unfold grow_metadata. intros Hg Hl Hw Hww. destruct (Nat.ltb_spec (metadata_capacity s) w); injection Hg as <- <-.
  - split_and!; [rewrite length_app, length_take, length_replicate; lia|lia|].
    intros p Hp. rewrite lookup_app_l by (rewrite length_take; lia). by apply lookup_take_lt.
  - done.
Qed.

Lemma quantize_pending_ok i rot bs table cache s s' keys :
  quantize_pending_keys i rot bs table cache s = Ok s' -> meta_ok i rot s keys -> cache_holds bs table cache keys ->
  meta_ok i rot s' keys /\ num_pending_decode_tokens s' = 0.
Proof.
  unfold quantize_pending_keys. intros Hq Hok Hc. destruct (Nat.eqb_spec (num_pending_decode_tokens s) 0); [by injection Hq as <-|].
  destruct Hok as [H1 H2 (buf & cq & ck & E1 & E2 & E3 & E4 & E5 & E6)].
  rewrite (extract_keys_spec bs table cache keys) in Hq by (done || lia). cbn [mbind outcome_bind] in Hq. rewrite E1, E2, E3 in Hq.
  apply bind_Ok in Hq as (rows & Hrows & Hq). destruct (grow_metadata _ s buf) as [buf' cap] eqn:Hg. injection Hq as <-.
  destruct (quantize_tokens_spec _ _ _ _ _ _ Hrows) as [Hl Hr]. rewrite length_take, length_drop in Hl.
  destruct (grow_metadata_ok _ _ _ _ _ Hg E4 E5 ltac:(lia)) as (G1 & G2 & G3).
  split; [|done]. split; cbn; [done|lia|]. exists (write_rows buf' (metadata_write_index s) rows), cq, ck.
  split_and!; try done; [by rewrite write_rows_length by lia|]. intros p Hp. rewrite write_rows_lookup by lia. case_decide as Hd.
  - destruct (lookup_lt_is_Some_2 rows (p - metadata_write_index s)) as [row Hrow]; [lia|]. rewrite Hrow.
    destruct (Hr _ _ Hrow) as (key & Hkey & Hqt). exists key, row. split_and!; [|done|done].
    rewrite lookup_take_lt, lookup_drop in Hkey by lia. rewrite <-Hkey. f_equal. lia.
  - rewrite G3 by lia. apply E6. lia.
Qed.

(** ** A step keeps the metadata right *)

Lemma quantize_pending_prepared i rot bs table cache s s' : quantize_pending_keys i rot bs table cache s = Ok s' -> prepared s' = prepared s.
Proof. intros Hq. by apply quantize_pending_count in Hq as [_ ?]. Qed.

(** The metadata of every prepared request of the batch is right. *)
Definition batch_ok (i : Impl) (rot : list (list (list F))) (ids : list string) (keys_of : string -> list heads) (m : States) : Prop :=
  forall id s, id ∈ ids -> m !! id = Some s -> prepared s = true -> meta_ok i rot s (keys_of id).

Lemma quantize_if_full_ok i rt rot pc ids keys_of info m : in_batch ids info ->
  (forall j id, ids !! j = Some id -> cache_holds (pc_block_size pc) (pc_tables pc j) (pc_keys pc) (keys_of id)) ->
  batch_ok i rot ids keys_of m ->
  wp (quantize_if_full i rt rot pc info) (fun _ => batch_ok i rot ids keys_of) (fun _ => batch_ok i rot ids keys_of) m.
Proof.
  intros Hi Hc Hm. unfold quantize_if_full. wp_step. apply wp_state_of; [|done]. intros s Hs.
  destruct (_ <=? _); [|by wp_step]. wp_step. apply wp_lift_any; [|done]. intros s' Hq. wp_step.
  intros id s1 Hid Hs1 Hp. destruct (decide (id = bi_req_id info)) as [->|Hne].
  - rewrite lookup_insert_eq in Hs1. injection Hs1 as <-. rewrite (quantize_pending_prepared _ _ _ _ _ _ _ Hq) in Hp.
    eapply (quantize_pending_ok i rot _ _ _ s); [done|by apply (Hm (bi_req_id info))|by apply Hc].
  - rewrite lookup_insert_ne in Hs1 by done. by apply Hm.
Qed.

Lemma append_decode_ok i rot locs ids old new m m' :
  NoDup ids -> batch_loop (fun idx => append_decode_step locs idx) 0 ids m = Ok m' ->
  (forall j id a b, ids !! j = Some id -> locs !! j = Some a -> locs !! S j = Some b -> length (new id) = b - a) ->
  batch_ok i rot ids old m -> batch_ok i rot ids (fun id => old id ++ new id) m'.
Proof.
  intros Hnd Hl Hnew Hm id s [j Hj]%list_elem_of_lookup Hs Hp. destruct (batch_loop_spec _ _ _ _ _ Hl Hnd) as [_ Hin].
  specialize (Hin j id Hj). cbn in Hin. unfold append_decode_step in Hin.
  apply bind_Ok in Hin as (a & Ha & (b & Hb & Hin)%bind_Ok). apply loc_Ok in Ha, Hb. pose proof (Hnew j id a b Hj Ha Hb) as Hn.
  rewrite Hs in Hin. assert (id ∈ ids) as Hid by (by eapply list_elem_of_lookup_2). destruct (Nat.eqb_spec (b - a) 0) as [E|E].
  - injection Hin as Hin. rewrite E in Hn. apply nil_length_inv in Hn. rewrite Hn, app_nil_r. by apply Hm.
  - destruct (m !! id) as [s0|] eqn:Hs0; [|done]. destruct (prepared s0) eqn:Hp0; cbn in Hin; injection Hin as <-.
    + rewrite <-Hn, <-Hp0. apply append_ok; [by apply Hm|done].
    + congruence.
Qed.

(** Over any steps, the tokens a request's state has counted never exceed those that reached the cache, and
    are all of them exactly when the request is prefilled in one step and then only decoded in steps without
    a prefill.  A later chunk of a prefill, a decode token in a batch with a prefill, or a token of a
    request that was never in such a batch is not counted, for good. *)
Theorem forward_token_count i rt id mds l l' :
  forward_run i rt mds l l' -> b_q rt <> None -> request_states l !! id = None ->
  counted (request_states l' !! id) <= cached_tokens id mds /\
  (counted (request_states l' !! id) = cached_tokens id mds <-> one_prefill_then_decode id false mds).
Proof.
  intros Hrun Hbq Hid. pose proof (run_count i rt id mds l l' Hrun Hbq) as Hc. cbv zeta in Hc. by rewrite Hid in Hc.
Qed.

(** C11: The metadata of a prepared request describe its cached keys: row [p] is the code of key [p] under the
    centroids fixed at the prefill, rows and pending tokens add up to the count, and the buffer has room for its rows.
    The prefill that introduces a request establishes this, and every decode step keeps it, whatever quantization
    and growth it triggers and whether the batched mask succeeds or is abandoned, as long as the block tables lead
    to the cached keys. *)
Theorem forward_metadata i rt md query key pc buffer l o l' :
  forward i rt md query key pc buffer l = (o, l') -> NoDup (req_ids md) ->
  (forall r j id a b, o = Ok r -> prefill_step md = true -> b_q rt <> None ->
     req_ids md !! j = Some id -> query_start_loc md !! j = Some a -> query_start_loc md !! S j = Some b ->
     request_states l !! id = None -> a < b <= length key ->
     exists s, request_states l' !! id = Some s /\ prepared s = true /\ meta_ok i (rotation_t l) s (row_slice key a b)) /\
  (forall old new, decode_step md = true ->
     (forall j id a b, req_ids md !! j = Some id -> query_start_loc md !! j = Some a -> query_start_loc md !! S j = Some b ->
        length (new id) = b - a) ->
     (forall j id, req_ids md !! j = Some id -> cache_holds (pc_block_size pc) (pc_tables pc j) (pc_keys pc) (old id ++ new id)) ->
     batch_ok i (rotation_t l) (req_ids md) old (request_states l) -> is_Ok o ->
     batch_ok i (rotation_t l) (req_ids md) (fun id => if bool_decide (b_q rt = None) then old id else old id ++ new id) (request_states l')).
Proof.
  intros Hf Hnd. unfold forward in Hf. fold (prefill_step md) in Hf. unfold decode_step. split.
  - intros r j id a b -> Hpre Hbq Hj Ha Hb Hid Hab. rewrite Hpre in Hf. cbn [andb] in Hf.
    rewrite (bool_decide_eq_false_2 (req_ids md = [])) in Hf by (intros E; by rewrite E in Hj). cbn [negb] in Hf.
    unfold mbind, M_bind, get, lift_out, modify in Hf. destruct (update_prefill_stats _ _ _ _ _ _) as [l1|] eqn:E1; [|done].
    rewrite bool_decide_eq_false_2 in Hf by done. unfold get in Hf.
    destruct (process_pending_quantization _ _ _ _ _) as [l2|] eqn:E2; [|done]. injection Hf as <- <-.
    unfold update_prefill_stats in E1. destruct (req_ids md) as [|id0 ids] eqn:Hids; [done|]. rewrite <-Hids in *.
    apply bind_Ok in E1 as (_ & _ & (m1 & E1 & [= <-])%bind_Ok). unfold process_pending_quantization in E2.
    apply bind_Ok in E2 as (m2 & E2 & [= <-]). cbn [request_states set_states rotation_t] in *.
    destruct (batch_loop_spec _ _ _ _ _ E1 Hnd) as [_ Hin1]. destruct (batch_loop_spec _ _ _ _ _ E2 Hnd) as [_ Hin2].
    specialize (Hin1 j id Hj). specialize (Hin2 j id Hj). cbn in Hin1, Hin2. rewrite Hid in Hin1.
    unfold update_prefill_step in Hin1. rewrite !(proj2 (loc_Ok _ _ _) Ha), !(proj2 (loc_Ok _ _ _) Hb) in Hin1. cbn in Hin1.
    rewrite (proj2 (Nat.leb_gt _ _)) in Hin1 by lia. injection Hin1 as Hin1. rewrite <-Hin1 in Hin2. unfold quantize_prefill_step in Hin2.
    cbn [update_prefill_request get_request_state default prepared count new_request_state orb] in Hin2.
    rewrite (proj2 (loc_Ok _ _ _) Ha), (proj2 (loc_Ok _ _ _) Hb) in Hin2. cbn [mbind outcome_bind] in Hin2.
    destruct (_ =? 0) eqn:Hz in Hin2; [apply Nat.eqb_eq in Hz; cbn in Hz; lia|].
    rewrite (proj2 (Nat.leb_gt _ _)) in Hin2 by lia. apply bind_Ok in Hin2 as (s & Hs & Hin2). injection Hin2 as Hin2.
    exists s. rewrite <-Hin2. split; [done|].
    apply and_comm. eapply prepare_request_ok; [exact Hs| |done]. cbn. unfold row_slice. rewrite length_take, length_drop. lia.
  - intros old new Hd Hnew Hc Hm Hok. destruct (prefill_step md); [done|]. cbn [negb andb] in *. rewrite Hd in Hf. cbn [andb] in Hf.
    destruct (bool_decide_reflect (b_q rt = None)) as [Hbq|Hbq]; cbn [negb andb] in Hf; [by injection Hf as <- <-|].
    destruct (bool_decide_reflect (req_ids md = [])) as [E|E]; cbn [negb] in Hf.
    { intros id s Hid. rewrite E in Hid. by apply elem_of_nil in Hid. }
    unfold mbind, M_bind, get, lift_out, modify in Hf. destruct (append_decode_kv _ _ _) as [l1|e] eqn:E1.
    2:{ by injection Hf as <- <-. }
    unfold append_decode_kv in E1. apply bind_Ok in E1 as (m1 & E1 & [= <-]). unfold zoom in Hf. cbn [request_states set_states rotation_t] in Hf.
    pose proof (run_rabitq_decode_inv i rt (rotation_t l) pc (req_ids md) _ (fun info m Hi => quantize_if_full_ok i rt _ pc _ (fun id => old id ++ new id) info m Hi Hc)
      buffer (rabitq_decode_wrapper md) query (query_start_loc md) m1
      (append_decode_ok i (rotation_t l) _ _ old new _ m1 Hnd E1 Hnew Hm)) as Hr. unfold wp in Hr.
    destruct (run_rabitq_decode _ _ _ _ _ _ _ _ _ m1) as [[r'|e] m2]; by injection Hf as <- <-.
Qed.

(** ** The mask of a request *)

Definition tensor_wf (t : BoolTensor) : Prop := length (bt_data t) = foldr Nat.mul 1 (bt_shape t).

Lemma any_dim0_wf t : tensor_wf t -> tensor_wf (any_dim0 t).
Proof.
  unfold tensor_wf, any_dim0. destruct (bt_shape t) as [|d rest] eqn:E; [by rewrite E|]. intros _. cbn. by rewrite length_fmap, length_seq.
Qed.

Definition bit01 (b : bool) : Z := if b then 1%Z else 0%Z.

Lemma bits_forall (l : list bool) : Forall is_bit (bit01 <$> l).
Proof. apply Forall_forall. intros x ([|] & -> & _)%list_elem_of_fmap; [by right|by left]. Qed.

Lemma copy_into_spec n t dst dst' : tensor_wf t -> copy_into n t dst = Ok dst' -> n <= length dst ->
  exists front, length front = n /\ dst' = front ++ drop n dst /\ Forall is_bit front /\
    (forall dst2, copy_into n t dst2 = Ok (front ++ drop n dst2)) /\
    (bt_shape t = [] -> front = replicate n (bit01 (default false (head (bt_data t))))) /\
    (bt_shape t = [n] -> front = bit01 <$> bt_data t).
Proof.
  intros Hwf Hc Hn. unfold copy_into in *.
  assert (is_bit (default 0%Z (head ((fun b : bool => if b then 1%Z else 0%Z) <$> bt_data t)))) as Hb.
  { destruct (bt_data t) as [|[] ?]; cbn; [by left|by right|by left]. }
  assert (default 0%Z (head ((fun b : bool => if b then 1%Z else 0%Z) <$> bt_data t)) = bit01 (default false (head (bt_data t)))) as Hd.
  { by destruct (bt_data t) as [|[] ?]. }
  unfold tensor_wf in Hwf. destruct (bt_shape t) as [|d [|]] eqn:E; [|destruct (Nat.eqb_spec d n) as [->|]; [|destruct (Nat.eqb_spec d 1) as [->|]]|]; try done.
  - injection Hc as <-. eexists. split_and!; [apply length_replicate|done|by apply Forall_replicate|done|by rewrite Hd|done].
  - injection Hc as <-. cbn in Hwf. exists (bit01 <$> bt_data t). split_and!; [rewrite length_fmap; lia|done|apply bits_forall|done|done|done].
  - injection Hc as <-. eexists. split_and!; [apply length_replicate|done|by apply Forall_replicate|done|done|by intros [= ?]].
Qed.

Lemma fill_tail front rest a b : a = length front -> b = length front + length rest ->
  (if a <? b then fill_slice (front ++ rest) (Z.of_nat a) (Z.of_nat b) 1 else front ++ rest) = front ++ replicate (length rest) 1%Z.
Proof.
  intros -> ->. destruct (Nat.ltb_spec (length front) (length front + length rest)) as [Hlt|Hge].
  2:{ destruct rest; [done|]. cbn in Hge. lia. }
  apply list_eq. intros p. destruct (decide (p < length front + length rest)) as [Hp|Hp].
  - rewrite <-(Nat2Z.id p), fill_slice_lookup by (rewrite length_app; lia). rewrite Nat2Z.id.
    destruct (decide (p < length front)).
    + rewrite decide_False by lia. by rewrite !lookup_app_l by lia.
    + rewrite decide_True by lia. rewrite lookup_app_r by lia. symmetry. apply lookup_replicate. split; [done|lia].
  - rewrite !lookup_ge_None_2; [done|rewrite length_app, length_replicate; lia|rewrite fill_slice_length, length_app; lia].
Qed.

(** The indexed mask when everything from row [wi] on is pending: it does not depend on what was in the slice. *)
Lemma cpu_mask_value (slice : list Z) (idx : option (list Z)) wi np :
  length slice = wi + np -> (forall x, x ∈ default [] idx -> (0 <= x < Z.of_nat wi)%Z) ->
  update_topk_mask_cpu slice idx (Z.of_nat wi) (Z.of_nat (wi + np)) =
    Ok ((bit01 <$> ((fun p => bool_decide (Z.of_nat p ∈ default [] idx)) <$> seq 0 wi)) ++ replicate np 1%Z).
Proof.
  intros Hl Hx. assert (update_topk_mask_cpu slice idx (Z.of_nat wi) (Z.of_nat (wi + np)) =
    update_topk_mask_cpu slice (Some (default [] idx)) (Z.of_nat wi) (Z.of_nat (wi + np))) as -> by (by destruct idx).
  destruct (decide (wi + np = 0)) as [Ez|Ez].
  { assert (wi = 0 /\ np = 0) as [-> ->] by lia. destruct slice; [done|cbn in Hl; lia]. }
  destruct (cpu_mask_spec slice (default [] idx) (Z.of_nat wi) (Z.of_nat wi) (Z.of_nat (wi + np))) as (r & -> & R1 & R2 & _); [lia|lia|done|].
  unfold clamp_pending in R2. rewrite Z.min_l, Z.max_r in R2 by lia. f_equal.
  apply list_eq. intros p. destruct (decide (p < wi + np)) as [Hp|Hp].
  2:{ rewrite !lookup_ge_None_2; [done|rewrite length_app, !length_fmap, length_seq, length_replicate; lia|lia]. }
  rewrite <-(Nat2Z.id p), R2 by lia. rewrite Nat2Z.id. destruct (decide (p < wi)) as [Hw|Hw].
  - rewrite lookup_app_l by (rewrite !length_fmap, length_seq; lia). rewrite !list_lookup_fmap, lookup_seq_lt by done. cbn. f_equal.
    destruct (decide (Z.of_nat p ∈ default [] idx)) as [Hi|Hi]; [rewrite decide_True, bool_decide_eq_true_2 by tauto; done|].
    rewrite decide_False by (intros [?|?]; [done|lia]). by rewrite bool_decide_eq_false_2.
  - rewrite decide_True by lia. rewrite lookup_app_r by (rewrite !length_fmap, length_seq; lia). symmetry.
    apply lookup_replicate. rewrite !length_fmap, length_seq. split; [done|lia].
Qed.

(** Likewise for a mask that is copied. *)
Lemma copied_mask_value (slice : list Z) t wi np dst :
  length slice = wi + np -> tensor_wf t -> copy_into wi t slice = Ok dst ->
  exists front, length front = wi /\ Forall is_bit front /\
    (bt_shape t = [] -> front = replicate wi (bit01 (default false (head (bt_data t))))) /\
    (bt_shape t = [wi] -> front = bit01 <$> bt_data t) /\
    (forall slice', length slice' = wi + np -> exists dst', copy_into wi t slice' = Ok dst' /\
       (if wi <? wi + np then fill_slice dst' (Z.of_nat wi) (Z.of_nat (wi + np)) 1 else dst') = front ++ replicate np 1%Z).
Proof.
  intros Hl Hwf Hc. destruct (copy_into_spec wi t slice dst Hwf Hc ltac:(lia)) as (front & F1 & _ & F2 & F3 & F4 & F5).
  exists front. split_and!; [done|done|done|done|]. intros slice' Hl'. exists (front ++ drop wi slice'). split; [apply F3|].
  assert (length (drop wi slice') = np) as Hd by (rewrite length_drop; lia). rewrite fill_tail by lia. by rewrite Hd.
Qed.

(** What [compute_quantized_topk_indices] can answer. *)
Lemma selection_cases i rt rot s query k sel : compute_quantized_topk_indices i rt rot s query k = Ok (Some sel) ->
  exists codes buf cc, metadata s = Some buf /\
    let sc := packed_binary_scores codes (take (metadata_write_index s) buf) cc in
    match topp rt with
    | Some p => sel = MaskSel (softmax_top_p_mask sc (fsqrt (fofZ (Z.of_nat (head_size i)))) p)
    | None => exists n, sel = IndexSel (torch_topk sc n)
    end.
Proof.
  unfold compute_quantized_topk_indices. intros Hsel. repeat (case_match; try done); apply bind_Ok in Hsel as (codes & _ & Hsel);
    simplify_eq; eexists _, _, _; (split; [done|]); cbn; eauto.
Qed.


(** ** The reduction of a nucleus mask *)

(** The bit of position [j] in a tensor of [R] rows of [n] elements, reduced over the rows. *)
Definition any_row (R n : nat) (data : list bool) (j : nat) : bool := existsb (fun r => nth (r * n + j) data false) (seq 0 R).

Lemma any_row_spec R n data j : any_row R n data j = true <-> exists r, r < R /\ nth (r * n + j) data false = true.
Proof.
  unfold any_row. rewrite existsb_exists. split.
  - intros (r & Hr%in_seq & Hn). exists r. split; [lia|done].
  - intros (r & Hr & Hn). exists r. split; [apply in_seq; lia|done].
Qed.

Lemma any_row_flat R n data : length data = R * n -> existsb (any_row R n data) (seq 0 n) = existsb id data.
Proof.
  intros Hl. apply Bool.eq_iff_eq_true. rewrite !existsb_exists. split.
  - intros (j & Hj%in_seq & (r & Hr & Hn)%any_row_spec). exists true. split; [|done]. rewrite <-Hn. apply nth_In. nia.
  - intros (b & Hb & Hid). cbn in Hid. subst b. destruct (In_nth _ _ false Hb) as (q & Hq & Hn).
    assert (n <> 0) as Hn0 by (intros ->; lia). exists (q mod n). split; [apply in_seq; pose proof (Nat.mod_upper_bound q n Hn0); lia|].
    apply any_row_spec. exists (q / n). split; [apply Nat.Div0.div_lt_upper_bound; lia|].
    rewrite Nat.mul_comm, <-Nat.div_mod by done. done.
Qed.

(** Two reductions of a matrix leave no dimension: the bit says whether anything at all is set. *)
Lemma any_any_2d t R n : bt_shape t = [R; n] -> length (bt_data t) = R * n ->
  bt_shape (any_dim0 (any_dim0 t)) = [] /\ bt_data (any_dim0 (any_dim0 t)) = [existsb id (bt_data t)].
Proof.
  intros Hs Hl. unfold any_dim0. rewrite Hs. cbn. split; [done|]. f_equal. rewrite <-(any_row_flat R n) by done.
  assert (forall j, j < n -> nth (j * 1 + 0) ((fun j => existsb (fun r => nth (r * (n * 1) + j) (bt_data t) false) (seq 0 R)) <$> seq 0 (n * 1)) false
                            = any_row R n (bt_data t) j) as Hj.
  { intros j Hj. rewrite !Nat.mul_1_r, Nat.add_0_r. apply nth_lookup_Some. rewrite list_lookup_fmap, lookup_seq_lt by lia. done. }
  apply Bool.eq_iff_eq_true. rewrite !existsb_exists.
  split; intros (j & Hin & Hb); exists j; (split; [done|]); apply in_seq in Hin as [_ Hlt].
  - by rewrite Hj in Hb by lia.
  - by rewrite Hj by lia.
Qed.

(** Of a tensor with a head dimension they leave the positions. *)
Lemma any_any_3d t R K n : bt_shape t = [R; K; n] ->
  bt_shape (any_dim0 (any_dim0 t)) = [n] /\ bt_data (any_dim0 (any_dim0 t)) = any_row (R * K) n (bt_data t) <$> seq 0 n.
Proof.
  intros Hs. unfold any_dim0. rewrite Hs. cbn. split; [done|]. rewrite Nat.mul_1_r. apply list_fmap_ext. intros j ? [-> Hj]%lookup_seq. cbn.
  apply Bool.eq_iff_eq_true. rewrite any_row_spec, existsb_exists. split.
  - intros (k & [_ Hk]%in_seq & Hn). rewrite (nth_lookup_Some _ _ _ (any_row R (K * n) (bt_data t) (k * n + j))) in Hn
      by (rewrite list_lookup_fmap, lookup_seq_lt by nia; done).
    apply any_row_spec in Hn as (r & Hr & Hn). exists (r * K + k). split; [nia|]. rewrite <-Hn. f_equal. lia.
  - intros (q & Hq & Hn). assert (K <> 0) as HK by (intros ->; lia). pose proof (Nat.mod_upper_bound q K HK) as Hm.
    pose proof (Nat.div_mod q K HK) as Hd. exists (q mod K). split; [apply in_seq; lia|].
    rewrite (nth_lookup_Some _ _ _ (any_row R (K * n) (bt_data t) (q mod K * n + j)))
      by (rewrite list_lookup_fmap, lookup_seq_lt by nia; done).
    apply any_row_spec. exists (q / K). split; [apply Nat.Div0.div_lt_upper_bound; lia|]. rewrite <-Hn. f_equal. nia.
Qed.

(** A nucleus mask is reduced over the dimension of the tokens and then over the next one.  For the matrix
    [num_tokens x num_quantized] that the score operator returns the second reduction is over the positions, so
    one selected position selects every quantized token: the mask of the request is then all ones.  Only a mask
    with a head dimension in between is reduced to the positions that some token and head selected. *)
Theorem top_p_selects_all i rt rot s query slice t mask :
  metadata_write_index s + num_pending_decode_tokens s = total_tokens s -> length slice = total_tokens s ->
  compute_quantized_topk_indices i rt rot s query (default (Z.of_nat (metadata_write_index s)) (topk rt)) = Ok (Some (MaskSel t)) ->
  tensor_wf t -> request_mask i rt rot s query slice = Ok mask ->
  (forall T, bt_shape t = [T; metadata_write_index s] ->
     mask = replicate (metadata_write_index s) (bit01 (existsb id (bt_data t))) ++ replicate (num_pending_decode_tokens s) 1%Z) /\
  (forall T K, bt_shape t = [T; K; metadata_write_index s] ->
     mask = (bit01 <$> (any_row (T * K) (metadata_write_index s) (bt_data t) <$> seq 0 (metadata_write_index s)))
            ++ replicate (num_pending_decode_tokens s) 1%Z).
Proof.
  intros Hsum Hlen Hsel Hwf. unfold request_mask.
  assert ((metadata_write_index s =? 0) || bool_decide (metadata s = None) = false) as ->.
  { unfold compute_quantized_topk_indices in Hsel. destruct (metadata s), (b_q rt); try done. destruct (metadata_write_index s =? 0); [done|].
    by rewrite bool_decide_eq_false_2. }
  rewrite Hsel. cbn [mbind outcome_bind]. rewrite <-Hsum in *. rewrite Nat.add_sub.
  destruct (copy_into _ _ slice) as [dst|] eqn:Hcopy; [|done]. cbn [mbind outcome_bind]. intros [= <-].
  destruct (copied_mask_value slice _ _ (num_pending_decode_tokens s) dst Hlen ltac:(by apply any_dim0_wf, any_dim0_wf) Hcopy)
    as (front & _ & _ & F1 & F2 & F3). destruct (F3 slice Hlen) as (dst0 & E0 & Ef).
  rewrite Hcopy in E0. injection E0 as <-. rewrite Ef. split.
  - intros T Hs. destruct (any_any_2d t T (metadata_write_index s) Hs) as [A1 A2]; [unfold tensor_wf in Hwf; rewrite Hs in Hwf; cbn in Hwf; lia|].
    by rewrite (F1 A1), A2.
  - intros T K Hs. destruct (any_any_3d t T K _ Hs) as [A1 A2]. by rewrite (F2 A1), A2.
Qed.

(** ** The fallback *)

Lemma request_sel i rt rot s q k :
  (if (metadata_write_index s =? 0) || bool_decide (metadata s = None) then Ok None
   else compute_quantized_topk_indices i rt rot s q k) = compute_quantized_topk_indices i rt rot s q k.
Proof.
  unfold compute_quantized_topk_indices. destruct (metadata s) as [buf|]; [|by rewrite orb_true_r].
  rewrite (bool_decide_eq_false_2 (Some buf = None)), orb_false_r by done.
  destruct (metadata_write_index s =? 0); [|done]. by destruct (b_q rt).
Qed.

(** A mask made of a selection and of pending tokens, and a list of the same positions. *)
Lemma mask_matches (sel : list bool) np (idx : list Z) :
  (forall x, x ∈ idx <-> exists p, x = Z.of_nat p /\ sel !! p = Some true) ->
  forall p, p < length sel + np ->
    ((bit01 <$> sel) ++ replicate np 1%Z) !! p = Some 1%Z <-> Z.of_nat p ∈ idx ++ (Z.of_nat <$> seq (length sel) np).
Proof.
  intros Hidx p Hp. rewrite elem_of_app, Hidx, list_elem_of_fmap. destruct (decide (p < length sel)) as [Hlt|Hge].
  - rewrite lookup_app_l by (by rewrite length_fmap). rewrite list_lookup_fmap. destruct (lookup_lt_is_Some_2 sel p Hlt) as [b Hb]. rewrite Hb.
    split.
    + intros Hm. left. exists p. split; [done|]. by destruct b.
    + intros [(p' & ->%Nat2Z.inj & Hs)|(p' & ->%Nat2Z.inj & Hs%elem_of_seq)]; [by simplify_eq|lia].
  - rewrite lookup_app_r, length_fmap by (rewrite length_fmap; lia). split.
    + intros _. right. exists p. split; [done|]. apply elem_of_seq. lia.
    + intros _. apply lookup_replicate. split; [done|lia].
Qed.

(** The per-request fallback attends to the positions whose mask bit is set when tokens are selected by their rank.
    With a nucleus it does not: of a matrix of selected positions the two reductions leave a scalar, whose indices cannot
    be concatenated with the pending ones, so the fallback raises, and attends to nothing when none is pending,
    where the mask selects every token. *)
Theorem individual_decode_matches_mask i rt rot s q slice mask :
  metadata_write_index s + num_pending_decode_tokens s = total_tokens s -> length slice = total_tokens s ->
  (forall codes buf cc k x, metadata s = Some buf ->
     x ∈ torch_topk (packed_binary_scores codes (take (metadata_write_index s) buf) cc) k -> (0 <= x < Z.of_nat (metadata_write_index s))%Z) ->
  request_mask i rt rot s q slice = Ok mask ->
  (topp rt = None -> exists idx, individual_indices i rt rot s q = Ok idx /\
     forall p, p < total_tokens s -> mask !! p = Some 1%Z <-> Z.of_nat p ∈ idx) /\
  (forall t T, compute_quantized_topk_indices i rt rot s q (default (Z.of_nat (metadata_write_index s)) (topk rt)) = Ok (Some (MaskSel t)) ->
     bt_shape t = [T; metadata_write_index s] ->
     individual_indices i rt rot s q = if 0 <? num_pending_decode_tokens s then Raise RuntimeError else Ok []).
Proof.
  intros Hsum Hlen Hidx. unfold request_mask, individual_indices. rewrite request_sel. intros Hmask. split.
  - intros Hp. destruct (compute_quantized_topk_indices _ _ _ _ _ _) as [sel|] eqn:Hsel; [|done]. cbn [mbind outcome_bind] in *.
    rewrite <-Hsum in *. rewrite Nat.add_sub in *.
    set (l := match sel with Some (IndexSel idx) => idx | _ => [] end).
    assert (forall x, x ∈ l -> (0 <= x < Z.of_nat (metadata_write_index s))%Z) as Hl.
    { destruct sel as [[|idx]|]; [by intros x ?%elem_of_nil| |by intros x ?%elem_of_nil].
      apply selection_cases in Hsel as (codes & buf & cc & Hbuf & Hs). rewrite Hp in Hs. destruct Hs as [n [= ->]]. intros x. by apply Hidx. }
    assert (exists idx, match sel with
        | Some sel => if 0 <? metadata_write_index s then match sel with MaskSel m => nonzero (any_dim0 (any_dim0 m)) | IndexSel idx => Some (merge_sort Z.le idx) end else Some []
        | None => Some []
        end = Some idx /\ (forall x, x ∈ idx <-> x ∈ l) /\
        Ok mask = update_topk_mask_cpu slice (Some l) (Z.of_nat (metadata_write_index s)) (Z.of_nat (metadata_write_index s + num_pending_decode_tokens s)))
      as (idx & -> & Hin & Hm).
    { destruct sel as [[m|idx]|].
      - apply selection_cases in Hsel as (? & ? & ? & _ & Hs). rewrite Hp in Hs. by destruct Hs.
      - destruct (0 <? metadata_write_index s) eqn:E.
        + exists (merge_sort Z.le idx). split_and!; [done| |done]. intros x. subst l. by rewrite (merge_sort_Permutation Z.le idx).
        + exists []. split_and!; [done| |done]. apply Nat.ltb_ge in E. intros x. split; [by intros ?%elem_of_nil|]. intros Hx%Hl. lia.
      - exists []. split_and!; [done|done|]. by rewrite <-Hmask. }
    rewrite cpu_mask_value in Hm by done. injection Hm as ->. cbn [default].
    set (bits := (fun p => bool_decide (Z.of_nat p ∈ l)) <$> seq 0 (metadata_write_index s)).
    assert (length bits = metadata_write_index s) as Hb by (unfold bits; by rewrite length_fmap, length_seq).
    assert (forall x, x ∈ idx <-> exists p, x = Z.of_nat p /\ bits !! p = Some true) as Hx.
    { intros x. rewrite Hin. split.
      - intros Hx. pose proof (Hl x Hx). exists (Z.to_nat x). split; [lia|]. unfold bits. rewrite list_lookup_fmap, lookup_seq_lt by lia. cbn.
        rewrite Z2Nat.id by lia. by rewrite bool_decide_eq_true_2.
      - intros (p & -> & Hp'). unfold bits in Hp'. rewrite list_lookup_fmap in Hp'. destruct (seq _ _ !! p) as [p'|] eqn:E; [|done].
        apply lookup_seq in E as [-> _]. cbn in Hp'. injection Hp' as Hp'. by apply bool_decide_eq_true in Hp'. }
    pose proof (mask_matches bits (num_pending_decode_tokens s) idx Hx) as Hmm. rewrite Hb in Hmm.
    destruct (Nat.ltb_spec 0 (num_pending_decode_tokens s)) as [Hn|Hn]; eexists; (split; [done|]); [exact Hmm|].
    intros p Hp'. specialize (Hmm p Hp'). replace (num_pending_decode_tokens s) with 0 in Hmm |- * by lia.
    cbn [seq fmap list_fmap] in Hmm. rewrite (app_nil_r idx) in Hmm. exact Hmm.
  - intros t T Hsel Hs. rewrite Hsel. cbn [mbind outcome_bind].
    assert (nonzero (any_dim0 (any_dim0 t)) = None) as -> by (unfold nonzero, any_dim0; by rewrite Hs).
    destruct (0 <? metadata_write_index s) eqn:E; [by destruct (0 <? _)|].
    apply Nat.ltb_ge in E. unfold compute_quantized_topk_indices in Hsel. destruct (metadata s), (b_q rt); try done.
    by replace (metadata_write_index s) with 0 in Hsel by lia.
Qed.
End backend.

(** * A small batch

    Integers as scalars, one head of 32 dimensions, pages of two tokens, and operators that score a row by its
    position. *)
#[local] Instance z_scalar : Scalar Z := {
  f0 := 0%Z; f1 := 1%Z; fadd := Z.add; fsub := Z.sub; fmul := Z.mul; fdiv := Z.div; fopp := Z.opp;
  fsqrt := Z.sqrt; fround x := x; fle := Z.leb; fofZ z := z; ftoZ z := z; flit m e := (m * 10 ^ e)%Z;
  fsum l := foldr Z.add 0%Z l; fnorm l := Z.sqrt (foldr Z.add 0%Z (zip_with Z.mul l l))
}.

Definition ex_impl : Impl := mkImpl 1 1 32 false 16.
Definition ex_key (x : Z) : list (list Z) := [(fun d => (x * Z.of_nat d + 1)%Z) <$> seq 0 32].
Definition ex_rot : list (list (list Z)) := [(fun r => (fun d => if r =? d then 1%Z else 0%Z) <$> seq 0 32) <$> seq 0 32].
Definition ex_layer : RabitQLayerState (F := Z) := mkLayer ex_rot ∅.
Definition ex_rt (p : option Z) : Runtime (F := Z) := mkRuntime (Some 4) (Some 1%Z) p 1.
Definition ex_scores (codes : list (list (QueryCode Z))) (rows : list (option (list (HeadMeta Z)))) (cc : list Z) : nat := length rows.
Definition ex_top_p (n : nat) (_ _ : Z) : BoolTensor := mkBools [1; n] ((fun j => j =? 0) <$> seq 0 n).
Definition ex_topk (n k : nat) : list Z := Z.of_nat <$> seq (n - k) (Nat.min k n).
Definition ex_forward := forward ex_scores ex_top_p ex_topk ex_impl.
Definition ex_paged (keys : list (list (list Z))) : PagedCache (F := Z) := mkPaged 2 (fun _ => [1; 0]) [drop 2 keys; take 2 keys].
Definition ex_prefill : StepMeta := mkStep 2 0 ["r"%string] [0; 2] None.
Definition ex_decode : StepMeta := mkStep 1 1 ["r"%string] [0; 1] (Some (fun _ _ => true)).
Definition ex_keys : list (list (list Z)) := [ex_key 1; ex_key 2].
Definition ex_new : list (list Z) := ex_key (-3).
Definition ex_pages : PagedCache (F := Z) := ex_paged (ex_keys ++ [ex_new]).
Definition ex_after_prefill := snd (ex_forward (ex_rt None) ex_prefill ex_keys ex_keys ex_pages [] ex_layer).
Definition ex_decode_step := ex_forward (ex_rt None) ex_decode [ex_key 2] [ex_new] ex_pages [] ex_after_prefill.

Example ex_decode_masks : fst ex_decode_step = Ok (MaskedDecode [0; 0; 1]%Z [0]).
Proof. vm_compute. reflexivity. Qed.

Lemma forward_token_count_witness :
  counted (request_states (snd ex_decode_step) !! "r"%string) <= cached_tokens "r" [ex_prefill; ex_decode] /\
  (counted (request_states (snd ex_decode_step) !! "r"%string) = cached_tokens "r" [ex_prefill; ex_decode] <->
     one_prefill_then_decode "r" false [ex_prefill; ex_decode]).
Proof.
  apply (forward_token_count ex_scores ex_top_p ex_topk ex_impl (ex_rt None) "r" [ex_prefill; ex_decode] ex_layer (snd ex_decode_step)).
  - apply (run_cons _ _ _ _ _ ex_prefill _ ex_keys ex_keys ex_pages [] _ FlashInferStep ex_after_prefill).
    + apply NoDup_singleton.
    + vm_compute. reflexivity.
    + apply (run_cons _ _ _ _ _ ex_decode _ [ex_key 2] [ex_new] ex_pages [] _ (MaskedDecode [0; 0; 1]%Z [0]) (snd ex_decode_step)).
      * apply NoDup_singleton.
      * vm_compute. reflexivity.
      * apply run_nil.
  - discriminate.
  - reflexivity.
Defined.

Lemma forward_metadata_witness :
  exists s, request_states ex_after_prefill !! "r"%string = Some s /\ prepared s = true /\ meta_ok ex_impl ex_rot s ex_keys.
Proof.
  refine (proj1 (forward_metadata ex_scores ex_top_p ex_topk ex_impl (ex_rt None) ex_prefill ex_keys ex_keys ex_pages [] ex_layer
    (Ok FlashInferStep) ex_after_prefill _ _) FlashInferStep 0 "r"%string 0 2 _ _ _ _ _ _ _ _).
  - vm_compute. reflexivity.
  - apply NoDup_singleton.
  - reflexivity.
  - reflexivity.
  - discriminate.
  - reflexivity.
  - reflexivity.
  - reflexivity.
  - reflexivity.
  - cbn. lia.
Defined.

(** Two quantized tokens and a pending one. *)
Definition ex_state (p : option Z) : RabitQRequestState (F := Z) :=
  match request_states (snd (forward ex_scores ex_top_p ex_topk ex_impl (mkRuntime (Some 4) (Some 1%Z) p 8) ex_decode [ex_key 2] [ex_new] ex_pages []
          ex_after_prefill)) !! "r"%string with
  | Some s => s
  | None => new_request_state ex_impl
  end.


(** The matrix selects position 0 only, and the request attends to both positions. *)
Lemma top_p_selects_all_witness :
  [1; 1; 1]%Z = replicate 2 (bit01 (existsb id [true; false])) ++ replicate 1 1%Z.
Proof.
  refine (proj1 (top_p_selects_all ex_scores ex_top_p ex_topk ex_impl (ex_rt (Some 1%Z)) ex_rot (ex_state (Some 1%Z)) [ex_key 2] [7; 7; 7]%Z
    (mkBools [1; 2] [true; false]) [1; 1; 1]%Z _ _ _ _ _) 1 _); vm_compute; reflexivity.
Defined.

Lemma individual_decode_matches_mask_witness :
  (exists idx, individual_indices ex_scores ex_top_p ex_topk ex_impl (ex_rt None) ex_rot (ex_state None) [ex_key 2] = Ok idx /\
     forall p, p < 3 -> [0; 1; 1]%Z !! p = Some 1%Z <-> Z.of_nat p ∈ idx) /\
  individual_indices ex_scores ex_top_p ex_topk ex_impl (ex_rt (Some 1%Z)) ex_rot (ex_state (Some 1%Z)) [ex_key 2] = Raise RuntimeError.
Proof.
  assert (forall o codes buf cc k x, metadata (ex_state o) = Some buf ->
     x ∈ ex_topk (ex_scores codes (take 2 buf) cc) k -> (0 <= x < 2)%Z) as Htop.
  { intros o codes buf cc k x Hbuf (j & -> & Hj%elem_of_seq)%list_elem_of_fmap. unfold ex_scores in Hj. rewrite length_take in Hj. lia. }
  split.
  - refine (proj1 (individual_decode_matches_mask ex_scores ex_top_p ex_topk ex_impl (ex_rt None) ex_rot (ex_state None) [ex_key 2] [7; 7; 7]%Z
      [0; 1; 1]%Z _ _ (Htop None) _) _); vm_compute; reflexivity.
  - refine (proj2 (individual_decode_matches_mask ex_scores ex_top_p ex_topk ex_impl (ex_rt (Some 1%Z)) ex_rot (ex_state (Some 1%Z)) [ex_key 2] [7; 7; 7]%Z
      [1; 1; 1]%Z _ _ (Htop (Some 1%Z)) _) (mkBools [1; 2] [true; false]) 1 _ _); vm_compute; reflexivity.
Defined.
