(* ===== verification/PyTensor.v ===== *)
(** What the PyTorch library under [src/rabitqcache] uses of Python and of torch: slices, masks, gathers and scatters as
    definitions, and the operators that choose an order among equals or are transcendental ([softmax], [sort], [topk])
    as the interface [TorchOps], whose documented behaviour is [TorchLaws].

    A tensor is a list of its rows.  [exact_ops] at the end is an implementation of the interface over the rationals. *)
From stdpp Require Import base sets list sorting.
From Stdlib Require Import ZArith QArith Qcanon Lia Ring.
From S2P Require Import Prelude RabitqOps RabitqQuant.
Open Scope nat_scope.

(** * Slices *)

(** The position a slice bound stands for in a sequence of [n] elements. *)
Definition py_index (n : nat) (i : Z) : nat := Z.to_nat (if (i <? 0)%Z then Z.max 0 (Z.of_nat n + i) else Z.min i (Z.of_nat n)).

(** [l[start:stop]], [l[start:]] and [l[:stop]]. *)
Definition py_slice {A} (start stop : Z) (l : list A) : list A :=
  let a := py_index (length l) start in let b := py_index (length l) stop in take (b - a) (drop a l).
Definition py_from {A} (start : Z) (l : list A) : list A := drop (py_index (length l) start) l.
Definition py_until {A} (stop : Z) (l : list A) : list A := take (py_index (length l) stop) l.

(** [mask[start:stop] = True] for positions [a] and [b]. *)
Definition fill_true (a b : nat) (mask : list bool) : list bool := imap (fun i x => if (a <=? i) && (i <? b) then true else x) mask.

(** [mask[start:stop] = values]: the lengths agree, or [values] has one element, or torch raises. *)
Definition assign_slice (start stop : Z) (values mask : list bool) : outcome (list bool) :=
  let a := py_index (length mask) start in let b := Nat.max a (py_index (length mask) stop) in
  if length values =? b - a then Ok (imap (fun i x => if (a <=? i) && (i <? b) then nth (i - a) values false else x) mask)
  else match values with
       | [v] => Ok (imap (fun i x => if (a <=? i) && (i <? b) then v else x) mask)
       | _ => Raise RuntimeError
       end.

(** [mask.scatter_(index=idx, src=src)] into a row. *)
Definition scatter {A} (idx : list nat) (src : list A) (row : list A) : list A :=
  foldl (fun acc '(i, b) => <[i := b]> acc) row (zip idx src).

(** [l[index]] for every index of a list. *)
Definition gather {A} (d : A) (idx : list nat) (l : list A) : list A := (fun i => nth i l d) <$> idx.

Section slices.
Implicit Types n i : nat.

Lemma py_index_nonneg n (i : Z) : (0 <= i)%Z -> py_index n i = Nat.min (Z.to_nat i) n.
Proof. intros Hi. unfold py_index. destruct (Z.ltb_spec i 0); lia. Qed.

Lemma py_index_neg n (i : Z) : (i < 0)%Z -> py_index n i = n - Z.to_nat (- i).
Proof. intros Hi. unfold py_index. destruct (Z.ltb_spec i 0); lia. Qed.

Lemma py_index_le n (i : Z) : py_index n i <= n.
Proof. unfold py_index. destruct (Z.ltb_spec i 0); lia. Qed.

Lemma fill_true_length a b mask : length (fill_true a b mask) = length mask.
Proof. apply length_imap. Qed.

Lemma fill_true_lookup a b mask i : fill_true a b mask !! i = (fun x => if (a <=? i) && (i <? b) then true else x) <$> mask !! i.
Proof. unfold fill_true. by rewrite list_lookup_imap. Qed.

Lemma assign_slice_lookup (start stop : nat) values mask i :
  start <= stop -> stop <= length mask -> length values = stop - start ->
  exists mask', assign_slice (Z.of_nat start) (Z.of_nat stop) values mask = Ok mask' /\ length mask' = length mask /\
    mask' !! i = if (start <=? i) && (i <? stop) then values !! (i - start) else mask !! i.
Proof.
  intros Hs Hm Hv. unfold assign_slice. rewrite !py_index_nonneg, !Nat2Z.id, !Nat.min_l, (Nat.max_r start stop), Hv, Nat.eqb_refl by lia.
  eexists. split; [done|]. split; [apply length_imap|]. rewrite list_lookup_imap.
  destruct (Nat.leb_spec start i), (Nat.ltb_spec i stop); cbn; try (by destruct (mask !! i)).
  destruct (lookup_lt_is_Some_2 mask i) as [x Hx]; [lia|]. rewrite Hx. cbn.
  destruct (lookup_lt_is_Some_2 values (i - start)) as [y Hy]; [lia|]. rewrite Hy. f_equal. by apply nth_lookup_Some.
Qed.
End slices.

(** ** Scatters *)

Section scatters.
Context {A : Type}.

Lemma scatter_length idx : forall (src row : list A), length (scatter idx src row) = length row.
Proof.
  unfold scatter. induction idx as [|i idx IH]; intros [|b src] row; try done. cbn. rewrite IH. apply length_insert.
Qed.

Lemma scatter_other idx : forall (src row : list A) i, i ∉ idx -> scatter idx src row !! i = row !! i.
Proof.
  unfold scatter. induction idx as [|j idx IH]; intros [|b src] row i Hi; try done. cbn.
  rewrite IH by set_solver. apply list_lookup_insert_ne. set_solver.
Qed.

Lemma scatter_at idx : forall (src row : list A) k i b, NoDup idx -> idx !! k = Some i -> src !! k = Some b -> i < length row ->
  scatter idx src row !! i = Some b.
Proof.
  induction idx as [|j idx IH]; intros src row k i b Hnd Hi Hb Hlt; [done|]. apply NoDup_cons in Hnd as [Hj Hnd].
  destruct src as [|c src]; [done|]. change (scatter (j :: idx) (c :: src) row) with (scatter idx src (<[j:=c]> row)).
  destruct k as [|k]; cbn in Hi, Hb.
  - injection Hi as ->. injection Hb as ->. rewrite scatter_other by done. by apply list_lookup_insert_eq.
  - apply (IH _ _ k); rewrite ?length_insert; done.
Qed.
End scatters.

(** * Operators of torch *)

(** [argsort_descending] are the indices that [torch.sort(descending=True)] returns, [topk_indices k] those of
    [Tensor.topk(k)] for a [k] within the row; [finfo_min] is [torch.finfo(dtype).min]. *)
Class TorchOps (F : Type) := {
  softmax : list F -> list F;
  argsort_descending : list F -> list nat;
  topk_indices : nat -> list F -> list nat;
  finfo_min : F
}.

(** Their documented behaviour: which of equal elements comes first is not specified. *)
Class TorchLaws (F : Type) `{Scalar F} `{TorchOps F} : Prop := {
  softmax_length : forall l, length (softmax l) = length l;
  softmax_sum : forall l, l <> [] -> fsum (softmax l) = f1;
  softmax_nonneg : forall l, Forall (fun x => fle f0 x = true) (softmax l);
  softmax_mono : forall l i j x y, l !! i = Some x -> l !! j = Some y -> fle x y = true ->
    fle (nth i (softmax l) f0) (nth j (softmax l) f0) = true;
  argsort_perm : forall l, argsort_descending l ≡ₚ seq 0 (length l);
  argsort_sorted : forall l p q i j, p <= q -> argsort_descending l !! p = Some i -> argsort_descending l !! q = Some j ->
    fle (nth j l f0) (nth i l f0) = true;
  topk_length : forall k l, k <= length l -> length (topk_indices k l) = k;
  topk_nodup : forall k l, k <= length l -> NoDup (topk_indices k l);
  topk_range : forall k l i, k <= length l -> i ∈ topk_indices k l -> i < length l;
  topk_largest : forall k l i j, k <= length l -> i ∈ topk_indices k l -> j < length l -> j ∉ topk_indices k l ->
    fle (nth j l f0) (nth i l f0) = true
}.

(** An order that agrees with the arithmetic. *)
Class OrderedScalar (F : Type) `{ExactScalar F} : Prop := {
  fle_refl : forall a : F, fle a a = true;
  fle_trans : forall a b c : F, fle a b = true -> fle b c = true -> fle a c = true;
  fle_total : forall a b : F, fle a b = true \/ fle b a = true;
  fle_antisym : forall a b : F, fle a b = true -> fle b a = true -> a = b;
  fle_add : forall a b c : F, fle a b = true -> fle (fadd a c) (fadd b c) = true;
  fle_mul : forall a b c : F, fle f0 a = true -> fle b c = true -> fle (fmul a b) (fmul a c) = true
}.

(** ** Cumulative sums *)

(** [torch.cumsum] *)
Definition cumsum {F} `{Scalar F} (l : list F) : list F := (fun i => fsum (take (S i) l)) <$> seq 0 (length l).

(** A list of booleans that never goes from false to true. *)
Lemma down_closed (l : list bool) : (forall i, l !! S i = Some true -> l !! i = Some true) ->
  exists c, c <= length l /\ forall i, i < length l -> nth i l false = (i <? c).
Proof.
  induction l as [|x l IH]; intros Hl; [exists 0; split; [done|cbn; lia]|].
  destruct x.
  - destruct IH as (c & Hc & Hall); [intros i Hi; apply (Hl (S i) Hi)|]. exists (S c). split; [cbn; lia|].
    intros [|i] Hi; [done|]. cbn in Hi |- *. apply Hall. lia.
  - exists 0. split; [lia|]. intros i Hi. destruct (nth i (false :: l) false) eqn:E; [exfalso|done].
    assert (forall i, (false :: l) !! i = Some true -> False) as Hno.
    { induction i0 as [|j IHj]; [done|]. intros Hj%Hl. by apply IHj. }
    apply (Hno i). rewrite <-E. destruct (lookup_lt_is_Some_2 (false :: l) i Hi) as [y Hy]. rewrite Hy. f_equal. symmetry. by apply nth_lookup_Some.
Qed.

Section ordered.
Context {F : Type} `{OrderedScalar F}.
Add Ring F_ring_ordered : ex_ring.

Lemma fle_add_both (a b c d : F) : fle a b = true -> fle c d = true -> fle (fadd a c) (fadd b d) = true.
Proof.
  intros Hab Hcd. eapply fle_trans; [by apply fle_add|]. replace (fadd b c) with (fadd c b) by ring. replace (fadd b d) with (fadd d b) by ring. by apply fle_add.
Qed.

Lemma cumsum_length (l : list F) : length (cumsum l) = length l.
Proof. unfold cumsum. by rewrite length_fmap, length_seq. Qed.

Lemma fsum_take_S (l : list F) i x : l !! i = Some x -> fsum (take (S i) l) = fadd (fsum (take i l)) x.
Proof. intros Hx. erewrite take_S_r by done. rewrite fsum_app, fsum_cons, fsum_nil. ring. Qed.

(** Cumulative sums of values that are not negative grow. *)
Lemma cumsum_grows (l : list F) i : Forall (fun x => fle f0 x = true) l -> S i < length l -> fle (fsum (take (S i) l)) (fsum (take (S (S i)) l)) = true.
Proof.
  intros Hl Hi. destruct (lookup_lt_is_Some_2 l (S i) Hi) as [x Hx]. rewrite (fsum_take_S l (S i) x Hx).
  rewrite Forall_lookup in Hl. pose proof (fle_add _ _ (fsum (take (S i) l)) (Hl _ _ Hx)) as Hle.
  replace (fadd f0 (fsum (take (S i) l))) with (fsum (take (S i) l)) in Hle by ring.
  by replace (fadd x (fsum (take (S i) l))) with (fadd (fsum (take (S i) l)) x) in Hle by ring.
Qed.

Lemma cumsum_lookup (l : list F) i : i < length l -> cumsum l !! i = Some (fsum (take (S i) l)).
Proof. intros Hi. unfold cumsum. by rewrite list_lookup_fmap, lookup_seq_lt. Qed.

Lemma gather_take (idx : list nat) (l : list F) c : fsum (take c (gather f0 idx l)) = fsum (gather f0 (take c idx) l).
Proof. unfold gather. by rewrite <-fmap_take. Qed.
End ordered.

(** * An implementation over the rationals *)

#[local] Existing Instances qc_scalar qc_exact.

Lemma qc_fle (a b : Qc) : fle a b = true <-> (a <= b)%Qc.
Proof. cbn. rewrite Qle_bool_iff. done. Qed.

#[local] Instance qc_ordered : OrderedScalar Qc.
Proof.
  split.
  - intros a. by apply qc_fle, Qcle_refl.
  - intros a b c. rewrite !qc_fle. apply Qcle_trans.
  - intros a b. rewrite !qc_fle. destruct (Qclt_le_dec a b); [left; by apply Qclt_le_weak|by right].
  - intros a b. rewrite !qc_fle. apply Qcle_antisym.
  - intros a b c. rewrite !qc_fle. intros Hab. by apply Qcplus_le_compat; [|apply Qcle_refl].
  - intros a b c. rewrite !qc_fle. intros Ha Hbc. rewrite !(Qcmult_comm a). by apply Qcmult_le_compat_r.
Qed.

(** Positions by descending value. *)
Definition order_desc (l : list Qc) (i j : nat) : Prop := fle (nth j l f0) (nth i l f0) = true.
#[local] Instance order_desc_dec l : RelDecision (order_desc l).
Proof. intros i j. unfold order_desc. apply _. Defined.
Definition qc_argsort (l : list Qc) : list nat := merge_sort (order_desc l) (seq 0 (length l)).

(** Values shifted to at least one and divided by their sum: an increasing map to weights. *)
Definition qc_least (l : list Qc) : Qc := match l with [] => 0%Qc | x :: l => fminimum x l end.
Definition qc_shift (l : list Qc) : list Qc := (fun x => (x - qc_least l + 1)%Qc) <$> l.
Definition qc_softmax (l : list Qc) : list Qc := (fun x => (x / qc_sum (qc_shift l))%Qc) <$> qc_shift l.

#[local] Instance qc_ops : TorchOps Qc := {
  softmax := qc_softmax; argsort_descending := qc_argsort; topk_indices k l := take k (qc_argsort l); finfo_min := qc_lit (-1) 30
}.

Lemma qc_least_le l x : x ∈ l -> (qc_least l <= x)%Qc.
Proof.
  assert (forall l y, (fminimum y l <= y)%Qc /\ forall x, x ∈ l -> (fminimum y l <= x)%Qc) as Hmin.
  { induction l0 as [|z l0 IH]; intros y; cbn [fminimum]; [split; [apply Qcle_refl|by intros ? ?%elem_of_nil]|].
    destruct (IH (clamp_max y z)) as [Hy Hl].
    assert (clamp_max y z <= y /\ clamp_max y z <= z)%Qc as [Ha Hb].
    { unfold clamp_max. destruct (fle y z) eqn:E; [rewrite qc_fle in E; split; [apply Qcle_refl|done]|].
      destruct (fle_total y z) as [|E']; [congruence|]. rewrite qc_fle in E'. split; [done|apply Qcle_refl]. }
    split; [by eapply Qcle_trans|]. intros u [->|Hu]%elem_of_cons; [by eapply Qcle_trans|by apply Hl]. }
  destruct l as [|y l]; [by intros ?%elem_of_nil|]. destruct (Hmin l y) as [Hy Hl]. by intros [->|Hx]%elem_of_cons; [|apply Hl].
Qed.

Lemma qc_shift_pos l x : x ∈ qc_shift l -> (1 <= x)%Qc.
Proof.
  intros (y & -> & Hy%qc_least_le)%list_elem_of_fmap. apply (Qcplus_le_mono_r _ _ (qc_least l)).
  replace (y - qc_least l + 1 + qc_least l)%Qc with (1 + y)%Qc by ring. by apply Qcplus_le_compat; [apply Qcle_refl|].
Qed.

Lemma qc_sum_nonneg l : (forall x, x ∈ l -> (0 <= x)%Qc) -> (0 <= qc_sum l)%Qc.
Proof.
  induction l as [|x l IH]; intros Hl; cbn; [apply Qcle_refl|]. rewrite <-(Qcplus_0_r 0).
  apply Qcplus_le_compat; [apply Hl; set_solver|apply IH; intros; apply Hl; set_solver].
Qed.

Lemma qc_zero_le_one : (0 <= 1)%Qc.
Proof. by apply qc_fle. Qed.

Lemma qc_shift_sum_pos l : l <> [] -> (0 < qc_sum (qc_shift l))%Qc.
Proof.
  intros Hl. apply Qclt_le_trans with 1%Qc; [done|]. destruct l as [|y l]; [done|].
  assert (forall x, x ∈ qc_shift (y :: l) -> (1 <= x)%Qc) as Hpos by (intros; by eapply qc_shift_pos). unfold qc_shift in *. cbn [fmap list_fmap] in *.
  cbn. rewrite <-(Qcplus_0_r 1) at 1. apply Qcplus_le_compat; [apply Hpos; set_solver|].
  apply qc_sum_nonneg. intros x Hx. apply Qcle_trans with 1%Qc; [apply qc_zero_le_one|]. apply Hpos. set_solver.
Qed.

Lemma qc_div_mono (a b s : Qc) : (0 < s)%Qc -> (a <= b)%Qc -> (a / s <= b / s)%Qc.
Proof.
  intros Hs Hab. destruct (Qclt_le_dec (b / s) (a / s)) as [Hlt|]; [|done]. exfalso.
  pose proof (Qcmult_lt_compat_r _ _ _ Hs Hlt) as Hm. assert (s <> 0)%Qc as Hs0 by (intros ->; by apply Qclt_not_eq in Hs).
  rewrite !(Qcmult_comm (_ / s)), !Qcmult_div_r in Hm by done. by apply Qclt_not_le in Hm.
Qed.

Lemma qc_sum_div (s : Qc) l : qc_sum ((fun x => (x / s)%Qc) <$> l) = (qc_sum l / s)%Qc.
Proof. induction l as [|x l IH]; cbn; [unfold Qcdiv; ring|]. unfold qc_sum in IH. cbn in IH. rewrite IH. unfold Qcdiv. ring. Qed.

Lemma qc_softmax_lookup l i x : l !! i = Some x -> nth i (qc_softmax l) 0%Qc = ((x - qc_least l + 1) / qc_sum (qc_shift l))%Qc.
Proof. intros Hx. apply nth_lookup_Some. unfold qc_softmax, qc_shift at 2. by rewrite !list_lookup_fmap, Hx. Qed.

#[local] Instance order_desc_total l : Total (order_desc l).
Proof. intros i j. unfold order_desc. destruct (fle_total (nth j l f0) (nth i l f0)); auto. Qed.
#[local] Instance order_desc_trans l : Transitive (order_desc l).
Proof. intros i j k. unfold order_desc. intros H1 H2. by eapply fle_trans. Qed.

Lemma qc_argsort_perm l : qc_argsort l ≡ₚ seq 0 (length l).
Proof. apply merge_sort_Permutation. Qed.

Lemma qc_argsort_sorted l p q i j : p <= q -> qc_argsort l !! p = Some i -> qc_argsort l !! q = Some j -> order_desc l i j.
Proof.
  intros Hpq Hi Hj. destruct (decide (p = q)) as [->|Hne].
  - rewrite Hi in Hj. injection Hj as ->. apply fle_refl.
  - eapply (StronglySorted_app_1_elem_of _ (take q (qc_argsort l)) (drop q (qc_argsort l))).
    + rewrite take_drop. apply StronglySorted_merge_sort; apply _.
    + apply list_elem_of_lookup. exists p. rewrite lookup_take_lt by lia. done.
    + apply list_elem_of_lookup. exists 0. by rewrite lookup_drop, Nat.add_0_r.
Qed.

#[local] Instance qc_laws : TorchLaws Qc.
Proof.
  assert (forall l (x : Qc), x ∈ qc_shift l -> (0 <= x)%Qc) as Hnn.
  { intros l x Hx%qc_shift_pos. apply Qcle_trans with 1%Qc; [apply qc_zero_le_one|done]. }
  split.
  - intros l. cbn. unfold qc_softmax, qc_shift. by rewrite !length_fmap.
  - intros l Hl. cbn. unfold qc_softmax. rewrite qc_sum_div. apply Qcmult_inv_r. intros E. pose proof (qc_shift_sum_pos l Hl) as Hp.
    rewrite E in Hp. by apply Qclt_not_eq in Hp.
  - intros l. apply Forall_forall. intros x Hx. cbn in Hx. unfold qc_softmax in Hx. apply list_elem_of_fmap in Hx as (y & -> & Hy).
    apply qc_fle. destruct (decide (l = [])) as [->|Hl]; [by apply elem_of_nil in Hy|].
    replace (f0 : Qc) with (0 / qc_sum (qc_shift l))%Qc by (unfold Qcdiv; cbn; ring).
    apply qc_div_mono; [by apply qc_shift_sum_pos|by eapply Hnn].
  - intros l i j x y Hx Hy Hxy. cbn -[fle]. rewrite (qc_softmax_lookup _ _ _ Hx), (qc_softmax_lookup _ _ _ Hy). apply qc_fle.
    apply qc_div_mono; [apply qc_shift_sum_pos; by destruct l|]. apply qc_fle in Hxy.
    apply Qcplus_le_compat; [|apply Qcle_refl]. apply Qcplus_le_compat; [done|apply Qcle_refl].
  - apply qc_argsort_perm.
  - intros l p q i j Hpq Hi Hj. by apply (qc_argsort_sorted l p q).
  - intros k l Hk. cbn. rewrite length_take, (Permutation_length (qc_argsort_perm l)), length_seq. lia.
  - intros k l Hk. cbn. apply (NoDup_app (take k (qc_argsort l)) (drop k (qc_argsort l))). rewrite take_drop, qc_argsort_perm. apply NoDup_seq.
  - intros k l i Hk Hi. cbn in Hi. assert (i ∈ qc_argsort l) as Hin by (rewrite <-(take_drop k); set_solver).
    rewrite qc_argsort_perm in Hin. apply elem_of_seq in Hin. lia.
  - intros k l i j Hk Hi Hj Hnj. cbn in Hi, Hnj. assert (j ∈ qc_argsort l) as Hin by (rewrite qc_argsort_perm; apply elem_of_seq; lia).
    rewrite <-(take_drop k), elem_of_app in Hin. destruct Hin as [|Hin]; [done|].
    apply list_elem_of_lookup in Hi as [p Hp]. apply list_elem_of_lookup in Hin as [q Hq].
    apply lookup_take_Some in Hp as [Hp Hpk]. rewrite lookup_drop in Hq.
    apply (qc_argsort_sorted l p (k + q)); [lia|done|done].
Qed.
