(* ===== verification/PyRabitq.v ===== *)
(** RaBitQ selection in the PyTorch library: [rabitqcache/pyimpl/rabitq.py] and [rabitq_no_center.py], with the hooks of
    [rabitqcache/pyimpl/attention.py] that train and quantize in the prefill.

    A tensor [[bs, num_heads, seq, head_dim]] is a list over the batch of lists over the heads of lists of vectors.  The
    four lists of tensors in [quantized_data] are appended together and are one list of chunks, a chunk holding the four
    values of each key.  Devices and dtypes are not modelled, so moving a tensor is the identity. *)
From stdpp Require Import base gmap sets list.
From Stdlib Require Import ZArith QArith Qcanon Lia Ring.
From S2P Require Import Prelude RabitqOps RabitqQuant PyTensor.
Open Scope nat_scope.

Section library.
Context {F : Type} `{Scalar F} `{TorchOps F}.

Abbreviation vec := (list F).
Abbreviation tensor4 := (list (list (list (list F)))).

(** The shape of the tensors of the model. *)
Variables (num_heads head_dim : nat).

(** What is kept of a key. *)
Record PyCode := mkCode {
  Xbarb : list Z;
  K_norm : F;
  o_Kbar : F;
  code_cq_dot_kr : F
}.

(** [[bs, num_heads, batch_size]] codes. *)
Abbreviation Chunk := (list (list (list PyCode))).

(** * State *)

Record RabitQState := mkState {
  quantize_interval : Z;
  q_centroids : gmap Z (list vec);
  k_centroids : gmap Z (list vec);
  cq_dot_ck : gmap Z vec;
  rotation_matrices : gmap Z (list vec);
  quantized_data : gmap Z (list Chunk);
  num_quantized_tokens : gmap Z Z;
  is_trained : gmap Z bool
}.

Definition new_state (interval : Z) : RabitQState := mkState interval ∅ ∅ ∅ ∅ ∅ ∅ ∅.

(** The attributes assigned by training, and those assigned by quantizing. *)
Definition set_trained (qc kc : gmap Z (list vec)) (cc : gmap Z vec) (rot : gmap Z (list vec)) (tr : gmap Z bool) (s : RabitQState) : RabitQState :=
  mkState (quantize_interval s) qc kc cc rot (quantized_data s) (num_quantized_tokens s) tr.
Definition set_quantized (data : gmap Z (list Chunk)) (num : gmap Z Z) (s : RabitQState) : RabitQState :=
  mkState (quantize_interval s) (q_centroids s) (k_centroids s) (cq_dot_ck s) (rotation_matrices s) data num (is_trained s).

(** [d[key]] *)
Definition item {A} (m : gmap Z A) (key : Z) : outcome A := match m !! key with Some x => Ok x | None => Raise KeyError end.

(** [layer_id in self.is_trained and self.is_trained[layer_id]] *)
Definition trained (s : RabitQState) (layer_id : Z) : bool := default false (is_trained s !! layer_id).

(** [x @ P] and [x @ P.T] *)
Definition rotation (P : list vec) (x : vec) : vec := row_times head_dim x P.
Definition inv_rotation (P : list vec) (x : vec) : vec := times_rows x P.

(** * Training *)

(** [x.transpose(1, 2).reshape(bs * seq_len, num_heads, head_dim)] at a head, and the mean over its rows. *)
Definition head_rows (x : tensor4) (h : nat) : list vec := x ≫= fun heads => nth h heads [].
Definition centroids (x : tensor4) : list vec := (fun h => group_mean head_dim (head_rows x h)) <$> seq 0 num_heads.

(** [random] is the orthogonal factor of a random matrix, drawn only for a layer that has no rotation. *)
Definition train (random : list vec) (query_states key_states : tensor4) (layer_id : Z) : M RabitQState unit :=
  s ← get;
  if trained s layer_id then mret tt
  else
    let rot := match rotation_matrices s !! layer_id with
               | Some _ => rotation_matrices s
               | None => <[layer_id := random]> (rotation_matrices s)
               end in
    let qc := centroids query_states in
    let kc := centroids key_states in
    modify (set_trained (<[layer_id := qc]> (q_centroids s)) (<[layer_id := kc]> (k_centroids s))
      (<[layer_id := zip_with dot qc kc]> (cq_dot_ck s)) rot (<[layer_id := true]> (is_trained s))).

(** [RabitQNoCenterState.train] *)
Definition train_no_center (random : list vec) (query_states key_states : tensor4) (layer_id : Z) : M RabitQState unit :=
  s ← get;
  if trained s layer_id then mret tt
  else
    let rot := match rotation_matrices s !! layer_id with
               | Some _ => rotation_matrices s
               | None => <[layer_id := random]> (rotation_matrices s)
               end in
    let zeros := replicate num_heads (replicate head_dim f0) in
    modify (set_trained (<[layer_id := zeros]> (q_centroids s)) (<[layer_id := zeros]> (k_centroids s))
      (<[layer_id := replicate num_heads f0]> (cq_dot_ck s)) rot (<[layer_id := true]> (is_trained s))).

(** * Quantizing *)

(** The reconstruction of a code, before rotation. *)
Definition Kbar_unrotated (bits : list Z) : vec :=
  (fun b => fdiv (fsub (fmul (flit 2 0) (fofZ b)) (flit 1 0)) (fsqrt (fofZ (Z.of_nat head_dim)))) <$> bits.

(** [quantize_keys_batch] at one key. *)
Definition quantize_key (P : list vec) (k_centroid q_centroid key : vec) : PyCode :=
  let Krc := vsub key k_centroid in
  let K_norms := fsqrt (fsum ((fun x => fmul x x) <$> Krc)) in
  let K := (fun x => fdiv x (fadd K_norms (flit 1 (-8)))) <$> Krc in
  let Krc_rotated := inv_rotation P Krc in
  let bits := (fun x => if fle x f0 then 0%Z else 1%Z) <$> Krc_rotated in
  let Kbar := rotation P (Kbar_unrotated bits) in
  mkCode bits K_norms (dot K Kbar) (dot key q_centroid).

(** A row per head. *)
Definition per_head {A} (f : nat -> A) : list A := f <$> seq 0 num_heads.

(** [d[key].append(x)] *)
Definition append_chunk (layer_id : Z) (c : Chunk) (m : gmap Z (list Chunk)) : gmap Z (list Chunk) :=
  alter (fun l => l ++ [c]) layer_id m.

Definition quantize_chunk (P : list vec) (kc qc : list vec) (start_idx end_idx : Z) (key_states : tensor4) : Chunk :=
  (fun heads => per_head (fun h => quantize_key P (nth h kc []) (nth h qc []) <$> py_slice start_idx end_idx (nth h heads []))) <$> key_states.

Definition quantize_keys_batch (key_states : tensor4) (layer_id start_idx end_idx : Z) : M RabitQState unit :=
  s ← get;
  (match quantized_data s !! layer_id with
   | Some _ => mret tt
   | None => modify (set_quantized (<[layer_id := []]> (quantized_data s)) (<[layer_id := 0%Z]> (num_quantized_tokens s)))
   end) ;;
  k_centroid ← lift_out (item (k_centroids s) layer_id);
  q_centroid ← lift_out (item (q_centroids s) layer_id);
  P ← lift_out (item (rotation_matrices s) layer_id);
  modify (fun s => set_quantized (append_chunk layer_id (quantize_chunk P k_centroid q_centroid start_idx end_idx key_states) (quantized_data s))
    (<[layer_id := end_idx]> (num_quantized_tokens s)) s).

(** [key_states.shape[2]] *)
Definition seq_len (x : tensor4) : Z := match x with (toks :: _) :: _ => Z.of_nat (length toks) | _ => 0%Z end.

(** [while start < total_seq_len]; a turn moves [start] by at least one when the interval is positive.  Without fuel the
    loop has not ended. *)
Fixpoint initial_loop (fuel : nat) (key_states : tensor4) (layer_id total start : Z) : M RabitQState unit :=
  match fuel with
  | O => raise RuntimeError
  | S fuel =>
      if (start <? total)%Z then
        interval ← gets quantize_interval;
        let stop := Z.min (start + interval) total in
        quantize_keys_batch key_states layer_id start stop ;;
        initial_loop fuel key_states layer_id total stop
      else mret tt
  end.

Definition quantize_initial_keys (key_states : tensor4) (layer_id : Z) : M RabitQState unit :=
  start ← gets quantize_interval;
  initial_loop (S (Z.to_nat (seq_len key_states))) key_states layer_id (seq_len key_states) start.

(** [while start + self.quantize_interval <= total_seq_len] *)
Fixpoint decode_loop (fuel : nat) (key_states : tensor4) (layer_id total start : Z) : M RabitQState unit :=
  match fuel with
  | O => raise RuntimeError
  | S fuel =>
      interval ← gets quantize_interval;
      if (start + interval <=? total)%Z then
        quantize_keys_batch key_states layer_id start (start + interval) ;;
        decode_loop fuel key_states layer_id total (start + interval)
      else mret tt
  end.

Definition quantize_new_decode_tokens (key_states : tensor4) (layer_id : Z) : M RabitQState unit :=
  s ← get;
  match num_quantized_tokens s !! layer_id with
  | None => mret tt
  | Some num =>
      let total := seq_len key_states in
      if (num + quantize_interval s <=? total)%Z then decode_loop (S (Z.to_nat total)) key_states layer_id total num
      else mret tt
  end.

Definition reset_layer (layer_id : Z) : M RabitQState unit :=
  modify (fun s => match quantized_data s !! layer_id with
    | Some _ => set_quantized (<[layer_id := []]> (quantized_data s)) (<[layer_id := 0%Z]> (num_quantized_tokens s)) s
    | None => s
    end).

(** * Estimates *)

(** [distances] at one query head and one quantized key. *)
Definition estimate (P : list vec) (k_centroid q_centroid : vec) (cc : F) (query : vec) (c : PyCode) : F :=
  let qbar := inv_rotation P (vsub query q_centroid) in
  let xbar_qbar := dot qbar (Kbar_unrotated (Xbarb c)) in
  let q_dot_k_unit := fdiv xbar_qbar (fadd (o_Kbar c) (flit 1 (-8))) in
  let qr_dot_ck := dot query k_centroid in
  fsub (fadd (fadd (fmul (K_norm c) q_dot_k_unit) qr_dot_ck) (code_cq_dot_kr c)) cc.

(** [torch.cat(l, dim=2)] of at least one chunk. *)
Definition cat_chunks (l : list Chunk) : Chunk := match l with [] => [] | c :: l => foldl (zip_with (zip_with app)) c l end.

(** Queries are [[bs, num_heads, 1, head_dim]]: a vector per batch row and head. *)
Definition distances (query_states : list (list vec)) (layer_id quantized_seq_len : Z) : M RabitQState (option (list (list vec))) :=
  s ← get;
  match quantized_data s !! layer_id with
  | None | Some [] => mret None
  | Some chunks =>
      qc ← lift_out (item (q_centroids s) layer_id);
      kc ← lift_out (item (k_centroids s) layer_id);
      cc ← lift_out (item (cq_dot_ck s) layer_id);
      P ← lift_out (item (rotation_matrices s) layer_id);
      mret (Some (zip_with (fun queries codes =>
        per_head (fun h => estimate P (nth h kc []) (nth h qc []) (nth h cc f0) (nth h queries []) <$> py_until quantized_seq_len (nth h codes [])))
        query_states (cat_chunks chunks)))
  end.

(** * Selection *)

(** The top-p selection at a row of scaled estimates. *)
Definition top_p_row (top_p : F) (quantized_length : nat) (w : vec) : outcome (list bool) :=
  let quantized_probs := softmax w in
  let sorted_indices := argsort_descending quantized_probs in
  let sorted_probs := gather f0 sorted_indices quantized_probs in
  let top_p_mask := (fun c => fle c top_p) <$> cumsum sorted_probs in
  match top_p_mask with
  | [] => Raise IndexError
  | _ :: rest => Ok (scatter sorted_indices (true :: rest) (replicate quantized_length false))
  end.

Definition map_mask (f : list bool -> list bool) (mask : list (list (list bool))) : list (list (list bool)) := map (map f) mask.

(** [estimated_weights / math.sqrt(head_dim)] at a row. *)
Definition scale (w : vec) : vec := (fun x => fdiv x (fsqrt (fofZ (Z.of_nat head_dim)))) <$> w.

(** The body of both selectors, which differ in the state they work on.  [None / math.sqrt(head_dim)] is a [TypeError]. *)
Definition select (query_states : list (list vec)) (key_states : tensor4) (layer_id interval : Z) (top_p : F) :
    M RabitQState (list (list (list bool))) :=
  let seq_length := seq_len key_states in
  let n := Z.to_nat seq_length in
  let mask := replicate (length query_states) (replicate num_heads (replicate n false)) in
  s ← get;
  if negb (trained s layer_id) then mret (map_mask (fill_true 0 n) mask)
  else
    let first_chunk_end := Z.min interval seq_length in
    let mask := map_mask (fill_true 0 (py_index n first_chunk_end)) mask in
    if (seq_length <=? interval)%Z then mret mask
    else
      quantize_new_decode_tokens key_states layer_id ;;
      last_quantized_idx ← gets (fun s => default interval (num_quantized_tokens s !! layer_id));
      let quantized_length := (last_quantized_idx - interval)%Z in
      let mask := if (last_quantized_idx <? seq_length)%Z then map_mask (fill_true (py_index n last_quantized_idx) n) mask else mask in
      if (0 <? quantized_length)%Z then
        estimated_weights ← distances query_states layer_id quantized_length;
        match estimated_weights with
        | None => raise TypeError
        | Some w => lift_out (mapM (fun '(ws, ms) => mapM (fun '(w, m) =>
            v ← top_p_row top_p (Z.to_nat quantized_length) (scale w); assign_slice interval last_quantized_idx v m) (zip ws ms)) (zip w mask))
        end
      else mret mask.

(** * The library's global states *)

(** [get_rabitq_state(interval)], then a method of it: the state is created on first use and keeps its interval. *)
Definition with_state {A} (interval : Z) (m : M RabitQState A) : M (option RabitQState) A :=
  zoom (default (new_state interval)) (fun s _ => Some s) m.

Definition reset_rabitq_state : M (option RabitQState) unit := modify (fun _ => None).

(** The prefill hooks of [attention_forward]. *)
Definition prefill_rabitq (arg : option Z) (random : list vec) (query_states key_states : tensor4) (layer_id : Z) : M (option RabitQState) unit :=
  with_state (default 512%Z arg)
    (s ← get;
     (if trained s layer_id then mret tt else train random query_states key_states layer_id) ;;
     quantize_initial_keys key_states layer_id).
Definition prefill_no_center (arg : option Z) (random : list vec) (query_states key_states : tensor4) (layer_id : Z) : M (option RabitQState) unit :=
  with_state (default 512%Z arg)
    (s ← get;
     (if trained s layer_id then mret tt else train_no_center random query_states key_states layer_id) ;;
     quantize_initial_keys key_states layer_id).

(** The selectors, with the defaults of their arguments. *)
Definition rabitq_selector (query_states : list (list vec)) (key_states : tensor4) (layer_id : Z) (interval : option Z) (top_p : option F) :
    M (option RabitQState) (list (list (list bool))) :=
  let interval := default 128%Z interval in
  with_state interval (select query_states key_states layer_id interval (default (flit 95 (-2)) top_p)).
Definition rabitq_no_center_selector (query_states : list (list vec)) (key_states : tensor4) (layer_id : Z) (interval : option Z) (top_p : option F) :
    M (option RabitQState) (list (list (list bool))) :=
  let interval := default 128%Z interval in
  with_state interval (select query_states key_states layer_id interval (default (flit 95 (-2)) top_p)).
End library.
#[global] Arguments RabitQState F : clear implicits.
#[global] Arguments PyCode F : clear implicits.

(** * Quantizing in order

    The keys of a layer from [quantize_interval] on are quantized in order and once, as far as the counter says. *)
Section quantizing.
Context {F : Type} `{Scalar F} `{TorchOps F}.
Variables (num_heads head_dim : nat).

Abbreviation tensor4 := (list (list (list (list F)))).
Abbreviation state := (RabitQState F).

(** The vectors of batch row [b] and head [h]. *)
Definition toks {A} (t : list (list (list A))) (b h : nat) : list A := nth h (nth b t []) [].

(** A tensor of [bs] rows, the heads of the model and [n] tokens. *)
Definition shaped {A} (bs n : nat) (t : list (list (list A))) : Prop :=
  length t = bs /\ Forall (fun heads => length heads = num_heads /\ Forall (fun l => length l = n) heads) t.

Lemma shaped_toks {A} bs n (t : list (list (list A))) b h : shaped bs n t -> b < bs -> h < num_heads -> length (toks t b h) = n.
Proof.
  intros [Hbs Ht] Hb Hh. rewrite Forall_lookup in Ht. destruct (lookup_lt_is_Some_2 t b) as [heads Hx]; [lia|].
  destruct (Ht b heads Hx) as [Hlen Hall]. rewrite Forall_lookup in Hall. destruct (lookup_lt_is_Some_2 heads h) as [l Hl]; [lia|].
  unfold toks. rewrite (nth_lookup_Some _ _ _ _ Hx), (nth_lookup_Some _ _ _ _ Hl). by apply (Hall h).
Qed.

Lemma shaped_seq_len bs n (t : tensor4) : shaped bs n t -> 0 < bs -> 0 < num_heads -> seq_len t = Z.of_nat n.
Proof.
  intros [Hbs Ht] Hb Hh. destruct t as [|heads t]; [cbn in Hbs; lia|]. apply Forall_cons_1 in Ht as [[Hl Hall] _].
  destruct heads as [|l heads]; [cbn in Hl; lia|]. apply Forall_cons_1 in Hall as [Hn _]. cbn. by rewrite Hn.
Qed.

(** The codes of batch row [b] and head [h] in all chunks. *)
Definition all_codes (chunks : list (list (list (list (PyCode F))))) (b h : nat) : list (PyCode F) := chunks ≫= fun c => toks c b h.

(** Trained, with the rotation and the centroids [P], [kc], [qc], [cc]. *)
Record LayerParams := mkParams { p_rot : list (list F); p_kc : list (list F); p_qc : list (list F); p_cc : list F }.
Definition has_params (s : state) (layer : Z) (p : LayerParams) : Prop :=
  is_trained s !! layer = Some true /\ rotation_matrices s !! layer = Some (p_rot p) /\ k_centroids s !! layer = Some (p_kc p) /\
  q_centroids s !! layer = Some (p_qc p) /\ cq_dot_ck s !! layer = Some (p_cc p).

(** The code of a key at a head. *)
Definition code_at (p : LayerParams) (h : nat) (key : list F) : PyCode F :=
  quantize_key head_dim (p_rot p) (nth h (p_kc p) []) (nth h (p_qc p) []) key.

(** Tokens from the interval [I] up to [a] are quantized. *)
Definition quantized (s : state) (layer : Z) (p : LayerParams) (I bs : nat) (k : tensor4) (a : nat) : Prop :=
  match quantized_data s !! layer with
  | None => num_quantized_tokens s !! layer = None /\ a = I
  | Some chunks =>
      num_quantized_tokens s !! layer = Some (Z.of_nat a) /\ I < a /\ chunks <> [] /\ Forall (fun c => length c = bs /\ Forall (fun r => length r = num_heads) c) chunks /\
      forall b h, b < bs -> h < num_heads -> all_codes chunks b h = code_at p h <$> take (a - I) (drop I (toks k b h))
  end.

(** What quantizing a layer leaves as it is. *)
Definition untouched (layer : Z) (s s' : state) : Prop :=
  quantize_interval s' = quantize_interval s /\ q_centroids s' = q_centroids s /\ k_centroids s' = k_centroids s /\ cq_dot_ck s' = cq_dot_ck s /\
  rotation_matrices s' = rotation_matrices s /\ is_trained s' = is_trained s /\
  forall l, l <> layer -> quantized_data s' !! l = quantized_data s !! l /\ num_quantized_tokens s' !! l = num_quantized_tokens s !! l.

Lemma untouched_refl layer s : untouched layer s s.
Proof. unfold untouched. naive_solver. Qed.
Lemma untouched_trans layer s1 s2 s3 : untouched layer s1 s2 -> untouched layer s2 s3 -> untouched layer s1 s3.
Proof. unfold untouched. intros (?&?&?&?&?&?&Ha) (?&?&?&?&?&?&Hb). split_and!; try congruence. intros l Hl. destruct (Ha l Hl), (Hb l Hl). split; congruence. Qed.
Lemma untouched_params layer l s s' p : untouched layer s s' -> has_params s l p -> has_params s' l p.
Proof. intros (?&Hq&Hk&Hc&Hr&Ht&_) (?&?&?&?&?). unfold has_params. by rewrite Hq, Hk, Hc, Hr, Ht. Qed.

Lemma take_drop_split {A} (l : list A) I a b : I <= a -> a <= b -> take (a - I) (drop I l) ++ take (b - a) (drop a l) = take (b - I) (drop I l).
Proof.
  intros Hi Hab. replace (b - I) with ((a - I) + (b - a)) by lia. rewrite <-(take_take_drop (drop I l)), drop_drop.
  by replace (I + (a - I)) with a by lia.
Qed.

Lemma all_codes_app c1 c2 b h : all_codes (c1 ++ c2) b h = all_codes c1 b h ++ all_codes c2 b h.
Proof. apply bind_app. Qed.

Lemma py_slice_nat {A} (a b : nat) (l : list A) : a <= b -> b <= length l -> py_slice (Z.of_nat a) (Z.of_nat b) l = take (b - a) (drop a l).
Proof. intros ? ?. unfold py_slice. rewrite !py_index_nonneg, !Nat2Z.id, !Nat.min_l by lia. done. Qed.

Lemma per_head_nth {A} (f : nat -> A) h d : h < num_heads -> nth h (per_head num_heads f) d = f h.
Proof. intros Hh. by apply nth_fmap_seq. Qed.

Lemma quantize_chunk_toks p kc qc (a b' n bs : nat) (k : tensor4) b h : shaped bs n k -> b < bs -> h < num_heads -> a <= b' -> b' <= n ->
  toks (quantize_chunk num_heads head_dim p kc qc (Z.of_nat a) (Z.of_nat b') k) b h =
  quantize_key head_dim p (nth h kc []) (nth h qc []) <$> take (b' - a) (drop a (toks k b h)).
Proof.
  intros Hk Hb Hh Hab Hbn. pose proof (shaped_toks bs n k b h Hk Hb Hh) as Hlen. destruct Hk as [Hbs _]. unfold toks in *.
  destruct (lookup_lt_is_Some_2 k b) as [heads Hx]; [lia|]. rewrite (nth_lookup_Some _ _ _ _ Hx) in *.
  unfold quantize_chunk. erewrite (nth_lookup_Some _ b); [|by rewrite list_lookup_fmap, Hx].
  rewrite per_head_nth by done. by rewrite py_slice_nat by lia.
Qed.

Section steps.
Variables (I bs n : nat) (k : tensor4) (layer : Z) (p : LayerParams).
Hypotheses (Hk : shaped bs n k) (Hbs : 0 < bs) (HH : 0 < num_heads) (HI : 0 < I).

Lemma wp_quantize_batch s a b : has_params s layer p -> quantized s layer p I bs k a -> a < b -> b <= n ->
  wp (quantize_keys_batch num_heads head_dim k layer (Z.of_nat a) (Z.of_nat b))
    (fun _ s' => untouched layer s s' /\ quantized s' layer p I bs k b /\ is_Some (quantized_data s' !! layer)) noexc s.
Proof.
  intros (Ht&HP&Hkc&Hqc&Hcc) Hq Hab Hbn. set (c := quantize_chunk num_heads head_dim (p_rot p) (p_kc p) (p_qc p) (Z.of_nat a) (Z.of_nat b) k).
  assert (length c = bs /\ Forall (fun r => length r = num_heads) c) as Hc.
  { unfold c, quantize_chunk. rewrite length_fmap. split; [by destruct Hk|]. apply Forall_fmap, Forall_true. intros x. cbn. unfold per_head. by rewrite length_fmap, length_seq. }
  assert (forall x h, x < bs -> h < num_heads -> toks c x h = code_at p h <$> take (b - a) (drop a (toks k x h))) as Htoks.
  { intros x h Hx Hh. apply (quantize_chunk_toks _ _ _ _ _ n bs); done || lia. }
  unfold quantize_keys_batch, item. apply wp_bind, wp_get. rewrite Hkc, Hqc, HP. unfold quantized in Hq.
  apply wp_bind. destruct (quantized_data s !! layer) as [chunks|] eqn:Hd.
  - apply wp_ret. unfold wp. cbn. destruct Hq as (Hnum & Ha & Hne & Hcs & Hrows). split.
    + unfold untouched. cbn. split_and!; try done. intros l Hl. unfold append_chunk. by rewrite lookup_alter_ne, lookup_insert_ne.
    + unfold quantized, append_chunk. cbn. rewrite lookup_alter_eq, Hd, lookup_insert_eq. cbn. split_and!; try done; try lia.
      * by destruct chunks.
      * apply Forall_app. split; [done|]. by apply Forall_singleton.
      * intros x h Hx Hh. fold c. rewrite bind_app. cbn [mbind list_bind app]. rewrite app_nil_r, Htoks by done. unfold all_codes in Hrows. rewrite Hrows by done.
        rewrite <-fmap_app. by rewrite take_drop_split by lia.
  - destruct Hq as [Hnum ->]. apply wp_modify. unfold wp. cbn. split.
    + unfold untouched. cbn. split_and!; try done. intros l Hl. unfold append_chunk. by rewrite lookup_alter_ne, !lookup_insert_ne.
    + unfold quantized, append_chunk. cbn. rewrite lookup_alter_eq, !lookup_insert_eq. cbn. split_and!; try done; try lia.
      * by apply Forall_singleton.
      * intros x h Hx Hh. fold c. unfold all_codes. cbn. rewrite app_nil_r, Htoks by done. done.
Qed.

Lemma wp_initial_loop fuel : forall s a, has_params s layer p -> quantize_interval s = Z.of_nat I -> quantized s layer p I bs k a -> n - a < fuel -> (a <= n \/ a = I) ->
  wp (initial_loop num_heads head_dim fuel k layer (Z.of_nat n) (Z.of_nat a))
    (fun _ s' => untouched layer s s' /\ quantized s' layer p I bs k (Nat.max a n)) noexc s.
Proof.
  induction fuel as [|fuel IH]; intros s a Hp Hi Hq Hf Ha; [lia|]. cbn [initial_loop]. destruct (Z.ltb_spec (Z.of_nat a) (Z.of_nat n)) as [Hlt|Hge].
  - apply wp_bind, wp_gets. rewrite Hi. set (b := Nat.min (a + I) n).
    replace (Z.min (Z.of_nat a + Z.of_nat I) (Z.of_nat n))%Z with (Z.of_nat b) by lia. apply wp_bind. eapply wp_mono; [apply (wp_quantize_batch s a b); done || lia|..]; [|done].
    intros _ s' (Hun & Hq' & _). eapply wp_mono; [apply (IH s' b)|..]; [| |done|lia|lia|..].
    + by eapply untouched_params.
    + by destruct Hun as [-> _].
    + cbn. intros _ s'' [Hun' Hq'']. split; [by eapply untouched_trans|]. by replace (Nat.max a n) with (Nat.max b n) by lia.
    + done.
  - apply wp_ret. split; [apply untouched_refl|]. by rewrite Nat.max_l by lia.
Qed.

Lemma wp_quantize_initial s : has_params s layer p -> quantize_interval s = Z.of_nat I -> quantized s layer p I bs k I ->
  wp (quantize_initial_keys num_heads head_dim k layer)
    (fun _ s' => untouched layer s s' /\ quantized s' layer p I bs k (Nat.max I n)) noexc s.
Proof.
  intros Hp Hi Hq. unfold quantize_initial_keys. apply wp_bind, wp_gets. rewrite (shaped_seq_len bs n), Hi, Nat2Z.id by done.
  apply wp_initial_loop; done || lia.
Qed.

Lemma wp_decode_loop fuel : forall s a, has_params s layer p -> quantize_interval s = Z.of_nat I -> quantized s layer p I bs k a -> n - a < fuel -> a <= n ->
  wp (decode_loop num_heads head_dim fuel k layer (Z.of_nat n) (Z.of_nat a))
    (fun _ s' => untouched layer s s' /\ exists b, quantized s' layer p I bs k b /\ a <= b /\ b <= n /\ n < b + I) noexc s.
Proof.
  induction fuel as [|fuel IH]; intros s a Hp Hi Hq Hf Ha; [lia|]. cbn [decode_loop]. apply wp_bind, wp_gets. rewrite Hi.
  destruct (Z.leb_spec (Z.of_nat a + Z.of_nat I) (Z.of_nat n)) as [Hle|Hgt].
  - rewrite <-Nat2Z.inj_add in *. apply wp_bind. eapply wp_mono; [apply (wp_quantize_batch s a (a + I)); done || lia|..]; [|done].
    intros _ s' (Hun & Hq' & _). eapply wp_mono; [apply (IH s' (a + I))|..]; [| |done|lia|lia|..].
    + by eapply untouched_params.
    + by destruct Hun as [-> _].
    + cbn. intros _ s'' [Hun' (b & ? & ? & ? & ?)]. split; [by eapply untouched_trans|]. exists b. split_and!; done || lia.
    + done.
  - apply wp_ret. split; [apply untouched_refl|]. exists a. split_and!; done || lia.
Qed.

Lemma wp_quantize_new s a : has_params s layer p -> quantize_interval s = Z.of_nat I -> quantized s layer p I bs k a -> a <= Nat.max I n ->
  wp (quantize_new_decode_tokens num_heads head_dim k layer)
    (fun _ s' => untouched layer s s' /\ match quantized_data s !! layer with
       | None => s' = s
       | Some _ => exists b, quantized s' layer p I bs k b /\ a <= b /\ b <= n /\ n < b + I /\ is_Some (quantized_data s' !! layer)
       end) noexc s.
Proof.
  intros Hp Hi Hq Ha. pose proof Hq as Hq0. unfold quantized in Hq. unfold quantize_new_decode_tokens. apply wp_bind, wp_get.
  destruct (quantized_data s !! layer) as [chunks|] eqn:Hd.
  - destruct Hq as (Hnum & HIa & _). rewrite Hnum, (shaped_seq_len bs n), Hi, Nat2Z.id by done.
    destruct (Z.leb_spec (Z.of_nat a + Z.of_nat I) (Z.of_nat n)) as [Hle|Hgt].
    + eapply wp_mono; [apply wp_decode_loop; done || lia|..]; [|done]. intros _ s' (Hun & b & Hq' & Hb & Hbn & Hlt). split; [done|].
      exists b. split_and!; try done. unfold quantized in Hq'. destruct (quantized_data s' !! layer); [done|]. lia.
    + apply wp_ret. split; [apply untouched_refl|]. exists a. split_and!; try done || lia.
  - destruct Hq as [-> ->]. apply wp_ret. split; [apply untouched_refl|done].
Qed.
End steps.

(** ** Rows of tensors *)

Lemma toks_replicate {A} bs (row : list A) b h : b < bs -> h < num_heads -> toks (replicate bs (replicate num_heads row)) b h = row.
Proof. intros Hb Hh. unfold toks. rewrite (nth_lookup_Some _ _ _ _ (lookup_replicate_2 _ _ _ Hb)). by apply nth_lookup_Some, lookup_replicate_2. Qed.

Lemma shaped_replicate {A} bs n (row : list A) : length row = n -> shaped bs n (replicate bs (replicate num_heads row)).
Proof.
  intros Hn. split; [apply length_replicate|]. apply Forall_replicate. split; [apply length_replicate|]. by apply Forall_replicate.
Qed.

Lemma map_mask_replicate f bs row : map_mask f (replicate bs (replicate num_heads row)) = replicate bs (replicate num_heads (f row)).
Proof. transitivity (map f <$> replicate bs (replicate num_heads row)); [done|]. rewrite fmap_replicate. f_equal. apply (fmap_replicate f). Qed.

Lemma mapM_zip {A B C} (f : A * B -> outcome C) d1 d2 d3 : forall l1 l2, length l1 = length l2 ->
  (forall i, i < length l1 -> exists v, f (nth i l1 d1, nth i l2 d2) = Ok v) ->
  exists r, mapM f (zip l1 l2) = Ok r /\ length r = length l1 /\ forall i, i < length l1 -> f (nth i l1 d1, nth i l2 d2) = Ok (nth i r d3).
Proof.
  induction l1 as [|x l1 IH]; intros [|y l2] Hl Hf; try done; [exists []; split_and!; [done|done|cbn; lia]|].
  destruct (Hf 0 ltac:(cbn; lia)) as [v Hv]. destruct (IH l2) as (r & Hr & Hlen & Hall); [cbn in Hl; lia| |].
  { intros i Hi. apply (Hf (S i)). cbn. lia. }
  exists (v :: r). cbn in Hv |- *. rewrite Hv. cbn. rewrite Hr. split_and!; [done|cbn; lia|].
  intros [|i] Hi; [done|]. apply Hall. lia.
Qed.

Lemma mapM_rows {A} (f : list A -> list bool -> outcome (list bool)) bs n1 n2 n3 w m : shaped bs n1 w -> shaped bs n2 m ->
  (forall b h, b < bs -> h < num_heads -> exists v, f (toks w b h) (toks m b h) = Ok v /\ length v = n3) ->
  exists r, mapM (fun '(ws, ms) => mapM (fun '(w, m) => f w m) (zip ws ms)) (zip w m) = Ok r /\ shaped bs n3 r /\
    forall b h, b < bs -> h < num_heads -> f (toks w b h) (toks m b h) = Ok (toks r b h).
Proof.
  intros [Hw Hws] [Hm Hms] Hf.
  assert (forall {X} (t : list (list X)) b, Forall (fun heads => length heads = num_heads /\ True) t -> b < length t -> length (nth b t []) = num_heads) as Hlen.
  { intros X t b Ht Hb. rewrite Forall_lookup in Ht. destruct (lookup_lt_is_Some_2 t b) as [x Hx]; [lia|].
    rewrite (nth_lookup_Some _ _ _ _ Hx). by apply (Ht b x). }
  assert (forall b, b < bs -> length (nth b w []) = num_heads) as Hwl.
  { intros b Hb. apply Hlen; [|lia]. eapply Forall_impl; [exact Hws|]. naive_solver. }
  assert (forall b, b < bs -> length (nth b m []) = num_heads) as Hml.
  { intros b Hb. apply Hlen; [|lia]. eapply Forall_impl; [exact Hms|]. naive_solver. }
  assert (forall b, b < bs -> exists rows, mapM (fun '(w, m) => f w m) (zip (nth b w []) (nth b m [])) = Ok rows /\ length rows = num_heads /\
    forall h, h < num_heads -> f (toks w b h) (toks m b h) = Ok (nth h rows [])) as Hrow.
  { intros b Hb. destruct (mapM_zip (fun '(w, m) => f w m) [] [] [] (nth b w []) (nth b m [])) as (rows & Hr & Hrl & Hra).
    - by rewrite Hwl, Hml.
    - intros h Hh. rewrite Hwl in Hh by done. destruct (Hf b h Hb Hh) as (v & Hv & _). by exists v.
    - exists rows. rewrite Hwl in Hrl, Hra by done. done. }
  destruct (mapM_zip (fun '(ws, ms) => mapM (fun '(w, m) => f w m) (zip ws ms)) [] [] [] w m) as (r & Hr & Hrl & Hra); [congruence| |].
  { intros b Hb. destruct (Hrow b) as (rows & Hr & _); [lia|]. by exists rows. }
  exists r. split; [done|]. assert (forall b, b < bs -> length (nth b r []) = num_heads /\ forall h, h < num_heads -> f (toks w b h) (toks m b h) = Ok (toks r b h)) as Hfin.
  { intros b Hb. destruct (Hrow b Hb) as (rows & Hb1 & Hb2 & Hb3). rewrite Hra in Hb1 by lia. injection Hb1 as <-. done. }
  split; [|intros b h Hb Hh; by apply Hfin]. split; [congruence|]. apply Forall_lookup. intros b rows Hb.
  assert (b < bs) as Hlt by (apply lookup_lt_Some in Hb; lia). destruct (Hfin b Hlt) as [Hbl Hbr].
  unfold toks in Hbr. rewrite (nth_lookup_Some _ _ _ _ Hb) in Hbl, Hbr. split; [done|]. apply Forall_lookup. intros h v Hv.
  apply lookup_lt_Some in Hv as Hhl. destruct (Hf b h Hlt ltac:(lia)) as (v' & Hv' & Hlv). unfold toks in Hv'. rewrite Hbr in Hv' by lia.
  rewrite (nth_lookup_Some _ _ _ _ Hv) in Hv'. injection Hv' as ->. done.
Qed.

(** ** Estimates of the quantized region *)

Lemma foldl_cat bs (cs : list (list (list (list (PyCode F))))) b h : forall c, b < bs -> h < num_heads ->
  length c = bs /\ Forall (fun r => length r = num_heads) c -> Forall (fun c => length c = bs /\ Forall (fun r => length r = num_heads) c) cs ->
  let r := foldl (zip_with (zip_with app)) c cs in
  (length r = bs /\ Forall (fun r => length r = num_heads) r) /\ toks r b h = toks c b h ++ all_codes cs b h.
Proof.
  induction cs as [|d cs IH]; intros c Hb Hh Hc Hcs; cbn [foldl]; [split; [done|]; by rewrite app_nil_r|].
  apply Forall_cons_1 in Hcs as [[Hd Hds] Hcs]. destruct Hc as [Hcl Hcr].
  rewrite Forall_lookup in Hds, Hcr.
  destruct (IH (zip_with (zip_with app) c d)) as [Hr Ht]; [done|done| |done|].
  - split; [rewrite length_zip_with; lia|]. apply Forall_lookup. intros i row Hi. apply lookup_zip_with_Some in Hi as (x & y & -> & Hx & Hy).
    rewrite length_zip_with. pose proof (Hcr i x Hx). pose proof (Hds i y Hy). lia.
  - split; [done|]. rewrite Ht. unfold all_codes at 2. cbn [mbind list_bind]. fold (all_codes cs b h). rewrite app_assoc. f_equal.
    destruct (lookup_lt_is_Some_2 c b) as [x Hx]; [lia|]. destruct (lookup_lt_is_Some_2 d b) as [y Hy]; [lia|].
    pose proof (Hcr b x Hx). pose proof (Hds b y Hy).
    destruct (lookup_lt_is_Some_2 x h) as [u Hu]; [lia|]. destruct (lookup_lt_is_Some_2 y h) as [v Hv]; [lia|].
    unfold toks. rewrite (nth_lookup_Some c b [] x Hx), (nth_lookup_Some d b [] y Hy), (nth_lookup_Some x h [] u Hu), (nth_lookup_Some y h [] v Hv).
    erewrite (nth_lookup_Some (zip_with _ c d)); [|rewrite lookup_zip_with, Hx; cbn; by rewrite Hy].
    apply nth_lookup_Some. by rewrite lookup_zip_with, Hu; cbn; rewrite Hv.
Qed.

Lemma cat_chunks_toks bs chunks b h : chunks <> [] -> b < bs -> h < num_heads ->
  Forall (fun c => length c = bs /\ Forall (fun r => length r = num_heads) c) chunks ->
  length (cat_chunks chunks) = bs /\ toks (cat_chunks chunks) b h = all_codes chunks b h.
Proof.
  intros Hne Hb Hh Hcs. destruct chunks as [|c cs]; [done|]. apply Forall_cons_1 in Hcs as [Hc Hcs]. cbn [cat_chunks].
  destruct (foldl_cat bs cs b h c Hb Hh Hc Hcs) as [[Hl _] Ht]. done.
Qed.

(** The estimate for the key of a token. *)
Definition estimate_at (p : LayerParams) (h : nat) (query key : list F) : F :=
  estimate head_dim (p_rot p) (nth h (p_kc p) []) (nth h (p_qc p) []) (nth h (p_cc p) f0) query (code_at p h key).

Lemma wp_distances I bs n k layer p s a q : shaped bs n k -> 0 < bs -> 0 < num_heads -> length q = bs ->
  has_params s layer p -> quantized s layer p I bs k a -> I < a -> a <= n ->
  wp (distances num_heads head_dim q layer (Z.of_nat (a - I)))
    (fun r s' => s' = s /\ exists w, r = Some w /\ shaped bs (a - I) w /\
      forall b h, b < bs -> h < num_heads -> toks w b h = estimate_at p h (nth h (nth b q []) []) <$> take (a - I) (drop I (toks k b h))) noexc s.
Proof.
  intros Hk Hbs HH Hq (Ht&HP&Hkc&Hqc&Hcc) Hqu HIa Han. unfold quantized in Hqu. unfold distances, item. apply wp_bind, wp_get.
  destruct (quantized_data s !! layer) as [chunks|]; [|lia]. destruct Hqu as (_ & _ & Hne & Hcs & Hrows).
  destruct chunks as [|c cs]; [done|]. rewrite Hqc, Hkc, Hcc, HP. set (chunks := c :: cs) in *. unfold wp. cbn -[chunks].
  split; [done|]. eexists. split; [done|].
  assert (forall b h, b < bs -> h < num_heads -> length (cat_chunks chunks) = bs /\ toks (cat_chunks chunks) b h = all_codes chunks b h) as Hcat.
  { intros b h Hb Hh. by apply (cat_chunks_toks bs chunks b h). }
  destruct (Hcat 0 0 Hbs HH) as [Hcl _].
  match goal with |- shaped bs _ ?w /\ _ => assert (length w = bs) as Hwl by (rewrite length_zip_with, Hcl; lia) end.
  match goal with |- shaped bs _ ?w /\ _ => assert (forall b h, b < bs -> h < num_heads ->
    toks w b h = estimate_at p h (nth h (nth b q []) []) <$> take (a - I) (drop I (toks k b h))) as Hw end.
  { intros b h Hb Hh. destruct (lookup_lt_is_Some_2 q b) as [x Hx]; [lia|]. destruct (lookup_lt_is_Some_2 (cat_chunks chunks) b) as [y Hy]; [lia|].
    unfold toks at 1. erewrite (nth_lookup_Some (zip_with _ q _)); [|rewrite lookup_zip_with, Hx; cbn -[chunks]; by rewrite Hy].
    rewrite per_head_nth by done. destruct (Hcat b h Hb Hh) as [_ Hc]. unfold toks in Hc. rewrite (nth_lookup_Some _ _ _ _ Hy) in Hc. rewrite Hc, Hrows by done.
    rewrite (nth_lookup_Some _ _ _ _ Hx). unfold py_until. rewrite py_index_nonneg, Nat2Z.id by lia.
    pose proof (shaped_toks bs n k b h Hk Hb Hh) as Hlen.
    rewrite take_ge by (rewrite length_fmap, length_take, length_drop; lia). by rewrite <-list_fmap_compose. }
  split; [|done]. split; [done|]. apply Forall_lookup. intros b row Hrow. apply lookup_lt_Some in Hrow as Hb. rewrite Hwl in Hb.
  assert (length row = num_heads) as Hrl.
  { apply lookup_zip_with_Some in Hrow as (x & y & -> & _). unfold per_head. by rewrite length_fmap, length_seq. }
  split; [done|]. apply Forall_lookup. intros h v Hv. apply lookup_lt_Some in Hv as Hh. rewrite Hrl in Hh. specialize (Hw b h Hb Hh).
  unfold toks in Hw at 1. rewrite (nth_lookup_Some _ _ _ _ Hrow), (nth_lookup_Some _ _ _ _ Hv) in Hw. rewrite Hw.
  rewrite length_fmap, length_take, length_drop, (shaped_toks bs n) by done. lia.
Qed.
End quantizing.

#[global] Arguments LayerParams F : clear implicits.

(** * What the selector selects *)

Section selecting.
Context {F : Type} `{TorchLaws F}.
Variables (num_heads head_dim : nat).

Abbreviation tensor4 := (list (list (list (list F)))).

Lemma argsort_length (l : list F) : length (argsort_descending l) = length l.
Proof. by rewrite (Permutation_length (argsort_perm l)), length_seq. Qed.

Lemma top_p_row_ok (top_p : F) m w : 0 < m -> length w = m -> exists v, top_p_row top_p m w = Ok v /\ length v = m.
Proof.
  intros Hm Hw. unfold top_p_row. set (ps := softmax w). set (g := gather f0 (argsort_descending ps) ps).
  assert (length g = m) as Hg by (unfold g, gather; rewrite length_fmap, argsort_length; unfold ps; by rewrite softmax_length).
  destruct (cumsum g) as [|x c] eqn:Hc; [apply (f_equal length) in Hc; rewrite cumsum_length in Hc; cbn in Hc; lia|].
  cbn. eexists. split; [done|]. by rewrite scatter_length, length_replicate.
Qed.

(** The mask at a position: before the interval, not quantized, or selected among the quantized. *)
Definition expected (I num : nat) (v : list bool) (i : nat) : bool := (i <? I) || (num <=? i) || nth (i - I) v false.

(** [mask] is what the method prescribes for queries [q] and keys [k], the keys up to [num] being quantized. *)
Definition mask_correct (I bs n num : nat) (p : LayerParams F) (top_p : F) (q : list (list (list F))) (k : tensor4) (mask : list (list (list bool))) : Prop :=
  shaped num_heads bs n mask /\
  forall b h, b < bs -> h < num_heads -> exists v,
    (I < num -> top_p_row top_p (num - I) (scale head_dim (estimate_at head_dim p h (nth h (nth b q []) []) <$> take (num - I) (drop I (toks k b h)))) = Ok v) /\
    forall i, i < n -> nth i (toks mask b h) false = expected I num v i.

Lemma quantized_start I bs k layer p s a : quantized num_heads head_dim s layer p I bs k a -> I <= a /\ (is_Some (quantized_data s !! layer) <-> I < a).
Proof.
  unfold quantized. destruct (quantized_data s !! layer).
  - intros (_ & Ha & _). split; [lia|]. by split.
  - intros [_ ->]. split; [lia|]. split; [by intros [? ?]|lia].
Qed.

Section select.
Variables (I bs n : nat) (k : tensor4) (layer : Z) (p : LayerParams F) (top_p : F) (q : list (list (list F))).
Hypotheses (Hk : shaped num_heads bs n k) (Hbs : 0 < bs) (HH : 0 < num_heads) (HI : 0 < I) (Hq : length q = bs).

Lemma fill_row (l : list bool) (a b n' i : nat) : length l = n' -> i < n' -> nth i (fill_true a b l) false = ((a <=? i) && (i <? b)) || nth i l false.
Proof.
  intros Hl Hi. destruct (lookup_lt_is_Some_2 l i) as [x Hx]; [lia|]. rewrite (nth_lookup_Some l i false x Hx).
  erewrite nth_lookup_Some; [|by rewrite fill_true_lookup, Hx]. by destruct ((a <=? i) && (i <? b)).
Qed.

(** The mask before the quantized region is filled in. *)
Definition outer_row (num : nat) : list bool :=
  let row := fill_true 0 (py_index n (Z.min (Z.of_nat I) (Z.of_nat n))) (replicate n false) in
  if (Z.of_nat num <? Z.of_nat n)%Z then fill_true (py_index n (Z.of_nat num)) n row else row.

Lemma outer_row_length num : length (outer_row num) = n.
Proof. unfold outer_row. destruct (_ <? _)%Z; by rewrite ?fill_true_length, length_replicate. Qed.

Lemma outer_row_nth num i : i < n -> nth i (outer_row num) false = (i <? I) || (num <=? i).
Proof.
  intros Hi. unfold outer_row. rewrite !py_index_nonneg, Nat2Z.id by lia.
  assert (nth i (fill_true 0 (Nat.min (Z.to_nat (Z.min (Z.of_nat I) (Z.of_nat n))) n) (replicate n false)) false = (i <? I)) as Hrow.
  { rewrite (fill_row _ _ _ n) by (rewrite ?length_replicate; done). rewrite (nth_lookup_Some _ _ _ _ (lookup_replicate_2 n false i Hi)), orb_false_r.
    destruct (Nat.ltb_spec i I), (Nat.ltb_spec i (Nat.min (Z.to_nat (Z.min (Z.of_nat I) (Z.of_nat n))) n)); done || lia. }
  destruct (Z.ltb_spec (Z.of_nat num) (Z.of_nat n)).
  - rewrite (fill_row _ _ _ n) by (rewrite ?fill_true_length, ?length_replicate; done). rewrite Hrow, Nat.min_l, orb_comm by lia. f_equal.
    destruct (Nat.leb_spec num i), (Nat.ltb_spec i n); done || lia.
  - rewrite Hrow. destruct (Nat.leb_spec num i); [lia|]. by rewrite orb_false_r.
Qed.

Lemma wp_catch_up s a : has_params s layer p -> quantize_interval s = Z.of_nat I -> quantized num_heads head_dim s layer p I bs k a -> a <= n -> I < n ->
  wp (quantize_new_decode_tokens num_heads head_dim k layer)
    (fun _ s' => untouched layer s s' /\ (is_Some (quantized_data s !! layer) <-> is_Some (quantized_data s' !! layer)) /\
      exists num, quantized num_heads head_dim s' layer p I bs k num /\ num <= n /\ (is_Some (quantized_data s !! layer) -> n < num + I)) noexc s.
Proof.
  intros Hp Hi Hqu Ha HIn. eapply wp_mono; [apply (wp_quantize_new num_heads head_dim I bs n k layer p Hk Hbs HH HI s a Hp Hi Hqu); lia|..]; [|done].
  intros _ s' [Hun Hpost]. split; [done|]. destruct (quantized_data s !! layer) as [cs|] eqn:Hd.
  - destruct Hpost as (b & Hqb & Hab & Hbn & Hlt & Hs'). split; [by split|]. by exists b.
  - subst s'. rewrite Hd. split; [done|]. exists a. split; [done|]. split; [done|]. by intros [? ?].
Qed.

(** The masks of the quantized region, put in place. *)
Lemma fill_quantized num w : shaped num_heads bs (num - I) w -> I < num -> num <= n ->
  (forall b h, b < bs -> h < num_heads -> toks w b h = estimate_at head_dim p h (nth h (nth b q []) []) <$> take (num - I) (drop I (toks k b h))) ->
  exists r, mapM (fun '(ws, ms) => mapM (fun '(w, m) => v ← top_p_row top_p (num - I) (scale head_dim w); assign_slice (Z.of_nat I) (Z.of_nat num) v m) (zip ws ms))
      (zip w (replicate bs (replicate num_heads (outer_row num)))) = Ok r /\ mask_correct I bs n num p top_p q k r.
Proof.
  intros Hw HIn Hnum Hwr.
  assert (forall b h, b < bs -> h < num_heads -> exists v, top_p_row top_p (num - I) (scale head_dim (toks w b h)) = Ok v /\ length v = num - I) as Htop.
  { intros b h Hb Hh. apply top_p_row_ok; [lia|]. unfold scale. rewrite length_fmap. by eapply shaped_toks. }
  destruct (mapM_rows num_heads (fun (w : list F) m => v ← top_p_row top_p (num - I) (scale head_dim w); assign_slice (Z.of_nat I) (Z.of_nat num) v m)
    bs (num - I) n n w (replicate bs (replicate num_heads (outer_row num))) Hw) as (r & Hr & Hrs & Hrr).
  { apply shaped_replicate, outer_row_length. }
  { intros b h Hb Hh. rewrite toks_replicate by done. destruct (Htop b h Hb Hh) as (v & Hv & Hvl). rewrite Hv. cbn.
    destruct (assign_slice_lookup I num v (outer_row num) 0) as (m' & Hm' & Hml & _); [lia|rewrite outer_row_length; lia|done|].
    exists m'. split; [done|]. by rewrite Hml, outer_row_length. }
  exists r. split; [exact Hr|]. split; [done|]. intros b h Hb Hh. specialize (Hrr b h Hb Hh). rewrite toks_replicate in Hrr by done.
  destruct (Htop b h Hb Hh) as (v & Hv & Hvl). exists v. split; [intros _; by rewrite <-Hwr|]. intros i Hin. rewrite Hv in Hrr. cbn in Hrr.
  destruct (assign_slice_lookup I num v (outer_row num) i) as (m' & Hm' & Hml & Hmi); [lia|rewrite outer_row_length; lia|done|].
  rewrite Hm' in Hrr. injection Hrr as <-. rewrite nth_lookup, Hmi. unfold expected. destruct (Nat.leb_spec I i), (Nat.ltb_spec i num); cbn [andb];
    rewrite <-?nth_lookup, ?outer_row_nth by done; destruct (Nat.ltb_spec i I), (Nat.leb_spec num i); done || lia.
Qed.

Lemma wp_select s a : has_params s layer p -> quantize_interval s = Z.of_nat I -> quantized num_heads head_dim s layer p I bs k a -> a <= Nat.max I n ->
  wp (select num_heads head_dim q k layer (Z.of_nat I) top_p)
    (fun mask s' => untouched layer s s' /\ (is_Some (quantized_data s !! layer) <-> is_Some (quantized_data s' !! layer)) /\
      exists num, quantized num_heads head_dim s' layer p I bs k num /\ num <= Nat.max I n /\
        (I < n -> is_Some (quantized_data s !! layer) -> num <= n /\ n < num + I) /\ mask_correct I bs n num p top_p q k mask) noexc s.
Proof.
  intros Hp Hi Hqu Ha. pose proof Hp as (Ht & _). unfold select. apply wp_bind, wp_get. unfold trained. rewrite Ht. cbn [default negb].
  rewrite (shaped_seq_len num_heads bs n), Nat2Z.id, Hq, !map_mask_replicate by done.
  destruct (Z.leb_spec (Z.of_nat n) (Z.of_nat I)) as [Hle|Hgt].
  - apply wp_ret. split; [apply untouched_refl|]. split; [done|]. exists a. destruct (quantized_start _ _ _ _ _ s a Hqu) as [HIa _].
    split; [done|]. split; [lia|]. split; [lia|]. split.
    { apply shaped_replicate. by rewrite fill_true_length, length_replicate. }
    intros b h Hb Hh. rewrite toks_replicate by done. exists []. split; [lia|]. intros i Hin. rewrite (fill_row _ _ _ n) by (rewrite ?length_replicate; done).
    rewrite py_index_nonneg by lia. unfold expected. destruct (Nat.ltb_spec i I); [|lia]. cbn [orb].
    destruct (Nat.leb_spec 0 i); [|lia]. destruct (Nat.ltb_spec i (Nat.min (Z.to_nat (Z.min (Z.of_nat I) (Z.of_nat n))) n)); [done|lia].
  - apply wp_bind. eapply wp_mono; [apply (wp_catch_up s a); done || lia|..]; [|done].
    intros _ s' (Hun & Hiff & num & Hqu' & Hnum & Hwithin). destruct (quantized_start _ _ _ _ _ s' num Hqu') as [HIn HsI].
    assert (default (Z.of_nat I) (num_quantized_tokens s' !! layer) = Z.of_nat num) as Hdef.
    { unfold quantized in Hqu'. destruct (quantized_data s' !! layer); [by destruct Hqu' as [-> _]|by destruct Hqu' as [-> ->]]. }
    apply wp_bind, wp_gets. rewrite Hdef. cbv zeta.
    match goal with |- context [if (Z.of_nat num <? Z.of_nat n)%Z then ?x else ?y] =>
      replace (if (Z.of_nat num <? Z.of_nat n)%Z then x else y) with (replicate bs (replicate num_heads (outer_row num)))
        by (unfold outer_row; rewrite map_mask_replicate; by destruct (_ <? _)%Z) end.
    destruct (Z.ltb_spec 0 (Z.of_nat num - Z.of_nat I)) as [Hpos|Hnp].
    + apply wp_bind. replace (Z.of_nat num - Z.of_nat I)%Z with (Z.of_nat (num - I)) by lia. rewrite Nat2Z.id.
      eapply wp_mono; [eapply (wp_distances num_heads head_dim I bs n k layer p s' num q Hk Hbs HH Hq); [by eapply untouched_params|done|lia|lia]|..]; [|done].
      intros r s'' [-> (w & -> & Hw & Hwr)]. destruct (fill_quantized num w) as (r' & Hr & Hcor); [done|lia|done|done|].
      rewrite Hr. unfold wp. cbn. split; [done|]. split; [done|]. exists num. split; [done|]. split; [lia|]. split; [intros; split; [done|by apply Hwithin]|done].
    + apply wp_ret. split; [done|]. split; [done|]. exists num. split; [done|]. split; [lia|]. split; [intros; split; [done|by apply Hwithin]|]. split.
      { apply shaped_replicate, outer_row_length. }
      intros b h Hb Hh. exists []. split; [lia|]. intros i Hin. rewrite toks_replicate, outer_row_nth by done. unfold expected.
      destruct (Nat.ltb_spec i I), (Nat.leb_spec num i); done || lia.
Qed.
End select.

(** ** Runs of the library

    A layer is prefilled once and decoded any number of times, in any order with the other layers; the state is reset
    between sequences. *)

(** A layer since its prefill: the tokens of the prefill, what training computed, the keys so far. *)
Record LayerHist := mkHist { h_prefill : nat; h_params : LayerParams F; h_keys : tensor4 }.

(** What training computes. *)
Definition trained_params (random : list (list F)) (q k : tensor4) : LayerParams F :=
  let qc := centroids num_heads head_dim q in
  let kc := centroids num_heads head_dim k in
  mkParams random kc qc (zip_with dot qc kc).

(** One more token in every row. *)
Definition appended (bs n : nat) (k k' : tensor4) : Prop :=
  shaped num_heads bs n k /\ shaped num_heads bs (S n) k' /\
  forall b h, b < bs -> h < num_heads -> take n (toks k' b h) = toks k b h.

Definition LibState : Type := option (RabitQState F) * gmap Z LayerHist.

Inductive lib_step (I : nat) (top_p : F) : LibState -> LibState -> Prop :=
| lib_prefill g hist layer random q k bs n :
    hist !! layer = None -> 0 < bs -> shaped num_heads bs n k ->
    lib_step I top_p (g, hist)
      ((prefill_rabitq num_heads head_dim (Some (Z.of_nat I)) random q k layer g).2, <[layer := mkHist n (trained_params random q k) k]> hist)
| lib_decode g hist layer x q k' bs n :
    hist !! layer = Some x -> 0 < bs -> length q = bs -> appended bs n (h_keys x) k' ->
    lib_step I top_p (g, hist)
      ((rabitq_selector num_heads head_dim q k' layer (Some (Z.of_nat I)) (Some top_p) g).2, <[layer := mkHist (h_prefill x) (h_params x) k']> hist)
| lib_reset g hist : lib_step I top_p (g, hist) ((reset_rabitq_state g).2, ∅).

Definition lib_run (I : nat) (top_p : F) : LibState -> Prop := rtc (lib_step I top_p) (None, ∅).

Definition layer_ok (I : nat) (s : RabitQState F) (layer : Z) (x : LayerHist) : Prop :=
  exists bs n a, shaped num_heads bs n (h_keys x) /\ 0 < bs /\ h_prefill x <= n /\ has_params s layer (h_params x) /\
    quantized num_heads head_dim s layer (h_params x) I bs (h_keys x) a /\ a <= Nat.max I n /\
    (is_Some (quantized_data s !! layer) <-> I < h_prefill x).

Definition layer_fresh (s : RabitQState F) (layer : Z) : Prop :=
  quantized_data s !! layer = None /\ num_quantized_tokens s !! layer = None /\ is_trained s !! layer = None /\ rotation_matrices s !! layer = None.

Definition lib_inv (I : nat) (st : LibState) : Prop :=
  let s := default (new_state (Z.of_nat I)) st.1 in
  quantize_interval s = Z.of_nat I /\
  forall layer, match st.2 !! layer with Some x => layer_ok I s layer x | None => layer_fresh s layer end.

Lemma quantized_untouched s s' layer l p I bs k a : untouched layer s s' -> l <> layer ->
  quantized num_heads head_dim s l p I bs k a -> quantized num_heads head_dim s' l p I bs k a.
Proof. intros (_&_&_&_&_&_&Hl) Hne. destruct (Hl l Hne) as [Hd Hn]. unfold quantized. by rewrite Hd, Hn. Qed.

Lemma layer_ok_untouched I s s' layer l x : untouched layer s s' -> l <> layer -> layer_ok I s l x -> layer_ok I s' l x.
Proof.
  intros Hun Hne (bs & n & a & Hsh & Hbs & Hn & Hp & Hq & Ha & Hiff). exists bs, n, a. split_and!; try done; [by eapply untouched_params|by eapply quantized_untouched|..];
  destruct Hun as (_&_&_&_&_&_&Hl); destruct (Hl l Hne) as [-> _]; by apply Hiff.
Qed.

Lemma layer_fresh_untouched s s' layer l : untouched layer s s' -> l <> layer -> layer_fresh s l -> layer_fresh s' l.
Proof.
  intros (_&_&_&_&Hr&Ht&Hl) Hne (Hd & Hn & Htr & Hro). destruct (Hl l Hne) as [Hd' Hn']. unfold layer_fresh. by rewrite Hd', Hn', Hr, Ht.
Qed.

(** The codes of the tokens quantized so far do not depend on the tokens after them. *)
Lemma quantized_appended s layer p I bs n k k' a : appended bs n k k' -> a <= Nat.max I n ->
  quantized num_heads head_dim s layer p I bs k a -> quantized num_heads head_dim s layer p I bs k' a.
Proof.
  intros (Hk & Hk' & Hpre) Ha. unfold quantized. destruct (quantized_data s !! layer); [|done].
  intros (Hnum & HIa & Hne & Hcs & Hrows). split_and!; try done. intros b h Hb Hh. rewrite Hrows by done. f_equal.
  rewrite <-(Hpre b h Hb Hh), skipn_firstn_comm, take_take. f_equal. lia.
Qed.

Lemma wp_prefill I g random q k layer bs n : 0 < num_heads -> 0 < I -> 0 < bs -> shaped num_heads bs n k ->
  quantize_interval (default (new_state (Z.of_nat I)) g) = Z.of_nat I -> layer_fresh (default (new_state (Z.of_nat I)) g) layer ->
  wp (prefill_rabitq num_heads head_dim (Some (Z.of_nat I)) random q k layer)
    (fun _ g' => exists s', g' = Some s' /\ quantize_interval s' = Z.of_nat I /\
      layer_ok I s' layer (mkHist n (trained_params random q k) k) /\
      (forall l x, l <> layer -> layer_ok I (default (new_state (Z.of_nat I)) g) l x -> layer_ok I s' l x) /\
      (forall l, l <> layer -> layer_fresh (default (new_state (Z.of_nat I)) g) l -> layer_fresh s' l)) noexc g.
Proof.
  intros HH HI Hbs Hk Hint (Hd & Hn & Ht & Hr). unfold prefill_rabitq, with_state. change (default 512%Z (Some (Z.of_nat I))) with (Z.of_nat I). apply wp_zoom.
  set (s := default (new_state (Z.of_nat I)) g) in *. unfold train, trained. apply wp_bind, wp_get. rewrite Ht. cbn [default id].
  apply wp_bind, wp_bind, wp_get. rewrite Ht, Hr. cbn [default id]. apply wp_modify.
  set (s1 := set_trained _ _ _ _ _ _). set (p := trained_params random q k).
  assert (has_params s1 layer p) as Hp by (unfold has_params, s1; cbn; by rewrite !lookup_insert_eq).
  assert (quantized num_heads head_dim s1 layer p I bs k I) as Hq1 by (unfold quantized, s1; cbn; by rewrite Hd).
  eapply wp_mono; [apply (wp_quantize_initial num_heads head_dim I bs n k layer p Hk Hbs HH HI s1 Hp Hint Hq1)|..]; [|done].
  cbn. intros _ s' (Hun & Hq'). exists s'. split; [done|]. split; [destruct Hun as [-> _]; done|]. split_and!.
  - exists bs, n, (Nat.max I n). split_and!; try done; [by eapply untouched_params|]. destruct (quantized_start I bs k layer p s' _ Hq') as [_ ->]. cbn. lia.
  - intros l x Hl Hok. eapply layer_ok_untouched; [done|done|]. destruct Hok as (bs' & n' & a & ? & ? & ? & Hp' & ? & ? & ?). exists bs', n', a. split_and!; try done.
    unfold has_params, s1. cbn. by rewrite !lookup_insert_ne by done.
  - intros l Hl (? & ? & ? & ?). eapply layer_fresh_untouched; [done|done|]. unfold layer_fresh, s1. cbn. by rewrite !lookup_insert_ne by done.
Qed.

Lemma wp_decode I top_p g x q k' layer bs n : 0 < num_heads -> 0 < I -> 0 < bs -> length q = bs -> appended bs n (h_keys x) k' ->
  quantize_interval (default (new_state (Z.of_nat I)) g) = Z.of_nat I -> layer_ok I (default (new_state (Z.of_nat I)) g) layer x ->
  wp (rabitq_selector num_heads head_dim q k' layer (Some (Z.of_nat I)) (Some top_p))
    (fun mask g' => exists s' num, g' = Some s' /\ quantize_interval s' = Z.of_nat I /\
      layer_ok I s' layer (mkHist (h_prefill x) (h_params x) k') /\
      untouched layer (default (new_state (Z.of_nat I)) g) s' /\
      mask_correct I bs (S n) num (h_params x) top_p q k' mask /\
      (h_prefill x <= I -> num = I) /\ (I < h_prefill x -> I < num /\ num <= S n /\ S n < num + I)) noexc g.
Proof.
  intros HH HI Hbs Hq Happ Hint (bs' & n' & a & Hsh & Hbs' & Hn & Hp & Hqu & Ha & Hiff). pose proof Happ as (Hk & Hk' & _).
  assert (bs' = bs /\ n' = n) as [-> ->].
  { split; [destruct Hsh as [<- _]; by destruct Hk|]. rewrite <-(shaped_toks num_heads bs' n' (h_keys x) 0 0) by done.
    by rewrite (shaped_toks num_heads bs n (h_keys x) 0 0). }
  unfold rabitq_selector, with_state. change (default 128%Z (Some (Z.of_nat I))) with (Z.of_nat I). apply wp_zoom.
  eapply wp_mono; [apply (wp_select I bs (S n) k' layer (h_params x) top_p q Hk' Hbs HH HI Hq _ a Hp Hint); [by eapply quantized_appended|lia]|..]; [|done].
  cbn. intros mask s' (Hun & Hiff' & num & Hqu' & Hnum & Hwithin & Hcor). exists s', num.
  destruct (quantized_start I bs k' layer (h_params x) s' num Hqu') as [HIn HsI]. rewrite Hiff in Hiff', Hwithin. rewrite <-Hiff' in HsI.
  split; [done|]. split; [destruct Hun as [-> _]; done|]. split_and!; try done.
  - exists bs, (S n), num. split_and!; try done; [cbn; lia|by eapply untouched_params|by cbn; rewrite <-Hiff'..].
  - lia.
  - intros Hlt. destruct Hwithin; [lia|done|]. split_and!; [by apply HsI|done|done].
Qed.

Lemma lib_step_inv I top_p st st' : 0 < num_heads -> 0 < I -> lib_step I top_p st st' -> lib_inv I st -> lib_inv I st'.
Proof.
  intros HH HI Hstep [Hint Hinv]. destruct Hstep as [g hist layer random q k bs n Hnone Hbs Hk|g hist layer x q k' bs n Hx Hbs Hq Happ|g hist]; cbn [fst snd] in *.
  - pose proof (Hinv layer) as Hf. rewrite Hnone in Hf.
    destruct (wp_noexc_run _ _ _ (wp_prefill I g random q k layer bs n HH HI Hbs Hk Hint Hf)) as (u & g' & Hrun & s' & -> & Hint' & Hok & Hothers & Hfresh).
    rewrite Hrun. cbn. split; [done|]. cbn. intros l. destruct (decide (l = layer)) as [->|Hne]; [by rewrite lookup_insert_eq|]. rewrite lookup_insert_ne by done.
    specialize (Hinv l). destruct (hist !! l); [by apply Hothers|by apply Hfresh].
  - pose proof (Hinv layer) as Hf. rewrite Hx in Hf.
    destruct (wp_noexc_run _ _ _ (wp_decode I top_p g x q k' layer bs n HH HI Hbs Hq Happ Hint Hf)) as (mask & g' & Hrun & s' & num & -> & Hint' & Hok & Hun & _).
    rewrite Hrun. cbn. split; [done|]. cbn. intros l. destruct (decide (l = layer)) as [->|Hne]; [by rewrite lookup_insert_eq|]. rewrite lookup_insert_ne by done.
    specialize (Hinv l). destruct (hist !! l); [by eapply layer_ok_untouched|by eapply layer_fresh_untouched].
  - split; [done|]. intros l. cbn. rewrite lookup_empty. by repeat split; cbn; rewrite lookup_empty.
Qed.

Lemma lib_run_inv I top_p st : 0 < num_heads -> 0 < I -> lib_run I top_p st -> lib_inv I st.
Proof.
  intros HH HI Hrun. revert st Hrun. apply (rtc_ind_r (R := lib_step I top_p) (lib_inv I) (None, ∅)).
  - split; [done|]. intros l. cbn. rewrite lookup_empty. by repeat split; cbn; rewrite lookup_empty.
  - intros y z _ Hyz Hy. by eapply lib_step_inv.
Qed.
End selecting.
