(* ===== verification/PyRabitqFacts.v ===== *)
(** What RaBitQ selection in the PyTorch library promises: which tokens a mask contains in every run of the library, what
    the top-p choice keeps, and what the estimate of an inner product is, for exact arithmetic. *)
From stdpp Require Import base gmap sets list.
From Stdlib Require Import ZArith QArith Qcanon Lia Ring.
From S2P Require Import Prelude RabitqOps RabitqQuant PyTensor PyRabitq.
Open Scope nat_scope.

(** * The top-p choice *)

Section top_p.
Context {F : Type} `{OrderedScalar F} `{!TorchOps F} `{!TorchLaws F}.
Add Ring F_ring_top_p : ex_ring.

(** How far the cumulative sums of [g] stay within [top_p], the first one aside. *)
Lemma within_count (top_p : F) (g : list F) : 0 < length g -> Forall (fun x => fle f0 x = true) g ->
  exists c, 1 <= c /\ c <= length g /\
    (forall i, i < length g -> nth i (<[0:=true]> ((fun c => fle c top_p) <$> cumsum g)) false = (i <? c)) /\
    (c = 1 \/ fle (fsum (take c g)) top_p = true) /\ (c < length g -> fle (fsum (take (S c) g)) top_p = false).
Proof.
  intros Hm Hg. set (bs := (fun c => fle c top_p) <$> cumsum g).
  assert (length bs = length g) as Hbl by (unfold bs; rewrite length_fmap, cumsum_length; done).
  assert (forall i, i < length g -> bs !! i = Some (fle (fsum (take (S i) g)) top_p)) as Hbs.
  { intros i Hi. unfold bs. by rewrite list_lookup_fmap, cumsum_lookup by lia. }
  destruct (down_closed bs) as (c0 & Hc0 & Hcount).
  { intros i Hi. apply lookup_lt_Some in Hi as Hlt. rewrite Hbs in Hi |- * by lia. injection Hi as Hi. f_equal.
    eapply fle_trans; [|exact Hi]. apply cumsum_grows; [done|lia]. }
  assert (forall i, i < length g -> fle (fsum (take (S i) g)) top_p = (i <? c0)) as Hfle.
  { intros i Hi. rewrite <-Hcount by lia. symmetry. apply nth_lookup_Some. by rewrite Hbs. }
  exists (Nat.max 1 c0). split; [lia|]. split; [lia|]. split_and!.
  - intros i Hi. rewrite nth_lookup. destruct i as [|i].
    + rewrite list_lookup_insert_eq by lia. symmetry. apply Nat.ltb_lt. lia.
    + rewrite list_lookup_insert_ne by lia. rewrite Hbs by done. cbn [default from_option]. unfold id. rewrite Hfle by done.
      destruct (Nat.ltb_spec (S i) c0), (Nat.ltb_spec (S i) (Nat.max 1 c0)); done || lia.
  - destruct (decide (c0 <= 1)); [left; lia|right]. replace (Nat.max 1 c0) with (S (c0 - 1)) by lia. rewrite Hfle by lia. apply Nat.ltb_lt. lia.
  - intros Hlt. rewrite Hfle by done. apply Nat.ltb_ge. lia.
Qed.

(** Scattering to all positions, in any order. *)
Lemma scatter_perm {A} (idx : list nat) (src : list A) d m k i : idx ≡ₚ seq 0 m -> length src = m -> idx !! k = Some i ->
  nth i (scatter idx src (replicate m d)) d = nth k src d.
Proof.
  intros Hperm Hs Hk. apply lookup_lt_Some in Hk as Hkl. pose proof (Permutation_length Hperm) as Hil. rewrite length_seq in Hil.
  destruct (lookup_lt_is_Some_2 src k) as [x Hx]; [lia|].
  assert (i < m) by (apply list_elem_of_lookup_2 in Hk; rewrite Hperm in Hk; apply elem_of_seq in Hk; lia).
  rewrite (nth_lookup_Some src _ _ _ Hx). apply nth_lookup_Some, (scatter_at _ _ _ k); rewrite ?length_replicate; try done.
  rewrite Hperm. apply NoDup_seq.
Qed.

(** C29: The top-p choice on a row takes the most probable tokens, at least one, and then goes on only while their
    probabilities together stay within [top_p]: more than one chosen token never have more than [top_p] together,
    and the next token would exceed it. *)
Theorem top_p_keeps_at_most (top_p : F) m w v :
  0 < m -> length w = m -> top_p_row top_p m w = Ok v ->
  let probs := softmax w in
  let idx := argsort_descending probs in
  exists c, 1 <= c /\ c <= m /\
    (forall i, i < m -> nth i v false = true <-> i ∈ take c idx) /\
    (forall i j, i < m -> j < m -> nth i v false = true -> nth j v false = false -> fle (nth j probs f0) (nth i probs f0) = true) /\
    (c = 1 \/ fle (fsum (gather f0 (take c idx) probs)) top_p = true) /\
    (c < m -> fle (fsum (gather f0 (take (S c) idx) probs)) top_p = false).
Proof.
  intros Hm Hw Hv probs idx. unfold top_p_row in Hv. fold probs in Hv. fold idx in Hv.
  assert (length probs = m) as Hpl by (unfold probs; by rewrite softmax_length).
  assert (idx ≡ₚ seq 0 m) as Hperm by (unfold idx; rewrite argsort_perm, Hpl; done).
  set (g := gather f0 idx probs) in *. assert (length g = m) as Hgl by (unfold g, gather; rewrite length_fmap, (Permutation_length Hperm), length_seq; done).
  destruct (within_count top_p g) as (c & Hc1 & Hcm & Hch & Hmass & Hnext); [lia| |].
  { apply Forall_forall. intros x (i & -> & Hi)%list_elem_of_fmap. rewrite Hperm in Hi. apply elem_of_seq in Hi.
    destruct (lookup_lt_is_Some_2 probs i) as [y Hy]; [lia|]. rewrite (nth_lookup_Some _ _ _ _ Hy).
    pose proof (softmax_nonneg w) as Hn. rewrite Forall_lookup in Hn. by apply (Hn i). }
  pose proof (cumsum_length g) as Hcl. pose proof (length_fmap (fun c => fle c top_p) (cumsum g)) as Hbl.
  destruct ((fun c => fle c top_p) <$> cumsum g) as [|b0 rest]; [cbn in Hbl; lia|]. injection Hv as <-. cbn [insert list_insert] in Hch.
  assert (forall k i, idx !! k = Some i -> nth i (scatter idx (true :: rest) (replicate m false)) false = (k <? c)) as Hsc.
  { intros k i Hk. rewrite (scatter_perm _ _ _ _ k) by (done || (cbn in *; lia)). apply Hch.
    apply lookup_lt_Some in Hk. rewrite (Permutation_length Hperm), length_seq in Hk. lia. }
  assert (forall i, i < m -> exists k, idx !! k = Some i) as Hpos.
  { intros i Hi. apply list_elem_of_lookup. rewrite Hperm. apply elem_of_seq. lia. }
  assert (NoDup idx) as Hnd by (rewrite Hperm; apply NoDup_seq).
  exists c. split; [done|]. split; [lia|]. split_and!.
  - intros i Hi. destruct (Hpos i Hi) as [k Hk]. rewrite (Hsc k i Hk), Nat.ltb_lt, list_elem_of_lookup. split.
    + intros Hkc. exists k. by rewrite lookup_take_lt.
    + intros (k' & [Hk' Hlt]%lookup_take_Some). by rewrite (NoDup_lookup _ _ _ _ Hnd Hk Hk').
  - intros i j Hi Hj Hvi Hvj. destruct (Hpos i Hi) as [k Hk], (Hpos j Hj) as [k' Hk']. rewrite (Hsc k i Hk) in Hvi. rewrite (Hsc k' j Hk') in Hvj.
    apply Nat.ltb_lt in Hvi. apply Nat.ltb_ge in Hvj. eapply (argsort_sorted probs k k'); [lia|done|done].
  - by rewrite <-gather_take.
  - intros Hlt. rewrite <-gather_take. apply Hnext. lia.
Qed.
End top_p.

(** * Estimates *)

Section estimates.
Context {F : Type} `{ExactScalar F}.
Add Ring F_ring_est : ex_ring.

Lemma fsum_add (f g : nat -> F) l : fsum ((fun d => fadd (f d) (g d)) <$> l) = fadd (fsum (f <$> l)) (fsum (g <$> l)).
Proof. induction l as [|x l IH]; cbn; rewrite ?fsum_cons, ?fsum_nil; [ring|]. cbn in IH. rewrite IH. ring. Qed.

Lemma fsum_scale (c : F) (f : nat -> F) l : fsum ((fun d => fmul (f d) c) <$> l) = fmul (fsum (f <$> l)) c.
Proof. induction l as [|x l IH]; cbn; rewrite ?fsum_cons, ?fsum_nil; [ring|]. cbn in IH. rewrite IH. ring. Qed.

Lemma dot_seq (x : list F) (f : nat -> F) D : length x = D -> dot x (f <$> seq 0 D) = fsum ((fun d => fmul (nth d x f0) (f d)) <$> seq 0 D).
Proof.
  intros Hx. rewrite <-(fsum_nth x (f <$> seq 0 D) D) by (rewrite ?length_fmap, ?length_seq; done). f_equal. apply list_fmap_ext.
  intros ? d Hd%list_elem_of_lookup_2%elem_of_seq. f_equal. apply nth_fmap_seq. lia.
Qed.

(** Multiplying by the transpose is the adjoint, for every matrix. *)
Lemma adjoint D (x : list F) P : forall y, length x = D -> Forall (fun row => length row = D) P -> length y = length P ->
  dot (times_rows x P) y = dot x (row_times D y P).
Proof.
  intros y Hx. revert y. induction P as [|row P IH]; intros [|y0 y] HP Hy; try done.
  - cbn [times_rows fmap list_fmap]. rewrite dot_nil. unfold row_times. rewrite dot_seq by done.
    rewrite (list_fmap_ext _ (fun _ => f0)); [by rewrite fsum_zero|]. intros ? d _. unfold column. cbn [fmap list_fmap]. rewrite dot_nil. ring.
  - apply Forall_cons_1 in HP as [Hrow HP]. change (times_rows x (row :: P)) with (dot x row :: times_rows x P). rewrite dot_cons, IH by (done || (cbn in Hy; lia)).
    unfold row_times. rewrite !dot_seq by done. rewrite <-(fsum_nth x row D), <-fsum_scale, <-fsum_add by done. f_equal. apply list_fmap_ext. intros ? d _.
    unfold column. cbn [fmap list_fmap]. rewrite dot_cons. ring.
Qed.

(** C30: The estimate of the library for a query and a quantized key is their inner product plus the error of one term:
    the inner product of the centred vectors, for which it takes the norm of the centred key times the ratio of the
    inner products of the query and of the normalized key with the rotated code.  The centroid terms are exact. *)
Theorem estimate_decomposes D P (k_centroid q_centroid query key : list F) :
  square D P -> length key = D -> length k_centroid = D -> length q_centroid = D -> length query = D ->
  let c := quantize_key D P k_centroid q_centroid key in
  let kbar := rotation D P (Kbar_unrotated D (Xbarb c)) in
  let eps := flit 1 (-8) in
  estimate D P k_centroid q_centroid (dot q_centroid k_centroid) query c =
    fadd (dot query key)
      (fsub (fmul (K_norm c) (fdiv (dot (vsub query q_centroid) kbar) (fadd (o_Kbar c) eps))) (dot (vsub query q_centroid) (vsub key k_centroid))) /\
  (fadd (K_norm c) eps <> f0 -> fmul (o_Kbar c) (fadd (K_norm c) eps) = dot (vsub key k_centroid) kbar).
Proof.
  intros [HP Hrows] Hk Hkc Hqc Hq c kbar eps. split.
  - unfold estimate. fold eps. unfold inv_rotation. rewrite (adjoint D).
    + change (row_times D (Kbar_unrotated D (Xbarb c)) P) with kbar. change (code_cq_dot_kr c) with (dot key q_centroid).
      rewrite (dot_vsub query q_centroid key k_centroid), (dot_comm key q_centroid) by lia. ring.
    + rewrite vsub_length; lia.
    + done.
    + unfold Kbar_unrotated, c, quantize_key, inv_rotation, times_rows. cbn [Xbarb]. by rewrite !length_fmap.
  - intros Hne.
    assert (forall (u v : list F) s, s <> f0 -> fmul (dot ((fun x => fdiv x s) <$> u) v) s = dot u v) as Hdiv.
    { intros u v s Hs. revert v. induction u as [|x u IH]; intros [|y v]; unfold dot in *; cbn [fmap list_fmap zip_with]; rewrite ?fsum_nil, ?fsum_cons; try ring.
      rewrite <-(IH v). pose proof (ex_div x s Hs) as E. cbn [fmap list_fmap]. generalize dependent (fdiv x s). intros z <-. ring. }
    apply Hdiv, Hne.
Qed.
End estimates.

(** * Runs *)


(** * Concrete runs, over the rationals *)

Module PyCases.
#[local] Existing Instances qc_scalar qc_exact qc_ordered qc_ops qc_laws.

(** One batch row, one head, vectors of one element. *)
Definition tokens (l : list Z) : list (list (list (list Qc))) := [[(fun z => [qc_of_Z z]) <$> l]].
Definition one_query (z : Z) : list (list (list Qc)) := [[[qc_of_Z z]]].
Definition half : Qc := Q2Qc (1 # 2).

Lemma tokens_shaped l : shaped 1 1 (length l) (tokens l).
Proof. split; [done|]. repeat constructor. by rewrite length_fmap. Qed.

Lemma tokens_appended l z : appended 1 1 (length l) (tokens l) (tokens (l ++ [z])).
Proof.
  split; [apply tokens_shaped|]. split; [replace (S (length l)) with (length (l ++ [z])) by (rewrite length_app; cbn; lia); apply tokens_shaped|].
  intros [|b] [|h] Hb Hh; try lia. unfold toks, tokens. cbn [nth]. rewrite fmap_app, take_app_length'; [done|by rewrite length_fmap].
Qed.

Definition prompt : list Z := [3; 1; 4; 1; 5]%Z.
Definition after_prefill : option (RabitQState Qc) :=
  (prefill_rabitq 1 1 (Some (Z.of_nat 2)) [[1%Qc]] (tokens prompt) (tokens prompt) 0 None).2.

Lemma prefilled : lib_run 1 1 2 half (after_prefill, <[0%Z := mkHist 5 (trained_params 1 1 [[1%Qc]] (tokens prompt) (tokens prompt)) (tokens prompt)]> ∅).
Proof.
  apply rtc_once. unfold after_prefill.
  refine (lib_prefill 1 1 2 half None ∅ 0%Z [[1%Qc]] (tokens prompt) (tokens prompt) 1 5 (lookup_empty _) _ (tokens_shaped prompt)). lia.
Qed.


Lemma top_p_keeps_at_most_witness :
  exists v, top_p_row half 3 [qc_of_Z 3; 1; 2]%Qc = Ok v /\ v = [true; false; false] /\
    exists c, 1 <= c /\ c <= 3 /\ (forall i, i < 3 -> nth i v false = true <-> i ∈ take c (argsort_descending (softmax [qc_of_Z 3; 1; 2]%Qc))).
Proof.
  exists [true; false; false]. split; [vm_compute; reflexivity|]. split; [done|].
  destruct (top_p_keeps_at_most half 3 [qc_of_Z 3; 1; 2]%Qc [true; false; false] ltac:(lia) eq_refl ltac:(vm_compute; reflexivity)) as (c & Hc & Hc3 & Hsel & _).
  by exists c.
Defined.

Lemma estimate_decomposes_witness :
  square 2 [[0; 1]; [1; 0]]%Qc /\
  let c := quantize_key 2 [[0; 1]; [1; 0]]%Qc [1; 1]%Qc [0; 0]%Qc [qc_of_Z 3; 1]%Qc in
  let kbar := rotation 2 [[0; 1]; [1; 0]]%Qc (Kbar_unrotated 2 (Xbarb c)) in
  estimate 2 [[0; 1]; [1; 0]]%Qc [1; 1]%Qc [0; 0]%Qc (dot [0; 0]%Qc [1; 1]%Qc) [1; 2]%Qc c =
    fadd (dot [1; 2]%Qc [qc_of_Z 3; 1]%Qc)
      (fsub (fmul (K_norm c) (fdiv (dot (vsub [1; 2]%Qc [0; 0]%Qc) kbar) (fadd (o_Kbar c) (flit 1 (-8))))) (dot (vsub [1; 2]%Qc [0; 0]%Qc) (vsub [qc_of_Z 3; 1]%Qc [1; 1]%Qc))).
Proof.
  assert (square 2 [[0; 1]; [1; 0]]%Qc) as Hsq by (split; [reflexivity|repeat constructor]). split; [exact Hsq|].
  destruct (estimate_decomposes (F := Qc) 2 [[0; 1]; [1; 0]]%Qc [1; 1]%Qc [0; 0]%Qc [1; 2]%Qc [qc_of_Z 3; 1]%Qc Hsq eq_refl eq_refl eq_refl eq_refl) as [E _].
  cbv zeta in E |- *. exact E.
Defined.

(** A second prompt without a reset, as in [benchmark/passkey/passkey.py]: its masks are chosen by the codes of the first
    prompt, which stay in front of the lists. *)
Example second_prompt_reads_first :
  let second := [3; 1; 1; 4; 2]%Z in
  let g := (prefill_rabitq 1 1 (Some 2%Z) [[1%Qc]] (tokens second) (tokens second) 0%Z after_prefill).2 in
  let fresh := (prefill_rabitq 1 1 (Some 2%Z) [[1%Qc]] (tokens second) (tokens second) 0%Z None).2 in
  let mask g := (rabitq_selector 1 1 (one_query 2) (tokens (second ++ [9%Z])) 0%Z (Some 2%Z) (Some half) g).1 in
  mask g = (rabitq_selector 1 1 (one_query 2) (tokens (prompt ++ [9%Z])) 0%Z (Some 2%Z) (Some half) after_prefill).1 /\
  mask g = Ok [[[true; true; false; false; true; true]]] /\ mask fresh = Ok [[[true; true; false; true; false; true]]].
Proof. vm_compute. repeat split. Qed.

(** Without [quantize_interval] in the configuration the prefill hook takes 512 and the selector 128: the estimate of
    token 512 decides on token 128, and the tokens from 129 to 512 are never selected. *)
Example defaults_disagree :
  let long := replicate 512 1%Z ++ [7%Z] in
  (rabitq_selector 1 1 (one_query 2) (tokens (long ++ [9%Z])) 0%Z None (Some half)
    (prefill_rabitq 1 1 None [[1%Qc]] (tokens long) (tokens long) 0%Z None).2).1 =
  Ok [[replicate 129 true ++ replicate 384 false ++ [true]]].
Proof. vm_compute. reflexivity. Qed.
End PyCases.
