(* ===== verification/PySelectors.v ===== *)
(** The selectors of the PyTorch library that do not keep codes: [rabitqcache/pyimpl/streaming_llm.py], [top_k.py], [quest.py],
    [sparq.py], [double_sparse.py] (with [kernel/triton/channel.py]), [tidal_decode.py], [elementwise_threshold.py], [top_p.py],
    and the quantizers of [quantize.py] that estimate weights.

    Every function works on each batch row and head by itself; a definition is the computation of one of these rows: a
    vector for the query, a list of vectors for the keys, a list for the weights and for the mask.  Floats among the
    arguments ([sparsity_rate], [token_ratio]) are rationals. *)
From stdpp Require Import base sets list.
From Stdlib Require Import ZArith QArith Qround Qcanon Lia Ring.
From S2P Require Import Prelude RabitqOps RabitqQuant PyTensor.
Open Scope nat_scope.

Section selectors.
Context {F : Type} `{Scalar F} `{TorchOps F}.

Definition flt (a b : F) : bool := negb (fle b a).
Definition zeros_mask (n : nat) : list bool := replicate n false.

(** [mask[..., :num_sinks] = True; mask[..., -token_budget:] = True] *)
Definition streaming_selector (attn_weights : list F) (token_budget num_sinks : Z) : list bool :=
  let n := length attn_weights in
  let mask := zeros_mask n in
  let mask := fill_true 0 (py_index n num_sinks) mask in
  fill_true (py_index n (- token_budget)) n mask.

(** [Tensor.topk] raises for a [k] out of range. *)
Definition topk (k : Z) (l : list F) : outcome (list nat) :=
  if (0 <=? k)%Z && (k <=? Z.of_nat (length l))%Z then Ok (topk_indices (Z.to_nat k) l) else Raise RuntimeError.

(** [mask.scatter_(index=indices, value=True)] *)
Definition scatter_true (idx : list nat) (mask : list bool) : list bool := scatter idx (replicate (length idx) true) mask.

Definition top_k (attn_weights : list F) (token_budget : Z) : outcome (list bool) :=
  let k := Z.min token_budget (Z.of_nat (length attn_weights)) in
  indices ← topk k attn_weights;
  Ok (scatter_true indices (zeros_mask (length attn_weights))).

Definition oracle_topk_selector (attn_weights : list F) (token_budget : Z) : outcome (list bool) := top_k attn_weights token_budget.

(** * Quest *)

Definition vmax (a b : list F) : list F := zip_with clamp_min a b.

(** [amax(dim=-2)] of a chunk. *)
Definition amax_rows (rows : list (list F)) : list F := match rows with [] => [] | r :: rows => foldl vmax r rows end.

(** [reshape(..., n // size, size, ...)] of [size * count] rows. *)
Definition chunked {A} (size count : nat) (l : list A) : list (list A) := (fun c => take size (drop (c * size) l)) <$> seq 0 count.

(** [int(seq_length * sparsity_rate)] when there is a rate. *)
Definition rated_budget (seq_length : Z) (sparsity_rate : Q) (token_budget : Z) : Z :=
  if Qeq_bool sparsity_rate (inject_Z (-1)) then token_budget
  else let x := (inject_Z seq_length * sparsity_rate)%Q in Z.quot (Qnum x) (Zpos (Qden x)).

(** The estimates of the chunks: the query made positive against the largest of the keys with the signs of the query. *)
Definition quest_estimates (chunk_size : nat) (head_dim : nat) (query : list F) (keys : list (list F)) : list F :=
  let sign := (fun x => if flt f0 x then f1 else fopp f1) <$> query in
  let positive_query := zip_with fmul query sign in
  let max_key := (fun key => zip_with fmul key sign) <$> keys in
  let seq_length := length keys in
  let padding_length := chunk_size - seq_length mod chunk_size in
  let max_key := if padding_length <? chunk_size then max_key ++ replicate padding_length (replicate head_dim (fmul f1 finfo_min)) else max_key in
  let chunk_max_key := amax_rows <$> chunked chunk_size (length max_key / chunk_size) max_key in
  (fun m => dot positive_query m) <$> chunk_max_key.

Definition chunk_budget (chunk_size token_budget : Z) : Z :=
  let b := Z.max 1 (token_budget / chunk_size) in
  if (token_budget mod chunk_size =? 0)%Z then b else (b + 1)%Z.

(** [topk * chunk_size + arange(chunk_size)], flattened. *)
Definition chunk_tokens (chunk_size : nat) (topk : list nat) : list nat := topk ≫= fun c => (fun o => c * chunk_size + o) <$> seq 0 chunk_size.

(** [x % chunk_size] raises for a chunk size of 0; a negative one is not meant. *)
Definition quest_selector (head_dim chunk_size : nat) (token_budget : Z) (sparsity_rate : Q) (query : list F) (keys : list (list F)) : outcome (list bool) :=
  if chunk_size =? 0 then Raise ZeroDivisionError
  else
    let seq_length := length keys in
    let token_budget := rated_budget (Z.of_nat seq_length) sparsity_rate token_budget in
    let estimated_weight := quest_estimates chunk_size head_dim query keys in
    let budget := Z.min (chunk_budget (Z.of_nat chunk_size) token_budget) (Z.of_nat (length estimated_weight)) in
    idx ← topk budget estimated_weight;
    let topk1 := chunk_tokens chunk_size idx in
    let mask_bottom := scatter_true topk1 (zeros_mask (length estimated_weight * chunk_size)) in
    Ok (take seq_length mask_bottom).

(** * SparQ *)

Definition fabs (x : F) : F := if fle f0 x then x else fopp x.
Definition sqrt_dim (head_dim : nat) : F := fsqrt (fofZ (Z.of_nat head_dim)).

Definition sparq (head_dim : nat) (r : Z) (query : list F) (keys : list (list F)) : outcome (list F) :=
  let query_norm := fabs <$> query in
  channel_indices ← topk r query_norm;
  let partial_query := gather f0 channel_indices query in
  let partial_key := gather f0 channel_indices <$> keys in
  Ok ((fun k => fdiv (dot partial_query k) (sqrt_dim head_dim)) <$> partial_key).

Definition sparq_selector (head_dim : nat) (r : Z) (token_budget : option Z) (token_ratio : option Q) (query : list F) (keys : list (list F)) :
    outcome (list bool) :=
  estimated_weights ← sparq head_dim r query keys;
  token_budget ← match token_ratio, token_budget with
    | Some ratio, _ =>
        if Qle_bool ratio 0 then Raise ValueError
        else Ok (Z.max 1 (Qceiling (inject_Z (Z.of_nat (length estimated_weights)) * ratio)))
    | None, None => Raise ValueError
    | None, Some b => Ok b
    end;
  top_k estimated_weights token_budget.

(** * Quantizers *)

Definition fmax_list (l : list F) : F := match l with [] => f0 | x :: l => fmaximum x l end.
Definition fmin_list (l : list F) : F := match l with [] => f0 | x :: l => fminimum x l end.

(** One token of a non-empty channel axis. *)
Definition min_max_per_token_quant_kv (qbit : Z) (kv : list F) : list F :=
  let max_val := fmax_list kv in
  let min_val := fmin_list kv in
  let max_int := fofZ (2 ^ qbit - 1) in
  let scales := fdiv (clamp_min (fsub max_val min_val) (flit 1 (-9))) max_int in
  let zeros := fopp min_val in
  (fun x => fsub (fmul (clamp_max (clamp_min (fround (fdiv (fadd x zeros) scales)) f0) max_int) scales) zeros) <$> kv.

Definition fsign (x : F) : F := if flt f0 x then f1 else if flt x f0 then fopp f1 else f0.

(** All tokens of a row; [smooth] subtracts the least value of every channel. *)
Definition max_per_token_quant_kv (head_dim : nat) (qbit : Z) (smooth : bool) (kv : list (list F)) : list (list F) :=
  let kv := if smooth then (fun row => vsub row ((fun d => fmin_list (column kv d)) <$> seq 0 head_dim)) <$> kv else kv in
  if (qbit =? 1)%Z then (fun row => fsign <$> row) <$> kv
  else (fun row =>
    let channel_max := fmax_list (fabs <$> row) in
    let scale := clamp_min (fdiv channel_max (fofZ (2 ^ qbit - 1))) (flit 1 (-6)) in
    (fun x => fmul (fround (fdiv x scale)) scale) <$> row) <$> kv.

(** * Double Sparsity *)

(** One program of [get_label_tensor_kernel]: the heavy channels of a token at a head. *)
Definition get_label_tensor (heavy_channels : list nat) (X : list F) : list F := gather f0 heavy_channels X.

Definition permute_channel (head_dim c : Z) : Z := ((c * 2) mod head_dim + (c * 2) / head_dim)%Z.

Definition double_sparse (head_dim : nat) (quant_bit : Z) (sorted_channel : list nat) (query : list F) (keys : list (list F)) : list F :=
  let query_label := get_label_tensor sorted_channel query in
  let key_label := get_label_tensor sorted_channel <$> keys in
  let key_label := if (quant_bit <? 32)%Z then min_max_per_token_quant_kv quant_bit <$> key_label else key_label in
  (fun k => fdiv (dot query_label k) (sqrt_dim head_dim)) <$> key_label.

Definition double_sparse_selector (head_dim : nat) (quant_bit : Z) (sorted_channel : list nat) (token_budget : Z) (sparsity_rate : Q)
    (query : list F) (keys : list (list F)) : outcome (list bool) :=
  let token_budget := rated_budget (Z.of_nat (length keys)) sparsity_rate token_budget in
  top_k (double_sparse head_dim quant_bit sorted_channel query keys) token_budget.

(** * Pruners *)

(** [attn_weights > attn_weights[..., 0:1] - threshold]; an empty row stays empty. *)
Definition elementwise_threshold (attn_weights : list F) (threshold : F) : list bool :=
  match attn_weights with
  | [] => []
  | first_weight :: _ => (fun w => flt (fsub first_weight threshold) w) <$> attn_weights
  end.

(** [twi] is not a name of the module, and the loop over the six thresholds calls it first. *)
Definition hierarchical_elementwise_threshold (attn_weights : list F) (rate : F) : outcome (list bool) := Raise NameError.

(** [top_p_fp32_return_mask] is a CUDA kernel. *)
Definition top_p_unnormalized (top_p_fp32_return_mask : list F -> F -> list bool) (attn_weights : list F) (threshold : F) : list bool :=
  top_p_fp32_return_mask (softmax attn_weights) threshold.
End selectors.

(** * Masks by index *)

Section masks.
Context {F : Type} `{OrderedScalar F} `{!TorchOps F} `{!TorchLaws F}.
Add Ring F_ring_sel : ex_ring.

Lemma scatter_true_nth idx n i : i < n -> (nth i (scatter_true idx (zeros_mask n)) false = true <-> i ∈ idx).
Proof.
  intros Hi. unfold scatter_true, zeros_mask.
  assert (forall row, length row = n -> (nth i (scatter idx (replicate (length idx) true) row) false = true <-> i ∈ idx \/ nth i row false = true)) as Hgen.
  { induction idx as [|j idx IH]; intros row Hr; [unfold scatter; cbn; set_solver|].
    change (scatter (j :: idx) (replicate (length (j :: idx)) true) row) with (scatter idx (replicate (length idx) true) (<[j:=true]> row)).
    rewrite IH by (by rewrite length_insert). rewrite !nth_lookup, elem_of_cons. destruct (decide (i = j)) as [->|Hne].
    - rewrite list_lookup_insert_eq by lia. naive_solver.
    - rewrite list_lookup_insert_ne by done. naive_solver. }
  rewrite Hgen by apply length_replicate. rewrite nth_lookup, lookup_replicate_2 by done. naive_solver.
Qed.

Lemma scatter_true_length idx n : length (scatter_true idx (zeros_mask n)) = n.
Proof. unfold scatter_true, zeros_mask. by rewrite scatter_length, length_replicate. Qed.

Lemma fill_true_nth (a b i : nat) l : i < length l -> nth i (fill_true a b l) false = ((a <=? i) && (i <? b)) || nth i l false.
Proof.
  intros Hi. destruct (lookup_lt_is_Some_2 l i Hi) as [x Hx]. rewrite (nth_lookup_Some l i false x Hx).
  erewrite nth_lookup_Some; [|by rewrite fill_true_lookup, Hx]. by destruct ((a <=? i) && (i <? b)).
Qed.

(** The streaming mask is the first [num_sinks] tokens and the last [token_budget], and the whole row for a budget of
    zero, since [mask[..., -0:]] is everything. *)
Theorem streaming_mask_exact (attn_weights : list F) (token_budget num_sinks : nat) i :
  i < length attn_weights ->
  nth i (streaming_selector attn_weights (Z.of_nat token_budget) (Z.of_nat num_sinks)) false =
    (i <? num_sinks) || (token_budget =? 0) || (length attn_weights - token_budget <=? i).
Proof.
  intros Hi. unfold streaming_selector, zeros_mask. set (n := length attn_weights) in *.
  rewrite !fill_true_nth by (rewrite ?fill_true_length, length_replicate; done).
  rewrite (nth_lookup_Some _ _ _ _ (lookup_replicate_2 n false i Hi)), orb_false_r. rewrite (py_index_nonneg _ (Z.of_nat num_sinks)), Nat2Z.id by lia.
  destruct (Nat.eqb_spec token_budget 0) as [->|Hb].
  - rewrite py_index_nonneg by lia. change (Z.to_nat (- Z.of_nat 0)) with 0. destruct (Nat.ltb_spec i n); [|lia].
    destruct (i <? num_sinks); done.
  - rewrite py_index_neg by lia. replace (Z.to_nat (- - Z.of_nat token_budget)) with token_budget by lia.
    destruct (Nat.leb_spec (n - token_budget) i), (Nat.ltb_spec i n), (Nat.leb_spec 0 i), (Nat.ltb_spec i (Nat.min num_sinks n)), (Nat.ltb_spec i num_sinks); done || lia.
Qed.

(** Top-k selection takes as many of the largest weights as the budget or the row has, and raises for a negative
    budget. *)
Theorem top_k_exact (attn_weights : list F) (token_budget : Z) :
  ((token_budget < 0)%Z -> top_k attn_weights token_budget = Raise RuntimeError) /\
  ((0 <= token_budget)%Z -> exists mask idx, top_k attn_weights token_budget = Ok mask /\ length mask = length attn_weights /\
    NoDup idx /\ Z.of_nat (length idx) = Z.min token_budget (Z.of_nat (length attn_weights)) /\
    (forall i, i < length attn_weights -> nth i mask false = true <-> i ∈ idx) /\
    (forall i j, i < length attn_weights -> j < length attn_weights -> nth i mask false = true -> nth j mask false = false ->
      fle (nth j attn_weights f0) (nth i attn_weights f0) = true)).
Proof.
  unfold top_k, topk. set (n := length attn_weights). split; intros Hb.
  - destruct (Z.leb_spec 0 (Z.min token_budget (Z.of_nat n))); [lia|done].
  - destruct (Z.leb_spec 0 (Z.min token_budget (Z.of_nat n))); [|lia]. destruct (Z.leb_spec (Z.min token_budget (Z.of_nat n)) (Z.of_nat n)); [|lia].
    set (k := Z.to_nat (Z.min token_budget (Z.of_nat n))). assert (k <= length attn_weights) as Hk by (fold n; lia).
    cbn [andb]. eexists _, (topk_indices k attn_weights). split; [done|]. pose proof (topk_nodup k attn_weights Hk) as Hnd.
    split; [apply scatter_true_length|]. split; [done|]. split; [rewrite topk_length by done; lia|].
    assert (forall i, i < n -> nth i (scatter_true (topk_indices k attn_weights) (zeros_mask n)) false = true <-> i ∈ topk_indices k attn_weights) as Hmask
      by (intros; by apply scatter_true_nth).
    split; [done|]. intros i j Hi Hj Hmi Hmj. apply (topk_largest k); try done; [by apply Hmask|]. rewrite <-Hmask by done. congruence.
Qed.

(** ** Quest *)

Lemma dot_mono (p u v : list F) : Forall (fun x => fle f0 x = true) p -> Forall2 (fun a b => fle a b = true) u v -> fle (dot p u) (dot p v) = true.
Proof.
  intros Hp Huv. revert u v Huv. induction p as [|x p IH]; intros u v Huv; [rewrite !dot_nil; apply fle_refl|]. apply Forall_cons_1 in Hp as [Hx Hp].
  destruct Huv as [|a b u v Hab Huv]; [apply fle_refl|]. rewrite !dot_cons. apply fle_add_both; [by apply fle_mul|by apply IH].
Qed.

Lemma vmax_le (a b : list F) : length a = length b -> Forall2 (fun x y => fle x y = true) a (vmax a b) /\ Forall2 (fun x y => fle x y = true) b (vmax a b).
Proof.
  revert b. induction a as [|x a IH]; intros [|y b] Hl; try done. destruct (IH b ltac:(cbn in Hl; lia)) as [Ha Hb]. unfold vmax in *. cbn [zip_with].
  assert (fle x (clamp_min x y) = true /\ fle y (clamp_min x y) = true) as [Hx Hy].
  { unfold clamp_min. destruct (fle y x) eqn:E; [by split; [apply fle_refl|]|]. destruct (fle_total y x) as [|E']; [congruence|]. by split; [|apply fle_refl]. }
  split; by constructor.
Qed.

Lemma vmax_length (a b : list F) : length a = length b -> length (vmax a b) = length a.
Proof. intros Hl. unfold vmax. rewrite length_zip_with. lia. Qed.

Lemma amax_rows_ge D (rows : list (list F)) row : Forall (fun r => length r = D) rows -> row ∈ rows -> Forall2 (fun x y => fle x y = true) row (amax_rows rows).
Proof.
  assert (forall rows r, length r = D -> Forall (fun r => length r = D) rows -> Forall2 (fun x y : F => fle x y = true) r (foldl vmax r rows) /\
    forall row, row ∈ rows -> Forall2 (fun x y => fle x y = true) row (foldl vmax r rows)) as Hfold.
  { induction rows0 as [|s rows0 IH]; intros r Hr Hrows; cbn [foldl].
    - split; [|by intros ? ?%elem_of_nil]. apply Forall_Forall2_diag, Forall_true. intros x. apply fle_refl.
    - apply Forall_cons_1 in Hrows as [Hs Hrows]. destruct (IH (vmax r s)) as [Hv Hall]; [rewrite vmax_length; lia|done|].
      destruct (vmax_le r s) as [H1' H2']; [lia|].
      assert (forall a b c : list F, Forall2 (fun x y => fle x y = true) a b -> Forall2 (fun x y => fle x y = true) b c -> Forall2 (fun x y => fle x y = true) a c) as Htr.
      { intros a b c Hab Hbc. eapply Forall2_trans; [|exact Hab|exact Hbc]. intros x y z Hxy Hyz. exact (fle_trans _ _ _ Hxy Hyz). }
      split; [by eapply Htr|]. intros row0 [->|Hin]%elem_of_cons; [by eapply Htr|by apply Hall]. }
  intros Hrows Hin. destruct rows as [|r rows]; [by apply elem_of_nil in Hin|]. apply Forall_cons_1 in Hrows as [Hr Hrows]. cbn [amax_rows].
  destruct (Hfold rows r Hr Hrows) as [Hv Hall]. apply elem_of_cons in Hin as [->|Hin]; [done|by apply Hall].
Qed.

Lemma quest_sign_nonneg (query : list F) : Forall (fun x => fle f0 x = true) (zip_with fmul query ((fun x => if flt f0 x then f1 else fopp f1) <$> query)).
Proof.
  induction query as [|x query IH]; [constructor|]. cbn. constructor; [|done]. unfold flt. destruct (fle x f0) eqn:E; cbn.
  - apply (fle_add _ _ (fopp x)) in E. replace (fadd x (fopp x)) with f0 in E by ring. by replace (fmul x (fopp f1)) with (fadd f0 (fopp x)) by ring.
  - destruct (fle_total x f0) as [|E']; [congruence|]. by replace (fmul x f1) with x by ring.
Qed.

Lemma quest_sign_dot (query : list F) : forall key, length key = length query ->
  let sign := (fun x => if flt f0 x then f1 else fopp f1) <$> query in
  dot (zip_with fmul query sign) (zip_with fmul key sign) = dot query key.
Proof.
  induction query as [|x query IH]; intros [|y key] Hl; try done. specialize (IH key ltac:(cbn in Hl; lia)). cbn in IH |- *.
  rewrite !dot_cons, IH. destruct (flt f0 x); ring.
Qed.

(** The number of chunks of [n] tokens. *)
Definition num_chunks (chunk_size n : nat) : nat := (n + (if n mod chunk_size =? 0 then 0 else chunk_size - n mod chunk_size)) / chunk_size.

Lemma padded_length cs n : 0 < cs -> n <= num_chunks cs n * cs /\
  n + (if cs - n mod cs <? cs then cs - n mod cs else 0) = num_chunks cs n * cs.
Proof.
  intros Hcs. unfold num_chunks. pose proof (Nat.div_mod n cs ltac:(lia)) as Hn. pose proof (Nat.mod_upper_bound n cs ltac:(lia)).
  destruct (Nat.eqb_spec (n mod cs) 0) as [E|E].
  - rewrite E, Nat.sub_0_r, Nat.ltb_irrefl, Nat.add_0_r. rewrite Nat.mul_comm. lia.
  - destruct (Nat.ltb_spec (cs - n mod cs) cs); [|lia].
    assert (n + (cs - n mod cs) = (n / cs + 1) * cs) as -> by nia. rewrite Nat.div_mul by lia. split; [nia|done].
Qed.

Lemma chunk_token_at cs t count : 0 < cs -> t < count * cs -> t / cs < count /\ t / cs * cs <= t /\ t < t / cs * cs + cs.
Proof.
  intros Hcs Ht. split; [by apply Nat.Div0.div_lt_upper_bound; rewrite Nat.mul_comm|].
  pose proof (Nat.div_mod t cs ltac:(lia)). pose proof (Nat.mod_upper_bound t cs ltac:(lia)). nia.
Qed.

Lemma chunk_tokens_elem cs idx t : 0 < cs -> t ∈ chunk_tokens cs idx <-> t / cs ∈ idx.
Proof.
  intros Hcs. unfold chunk_tokens. rewrite list_elem_of_bind. split.
  - intros (c & (o & -> & Ho%elem_of_seq)%list_elem_of_fmap & Hc). by rewrite Nat.div_add_l, (Nat.div_small o), Nat.add_0_r by lia.
  - intros Hin. exists (t / cs). split; [|done]. apply list_elem_of_fmap. exists (t mod cs). rewrite elem_of_seq.
    pose proof (Nat.div_mod t cs ltac:(lia)). pose proof (Nat.mod_upper_bound t cs ltac:(lia)). split; lia.
Qed.

(** The estimate of a chunk bounds the products of its tokens. *)
Lemma quest_estimates_bound cs D query keys : 0 < cs -> length query = D -> Forall (fun k => length k = D) keys ->
  length (quest_estimates cs D query keys) = num_chunks cs (length keys) /\
  forall t, t < length keys -> fle (dot query (nth t keys [])) (nth (t / cs) (quest_estimates cs D query keys) f0) = true.
Proof.
  intros Hcs HD Hkeys. unfold quest_estimates. set (sign := (fun x => if flt f0 x then f1 else fopp f1) <$> query).
  set (signed := (fun key => zip_with fmul key sign) <$> keys).
  set (mk := if cs - length keys mod cs <? cs then _ else signed).
  assert (length sign = D) as Hsl by (unfold sign; by rewrite length_fmap).
  destruct (padded_length cs (length keys) Hcs) as [Hle Hpad].
  assert (length mk = num_chunks cs (length keys) * cs) as Hmk.
  { rewrite <-Hpad. unfold mk, signed. destruct (_ <? _); rewrite ?length_app, ?length_replicate, length_fmap; lia. }
  assert (Forall (fun r => length r = D) mk) as Hrows.
  { assert (Forall (fun r => length r = D) signed) as Hs.
    { apply Forall_fmap. eapply Forall_impl; [exact Hkeys|]. intros k Hk. cbn in Hk |- *. rewrite length_zip_with. lia. }
    unfold mk. destruct (_ <? _); [|done]. apply Forall_app. split; [done|]. apply Forall_replicate. apply length_replicate. }
  rewrite Hmk, Nat.div_mul by lia. split; [unfold chunked; by rewrite !length_fmap, length_seq|].
  intros t Ht. destruct (chunk_token_at cs t (num_chunks cs (length keys)) Hcs) as (Hc & Hlo & Hhi); [lia|].
  destruct (lookup_lt_is_Some_2 keys t Ht) as [key Hkey]. rewrite (nth_lookup_Some keys t [] key Hkey).
  assert (mk !! t = Some (zip_with fmul key sign)) as Hmt.
  { unfold mk. assert (signed !! t = Some (zip_with fmul key sign)) as Hs by (unfold signed; by rewrite list_lookup_fmap, Hkey).
    destruct (_ <? _); [|done]. by apply lookup_app_l_Some. }
  erewrite (nth_lookup_Some (_ <$> (amax_rows <$> _))); [|by unfold chunked; rewrite !list_lookup_fmap, lookup_seq_lt by done].
  rewrite <-(quest_sign_dot query key) by (rewrite Forall_lookup in Hkeys; by rewrite HD, (Hkeys t)).
  apply dot_mono; [apply quest_sign_nonneg|]. apply (amax_rows_ge D).
  - apply Forall_take, Forall_drop. done.
  - cbn [plus]. apply list_elem_of_lookup. exists (t - t / cs * cs). rewrite lookup_take_lt by lia. rewrite lookup_drop. replace (t / cs * cs + (t - t / cs * cs)) with t by lia. done.
Qed.

(** Quest selects whole chunks, as many as the budget asks for or the row has, and no token it leaves out has a
    product with the query above the estimate of a chunk it takes; the estimate of a chunk bounds its own tokens. *)
Theorem quest_selects cs D (token_budget : Z) query keys :
  0 < cs -> length query = D -> Forall (fun k => length k = D) keys ->
  let est := quest_estimates cs D query keys in
  exists mask idx, quest_selector D cs token_budget (inject_Z (-1)) query keys = Ok mask /\ length mask = length keys /\
    NoDup idx /\ Z.of_nat (length idx) = Z.min (chunk_budget (Z.of_nat cs) token_budget) (Z.of_nat (num_chunks cs (length keys))) /\
    forall t, t < length keys ->
      (nth t mask false = true <-> t / cs ∈ idx) /\
      fle (dot query (nth t keys [])) (nth (t / cs) est f0) = true /\
      (nth t mask false = false -> forall c, c ∈ idx -> fle (dot query (nth t keys [])) (nth c est f0) = true).
Proof.
  intros Hcs HD Hkeys est. destruct (quest_estimates_bound cs D query keys Hcs HD Hkeys) as [Hlen Hbound]. fold est in Hlen, Hbound.
  destruct (padded_length cs (length keys) Hcs) as [Hle _].
  unfold quest_selector. rewrite (proj2 (Nat.eqb_neq cs 0)) by lia. unfold rated_budget. cbn [Qeq_bool inject_Z Z.eqb Qnum Qden]. fold est. rewrite Hlen.
  set (b := Z.min _ _). assert (0 <= b)%Z as Hb.
  { unfold b, chunk_budget. destruct (_ =? 0)%Z; lia. }
  unfold topk. rewrite Hlen. destruct (Z.leb_spec 0 b); [|lia]. destruct (Z.leb_spec b (Z.of_nat (num_chunks cs (length keys)))) as [Hbc|]; [|unfold b in *; lia].
  cbn [andb]. assert (Z.to_nat b <= length est) as Hk by lia. set (idx := topk_indices (Z.to_nat b) est).
  assert (forall t, t < length keys -> nth t (take (length keys) (scatter_true (chunk_tokens cs idx) (zeros_mask (num_chunks cs (length keys) * cs)))) false = true <-> t / cs ∈ idx) as Hmask.
  { intros t Ht. rewrite nth_lookup, lookup_take_lt, <-nth_lookup, scatter_true_nth by lia. by apply chunk_tokens_elem. }
  eexists _, idx. split; [done|]. split; [rewrite length_take, scatter_true_length; lia|]. split; [by apply topk_nodup|].
  split; [unfold idx; rewrite topk_length by done; lia|]. intros t Ht. split; [by apply Hmask|]. split; [by apply Hbound|].
  intros Hout c Hc. eapply fle_trans; [by apply Hbound|]. destruct (chunk_token_at cs t (num_chunks cs (length keys)) Hcs) as (Htc & _); [lia|].
  apply (topk_largest (Z.to_nat b)); [done|done|by rewrite Hlen|]. change (t / cs ∉ idx). rewrite <-Hmask by done. congruence.
Qed.
End masks.

(** * Concrete rows, over the rationals *)

Module SelectorCases.
#[local] Existing Instances qc_scalar qc_exact qc_ordered qc_ops qc_laws.

Definition vec (l : list Z) : list Qc := qc_of_Z <$> l.
Definition five_keys : list (list Qc) := vec <$> [[1; -3]; [4; 2]; [0; 1]; [2; 2]; [-5; -5]]%Z.

Lemma streaming_mask_exact_witness :
  nth 3 (streaming_selector (vec [5; 1; 2; 3; 4]%Z) (Z.of_nat 2) (Z.of_nat 1)) false = true /\
  streaming_selector (vec [5; 1; 2; 3; 4]%Z) 2 1 = [true; false; false; true; true] /\
  streaming_selector (vec [5; 1; 2; 3; 4]%Z) 0 1 = [true; true; true; true; true].
Proof.
  split; [|split; vm_compute; reflexivity]. rewrite (streaming_mask_exact (vec [5; 1; 2; 3; 4]%Z) 2 1 3 ltac:(cbn; lia)). reflexivity.
Defined.

Lemma quest_selects_witness :
  exists mask idx, quest_selector 2 2 2 (inject_Z (-1)) (vec [1; -1]%Z) five_keys = Ok mask /\ mask = [true; true; false; false; false] /\
    Z.of_nat (length idx) = 1%Z /\ (nth 3 mask false = true <-> 1 ∈ idx).
Proof.
  destruct (quest_selects 2 2 2 (vec [1; -1]%Z) five_keys ltac:(lia) eq_refl ltac:(repeat constructor)) as (mask & idx & Hr & _ & _ & Hl & Hall).
  exists mask, idx. split; [exact Hr|]. split; [vm_compute in Hr; injection Hr as <-; reflexivity|]. split; [exact Hl|exact (proj1 (Hall 3 ltac:(cbn; lia)))].
Defined.
End SelectorCases.
