(* ===== verification/PyAttention.v ===== *)
(** The attention of the PyTorch library: [rabitqcache/pyimpl/attention.py], with the configuration and statistics of
    [state.py], [tidal_decode.py] and [snap_kv.py].

    [attention_forward] is modelled from the rotated queries, keys and values on: in the prefill, which keys and values go
    to the cache and what the RaBitQ hooks do; in a decode step, which weights are masked, what is recorded, and the output
    before its projection.  Tensors are lists over the batch of lists over the heads of rows.  The global [local_state],
    the statistics objects and the global RaBitQ states are the state; a statistics object is an index into a list, since
    the caller and [local_state] share it. *)
From Stdlib Require Import ZArith QArith Qcanon Ascii String Lia Ring.
From stdpp Require Import base gmap sets list strings.
From S2P Require Import Prelude RabitqOps RabitqQuant PyTensor PyRabitq PySelectors.
Open Scope nat_scope.

(** * Configuration *)

Inductive CompressorType := C_NONE | SNAP_KV.
Inductive IndexSelectorType := S_NONE | STREAMING | QUEST | ORACLE_TOPK | TIDAL_DECODE | SPARQ | DS | PQCACHE | RABITQ | RABITQ_NO_CENTER.
Inductive WeightEstimatorType := E_NONE | MIN_MAX_QUANT | MAX_QUANT | E_THRESHOLD | H_THRESHOLD.
Inductive WeightPrunerType := P_NONE | P_THRESHOLD | TOP_P.

#[global] Instance CompressorType_eq : EqDecision CompressorType. Proof. solve_decision. Defined.
#[global] Instance IndexSelectorType_eq : EqDecision IndexSelectorType. Proof. solve_decision. Defined.
#[global] Instance WeightEstimatorType_eq : EqDecision WeightEstimatorType. Proof. solve_decision. Defined.
#[global] Instance WeightPrunerType_eq : EqDecision WeightPrunerType. Proof. solve_decision. Defined.

(** [str.upper] on ASCII. *)
Definition upper_char (c : ascii) : ascii :=
  let n := nat_of_ascii c in if (97 <=? n) && (n <=? 122) then ascii_of_nat (n - 32) else c.
Fixpoint upper (s : string) : string := match s with EmptyString => EmptyString | String c s => String (upper_char c) (upper s) end.

(** [cls[name]] of an enum, by its members in order. *)
Definition enum_item {A} (members : list (string * A)) (name : string) : outcome A :=
  match list_find (fun '(n, _) => n = name) members with Some (_, (_, x)) => Ok x | None => Raise KeyError end.

Definition compressor_members : list (string * CompressorType) := [("NONE", C_NONE); ("SNAP_KV", SNAP_KV)]%string.
Definition selector_members : list (string * IndexSelectorType) :=
  [("NONE", S_NONE); ("STREAMING", STREAMING); ("QUEST", QUEST); ("ORACLE_TOPK", ORACLE_TOPK); ("TIDAL_DECODE", TIDAL_DECODE); ("SPARQ", SPARQ);
   ("DS", DS); ("PQCACHE", PQCACHE); ("RABITQ", RABITQ); ("RABITQ_NO_CENTER", RABITQ_NO_CENTER)]%string.
Definition estimator_members : list (string * WeightEstimatorType) :=
  [("NONE", E_NONE); ("MIN_MAX_QUANT", MIN_MAX_QUANT); ("MAX_QUANT", MAX_QUANT); ("THRESHOLD", E_THRESHOLD); ("H_THRESHOLD", H_THRESHOLD)]%string.
Definition pruner_members : list (string * WeightPrunerType) := [("NONE", P_NONE); ("THRESHOLD", P_THRESHOLD); ("TOP_P", TOP_P)]%string.

(** [from_str] of the four enums. *)
Definition from_str {A} (members : list (string * A)) (algo_str : string) : outcome A := enum_item members (upper algo_str).

(** A value of a configuration; an argument dictionary. *)
Inductive CfgVal := CInt (z : Z) | CFloat (q : Q) | CBool (b : bool) | CStr (s : string) | CList (l : list Z).
Abbreviation Args := (gmap string CfgVal).

(** [d[key]], and the readings of a value that the callees make. *)
Definition arg (a : Args) (key : string) : outcome CfgVal := match a !! key with Some v => Ok v | None => Raise KeyError end.
Definition as_int (v : CfgVal) : outcome Z := match v with CInt z => Ok z | _ => Raise TypeError end.
Definition as_num (v : CfgVal) : outcome Q := match v with CInt z => Ok (inject_Z z) | CFloat q => Ok q | _ => Raise TypeError end.
Definition as_list (v : CfgVal) : outcome (list Z) := match v with CList l => Ok l | _ => Raise TypeError end.
Definition truthy (v : CfgVal) : bool :=
  match v with CInt z => negb (z =? 0)%Z | CFloat q => negb (Qeq_bool q 0) | CBool b => b | CStr s => negb (String.eqb s EmptyString) | CList l => negb (bool_decide (l = [])) end.

(** An optional keyword argument, and the check of a call [f(..., **a)] against the keywords of [f]. *)
Definition opt_arg {A} (read : CfgVal -> outcome A) (a : Args) (key : string) : outcome (option A) :=
  match a !! key with Some v => x ← read v; Ok (Some x) | None => Ok None end.
Definition call_kwargs (required optional : list string) (a : Args) : outcome unit :=
  if forallb (fun k => bool_decide (is_Some (a !! k))) required && forallb (fun '(k, _) => bool_decide (k ∈ required ++ optional)) (map_to_list a)
  then Ok tt else Raise TypeError.

(** [_split_type_args] of a section of the configuration: the type, and the section without it. *)
Definition split_type_args (config : Args) : outcome (CfgVal * Args) :=
  v ← arg config "type";
  Ok (v, delete "type"%string config).

(** Only a string has [upper]. *)
Definition from_value {A} (members : list (string * A)) (v : CfgVal) : outcome A :=
  match v with CStr s => from_str members s | _ => Raise AttributeError end.

(** * Statistics *)

(** A dictionary over layers keeps the order of insertion; [d[key] = v]. *)
Fixpoint put_layer {V} (key : Z) (v : V) (d : list (Z * V)) : list (Z * V) :=
  match d with
  | [] => [(key, v)]
  | (k, x) :: d => if (k =? key)%Z then (k, v) :: d else (k, x) :: put_layer key v d
  end.

(** [l[-1][key] = v] *)
Definition set_last {V} (key : Z) (v : V) (l : list (list (Z * V))) : outcome (list (list (Z * V))) :=
  match l with [] => Raise IndexError | _ => Ok (alter (put_layer key v) (pred (length l)) l) end.

(** Per query, in order: the values recorded at the layers. *)
Record HistoryBudgetInfo := mkBudgetInfo { budget_num : list (list (Z * list Z)); budget_last_layer_id : Z }.
Definition budget_reset : HistoryBudgetInfo := mkBudgetInfo [] (-999).

Definition count_true (mask : list bool) : Z := Z.of_nat (length (filter (fun b => b = true) mask)).

Definition budget_update (layer_id : Z) (selected_mask : list (list (list bool))) (h : HistoryBudgetInfo) : outcome HistoryBudgetInfo :=
  let head_budgets := concat (map (map count_true) selected_mask) in
  let l := if (layer_id =? budget_last_layer_id h + 1)%Z then budget_num h else budget_num h ++ [[]] in
  l ← set_last layer_id head_budgets l;
  Ok (mkBudgetInfo l layer_id).

Section attention.
Context {F : Type} `{Scalar F} `{TorchOps F}.

Abbreviation rows A := (list (list A)).

(** [torch.mean(x.float()).item()] of budgets; [np.mean] of an empty list is a [nan], [None] here. *)
Definition mean_budget (l : list Z) : F := fmean (fofZ <$> l).
Definition np_mean (l : list F) : option F := match l with [] => None | _ => Some (fmean l) end.

Definition get_avg_budget_cur_query (h : HistoryBudgetInfo) : outcome (list F) :=
  match last (budget_num h) with Some d => Ok ((fun '(_, l) => mean_budget l) <$> d) | None => Raise IndexError end.
Definition get_avg_budget_per_query (h : HistoryBudgetInfo) : list (option F) :=
  (fun d => np_mean ((fun '(_, l) => mean_budget l) <$> filter (fun '(k, _) => (1 < k)%Z) d)) <$> budget_num h.
Definition get_total_avg_budget (h : HistoryBudgetInfo) : option F :=
  match mapM id (get_avg_budget_per_query h) with Some l => np_mean l | None => None end.

(** The mass of the attention that the masks keep: per query and layer, the sums of the heads and the least of them. *)
Record HistoryAccumulatedScoreInfo := mkScoreInfo {
  score_sum : list (list (Z * list F)); min_sum : list (list (Z * F)); score_last_layer_id : Z
}.
Definition score_reset : HistoryAccumulatedScoreInfo := mkScoreInfo [] [] (-999).

Definition masked_sum (weights : list F) (mask : list bool) : F := fsum (zip_with (fun w (m : bool) => if m then w else f0) (softmax weights) mask).

(** [torch.min] of no heads raises. *)
Definition score_update (layer_id : Z) (attn_weights : rows (list F)) (mask : rows (list bool)) (h : HistoryAccumulatedScoreInfo) :
    outcome HistoryAccumulatedScoreInfo :=
  let score := concat (zip_with (zip_with masked_sum) attn_weights mask) in
  let new := negb (layer_id =? score_last_layer_id h + 1)%Z in
  let ss := if new then score_sum h ++ [[]] else score_sum h in
  let ms := if new then min_sum h ++ [[]] else min_sum h in
  ss ← set_last layer_id score ss;
  least ← match score with [] => Raise RuntimeError | x :: l => Ok (fminimum x l) end;
  ms ← set_last layer_id least ms;
  Ok (mkScoreInfo ss ms layer_id).

Definition get_avg_score_per_query (h : HistoryAccumulatedScoreInfo) : list (option F) :=
  (fun d => np_mean (snd <$> filter (fun '(k, _) => (1 < k)%Z) d)) <$> min_sum h.

(** * State *)

(** [local_state] once its arguments are set; the statistics are indices, [td_mask_buffer] is set by [tidal_decode]. *)
Record LocalState := mkLocal {
  compressor : CompressorType; compressor_args : Args;
  selector : IndexSelectorType; selector_args : Args;
  weight_estimator : WeightEstimatorType; weight_estimator_args : Args;
  weight_pruner : WeightPrunerType; weight_pruner_args : Args;
  budget_info : option nat; score_info : option nat;
  use_estimated_weights_in_attn : bool; skip_first_two_layers : bool;
  td_mask_buffer : option (rows (list bool))
}.

Record PyLib := mkPyLib {
  arg_set : bool;
  local_state : option LocalState;
  budget_objects : list HistoryBudgetInfo;
  score_objects : list HistoryAccumulatedScoreInfo;
  rabitq_state : option (RabitQState F);
  rabitq_no_center_state : option (RabitQState F)
}.

Definition initial_lib : PyLib := mkPyLib false None [] [] None None.
Definition set_local (b : bool) (l : option LocalState) (p : PyLib) : PyLib :=
  mkPyLib b l (budget_objects p) (score_objects p) (rabitq_state p) (rabitq_no_center_state p).
Definition set_objects (bo : list HistoryBudgetInfo) (so : list HistoryAccumulatedScoreInfo) (p : PyLib) : PyLib :=
  mkPyLib (arg_set p) (local_state p) bo so (rabitq_state p) (rabitq_no_center_state p).
Definition set_rabitq (r : option (RabitQState F)) (p : PyLib) : PyLib :=
  mkPyLib (arg_set p) (local_state p) (budget_objects p) (score_objects p) r (rabitq_no_center_state p).
Definition set_rabitq_no_center (r : option (RabitQState F)) (p : PyLib) : PyLib :=
  mkPyLib (arg_set p) (local_state p) (budget_objects p) (score_objects p) (rabitq_state p) r.
Definition set_td_buffer (m : rows (list bool)) (l : LocalState) : LocalState :=
  mkLocal (compressor l) (compressor_args l) (selector l) (selector_args l) (weight_estimator l) (weight_estimator_args l)
    (weight_pruner l) (weight_pruner_args l) (budget_info l) (score_info l) (use_estimated_weights_in_attn l) (skip_first_two_layers l) (Some m).

(** * Enabling *)

(** [new] objects for the caller; [local_state] takes them only if its arguments are not set yet.  Reading the channel file
    of Double Sparsity and patching the model are not modelled. *)
Definition enable_sparse_attention (config : gmap string Args) (flags : Args) (enable_budget_info enable_score_info : bool) :
    M PyLib (option nat * option nat) :=
  let section name := match config !! name with Some c => split_type_args c | None => Raise KeyError end in
  '(compressor_type, c_args) ← lift_out (section "compressor"%string);
  '(selector_type, s_args) ← lift_out (section "selector"%string);
  '(estimator_type, e_args) ← lift_out (section "weight_estimator"%string);
  '(pruner_type, p_args) ← lift_out (section "weight_pruner"%string);
  p ← get;
  let bi := if enable_budget_info then Some (length (budget_objects p)) else None in
  let si := if enable_score_info then Some (length (score_objects p)) else None in
  modify (set_objects (budget_objects p ++ if enable_budget_info then [budget_reset] else []) (score_objects p ++ if enable_score_info then [score_reset] else [])) ;;
  let use_estimated := default false (truthy <$> flags !! "use_estimated_weights_in_attn"%string) in
  let skip := default true (truthy <$> flags !! "skip_first_two_layers"%string) in
  c ← lift_out (from_value compressor_members compressor_type);
  s ← lift_out (from_value selector_members selector_type);
  e ← lift_out (from_value estimator_members estimator_type);
  pr ← lift_out (from_value pruner_members pruner_type);
  p ← get;
  (if arg_set p then mret tt
   else
     let td := match local_state p with Some l => td_mask_buffer l | None => None end in
     modify (set_local true (Some (mkLocal c c_args s s_args e e_args pr p_args bi si use_estimated skip td))) ;;
     if bool_decide (s = DS) then
       _ ← lift_out (arg s_args "config_path"); _ ← lift_out (arg s_args "r"); _ ← lift_out (arg s_args "selected_channel"); mret tt
     else mret tt) ;;
  mret (bi, si).

Definition reset_sparse_config : M PyLib unit := modify (fun p => set_local false (local_state p) p).

(** * Prefill *)

(** [repeat_kv]: every head [n] times, contiguously; [x[:, ::n]] are the originals. *)
Definition repeat_kv {A} (n : nat) (x : rows A) : rows A := (fun heads => heads ≫= fun h => replicate n h) <$> x.
Definition every_nth {A} (n : nat) (l : list A) : list A :=
  omap (fun i => if i mod n =? 0 then l !! i else None) (seq 0 (length l)).

(** [mask_cond < (mask_cond + 1).view(...)]: 0 up to the diagonal, the least float above. *)
Definition causal_mask (window_size : nat) : list (list F) :=
  (fun i => (fun j => if j <? i + 1 then f0 else finfo_min) <$> seq 0 window_size) <$> seq 0 window_size.

(** The last [window_size] columns of a row of weights, with the row of the mask added. *)
Definition add_last (window_size : nat) (row m : list F) : list F :=
  let k := length row - window_size in take k row ++ zip_with fadd (drop k row) m.

(** [snap_kv_compression] at a head, after the queries of the window; [pool] is the pooling of torch that is chosen by
    [pooling], a function of the kernel size, the padding and the row.  [window_size] is positive and at most the prompt. *)
Definition snap_scores (head_dim window_size : nat) (query key : list (list F)) : list F :=
  let q := drop (length query - window_size) query in
  let attn_weights := (fun q => (fun k => fdiv (dot q k) (fsqrt (fofZ (Z.of_nat head_dim)))) <$> key) <$> q in
  let attn_weights := zip_with (add_last window_size) attn_weights (causal_mask window_size) in
  let attn_weights := softmax <$> attn_weights in
  (fun j => fsum (column attn_weights j)) <$> seq 0 (length key - window_size).

Definition snap_kv_compression (pool : string -> nat -> nat -> list F -> list F) (head_dim window_size max_capacity_prompt kernel_size : nat)
    (pooling : string) (query key value : list (list F)) : outcome (list (list F) * list (list F)) :=
  _ ← assert_ (length key =? length query);
  if length query <? max_capacity_prompt then Ok (key, value)
  else
    let attn_weights_sum := snap_scores head_dim window_size query key in
    if negb (bool_decide (pooling = "avgpool"%string)) && negb (bool_decide (pooling = "maxpool"%string)) then Raise ValueError
    else
      let attn_cache := pool pooling kernel_size (kernel_size / 2) attn_weights_sum in
      indices ← topk (Z.of_nat max_capacity_prompt - Z.of_nat window_size) attn_cache;
      let past := length key - window_size in
      if forallb (fun i => i <? past) indices then
        Ok (gather [] indices (take past key) ++ drop past key, gather [] indices (take past value) ++ drop past value)
      else Raise RuntimeError.

(** * Selecting in a decode step *)

(** What [mask] holds: nothing, a tensor, or the pair that [tidal_decode_selector] returns. *)
Inductive MaskVar := Unbound | MaskTensor (m : rows (list bool)) | MaskPair (m : rows (list bool)).

(** A function of rows on every row, the first exception raised. *)
Definition map_rows {A B} (f : A -> outcome B) (x : rows A) : outcome (rows B) := mapM (mapM f) x.
Definition zip_rows {A B} (x : rows A) (y : rows B) : rows (A * B) := zip_with zip x y.
Definition ones (x : rows (list F)) : rows (list bool) := map (map (fun row => replicate (length row) true)) x.

(** [tidal_decode_selector(state, ...)] *)
Definition tidal_decode_selector (attn_weights : rows (list F)) (token_budget layer_id : Z) (reselection_layers : list Z) (l : LocalState) :
    outcome (rows (list bool) * LocalState) :=
  if bool_decide (layer_id ∈ reselection_layers) then
    mask ← map_rows (fun w => top_k w token_budget) attn_weights;
    Ok (ones attn_weights, set_td_buffer mask l)
  else
    match td_mask_buffer l with
    | Some mask => Ok (mask, l)
    | None => Raise AssertionError
    end.

(** What a layer has beyond the state: its number, its shape, the channels of Double Sparsity if they were set. *)
Record Layer := mkLayer { layer_id : Z; num_heads : nat; head_dim : nat; sorted_channel : option (list (list nat)) }.

(** The conversion of a configured number to a float. *)
Variable of_float : Q -> F.
(** The CUDA kernel behind [top_p_unnormalized]. *)
Variable top_p_fp32_return_mask : list F -> F -> list bool.

(** [token_budget: Optional[int] = -1] and [sparsity_rate: Optional[float] = -1] *)
Definition budget_args (a : Args) : outcome (Z * Q) :=
  b ← opt_arg as_int a "token_budget"; r ← opt_arg as_num a "sparsity_rate"; Ok (default (-1)%Z b, default (-1)%Q r).

Definition select_quest (y : Layer) (a : Args) (q : rows (list F)) (k : rows (list (list F))) : outcome (rows (list bool)) :=
  _ ← call_kwargs ["chunk_size"%string] ["token_budget"; "sparsity_rate"; "attention_mask"]%string a;
  v ← arg a "chunk_size"; chunk_size ← as_int v;
  '(budget, rate) ← budget_args a;
  map_rows (fun '(q, k) => quest_selector (head_dim y) (Z.to_nat chunk_size) budget rate q k) (zip_rows q k).

Definition select_sparq (y : Layer) (a : Args) (q : rows (list F)) (k : rows (list (list F))) : outcome (rows (list bool)) :=
  _ ← call_kwargs ["r"%string] ["token_budget"; "token_ratio"]%string a;
  v ← arg a "r"; r ← as_int v;
  budget ← opt_arg as_int a "token_budget"; ratio ← opt_arg as_num a "token_ratio";
  map_rows (fun '(q, k) => sparq_selector (head_dim y) r budget ratio q k) (zip_rows q k).

(** The keywords are those left after [config_path] and [selected_channel] are popped. *)
Definition select_ds (y : Layer) (a : Args) (q : rows (list F)) (k : rows (list (list F))) : outcome (rows (list bool)) :=
  _ ← arg a "config_path"; let a := delete "config_path"%string a in
  _ ← arg a "selected_channel"; let a := delete "selected_channel"%string a in
  match sorted_channel y with
  | None => Raise AttributeError
  | Some channels =>
      _ ← call_kwargs ["r"; "quant_bit"]%string ["token_budget"; "sparsity_rate"]%string a;
      v ← arg a "r"; r ← as_int v; v ← arg a "quant_bit"; bits ← as_int v;
      '(budget, rate) ← budget_args a;
      map_rows (fun '(c, (q, k)) => double_sparse_selector (head_dim y) bits (take (Z.to_nat r) c) budget rate q k)
        ((fun qk => zip channels qk) <$> zip_rows q k)
  end.

Definition rabitq_args (a : Args) : outcome (option Z * option F) :=
  _ ← call_kwargs [] ["quantize_interval"; "top_p"]%string a;
  i ← opt_arg as_int a "quantize_interval"; p ← opt_arg as_num a "top_p"; Ok (i, option_map of_float p).

(** The [if] chain over the selectors. *)
Definition index_selector (y : Layer) (l : LocalState) (q : rows (list F)) (k : rows (list (list F))) (attn_weights : rows (list F)) : M PyLib MaskVar :=
  let a := selector_args l in
  match selector l with
  | S_NONE => mret (MaskTensor (ones attn_weights))
  | STREAMING =>
      v ← lift_out (arg a "token_budget"); b ← lift_out (as_int v); v ← lift_out (arg a "num_sinks"); s ← lift_out (as_int v);
      mret (MaskTensor (map (map (fun w => streaming_selector w b s)) attn_weights))
  | QUEST => m ← lift_out (select_quest y a q k); mret (MaskTensor m)
  | ORACLE_TOPK =>
      v ← lift_out (arg a "token_budget"); b ← lift_out (as_int v);
      m ← lift_out (map_rows (fun w => oracle_topk_selector w b) attn_weights); mret (MaskTensor m)
  | TIDAL_DECODE =>
      v ← lift_out (arg a "token_budget"); b ← lift_out (as_int v);
      v ← lift_out (arg a "reselection_layers"); ls ← lift_out (as_list v);
      '(m, l) ← lift_out (tidal_decode_selector attn_weights b (layer_id y) ls l);
      modify (fun p => set_local (arg_set p) (Some l) p) ;;
      mret (MaskPair m)
  | SPARQ => m ← lift_out (select_sparq y a q k); mret (MaskTensor m)
  | DS => m ← lift_out (select_ds y a q k); mret (MaskTensor m)
  | PQCACHE => mret Unbound
  | RABITQ =>
      '(i, p) ← lift_out (rabitq_args a);
      m ← zoom rabitq_state set_rabitq (rabitq_selector (num_heads y) (head_dim y) q k (layer_id y) i p); mret (MaskTensor m)
  | RABITQ_NO_CENTER =>
      '(i, p) ← lift_out (rabitq_args a);
      m ← zoom rabitq_no_center_state set_rabitq_no_center (rabitq_no_center_selector (num_heads y) (head_dim y) q k (layer_id y) i p); mret (MaskTensor m)
  end.

(** * The rest of a decode step *)

(** [torch.matmul(query, keys.transpose(2, 3)) / math.sqrt(head_dim)] *)
Definition attention_weights (y : Layer) (q : rows (list F)) (k : rows (list (list F))) : rows (list F) :=
  zip_with (zip_with (fun q k => (fun key => fdiv (dot q key) (sqrt_dim (head_dim y))) <$> k)) q k.

(** [w[~mask] = torch.finfo(dtype).min] *)
Definition fill_masked (w : list F) (mask : list bool) : list F := zip_with (fun w (b : bool) => if b then w else finfo_min) w mask.
Definition fill_rows (w : rows (list F)) (mask : MaskVar) : outcome (rows (list F)) :=
  match mask with MaskTensor m => Ok (zip_with (zip_with fill_masked) w m) | MaskPair _ => Raise TypeError | Unbound => Raise NameError end.

(** The estimator; [None] when [estimated_weights] is not assigned. *)
Definition estimate_weights (y : Layer) (l : LocalState) (q : rows (list F)) (k : rows (list (list F))) (attn_weights : rows (list F)) (mask : MaskVar) :
    outcome (option (rows (list F))) :=
  let a := weight_estimator_args l in
  match weight_estimator l with
  | E_NONE => Ok (Some attn_weights)
  | MIN_MAX_QUANT =>
      v ← arg a "quant_bit"; bits ← as_int v;
      w ← fill_rows (attention_weights y q (map (map (map (min_max_per_token_quant_kv bits))) k)) mask; Ok (Some w)
  | MAX_QUANT =>
      v ← arg a "quant_bit"; bits ← as_int v; smooth ← arg a "smooth_k";
      w ← fill_rows (attention_weights y q (map (map (max_per_token_quant_kv (head_dim y) bits (truthy smooth))) k)) mask; Ok (Some w)
  | E_THRESHOLD | H_THRESHOLD => Ok None
  end.

Definition bound {A} (x : option A) : outcome A := match x with Some x => Ok x | None => Raise NameError end.

(** The pruner, and [mask & pruned_mask]. *)
Definition prune (l : LocalState) (estimated_weights : option (rows (list F))) (mask : MaskVar) : outcome MaskVar :=
  let a := weight_pruner_args l in
  let both (f : list F -> F -> list bool) :=
    w ← bound estimated_weights; v ← arg a "threshold"; t ← as_num v;
    let pruned := map (map (fun w => f w (of_float t))) w in
    match mask with
    | MaskTensor m => Ok (MaskTensor (zip_with (zip_with (zip_with andb)) m pruned))
    | MaskPair _ => Raise TypeError
    | Unbound => Raise NameError
    end in
  match weight_pruner l with
  | P_NONE => Ok mask
  | P_THRESHOLD => both elementwise_threshold
  | TOP_P => both (top_p_unnormalized top_p_fp32_return_mask)
  end.

Definition tensor_of (mask : MaskVar) : outcome (rows (list bool)) :=
  match mask with MaskTensor m => Ok m | MaskPair _ => Raise TypeError | Unbound => Raise NameError end.

(** [if self.state.budget_info is not None: self.state.budget_info.update(self.layer_id, mask)] *)
Definition record_budget (y : Layer) (l : LocalState) (mask : MaskVar) : M PyLib unit :=
  match budget_info l with
  | None => mret tt
  | Some i =>
      p ← get;
      m ← lift_out (tensor_of mask);
      h ← deref (budget_objects p !! i);
      h ← lift_out (budget_update (layer_id y) m h);
      modify (set_objects (<[i := h]> (budget_objects p)) (score_objects p))
  end.
Definition record_score (y : Layer) (l : LocalState) (attn_weights : rows (list F)) (mask : MaskVar) : M PyLib unit :=
  match score_info l with
  | None => mret tt
  | Some i =>
      p ← get;
      m ← lift_out (tensor_of mask);
      h ← deref (score_objects p !! i);
      h ← lift_out (score_update (layer_id y) attn_weights m h);
      modify (set_objects (budget_objects p) (<[i := h]> (score_objects p)))
  end.

Definition start_layer (l : LocalState) : Z := if skip_first_two_layers l then 2%Z else 0%Z.

(** What a layer that selects does to the weights. *)
Definition sparse_weights (y : Layer) (l : LocalState) (q : rows (list F)) (k : rows (list (list F))) (attn_weights : rows (list F)) : M PyLib (rows (list F)) :=
  mask ← index_selector y l q k attn_weights;
  estimated ← lift_out (estimate_weights y l q k attn_weights mask);
  mask ← lift_out (prune l estimated mask);
  record_budget y l mask ;;
  record_score y l attn_weights mask ;;
  w ← lift_out (if use_estimated_weights_in_attn l then bound estimated else Ok attn_weights);
  lift_out (fill_rows w mask).

(** [torch.matmul(attn_probs, value_states)] at a row. *)
Definition weighted_values (y : Layer) (probs : list F) (v : list (list F)) : list F := row_times (head_dim y) probs v.

(** A call with one query token: the probabilities and the output before the projection. *)
Definition decode_attention (y : Layer) (attention_mask : option unit) (q : rows (list F)) (k v : rows (list (list F))) :
    M PyLib (rows (list F) * rows (list F)) :=
  assertM (match attention_mask with None => true | Some _ => false end) ;;
  let attn_weights := attention_weights y q k in
  p ← get;
  l ← deref (local_state p);
  attn_weights ← (if (start_layer l <=? layer_id y)%Z then sparse_weights y l q k attn_weights else mret attn_weights);
  let attn_probs := map (map softmax) attn_weights in
  mret (attn_probs, zip_with (zip_with (weighted_values y)) attn_probs v).

(** A call with several query tokens: the keys and values that go to the cache.  [random] is the rotation that training
    draws; heads are those of the keys before [repeat_kv]. *)
Definition snap_args (a : Args) : outcome (nat * nat * nat * string) :=
  _ ← call_kwargs [] ["window_size"; "max_capacity_prompt"; "kernel_size"; "pooling"]%string a;
  w ← opt_arg as_int a "window_size"; c ← opt_arg as_int a "max_capacity_prompt"; s ← opt_arg as_int a "kernel_size";
  p ← opt_arg (fun v => match v with CStr s => Ok s | _ => Raise ValueError end) a "pooling";
  Ok (Z.to_nat (default 64%Z w), Z.to_nat (default 320%Z c), Z.to_nat (default 5%Z s), default "avgpool"%string p).

Definition compress (pool : string -> nat -> nat -> list F -> list F) (y : Layer) (groups : nat) (l : LocalState) (q k v : rows (list (list F))) :
    outcome (rows (list (list F)) * rows (list (list F))) :=
  '(w, c, s, p) ← snap_args (compressor_args l);
  kv ← map_rows (fun '(q, (k, v)) => snap_kv_compression pool (head_dim y) w c s p q k v) (zip_rows q (zip_rows (repeat_kv groups k) (repeat_kv groups v)));
  Ok (map (fun r => every_nth groups (fst <$> r)) kv, map (fun r => every_nth groups (snd <$> r)) kv).

Definition prefill_attention (pool : string -> nat -> nat -> list F -> list F) (random : list (list F)) (y : Layer) (groups : nat)
    (q k v : rows (list (list F))) : M PyLib (rows (list (list F)) * rows (list (list F))) :=
  p ← get;
  l ← deref (local_state p);
  cached ← lift_out (if bool_decide (compressor l = SNAP_KV) && (start_layer l <=? layer_id y)%Z then compress pool y groups l q k v else Ok (k, v));
  let interval := opt_arg as_int (selector_args l) "quantize_interval" in
  (match selector l with
   | RABITQ => i ← lift_out interval; zoom rabitq_state set_rabitq (prefill_rabitq (num_heads y) (head_dim y) i random q (repeat_kv groups k) (layer_id y))
   | RABITQ_NO_CENTER =>
       i ← lift_out interval; zoom rabitq_no_center_state set_rabitq_no_center (prefill_no_center (num_heads y) (head_dim y) i random q (repeat_kv groups k) (layer_id y))
   | _ => mret tt
   end) ;;
  mret cached.
End attention.
#[global] Arguments PyLib F : clear implicits.
#[global] Arguments HistoryAccumulatedScoreInfo F : clear implicits.
