(* ===== verification/PyAttentionFacts.v ===== *)
(** What the attention of the PyTorch library does in a decode step: the dense configuration, the configurations that
    cannot run, what the statistics record, and the compression of prompts. *)
From Stdlib Require Import ZArith QArith Qcanon Ascii String Lia Ring.
From stdpp Require Import base gmap sets list strings.
From S2P Require Import Prelude RabitqOps RabitqQuant PyTensor PyRabitq PySelectors PyAttention.
Open Scope nat_scope.

(** * Budgets *)

Lemma put_layer_new {V} key (v : V) d : key ∉ d.*1 -> put_layer key v d = d ++ [(key, v)].
Proof.
  induction d as [|[k x] d IH]; intros Hk; [done|]. cbn in Hk |- *. apply not_elem_of_cons in Hk as [Hne Hk].
  destruct (Z.eqb_spec k key); [congruence|]. by rewrite IH.
Qed.

Lemma set_last_app {V} key (v : V) l d : set_last key v (l ++ [d]) = Ok (l ++ [put_layer key v d]).
Proof.
  unfold set_last. destruct (l ++ [d]) eqn:E; [by destruct l|]. rewrite <-E. f_equal. rewrite length_app. cbn [length].
  replace (pred (length l + 1)) with (length l + 0) by lia. by rewrite alter_app_r.
Qed.

(** What a call records: the number of selected tokens of every head, the batch rows one after the other. *)
Definition head_budgets (mask : list (list (list bool))) : list Z := concat (map (map count_true) mask).

(** A pass over consecutive layers, and passes over the same layers. *)
Definition budget_pass (start : Z) (masks : list (list (list (list bool)))) (h : HistoryBudgetInfo) : outcome HistoryBudgetInfo :=
  foldl (fun h '(layer, m) => h ← h; budget_update layer m h) (Ok h) (zip (seqZ start (Z.of_nat (length masks))) masks).
Definition budget_passes (start : Z) (passes : list (list (list (list (list bool))))) (h : HistoryBudgetInfo) : outcome HistoryBudgetInfo :=
  foldl (fun h masks => h ← h; budget_pass start masks h) (Ok h) passes.

(** The dictionary of a query. *)
Definition pass_budgets (start : Z) (masks : list (list (list (list bool)))) : list (Z * list Z) :=
  zip (seqZ start (Z.of_nat (length masks))) (map head_budgets masks).

Lemma pass_continues l : forall masks start d, Forall (fun p => (p.1 < start)%Z) d ->
  foldl (fun h '(layer, m) => h ← h; budget_update layer m h) (Ok (mkBudgetInfo (l ++ [d]) (start - 1))) (zip (seqZ start (Z.of_nat (length masks))) masks) =
  Ok (mkBudgetInfo (l ++ [d ++ pass_budgets start masks]) (start - 1 + Z.of_nat (length masks))).
Proof.
  induction masks as [|m masks IH]; intros start d Hd.
  - cbn. unfold pass_budgets. cbn. by rewrite app_nil_r, Z.add_0_r.
  - unfold pass_budgets. cbn [length map]. rewrite seqZ_cons by lia. cbn [zip zip_with foldl].
    replace (Z.pred (Z.of_nat (S (length masks)))) with (Z.of_nat (length masks)) by lia.
    cbn [mbind outcome_bind]. unfold budget_update at 2. cbn [budget_last_layer_id budget_num]. destruct (Z.eqb_spec start (start - 1 + 1)); [|lia].
    rewrite set_last_app. cbn [mbind outcome_bind]. rewrite put_layer_new.
    2:{ intros (p & -> & Hp)%list_elem_of_fmap. rewrite Forall_forall in Hd. specialize (Hd p Hp). lia. }
    replace start with (Z.succ start - 1)%Z at 2 by lia. rewrite IH.
    + unfold pass_budgets, head_budgets. rewrite <-app_assoc. f_equal. f_equal. lia.
    + apply Forall_app. split; [eapply Forall_impl; [exact Hd|]; intros; cbn in *; lia|]. apply Forall_singleton. cbn. lia.
Qed.

Lemma pass_starts start masks h : masks <> [] -> budget_last_layer_id h <> (start - 1)%Z ->
  budget_pass start masks h = Ok (mkBudgetInfo (budget_num h ++ [pass_budgets start masks]) (start - 1 + Z.of_nat (length masks))).
Proof.
  intros Hne Hlast. destruct masks as [|m masks]; [done|]. unfold budget_pass. cbn [length]. rewrite seqZ_cons by lia. cbn [zip zip_with foldl].
  replace (Z.pred (Z.of_nat (S (length masks)))) with (Z.of_nat (length masks)) by lia. cbn [mbind outcome_bind].
  unfold budget_update at 2. destruct (Z.eqb_spec start (budget_last_layer_id h + 1)); [lia|]. rewrite set_last_app. cbn [mbind outcome_bind put_layer].
  replace start with (Z.succ start - 1)%Z at 2 by lia. rewrite pass_continues by (apply Forall_singleton; cbn; lia).
  unfold pass_budgets at 2. cbn [map length]. rewrite seqZ_cons by lia. cbn [zip zip_with].
  replace (Z.pred (Z.of_nat (S (length masks)))) with (Z.of_nat (length masks)) by lia. f_equal. f_equal. lia.
Qed.

(** The budget statistics have one entry per query: however many passes over the same consecutive layers follow each
    other, each adds one dictionary with the layers in order and the number of selected tokens of every head. *)
Theorem budget_groups start passes h :
  Forall (fun masks => masks <> []) passes -> budget_last_layer_id h <> (start - 1)%Z ->
  exists last, budget_passes start passes h = Ok (mkBudgetInfo (budget_num h ++ map (pass_budgets start) passes) last).
Proof.
  intros Hne. revert h. induction passes as [|masks passes IH]; intros h Hlast.
  - exists (budget_last_layer_id h). cbn. rewrite app_nil_r. by destruct h.
  - apply Forall_cons_1 in Hne as [Hm Hne]. unfold budget_passes. cbn [foldl mbind outcome_bind]. rewrite pass_starts by done.
    set (h' := mkBudgetInfo _ _). destruct (IH Hne h') as [last Hl].
    { unfold h'. cbn. destruct masks; [done|]. cbn [length]. lia. }
    exists last. unfold budget_passes in Hl. rewrite Hl. unfold h'. cbn [budget_num map]. by rewrite <-app_assoc.
Qed.

Lemma budget_groups_witness :
  exists last, budget_passes 2 [[[[[true; false]; [true; true]]]; [[[false; false]; [true; false]]]]; [[[[true; true]; [true; true]]]; [[[true; false]; [true; true]]]]] budget_reset =
    Ok (mkBudgetInfo [[(2, [1; 2]); (3, [0; 1])]; [(2, [2; 2]); (3, [1; 2])]]%Z last).
Proof.
  exact (budget_groups 2 [[[[[true; false]; [true; true]]]; [[[false; false]; [true; false]]]]; [[[[true; true]; [true; true]]]; [[[true; false]; [true; true]]]]]
    budget_reset ltac:(repeat constructor; discriminate) ltac:(discriminate)).
Defined.

(** * Decode steps *)

Section decode.
Context {F : Type} `{Scalar F} `{TorchOps F}.
Variables (of_float : Q -> F) (top_p_fp32_return_mask : list F -> F -> list bool).

Abbreviation rows A := (list (list A)).
Abbreviation decode := (decode_attention of_float top_p_fp32_return_mask).

(** Selecting does not touch the statistics. *)
Definition same_objects (p p' : PyLib F) : Prop := budget_objects p' = budget_objects p /\ score_objects p' = score_objects p.

Ltac lift_step :=
  lazymatch goal with
  | |- wp (mbind _ _) _ _ _ => apply wp_bind
  | |- wp (lift_out _) _ _ _ => apply wp_lift_any; [intros ? ?|done]
  | |- wp (mret _) _ _ _ => apply wp_ret
  | |- wp (modify _) _ _ _ => apply wp_modify
  | |- wp (zoom _ _ _) _ _ _ => apply wp_zoom, wp_any; [intros ? ?|done]
  | |- wp (match ?x with _ => _ end) _ _ _ => destruct x
  end; cbn beta.
Ltac lift_steps := repeat lift_step.

Lemma wp_index_selector y l q k w p : wp (index_selector of_float y l q k w) (fun _ p' => same_objects p p') any_exc p.
Proof.
  unfold index_selector. destruct (selector l); lift_steps; done.
Qed.

(** Recording with a mask: the mask is a tensor, and the object is updated with it. *)
Lemma wp_record_budget y l mask (p : PyLib F) :
  wp (record_budget y l mask) (fun _ p' => score_objects p' = score_objects p /\
    match budget_info l with
    | None => p' = p
    | Some i => exists m h h', mask = MaskTensor m /\ budget_objects p !! i = Some h /\ budget_update (layer_id y) m h = Ok h' /\ budget_objects p' !! i = Some h'
    end) any_exc p.
Proof.
  unfold record_budget. destruct (budget_info l) as [i|]; [|by apply wp_ret]. apply wp_bind, wp_get.
  apply wp_bind, wp_lift_any; [|done]. intros m Hm. destruct mask as [|m'|m']; [done| |done]. injection Hm as ->.
  destruct (budget_objects p !! i) as [h|] eqn:Hi; cbn [deref]; [|by apply wp_bind, wp_raise].
  apply wp_bind, wp_ret, wp_bind, wp_lift_any; [|done]. intros h' Hh'. apply wp_modify. cbn. split; [done|].
  exists m, h, h'. split_and!; try done. apply list_lookup_insert_eq. by eapply lookup_lt_Some.
Qed.

Lemma wp_record_score y l w mask (p : PyLib F) :
  wp (record_score y l w mask) (fun _ p' => budget_objects p' = budget_objects p /\
    match score_info l with
    | None => p' = p
    | Some i => exists m h h', mask = MaskTensor m /\ score_objects p !! i = Some h /\ score_update (layer_id y) w m h = Ok h' /\ score_objects p' !! i = Some h'
    end) any_exc p.
Proof.
  unfold record_score. destruct (score_info l) as [i|]; [|by apply wp_ret]. apply wp_bind, wp_get.
  apply wp_bind, wp_lift_any; [|done]. intros m Hm. destruct mask as [|m'|m']; [done| |done]. injection Hm as ->.
  destruct (score_objects p !! i) as [h|] eqn:Hi; cbn [deref]; [|by apply wp_bind, wp_raise].
  apply wp_bind, wp_ret, wp_bind, wp_lift_any; [|done]. intros h' Hh'. apply wp_modify. cbn. split; [done|].
  exists m, h, h'. split_and!; try done. apply list_lookup_insert_eq. by eapply lookup_lt_Some.
Qed.

(** What a sparse layer did, when it did not raise. *)
Lemma wp_sparse_weights y l q k w p :
  wp (sparse_weights of_float top_p_fp32_return_mask y l q k w)
    (fun r p' => exists m estimated,
      r = zip_with (zip_with fill_masked) (if use_estimated_weights_in_attn l then estimated else w) m /\
      (forall i, budget_info l = Some i -> exists h h', budget_objects p !! i = Some h /\ budget_update (layer_id y) m h = Ok h' /\ budget_objects p' !! i = Some h') /\
      (forall i, score_info l = Some i -> exists h h', score_objects p !! i = Some h /\ score_update (layer_id y) w m h = Ok h' /\ score_objects p' !! i = Some h'))
    any_exc p.
Proof.
  unfold sparse_weights. apply wp_bind. eapply wp_mono; [apply wp_index_selector| |done]. intros mask p1 [Hb Hs].
  apply wp_bind, wp_lift_any; [|done]. intros est _. apply wp_bind, wp_lift_any; [|done]. intros mask' _.
  apply wp_bind. eapply wp_mono; [apply wp_record_budget| |done]. intros [] p2 [Hs2 Hb2].
  apply wp_bind. eapply wp_mono; [apply wp_record_score| |done]. intros [] p3 [Hb3 Hs3].
  apply wp_bind, wp_lift_any; [|done]. intros w' Hw'. apply wp_lift_any; [|done]. intros r Hr.
  destruct mask' as [|m|m]; [done| |done]. injection Hr as <-. exists m, w'. split; [|split].
  - destruct (use_estimated_weights_in_attn l); [done|]. by injection Hw' as ->.
  - intros i Hi. rewrite Hi in Hb2. destruct Hb2 as (m' & h & h' & [= ->] & Hh & Hu & Hp). exists h, h'. rewrite <-Hb, Hb3. done.
  - intros i Hi. rewrite Hi in Hs3. destruct Hs3 as (m' & h & h' & [= ->] & Hh & Hu & Hp). exists h, h'. rewrite <-Hs, <-Hs2. done.
Qed.

(** The result of a decode step of a layer that selects. *)
Definition decode_result y (l : LocalState) (q : rows (list F)) (k v : rows (list (list F))) (p : PyLib F) (r : rows (list F) * rows (list F)) (p' : PyLib F) : Prop :=
  exists m w, r.1 = map (map softmax) (zip_with (zip_with fill_masked) w m) /\
    r.2 = zip_with (zip_with (weighted_values y)) r.1 v /\
    (use_estimated_weights_in_attn l = false -> w = attention_weights y q k) /\
    (forall i, budget_info l = Some i -> exists h h', budget_objects p !! i = Some h /\ budget_update (layer_id y) m h = Ok h' /\ budget_objects p' !! i = Some h') /\
    (forall i, score_info l = Some i -> exists h h', score_objects p !! i = Some h /\
      score_update (layer_id y) (attention_weights y q k) m h = Ok h' /\ score_objects p' !! i = Some h').

Lemma wp_decode_result y (l : LocalState) q k v p : local_state p = Some l -> (start_layer l <= layer_id y)%Z ->
  wp (decode y None q k v) (decode_result y l q k v p) any_exc p.
Proof.
  intros Hl Hlayer. unfold decode_attention.
  apply wp_bind, wp_assertM; [done|]. apply wp_bind, wp_get. rewrite Hl. apply wp_bind, wp_deref. rewrite (proj2 (Z.leb_le _ _) Hlayer).
  apply wp_bind. eapply wp_mono; [apply wp_sparse_weights| |done]. intros r p1 (m & est & -> & Hb & Hs). apply wp_ret.
  exists m, (if use_estimated_weights_in_attn l then est else attention_weights y q k). split_and!; try done. by intros ->.
Qed.

(** C31: A decode step of a layer that selects, when it returns: there is one mask such that every position outside it
    has the least float as its weight and the others the layer's weight (its own or the estimated one), the
    probabilities are the softmax of these, the output their product with the values, and the statistics record exactly
    this mask. *)
Theorem decode_masks_exact y (l : LocalState) q k v p probs out p' :
  local_state p = Some l -> (start_layer l <= layer_id y)%Z ->
  decode y None q k v p = (Ok (probs, out), p') ->
  exists m w, probs = map (map softmax) (zip_with (zip_with fill_masked) w m) /\
    out = zip_with (zip_with (weighted_values y)) probs v /\
    (use_estimated_weights_in_attn l = false -> w = attention_weights y q k) /\
    (forall i, budget_info l = Some i -> exists h h', budget_objects p !! i = Some h /\ budget_update (layer_id y) m h = Ok h' /\ budget_objects p' !! i = Some h') /\
    (forall i, score_info l = Some i -> exists h h', score_objects p !! i = Some h /\
      score_update (layer_id y) (attention_weights y q k) m h = Ok h' /\ score_objects p' !! i = Some h').
Proof. intros Hl Hlayer Hrun. exact (wp_run_ok _ _ _ _ _ _ (wp_decode_result y l q k v p Hl Hlayer) Hrun). Qed.

Lemma prune_tensor l est mask m : prune of_float top_p_fp32_return_mask l est mask = Ok (MaskTensor m) ->
  (exists m', mask = MaskTensor m') /\ (weight_pruner l <> P_NONE -> est <> None).
Proof.
  unfold prune. destruct (weight_pruner l); [intros [= ->]; split; [by eexists|done]|..]; intros Hm;
    apply bind_Ok in Hm as (w & Hw & Hm); apply bind_Ok in Hm as (v & Hv & Hm); apply bind_Ok in Hm as (t & _ & Hm); (split; [destruct mask; [done|by eexists|done]|]); intros _ ->; discriminate.
Qed.

(** C37: Three settings that the configuration accepts cannot run a decode step of a layer that selects: [tidal_decode],
    whose selector returns a pair where a mask is used, [pqcache], which no branch handles, and the estimators
    [threshold] and [h_threshold] as soon as a pruner or the output reads the estimate they do not make. *)
Theorem accepted_settings_raise y (l : LocalState) q k v p :
  local_state p = Some l -> (start_layer l <= layer_id y)%Z ->
  selector l = TIDAL_DECODE \/ selector l = PQCACHE \/
    ((weight_estimator l = E_THRESHOLD \/ weight_estimator l = H_THRESHOLD) /\ (weight_pruner l <> P_NONE \/ use_estimated_weights_in_attn l = true)) ->
  exists e p', decode y None q k v p = (Raise e, p').
Proof.
  intros Hl Hlayer Hcase. assert (wp (decode y None q k v) (fun _ _ => False) any_exc p) as Hwp.
  2:{ unfold wp in Hwp. destruct (decode y None q k v p) as [[a|e] p']; [done|by exists e, p']. }
  unfold decode_attention. apply wp_bind, wp_assertM; [done|]. apply wp_bind, wp_get. rewrite Hl. apply wp_bind, wp_deref.
  rewrite (proj2 (Z.leb_le _ _) Hlayer). apply wp_bind. eapply (wp_mono _ (fun _ _ => False)); [|done|done]. unfold sparse_weights. apply wp_bind.
  eapply (wp_mono _ (fun mask _ => (exists m, mask = MaskTensor m) -> (weight_estimator l = E_THRESHOLD \/ weight_estimator l = H_THRESHOLD) /\
    (weight_pruner l <> P_NONE \/ use_estimated_weights_in_attn l = true))); [| |done].
  - destruct Hcase as [Hs|[Hs|Hs]]; [| |apply (wp_any _ _ any_exc); [intros; exact Hs|done]]; unfold index_selector; rewrite Hs; lift_steps; intros [? [=]].
  - intros mask p1 Hmask. apply wp_bind, wp_lift_any; [|done]. intros est Hest. apply wp_bind, wp_lift_any; [|done]. intros mask' Hprune.
    apply wp_bind. eapply (wp_mono _ (fun _ _ => True)); [by apply (wp_any _ _ any_exc)| |done]. intros _ p2 _.
    apply wp_bind. eapply (wp_mono _ (fun _ _ => True)); [by apply (wp_any _ _ any_exc)| |done]. intros _ p3 _.
    apply wp_bind, wp_lift_any; [|done]. intros w Hw. apply wp_lift_any; [|done]. intros r Hr. destruct mask' as [|m|m]; [done| |done].
    destruct (prune_tensor _ _ _ _ Hprune) as [Hm Hne].
    destruct (Hmask Hm) as [He Hp]. assert (est = None) as -> by (unfold estimate_weights in Hest; destruct He as [He|He]; rewrite He in Hest; by injection Hest as <-).
    destruct Hp as [Hp|Hp]; [by apply Hne|by rewrite Hp in Hw].
Qed.

(** ** The dense configuration *)

Lemma fill_ones (w : rows (list F)) : zip_with (zip_with fill_masked) w (ones w) = w.
Proof.
  unfold ones. induction w as [|heads w IH]; [done|]. cbn [map zip_with]. f_equal; [|done].
  induction heads as [|row heads IHh]; [done|]. cbn [map zip_with]. f_equal; [|done].
  induction row as [|x row IHr]; [done|]. cbn. f_equal. done.
Qed.

Lemma set_last_ok {V} key (x : V) l : l <> [] -> exists l', set_last key x l = Ok l'.
Proof. destruct l; [done|by eexists]. Qed.

Lemma scores_nonempty (w : rows (list F)) : concat w <> [] -> concat (zip_with (zip_with masked_sum) w (ones w)) <> [].
Proof.
  unfold ones. induction w as [|heads w IH]; [done|]. cbn [concat map zip_with]. destruct heads as [|row heads]; [exact IH|done].
Qed.

(** Statistics objects that exist and are not in the middle of an empty record. *)
Definition stats_ready (y : Layer) (l : LocalState) (p : PyLib F) : Prop :=
  (forall i, budget_info l = Some i -> exists h, budget_objects p !! i = Some h /\ (budget_num h = [] -> budget_last_layer_id h <> layer_id y - 1)%Z) /\
  (forall i, score_info l = Some i -> exists h, score_objects p !! i = Some h /\
    (score_sum h = [] \/ min_sum h = [] -> score_last_layer_id h <> layer_id y - 1)%Z).

Lemma budget_update_ok layer m h : (budget_num h = [] -> budget_last_layer_id h <> layer - 1)%Z -> exists h', budget_update layer m h = Ok h'.
Proof.
  intros Hh. unfold budget_update.
  destruct (set_last_ok layer (concat (map (map count_true) m)) (if (layer =? budget_last_layer_id h + 1)%Z then budget_num h else budget_num h ++ [[]])) as [l' Hl].
  - destruct (Z.eqb_spec layer (budget_last_layer_id h + 1)); [intros E; specialize (Hh E); lia|by destruct (budget_num h)].
  - rewrite Hl. by eexists.
Qed.

Lemma score_update_ok layer (w : rows (list F)) h : concat w <> [] -> (score_sum h = [] \/ min_sum h = [] -> score_last_layer_id h <> layer - 1)%Z ->
  exists h', score_update layer w (ones w) h = Ok h'.
Proof.
  intros Hw Hh. unfold score_update. pose proof (scores_nonempty w Hw) as Hne. destruct (Z.eqb_spec layer (score_last_layer_id h + 1)) as [E|E]; cbn [negb].
  - destruct (set_last_ok layer (concat (zip_with (zip_with masked_sum) w (ones w))) (score_sum h)) as [l' Hl]; [intros E'; specialize (Hh (or_introl E')); lia|].
    rewrite Hl. cbn [mbind outcome_bind]. destruct (concat (zip_with (zip_with masked_sum) w (ones w))) as [|x xs]; [done|]. cbn [mbind outcome_bind].
    destruct (set_last_ok layer (fminimum x xs) (min_sum h)) as [l'' Hl'']; [intros E'; specialize (Hh (or_intror E')); lia|]. rewrite Hl''. by eexists.
  - rewrite set_last_app. cbn [mbind outcome_bind]. destruct (concat (zip_with (zip_with masked_sum) w (ones w))) as [|x xs]; [done|]. cbn [mbind outcome_bind].
    rewrite set_last_app. by eexists.
Qed.

(** Without selector, estimator and pruner a decode step is full attention: at every layer the probabilities are the
    softmax of the scaled products and the output their product with the values, whatever is recorded on the way. *)
Theorem dense_is_full_attention y (l : LocalState) q k v p :
  local_state p = Some l -> selector l = S_NONE -> weight_estimator l = E_NONE -> weight_pruner l = P_NONE ->
  concat (attention_weights y q k) <> [] -> stats_ready y l p ->
  let probs := map (map softmax) (attention_weights y q k) in
  exists p', decode y None q k v p = (Ok (probs, zip_with (zip_with (weighted_values y)) probs v), p').
Proof.
  intros Hl Hs He Hp Hw [Hb Hsc] probs.
  assert (wp (decode y None q k v) (fun r _ => r = (probs, zip_with (zip_with (weighted_values y)) probs v)) noexc p) as Hwp.
  2:{ destruct (wp_noexc_run _ _ _ Hwp) as (r & p' & Hr & ->). by exists p'. }
  unfold decode_attention. apply wp_bind, wp_assertM; [done|]. apply wp_bind, wp_get. rewrite Hl. apply wp_bind, wp_deref. apply wp_bind.
  eapply (wp_mono _ (fun r _ => r = attention_weights y q k)); [|intros r p' ->; by apply wp_ret|done].
  destruct (start_layer l <=? layer_id y)%Z; [|by apply wp_ret]. set (w := attention_weights y q k) in *.
  unfold sparse_weights, index_selector. rewrite Hs. apply wp_bind, wp_ret. unfold estimate_weights. rewrite He. 
  apply wp_bind, (wp_lift _ (Some w)); [done|]. unfold prune. rewrite Hp. apply wp_bind, (wp_lift _ (MaskTensor (ones w))); [done|]. apply wp_bind. eapply (wp_mono _ (fun _ p' => score_objects p' = score_objects p)); [| |done].
  { unfold record_budget. destruct (budget_info l) as [i|]; [|by apply wp_ret]. destruct (Hb i eq_refl) as (h & Hh & Hok).
    destruct (budget_update_ok (layer_id y) (ones w) h Hok) as [h' Hh']. apply wp_bind, wp_get, wp_bind, (wp_lift _ (ones w)); [done|].
    rewrite Hh. apply wp_bind, wp_deref, wp_bind, (wp_lift _ h'); [exact Hh'|by apply wp_modify]. }
  intros _ p1 Hp1. apply wp_bind. eapply (wp_mono _ (fun _ _ => True)); [| |done].
  { unfold record_score. destruct (score_info l) as [i|]; [|by apply wp_ret]. destruct (Hsc i eq_refl) as (h & Hh & Hok).
    destruct (score_update_ok (layer_id y) w h Hw Hok) as [h' Hh']. apply wp_bind, wp_get, wp_bind, (wp_lift _ (ones w)); [done|].
    rewrite Hp1, Hh. apply wp_bind, wp_deref, wp_bind, (wp_lift _ h'); [exact Hh'|by apply wp_modify]. }
  intros _ p2 _. apply wp_bind, (wp_lift _ w); [by destruct (use_estimated_weights_in_attn l)|]. apply (wp_lift _ w); [cbn; by rewrite fill_ones|done].
Qed.
End decode.

(** * Compressing a prompt *)

Section snap.
Context {F : Type} `{TorchLaws F}.

Lemma gather_take_prefix {A} (d : A) idx l n : Forall (fun i => i < n) idx -> gather d idx (take n l) = gather d idx l.
Proof.
  intros Hidx. unfold gather. apply list_fmap_ext. intros j i Hi. rewrite Forall_lookup in Hidx. specialize (Hidx j i Hi).
  by rewrite !nth_lookup, lookup_take_lt.
Qed.

(** SnapKV keeps a prompt shorter than the capacity as it is; from a longer one it keeps exactly [max_capacity_prompt]
    tokens: the window at the end, in order, and before it distinct earlier tokens, the same for keys and values, none of
    which has a smaller pooled weight than an earlier token it drops.  The pooling must keep the length of a row, as
    torch's does for odd kernels. *)
Theorem snap_kv_exact (pool : string -> nat -> nat -> list F -> list F) D window capacity kernel pooling (query key value : list (list F)) :
  length key = length query -> length value = length query -> window <= capacity ->
  pooling = "avgpool"%string \/ pooling = "maxpool"%string -> (forall l, length (pool pooling kernel (kernel / 2) l) = length l) ->
  let past := length key - window in
  let pooled := pool pooling kernel (kernel / 2) (snap_scores D window query key) in
  (length query < capacity -> snap_kv_compression pool D window capacity kernel pooling query key value = Ok (key, value)) /\
  (capacity <= length query -> exists idx,
    snap_kv_compression pool D window capacity kernel pooling query key value = Ok (gather [] idx key ++ drop past key, gather [] idx value ++ drop past value) /\
    NoDup idx /\ length idx + window = capacity /\ Forall (fun i => i < past) idx /\
    forall i j, i ∈ idx -> j < past -> j ∉ idx -> fle (nth j pooled f0) (nth i pooled f0) = true).
Proof.
  intros Hk Hv Hwc Hpool Hlen past pooled. unfold snap_kv_compression. rewrite Hk, Nat.eqb_refl. cbn [assert_ mbind outcome_bind].
  split; intros Hq; [by rewrite (proj2 (Nat.ltb_lt _ _) Hq)|]. rewrite (proj2 (Nat.ltb_ge _ _) Hq).
  assert (negb (bool_decide (pooling = "avgpool"%string)) && negb (bool_decide (pooling = "maxpool"%string)) = false) as ->.
  { destruct Hpool as [E|E]; rewrite E; done. }
  assert (length pooled = past) as Hpl by (unfold pooled; rewrite Hlen; unfold snap_scores; rewrite length_fmap, length_seq; done).
  fold pooled. unfold topk. rewrite Hpl. rewrite <-Nat2Z.inj_sub by done.
  destruct (Z.leb_spec 0 (Z.of_nat (capacity - window))); [|lia]. destruct (Z.leb_spec (Z.of_nat (capacity - window)) (Z.of_nat past)); [|unfold past in *; lia].
  cbn [andb mbind outcome_bind]. rewrite Nat2Z.id. assert (capacity - window <= length pooled) as Hc by (unfold past in *; lia). set (idx := topk_indices (capacity - window) pooled).
  assert (Forall (fun i => i < past) idx) as Hidx by (apply Forall_forall; intros i Hi; rewrite <-Hpl; by apply (topk_range (capacity - window))).
  replace (length query - window) with past by (unfold past; lia).
  assert (forallb (fun i => i <? past) idx = true) as ->.
  { apply forallb_forall. intros i Hi%list_elem_of_In. apply Nat.ltb_lt. rewrite Forall_forall in Hidx. by apply Hidx. }
  exists idx. rewrite !gather_take_prefix by done. split; [done|]. split; [by apply topk_nodup|]. split; [unfold idx; rewrite topk_length by done; lia|].
  split; [done|]. intros i j Hi Hj Hnj. apply (topk_largest (capacity - window)); [done|done|by rewrite Hpl|done].
Qed.
End snap.

(** * Concrete steps, over the rationals *)

Module AttCases.
#[local] Existing Instances qc_scalar qc_exact qc_ordered qc_ops qc_laws.

Definition vec (l : list Z) : list Qc := qc_of_Z <$> l.
Definition mat (l : list (list Z)) : list (list Qc) := vec <$> l.
(** A stand-in for the CUDA kernel: the weights above the threshold. *)
Definition kernel (w : list Qc) (t : Qc) : list bool := (fun x => negb (fle x t)) <$> w.
Definition layer2 : Layer := mkLayer 2 1 1 None.
Definition q1 : list (list (list Qc)) := [[vec [2]%Z]].
Definition k4 : list (list (list (list Qc))) := [[mat [[1]; [4]; [2]; [3]]%Z]].

Definition settings (s : IndexSelectorType) (args : list (string * CfgVal)) (e : WeightEstimatorType) (p : WeightPrunerType) : LocalState :=
  mkLocal C_NONE ∅ s (list_to_map args) e ∅ p (list_to_map [("threshold"%string, CFloat (1 # 4)%Q)]) (Some 0) (Some 0) false true None.
Definition lib (l : LocalState) : PyLib Qc := mkPyLib true (Some l) [budget_reset] [score_reset] None None.

Definition top2 : LocalState := settings ORACLE_TOPK [("token_budget"%string, CInt 2)] E_NONE P_NONE.
Definition run l := decode_attention Q2Qc kernel layer2 None q1 k4 k4 (lib l).

Lemma decode_masks_exact_witness :
  exists r p', run top2 = (Ok r, p') /\ budget_objects p' = [mkBudgetInfo [[(2, [2])]]%Z 2] /\
    exists m w, r.1 = map (map softmax) (zip_with (zip_with fill_masked) w m) /\ w = attention_weights layer2 q1 k4.
Proof.
  destruct (run top2) as [[r|e] p'] eqn:E; [|exfalso; vm_compute in E; discriminate].
  exists r, p'. split; [done|]. split; [vm_compute in E; injection E as _ <-; done|]. destruct r as [probs out].
  destruct (decode_masks_exact Q2Qc kernel layer2 top2 q1 k4 k4 (lib top2) probs out p' eq_refl ltac:(vm_compute; discriminate) E) as (m & w & Hp & _ & Hw & _).
  exists m, w. split; [exact Hp|by apply Hw].
Defined.

Lemma accepted_settings_raise_witness :
  (exists e p', run (settings TIDAL_DECODE [("token_budget"%string, CInt 2); ("reselection_layers"%string, CList [2%Z])] E_NONE P_NONE) = (Raise e, p')) /\
  (run (settings TIDAL_DECODE [("token_budget"%string, CInt 2); ("reselection_layers"%string, CList [2%Z])] E_NONE P_NONE)).1 = Raise TypeError /\
  (run (settings PQCACHE [] E_NONE P_NONE)).1 = Raise NameError /\ (run (settings S_NONE [] H_THRESHOLD P_THRESHOLD)).1 = Raise NameError.
Proof.
  split; [|split; [|split]; vm_compute; reflexivity].
  apply (accepted_settings_raise Q2Qc kernel layer2 (settings TIDAL_DECODE [("token_budget"%string, CInt 2); ("reselection_layers"%string, CList [2%Z])] E_NONE P_NONE));
    [reflexivity|vm_compute; discriminate|left; reflexivity].
Defined.

Lemma dense_is_full_attention_witness :
  exists p', run (settings S_NONE [] E_NONE P_NONE) =
    (Ok (map (map softmax) (attention_weights layer2 q1 k4), zip_with (zip_with (weighted_values layer2)) (map (map softmax) (attention_weights layer2 q1 k4)) k4), p').
Proof.
  apply (dense_is_full_attention Q2Qc kernel layer2 (settings S_NONE [] E_NONE P_NONE)); try reflexivity; [vm_compute; discriminate|].
  split; intros i [= <-]; eexists; (split; [reflexivity|]); discriminate.
Defined.

Lemma snap_kv_exact_witness :
  let pool := fun (_ : string) (_ _ : nat) (l : list Qc) => l in
  exists idx, snap_kv_compression pool 1 2 3 5 "avgpool" (mat [[1]; [1]; [1]; [1]; [1]]%Z) (mat [[1]; [5]; [2]; [1]; [1]]%Z) (mat [[1]; [2]; [3]; [4]; [5]]%Z) =
      Ok (gather [] idx (mat [[1]; [5]; [2]; [1]; [1]]%Z) ++ mat [[1]; [1]]%Z, gather [] idx (mat [[1]; [2]; [3]; [4]; [5]]%Z) ++ mat [[4]; [5]]%Z) /\ length idx + 2 = 3.
Proof.
  destruct (proj2 (snap_kv_exact (F := Qc) (fun (_ : string) (_ _ : nat) (l : list Qc) => l) 1 2 3 5 "avgpool" (mat [[1]; [1]; [1]; [1]; [1]]%Z) (mat [[1]; [5]; [2]; [1]; [1]]%Z)
    (mat [[1]; [2]; [3]; [4]; [5]]%Z) eq_refl eq_refl ltac:(lia) (or_introl eq_refl) (fun l => eq_refl)) ltac:(cbn; lia)) as (idx & Hr & _ & Hl & _).
  exists idx. split; [exact Hr|exact Hl].
Defined.
End AttCases.
