(* ===== verification/SamplerOps.v ===== *)
(** The filters of the sampler: [apply_top_k_top_p] of [vllm/v1/sample/ops/topk_topp_sampler.py], [apply_bad_words] of
    [bad_words.py] and the penalties of [penalties.py] and [vllm/model_executor/layers/utils.py].

    A logit is a scalar or minus infinity, which is [None].  A tensor is the list of its rows.  [exp] and the order
    [torch.sort] gives to equal elements are an interface; so is the compiled kernel of the repetition penalty, of which the
    PyTorch version beside it is modelled. *)
From stdpp Require Import base list sorting.
From Stdlib Require Import ZArith Qcanon Lia Ring Field.
From S2P Require Import Prelude NumpyArrays RabitqQuant PyTensor.
Open Scope nat_scope.

(** [fexp] is the exponential; [argsort_ascending] are the indices that [torch.sort(descending=False)] returns. *)
Class SampleOps (F : Type) := {
  fexp : F -> F;
  argsort_ascending : list (option F) -> list nat
}.

Section logits.
Context {F : Type} `{Scalar F}.

(** [x <= y] and [x < y], minus infinity below everything. *)
Definition lle (x y : option F) : bool :=
  match x, y with None, _ => true | Some _, None => false | Some x, Some y => fle x y end.
Definition llt (x y : option F) : bool := negb (lle y x).

(** [l.masked_fill_(l < bar, -inf)] and [l.masked_fill_(mask, -inf)]. *)
Definition mask_below (bar : option F) (row : list (option F)) : list (option F) := (fun x => if llt x bar then None else x) <$> row.
Definition masked_fill (mask : list bool) (row : list (option F)) : list (option F) :=
  zip_with (fun (b : bool) x => if b then None else x) mask row.

(** [tensor.argmax()] and [tl.argmax]: the first of the largest. *)
Fixpoint argmax_from {A} (le : A -> A -> bool) (best : A) (at_ i : nat) (l : list A) : nat :=
  match l with
  | [] => at_
  | x :: l => if le x best then argmax_from le best at_ (S i) l else argmax_from le x i (S i) l
  end.
Definition argmax {A} (le : A -> A -> bool) (l : list A) : outcome nat :=
  match l with [] => Raise IndexError | x :: l => Ok (argmax_from le x 0 1 l) end.
End logits.

Section filters.
Context {F : Type} `{Scalar F, SampleOps F}.

(** [softmax(dim=-1)] *)
Definition lexp (x : option F) : F := match x with None => f0 | Some x => fexp x end.
Definition lsoftmax (row : list (option F)) : list F := (fun x => fdiv (lexp x) (fsum (lexp <$> row))) <$> row.

(** [l.gather(dim, index)] at one index, which is not counted from the end. *)
Definition gather_at {A} (l : list A) (i : Z) : outcome A := if (i <? 0)%Z then Raise RuntimeError else at_index l (Z.to_nat i).

(** [logits.sort(dim=-1, descending=False)] *)
Definition sort_ascending (row : list (option F)) : list (option F) := gather None (argsort_ascending row) row.

(** [logits.topk(k).values]: the largest values, in descending order. *)
Definition topk_values (k : Z) (row : list (option F)) : outcome (list (option F)) :=
  if (k <? 0)%Z || (Z.of_nat (length row) <? k)%Z then Raise RuntimeError else Ok (take (Z.to_nat k) (reverse (sort_ascending row))).

(** [k.max()] *)
Definition tensor_max (k : list Z) : outcome Z := match k with [] => Raise RuntimeError | x :: k => Ok (foldl Z.max x k) end.

Definition apply_top_k_only (vocab_size : Z) (logits : list (list (option F))) (k : list Z) : outcome (list (list (option F))) :=
  let no_top_k_mask := (fun k => (k =? vocab_size)%Z) <$> k in
  let k := zip_with (fun (no : bool) k => if no then 1%Z else k) no_top_k_mask k in
  max_top_k ← tensor_max k;
  mapM (fun '(row, (k, no)) =>
    values ← topk_values max_top_k row;
    top_k_mask ← gather_at values (k - 1);
    Ok (mask_below (if no : bool then None else top_k_mask) row)) (zip logits (zip k no_top_k_mask)).

(** The two parts of a row of sorted logits. *)
Definition top_k_part (k : Z) (logits_sort : list (option F)) : outcome (list (option F)) :=
  top_k_mask ← gather_at logits_sort (Z.of_nat (length logits_sort) - k);
  Ok (mask_below top_k_mask logits_sort).

Definition top_p_part (p : F) (logits_sort : list (option F)) : outcome (list (option F)) :=
  let probs_sum := cumsum (lsoftmax logits_sort) in
  let top_p_mask := (fun c => fle c (fsub f1 p)) <$> probs_sum in
  top_p_mask ← store_at top_p_mask (length top_p_mask - 1) false;
  Ok (masked_fill top_p_mask logits_sort).

Definition top_k_top_p_row (k : option Z) (p : option F) (row : list (option F)) : outcome (list (option F)) :=
  let logits_idx := argsort_ascending row in
  let logits_sort := sort_ascending row in
  logits_sort ← match k with Some k => top_k_part k logits_sort | None => Ok logits_sort end;
  logits_sort ← match p with Some p => top_p_part p logits_sort | None => Ok logits_sort end;
  Ok (scatter logits_idx logits_sort logits_sort).

(** The tensors [k] and [p] have an entry per row. *)
Definition entries {A} (n : nat) (x : option (list A)) : list (option A) := match x with Some l => Some <$> l | None => replicate n None end.

Definition apply_top_k_top_p (vocab_size : Z) (logits : list (list (option F))) (k : option (list Z)) (p : option (list F)) :
    outcome (list (list (option F))) :=
  match p with
  | None => match k with None => Ok logits | Some k => apply_top_k_only vocab_size logits k end
  | Some _ =>
      let n := length logits in
      mapM (fun '(row, (k, p)) => top_k_top_p_row k p row) (zip logits (zip (entries n k) (entries n p)))
  end.

(** * Bad words *)

(** [l[-n:]] for a positive [n]. *)
Definition last_n {A} (n : nat) (l : list A) : list A := drop (length l - n) l.

(** [logits[token] = -inf] *)
Definition ban (row : list (option F)) (token : Z) : outcome (list (option F)) :=
  let i := if (token <? 0)%Z then (token + Z.of_nat (length row))%Z else token in
  if (i <? 0)%Z then Raise IndexError else store_at row (Z.to_nat i) None.

Fixpoint apply_bad_words_single_batch (logits : list (option F)) (bad_words_token_ids : list (list Z)) (past_tokens_ids : list Z) :
    outcome (list (option F)) :=
  match bad_words_token_ids with
  | [] => Ok logits
  | bad_word_ids :: rest =>
      if length past_tokens_ids + 1 <? length bad_word_ids then apply_bad_words_single_batch logits rest past_tokens_ids
      else
        let prefix_length := length bad_word_ids - 1 in
        last_token_id ← index_at bad_word_ids (-1);
        let actual_prefix := if 0 <? prefix_length then last_n prefix_length past_tokens_ids else [] in
        let expected_prefix := take prefix_length bad_word_ids in
        _ ← assert_ (length actual_prefix =? length expected_prefix);
        logits ← if bool_decide (actual_prefix = expected_prefix) then ban logits last_token_id else Ok logits;
        apply_bad_words_single_batch logits rest past_tokens_ids
  end.

(** [bad_words_token_ids.items()] in some order. *)
Fixpoint apply_bad_words (logits : list (list (option F))) (bad_words : list (nat * list (list Z))) (past : list (list Z)) :
    outcome (list (list (option F))) :=
  match bad_words with
  | [] => Ok logits
  | (i, words) :: rest =>
      row ← at_index logits i; tokens ← at_index past i;
      row ← apply_bad_words_single_batch row words tokens;
      apply_bad_words (<[i := row]> logits) rest past
  end.

(** * Penalties *)

(** [make_tensor_with_pad]: rows of equal length. *)
Definition make_ndarray_with_pad (x : list (list Z)) (pad : Z) : list (list Z) :=
  let max_len := foldr Nat.max 0 (length <$> x) in
  (fun row => row ++ replicate (max_len - length row) pad) <$> x.

(** [bin_counts.scatter_add_(1, tokens, ones)] at a row of [vocab_size + 1] counts, and the counts without the padding. *)
Fixpoint scatter_add (counts : list Z) (tokens : list Z) : outcome (list Z) :=
  match tokens with
  | [] => Ok counts
  | t :: tokens => c ← gather_at counts t; scatter_add (<[Z.to_nat t := (c + 1)%Z]> counts) tokens
  end.
Definition get_token_bin_counts_and_mask (tokens : list Z) (vocab_size : nat) : outcome (list Z * list bool) :=
  bin_counts ← scatter_add (replicate (vocab_size + 1) 0%Z) tokens;
  let bin_counts := take vocab_size bin_counts in
  Ok (bin_counts, (fun c => (0 <? c)%Z) <$> bin_counts).

(** [apply_repetition_penalties_torch] at an element; penalties are positive, so minus infinity stays. *)
Definition flt0 (x : F) : bool := negb (fle x f0).
Definition repetition_penalty (penalty : F) (seen : bool) (x : option F) : option F :=
  let penalties := if seen then penalty else f1 in
  x ← x; Some (fmul x (if flt0 x then fdiv f1 penalties else penalties)).

Definition lsub (x : option F) (y : F) : option F := (fun x => fsub x y) <$> x.

(** [apply_penalties] at a row. *)
Definition apply_penalties_row (logits : list (option F)) (prompt_tokens output_tokens : list Z) (presence frequency repetition : F) :
    outcome (list (option F)) :=
  let vocab_size := length logits in
  '(_, prompt_mask) ← get_token_bin_counts_and_mask prompt_tokens vocab_size;
  '(output_bin_counts, output_mask) ← get_token_bin_counts_and_mask output_tokens vocab_size;
  let logits := zip_with (fun x (seen : bool) => repetition_penalty repetition seen x) logits (zip_with orb prompt_mask output_mask) in
  let logits := zip_with (fun x c => lsub x (fmul frequency (fofZ c))) logits output_bin_counts in
  Ok (zip_with (fun x (b : bool) => lsub x (fmul presence (if b then f1 else f0))) logits output_mask).

(** [apply_all_penalties]; the prompt tensor is padded already. *)
Definition apply_all_penalties (vocab_size : nat) (logits : list (list (option F))) (prompt_token_ids : list (list Z))
    (presence frequency repetition : list F) (output_token_ids : list (list Z)) : outcome (list (list (option F))) :=
  let output_tokens_t := make_ndarray_with_pad output_token_ids (Z.of_nat vocab_size) in
  mapM (fun '(row, ((prompt, output), ((pr, fr), rp))) => apply_penalties_row row prompt output pr fr rp)
    (zip logits (zip (zip prompt_token_ids output_tokens_t) (zip (zip presence frequency) repetition))).
End filters.

(** * What torch promises *)

(** The exponential is positive and increasing; [torch.sort] permutes and sorts. *)
Class SampleLaws (F : Type) `{Scalar F, SampleOps F} : Prop := {
  exp_pos : forall x : F, fle (fexp x) f0 = false;
  exp_mono : forall x y : F, fle (fexp x) (fexp y) = fle x y;
  sort_perm : forall l : list (option F), argsort_ascending l ≡ₚ seq 0 (length l);
  sort_sorted : forall (l : list (option F)) p q i j, p <= q -> argsort_ascending l !! p = Some i -> argsort_ascending l !! q = Some j ->
    lle (nth i l None) (nth j l None) = true
}.

Section order.
Context {F : Type} `{OrderedScalar F}.

Lemma lle_refl (x : option F) : lle x x = true.
Proof. destruct x; [apply fle_refl|done]. Qed.

Lemma lle_trans (x y z : option F) : lle x y = true -> lle y z = true -> lle x z = true.
Proof. destruct x, y, z; cbn; try done. apply fle_trans. Qed.

Lemma lle_total (x y : option F) : lle x y = true \/ lle y x = true.
Proof. destruct x as [x|], y as [y|]; cbn; auto. apply fle_total. Qed.

Lemma lle_antisym (x y : option F) : lle x y = true -> lle y x = true -> x = y.
Proof. destruct x, y; cbn; try done. intros ??. f_equal. by apply fle_antisym. Qed.

Lemma llt_le (x y : option F) : llt x y = true -> lle x y = true.
Proof. unfold llt. intros Hn%negb_true_iff. destruct (lle_total x y); congruence. Qed.

Lemma llt_le_trans (x y z : option F) : llt x y = true -> lle y z = true -> llt x z = true.
Proof.
  unfold llt. rewrite !negb_true_iff. intros Hn Hle. destruct (lle z x) eqn:E; [|done]. rewrite <-Hn. symmetry. by apply (lle_trans _ z).
Qed.

Lemma lle_lt_trans (x y z : option F) : lle x y = true -> llt y z = true -> llt x z = true.
Proof.
  unfold llt. rewrite !negb_true_iff. intros Hle Hn. destruct (lle z x) eqn:E; [|done]. rewrite <-Hn. symmetry. by apply (lle_trans _ x).
Qed.
End order.

(** ** The first largest *)

Section argmax.
Context {A : Type} (le : A -> A -> bool).
Hypothesis le_refl : forall x, le x x = true.
Hypothesis le_trans : forall x y z, le x y = true -> le y z = true -> le x z = true.
Hypothesis le_total : forall x y, le x y = true \/ le y x = true.

Lemma argmax_from_spec (l : list A) : forall pre best p, pre !! p = Some best ->
  (forall j x, pre !! j = Some x -> le x best = true) -> (forall j x, j < p -> pre !! j = Some x -> le best x = false) ->
  exists best', (pre ++ l) !! argmax_from le best p (length pre) l = Some best' /\
    (forall j x, (pre ++ l) !! j = Some x -> le x best' = true) /\
    (forall j x, j < argmax_from le best p (length pre) l -> (pre ++ l) !! j = Some x -> le best' x = false).
Proof.
  induction l as [|y l IH]; intros pre best p Hp Hmax Hfirst; cbn [argmax_from]; [rewrite app_nil_r; eauto|].
  replace (pre ++ y :: l) with ((pre ++ [y]) ++ l) by (by rewrite <-app_assoc).
  assert (length (pre ++ [y]) = S (length pre)) as Hl by (rewrite length_app; cbn; lia). rewrite <-Hl.
  destruct (le y best) eqn:E; apply IH.
  - by apply lookup_app_l_Some.
  - intros j x [Hx|[_ Hx]]%lookup_app_Some; [by eapply Hmax|]. apply list_lookup_singleton_Some in Hx as [_ <-]. done.
  - intros j x Hj Hx. rewrite lookup_app_l in Hx by (apply lookup_lt_Some in Hp; lia). by eapply Hfirst.
  - rewrite lookup_app_r, Nat.sub_diag by lia. done.
  - assert (le best y = true) as Hby by (destruct (le_total y best); congruence).
    intros j x [Hx|[_ Hx]]%lookup_app_Some; [eapply le_trans, Hby; by eapply Hmax|]. apply list_lookup_singleton_Some in Hx as [_ <-]. apply le_refl.
  - intros j x Hj Hx. rewrite lookup_app_l in Hx by done. destruct (le y x) eqn:E'; [|done].
    rewrite <-E. symmetry. apply (le_trans _ x); [done|]. by eapply Hmax.
Qed.

(** The first of the largest elements. *)
Lemma argmax_spec (l : list A) : l <> [] -> exists i x, argmax le l = Ok i /\ l !! i = Some x /\
  (forall j y, l !! j = Some y -> le y x = true) /\ (forall j y, j < i -> l !! j = Some y -> le x y = false).
Proof.
  destruct l as [|x l]; [done|]. intros _. destruct (argmax_from_spec l [x] x 0) as (b & Hb & Hm & Hf); [done|..].
  - intros j y [_ <-]%list_lookup_singleton_Some. apply le_refl.
  - intros j y Hj. lia.
  - exists (argmax_from le x 0 1 l), b. done.
Qed.

Lemma argmax_unique (l : list A) i x : argmax le l = Ok i -> l !! i = Some x -> forall k z, l !! k = Some z ->
  (forall j y, l !! j = Some y -> le y z = true) -> (forall j y, j < k -> l !! j = Some y -> le z y = false) -> i = k.
Proof.
  intros Hi Hx k z Hz Hmax Hfirst. assert (l <> []) as Hne by (by intros ->).
  destruct (argmax_spec l Hne) as (i' & x' & Hi' & Hx' & Hm & Hf). rewrite Hi in Hi'. injection Hi' as <-.
  rewrite Hx in Hx'. injection Hx' as <-. destruct (Nat.lt_trichotomy i k) as [Hlt|[?|Hlt]]; [|done|].
  - pose proof (Hfirst i x Hlt Hx). pose proof (Hm k z Hz). congruence.
  - pose proof (Hf k z Hlt Hz). pose proof (Hmax i x Hx). congruence.
Qed.
End argmax.

(** * Sorted logits *)

Lemma perm_gather {A} (d : A) (idx : list nat) (l : list A) : idx ≡ₚ seq 0 (length l) -> gather d idx l ≡ₚ l.
Proof.
  intros Hp. unfold gather. rewrite Hp. enough ((fun i => nth i l d) <$> seq 0 (length l) = l) as -> by done. apply list_eq. intros i. rewrite list_lookup_fmap.
  destruct (decide (i < length l)) as [Hi|Hi].
  - rewrite lookup_seq_lt by done. destruct (lookup_lt_is_Some_2 l i Hi) as [x Hx]. rewrite Hx. cbn. f_equal. by apply nth_lookup_Some.
  - by rewrite !lookup_ge_None_2 by (rewrite ?length_seq; lia).
Qed.

Lemma length_gather {A} (d : A) idx l : length (gather d idx l) = length idx.
Proof. apply length_fmap. Qed.

(** Scattering to every position leaves nothing of the row before. *)
Lemma scatter_base {A} (idx : list nat) (src base base' : list A) n : idx ≡ₚ seq 0 n -> length src = n -> length base = n -> length base' = n ->
  scatter idx src base = scatter idx src base'.
Proof.
  intros Hp Hs Hb Hb'. pose proof (Permutation_length Hp) as Hl. rewrite length_seq in Hl. apply list_eq. intros i.
  destruct (decide (i < n)) as [Hi|]; [|by rewrite !lookup_ge_None_2 by (rewrite scatter_length; lia)].
  assert (exists k, idx !! k = Some i) as [k Hk] by (apply list_elem_of_lookup; rewrite Hp; apply elem_of_seq; lia).
  apply lookup_lt_Some in Hk as Hkl. destruct (lookup_lt_is_Some_2 src k) as [x Hx]; [lia|].
  assert (NoDup idx) as Hnd by (rewrite Hp; apply NoDup_seq). by rewrite !(scatter_at _ _ _ k i x) by (done || lia).
Qed.

(** Scattering what was gathered, changed element by element. *)
Lemma scatter_gather {A} (d : A) (f : A -> A) (idx : list nat) (l base : list A) : idx ≡ₚ seq 0 (length l) -> length base = length l ->
  scatter idx (f <$> gather d idx l) base = f <$> l.
Proof.
  intros Hp Hb. apply list_eq. intros i. destruct (decide (i < length l)) as [Hi|Hi].
  - assert (exists k, idx !! k = Some i) as [k Hk] by (apply list_elem_of_lookup; rewrite Hp; apply elem_of_seq; lia).
    destruct (lookup_lt_is_Some_2 l i Hi) as [x Hx]. rewrite list_lookup_fmap, Hx. apply (scatter_at _ _ _ k); [rewrite Hp; apply NoDup_seq|done| |lia].
    unfold gather. rewrite !list_lookup_fmap, Hk. cbn. do 2 f_equal. by apply nth_lookup_Some.
  - by rewrite !lookup_ge_None_2 by (rewrite ?scatter_length, ?length_fmap; lia).
Qed.

Section sorted.
Context {F : Type} `{OrderedScalar F} `{!SampleOps F} `{!SampleLaws F}.
Implicit Types row : list (option F).

Lemma argsort_ascending_length row : length (argsort_ascending row) = length row.
Proof. by rewrite (Permutation_length (sort_perm row)), length_seq. Qed.

Lemma sort_ascending_perm row : sort_ascending row ≡ₚ row.
Proof. apply perm_gather, sort_perm. Qed.

Lemma sort_ascending_length row : length (sort_ascending row) = length row.
Proof. apply Permutation_length, sort_ascending_perm. Qed.

Lemma sort_ascending_le row p q x y : p <= q -> sort_ascending row !! p = Some x -> sort_ascending row !! q = Some y -> lle x y = true.
Proof.
  intros Hpq Hx Hy. unfold sort_ascending, gather in *. rewrite list_lookup_fmap in Hx, Hy.
  destruct (argsort_ascending row !! p) eqn:Hp; [|done]. destruct (argsort_ascending row !! q) eqn:Hq; [|done].
  injection Hx as <-. injection Hy as <-. by eapply sort_sorted.
Qed.

(** How many logits of the row are larger, and the filter that keeps a logit with fewer than [k] larger ones. *)
Definition larger (x : option F) row : nat := length (filter (fun y => llt x y = true) row).
Definition top_k_filter (k : Z) row : list (option F) := (fun x => if (Z.of_nat (larger x row) <? k)%Z then x else None) <$> row.

Lemma larger_perm x row row' : row ≡ₚ row' -> larger x row = larger x row'.
Proof. intros Hp. unfold larger. by rewrite Hp. Qed.

Lemma kth_largest row k bar x : 1 <= k <= length row -> sort_ascending row !! (length row - k) = Some bar ->
  llt x bar = negb (larger x row <? k).
Proof.
  intros Hk Hbar. rewrite <-(larger_perm x _ _ (sort_ascending_perm row)). pose proof (sort_ascending_length row) as Hl.
  set (s := sort_ascending row) in *. unfold larger. destruct (llt x bar) eqn:E.
  - symmetry. apply negb_true_iff, Nat.ltb_ge. rewrite <-(take_drop (length row - k) s), filter_app, length_app.
    enough (filter (fun y => llt x y = true) (drop (length row - k) s) = drop (length row - k) s) as -> by (rewrite length_drop; lia).
    apply filter_all. intros y [j Hy]%list_elem_of_lookup. rewrite lookup_drop in Hy. eapply llt_le_trans; [exact E|].
    eapply sort_ascending_le; [|exact Hbar|exact Hy]. lia.
  - symmetry. apply negb_false_iff, Nat.ltb_lt. rewrite <-(take_drop (S (length row - k)) s), filter_app, length_app.
    enough (filter (fun y => llt x y = true) (take (S (length row - k)) s) = []) as ->.
    { pose proof (length_filter (fun y => llt x y = true) (drop (S (length row - k)) s)). rewrite length_drop in *. cbn. lia. }
    apply elem_of_nil_inv. intros y [Hy Hin]%list_elem_of_filter. apply list_elem_of_lookup in Hin as [j [Hj Hlt]%lookup_take_Some].
    assert (lle y bar = true) as Hyb by (eapply sort_ascending_le; [|exact Hj|exact Hbar]; lia).
    pose proof (llt_le_trans _ _ _ Hy Hyb). congruence.
Qed.

Lemma mask_below_kth row k bar : (1 <= k <= Z.of_nat (length row))%Z -> sort_ascending row !! Z.to_nat (Z.of_nat (length row) - k) = Some bar ->
  mask_below bar row = top_k_filter k row.
Proof.
  intros Hk Hbar. unfold mask_below, top_k_filter. apply list_fmap_ext. intros i x _.
  replace (Z.to_nat (Z.of_nat (length row) - k)) with (length row - Z.to_nat k) in Hbar by lia.
  rewrite (kth_largest row (Z.to_nat k) bar x) by (done || lia).
  destruct (Nat.ltb_spec (larger x row) (Z.to_nat k)), (Z.ltb_spec (Z.of_nat (larger x row)) k); try done; lia.
Qed.

Lemma mask_below_none row : mask_below None row = row.
Proof. unfold mask_below. transitivity (id <$> row); [|apply list_fmap_id]. apply list_fmap_ext. by intros i [x|] _. Qed.

(** All entries of the vocabulary are kept by [k = vocab_size]. *)
Lemma top_k_filter_all row : top_k_filter (Z.of_nat (length row)) row = row.
Proof.
  unfold top_k_filter. transitivity (id <$> row); [|apply list_fmap_id]. apply list_fmap_ext. intros i x Hx. rewrite (proj2 (Z.ltb_lt _ _)); [done|].
  unfold larger. destruct (list_elem_of_split row x) as (l1 & l2 & ->); [by eapply list_elem_of_lookup_2|]. rewrite filter_app, filter_cons, !length_app.
  rewrite decide_False by (unfold llt; by rewrite lle_refl). cbn.
  pose proof (length_filter (fun y => llt x y = true) l1). pose proof (length_filter (fun y => llt x y = true) l2). lia.
Qed.
End sorted.

(** * Exact arithmetic *)

Section exact.
Context {F : Type} `{OrderedScalar F} `{!SampleOps F} `{!SampleLaws F}.
Add Ring F_ring_sampler : ex_ring.
Implicit Types row base : list (option F).

(** A number that is not at most zero has an inverse, which is not negative. *)
Lemma pos_inverse (b : F) : fle b f0 = false -> exists inv : F, (forall a, fdiv a b = fmul a inv) /\ fmul inv b = f1 /\ fle f0 inv = true.
Proof.
  intros Hb. assert (b <> f0) as Hb0 by (intros ->; by rewrite fle_refl in Hb). assert (fle f0 b = true) as Hb' by (destruct (fle_total f0 b); congruence).
  exists (fdiv f1 b). pose proof (ex_div f1 b Hb0) as Hone. split_and!; [|done|].
  - intros a. pose proof (ex_div a b Hb0) as Ha.
    transitivity (fmul (fmul (fdiv a b) b) (fdiv f1 b)); [|by rewrite Ha].
    transitivity (fmul (fdiv a b) (fmul (fdiv f1 b) b)); [rewrite Hone; ring|ring].
  - destruct (fle_total f0 (fdiv f1 b)) as [|Hneg]; [done|]. exfalso.
    pose proof (fle_mul b _ _ Hb' Hneg) as Hm. replace (fmul b (fdiv f1 b)) with (fmul (fdiv f1 b) b) in Hm by ring.
    rewrite Hone in Hm. replace (fmul b f0) with (f0 : F) in Hm by ring. pose proof (fle_mul b _ _ Hb' Hm) as Hm'.
    replace (fmul b f1) with b in Hm' by ring. replace (fmul b f0) with (f0 : F) in Hm' by ring. congruence.
Qed.

Lemma fdiv_mono (a b c : F) : fle c f0 = false -> fle a b = true -> fle (fdiv a c) (fdiv b c) = true.
Proof.
  intros (inv & Hd & _ & Hi)%pos_inverse Hab. rewrite !Hd. replace (fmul a inv) with (fmul inv a) by ring. replace (fmul b inv) with (fmul inv b) by ring.
  by apply fle_mul.
Qed.

Lemma fdiv_zero (c : F) : fle c f0 = false -> fdiv f0 c = f0.
Proof. intros (inv & Hd & _)%pos_inverse. rewrite Hd. ring. Qed.

Lemma fdiv_le_inv (a b c : F) : fle c f0 = false -> fle (fdiv a c) (fdiv b c) = true -> fle a b = true.
Proof.
  intros Hc Hle. assert (c <> f0) as Hc0 by (intros ->; by rewrite fle_refl in Hc). assert (fle f0 c = true) as Hc' by (destruct (fle_total f0 c); congruence).
  pose proof (fle_mul c _ _ Hc' Hle) as Hm. replace (fmul c (fdiv a c)) with a in Hm by (rewrite <-(ex_div a c Hc0) at 1; ring).
  by replace (fmul c (fdiv b c)) with b in Hm by (rewrite <-(ex_div b c Hc0) at 1; ring).
Qed.

Lemma fdiv_pos (a c : F) : fle c f0 = false -> fle a f0 = false -> fle (fdiv a c) f0 = false.
Proof. intros Hc Ha. destruct (fle (fdiv a c) f0) eqn:E; [|done]. rewrite <-Ha. symmetry. apply (fdiv_le_inv _ _ c Hc). by rewrite fdiv_zero. Qed.

Lemma fsum_perm (l k : list F) : l ≡ₚ k -> fsum l = fsum k.
Proof. induction 1; rewrite ?fsum_cons; [done|congruence|ring|congruence]. Qed.

Lemma fsum_nonneg (l : list F) : Forall (fun x => fle f0 x = true) l -> fle f0 (fsum l) = true.
Proof.
  induction 1 as [|x l Hx _ IH]; [rewrite fsum_nil; apply fle_refl|]. rewrite fsum_cons. replace (f0 : F) with (fadd f0 f0 : F) by ring. by apply fle_add_both.
Qed.

Lemma fsum_pos (l : list F) x : Forall (fun x => fle f0 x = true) l -> x ∈ l -> fle x f0 = false -> fle (fsum l) f0 = false.
Proof.
  intros Hl (l1 & l2 & ->)%list_elem_of_split Hx. destruct (fle (fsum (l1 ++ x :: l2)) f0) eqn:E; [|done]. rewrite <-Hx. symmetry.
  eapply fle_trans; [|exact E]. rewrite fsum_app, fsum_cons. apply Forall_app in Hl as [Hl1 [_ Hl2]%Forall_cons_1].
  replace (fle x) with (fle (fadd f0 (fadd x f0) : F)) by (f_equal; ring). apply fle_add_both; [by apply fsum_nonneg|]. apply fle_add_both; [apply fle_refl|by apply fsum_nonneg].
Qed.

(** ** Softmax *)

Lemma lexp_nonneg (x : option F) : fle f0 (lexp x) = true.
Proof. destruct x as [x|]; cbn; [|apply fle_refl]. destruct (fle_total f0 (fexp x)); [done|]. pose proof (exp_pos x). congruence. Qed.

Lemma lexp_all_nonneg row : Forall (fun x => fle f0 x = true) (lexp <$> row).
Proof. apply Forall_fmap, Forall_forall. intros x _. apply lexp_nonneg. Qed.

Lemma lexp_mono (x y : option F) : lle x y = true -> fle (lexp x) (lexp y) = true.
Proof. destruct x as [x|], y as [y|]; cbn; try done; [by rewrite exp_mono|intros _; apply (lexp_nonneg (Some y))|intros _; apply fle_refl]. Qed.

Lemma exp_sum_pos row x : Some x ∈ row -> fle (fsum (lexp <$> row)) f0 = false.
Proof. intros Hx. apply (fsum_pos _ (fexp x)); [apply lexp_all_nonneg| |apply exp_pos]. change (fexp x) with (lexp (Some x)). by apply list_elem_of_fmap_2. Qed.

Lemma lsoftmax_length row : length (lsoftmax row) = length row.
Proof. apply length_fmap. Qed.

Lemma lsoftmax_lookup row i x : row !! i = Some x -> lsoftmax row !! i = Some (fdiv (lexp x) (fsum (lexp <$> row))).
Proof. intros Hx. unfold lsoftmax. by rewrite list_lookup_fmap, Hx. Qed.

Lemma lsoftmax_nonneg row x : Some x ∈ row -> Forall (fun p => fle f0 p = true) (lsoftmax row).
Proof.
  intros Hx%exp_sum_pos. apply Forall_fmap, Forall_forall. intros y _. cbn. rewrite <-(fdiv_zero _ Hx). apply fdiv_mono; [done|apply lexp_nonneg].
Qed.

(** Exactly the entries that are not minus infinity have a probability. *)
Lemma lsoftmax_pos row i x : row !! i = Some x -> (exists y, Some y ∈ row) -> fle (nth i (lsoftmax row) f0) f0 = negb (bool_decide (is_Some x)).
Proof.
  intros Hi [y Hy%exp_sum_pos]. rewrite (nth_lookup_Some _ _ _ _ (lsoftmax_lookup _ _ _ Hi)). destruct x as [x|]; cbn.
  - apply fdiv_pos; [done|apply exp_pos].
  - rewrite fdiv_zero by done. apply fle_refl.
Qed.

Lemma lsoftmax_sum row x : Some x ∈ row -> fsum (lsoftmax row) = f1.
Proof.
  intros (inv & Hd & Hinv & _)%exp_sum_pos%pos_inverse. unfold lsoftmax. set (t := fsum (lexp <$> row)) in *.
  assert (forall l : list (option F), fsum ((fun x => fdiv (lexp x) t) <$> l) = fmul (fsum (lexp <$> l)) inv) as ->.
  { induction l as [|z l IH]; [cbn; rewrite fsum_nil; ring|]. rewrite !fmap_cons, !fsum_cons, IH, Hd. ring. }
  fold t. rewrite <-Hinv. ring.
Qed.
End exact.

(** * What top-k and top-p keep *)

Lemma mapM_each {A B} (f : A -> outcome B) (l : list A) (r : list B) : Forall2 (fun x y => f x = Ok y) l r -> mapM f l = Ok r.
Proof. induction 1 as [|x y l r Hx _ IH]; [done|]. cbn [mapM]. rewrite Hx. cbn. by rewrite IH. Qed.

Section keeping.
Context {F : Type} `{OrderedScalar F} `{!SampleOps F} `{!SampleLaws F}.
Add Ring F_ring_keeping : ex_ring.
Implicit Types row base : list (option F).

(** What is left of a row by an optional [k], and the row without the tokens of a list. *)
Definition after_top_k (k : option Z) row : list (option F) := match k with Some k => top_k_filter k row | None => row end.
Definition without (dropped : list nat) row : list (option F) := imap (fun i x => if decide (i ∈ dropped) then None else x) row.

Lemma mask_below_mono (bar x y : option F) : lle x y = true ->
  lle (if llt x bar then None else x) (if llt y bar then None else y) = true.
Proof.
  intros Hxy. destruct (llt x bar) eqn:Ex; [done|]. destruct (llt y bar) eqn:Ey; [|done]. pose proof (lle_lt_trans _ _ _ Hxy Ey). congruence.
Qed.

(** Sorting by the order of the whole row also sorts what top-k leaves. *)
Record sorts (idx : list nat) base : Prop := {
  so_perm : idx ≡ₚ seq 0 (length base);
  so_sorted : forall p q i j, p <= q -> idx !! p = Some i -> idx !! q = Some j -> lle (nth i base None) (nth j base None) = true
}.

Lemma top_k_part_ok row k : (1 <= k <= Z.of_nat (length row))%Z ->
  top_k_part k (sort_ascending row) = Ok (gather None (argsort_ascending row) (top_k_filter k row)) /\ sorts (argsort_ascending row) (top_k_filter k row).
Proof.
  intros Hk. pose proof (sort_ascending_length row) as Hl.
  destruct (lookup_lt_is_Some_2 (sort_ascending row) (Z.to_nat (Z.of_nat (length row) - k))) as [bar Hbar]; [lia|].
  rewrite <-(mask_below_kth row k bar Hk Hbar).
  assert (forall i, nth i (mask_below bar row) None = if llt (nth i row None) bar then None else nth i row None) as Hnth.
  { intros i. unfold mask_below. destruct (decide (i < length row)) as [Hi|Hi].
    - destruct (lookup_lt_is_Some_2 row i Hi) as [x Hx]. rewrite (nth_lookup_Some _ _ _ _ Hx). apply nth_lookup_Some. by rewrite list_lookup_fmap, Hx.
    - rewrite !nth_overflow by (rewrite ?length_fmap; lia). by destruct (llt None bar). }
  split.
  - unfold top_k_part, gather_at. rewrite Hl, (proj2 (Z.ltb_ge _ _)) by lia. rewrite (at_index_ok _ _ _ Hbar). cbn. f_equal.
    unfold sort_ascending, gather, mask_below at 1. rewrite <-list_fmap_compose. apply list_fmap_ext. intros i x _. symmetry. apply Hnth.
  - split; [unfold mask_below; rewrite length_fmap; apply sort_perm|]. intros p q i j Hpq Hi Hj. rewrite !Hnth. apply mask_below_mono. by eapply sort_sorted.
Qed.

Lemma top_k_step k row : (forall k', k = Some k' -> 1 <= k' <= Z.of_nat (length row))%Z ->
  (match k with Some k => top_k_part k (sort_ascending row) | None => Ok (sort_ascending row) end) = Ok (gather None (argsort_ascending row) (after_top_k k row)) /\
  sorts (argsort_ascending row) (after_top_k k row).
Proof.
  intros Hk. destruct k as [k|]; [by apply top_k_part_ok, Hk|]. split; [done|]. split; [apply sort_perm|]. intros. by eapply sort_sorted.
Qed.

Lemma top_k_filter_length k row : length (top_k_filter k row) = length row.
Proof. apply length_fmap. Qed.

Lemma after_top_k_length k row : length (after_top_k k row) = length row.
Proof. destruct k; [apply top_k_filter_length|done]. Qed.

(** Top-k leaves the largest logits. *)
Lemma after_top_k_some k row x : (forall k', k = Some k' -> 1 <= k')%Z -> Some x ∈ row -> exists y, Some y ∈ after_top_k k row.
Proof.
  intros Hk Hx. destruct k as [k|]; [|by exists x]. assert (row <> []) as Hne by (intros ->; by apply elem_of_nil in Hx).
  destruct (argmax_spec lle lle_refl lle_trans lle_total row Hne) as (i & m & _ & Hm & Hmax & _).
  apply list_elem_of_lookup in Hx as Hj. destruct Hj as [j Hj]. pose proof (Hmax _ _ Hj) as Hle. destruct m as [m|]; [|done].
  exists m. unfold after_top_k, top_k_filter. apply list_elem_of_fmap. exists (Some m). split; [|by eapply list_elem_of_lookup_2].
  rewrite (proj2 (Z.ltb_lt _ _)); [done|]. pose proof (Hk k eq_refl). unfold larger.
  enough (filter (fun y => llt (Some m) y = true) row = []) as -> by (cbn; lia).
  apply elem_of_nil_inv. intros y [Hy Hin]%list_elem_of_filter. apply list_elem_of_lookup in Hin as [j' Hj']. unfold llt in Hy. by rewrite (Hmax _ _ Hj') in Hy.
Qed.

(** The part of top-p: a prefix of the sorted logits is dropped. *)
Lemma top_p_part_ok p (s : list (option F)) x : Some x ∈ s -> exists t, t < length s /\
  top_p_part p s = Ok (masked_fill ((fun q => q <? t) <$> seq 0 (length s)) s) /\
  (t = 0 \/ fle (fsum (take t (lsoftmax s))) (fsub f1 p) = true) /\
  (S t < length s -> fle (fsum (take (S t) (lsoftmax s))) (fsub f1 p) = false).
Proof.
  intros Hx. pose proof (lsoftmax_nonneg _ _ Hx) as Hnn. set (ps := lsoftmax s) in *. assert (length ps = length s) as Hl by apply lsoftmax_length.
  assert (0 < length s) as Hpos by (destruct s; [by apply elem_of_nil in Hx|cbn; lia]).
  set (m := (fun c => fle c (fsub f1 p)) <$> cumsum ps). assert (length m = length s) as Hm by (unfold m; rewrite length_fmap, cumsum_length; done).
  assert (forall q, q < length s -> m !! q = Some (fle (fsum (take (S q) ps)) (fsub f1 p))) as Hq.
  { intros q Hq. unfold m. by rewrite list_lookup_fmap, cumsum_lookup by lia. }
  destruct (down_closed (take (length s - 1) m)) as (t & Ht & Hcount).
  { intros i [Hi Hlt]%lookup_take_Some. rewrite lookup_take_lt by lia. rewrite Hq in Hi |- * by lia. injection Hi as Hi. f_equal.
    eapply fle_trans; [|exact Hi]. apply cumsum_grows; [done|lia]. }
  rewrite length_take, Hm in Ht. assert (forall q, q < length s - 1 -> fle (fsum (take (S q) ps)) (fsub f1 p) = (q <? t)) as Hfle.
  { intros q Hlt. rewrite <-Hcount by (rewrite length_take; lia). symmetry. apply nth_lookup_Some. rewrite lookup_take_lt by done. apply Hq. lia. }
  exists t. split; [lia|]. split_and!.
  - unfold top_p_part. fold ps. fold m. rewrite store_at_ok by lia. cbn [mbind outcome_bind]. do 2 f_equal. rewrite Hm. apply list_eq. intros q.
    rewrite list_lookup_fmap. destruct (decide (q < length s)) as [Hlt|Hge].
    + rewrite lookup_seq_lt by done. cbn. destruct (decide (q = length s - 1)) as [->|Hne].
      * rewrite list_lookup_insert_eq by lia. f_equal. symmetry. apply Nat.ltb_ge. lia.
      * rewrite list_lookup_insert_ne, Hq by lia. f_equal. apply Hfle. lia.
    + by rewrite !lookup_ge_None_2 by (rewrite ?length_insert, ?length_seq; lia).
  - destruct t as [|t]; [by left|right]. rewrite Hfle by lia. apply Nat.ltb_lt. lia.
  - intros Hlt. rewrite Hfle by lia. apply Nat.ltb_ge. lia.
Qed.

Lemma lsoftmax_gather idx base : idx ≡ₚ seq 0 (length base) -> lsoftmax (gather None idx base) = gather f0 idx (lsoftmax base).
Proof.
  intros Hp. unfold lsoftmax at 1. rewrite (fsum_perm (lexp <$> gather None idx base) (lexp <$> base)) by (by rewrite (perm_gather None idx base Hp)).
  unfold gather. rewrite <-list_fmap_compose. apply list_fmap_ext. intros q i Hi. apply list_elem_of_lookup_2 in Hi. rewrite Hp in Hi. apply elem_of_seq in Hi.
  destruct (lookup_lt_is_Some_2 base i) as [x Hx]; [lia|]. cbn. rewrite (nth_lookup_Some _ _ _ _ (lsoftmax_lookup _ _ _ Hx)). by rewrite (nth_lookup_Some _ _ _ _ Hx).
Qed.
End keeping.

Section rows.
Context {F : Type} `{OrderedScalar F} `{!SampleOps F} `{!SampleLaws F}.
Add Ring F_ring_rows : ex_ring.
Implicit Types row base : list (option F).

(** A choice of tokens to drop for [p] from the probabilities of a row: the least probable ones, with at most [1 - p]
    together, and as many as that allows, but not all. *)
Record drops_for (p : F) base (dropped : list nat) : Prop := {
  dr_nodup : NoDup dropped;
  dr_range : forall i, i ∈ dropped -> i < length base;
  dr_some : length dropped < length base;
  dr_least : forall i j, i ∈ dropped -> j < length base -> j ∉ dropped -> fle (nth i (lsoftmax base) f0) (nth j (lsoftmax base) f0) = true;
  dr_mass : dropped = [] \/ fle (fsum (gather f0 dropped (lsoftmax base))) (fsub f1 p) = true;
  dr_most : forall j, j < length base -> j ∉ dropped -> S (length dropped) = length base \/
    fle (fadd (fsum (gather f0 dropped (lsoftmax base))) (nth j (lsoftmax base) f0)) (fsub f1 p) = false
}.

Lemma scatter_masked idx t base : idx ≡ₚ seq 0 (length base) ->
  scatter idx (masked_fill ((fun q => q <? t) <$> seq 0 (length base)) (gather None idx base)) (gather None idx base) = without (take t idx) base.
Proof.
  intros Hp. pose proof (Permutation_length Hp) as Hl. rewrite length_seq in Hl. pose proof (length_gather None idx base) as Hg.
  assert (NoDup idx) as Hnd by (rewrite Hp; apply NoDup_seq). apply list_eq. intros i. unfold without. rewrite list_lookup_imap.
  destruct (decide (i < length base)) as [Hi|Hi]; [|by rewrite !lookup_ge_None_2 by (rewrite ?scatter_length; lia)].
  destruct (lookup_lt_is_Some_2 base i Hi) as [x Hx]. rewrite Hx. cbn.
  assert (exists q, idx !! q = Some i) as [q Hq] by (apply list_elem_of_lookup; rewrite Hp; apply elem_of_seq; lia).
  apply lookup_lt_Some in Hq as Hql. apply (scatter_at _ _ _ q); [done|done| |lia].
  unfold masked_fill, gather. rewrite lookup_zip_with, !list_lookup_fmap, lookup_seq_lt, Hq by lia. cbn [fmap option_fmap option_map mbind option_bind Nat.add].
  rewrite (nth_lookup_Some _ _ _ _ Hx). apply (f_equal Some).
  change (match t with 0 => false | S m' => q <=? m' end) with (q <? t). destruct (Nat.ltb_spec q t) as [Hlt|Hge].
  - rewrite decide_True; [done|]. apply list_elem_of_lookup. exists q. by rewrite lookup_take_lt.
  - rewrite decide_False; [done|]. intros [q' [Hq' Hlt]%lookup_take_Some]%list_elem_of_lookup. pose proof (NoDup_lookup _ _ _ _ Hnd Hq Hq'). lia.
Qed.

Lemma prefix_drops p idx base x t : sorts idx base -> Some x ∈ base -> t < length base ->
  (t = 0 \/ fle (fsum (take t (gather f0 idx (lsoftmax base)))) (fsub f1 p) = true) ->
  (S t < length base -> fle (fsum (take (S t) (gather f0 idx (lsoftmax base)))) (fsub f1 p) = false) -> drops_for p base (take t idx).
Proof.
  intros [Hp Hs] Hx Ht Hmass Hmost. pose proof (Permutation_length Hp) as Hl. rewrite length_seq in Hl.
  assert (NoDup idx) as Hnd by (rewrite Hp; apply NoDup_seq). pose proof (exp_sum_pos _ _ Hx) as Hsum.
  assert (forall q i, idx !! q = Some i -> i < length base) as Hrange.
  { intros q i Hi%list_elem_of_lookup_2. rewrite Hp in Hi. apply elem_of_seq in Hi. lia. }
  assert (forall a b i j, a <= b -> idx !! a = Some i -> idx !! b = Some j -> fle (nth i (lsoftmax base) f0) (nth j (lsoftmax base) f0) = true) as Hmono.
  { intros a b i j Hab Hi Hj. pose proof (Hs a b i j Hab Hi Hj) as Hle. destruct (lookup_lt_is_Some_2 base i) as [y Hy]; [eauto|].
    destruct (lookup_lt_is_Some_2 base j) as [z Hz]; [eauto|]. rewrite (nth_lookup_Some _ _ _ _ Hy), (nth_lookup_Some _ _ _ _ Hz) in Hle.
    rewrite (nth_lookup_Some _ _ _ _ (lsoftmax_lookup _ _ _ Hy)), (nth_lookup_Some _ _ _ _ (lsoftmax_lookup _ _ _ Hz)). by apply fdiv_mono, lexp_mono. }
  assert (forall j, j < length base -> j ∉ take t idx -> exists q, t <= q /\ idx !! q = Some j) as Hkept.
  { intros j Hj Hn. assert (exists q, idx !! q = Some j) as [q Hq] by (apply list_elem_of_lookup; rewrite Hp; apply elem_of_seq; lia).
    exists q. split; [|done]. destruct (decide (q < t)); [|lia]. exfalso. apply Hn, list_elem_of_lookup. exists q. by rewrite lookup_take_lt. }
  rewrite !gather_take in Hmass. rewrite gather_take in Hmost. split.
  - apply (NoDup_app (take t idx) (drop t idx)). by rewrite take_drop.
  - intros i (q & [Hq _]%lookup_take_Some)%list_elem_of_lookup. eauto.
  - rewrite length_take. lia.
  - intros i j (q & [Hq Hlt]%lookup_take_Some)%list_elem_of_lookup Hj Hn. destruct (Hkept j Hj Hn) as (q' & Hle & Hq'). apply (Hmono q q'); [lia|done..].
  - destruct Hmass as [->|]; [by left|by right].
  - intros j Hj Hn. rewrite length_take, Nat.min_l by lia. destruct (decide (S t < length base)) as [Hlt|]; [right|left; lia].
    destruct (Hkept j Hj Hn) as (q & Hle & Hq). destruct (lookup_lt_is_Some_2 idx t) as [i Hi]; [lia|].
    pose proof (Hmost Hlt) as Hf. destruct (fle (fadd _ (nth j _ _)) _) eqn:E; [|done]. rewrite <-Hf. symmetry. eapply fle_trans; [|exact E].
    unfold gather. rewrite (take_S_r _ _ _ Hi), fmap_app, fsum_app. apply fle_add_both; [apply fle_refl|]. cbn. rewrite fsum_cons, fsum_nil.
    replace (fadd (nth i (lsoftmax base) f0) f0) with (nth i (lsoftmax base) f0) by ring. by apply (Hmono t q).
Qed.

(** The filter on a row: top-k, and then what top-p drops of the rest. *)
Lemma top_k_top_p_row_spec k p row x : Some x ∈ row -> (forall k', k = Some k' -> 1 <= k' <= Z.of_nat (length row))%Z ->
  exists dropped, top_k_top_p_row k (Some p) row = Ok (without dropped (after_top_k k row)) /\ drops_for p (after_top_k k row) dropped.
Proof.
  intros Hx Hk. destruct (top_k_step k row Hk) as [Hrun Hsort]. destruct (after_top_k_some k row x) as [y Hy]; [intros k' Hk'; by apply Hk in Hk' as []|exact Hx|].
  set (base := after_top_k k row) in *. set (idx := argsort_ascending row) in *.
  assert (Some y ∈ gather None idx base) as Hyg by (by rewrite (perm_gather None idx base (so_perm _ _ Hsort))).
  destruct (top_p_part_ok p _ _ Hyg) as (t & Ht & Hpart & Hmass & Hmost). rewrite (lsoftmax_gather idx base (so_perm _ _ Hsort)) in Hmass, Hmost.
  assert (length (gather None idx base) = length base) as Hl by apply Permutation_length, perm_gather, Hsort. rewrite Hl in *.
  exists (take t idx). split; [|by apply (prefix_drops p idx base y)].
  unfold top_k_top_p_row. fold idx. rewrite Hrun. cbn. rewrite Hpart. cbn. f_equal. rewrite <-scatter_masked by apply Hsort.
  apply (scatter_base _ _ _ _ (length base)); [apply Hsort|unfold masked_fill; rewrite length_zip_with, length_fmap, length_seq, Hl; lia..|done].
Qed.
End rows.

(** * Batches *)

Section batches.
Context {F : Type} `{OrderedScalar F} `{!SampleOps F} `{!SampleLaws F}.
Add Ring F_ring_batches : ex_ring.
Implicit Types row base : list (option F).

(** Rows of the vocabulary's length, none of them minus infinity alone. *)
Definition rows_ok (vocab_size : nat) (logits : list (list (option F))) : Prop :=
  forall i row, logits !! i = Some row -> length row = vocab_size /\ exists x, Some x ∈ row.
Definition ks_ok (vocab_size : nat) (k : list Z) : Prop := Forall (fun k => 1 <= k <= Z.of_nat vocab_size)%Z k.

Lemma entries_lookup {A} n (x : option (list A)) i : i < n -> (forall l, x = Some l -> length l = n) ->
  entries n x !! i = Some (x ≫= fun l => l !! i).
Proof.
  intros Hi Hl. destruct x as [l|]; cbn [entries mbind option_bind].
  - destruct (lookup_lt_is_Some_2 l i) as [y Hy]; [by rewrite (Hl l)|]. by rewrite list_lookup_fmap, Hy.
  - by apply lookup_replicate_2.
Qed.

Lemma entries_length {A} n (x : option (list A)) : (forall l, x = Some l -> length l = n) -> length (entries n x) = n.
Proof. intros Hl. destruct x as [l|]; cbn; [by rewrite length_fmap, (Hl l)|apply length_replicate]. Qed.

(** A map over a batch that succeeds at every row. *)
Lemma mapM_rows_ex {A B} (f : A -> outcome B) (P : A -> B -> Prop) (l : list A) : (forall i x, l !! i = Some x -> exists y, f x = Ok y /\ P x y) ->
  exists r, mapM f l = Ok r /\ Forall2 P l r.
Proof.
  induction l as [|x l IH]; intros Hl; [exists []; split; [done|constructor]|]. destruct (Hl 0 x eq_refl) as (y & Hy & HP).
  destruct IH as (r & Hr & HF); [intros i z Hz; by apply (Hl (S i))|]. exists (y :: r). split; [|by constructor]. cbn [mapM]. rewrite Hy. cbn. by rewrite Hr.
Qed.

Lemma top_k_top_p_batch vocab_size logits k p : rows_ok vocab_size logits -> length p = length logits ->
  (forall l, k = Some l -> length l = length logits /\ ks_ok vocab_size l) ->
  exists res, apply_top_k_top_p (Z.of_nat vocab_size) logits k (Some p) = Ok res /\ length res = length logits /\
    forall i row p', logits !! i = Some row -> p !! i = Some p' -> exists dropped,
      drops_for p' (after_top_k (k ≫= fun l => l !! i) row) dropped /\ res !! i = Some (without dropped (after_top_k (k ≫= fun l => l !! i) row)).
Proof.
  intros Hrows Hp Hk. assert (forall l, k = Some l -> length l = length logits) as Hkl by (intros l Hl; by apply Hk).
  assert (forall l, Some p = Some l -> length l = length logits) as Hpl by (by intros l [= <-]).
  set (z := zip logits (zip (entries (length logits) k) (entries (length logits) (Some p)))).
  assert (forall i row, logits !! i = Some row -> z !! i = Some (row, (k ≫= fun l => l !! i, Some p ≫= fun l => l !! i))) as Hz.
  { intros i row Hrow. apply lookup_lt_Some in Hrow as Hi. unfold z. apply lookup_zip_with_Some. eexists _, _. split; [done|]. split; [done|].
    apply lookup_zip_with_Some. eexists _, _. split; [done|]. split; by apply entries_lookup. }
  assert (length z = length logits) as Hzl by (unfold z; rewrite !length_zip_with, !entries_length by done; lia).
  destruct (mapM_rows_ex (fun '(row, (k, p)) => top_k_top_p_row k p row)
    (fun '(row, (k, p)) r => forall p', p = Some p' -> exists dropped, drops_for p' (after_top_k k row) dropped /\ r = without dropped (after_top_k k row)) z)
    as (res & Hres & HF).
  - intros i x Hx. apply lookup_lt_Some in Hx as Hi. rewrite Hzl in Hi. destruct (lookup_lt_is_Some_2 logits i Hi) as [row Hrow].
    rewrite (Hz i row Hrow) in Hx. injection Hx as <-. destruct (lookup_lt_is_Some_2 p i) as [p' Hp']; [lia|]. cbn [mbind option_bind]. rewrite Hp'.
    destruct (Hrows i row Hrow) as [Hvl [x Hx]].
    destruct (top_k_top_p_row_spec (k ≫= fun l => l !! i) p' row x Hx) as (dropped & Hrun & Hd).
    { intros k' Hk'. destruct k as [l|]; [|done]. destruct (Hk l eq_refl) as [_ Hok]. unfold ks_ok in Hok. rewrite Forall_lookup in Hok. rewrite Hvl. by apply (Hok i). }
    eexists. split; [exact Hrun|]. intros ? [= <-]. eauto.
  - exists res. split; [exact Hres|]. apply Forall2_length in HF as Hrl. split; [lia|]. intros i row p' Hrow Hp'.
    destruct (Forall2_lookup_l _ _ _ _ _ HF (Hz i row Hrow)) as (r & Hr & HP). cbn [mbind option_bind] in HP. rewrite Hp' in HP.
    destruct (HP p' eq_refl) as (dropped & Hd & ->). eauto.
Qed.

(** With [p = 1] only minus infinities are dropped. *)
Lemma drops_for_one base x dropped : Some x ∈ base -> drops_for f1 base dropped -> without dropped base = base.
Proof.
  intros Hx Hd. pose proof (lsoftmax_nonneg _ _ Hx) as Hnn. rewrite Forall_lookup in Hnn. apply list_eq. intros i. unfold without. rewrite list_lookup_imap.
  destruct (base !! i) as [y|] eqn:Hy; [|done]. cbn. destruct (decide (i ∈ dropped)) as [Hi|]; [|done]. f_equal.
  destruct (dr_mass _ _ _ Hd) as [Hnil|Hm]; [rewrite Hnil in Hi; by apply elem_of_nil in Hi|].
  replace (fsub f1 f1) with (f0 : F) in Hm by ring. destruct y as [y|]; [exfalso|done].
  assert (nth i (lsoftmax base) f0 ∈ gather f0 dropped (lsoftmax base)) as Hin by (unfold gather; apply list_elem_of_fmap; eauto).
  assert (fle (nth i (lsoftmax base) f0) f0 = false) as Hpos by (rewrite (lsoftmax_pos _ _ _ Hy) by eauto; done).
  enough (fle (fsum (gather f0 dropped (lsoftmax base))) f0 = false) by congruence.
  eapply fsum_pos; [|exact Hin|exact Hpos]. apply Forall_fmap, Forall_forall. intros j Hj. cbn.
  destruct (lookup_lt_is_Some_2 (lsoftmax base) j) as [z Hz]; [rewrite lsoftmax_length; by apply (dr_range _ _ _ Hd)|].
  rewrite (nth_lookup_Some _ _ _ _ Hz). by apply (Hnn j).
Qed.

Lemma foldl_max_ge l : forall a x, (x = a \/ x ∈ l -> x <= foldl Z.max a l)%Z.
Proof.
  induction l as [|y l IH]; intros a x Hx; cbn; [destruct Hx as [->|Hx]; [lia|by apply elem_of_nil in Hx]|].
  destruct Hx as [->|[->|Hx]%elem_of_cons]; [etransitivity; [|apply IH; by left]; lia..|]. apply IH. by right.
Qed.

Lemma foldl_max_le l : forall a b : Z, (a <= b)%Z -> Forall (fun x => x <= b)%Z l -> (foldl Z.max a l <= b)%Z.
Proof. induction l as [|y l IH]; intros a b Ha Hl; cbn; [done|]. apply Forall_cons_1 in Hl as [Hy Hl]. apply IH; [lia|done]. Qed.

(** Without sorting a whole row: the same as the filter of the row. *)
Lemma top_k_only_batch vocab_size logits k : logits <> [] -> (forall i row, logits !! i = Some row -> length row = vocab_size) ->
  length k = length logits -> ks_ok vocab_size k ->
  apply_top_k_only (Z.of_nat vocab_size) logits k = Ok (zip_with top_k_filter k logits).
Proof.
  intros Hne Hrows Hk Hok. unfold apply_top_k_only. set (no := (fun k => (k =? Z.of_nat vocab_size)%Z) <$> k).
  set (k1 := zip_with (fun (no : bool) k => if no then 1%Z else k) no k). unfold ks_ok in Hok. rewrite Forall_lookup in Hok.
  assert (length no = length k) as Hnl by apply length_fmap. assert (length k1 = length k) as Hk1l by (unfold k1; rewrite length_zip_with; lia).
  assert (forall i kk, k !! i = Some kk -> k1 !! i = Some (if (kk =? Z.of_nat vocab_size)%Z then 1%Z else kk) /\ no !! i = Some (kk =? Z.of_nat vocab_size)%Z) as Hk1.
  { intros i kk Hkk. assert (no !! i = Some (kk =? Z.of_nat vocab_size)%Z) as Hno by (unfold no; by rewrite list_lookup_fmap, Hkk).
    split; [|done]. unfold k1. rewrite lookup_zip_with, Hno, Hkk. done. }
  assert (Forall (fun k => 1 <= k <= Z.of_nat vocab_size)%Z k1) as Hk1ok.
  { apply Forall_lookup. intros i x Hx. destruct (lookup_lt_is_Some_2 k i) as [kk Hkk]; [apply lookup_lt_Some in Hx; lia|].
    destruct (Hk1 i kk Hkk) as [H1' _]. rewrite Hx in H1'. injection H1' as ->. pose proof (Hok i kk Hkk). case_match; lia. }
  assert (exists m, tensor_max k1 = Ok m /\ (m <= Z.of_nat vocab_size)%Z /\ forall i x, k1 !! i = Some x -> (1 <= x <= m)%Z) as (m & Hm & Hmv & Hmax).
  { destruct k1 as [|x l]; [by destruct logits, k|]. eexists. split; [done|]. apply Forall_cons_1 in Hk1ok as [Hx Hl]. split.
    - apply foldl_max_le; [lia|]. eapply Forall_impl; [exact Hl|]. cbn. lia.
    - intros i y Hy. split; [|apply foldl_max_ge; destruct i; [left; by injection Hy|right; by eapply list_elem_of_lookup_2]].
      destruct i as [|i]; [injection Hy as <-; lia|]. rewrite Forall_lookup in Hl. by apply (Hl i). }
  rewrite Hm. cbn [mbind outcome_bind]. apply mapM_each, Forall2_same_length_lookup. split; [rewrite !length_zip_with; lia|].
  intros i [row [kk b]] r Hx Hr. apply lookup_zip_with_Some in Hx as (? & [??] & [= <- <- <-] & Hrow & Hx). apply lookup_zip_with_Some in Hx as (? & ? & [= <- <-] & Hkk & Hb).
  apply lookup_zip_with_Some in Hr as (k0 & row' & -> & Hk0 & Hrow'). rewrite Hrow in Hrow'. injection Hrow' as <-.
  destruct (Hk1 i k0 Hk0) as [H1' H2']. rewrite Hkk in H1'. rewrite Hb in H2'. injection H1' as ->. injection H2' as ->.
  pose proof (Hrows i row Hrow) as Hvl. pose proof (Hmax i _ Hkk) as Hkm. pose proof (Hok i k0 Hk0) as Hk0ok. pose proof (sort_ascending_length row) as Hsl.
  unfold topk_values. rewrite (proj2 (Z.ltb_ge m 0)), (proj2 (Z.ltb_ge (Z.of_nat (length row)) m)) by lia. cbn [orb mbind outcome_bind].
  set (kk := if (k0 =? Z.of_nat vocab_size)%Z then 1%Z else k0) in *.
  destruct (lookup_lt_is_Some_2 (sort_ascending row) (Z.to_nat (Z.of_nat (length row) - kk))) as [bar Hbar]; [lia|].
  unfold gather_at. rewrite (proj2 (Z.ltb_ge (kk - 1) 0)) by lia. rewrite (at_index_ok _ _ bar).
  - cbn [mbind outcome_bind]. f_equal. unfold kk in Hbar. destruct (Z.eqb_spec k0 (Z.of_nat vocab_size)) as [Heq|Hneq].
    + by rewrite mask_below_none, Heq, <-Hvl, top_k_filter_all.
    + apply mask_below_kth; [lia|done].
  - rewrite lookup_take_lt, reverse_lookup by lia. rewrite <-Hbar. f_equal. lia.
Qed.

(** C18: Top-k and top-p on a batch.  Nothing raises.  Every row keeps, of the tokens with fewer than [k] larger logits, all but
    the ones dropped for its [p]: the least probable of them, which have at most [1 - p] of the probability together; any
    other would exceed that, and at least one token stays.  When no request of the batch has a [p] the vocabulary is not
    sorted, but the choice is the same as for a row with [p = 1] in a batch that is sorted: a request does not depend on the others. *)
Theorem top_k_top_p_exact vocab_size logits k p : logits <> [] -> rows_ok vocab_size logits -> length p = length logits ->
  length k = length logits -> ks_ok vocab_size k ->
  apply_top_k_top_p (Z.of_nat vocab_size) logits (Some k) None = Ok (zip_with top_k_filter k logits) /\
  exists res, apply_top_k_top_p (Z.of_nat vocab_size) logits (Some k) (Some p) = Ok res /\ length res = length logits /\
    forall i row k' p', logits !! i = Some row -> k !! i = Some k' -> p !! i = Some p' ->
      (exists dropped, drops_for p' (top_k_filter k' row) dropped /\ res !! i = Some (without dropped (top_k_filter k' row))) /\
      (p' = f1 -> res !! i = Some (top_k_filter k' row)).
Proof.
  intros Hne Hrows Hp Hk Hok. split; [apply top_k_only_batch; [done|by apply Hrows|done..]|].
  destruct (top_k_top_p_batch vocab_size logits (Some k) p Hrows Hp) as (res & Hres & Hl & Hall); [by intros l [= <-]|].
  exists res. split; [done|]. split; [done|]. intros i row kk p' Hrow Hkk Hp'.
  destruct (Hall i row p' Hrow Hp') as (dropped & Hd & Hr). cbn [mbind option_bind] in *. rewrite Hkk in *. cbn [after_top_k] in *.
  split; [eauto|]. intros ->. rewrite Hr. f_equal. destruct (Hrows i row Hrow) as [Hvl [x Hx]]. unfold ks_ok in Hok. rewrite Forall_lookup in Hok.
  pose proof (Hok i kk Hkk). destruct (after_top_k_some (Some kk) row x) as [y Hy]; [by intros ? [= <-]; lia|done|]. by eapply drops_for_one.
Qed.
End batches.

(** * Bad words *)

Section bad_words.
Context {F : Type} `{Scalar F}.
Implicit Types row : list (option F).

(** A word is complete when the tokens so far and the next one end with it. *)
Definition completes (past : list Z) (token : Z) (words : list (list Z)) : Prop := Exists (fun w => w `suffix_of` past ++ [token]) words.
#[global] Instance completes_dec past token words : Decision (completes past token words).
Proof. unfold completes. apply _. Defined.

Definition banned (past : list Z) (words : list (list Z)) row : list (option F) :=
  imap (fun i x => if decide (completes past (Z.of_nat i) words) then None else x) row.

Definition words_ok (vocab_size : nat) (words : list (list Z)) : Prop :=
  Forall (fun w => w <> [] /\ Forall (fun t => 0 <= t < Z.of_nat vocab_size)%Z w) words.

Lemma suffix_snoc (w past : list Z) (t : Z) : w <> [] -> w `suffix_of` past ++ [t] <->
  last w = Some t /\ length w <= length past + 1 /\ take (length w - 1) w = last_n (length w - 1) past.
Proof.
  intros Hne. destruct (exists_last Hne) as (v & u & ->). rewrite last_snoc, length_app, Nat.add_sub. cbn [length]. unfold last_n.
  rewrite take_app_length by done. split.
  - intros [k Hk]. rewrite app_assoc in Hk. apply app_inj_tail in Hk as [-> ->]. split_and!; [done|rewrite length_app; lia|].
    replace (length (k ++ v) - length v) with (length k) by (rewrite length_app; lia). by rewrite drop_app_length.
  - intros ([= ->] & Hl & Hv). exists (take (length past - length v) past). rewrite app_assoc. f_equal.
    rewrite <-(take_drop (length past - length v) past) at 1. by rewrite <-Hv.
Qed.

Lemma ban_ok row (t : Z) : (0 <= t < Z.of_nat (length row))%Z -> ban row t = Ok (<[Z.to_nat t := None]> row).
Proof. intros Ht. unfold ban. rewrite !(proj2 (Z.ltb_ge t 0)) by lia. apply store_at_ok. lia. Qed.

Lemma index_last {A} (l : list A) x : last l = Some x -> index_at l (-1) = Ok x.
Proof.
  intros Hx. rewrite last_lookup in Hx. apply lookup_lt_Some in Hx as Hl. unfold index_at. cbn -[Z.add]. rewrite (proj2 (Z.ltb_ge _ _)) by lia.
  apply at_index_ok. rewrite <-Hx. f_equal. lia.
Qed.

Lemma banned_cons past w words row : banned past (w :: words) row = banned past words (banned past [w] row).
Proof.
  unfold banned. apply list_eq. intros i. rewrite !list_lookup_imap. destruct (row !! i) as [x|]; [|done]. cbn. f_equal.
  assert (completes past (Z.of_nat i) (w :: words) <-> completes past (Z.of_nat i) [w] \/ completes past (Z.of_nat i) words) as Hiff.
  { unfold completes. rewrite !Exists_cons, Exists_nil. tauto. }
  destruct (decide (completes past (Z.of_nat i) words)); [by rewrite decide_True by tauto|].
  destruct (decide (completes past (Z.of_nat i) [w])); [by rewrite decide_True by tauto|by rewrite decide_False by tauto].
Qed.

Lemma single_word past w row t : last w = Some t -> (0 <= t < Z.of_nat (length row))%Z ->
  banned past [w] row = if decide (w `suffix_of` past ++ [t]) then <[Z.to_nat t := None]> row else row.
Proof.
  intros Ht Hr. assert (w <> []) as Hne by (by intros ->). apply list_eq. intros i. unfold banned. rewrite list_lookup_imap.
  assert (completes past (Z.of_nat i) [w] <-> i = Z.to_nat t /\ w `suffix_of` past ++ [t]) as Hiff.
  { unfold completes. rewrite Exists_cons, Exists_nil. split.
    - intros [Hs|[]]. apply (suffix_snoc w past _ Hne) in Hs as Hl. destruct Hl as (Hl & _). rewrite Ht in Hl. injection Hl as ->. by rewrite Nat2Z.id.
    - intros [-> Hs]. left. by rewrite Z2Nat.id by lia. }
  destruct (decide (w `suffix_of` past ++ [t])) as [Hs|Hs].
  - destruct (decide (i = Z.to_nat t)) as [->|Hi].
    + rewrite list_lookup_insert_eq by lia. destruct (lookup_lt_is_Some_2 row (Z.to_nat t)) as [x Hx]; [lia|]. rewrite Hx. cbn. by rewrite decide_True by (by apply Hiff).
    + rewrite list_lookup_insert_ne by done. destruct (row !! i); [|done]. cbn. by rewrite decide_False by (rewrite Hiff; tauto).
  - destruct (row !! i); [|done]. cbn. by rewrite decide_False by (rewrite Hiff; tauto).
Qed.

(** The filter bans exactly the tokens that complete a bad word. *)
Lemma bad_words_exact past words : forall row, words_ok (length row) words -> apply_bad_words_single_batch row words past = Ok (banned past words row).
Proof.
  induction words as [|w words IH]; intros row Hok.
  { cbn. f_equal. unfold banned. symmetry. apply list_eq. intros i. rewrite list_lookup_imap. destruct (row !! i); [|done]. cbn.
    rewrite decide_False; [done|]. unfold completes. intros Hn; by inversion Hn. }
  apply Forall_cons_1 in Hok as [[Hne Hw] Hok]. destruct (exists_last Hne) as (v & t & Hwt). assert (last w = Some t) as Hlast by (by rewrite Hwt, last_snoc).
  assert (0 <= t < Z.of_nat (length row))%Z as Ht by (rewrite Hwt in Hw; apply Forall_app in Hw as [_ Hw]; by apply Forall_cons_1 in Hw as []).
  rewrite banned_cons, (single_word past w row t Hlast Ht). cbn [apply_bad_words_single_batch].
  destruct (Nat.ltb_spec (length past + 1) (length w)) as [Hlong|Hshort].
  { rewrite decide_False; [by apply IH|]. rewrite (suffix_snoc w past t Hne). lia. }
  rewrite (index_last _ _ Hlast). cbn [mbind outcome_bind].
  assert ((if 0 <? length w - 1 then last_n (length w - 1) past else []) = last_n (length w - 1) past) as ->.
  { destruct (Nat.ltb_spec 0 (length w - 1)); [done|]. unfold last_n. by rewrite drop_ge by lia. }
  assert (length (last_n (length w - 1) past) = length (take (length w - 1) w)) as Hlen by (unfold last_n; rewrite length_drop, length_take; lia).
  rewrite Hlen, Nat.eqb_refl. cbn [assert_ mbind outcome_bind].
  assert (w `suffix_of` past ++ [t] <-> last_n (length w - 1) past = take (length w - 1) w) as Hiff.
  { rewrite (suffix_snoc w past t Hne). split; [by intros (_ & _ & ->)|]. intros ->. split_and!; [done|lia|done]. }
  destruct (decide (w `suffix_of` past ++ [t])) as [Hs|Hs].
  - rewrite bool_decide_true by (by apply Hiff). rewrite ban_ok by done. cbn [mbind outcome_bind]. apply IH. by rewrite length_insert.
  - rewrite bool_decide_false by (by rewrite <-Hiff). cbn [mbind outcome_bind]. by apply IH.
Qed.
End bad_words.

(** * Penalties *)

Definition occurrences (t : Z) (tokens : list Z) : nat := length (filter (fun u => u = t) tokens).

Lemma occurrences_cons t u tokens : occurrences t (u :: tokens) = (if decide (u = t) then 1 else 0) + occurrences t tokens.
Proof. unfold occurrences. rewrite filter_cons. by destruct (decide (u = t)). Qed.

Lemma occurrences_app t l k : occurrences t (l ++ k) = occurrences t l + occurrences t k.
Proof. unfold occurrences. by rewrite filter_app, length_app. Qed.

Lemma occurrences_pad (t pad : Z) n : t <> pad -> occurrences t (replicate n pad) = 0.
Proof. intros Hne. induction n as [|n IH]; [done|]. cbn [replicate]. rewrite occurrences_cons, IH, decide_False by done. done. Qed.

Lemma scatter_add_ok tokens : forall counts : list Z, Forall (fun t => 0 <= t < Z.of_nat (length counts))%Z tokens ->
  scatter_add counts tokens = Ok (imap (fun i c => (c + Z.of_nat (occurrences (Z.of_nat i) tokens))%Z) counts).
Proof.
  induction tokens as [|t tokens IH]; intros counts Hok; cbn [scatter_add].
  - f_equal. symmetry. apply list_eq. intros i. rewrite list_lookup_imap. destruct (counts !! i); [|done]. cbn. f_equal. lia.
  - apply Forall_cons_1 in Hok as [Ht Hok]. destruct (lookup_lt_is_Some_2 counts (Z.to_nat t)) as [c Hc]; [lia|].
    unfold gather_at. rewrite (proj2 (Z.ltb_ge t 0)) by lia. rewrite (at_index_ok _ _ _ Hc). cbn [mbind outcome_bind].
    rewrite IH by (by rewrite length_insert). f_equal. apply list_eq. intros i. rewrite !list_lookup_imap.
    destruct (decide (i = Z.to_nat t)) as [->|Hi].
    + rewrite list_lookup_insert_eq, Hc by lia. cbn [fmap option_fmap option_map]. f_equal. rewrite occurrences_cons, decide_True by lia. lia.
    + rewrite list_lookup_insert_ne by done. destruct (counts !! i); [|done]. cbn [fmap option_fmap option_map]. f_equal. rewrite occurrences_cons, decide_False by lia. lia.
Qed.

(** Token ids and the padding of a row. *)
Definition padded_ok (vocab_size : nat) (tokens : list Z) : Prop := Forall (fun t => 0 <= t <= Z.of_nat vocab_size)%Z tokens.

Lemma bin_counts_ok tokens vocab_size : padded_ok vocab_size tokens ->
  get_token_bin_counts_and_mask tokens vocab_size =
    Ok ((fun i => Z.of_nat (occurrences (Z.of_nat i) tokens)) <$> seq 0 vocab_size,
        (fun i => bool_decide (Z.of_nat i ∈ tokens)) <$> seq 0 vocab_size).
Proof.
  intros Hok. unfold get_token_bin_counts_and_mask. rewrite scatter_add_ok.
  - assert (take vocab_size (imap (fun i c => (c + Z.of_nat (occurrences (Z.of_nat i) tokens))%Z) (replicate (vocab_size + 1) 0%Z)) =
      (fun i => Z.of_nat (occurrences (Z.of_nat i) tokens)) <$> seq 0 vocab_size) as Hcounts.
    { apply list_eq. intros i. rewrite list_lookup_fmap. destruct (decide (i < vocab_size)) as [Hi|Hi].
      - rewrite lookup_take_lt, list_lookup_imap, lookup_replicate_2, lookup_seq_lt by lia. done.
      - by rewrite !lookup_ge_None_2 by (rewrite ?length_take, ?length_seq; lia). }
    cbn [mbind outcome_bind]. rewrite Hcounts. do 2 f_equal. rewrite <-list_fmap_compose. apply list_fmap_ext. intros _ i _. cbn.
    unfold occurrences. destruct (bool_decide_reflect (Z.of_nat i ∈ tokens)) as [Hin|Hn].
    + apply Z.ltb_lt. enough (filter (fun u => u = Z.of_nat i) tokens <> []) by (destruct (filter _ _); [done|cbn; lia]).
      intros Hnil. eapply (filter_nil_not_elem_of _ _ _ Hnil); [|exact Hin]. done.
    + apply Z.ltb_ge. enough (filter (fun u => u = Z.of_nat i) tokens = []) as -> by done.
      apply elem_of_nil_inv. by intros u [-> Hu]%list_elem_of_filter.
  - rewrite length_replicate. eapply Forall_impl; [exact Hok|]. cbn. lia.
Qed.

Section penalties.
Context {F : Type} `{Scalar F}.

(** The logit of token [i] with the penalties of its request: the repetition penalty if it is in the prompt or the
    output, then the frequency penalty per occurrence in the output and the presence penalty if there is one. *)
Definition penalized (presence frequency repetition : F) (prompt output : list Z) (i : nat) (x : option F) : option F :=
  let x := repetition_penalty repetition (bool_decide (Z.of_nat i ∈ prompt) || bool_decide (Z.of_nat i ∈ output)) x in
  let x := lsub x (fmul frequency (fofZ (Z.of_nat (occurrences (Z.of_nat i) output)))) in
  lsub x (fmul presence (if bool_decide (Z.of_nat i ∈ output) then f1 else f0)).

(** Padding does not count. *)
Lemma penalties_exact (row : list (option F)) prompt output n m presence frequency repetition :
  let pad := Z.of_nat (length row) in
  Forall (fun t => 0 <= t < pad)%Z prompt -> Forall (fun t => 0 <= t < pad)%Z output ->
  apply_penalties_row row (prompt ++ replicate n pad) (output ++ replicate m pad) presence frequency repetition =
    Ok (imap (penalized presence frequency repetition prompt output) row).
Proof.
  intros pad Hp Ho.
  assert (forall l k, Forall (fun t => 0 <= t < pad)%Z l -> padded_ok (length row) (l ++ replicate k pad)) as Hpad.
  { intros l k Hl. apply Forall_app. split; [eapply Forall_impl; [exact Hl|]; unfold pad; cbn; lia|]. apply Forall_replicate. unfold pad. lia. }
  assert (forall l k (i : nat), i < length row -> bool_decide (Z.of_nat i ∈ l ++ replicate k pad) = bool_decide (Z.of_nat i ∈ l)) as Hmem.
  { intros l k i Hi. apply bool_decide_ext. rewrite elem_of_app, elem_of_replicate. unfold pad. split; [intros [|[]]; [done|lia]|by left]. }
  unfold apply_penalties_row. rewrite !bin_counts_ok by (by apply Hpad). cbn [mbind outcome_bind]. f_equal.
  apply list_eq. intros i. rewrite list_lookup_imap. destruct (decide (i < length row)) as [Hi|Hi].
  - destruct (lookup_lt_is_Some_2 row i Hi) as [x Hx]. rewrite !lookup_zip_with, !list_lookup_fmap, !lookup_seq_lt, Hx by done. cbn.
    rewrite !Hmem by done. unfold penalized. by rewrite occurrences_app, occurrences_pad, Nat.add_0_r by (unfold pad; lia).
  - rewrite (lookup_ge_None_2 row) by lia. apply lookup_ge_None_2. rewrite !length_zip_with. lia.
Qed.
End penalties.

(** * An implementation over the rationals *)

#[local] Existing Instances qc_scalar qc_exact qc_ordered.

(** An increasing positive function in place of the exponential. *)
Definition qc_exp (x : Qc) : Qc := if fle f0 x then (x + 1)%Qc else (1 / (1 - x))%Qc.

Definition order_asc (l : list (option Qc)) (i j : nat) : Prop := lle (nth i l None) (nth j l None) = true.
#[local] Instance order_asc_dec l : RelDecision (order_asc l).
Proof. intros i j. unfold order_asc. apply _. Defined.
Definition qc_argsort_ascending (l : list (option Qc)) : list nat := merge_sort (order_asc l) (seq 0 (length l)).

#[local] Instance qc_sample_ops : SampleOps Qc := { fexp := qc_exp; argsort_ascending := qc_argsort_ascending }.

Lemma qc_inv_lt (a b : Qc) : (0 < a)%Qc -> (a < b)%Qc -> (1 / b < 1 / a)%Qc.
Proof.
  intros Ha Hab. assert (0 < b)%Qc as Hb by (by apply Qclt_trans with a). apply Qclt_not_eq in Ha as Ha0. apply Qclt_not_eq in Hb as Hb0.
  apply (Qcmult_lt_mono_pos_r _ _ (a * b)); [by apply Qcmult_pos_pos|].
  replace (1 / b * (a * b))%Qc with a by (field; congruence). by replace (1 / a * (a * b))%Qc with b by (field; congruence).
Qed.

Lemma qc_below (x : Qc) : fle f0 x = false -> (x < 0)%Qc /\ (1 < 1 - x)%Qc.
Proof.
  intros Hx. assert (x < 0)%Qc as Hlt by (apply Qcnot_le_lt; intros Hle%qc_fle; change (fle f0 x = true) in Hle; congruence).
  split; [done|]. apply (Qcplus_lt_mono_r _ _ (x - 1)). replace (1 + (x - 1))%Qc with x by ring. by replace (1 - x + (x - 1))%Qc with 0%Qc by ring.
Qed.

Lemma qc_zero_lt_one : (0 < 1)%Qc.
Proof. done. Qed.

Lemma qc_exp_lt (x y : Qc) : (x < y)%Qc -> (qc_exp x < qc_exp y)%Qc.
Proof.
  intros Hxy. unfold qc_exp. destruct (fle f0 x) eqn:Ex, (fle f0 y) eqn:Ey.
  - by apply Qcplus_lt_mono_r.
  - exfalso. apply qc_below in Ey as [Hy _]. apply qc_fle in Ex. apply (Qclt_not_le _ _ (Qclt_trans _ _ _ Hxy Hy)). exact Ex.
  - apply qc_below in Ex as [_ Hx]. apply qc_fle in Ey. apply Qclt_le_trans with 1%Qc.
    + pose proof (qc_inv_lt 1 (1 - x) qc_zero_lt_one Hx) as Hi. by replace (1 / 1)%Qc with 1%Qc in Hi by (by apply Qc_is_canon).
    + replace 1%Qc with (0 + 1)%Qc at 1 by ring. by apply Qcplus_le_mono_r.
  - apply qc_below in Ex as [_ Hx]. apply qc_below in Ey as [_ Hy]. apply qc_inv_lt; [by apply Qclt_trans with 1%Qc|].
    apply (Qcplus_lt_mono_r _ _ (x + y - 1)). replace (1 - y + (x + y - 1))%Qc with x by ring. by replace (1 - x + (x + y - 1))%Qc with y by ring.
Qed.

#[local] Instance order_asc_total l : Total (order_asc l).
Proof. intros i j. unfold order_asc. destruct (lle_total (nth i l None) (nth j l None)); auto. Qed.
#[local] Instance order_asc_trans l : Transitive (order_asc l).
Proof. intros i j k. unfold order_asc. apply lle_trans. Qed.

#[local] Instance qc_sample_laws : SampleLaws Qc.
Proof.
  split.
  - intros x. change (fle (qc_exp x) f0 = false). destruct (fle (qc_exp x) f0) eqn:E; [exfalso|done]. apply qc_fle in E. unfold qc_exp in E.
    destruct (fle f0 x) eqn:Ex.
    + apply qc_fle in Ex. eapply Qclt_not_le; [|exact E]. by apply Qcplus_nonneg_pos.
    + apply qc_below in Ex as [_ Hx]. eapply Qclt_not_le; [|exact E]. unfold Qcdiv. apply Qcmult_pos_pos, Qcinv_pos; [done|by apply Qclt_trans with 1%Qc].
  - intros x y. cbn -[fle]. destruct (Qclt_le_dec y x) as [Hlt|Hle].
    + apply Qclt_not_le in Hlt as Hn. apply qc_exp_lt, Qclt_not_le in Hlt.
      destruct (fle (qc_exp x) (qc_exp y)) eqn:E; [by apply qc_fle in E|]. destruct (fle x y) eqn:E'; [by apply qc_fle in E'|done].
    + transitivity true; [|symmetry; by apply qc_fle]. apply qc_fle. apply Qcle_lt_or_eq in Hle as [Hlt| ->]; [by apply Qclt_le_weak, qc_exp_lt|apply Qcle_refl].
  - intros l. apply merge_sort_Permutation.
  - intros l p q i j Hpq Hi Hj. cbn in Hi, Hj. destruct (decide (p = q)) as [->|Hne]; [rewrite Hi in Hj; injection Hj as ->; apply lle_refl|].
    eapply (StronglySorted_app_1_elem_of (order_asc l) (take q (qc_argsort_ascending l)) (drop q (qc_argsort_ascending l))).
    + rewrite take_drop. apply StronglySorted_merge_sort; apply _.
    + apply list_elem_of_lookup. exists p. rewrite lookup_take_lt by lia. done.
    + apply list_elem_of_lookup. exists 0. by rewrite lookup_drop, Nat.add_0_r.
Qed.

Module FilterCases.
#[local] Notation "# z" := (fofZ z%Z : Qc) (at level 1, format "# z").
Definition half : Qc := fdiv #1 #2.
Definition two : list (list (option Qc)) := [[Some #1; Some #3; None; Some #2]; [Some #2; Some #2; Some #0; Some #1]].

Lemma two_ok : rows_ok 4 two.
Proof. intros [|[|i]] row Hrow; [injection Hrow as <-; split; [done|]; exists #1; by left|injection Hrow as <-; split; [done|]; exists #2; by left|done]. Qed.

Lemma top_k_top_p_exact_witness : exists res, apply_top_k_top_p 4 two (Some [2; 3]%Z) (Some [#1; half]) = Ok res /\
  res !! 0 = Some [None; Some #3; None; Some #2].
Proof.
  destruct (top_k_top_p_exact 4 two [2; 3]%Z [#1; half]) as (_ & res & Hres & _ & Hall); [done|apply two_ok|done|done| |].
  - repeat constructor; done.
  - exists res. split; [exact Hres|]. destruct (Hall 0 [Some #1; Some #3; None; Some #2] 2%Z #1 eq_refl eq_refl eq_refl) as [_ Hone].
    rewrite (Hone eq_refl). reflexivity.
Defined.
End FilterCases.
