(* ===== verification/LogitsProcessors.v ===== *)
(** The built-in logits processors: [MinPLogitsProcessor], [LogitBiasLogitsProcessor] and [MinTokensLogitsProcessor] of
    [vllm/v1/sample/logits_processor/builtin.py].

    A processor keeps its state by index of the batch and follows the updates of the batch.  Indices written to a device
    are lists here; the tensor of min-p on the device is a copy of the one on the host, or that one itself.  Output tokens
    are shared with the cached states of requests and are named by the request's id. *)
From stdpp Require Import base gmap list strings.
From Stdlib Require Import ZArith QArith Lia.
From S2P Require Import Prelude NumpyArrays Request BlockTable InputBatch InputBatchFacts BatchSteps ModelRunner BatchReorder ModelRunnerFacts RunnerSteps.
From S2P Require Import RabitqQuant PyTensor SamplerOps.
Open Scope nat_scope.

(** * Min-p *)

Record MinPLogitsProcessor := mkMinP {
  min_p_count : Z;
  min_p_cpu : list Q;
  use_double_tensor : bool;
  min_p_device : list Q;
  (** [self.min_p.shape[0]] *)
  min_p_rows : nat
}.

Definition min_p_init (max_num_reqs : nat) (on_cpu : bool) : MinPLogitsProcessor :=
  mkMinP 0 (replicate max_num_reqs 0%Q) (negb on_cpu) (replicate max_num_reqs 0%Q) 0.

(** [self.min_p] *)
Definition min_p_slice (s : MinPLogitsProcessor) : list Q :=
  take (min_p_rows s) (if use_double_tensor s then min_p_device s else min_p_cpu s).

Definition is_nonzero (q : Q) : bool := negb (Qeq_bool q 0).

(** Count, values and [needs_update] through the loops of [update_state]. *)
Record MinPLoop := mkMinPLoop { lp_count : Z; lp_cpu : list Q; needs_update : bool }.

Definition min_p_added (s : MinPLoop) (a : AddedRequest) : outcome MinPLoop :=
  let min_p := bs_min_p (ad_params a) in
  min_p_before ← at_index (lp_cpu s) (ad_index a);
  if Qeq_bool min_p_before min_p then Ok s
  else
    let count := if is_nonzero min_p && negb (is_nonzero min_p_before) then (lp_count s + 1)%Z
                 else if negb (is_nonzero min_p) && is_nonzero min_p_before then (lp_count s - 1)%Z else lp_count s in
    Ok (mkMinPLoop count (<[ad_index a := min_p]> (lp_cpu s)) true).

Definition min_p_removed (s : MinPLoop) (index : nat) : outcome MinPLoop :=
  x ← at_index (lp_cpu s) index;
  if is_nonzero x then Ok (mkMinPLoop (lp_count s - 1) (<[index := 0%Q]> (lp_cpu s)) (needs_update s)) else Ok s.

Definition min_p_moved (s : MinPLoop) (m : nat * nat * MoveDirectionality) : outcome MinPLoop :=
  let '(adx, bdx, direct) := m in
  min_p_a ← at_index (lp_cpu s) adx; min_p_b ← at_index (lp_cpu s) bdx;
  let s := if Qeq_bool min_p_a min_p_b then s
           else let cpu := <[bdx := min_p_a]> (lp_cpu s) in
                mkMinPLoop (lp_count s) (match direct with SWAP => <[adx := min_p_b]> cpu | UNIDIRECTIONAL => cpu end) true in
  Ok (match direct with
      | SWAP => s
      | UNIDIRECTIONAL => mkMinPLoop (if is_nonzero min_p_b then lp_count s - 1 else lp_count s)%Z
                            (if is_nonzero min_p_a then <[adx := 0%Q]> (lp_cpu s) else lp_cpu s) (needs_update s)
      end).

(** [for x in l: s = f(s, x)] *)
Fixpoint loop {A B} (f : B -> A -> outcome B) (l : list A) (s : B) : outcome B :=
  match l with [] => Ok s | x :: l => s ← f s x; loop f l s end.

Definition min_p_update_state (u : option BatchUpdate) (p : MinPLogitsProcessor) : outcome MinPLogitsProcessor :=
  match u with
  | None => Ok p
  | Some u =>
      s ← loop min_p_added (bu_added u) (mkMinPLoop (min_p_count p) (min_p_cpu p) false);
      s ← if (lp_count s =? 0)%Z then Ok s
          else
            s ← loop min_p_removed (bu_removed u)
                  (mkMinPLoop (lp_count s) (lp_cpu s) (match bu_removed u with [] => needs_update s | _ => true end));
            loop min_p_moved (bu_moved u) s;
      let size := bu_batch_size u in
      if negb (lp_count s =? 0)%Z && (needs_update s || negb (min_p_rows p =? size)) then
        Ok (mkMinP (lp_count s) (lp_cpu s) (use_double_tensor p)
              (if use_double_tensor p then take size (lp_cpu s) ++ drop size (min_p_device p) else min_p_device p) size)
      else Ok (mkMinP (lp_count s) (lp_cpu s) (use_double_tensor p) (min_p_device p) (min_p_rows p))
  end.

(** * Dictionaries *)

Section flag.
Context {T : Type} (new_state : BatchSampling -> list Z -> string -> option T).

(** [process_dict_updates] with its answer.  Entries are true as booleans. *)
Definition added_flag (s : gmap nat T * bool) (a : AddedRequest) : gmap nat T * bool :=
  match new_state (ad_params a) (ad_prompt a) (ad_output a) with
  | Some st => (<[ad_index a := st]> s.1, true)
  | None => (delete (ad_index a) s.1, s.2 || bool_decide (is_Some (s.1 !! ad_index a)))
  end.
Definition removed_flag (s : gmap nat T * bool) (index : nat) : gmap nat T * bool :=
  (delete index s.1, s.2 || bool_decide (is_Some (s.1 !! index))).
Definition moved_flag (s : gmap nat T * bool) (m : nat * nat * MoveDirectionality) : gmap nat T * bool :=
  let '(a, b, direct) := m in
  let a_entry := s.1 !! a in
  let d := delete a s.1 in
  let b_entry := d !! b in
  let d := delete b d in
  let d := match a_entry with Some e => <[b := e]> d | None => d end in
  let d := match b_entry, direct with Some e, SWAP => <[a := e]> d | _, _ => d end in
  (d, s.2 || bool_decide (is_Some a_entry) || bool_decide (is_Some b_entry)).

Definition process_dict_updated (d : gmap nat T) (u : option BatchUpdate) : gmap nat T * bool :=
  match u with
  | None => (d, false)
  | Some u =>
      let s := foldl added_flag (d, false) (bu_added u) in
      if decide (s.1 = ∅) then s else foldl moved_flag (foldl removed_flag s (bu_removed u)) (bu_moved u)
  end.
End flag.

(** ** Logit bias *)

Record LogitBiasLogitsProcessor := mkLogitBias {
  biases : gmap nat (list (Z * Q));
  lb_logits_slice : list (nat * Z);
  bias_tensor : list Q
}.

Definition logit_bias_state (p : BatchSampling) (_ : list Z) (_ : string) : option (list (Z * Q)) :=
  match bs_logit_bias p with [] => None | l => Some l end.

(** The cells of a dictionary's items, in some order of the requests. *)
Definition bias_cells (d : gmap nat (list (Z * Q))) : list ((nat * Z) * Q) :=
  map_to_list d ≫= fun '(req, lb) => (fun '(t, b) => ((req, t), b)) <$> lb.

Definition logit_bias_update_state (u : option BatchUpdate) (p : LogitBiasLogitsProcessor) : LogitBiasLogitsProcessor :=
  let '(d, needs_update) := process_dict_updated logit_bias_state (biases p) u in
  if needs_update : bool then mkLogitBias d (fst <$> bias_cells d) (snd <$> bias_cells d)
  else mkLogitBias d (lb_logits_slice p) (bias_tensor p).

(** ** Min-tokens *)

Record MinTokensLogitsProcessor := mkMinTokens {
  min_toks : gmap nat (nat * string * list Z);
  mt_logits_slice : list (nat * Z)
}.

(** [MinTokensLogitsProcessor.add_request]; [output] are the tokens of a list. *)
Definition min_tokens_state (output : string -> list Z) (p : BatchSampling) (_ : list Z) (output_tok_ids : string) : option (nat * string * list Z) :=
  if (bs_min_tokens p =? 0) || (bs_min_tokens p <=? length (output output_tok_ids)) then None
  else Some (bs_min_tokens p, output_tok_ids, bs_all_stop_token_ids p).

Definition attained (output : string -> list Z) (e : nat * string * list Z) : Prop := e.1.1 <= length (output e.1.2).
#[global] Instance attained_dec output e : Decision (attained output e).
Proof. unfold attained. apply _. Defined.

Definition stop_cells (d : gmap nat (nat * string * list Z)) : list (nat * Z) :=
  map_to_list d ≫= fun '(req, (_, stop_tok_ids)) => (fun t => (req, t)) <$> stop_tok_ids.

Definition min_tokens_update_state (output : string -> list Z) (u : option BatchUpdate) (p : MinTokensLogitsProcessor) : MinTokensLogitsProcessor :=
  let '(d, needs_update) := process_dict_updated (min_tokens_state output) (min_toks p) u in
  let to_remove := filter (fun '(_, e) => attained output e) d in
  let needs_update := needs_update || negb (bool_decide (to_remove = ∅)) in
  let d := filter (fun '(_, e) => ~ attained output e) d in
  mkMinTokens d (if needs_update then stop_cells d else mt_logits_slice p).

(** * Applying them *)

Section apply.
Context {F : Type} `{Scalar F, SampleOps F}.
Variable of_float : Q -> F.

(** [logits[self.logits_slice] += self.bias_tensor] and [logits[self.logits_slice] = -inf], a cell at a time. *)
Definition py_position (n : nat) (i : Z) : nat := Z.to_nat (if (i <? 0)%Z then i + Z.of_nat n else i)%Z.
Definition biased (bias : Q) (x : option F) : option F := match x with Some x => Some (fadd x (of_float bias)) | None => None end.
Definition add_bias (logits : list (list (option F))) (cell : (nat * Z) * Q) : outcome (list (list (option F))) :=
  let '((req, t), bias) := cell in
  row ← at_index logits req; x ← index_at row t;
  Ok (<[req := <[py_position (length row) t := biased bias x]> row]> logits).
Definition logit_bias_apply (p : LogitBiasLogitsProcessor) (logits : list (list (option F))) : outcome (list (list (option F))) :=
  if decide (biases p = ∅) then Ok logits else loop add_bias (zip (lb_logits_slice p) (bias_tensor p)) logits.

Definition ban_cell (logits : list (list (option F))) (cell : nat * Z) : outcome (list (list (option F))) :=
  row ← at_index logits cell.1; row ← ban row cell.2; Ok (<[cell.1 := row]> logits).
Definition min_tokens_apply (p : MinTokensLogitsProcessor) (logits : list (list (option F))) : outcome (list (list (option F))) :=
  if decide (min_toks p = ∅) then Ok logits else loop ban_cell (mt_logits_slice p) logits.

(** [MinPLogitsProcessor.apply] at a row. *)
Definition min_p_row (min_p : Q) (row : list (option F)) : outcome (list (option F)) :=
  let probability_values := lsoftmax row in
  i ← argmax fle probability_values;
  let adjusted_min_p := fmul (nth i probability_values f0) (of_float min_p) in
  Ok (masked_fill ((fun p => negb (fle adjusted_min_p p)) <$> probability_values) row).
Definition min_p_apply (p : MinPLogitsProcessor) (logits : list (list (option F))) : outcome (list (list (option F))) :=
  if (min_p_count p =? 0)%Z then Ok logits else mapM (fun '(row, m) => min_p_row m row) (zip logits (min_p_slice p)).
End apply.

(** * Min-p follows the batch *)


(** What a dictionary would have for a value: nothing for zero. *)
Definition min_p_entry (q : Q) : option Q := if is_nonzero q then Some (Qred q) else None.
Definition min_p_state (p : BatchSampling) (_ : list Z) (_ : string) : option Q := min_p_entry (bs_min_p p).

Lemma Qeq_bool_Qred a b : Qeq_bool a b = true <-> Qred a = Qred b.
Proof. rewrite Qeq_bool_iff. split; [apply Qred_complete|]. intros Hr. by rewrite <-(Qred_correct a), <-(Qred_correct b), Hr. Qed.

Lemma min_p_entry_eq a b : Qeq_bool a b = true -> min_p_entry a = min_p_entry b.
Proof.
  intros Hab. apply Qeq_bool_Qred in Hab as Hr. unfold min_p_entry, is_nonzero. rewrite Hr.
  assert (Qeq_bool a 0 = Qeq_bool b 0) as ->; [|done]. apply Qeq_bool_iff in Hab.
  destruct (Qeq_bool a 0) eqn:Ea, (Qeq_bool b 0) eqn:Eb; try done.
  - apply Qeq_bool_iff in Ea. apply Qeq_bool_neq in Eb. exfalso. apply Eb. by rewrite <-Hab.
  - apply Qeq_bool_iff in Eb. apply Qeq_bool_neq in Ea. exfalso. apply Ea. by rewrite Hab.
Qed.

Lemma min_p_entry_some q : is_Some (min_p_entry q) <-> is_nonzero q = true.
Proof. unfold min_p_entry. destruct (is_nonzero q); [split; [done|by eexists]|split; [by intros []|done]]. Qed.

Lemma min_p_entry_none q : min_p_entry q = None <-> is_nonzero q = false.
Proof. unfold min_p_entry. by destruct (is_nonzero q). Qed.

Definition present {T} (o : option T) : nat := if o is Some _ then 1 else 0.

Lemma size_insert_present {T} (d : gmap nat T) i x : size (<[i := x]> d) = size d + 1 - present (d !! i).
Proof.
  destruct (d !! i) eqn:E; cbn [present].
  - rewrite map_size_insert_Some by eauto. lia.
  - rewrite map_size_insert_None by done. lia.
Qed.

Lemma size_delete_present {T} (d : gmap nat T) i : size (delete i d) = size d - present (d !! i).
Proof.
  destruct (d !! i) eqn:E; cbn [present].
  - rewrite map_size_delete_Some by eauto. lia.
  - rewrite map_size_delete_None by done. lia.
Qed.

Lemma present_size {T} (d : gmap nat T) i : present (d !! i) <= size d.
Proof. destruct (d !! i) eqn:E; cbn [present]; [|lia]. enough (size d <> 0) by lia. rewrite map_size_ne_0_lookup. exists i. by rewrite E. Qed.

(** The values and their count stand for a dictionary. *)
Record shows (n : nat) (s : MinPLoop) (d : gmap nat Q) : Prop := {
  sh_length : length (lp_cpu s) = n;
  sh_entry : forall i, d !! i = lp_cpu s !! i ≫= min_p_entry;
  sh_count : lp_count s = Z.of_nat (size d)
}.

Lemma entry_insert (cpu : list Q) (d : gmap nat Q) i q : i < length cpu -> (forall j, d !! j = cpu !! j ≫= min_p_entry) ->
  forall j, (match min_p_entry q with Some e => <[i := e]> d | None => delete i d end) !! j = <[i := q]> cpu !! j ≫= min_p_entry.
Proof.
  intros Hi Hd j. destruct (decide (i = j)) as [<-|Hne].
  - rewrite list_lookup_insert_eq by done. cbn. destruct (min_p_entry q); [apply lookup_insert_eq|apply lookup_delete_eq].
  - rewrite list_lookup_insert_ne by done. rewrite <-Hd. destruct (min_p_entry q); [by apply lookup_insert_ne|by apply lookup_delete_ne].
Qed.

Lemma process_moved_size {T} (d : gmap nat T) a b direct : a <> b ->
  size (process_moved d (a, b, direct)) = match direct with SWAP => size d | UNIDIRECTIONAL => size d - present (d !! b) end.
Proof.
  intros Hab. unfold process_moved. pose proof (present_size d a) as Ha. pose proof (present_size (delete a d) b) as Hb.
  pose proof (size_delete_present d a) as Hsa. pose proof (size_delete_present (delete a d) b) as Hs. rewrite !lookup_delete_ne in * by done.
  set (d2 := delete b (delete a d)) in *. assert (d2 !! b = None) as Hd2b by apply lookup_delete_eq.
  assert (d2 !! a = None) as Hd2a by (unfold d2; by rewrite lookup_delete_ne, lookup_delete_eq).
  destruct (d !! a) as [x|] eqn:Ea, (d !! b) as [y|] eqn:Eb, direct; cbn [present] in *; rewrite ?size_insert_present, ?lookup_insert_ne, ?Hd2a, ?Hd2b by done;
    cbn [present]; lia.
Qed.

Section min_p.
Variables n rows : nat.

Lemma shows_removed s d i : shows n s d -> i < n -> exists s', min_p_removed s i = Ok s' /\ shows n s' (delete i d) /\ needs_update s' = needs_update s.
Proof.
  intros [Hl He Hc] Hi. destruct (lookup_lt_is_Some_2 (lp_cpu s) i) as [x Hx]; [lia|]. unfold min_p_removed. rewrite (at_index_ok _ _ _ Hx). cbn [mbind outcome_bind].
  pose proof (He i) as Hdi. rewrite Hx in Hdi. cbn in Hdi. destruct (is_nonzero x) eqn:Ex; eexists; (split; [done|]); (split; [|done]).
  - split; cbn [lp_cpu lp_count]; [by rewrite length_insert|exact (entry_insert (lp_cpu s) d i 0%Q ltac:(lia) He)|]. apply min_p_entry_some in Ex as [y Hy]. rewrite Hy in Hdi.
    rewrite size_delete_present, Hdi. pose proof (present_size d i) as Hp. rewrite Hdi in Hp. cbn [present] in *. lia.
  - apply min_p_entry_none in Ex. rewrite Ex in Hdi. rewrite delete_id by done. done.
Qed.

Lemma shows_added s d a : shows n s d -> ad_index a < n -> exists s', min_p_added s a = Ok s' /\ shows n s' (process_added min_p_state d a) /\
  (s' = s \/ needs_update s' = true).
Proof.
  intros [Hl He Hc] Hi. set (i := ad_index a) in *. destruct (lookup_lt_is_Some_2 (lp_cpu s) i) as [x Hx]; [lia|].
  unfold min_p_added, process_added, min_p_state. fold i. rewrite (at_index_ok _ _ _ Hx). cbn [mbind outcome_bind]. set (q := bs_min_p (ad_params a)).
  pose proof (He i) as Hdi. rewrite Hx in Hdi. cbn in Hdi. destruct (Qeq_bool x q) eqn:Eq.
  - exists s. split; [done|]. split; [|by left]. rewrite <-(min_p_entry_eq _ _ Eq). destruct (min_p_entry x); [by rewrite insert_id|by rewrite delete_id].
  - eexists. split; [done|]. split; [|by right]. split; cbn [lp_cpu lp_count]; [by rewrite length_insert|by apply entry_insert; [lia|]|].
    pose proof (present_size d i) as Hp. unfold min_p_entry in *. destruct (is_nonzero q), (is_nonzero x); rewrite ?size_insert_present, ?size_delete_present, Hdi;
      rewrite Hdi in Hp; cbn [present andb negb] in *; lia.
Qed.

(** A move between two indices; one that leaves its source empty starts behind the batch. *)
Definition move_ok (m : nat * nat * MoveDirectionality) : Prop :=
  m.1.1 < n /\ m.1.2 < n /\ m.1.1 <> m.1.2 /\ (m.2 = UNIDIRECTIONAL -> rows <= m.1.1).

Lemma shows_moved s d m : shows n s d -> move_ok m -> exists s', min_p_moved s m = Ok s' /\ shows n s' (process_moved d m) /\
  (needs_update s' = false -> needs_update s = false /\ take rows (lp_cpu s') = take rows (lp_cpu s)).
Proof.
  intros [Hl He Hc] Hm. destruct m as [[a b] direct]. destruct Hm as (Ha & Hb & Hab & Hu). cbn in Ha, Hb, Hab, Hu.
  destruct (lookup_lt_is_Some_2 (lp_cpu s) a) as [x Hx]; [lia|]. destruct (lookup_lt_is_Some_2 (lp_cpu s) b) as [y Hy]; [lia|].
  unfold min_p_moved. rewrite (at_index_ok _ _ _ Hx), (at_index_ok _ _ _ Hy). cbn [mbind outcome_bind]. eexists. split; [done|].
  set (s1 := if Qeq_bool x y then s else _).
  assert (lp_count s1 = lp_count s /\ length (lp_cpu s1) = n /\ (forall j, lp_cpu s1 !! j ≫= min_p_entry =
    if decide (j = b) then d !! a else if decide (j = a) then match direct with SWAP => d !! b | UNIDIRECTIONAL => d !! a end else d !! j) /\
    (needs_update s1 = false -> s1 = s) /\ lp_cpu s1 !! a = Some (match direct with SWAP => default x (lp_cpu s1 !! a) | UNIDIRECTIONAL => x end)) as (Hc1 & Hl1 & He1 & Hn1 & Ha1).
  { assert (forall j, lp_cpu s !! j ≫= min_p_entry = d !! j) as He' by (intros; symmetry; apply He).
    unfold s1. destruct (Qeq_bool x y) eqn:Eq.
    - apply min_p_entry_eq in Eq. split_and!; [done..| |done|by destruct direct; rewrite Hx]. intros j. rewrite He'.
      pose proof (He a) as Hda. pose proof (He b) as Hdb. rewrite Hx in Hda. rewrite Hy in Hdb. cbn in Hda, Hdb. rewrite <-Eq in Hdb.
      repeat case_decide; subst; destruct direct; congruence.
    - split_and!; [done|by destruct direct; cbn; rewrite !length_insert| |done|].
      + intros j. cbn [lp_cpu]. pose proof (He a) as Hda. pose proof (He b) as Hdb. rewrite Hx in Hda. rewrite Hy in Hdb. cbn in Hda, Hdb.
        destruct (decide (j = b)) as [->|Hjb].
        * destruct direct; [|rewrite list_lookup_insert_ne by done]; rewrite list_lookup_insert_eq by lia; by rewrite Hda.
        * destruct (decide (j = a)) as [->|Hja].
          -- destruct direct; [rewrite list_lookup_insert_ne by done; apply He'|]. rewrite list_lookup_insert_eq by (rewrite length_insert; lia). by rewrite Hdb.
          -- destruct direct; rewrite !list_lookup_insert_ne by done; apply He'.
      + cbn [lp_cpu]. destruct direct; [by rewrite list_lookup_insert_ne|]. by rewrite list_lookup_insert_eq by (rewrite length_insert; lia). }
  clearbody s1. pose proof (process_moved_size d a b direct Hab) as Hs. destruct direct.
  - split.
    + split; cbn [lp_cpu lp_count].
      * destruct (is_nonzero x); by rewrite ?length_insert.
      * intros j. rewrite process_moved_lookup. pose proof (He1 j) as Hj. destruct (decide (j = b)) as [->|Hjb]; [|destruct (decide (j = a)) as [->|Hja]].
        -- rewrite <-Hj. destruct (is_nonzero x); [by rewrite list_lookup_insert_ne|done].
        -- destruct (is_nonzero x) eqn:Ex; [by rewrite list_lookup_insert_eq by lia|]. rewrite Ha1. cbn. symmetry. by apply min_p_entry_none.
        -- rewrite <-Hj. destruct (is_nonzero x); [by rewrite list_lookup_insert_ne|done].
      * rewrite Hs, Hc1, Hc. pose proof (He b) as Hdb. rewrite Hy in Hdb. cbn in Hdb. pose proof (present_size d b) as Hp. rewrite Hdb in Hp |- *.
        unfold min_p_entry in *. destruct (is_nonzero y); cbn [present] in *; lia.
    + cbn [needs_update lp_cpu]. intros Hn. apply Hn1 in Hn as Heq. rewrite Heq in *. split; [done|]. destruct (is_nonzero x); [|done]. apply take_insert_ge. by apply Hu.
  - split; [|intros Hn; pose proof (Hn1 Hn); by subst s1]. split; [done| |by rewrite Hs, Hc1].
    intros j. by rewrite process_moved_lookup, He1.
Qed.
End min_p.

Section min_p_update.
Variable n : nat.

(** The processor stands for a dictionary; unless all are zero, its tensor has the values of the batch it was made for. *)
Record min_p_ok (p : MinPLogitsProcessor) (d : gmap nat Q) : Prop := {
  mp_shows : shows n (mkMinPLoop (min_p_count p) (min_p_cpu p) false) d;
  mp_device : length (min_p_device p) = n;
  mp_slice : min_p_count p <> 0%Z -> min_p_slice p = take (min_p_rows p) (min_p_cpu p)
}.

(** Indices are within the arrays. *)
Record update_fits (u : BatchUpdate) : Prop := {
  uf_size : bu_batch_size u <= n;
  uf_added : Forall (fun a => ad_index a < n) (bu_added u);
  uf_removed : Forall (fun i => i < n) (bu_removed u);
  uf_moved : Forall (move_ok n (bu_batch_size u)) (bu_moved u)
}.

Lemma loop_added l : forall s d, shows n s d -> Forall (fun a => ad_index a < n) l ->
  exists s', loop min_p_added l s = Ok s' /\ shows n s' (foldl (process_added min_p_state) d l) /\ (s' = s \/ needs_update s' = true).
Proof.
  induction l as [|a l IH]; intros s d Hs Hl; cbn; [eauto|]. apply Forall_cons_1 in Hl as [Ha Hl].
  destruct (shows_added n s d a Hs Ha) as (s1 & -> & Hs1 & H1). cbn. destruct (IH s1 _ Hs1 Hl) as (s' & -> & Hs' & H2).
  exists s'. split; [done|]. split; [done|]. destruct H2 as [->|]; [done|by right].
Qed.

Lemma loop_removed l : forall s d, shows n s d -> Forall (fun i => i < n) l ->
  exists s', loop min_p_removed l s = Ok s' /\ shows n s' (foldl (fun d i => delete i d) d l) /\ needs_update s' = needs_update s /\ (l = [] -> s' = s).
Proof.
  induction l as [|i l IH]; intros s d Hs Hl; cbn; [eauto|]. apply Forall_cons_1 in Hl as [Hi Hl].
  destruct (shows_removed n s d i Hs Hi) as (s1 & -> & Hs1 & H1). cbn. destruct (IH s1 _ Hs1 Hl) as (s' & -> & Hs' & H2 & _).
  exists s'. split_and!; [done|done|congruence|done].
Qed.

Lemma loop_moved rows l : forall s d, shows n s d -> Forall (move_ok n rows) l ->
  exists s', loop min_p_moved l s = Ok s' /\ shows n s' (foldl process_moved d l) /\
    (needs_update s' = false -> needs_update s = false /\ take rows (lp_cpu s') = take rows (lp_cpu s)).
Proof.
  induction l as [|m l IH]; intros s d Hs Hl; cbn; [eauto|]. apply Forall_cons_1 in Hl as [Hm Hl].
  destruct (shows_moved n rows s d m Hs Hm) as (s1 & -> & Hs1 & H1). cbn. destruct (IH s1 _ Hs1 Hl) as (s' & -> & Hs' & H2).
  exists s'. split; [done|]. split; [done|]. intros Hn. destruct (H2 Hn) as [Hn1 Ht]. destruct (H1 Hn1) as [? ?]. split; [done|congruence].
Qed.

Lemma shows_empty s d : shows n s d -> lp_count s = 0%Z <-> d = ∅.
Proof. intros [_ _ ->]. rewrite <-map_size_empty_iff. lia. Qed.

Lemma shows_flag s d b : shows n s d -> shows n (mkMinPLoop (lp_count s) (lp_cpu s) b) d.
Proof. by intros []. Qed.

(** The loops of an update. *)
Lemma min_p_loops p d u : shows n (mkMinPLoop (min_p_count p) (min_p_cpu p) false) d -> update_fits u -> exists s s',
  loop min_p_added (bu_added u) (mkMinPLoop (min_p_count p) (min_p_cpu p) false) = Ok s /\
  (if (lp_count s =? 0)%Z then Ok s
   else s ← loop min_p_removed (bu_removed u) (mkMinPLoop (lp_count s) (lp_cpu s) (match bu_removed u with [] => needs_update s | _ => true end));
        loop min_p_moved (bu_moved u) s) = Ok s' /\
  shows n s' (process_dict_updates min_p_state d (Some u)) /\
  (lp_count s' <> 0%Z -> needs_update s' = false -> min_p_count p <> 0%Z /\ take (bu_batch_size u) (lp_cpu s') = take (bu_batch_size u) (min_p_cpu p)).
Proof.
  intros Hp [_ Ha Hr Hm]. destruct (loop_added _ _ _ Hp Ha) as (s & Hs & Hsh & Hsn). exists s. unfold process_dict_updates.
  destruct (Z.eqb_spec (lp_count s) 0) as [H0|H0].
  - exists s. split; [done|]. split; [done|]. apply (shows_empty _ _ Hsh) in H0 as He. rewrite decide_True by done. split; [done|]. done.
  - rewrite decide_False by (by rewrite <-(shows_empty _ _ Hsh)).
    destruct (loop_removed (bu_removed u) _ _ (shows_flag _ _ (match bu_removed u with [] => needs_update s | _ => true end) Hsh) Hr) as (s1 & Hs1 & Hsh1 & Hn1 & Hnil).
    rewrite Hs1. cbn [mbind outcome_bind]. destruct (loop_moved _ _ _ _ Hsh1 Hm) as (s' & Hs' & Hsh' & Hn'). exists s'. split_and!; [done..|].
    intros _ Hf. destruct (Hn' Hf) as [Hf1 Ht]. rewrite Hn1 in Hf1. cbn in Hf1. destruct (bu_removed u); [|done].
    destruct Hsn as [->|]; [|congruence]. rewrite (Hnil eq_refl) in Ht. cbn in H0. done.
Qed.

(** C17: The min-p processor follows the batch.  With every update its values are those of the dictionary that the same
    update gives for the min-p of each request, and the count that switches the processor off is their number; unless it is zero, the
    tensor the sampler multiplies with has, for every index of the batch, the min-p of the request there, although it is
    copied to the device only when the update needs it. *)
Theorem min_p_follows p d u : min_p_ok p d -> update_fits u ->
  exists p', min_p_update_state (Some u) p = Ok p' /\ min_p_ok p' (process_dict_updates min_p_state d (Some u)) /\
    min_p_count p' = Z.of_nat (size (process_dict_updates min_p_state d (Some u))) /\
    (min_p_count p' <> 0%Z -> length (min_p_slice p') = bu_batch_size u /\
      forall i, i < bu_batch_size u -> min_p_slice p' !! i ≫= min_p_entry = process_dict_updates min_p_state d (Some u) !! i).
Proof.
  intros [Hp Hdev Hslice] Hu. destruct (min_p_loops p d u Hp Hu) as (s & s' & Hs & Hs' & Hsh & Hn). unfold min_p_update_state. rewrite Hs. cbn [mbind outcome_bind].
  rewrite Hs'. cbn [mbind outcome_bind]. set (d' := process_dict_updates min_p_state d (Some u)) in *. pose proof (uf_size _ Hu) as Hsz. pose proof (sh_length _ _ _ Hsh) as Hlen.
  set (copy := negb (lp_count s' =? 0)%Z && (needs_update s' || negb (min_p_rows p =? bu_batch_size u))).
  enough (exists p', (if copy then Ok (mkMinP (lp_count s') (lp_cpu s') (use_double_tensor p)
    (if use_double_tensor p then take (bu_batch_size u) (lp_cpu s') ++ drop (bu_batch_size u) (min_p_device p) else min_p_device p) (bu_batch_size u))
    else Ok (mkMinP (lp_count s') (lp_cpu s') (use_double_tensor p) (min_p_device p) (min_p_rows p))) = Ok p' /\
    min_p_count p' = lp_count s' /\ min_p_cpu p' = lp_cpu s' /\ length (min_p_device p') = n /\
    (lp_count s' <> 0%Z -> min_p_rows p' = bu_batch_size u /\ min_p_slice p' = take (bu_batch_size u) (lp_cpu s'))) as (p' & -> & Hc & Hcpu & Hd & Hsl).
  { exists p'. split; [done|]. split; [|split].
    - split; [by rewrite Hc, Hcpu; apply (shows_flag s')|done|]. rewrite Hc, Hcpu. intros H0. destruct (Hsl H0) as [-> ->]. done.
    - rewrite Hc. apply Hsh.
    - rewrite Hc. intros H0. destruct (Hsl H0) as [_ ->]. split; [rewrite length_take; lia|]. intros i Hi. rewrite lookup_take_lt by done. symmetry. apply Hsh. }
  destruct copy eqn:Ec; eexists; (split; [done|]); cbn [min_p_count min_p_cpu min_p_device min_p_rows].
  - split_and!; [done..| |].
    + destruct (use_double_tensor p); [|done]. rewrite length_app, length_take, length_drop. lia.
    + intros _. split; [done|]. unfold min_p_slice. cbn. destruct (use_double_tensor p); [|done]. rewrite take_app_le by (rewrite length_take; lia). by rewrite take_take, Nat.min_id.
  - split_and!; [done..|]. intros H0. unfold copy in Ec. rewrite (proj2 (Z.eqb_neq _ _) H0) in Ec. cbn in Ec. apply orb_false_iff in Ec as [Hf Hr].
    apply negb_false_iff, Nat.eqb_eq in Hr. destruct (Hn H0 Hf) as [Hc0 Ht]. split; [done|]. unfold min_p_slice in *. cbn.
    destruct (use_double_tensor p); [|by rewrite Hr]. rewrite Hr in *. rewrite (Hslice Hc0). by rewrite Ht.
Qed.
End min_p_update.

(** * Dictionaries that follow the batch *)

Section flags.
Context {T : Type} (new_state : BatchSampling -> list Z -> string -> option T).

(** The answer covers every change. *)
Definition honest (d : gmap nat T) (s : gmap nat T * bool) : Prop := s.2 = false -> s.1 = d.

Lemma added_flag_ok d s a : honest d s -> (added_flag new_state s a).1 = process_added new_state s.1 a /\ honest d (added_flag new_state s a).
Proof.
  unfold honest, added_flag, process_added. intros Hs. destruct (new_state _ _ _); [done|]. split; [done|]. cbn.
  intros [H1 H2%bool_decide_eq_false]%orb_false_iff. rewrite delete_id by (by apply eq_None_not_Some). auto.
Qed.

Lemma removed_flag_ok d s i : honest d s -> (removed_flag s i).1 = delete i s.1 /\ honest d (removed_flag s i).
Proof.
  unfold honest, removed_flag. intros Hs. split; [done|]. cbn. intros [H1 H2%bool_decide_eq_false]%orb_false_iff. rewrite delete_id by (by apply eq_None_not_Some). auto.
Qed.

Lemma moved_flag_ok d s m : honest d s -> (moved_flag s m).1 = process_moved s.1 m /\ honest d (moved_flag s m).
Proof.
  destruct m as [[a b] direct]. intros Hs. split; [done|]. unfold honest. cbn [moved_flag snd fst].
  intros [[H1 H2%bool_decide_eq_false]%orb_false_iff H3%bool_decide_eq_false]%orb_false_iff. rewrite <-(Hs H1). clear Hs H1.
  apply eq_None_not_Some in H2, H3. rewrite H2, H3. rewrite (delete_id (delete a s.1)) by done. by rewrite delete_id.
Qed.

Lemma foldl_flag {A} (f : gmap nat T * bool -> A -> gmap nat T * bool) (g : gmap nat T -> A -> gmap nat T) d l :
  (forall s x, honest d s -> (f s x).1 = g s.1 x /\ honest d (f s x)) ->
  forall s, honest d s -> (foldl f s l).1 = foldl g s.1 l /\ honest d (foldl f s l).
Proof.
  intros Hf. induction l as [|x l IH]; intros s Hs; [done|]. cbn. destruct (Hf s x Hs) as [<- Hh]. by apply IH.
Qed.

Lemma process_dict_updated_ok d u : (process_dict_updated new_state d u).1 = process_dict_updates new_state d u /\
  ((process_dict_updated new_state d u).2 = false -> process_dict_updates new_state d u = d).
Proof.
  destruct u as [u|]; [|done]. unfold process_dict_updated, process_dict_updates.
  destruct (foldl_flag (added_flag new_state) (process_added new_state) d (bu_added u) (added_flag_ok d) (d, false)) as [Ha Hh]; [done|]. cbn in Ha. rewrite Ha.
  case_decide as He.
  - split; [done|]. intros Hf. rewrite <-Ha. by apply Hh.
  - destruct (foldl_flag removed_flag (fun d i => delete i d) d (bu_removed u) (removed_flag_ok d) _ Hh) as [Hr Hh2].
    destruct (foldl_flag moved_flag process_moved d (bu_moved u) (moved_flag_ok d) _ Hh2) as [Hm Hh3]. rewrite Hm, Hr, Ha. split; [done|].
    intros Hf. apply Hh3 in Hf. by rewrite Hm, Hr, Ha in Hf.
Qed.
End flags.

(** ** Logit bias *)

Definition logit_bias_ok (p : LogitBiasLogitsProcessor) : Prop :=
  lb_logits_slice p = fst <$> bias_cells (biases p) /\ bias_tensor p = snd <$> bias_cells (biases p).

(** The tensors are those of the dictionary, although they are built only when it changes. *)
Lemma logit_bias_update p u : logit_bias_ok p -> logit_bias_ok (logit_bias_update_state u p) /\
  biases (logit_bias_update_state u p) = process_dict_updates logit_bias_state (biases p) u.
Proof.
  intros [Hs Hb]. destruct (process_dict_updated_ok logit_bias_state (biases p) u) as [Hd Hf]. unfold logit_bias_update_state.
  destruct (process_dict_updated _ _ _) as [d [|]]; cbn in *; [by split|]. rewrite Hf in Hd by done. subst d. split; [|symmetry; by apply Hf]. by split.
Qed.

(** ** Min-tokens *)

Definition min_tokens_ok (p : MinTokensLogitsProcessor) : Prop := mt_logits_slice p = stop_cells (min_toks p).

Definition not_attained (output : string -> list Z) (e : nat * string * list Z) : option (nat * string * list Z) :=
  if decide (attained output e) then None else Some e.

Lemma min_tokens_update output p u : min_tokens_ok p -> min_tokens_ok (min_tokens_update_state output u p) /\
  forall i, min_toks (min_tokens_update_state output u p) !! i = process_dict_updates (min_tokens_state output) (min_toks p) u !! i ≫= not_attained output.
Proof.
  intros Hp. destruct (process_dict_updated_ok (min_tokens_state output) (min_toks p) u) as [Hd Hf]. unfold min_tokens_update_state.
  destruct (process_dict_updated _ _ _) as [d b]. cbn in Hd, Hf. subst d. cbn. set (d := process_dict_updates _ _ _) in *. split.
  - unfold min_tokens_ok. cbn. destruct b; [done|]. cbn. destruct (bool_decide_reflect (filter (fun '(_, e) => attained output e) d = ∅)) as [He|]; [|done]. cbn.
    rewrite Hp. f_equal. rewrite <-Hf by done. symmetry. apply map_filter_id. intros i e Hi Ha. pose proof (map_filter_empty_not_lookup _ _ i e He) as Hn. by apply Hn.
  - intros i. unfold not_attained. destruct (d !! i) as [e|] eqn:Hi; cbn.
    + case_decide as Ha.
      * apply map_lookup_filter_None_2. right. intros x Hx. rewrite Hi in Hx. injection Hx as <-. auto.
      * by apply map_lookup_filter_Some_2.
    + apply map_lookup_filter_None_2. by left.
Qed.

(** The cells the processor bans. *)
Lemma ban_cells_ok {F : Type} `{Scalar F} (cells : list (nat * Z)) : forall logits : list (list (option F)),
  (forall c, c ∈ cells -> exists row, logits !! c.1 = Some row /\ (0 <= c.2 < Z.of_nat (length row))%Z) ->
  loop ban_cell cells logits = Ok (imap (fun i row => imap (fun t x => if decide ((i, Z.of_nat t) ∈ cells) then None else x) row) logits).
Proof.
  induction cells as [|[r t] cells IH]; intros logits Hc; cbn [loop].
  - f_equal. apply list_eq. intros i. rewrite list_lookup_imap. destruct (logits !! i) as [row|]; [|done]. cbn. f_equal. apply list_eq. intros j.
    rewrite list_lookup_imap. destruct (row !! j); [|done]. cbn. by rewrite decide_False by apply not_elem_of_nil.
  - destruct (Hc (r, t)) as (row & Hrow & Ht); [by left|]. cbn in Hrow, Ht. change (ban_cell logits (r, t)) with (row ← at_index logits r; row ← ban row t; Ok (<[r := row]> logits)).
    rewrite (at_index_ok _ _ _ Hrow). cbn [mbind outcome_bind].
    rewrite ban_ok by done. cbn [mbind outcome_bind]. pose proof (lookup_lt_Some _ _ _ Hrow) as Hrl. rewrite IH.
    + f_equal. apply list_eq. intros i. rewrite !list_lookup_imap. destruct (decide (r = i)) as [<-|Hri].
      * rewrite list_lookup_insert_eq, Hrow by done. cbn. f_equal. apply list_eq. intros j. rewrite !list_lookup_imap. destruct (decide (j = Z.to_nat t)) as [->|Hj].
        -- rewrite list_lookup_insert_eq by lia. destruct (lookup_lt_is_Some_2 row (Z.to_nat t)) as [x Hx]; [lia|]. rewrite Hx. cbn. rewrite Z2Nat.id by lia.
           rewrite (decide_True (P := (r, t) ∈ (r, t) :: cells)) by (by left). by case_decide.
        -- rewrite list_lookup_insert_ne by done. destruct (row !! j); [|done]. cbn. f_equal.
           assert ((r, Z.of_nat j) ∈ (r, t) :: cells <-> (r, Z.of_nat j) ∈ cells) as Hiff by (rewrite elem_of_cons; split; [intros [[= Hz]|]; [lia|done]|by right]).
           repeat case_decide; tauto.
      * rewrite list_lookup_insert_ne by done. destruct (logits !! i) as [row'|]; [|done]. cbn. f_equal. apply list_eq. intros j. rewrite !list_lookup_imap.
        destruct (row' !! j); [|done]. cbn. f_equal.
        assert ((i, Z.of_nat j) ∈ (r, t) :: cells <-> (i, Z.of_nat j) ∈ cells) as Hiff by (rewrite elem_of_cons; split; [intros [[= Hz]|]; [by subst|done]|by right]).
        repeat case_decide; tauto.
    + intros c Hin. destruct (Hc c) as (row' & Hrow' & Ht'); [by right|]. destruct (decide (r = c.1)) as [->|].
      * eexists. split; [by apply list_lookup_insert_eq|]. rewrite length_insert. rewrite Hrow in Hrow'. by injection Hrow' as ->.
      * exists row'. by rewrite list_lookup_insert_ne.
Qed.

Lemma stop_cells_elem d i t : (i, t) ∈ stop_cells d <-> exists m id stops, d !! i = Some (m, id, stops) /\ t ∈ stops.
Proof.
  unfold stop_cells. rewrite list_elem_of_bind. split.
  - intros ([j [[m id] stops]] & Hin & Hj). apply list_elem_of_fmap in Hin as (t' & [= <- <-] & Ht). apply elem_of_map_to_list in Hj. eauto.
  - intros (m & id & stops & Hi & Ht). exists (i, (m, id, stops)). split; [apply list_elem_of_fmap; eauto|by apply elem_of_map_to_list].
Qed.

(** * Min-tokens in a step of the worker *)

(** The output tokens of the cached states, and what the processor has to keep of a request. *)
Definition outputs_of (rs : gmap string CachedRequestState) (id : string) : list Z :=
  match rs !! id with Some r => cs_output_token_ids r | None => [] end.
Definition min_tokens_entry (output : string -> list Z) (rs : gmap string CachedRequestState) (id : string) : option (nat * string * list Z) :=
  r ← rs !! id; p ← cs_sampling_params r; min_tokens_state output p [] id.

(** The entries are those of the requests at their indices, for outputs that may have grown since. *)
Definition min_tokens_behind (p : MinTokensLogitsProcessor) (w : GPUModelRunner) : Prop :=
  exists old, (forall id, length (old id) <= length (outputs_of (rn_requests w) id)) /\
    forall i, min_toks p !! i = _req_ids (input_batch w) !! i ≫= fun o => o ≫= min_tokens_entry old (rn_requests w).

(** The request may not end yet, and not with these tokens. *)
Definition must_go_on (rs : gmap string CachedRequestState) (id : string) (token : Z) : Prop :=
  exists r p, rs !! id = Some r /\ cs_sampling_params r = Some p /\ length (cs_output_token_ids r) < bs_min_tokens p /\ token ∈ bs_all_stop_token_ids p.

Lemma min_tokens_state_later old output p prompt id : length (old id) <= length (output id) ->
  min_tokens_state old p prompt id ≫= not_attained output = min_tokens_state output p prompt id.
Proof.
  intros Hl. unfold min_tokens_state. destruct (Nat.eqb_spec (bs_min_tokens p) 0); [done|]. cbn.
  destruct (Nat.leb_spec (bs_min_tokens p) (length (old id))) as [Ho|Ho]; cbn.
  - by rewrite (proj2 (Nat.leb_le _ _)) by lia.
  - unfold not_attained. destruct (Nat.leb_spec (bs_min_tokens p) (length (output id))) as [Hn|Hn].
    + by rewrite decide_True by (unfold attained; done).
    + rewrite decide_False; [done|]. unfold attained. cbn. lia.
Qed.

Lemma min_tokens_entry_later old output rs id : length (old id) <= length (output id) ->
  min_tokens_entry old rs id ≫= not_attained output = min_tokens_entry output rs id.
Proof.
  intros Hl. unfold min_tokens_entry. destruct (rs !! id) as [r|]; [|done]. cbn. destruct (cs_sampling_params r) as [p|]; [|done]. cbn.
  by apply min_tokens_state_later.
Qed.

Lemma min_tokens_entry_some rs id e : min_tokens_entry (outputs_of rs) rs id = Some e <->
  exists r p, rs !! id = Some r /\ cs_sampling_params r = Some p /\ length (cs_output_token_ids r) < bs_min_tokens p /\ e = (bs_min_tokens p, id, bs_all_stop_token_ids p).
Proof.
  unfold min_tokens_entry, min_tokens_state, outputs_of. destruct (rs !! id) as [r|] eqn:Hr; cbn; [|split; [done|by intros (? & ? & ? & _)]].
  destruct (cs_sampling_params r) as [p|] eqn:Hp; cbn; [|split; [done|intros (? & ? & [= <-] & ? & _); congruence]].
  destruct (Nat.eqb_spec (bs_min_tokens p) 0) as [H0|H0], (Nat.leb_spec (bs_min_tokens p) (length (cs_output_token_ids r))) as [Hl|Hl]; cbn.
  all: split; [try done; try (intros [= <-]; exists r, p; split_and!; done || lia)|intros (r' & p' & [= <-] & Hp' & Hlt & ->); rewrite Hp in Hp'; injection Hp' as <-; done || lia].
Qed.

(** The batch after a step has an entry where the processor keeps it, and no other. *)
Lemma min_tokens_step (order : gset string -> list string) has_groups dcp threshold s w p :
  (forall l x, x ∈ order l <-> x ∈ l) -> reorder_ok dcp threshold -> runner_ok ∅ w -> step_ok s w -> min_tokens_behind p w ->
  exists u w', update_states order true has_groups dcp threshold s w = (Ok u, w') /\
    forall i, process_dict_updates (min_tokens_state (outputs_of (rn_requests w'))) (min_toks p) u !! i ≫= not_attained (outputs_of (rn_requests w')) =
      _req_ids (input_batch w') !! i ≫= fun o => o ≫= min_tokens_entry (outputs_of (rn_requests w')) (rn_requests w').
Proof.
  intros Ho Hr Hw Hs (old & Hold & Hd). destruct (wp_noexc_run _ _ _ (wp_update_states order Ho has_groups dcp threshold Hr s w Hw Hs))
    as (u & w' & Hrun & drafts & H1 & _ & H3 & _ & H5 & _ & Htracks). exists u, w'. split; [done|]. intros i.
  set (out := outputs_of (rn_requests w')). rewrite (Htracks _ (min_tokens_state out) (min_toks p) (min_tokens_entry old (rn_requests w))).
  2:{ split; rewrite (ro_builder _ _ Hw); [exact Hd|]. by intros m ?%elem_of_nil. }
  destruct (_req_ids (input_batch w') !! i) as [[id|]|] eqn:Hi; [|done..]. cbn. unfold ent_after. case_decide as Hadd.
  - destruct (rn_requests w' !! id) as [r|] eqn:Hrid; cbn; [|unfold min_tokens_entry; by rewrite Hrid]. unfold min_tokens_entry. rewrite Hrid. cbn.
    destruct (cs_sampling_params r) as [q|]; [|done]. cbn. change (min_tokens_state out q (cs_prompt_token_ids r) id) with (min_tokens_state out q [] id).
    by apply min_tokens_state_later.
  - assert (id ∈ dom (num_scheduled_tokens s)) as Hid.
    { rewrite <-H5, batch_map_dom by apply (ok_core _ (ro_batch _ _ H1)). apply elem_of_dom. exists i. by apply (oc_index _ (ok_core _ (ro_batch _ _ H1))). }
    assert (id ∈ cached_ids_of s) as (q & -> & Hq)%list_elem_of_fmap.
    { pose proof Hid as Hid'. rewrite (st_scheduled _ _ Hs), elem_of_list_to_set, elem_of_app in Hid'. destruct Hid' as [Hn|]; [|done].
      exfalso. apply Hadd, (added_elem s w Hs). split; [done|]. apply list_elem_of_fmap in Hn as (q & -> & Hq). by apply (st_new _ _ Hs). }
    destruct (st_cached _ _ Hs q Hq) as (_ & r & Hrq & _). pose proof (sa_cached _ _ _ H3 q r Hq Hrq) as Hrq'.
    assert (min_tokens_entry old (rn_requests w) (cq_req_id q) = min_tokens_entry old (rn_requests w') (cq_req_id q)) as ->.
    { unfold min_tokens_entry. by rewrite Hrq, Hrq'. }
    apply min_tokens_entry_later. etransitivity; [apply Hold|]. unfold out, outputs_of. by rewrite Hrq, Hrq'.
Qed.

(** C16: No request ends before [min_tokens].  Through [_update_states] with the updates of the batch, whatever requests are removed,
    added, moved and swapped, the processor keeps exactly the requests of the batch with fewer output tokens than they ask for, at their
    indices; applied to logits with a row per request it sets to minus infinity exactly their stop tokens and changes nothing else. *)
Theorem min_tokens_enforced {F : Type} `{Scalar F} (order : gset string -> list string) has_groups dcp threshold s w p (logits : list (list (option F))) :
  (forall l x, x ∈ order l <-> x ∈ l) -> reorder_ok dcp threshold -> runner_ok ∅ w -> step_ok s w -> min_tokens_behind p w -> min_tokens_ok p ->
  exists u w', update_states order true has_groups dcp threshold s w = (Ok u, w') /\
    let p' := min_tokens_update_state (outputs_of (rn_requests w')) u p in
    min_tokens_behind p' w' /\ min_tokens_ok p' /\
    ((forall i id t, _req_ids (input_batch w') !! i = Some (Some id) -> must_go_on (rn_requests w') id t ->
        exists row, logits !! i = Some row /\ (0 <= t < Z.of_nat (length row))%Z) ->
     exists logits', min_tokens_apply p' logits = Ok logits' /\ length logits' = length logits /\
      forall i id row, _req_ids (input_batch w') !! i = Some (Some id) -> logits !! i = Some row -> exists row', logits' !! i = Some row' /\ length row' = length row /\
        forall t x, row !! t = Some x -> (must_go_on (rn_requests w') id (Z.of_nat t) -> row' !! t = Some None) /\
          (~ must_go_on (rn_requests w') id (Z.of_nat t) -> row' !! t = Some x)).
Proof.
  intros Ho Hr Hw Hs Hb Hp. destruct (min_tokens_step order has_groups dcp threshold s w p Ho Hr Hw Hs Hb) as (u & w' & Hrun & Hstep).
  exists u, w'. split; [done|]. set (out := outputs_of (rn_requests w')) in *. intros p'.
  destruct (min_tokens_update out p u Hp) as [Hok Hent]. fold p' in Hok, Hent.
  assert (forall i, min_toks p' !! i = _req_ids (input_batch w') !! i ≫= fun o => o ≫= min_tokens_entry out (rn_requests w')) as Hfollow by (intros; by rewrite Hent).
  split; [exists out; split; [done|exact Hfollow]|]. split; [done|]. intros Hvocab.
  assert (forall i t, (i, t) ∈ stop_cells (min_toks p') <-> exists id, _req_ids (input_batch w') !! i = Some (Some id) /\ must_go_on (rn_requests w') id t) as Hcells.
  { intros i t. rewrite stop_cells_elem. split.
    - intros (m & id & stops & Hi & Ht). rewrite Hfollow in Hi. destruct (_req_ids (input_batch w') !! i) as [[id'|]|] eqn:Hii; [|done..]. cbn in Hi.
      apply min_tokens_entry_some in Hi as (r & q & Hrr & Hq & Hlt & [= -> -> ->]). exists id'. split; [done|]. exists r, q. done.
    - intros (id & Hi & r & q & Hrr & Hq & Hlt & Ht). exists (bs_min_tokens q), id, (bs_all_stop_token_ids q). split; [|done]. rewrite Hfollow, Hi. cbn.
      apply min_tokens_entry_some. eauto 6. }
  assert (min_tokens_apply p' logits = Ok (imap (fun i row => imap (fun t x => if decide ((i, Z.of_nat t) ∈ stop_cells (min_toks p')) then None else x) row) logits)) as Happ.
  { unfold min_tokens_apply. rewrite Hok. case_decide as He.
    - rewrite He. f_equal. symmetry. apply list_eq. intros i. rewrite list_lookup_imap. destruct (logits !! i) as [row|]; [|done]. cbn. f_equal. apply list_eq. intros j.
      rewrite list_lookup_imap. by destruct (row !! j).
    - apply ban_cells_ok. intros [i t] (id & Hi & Hgo)%Hcells. by apply (Hvocab i id t). }
  eexists. split; [exact Happ|]. split; [apply length_imap|]. intros i id row Hi Hrow. rewrite list_lookup_imap, Hrow. cbn. eexists. split; [done|].
  split; [apply length_imap|]. intros t x Hx. rewrite list_lookup_imap, Hx. cbn. split; intros Hgo.
  - rewrite decide_True; [done|]. apply Hcells. eauto.
  - rewrite decide_False; [done|]. intros (id' & Hi' & Hgo')%Hcells. rewrite Hi in Hi'. injection Hi' as ->. done.
Qed.

(** Recording sampled tokens leaves the processor behind, not wrong. *)
Lemma min_tokens_recorded p w w' took : min_tokens_behind p w -> _req_ids (input_batch w') = _req_ids (input_batch w) ->
  (forall id, rn_requests w' !! id = with_outputs (took id) <$> rn_requests w !! id) -> min_tokens_behind p w'.
Proof.
  intros (old & Hold & Hd) Hids Hrs. exists old. split.
  - intros id. etransitivity; [apply Hold|]. unfold outputs_of. rewrite Hrs. destruct (rn_requests w !! id) as [r|]; [|done]. cbn. rewrite length_app. lia.
  - intros i. rewrite Hd, Hids. destruct (_req_ids (input_batch w) !! i) as [[id|]|]; [|done..]. cbn. unfold min_tokens_entry. rewrite Hrs. by destruct (rn_requests w !! id).
Qed.

(** * Examples *)

Module ProcessorCases.
#[local] Existing Instance qc_scalar.
Import WorkerCases.

(** One request has min-p; it moves from index 2 to the place of a removed one. *)
Definition min_p_before : MinPLogitsProcessor := mkMinP 2 [(1 # 2)%Q; 0%Q; (1 # 4)%Q] true [(1 # 2)%Q; 0%Q; (1 # 4)%Q] 3.
Definition min_p_dict : gmap nat Q := {[0 := (1 # 2)%Q; 2 := (1 # 4)%Q]}.
Definition one_gone : BatchUpdate := mkBatchUpdate 2 [0] [] [(2, 0, UNIDIRECTIONAL)].

Lemma min_p_before_ok : min_p_ok 3 min_p_before min_p_dict.
Proof. split; [split; [done| |done]|done|done]. intros [|[|[|i]]]; [done..|]. unfold min_p_dict.
  rewrite lookup_insert_ne, lookup_singleton_ne by done. done. Qed.

Lemma min_p_follows_witness : exists p', min_p_update_state (Some one_gone) min_p_before = Ok p' /\ min_p_count p' = 1%Z /\
  min_p_slice p' !! 0 ≫= min_p_entry = Some (1 # 4)%Q /\ min_p_slice p' !! 1 ≫= min_p_entry = None.
Proof.
  destruct (min_p_follows 3 min_p_before min_p_dict one_gone) as (p' & Hrun & _ & Hc & Hs); [apply min_p_before_ok|split; cbn; [lia|constructor|repeat constructor|]|].
  - repeat constructor; cbn; lia.
  - exists p'. split; [exact Hrun|]. assert (min_p_count p' = 1%Z) as H1 by exact Hc. split; [exact H1|]. destruct Hs as [_ Hs]; [by rewrite H1|].
    split; [exact (Hs 0 ltac:(cbn; lia))|exact (Hs 1 ltac:(cbn; lia))].
Defined.

(** A request that must not stop with token 2 before it has two tokens. *)
Definition patient : BatchSampling := mkBatchSampling true 0 1 0 0 0 1 0 None None [] [] [] 2 [2%Z].
Definition first_step : StepInput :=
  mkStepInput [mkNewReq "a" [1; 2; 3]%Z (Some patient) None None [[4; 5]%Z] 0 None] [] {["a" := 3]} ∅ ∅ [].
Definition after_first : GPUModelRunner := (update first_step w0).2.

Lemma first_step_ok : step_ok first_step w0.
Proof.
  split.
  - intros q ->%list_elem_of_singleton. split; [|by vm_compute].
    split; [done|eexists; split; [done|apply Forall_nil_2]|vm_compute; lia|repeat constructor; vm_compute; lia].
  - apply (bool_decide_unpack _). by vm_compute.
  - by intros q ?%elem_of_nil.
  - by vm_compute.
  - vm_compute. lia.
Qed.

Definition no_tokens_yet : MinTokensLogitsProcessor := mkMinTokens ∅ [].
Lemma behind_at_start : min_tokens_behind no_tokens_yet w0.
Proof. exists (fun _ => []). split; [intros; cbn; lia|]. by intros i. Qed.

Lemma patient_goes_on : must_go_on (rn_requests after_first) "a" 2.
Proof.
  exists (mkCachedState "a" [1; 2; 3]%Z (Some patient) None None [[4; 5]%Z] 0 [] None), patient. split; [by vm_compute|]. split; [done|]. split; [cbn; lia|by left].
Qed.

Lemma min_tokens_enforced_witness : exists u logits' row', update first_step w0 = (Ok u, after_first) /\
  min_tokens_apply (min_tokens_update_state (outputs_of (rn_requests after_first)) u no_tokens_yet) [[Some f1; Some f0; Some f1 : option Qcanon.Qc]] = Ok logits' /\
  logits' !! 0 = Some row' /\ row' !! 2 = Some None.
Proof.
  destruct (min_tokens_enforced order true 1 (Some 1) first_step w0 no_tokens_yet [[Some f1; Some f0; Some f1 : option Qcanon.Qc]] order_elem reorder_one
    (worker_init_ok _ _ _ _ _ _ _ _ _ _) first_step_ok behind_at_start eq_refl) as (u & w' & Hrun & _ & _ & Happ).
  assert (w' = after_first) as -> by (unfold after_first, update; by rewrite Hrun). exists u.
  assert (_req_ids (input_batch after_first) = [Some "a"%string]) as Hids by (vm_compute; reflexivity).
  destruct Happ as (logits' & Hl & _ & Hrows).
  { rewrite Hids. intros [|i] id t [= <-] (r & p & Hr & Hp & _ & Ht). eexists. split; [reflexivity|]. vm_compute in Hr. injection Hr as <-. injection Hp as <-.
    apply list_elem_of_singleton in Ht as ->. cbn. lia. }
  exists logits'. destruct (Hrows 0 "a"%string [Some f1; Some f0; Some f1]) as (row' & Hrow & _ & Hban); [by rewrite Hids|reflexivity|].
  exists row'. split; [exact Hrun|]. split; [exact Hl|]. split; [exact Hrow|]. destruct (Hban 2 (Some f1) eq_refl) as [Hb _]. exact (Hb patient_goes_on).
Defined.
End ProcessorCases.
