(* ===== verification/Sampler.v ===== *)
(** The sampler: [Sampler] of [vllm/v1/sample/sampler.py], with [forward_native] and [random_sample] of
    [vllm/v1/sample/ops/topk_topp_sampler.py] and the metadata of [vllm/v1/sample/metadata.py].

    Log probabilities and custom logits processors are left out.  The exponential variables of a step are arguments.  A
    greedy request has a negative temperature; in a mixed batch its row is divided by it and sampled from as well, and
    the result is thrown away, so that what becomes of minus infinity there does not matter. *)
From stdpp Require Import base gmap list strings.
From Stdlib Require Import ZArith QArith Qcanon Lia Ring.
From S2P Require Import Prelude NumpyArrays Request BlockTable InputBatch ModelRunner RabitqQuant PyTensor SamplerOps LogitsProcessors.
Open Scope nat_scope.

(** The processors of [LogitsProcessors], by whether they can change the largest logit. *)
Record LogitsProcs := mkProcs {
  lp_min_tokens : MinTokensLogitsProcessor;
  lp_logit_bias : LogitBiasLogitsProcessor;
  lp_min_p : MinPLogitsProcessor
}.

Record SamplingMetadata (F : Type) := mkSampling {
  sm_temperature : option (list F);
  sm_all_greedy : bool;
  sm_all_random : bool;
  sm_top_p : option (list F);
  sm_top_k : option (list Z);
  (** The values a request's generator gives, for the requests that have one. *)
  sm_generators : list (nat * list F);
  sm_no_penalties : bool;
  sm_prompt_token_ids : option (list (list Z));
  sm_frequency_penalties : list F;
  sm_presence_penalties : list F;
  sm_repetition_penalties : list F;
  sm_output_token_ids : list (list Z);
  sm_allowed_token_ids_mask : option (list (list bool));
  sm_bad_words_token_ids : list (nat * list (list Z));
  sm_logitsprocs : LogitsProcs
}.
Arguments sm_temperature {F}. Arguments sm_all_greedy {F}. Arguments sm_all_random {F}. Arguments sm_top_p {F}.
Arguments sm_top_k {F}. Arguments sm_generators {F}. Arguments sm_no_penalties {F}. Arguments sm_prompt_token_ids {F}. Arguments sm_frequency_penalties {F}.
Arguments sm_presence_penalties {F}. Arguments sm_repetition_penalties {F}. Arguments sm_output_token_ids {F}.
Arguments sm_allowed_token_ids_mask {F}. Arguments sm_bad_words_token_ids {F}. Arguments sm_logitsprocs {F}.

Section sampler.
Context {F : Type} `{Scalar F, SampleOps F}.
Variable of_float : Q -> F.
(** [_SAMPLING_EPS = 1e-5] *)
Definition SAMPLING_EPS : F := flit 1 (-5).

Definition apply_allowed_token_ids (sm : SamplingMetadata F) (logits : list (list (option F))) : list (list (option F)) :=
  match sm_allowed_token_ids_mask sm with Some mask => zip_with masked_fill mask logits | None => logits end.

Definition sampler_bad_words (sm : SamplingMetadata F) (logits : list (list (option F))) : outcome (list (list (option F))) :=
  match sm_bad_words_token_ids sm with [] => Ok logits | words => apply_bad_words logits words (sm_output_token_ids sm) end.

Definition sampler_penalties (vocab_size : nat) (sm : SamplingMetadata F) (logits : list (list (option F))) : outcome (list (list (option F))) :=
  if sm_no_penalties sm then Ok logits
  else match sm_prompt_token_ids sm with
       | None => Raise AssertionError
       | Some prompts => apply_all_penalties vocab_size logits prompts (sm_presence_penalties sm) (sm_frequency_penalties sm)
                           (sm_repetition_penalties sm) (sm_output_token_ids sm)
       end.

(** [forward] up to [sample]: the logits that tokens are chosen from. *)
Definition process_logits (vocab_size : nat) (sm : SamplingMetadata F) (logits : list (list (option F))) : outcome (list (list (option F))) :=
  let logits := apply_allowed_token_ids sm logits in
  logits ← sampler_bad_words sm logits;
  logits ← min_tokens_apply (lp_min_tokens (sm_logitsprocs sm)) logits;
  logits ← logit_bias_apply of_float (lp_logit_bias (sm_logitsprocs sm)) logits;
  sampler_penalties vocab_size sm logits.

Definition greedy_sample (logits : list (list (option F))) : outcome (list nat) := mapM (argmax lle) logits.

Definition apply_temperature (logits : list (list (option F))) (temp : list F) : list (list (option F)) :=
  zip_with (fun (row : list (option F)) t => (fun x : option F => match x with Some x => Some (fdiv x t) | None => None end) <$> row) logits temp.

(** [random_sample]: the exponential variables [q] are drawn for the whole batch unless every request has a generator, and
    then for the requests with one from theirs; [empty] is what the memory held, [batch] what [exponential_] draws. *)
Fixpoint own_draws (q : list (list F)) (generators : list (nat * list F)) : outcome (list (list F)) :=
  match generators with
  | [] => Ok q
  | (i, draw) :: generators => q ← store_at q i draw; own_draws q generators
  end.
Definition random_sample (empty batch : list (list F)) (probs : list (list F)) (generators : list (nat * list F)) : outcome (list nat) :=
  q ← own_draws (if negb (length generators =? length probs) then batch else empty) generators;
  mapM (fun '(p, q) => argmax fle (zip_with fdiv p q)) (zip probs q).

(** [TopKTopPSampler.forward_native] *)
Definition forward_native (vocab_size : nat) (empty batch : list (list F)) (logits : list (list (option F))) (generators : list (nat * list F))
    (k : option (list Z)) (p : option (list F)) : outcome (list nat) :=
  logits ← apply_top_k_top_p (Z.of_nat vocab_size) logits k p;
  random_sample empty batch (lsoftmax <$> logits) generators.

(** [torch.where(temperature < eps, greedy_sampled, random_sampled)] *)
Definition choose (temp : list F) (greedy_sampled random_sampled : list nat) : list nat :=
  zip_with (fun t '(g, r) => if negb (fle SAMPLING_EPS t) then g else r) temp (zip greedy_sampled random_sampled).

Definition sample (vocab_size : nat) (empty batch : list (list F)) (sm : SamplingMetadata F) (logits : list (list (option F))) : outcome (list nat) :=
  _ ← assert_ (negb (sm_all_greedy sm && sm_all_random sm));
  greedy_sampled ← (if sm_all_random sm then Ok None else g ← greedy_sample logits; Ok (Some g));
  match greedy_sampled, sm_all_greedy sm with
  | Some g, true => Ok g
  | _, _ =>
      match sm_temperature sm with
      | None => Raise AssertionError
      | Some temp =>
          let logits := apply_temperature logits temp in
          logits ← min_p_apply of_float (lp_min_p (sm_logitsprocs sm)) logits;
          random_sampled ← forward_native vocab_size empty batch logits (sm_generators sm) (sm_top_k sm) (sm_top_p sm);
          Ok (match greedy_sampled with None => random_sampled | Some g => choose temp g random_sampled end)
      end
  end.

(** [Sampler.forward] without log probabilities. *)
Definition sampler_forward (vocab_size : nat) (empty batch : list (list F)) (sm : SamplingMetadata F) (logits : list (list (option F))) : outcome (list nat) :=
  logits ← process_logits vocab_size sm logits;
  sample vocab_size empty batch sm logits.
End sampler.

(** * Masks stay *)

Section masks.
Context {F : Type} `{Scalar F}.
Implicit Types logits : list (list (option F)).

(** [n] rows of the vocabulary's length, and the cells that are minus infinity. *)
Definition shaped (n vocab_size : nat) logits : Prop :=
  length logits = n /\ forall i row, logits !! i = Some row -> length row = vocab_size.
Definition masked logits (i t : nat) : Prop := exists row, logits !! i = Some row /\ row !! t = Some None.

(** A stage of the pipeline: it changes no shape and unmasks nothing. *)
Record stage (n vocab_size : nat) logits logits' : Prop := {
  sg_shaped : shaped n vocab_size logits';
  sg_keeps : forall i t, masked logits i t -> masked logits' i t
}.

Lemma stage_refl n v logits : shaped n v logits -> stage n v logits logits.
Proof. done. Qed.

Lemma stage_trans n v l1 l2 l3 : stage n v l1 l2 -> stage n v l2 l3 -> stage n v l1 l3.
Proof. intros [_ H1] [S2 H2]. split; [done|]. auto. Qed.

(** A stage that works on a row at a time. *)
Lemma stage_rows n v logits logits' : shaped n v logits -> length logits' = n ->
  (forall i row, logits !! i = Some row -> exists row', logits' !! i = Some row' /\ length row' = length row /\
    forall t, row !! t = Some None -> row' !! t = Some None) -> stage n v logits logits'.
Proof.
  intros [Hl Hs] Hl' Hrows. split.
  - split; [done|]. intros i row' Hrow'. destruct (lookup_lt_is_Some_2 logits i) as [row Hrow]; [apply lookup_lt_Some in Hrow'; lia|].
    destruct (Hrows i row Hrow) as (row2 & Hr2 & Hl2 & _). rewrite Hrow' in Hr2. injection Hr2 as <-. rewrite Hl2. by apply (Hs i).
  - intros i t (row & Hrow & Ht). destruct (Hrows i row Hrow) as (row' & Hr' & _ & Hk). exists row'. auto.
Qed.

(** One row replaced. *)
Lemma stage_insert n v logits i row row' : shaped n v logits -> logits !! i = Some row -> length row' = length row ->
  (forall t, row !! t = Some None -> row' !! t = Some None) -> stage n v logits (<[i := row']> logits).
Proof.
  intros [Hl Hs] Hi Hlr Hk. apply stage_rows; [done|by rewrite length_insert|]. intros j r Hj. destruct (decide (i = j)) as [<-|].
  - exists row'. rewrite list_lookup_insert_eq by (by eapply lookup_lt_Some). rewrite Hi in Hj. injection Hj as <-. done.
  - exists r. by rewrite list_lookup_insert_ne.
Qed.

Lemma zip_rows_stage {B} n v (f : list (option F) -> B -> list (option F)) logits (bs : list B) : shaped n v logits -> length bs = n ->
  (forall row b, length row = v -> b ∈ bs -> length (f row b) = v /\ forall t, row !! t = Some None -> f row b !! t = Some None) ->
  stage n v logits (zip_with f logits bs).
Proof.
  intros [Hl Hs] Hb Hf. apply stage_rows; [done|rewrite length_zip_with; lia|]. intros i row Hrow.
  destruct (lookup_lt_is_Some_2 bs i) as [b Hbi]; [apply lookup_lt_Some in Hrow; lia|]. exists (f row b). rewrite lookup_zip_with, Hrow, Hbi.
  destruct (Hf row b (Hs i row Hrow)) as [Hfl Hk]; [by eapply list_elem_of_lookup_2|]. split; [done|]. split; [by rewrite Hfl, (Hs i row Hrow)|done].
Qed.
End masks.

(** * The stages *)

Section stages.
Context {F : Type} `{Scalar F, SampleOps F}.
Variables (of_float : Q -> F) (n vocab_size : nat).
Implicit Types logits : list (list (option F)).

Lemma allowed_stage sm logits : shaped n vocab_size logits ->
  (forall mask, sm_allowed_token_ids_mask sm = Some mask -> length mask = n /\ Forall (fun m => length m = vocab_size) mask) ->
  stage n vocab_size logits (apply_allowed_token_ids sm logits) /\
  forall mask i t, sm_allowed_token_ids_mask sm = Some mask -> (m ← mask !! i; m !! t) = Some true -> masked (apply_allowed_token_ids sm logits) i t.
Proof.
  intros Hs Hm. unfold apply_allowed_token_ids. destruct (sm_allowed_token_ids_mask sm) as [mask|]; [|by split]. destruct (Hm mask eq_refl) as [Hl Hv].
  destruct Hs as [Hn Hrows]. rewrite Forall_lookup in Hv. split.
  - apply stage_rows; [done|rewrite length_zip_with; lia|]. intros i row Hrow. destruct (lookup_lt_is_Some_2 mask i) as [m Hmi]; [apply lookup_lt_Some in Hrow; lia|].
    exists (masked_fill m row). rewrite lookup_zip_with, Hmi, Hrow. split; [done|]. pose proof (Hrows i row Hrow). pose proof (Hv i m Hmi).
    unfold masked_fill. split; [rewrite length_zip_with; lia|]. intros t Ht. destruct (lookup_lt_is_Some_2 m t) as [b Hb]; [apply lookup_lt_Some in Ht; lia|].
    rewrite lookup_zip_with, Hb, Ht. by destruct b.
  - intros ? i t [= <-] Hit. destruct (mask !! i) as [m|] eqn:Hmi; [|done]. cbn in Hit.
    destruct (lookup_lt_is_Some_2 logits i) as [row Hrow]; [apply lookup_lt_Some in Hmi; lia|]. exists (masked_fill m row). rewrite lookup_zip_with, Hmi, Hrow. split; [done|].
    pose proof (Hrows i row Hrow). pose proof (Hv i m Hmi). unfold masked_fill. rewrite lookup_zip_with, Hit. cbn.
    destruct (lookup_lt_is_Some_2 row t) as [x Hx]; [apply lookup_lt_Some in Hit; lia|]. by rewrite Hx.
Qed.

Lemma bad_words_stage past words : forall logits, shaped n vocab_size logits -> length past = n -> Forall (fun '(i, ws) => i < n /\ words_ok vocab_size ws) words ->
  exists logits', apply_bad_words logits words past = Ok logits' /\ stage n vocab_size logits logits' /\
    forall i ws p t, (i, ws) ∈ words -> past !! i = Some p -> t < vocab_size -> completes p (Z.of_nat t) ws -> masked logits' i t.
Proof.
  induction words as [|[i ws] words IH]; intros logits Hs Hp Hw; cbn [apply_bad_words].
  - exists logits. split; [done|]. split; [by apply stage_refl|]. by intros ? ? ? ? ?%elem_of_nil.
  - apply Forall_cons_1 in Hw as [[Hi Hok] Hw]. pose proof Hs as [Hl Hv]. destruct (lookup_lt_is_Some_2 logits i) as [row Hrow]; [lia|].
    destruct (lookup_lt_is_Some_2 past i) as [p Hpi]; [lia|]. pose proof (Hv i row Hrow) as Hrl. rewrite (at_index_ok _ _ _ Hrow), (at_index_ok _ _ _ Hpi). cbn [mbind outcome_bind].
    rewrite bad_words_exact by (by rewrite Hrl). cbn [mbind outcome_bind].
    assert (stage n vocab_size logits (<[i := banned p ws row]> logits)) as H1.
    { apply (stage_insert _ _ _ _ row); [done|done|apply length_imap|]. intros t Ht. unfold banned. rewrite list_lookup_imap, Ht. cbn. by case_decide. }
    destruct (IH _ (sg_shaped _ _ _ _ H1) Hp Hw) as (logits' & -> & H2 & Hc). exists logits'. split; [done|]. split; [by eapply stage_trans|].
    intros j ws' p' t [[= -> ->]|Hin]%elem_of_cons Hpj Ht Hcomp; [|by eapply Hc]. rewrite Hpi in Hpj. injection Hpj as <-.
    apply (sg_keeps _ _ _ _ H2). exists (banned p ws row). rewrite list_lookup_insert_eq by lia. split; [done|]. unfold banned. rewrite list_lookup_imap.
    destruct (lookup_lt_is_Some_2 row t) as [x Hx]; [lia|]. rewrite Hx. cbn. by rewrite decide_True.
Qed.

Lemma min_tokens_stage p logits : shaped n vocab_size logits -> min_tokens_ok p ->
  (forall i t, (i, t) ∈ stop_cells (min_toks p) -> i < n /\ (0 <= t < Z.of_nat vocab_size)%Z) ->
  exists logits', min_tokens_apply p logits = Ok logits' /\ stage n vocab_size logits logits' /\
    forall i t, (i, Z.of_nat t) ∈ stop_cells (min_toks p) -> masked logits' i t.
Proof.
  intros Hs Hp Hc. pose proof Hs as [Hl Hv]. unfold min_tokens_apply. rewrite Hp. case_decide as He.
  { exists logits. split; [done|]. split; [by apply stage_refl|]. intros i t (m & id & stops & Hi & _)%stop_cells_elem. by rewrite He, lookup_empty in Hi. }
  rewrite ban_cells_ok.
  2:{ intros [i t] Hin. destruct (Hc i t Hin) as [Hi Ht]. destruct (lookup_lt_is_Some_2 logits i) as [row Hrow]; [lia|]. exists row. cbn. by rewrite (Hv i row Hrow). }
  eexists. split; [done|]. split.
  - apply stage_rows; [done|by rewrite length_imap|]. intros i row Hrow. eexists. rewrite list_lookup_imap, Hrow. cbn. split; [done|]. split; [apply length_imap|].
    intros t Ht. rewrite list_lookup_imap, Ht. cbn. by case_decide.
  - intros i t Hin. destruct (Hc _ _ Hin) as [Hi Ht]. destruct (lookup_lt_is_Some_2 logits i) as [row Hrow]; [lia|]. pose proof (Hv i row Hrow).
    destruct (lookup_lt_is_Some_2 row t) as [x Hx]; [lia|]. eexists. rewrite list_lookup_imap, Hrow. cbn. split; [done|]. rewrite list_lookup_imap, Hx. cbn. by rewrite decide_True.
Qed.

Lemma add_bias_stage cells : forall logits, shaped n vocab_size logits -> (forall c, c ∈ cells -> c.1.1 < n /\ (0 <= c.1.2 < Z.of_nat vocab_size)%Z) ->
  exists logits', loop (add_bias of_float) cells logits = Ok logits' /\ stage n vocab_size logits logits'.
Proof.
  induction cells as [|[[i t] b] cells IH]; intros logits Hs Hc; cbn [loop].
  - exists logits. split; [done|by apply stage_refl].
  - destruct (Hc ((i, t), b)) as [Hi Ht]; [by left|]. cbn in Hi, Ht. pose proof Hs as [Hl Hv]. destruct (lookup_lt_is_Some_2 logits i) as [row Hrow]; [lia|].
    pose proof (Hv i row Hrow) as Hrl. destruct (lookup_lt_is_Some_2 row (Z.to_nat t)) as [x Hx]; [lia|].
    assert (add_bias of_float logits ((i, t), b) = Ok (<[i := <[Z.to_nat t := biased of_float b x]> row]> logits)) as ->.
    { unfold add_bias. rewrite (at_index_ok _ _ _ Hrow). cbn [mbind outcome_bind]. rewrite (index_at_ok row t x) by (done || lia). cbn [mbind outcome_bind].
      unfold py_position. by rewrite (proj2 (Z.ltb_ge t 0)) by lia. }
    cbn [mbind outcome_bind]. assert (stage n vocab_size logits (<[i := <[Z.to_nat t := biased of_float b x]> row]> logits)) as H1.
    { apply (stage_insert _ _ _ _ row); [done|done|apply length_insert|]. intros u Hu. destruct (decide (Z.to_nat t = u)) as [<-|].
      - rewrite Hx in Hu. injection Hu as ->. rewrite list_lookup_insert_eq by lia. done.
      - by rewrite list_lookup_insert_ne. }
    destruct (IH _ (sg_shaped _ _ _ _ H1)) as (logits' & -> & H2); [intros c Hin; apply Hc; by right|]. exists logits'. split; [done|by eapply stage_trans].
Qed.

Lemma zip_fst_snd {A B} (l : list (A * B)) : zip l.*1 l.*2 = l.
Proof. by induction l as [|[] l IH]; [|cbn; f_equal]. Qed.

Lemma logit_bias_stage p logits : shaped n vocab_size logits -> logit_bias_ok p ->
  (forall c, c ∈ bias_cells (biases p) -> c.1.1 < n /\ (0 <= c.1.2 < Z.of_nat vocab_size)%Z) ->
  exists logits', logit_bias_apply of_float p logits = Ok logits' /\ stage n vocab_size logits logits'.
Proof.
  intros Hs [H1 H2] Hc. unfold logit_bias_apply. case_decide; [exists logits; split; [done|by apply stage_refl]|].
  rewrite H1, H2, zip_fst_snd. by apply add_bias_stage.
Qed.

(** Prompts are padded rows, outputs tokens of the vocabulary. *)
Definition prompts_ok (prompts : list (list Z)) : Prop :=
  length prompts = n /\ Forall (fun p => exists l k, p = l ++ replicate k (Z.of_nat vocab_size) /\ Forall (fun t => 0 <= t < Z.of_nat vocab_size)%Z l) prompts.
Definition outputs_ok (outputs : list (list Z)) : Prop :=
  length outputs = n /\ Forall (Forall (fun t => 0 <= t < Z.of_nat vocab_size)%Z) outputs.

Lemma penalties_stage prompts outputs (pr fr rp : list F) logits : shaped n vocab_size logits -> prompts_ok prompts -> outputs_ok outputs ->
  length pr = n -> length fr = n -> length rp = n ->
  exists logits', apply_all_penalties vocab_size logits prompts pr fr rp outputs = Ok logits' /\ stage n vocab_size logits logits'.
Proof.
  intros [Hl Hv] [Hpl Hp] [Hol Ho] H1 H2 H3. unfold apply_all_penalties. set (pad := make_ndarray_with_pad outputs (Z.of_nat vocab_size)).
  set (z := zip logits _). assert (length pad = n) as Hpadl by (unfold pad, make_ndarray_with_pad; by rewrite length_fmap).
  assert (length z = n) as Hzl by (unfold z; rewrite !length_zip_with; lia).
  destruct (mapM_rows_ex (fun '(row, ((prompt, output), ((pr, fr), rp))) => apply_penalties_row row prompt output pr fr rp)
    (fun '(row, _) row' => length row' = length row /\ forall t, row !! t = Some None -> row' !! t = Some None) z) as (res & Hres & HF).
  - intros i [row [[prompt output] [[a b] c]]] Hz. unfold z in Hz. apply lookup_zip_with_Some in Hz as (? & ? & [= <- <-] & Hrow & Hz).
    apply lookup_zip_with_Some in Hz as (? & ? & [= <- <-] & Hz & _). apply lookup_zip_with_Some in Hz as (? & ? & [= <- <-] & Hpi & Hpo).
    rewrite Forall_lookup in Hp, Ho. destruct (Hp i prompt Hpi) as (l & k & -> & Hlr). unfold pad, make_ndarray_with_pad in Hpo. rewrite list_lookup_fmap in Hpo.
    destruct (outputs !! i) as [o|] eqn:Hoi; [|done]. injection Hpo as <-. pose proof (Hv i row Hrow) as Hrl. rewrite <-Hrl.
    rewrite penalties_exact by (rewrite Hrl; [done|by apply (Ho i)] || (rewrite Hrl; done) || (rewrite Hrl; by apply (Ho i))).
    eexists. split; [done|]. split; [apply length_imap|]. intros t Ht. rewrite list_lookup_imap, Ht. done.
  - exists res. split; [exact Hres|]. pose proof (Forall2_length _ _ _ HF) as Hrl. apply stage_rows; [done|lia|]. intros i row Hrow.
    destruct (lookup_lt_is_Some_2 z i) as [[row2 rest] Hz]; [apply lookup_lt_Some in Hrow; lia|]. pose proof Hz as Hz'. unfold z in Hz'.
    apply lookup_zip_with_Some in Hz' as (? & ? & [= <- <-] & Hrow2 & _). rewrite Hrow in Hrow2. injection Hrow2 as <-.
    destruct (Forall2_lookup_l _ _ _ _ _ HF Hz) as (row' & Hr' & Hok). eauto.
Qed.

(** What [_make_sampling_metadata] promises for a batch of [n] requests. *)
Record metadata_ok (sm : SamplingMetadata F) : Prop := {
  md_kind : sm_all_greedy sm && sm_all_random sm = false;
  md_temperature : if sm_all_greedy sm then True else exists temp, sm_temperature sm = Some temp /\ length temp = n /\
    (sm_all_random sm = true -> Forall (fun t => fle SAMPLING_EPS t = true) temp);
  md_top_k : forall k, sm_top_k sm = Some k -> length k = n /\ ks_ok vocab_size k;
  md_top_p : forall p, sm_top_p sm = Some p -> length p = n;
  md_generators : Forall (fun '(i, draw) => i < n /\ length draw = vocab_size /\ Forall (fun x => fle x f0 = false) draw) (sm_generators sm);
  md_generators_nodup : NoDup (sm_generators sm).*1;
  md_allowed : forall mask, sm_allowed_token_ids_mask sm = Some mask -> length mask = n /\ Forall (fun m => length m = vocab_size) mask;
  md_bad_words : Forall (fun '(i, ws) => i < n /\ words_ok vocab_size ws) (sm_bad_words_token_ids sm);
  md_outputs : outputs_ok (sm_output_token_ids sm);
  md_penalties : sm_no_penalties sm = false -> (exists prompts, sm_prompt_token_ids sm = Some prompts /\ prompts_ok prompts) /\
    length (sm_presence_penalties sm) = n /\ length (sm_frequency_penalties sm) = n /\ length (sm_repetition_penalties sm) = n;
  md_min_tokens : min_tokens_ok (lp_min_tokens (sm_logitsprocs sm));
  md_min_tokens_fit : forall i t, (i, t) ∈ stop_cells (min_toks (lp_min_tokens (sm_logitsprocs sm))) -> i < n /\ (0 <= t < Z.of_nat vocab_size)%Z;
  md_bias : logit_bias_ok (lp_logit_bias (sm_logitsprocs sm));
  md_bias_fit : forall c, c ∈ bias_cells (biases (lp_logit_bias (sm_logitsprocs sm))) -> c.1.1 < n /\ (0 <= c.1.2 < Z.of_nat vocab_size)%Z;
  md_min_p : min_p_count (lp_min_p (sm_logitsprocs sm)) <> 0%Z -> length (min_p_slice (lp_min_p (sm_logitsprocs sm))) = n /\
    Forall (fun m => fle f0 (of_float m) = true /\ fle (of_float m) f1 = true) (min_p_slice (lp_min_p (sm_logitsprocs sm)))
}.

(** Tokens that a request must not get: outside its allowed tokens, the end of a bad word, or a stop token too early. *)
Inductive forbidden (sm : SamplingMetadata F) (i t : nat) : Prop :=
| not_allowed mask : sm_allowed_token_ids_mask sm = Some mask -> (m ← mask !! i; m !! t) = Some true -> forbidden sm i t
| bad_word ws past : (i, ws) ∈ sm_bad_words_token_ids sm -> sm_output_token_ids sm !! i = Some past -> t < vocab_size ->
    completes past (Z.of_nat t) ws -> forbidden sm i t
| stops_early : (i, Z.of_nat t) ∈ stop_cells (min_toks (lp_min_tokens (sm_logitsprocs sm))) -> forbidden sm i t.

Lemma process_logits_stage sm logits : shaped n vocab_size logits -> metadata_ok sm ->
  exists logits', process_logits of_float vocab_size sm logits = Ok logits' /\ stage n vocab_size logits logits' /\
    forall i t, forbidden sm i t -> masked logits' i t.
Proof.
  intros Hs Hm. unfold process_logits. destruct (allowed_stage sm logits Hs (md_allowed _ Hm)) as [S1 M1]. set (l1 := apply_allowed_token_ids sm logits) in *.
  assert (exists l2, sampler_bad_words sm l1 = Ok l2 /\ stage n vocab_size l1 l2 /\ forall i ws p t, (i, ws) ∈ sm_bad_words_token_ids sm ->
    sm_output_token_ids sm !! i = Some p -> t < vocab_size -> completes p (Z.of_nat t) ws -> masked l2 i t) as (l2 & E2 & S2 & M2).
  { destruct (md_outputs _ Hm) as [Hlo _]. pose proof (bad_words_stage (sm_output_token_ids sm) _ l1 (sg_shaped _ _ _ _ S1) Hlo (md_bad_words _ Hm)) as Hb.
    unfold sampler_bad_words. destruct (sm_bad_words_token_ids sm) as [|w ws]; exact Hb. }
  rewrite E2. cbn [mbind outcome_bind].
  destruct (min_tokens_stage _ l2 (sg_shaped _ _ _ _ S2) (md_min_tokens _ Hm) (md_min_tokens_fit _ Hm)) as (l3 & E3 & S3 & M3). rewrite E3. cbn [mbind outcome_bind].
  destruct (logit_bias_stage _ l3 (sg_shaped _ _ _ _ S3) (md_bias _ Hm) (md_bias_fit _ Hm)) as (l4 & E4 & S4). rewrite E4. cbn [mbind outcome_bind].
  assert (exists l5, sampler_penalties vocab_size sm l4 = Ok l5 /\ stage n vocab_size l4 l5) as (l5 & E5 & S5).
  { unfold sampler_penalties. destruct (sm_no_penalties sm) eqn:En; [exists l4; split; [done|apply stage_refl, S4]|].
    destruct (md_penalties _ Hm En) as ((prompts & -> & Hp) & H1 & H2 & H3). exact (penalties_stage _ _ _ _ _ l4 (sg_shaped _ _ _ _ S4) Hp (md_outputs _ Hm) H1 H2 H3). }
  exists l5. split; [done|]. assert (stage n vocab_size l3 l5) as S35 by (by eapply stage_trans). assert (stage n vocab_size l2 l5) as S25 by (by eapply stage_trans).
  assert (stage n vocab_size l1 l5) as S15 by (by eapply stage_trans). split; [by eapply stage_trans|].
  intros i t [mask Hk Hit|ws p Hin Hp Ht Hc|Hin]; [eapply S15, M1|eapply S25, M2|eapply S35, M3]; done.
Qed.
End stages.

(** * Choosing a token *)

Section choosing.
Context {F : Type} `{OrderedScalar F} `{!SampleOps F} `{!SampleLaws F}.
Add Ring F_ring_choosing : ex_ring.
Variables (of_float : Q -> F) (n vocab_size : nat).
Implicit Types logits : list (list (option F)).

(** A row with fewer tokens left, but some. *)
Definition narrowed (row row' : list (option F)) : Prop :=
  length row' = length row /\ (forall t, row !! t = Some None -> row' !! t = Some None) /\ exists x, Some x ∈ row'.

Lemma narrow logits logits' : shaped n vocab_size logits -> length logits' = n ->
  (forall i row, logits !! i = Some row -> exists row', logits' !! i = Some row' /\ narrowed row row') ->
  stage n vocab_size logits logits' /\ rows_ok vocab_size logits'.
Proof.
  intros Hs Hl Hrows. split.
  - apply stage_rows; [done|done|]. intros i row Hrow. destruct (Hrows i row Hrow) as (row' & ? & ? & ? & _). eauto.
  - destruct Hs as [Hn Hv]. intros i row' Hrow'. destruct (lookup_lt_is_Some_2 logits i) as [row Hrow]; [apply lookup_lt_Some in Hrow'; lia|].
    destruct (Hrows i row Hrow) as (r & Hr & Hlr & _ & Hx). rewrite Hrow' in Hr. injection Hr as <-. rewrite Hlr. split; [by apply (Hv i)|done].
Qed.

Lemma temperature_stage logits temp : shaped n vocab_size logits -> rows_ok vocab_size logits -> length temp = n ->
  stage n vocab_size logits (apply_temperature logits temp) /\ rows_ok vocab_size (apply_temperature logits temp).
Proof.
  intros Hs Hr Ht. pose proof Hs as [Hl _]. apply narrow; [done|unfold apply_temperature; rewrite length_zip_with; lia|]. intros i row Hrow.
  destruct (lookup_lt_is_Some_2 temp i) as [t Hti]; [apply lookup_lt_Some in Hrow; lia|]. unfold apply_temperature. rewrite lookup_zip_with, Hrow, Hti. eexists. split; [done|].
  split; [apply length_fmap|]. split; [intros u Hu; by rewrite list_lookup_fmap, Hu|]. destruct (Hr i row Hrow) as [_ [x Hx]].
  exists (fdiv x t). apply list_elem_of_fmap. by exists (Some x).
Qed.

(** The most likely token always passes. *)
Lemma min_p_row_narrows m row : fle f0 (of_float m) = true -> fle (of_float m) f1 = true -> (exists x, Some x ∈ row) ->
  exists row', min_p_row of_float m row = Ok row' /\ narrowed row row'.
Proof.
  intros Hm0 Hm1 [x Hx]. set (p := lsoftmax row). assert (length p = length row) as Hl by apply lsoftmax_length.
  assert (p <> []) as Hne by (intros Hn; rewrite Hn in Hl; destruct row; [by apply elem_of_nil in Hx|done]).
  destruct (argmax_spec fle fle_refl fle_trans fle_total p Hne) as (i & v & Hi & Hv & Hmax & _).
  unfold min_p_row. fold p. rewrite Hi. cbn [mbind outcome_bind]. rewrite (nth_lookup_Some _ _ _ _ Hv). eexists. split; [done|]. split_and!.
  - unfold masked_fill. rewrite length_zip_with, length_fmap. lia.
  - intros t Ht. destruct (lookup_lt_is_Some_2 p t) as [u Hu]; [apply lookup_lt_Some in Ht; lia|].
    unfold masked_fill. rewrite lookup_zip_with, list_lookup_fmap, Hu, Ht. cbn. by destruct (fle (fmul v (of_float m)) u).
  - destruct (lookup_lt_is_Some_2 row i) as [y Hy]; [apply lookup_lt_Some in Hv; lia|].
    assert (fle v f0 = false) as Hvpos.
    { apply list_elem_of_lookup in Hx as [j Hj]. pose proof (lsoftmax_pos row j (Some x) Hj) as Hpos. cbn in Hpos.
      destruct (lookup_lt_is_Some_2 p j) as [u Hu]; [apply lookup_lt_Some in Hj; lia|]. fold p in Hpos. rewrite (nth_lookup_Some _ _ _ _ Hu) in Hpos.
      destruct (fle v f0) eqn:E; [|done]. rewrite <-Hpos by (exists x; by eapply list_elem_of_lookup_2). symmetry. eapply fle_trans, E. by eapply Hmax. }
    assert (fle f0 v = true) as Hv0 by (destruct (fle_total f0 v); congruence).
    pose proof (lsoftmax_pos row i y Hy (ex_intro _ x Hx)) as Hpy. fold p in Hpy. rewrite (nth_lookup_Some _ _ _ _ Hv), Hvpos in Hpy. destruct y as [y|]; [|done].
    exists y. apply list_elem_of_lookup. exists i. unfold masked_fill. rewrite lookup_zip_with, list_lookup_fmap, Hv, Hy. cbn.
    assert (fle (fmul v (of_float m)) v = true) as ->; [|done]. replace v with (fmul v f1) at 2 by ring. by apply fle_mul.
Qed.

Lemma min_p_stage p logits : shaped n vocab_size logits -> rows_ok vocab_size logits -> (min_p_count p <> 0%Z -> length (min_p_slice p) = n /\
    Forall (fun m => fle f0 (of_float m) = true /\ fle (of_float m) f1 = true) (min_p_slice p)) ->
  exists logits', min_p_apply of_float p logits = Ok logits' /\ stage n vocab_size logits logits' /\ rows_ok vocab_size logits'.
Proof.
  intros Hs Hr Hp. unfold min_p_apply. destruct (Z.eqb_spec (min_p_count p) 0) as [|Hc]; [exists logits; split; [done|]; split; [by apply stage_refl|done]|].
  destruct (Hp Hc) as [Hl Hm]. rewrite Forall_lookup in Hm. pose proof Hs as [Hn _].
  destruct (mapM_rows_ex (fun '(row, m) => min_p_row of_float m row) (fun '(row, _) row' => narrowed row row') (zip logits (min_p_slice p))) as (res & Hres & HF).
  - intros i [row m] Hz. apply lookup_zip_with_Some in Hz as (? & ? & [= <- <-] & Hrow & Hmi). destruct (Hm i m Hmi). apply min_p_row_narrows; [done..|]. by apply (Hr i row).
  - exists res. split; [exact Hres|]. pose proof (Forall2_length _ _ _ HF) as Hrl. rewrite length_zip_with in Hrl. apply narrow; [done|lia|]. intros i row Hrow.
    destruct (lookup_lt_is_Some_2 (min_p_slice p) i) as [m Hmi]; [apply lookup_lt_Some in Hrow; lia|].
    assert (zip logits (min_p_slice p) !! i = Some (row, m)) as Hz by (apply lookup_zip_with_Some; eauto 6).
    destruct (Forall2_lookup_l _ _ _ _ _ HF Hz) as (row' & Hr' & Hok). eauto.
Qed.

Lemma top_k_filter_narrows k row : (1 <= k)%Z -> (exists x, Some x ∈ row) -> narrowed row (top_k_filter k row).
Proof.
  intros Hk [x Hx]. split; [apply top_k_filter_length|]. split; [|apply (after_top_k_some (Some k) row x); [by intros ? [= <-]|done]].
  intros t Ht. unfold top_k_filter. rewrite list_lookup_fmap, Ht. cbn. by case_match.
Qed.

(** Top-p drops the least probable tokens, so a possible one is left. *)
Lemma without_narrows p dropped base : drops_for p base dropped -> (exists x, Some x ∈ base) -> narrowed base (without dropped base).
Proof.
  intros Hd [x Hx]. split; [apply length_imap|]. split; [intros t Ht; unfold without; rewrite list_lookup_imap, Ht; cbn; by case_decide|].
  apply list_elem_of_lookup in Hx as Hj. destruct Hj as [j Hj].
  destruct (decide (j ∈ dropped)) as [Hin|Hn]; [|exists x; apply list_elem_of_lookup; exists j; unfold without; rewrite list_lookup_imap, Hj; cbn; by rewrite decide_False].
  assert (exists k, k < length base /\ k ∉ dropped) as (k & Hk & Hkn).
  { destruct (decide (Forall (fun k => k ∈ dropped) (seq 0 (length base)))) as [Hall|[k [Hk Hkn]]%not_Forall_Exists%Exists_exists]; [|exists k; apply elem_of_seq in Hk; split; [lia|done]|apply _].
    exfalso. pose proof (dr_some _ _ _ Hd) as Hlt. enough (length (seq 0 (length base)) <= length dropped) by (rewrite length_seq in *; lia).
    apply submseteq_length, NoDup_submseteq; [apply NoDup_seq|]. by rewrite Forall_forall in Hall. }
  destruct (lookup_lt_is_Some_2 base k Hk) as [y Hy]. pose proof (dr_least _ _ _ Hd j k Hin Hk Hkn) as Hle.
  assert (fle (nth k (lsoftmax base) f0) f0 = false) as Hpos.
  { destruct (fle (nth k _ _) f0) eqn:E; [|done]. pose proof (lsoftmax_pos base j (Some x) Hj (ex_intro _ x Hx)) as Hp. cbn in Hp. rewrite <-Hp. symmetry. by eapply fle_trans. }
  rewrite (lsoftmax_pos base k y Hy (ex_intro _ x Hx)) in Hpos. destruct y as [y|]; [|done]. exists y. apply list_elem_of_lookup. exists k.
  unfold without. rewrite list_lookup_imap, Hy. cbn. by rewrite decide_False.
Qed.

Lemma narrowed_trans row1 row2 row3 : narrowed row1 row2 -> narrowed row2 row3 -> narrowed row1 row3.
Proof. intros (E1 & E2 & _) (E3 & E4 & E5). split_and!; [congruence|auto|done]. Qed.

Lemma top_k_top_p_stage k p logits : 0 < n -> shaped n vocab_size logits -> rows_ok vocab_size logits ->
  (forall l, k = Some l -> length l = n /\ ks_ok vocab_size l) -> (forall l, p = Some l -> length l = n) ->
  exists logits', apply_top_k_top_p (Z.of_nat vocab_size) logits k p = Ok logits' /\ stage n vocab_size logits logits' /\ rows_ok vocab_size logits'.
Proof.
  intros Hn Hs Hr Hk Hp. pose proof Hs as [Hl Hv]. destruct p as [p|].
  - destruct (top_k_top_p_batch vocab_size logits k p Hr) as (res & Hres & Hrl & Hall); [rewrite Hl; by apply Hp|rewrite Hl; exact Hk|].
    exists res. split; [exact Hres|]. apply narrow; [done|lia|]. intros i row Hrow. destruct (lookup_lt_is_Some_2 p i) as [p' Hp']; [rewrite (Hp p) by done; apply lookup_lt_Some in Hrow; lia|].
    destruct (Hall i row p' Hrow Hp') as (dropped & Hd & Hri). eexists. split; [exact Hri|]. destruct (Hr i row Hrow) as [_ Hx].
    assert (narrowed row (after_top_k (k ≫= fun l => l !! i) row) \/ after_top_k (k ≫= fun l => l !! i) row = row) as Hbase.
    { destruct k as [l|]; [|by right]. cbn. destruct (l !! i) as [kk|] eqn:Hkk; [|by right]. left. apply top_k_filter_narrows; [|done].
      destruct (Hk l eq_refl) as [_ Hok]. unfold ks_ok in Hok. rewrite Forall_lookup in Hok. by apply (Hok i). }
    destruct Hbase as [Hb|Hb].
    + eapply narrowed_trans; [exact Hb|]. eapply without_narrows; [exact Hd|apply Hb].
    + rewrite Hb in *. by eapply without_narrows.
  - destruct k as [k|]; [|exists logits; split; [done|]; split; [by apply stage_refl|done]]. destruct (Hk k eq_refl) as [Hkl Hok].
    eexists. cbn [apply_top_k_top_p]. rewrite top_k_only_batch by (done || congruence || (intros ->; cbn in Hl; lia)). split; [done|].
    apply narrow; [done|rewrite length_zip_with; lia|]. intros i row Hrow. destruct (lookup_lt_is_Some_2 k i) as [kk Hkk]; [apply lookup_lt_Some in Hrow; lia|].
    rewrite lookup_zip_with, Hkk, Hrow. eexists. split; [done|]. unfold ks_ok in Hok. rewrite Forall_lookup in Hok. apply top_k_filter_narrows; [by apply (Hok i)|by apply (Hr i)].
Qed.

(** Exponential variables are positive. *)
Definition drawn (draw : list F) : Prop := length draw = vocab_size /\ Forall (fun x => fle x f0 = false) draw.

Lemma own_draws_ok generators : forall q, length q = n -> Forall (fun '(i, draw) => i < n /\ drawn draw) generators -> exists q',
  own_draws q generators = Ok q' /\ length q' = n /\ forall i row, q' !! i = Some row -> drawn row \/ (i ∉ generators.*1 /\ q !! i = Some row).
Proof.
  induction generators as [|[i draw] gens IH]; intros q Hq Hg; cbn [own_draws].
  - exists q. split; [done|]. split; [done|]. intros i row Hi. right. split; [apply not_elem_of_nil|done].
  - apply Forall_cons_1 in Hg as [[Hi Hd] Hg]. rewrite store_at_ok by lia. cbn [mbind outcome_bind].
    destruct (IH (<[i := draw]> q)) as (q' & -> & Hl & Hrows); [by rewrite length_insert|done|]. exists q'. split; [done|]. split; [done|].
    intros j row Hj. destruct (Hrows j row Hj) as [|[Hn Hqj]]; [by left|]. destruct (decide (i = j)) as [<-|Hne].
    + left. rewrite list_lookup_insert_eq in Hqj by lia. by injection Hqj as <-.
    + right. rewrite list_lookup_insert_ne in Hqj by done. split; [|done]. cbn. by rewrite not_elem_of_cons.
Qed.

(** Every request's variables are drawn, by its generator or with the batch. *)
Lemma draws_positive empty batch generators (probs : list (list F)) : length probs = n -> length empty = n -> length batch = n -> Forall drawn batch ->
  Forall (fun '(i, draw) => i < n /\ drawn draw) generators -> NoDup generators.*1 ->
  exists q, own_draws (if negb (length generators =? length probs) then batch else empty) generators = Ok q /\ length q = n /\ Forall drawn q.
Proof.
  intros Hp He Hb Hbatch Hg Hnd. destruct (Nat.eqb_spec (length generators) (length probs)) as [Heq|Hne]; cbn [negb].
  - destruct (own_draws_ok generators empty He Hg) as (q & -> & Hl & Hrows). exists q. split; [done|]. split; [done|]. apply Forall_lookup. intros i row Hi.
    destruct (Hrows i row Hi) as [|[Hn _]]; [done|]. exfalso. apply Hn. enough (generators.*1 ≡ₚ seq 0 n) as -> by (apply elem_of_seq; apply lookup_lt_Some in Hi; lia).
    apply submseteq_length_Permutation; [|rewrite length_seq, length_fmap; lia]. apply NoDup_submseteq; [done|].
    intros j (x & -> & Hx)%list_elem_of_fmap. rewrite Forall_forall in Hg. pose proof (Hg x Hx). destruct x. apply elem_of_seq. cbn. lia.
  - destruct (own_draws_ok generators batch Hb Hg) as (q & -> & Hl & Hrows). exists q. split; [done|]. split; [done|]. apply Forall_lookup. intros i row Hi.
    destruct (Hrows i row Hi) as [|[_ Hq]]; [done|]. rewrite Forall_lookup in Hbatch. by apply (Hbatch i).
Qed.

(** Of the probabilities divided by positive numbers the largest is not that of an impossible token. *)
Lemma random_row row q : (exists x, Some x ∈ row) -> length q = length row -> Forall (fun x => fle x f0 = false) q ->
  exists t x, argmax fle (zip_with fdiv (lsoftmax row) q) = Ok t /\ row !! t = Some (Some x).
Proof.
  intros [x Hx] Hq Hpos. rewrite Forall_lookup in Hpos. set (l := zip_with fdiv (lsoftmax row) q). pose proof (lsoftmax_length row) as Hsl.
  assert (length l = length row) as Hl by (unfold l; rewrite length_zip_with; lia).
  assert (l <> []) as Hne by (intros Hn; rewrite Hn in Hl; destruct row; [by apply elem_of_nil in Hx|done]).
  destruct (argmax_spec fle fle_refl fle_trans fle_total l Hne) as (t & v & Ht & Hv & Hmax & _). exists t.
  assert (forall i y, row !! i = Some y -> exists d, fle d f0 = false /\ l !! i = Some (fdiv (nth i (lsoftmax row) f0) d)) as Hcell.
  { intros i y Hy. destruct (lookup_lt_is_Some_2 q i) as [d Hd]; [apply lookup_lt_Some in Hy; lia|]. exists d. split; [by apply (Hpos i)|].
    unfold l. pose proof (lsoftmax_lookup _ _ _ Hy) as Hs. by rewrite lookup_zip_with, Hs, Hd, (nth_lookup_Some _ _ _ _ Hs). }
  assert (fle v f0 = false) as Hvpos.
  { apply list_elem_of_lookup in Hx as Hj. destruct Hj as [j Hj]. destruct (Hcell j _ Hj) as (d & Hd & Hlj). pose proof (Hmax j _ Hlj) as Hle.
    destruct (fle v f0) eqn:E; [|done]. rewrite <-(fdiv_pos (nth j (lsoftmax row) f0) d Hd); [symmetry; by eapply fle_trans|].
    by rewrite (lsoftmax_pos row j (Some x) Hj) by eauto. }
  destruct (lookup_lt_is_Some_2 row t) as [y Hy]; [apply lookup_lt_Some in Hv; lia|]. destruct (Hcell t y Hy) as (d & Hd & Hlt). rewrite Hv in Hlt. injection Hlt as ->.
  destruct y as [y|]; [by exists y|]. exfalso. pose proof (lsoftmax_pos row t None Hy (ex_intro _ x Hx)) as Hz. cbn in Hz.
  pose proof (fdiv_mono _ _ d Hd Hz) as Hm. rewrite fdiv_zero in Hm by done. congruence.
Qed.

(** A token for every row, not minus infinity there. *)
Definition possible logits (tokens : list nat) : Prop := Forall2 (fun row t => exists x, row !! t = Some (Some x)) logits tokens.

Lemma random_sample_possible empty batch generators logits : length logits = n -> rows_ok vocab_size logits -> length empty = n -> length batch = n -> Forall drawn batch ->
  Forall (fun '(i, draw) => i < n /\ drawn draw) generators -> NoDup generators.*1 ->
  exists tokens, random_sample empty batch (lsoftmax <$> logits) generators = Ok tokens /\ possible logits tokens.
Proof.
  intros Hl Hr He Hb Hbatch Hg Hnd. unfold random_sample.
  destruct (draws_positive empty batch generators (lsoftmax <$> logits)) as (q & -> & Hql & Hq); [by rewrite length_fmap|done..|]. cbn [mbind outcome_bind]. rewrite Forall_lookup in Hq.
  assert (length (zip (lsoftmax <$> logits) q) = n) as Hzl by (rewrite length_zip_with, length_fmap; lia).
  assert (forall i row, logits !! i = Some row -> exists d, drawn d /\ zip (lsoftmax <$> logits) q !! i = Some (lsoftmax row, d)) as Hz.
  { intros i row Hrow. destruct (lookup_lt_is_Some_2 q i) as [d Hd]; [apply lookup_lt_Some in Hrow; lia|]. exists d. split; [by apply (Hq i)|].
    apply lookup_zip_with_Some. eexists _, _. split; [done|]. by rewrite list_lookup_fmap, Hrow. }
  destruct (mapM_rows_ex (fun '(p, q) => argmax fle (zip_with fdiv p q)) (fun '(p, q) t => argmax fle (zip_with fdiv p q) = Ok t) (zip (lsoftmax <$> logits) q)) as (res & Hres & HF).
  - intros i [p d] Hzi. destruct (lookup_lt_is_Some_2 logits i) as [row Hrow]; [apply lookup_lt_Some in Hzi; lia|]. destruct (Hz i row Hrow) as (d' & [Hd1 Hd2] & Hz'). rewrite Hzi in Hz'. injection Hz' as -> ->.
    destruct (Hr i row Hrow) as [Hv Hx]. destruct (random_row row d' Hx) as (t & _ & Ht & _); [congruence|done|]. eauto.
  - exists res. split; [exact Hres|]. pose proof (Forall2_length _ _ _ HF) as Hrl. apply Forall2_same_length_lookup. split; [lia|]. intros i row t Hrow Ht.
    destruct (Hz i row Hrow) as (d & [Hd1 Hd2] & Hz'). destruct (Hr i row Hrow) as [Hv Hx]. destruct (random_row row d Hx) as (t' & x & Ht' & Hrt); [congruence|done|].
    pose proof (Forall2_lookup_lr _ _ _ _ _ _ HF Hz' Ht) as Hrun. cbn in Hrun. rewrite Ht' in Hrun. injection Hrun as ->. eauto.
Qed.

(** The largest logit, and the first of them. *)
Definition greedy_token (row : list (option F)) (t : nat) : Prop :=
  exists x, row !! t = Some (Some x) /\ (forall j y, row !! j = Some y -> lle y (Some x) = true) /\ (forall j y, j < t -> row !! j = Some y -> lle (Some x) y = false).

Lemma greedy_sample_ok logits : rows_ok vocab_size logits -> exists tokens, greedy_sample logits = Ok tokens /\ Forall2 greedy_token logits tokens.
Proof.
  intros Hr. apply mapM_rows_ex. intros i row Hrow. destruct (Hr i row Hrow) as [_ [x Hx]]. assert (row <> []) as Hne by (intros ->; by apply elem_of_nil in Hx).
  destruct (argmax_spec lle lle_refl lle_trans lle_total row Hne) as (t & m & Ht & Hm & Hmax & Hfirst). exists t. split; [done|].
  apply list_elem_of_lookup in Hx as [j Hj]. pose proof (Hmax _ _ Hj) as Hle. destruct m as [m|]; [|done]. by exists m.
Qed.
End choosing.

(** * The sampler *)

Section forward.
Context {F : Type} `{OrderedScalar F} `{!SampleOps F} `{!SampleLaws F}.
Variables (of_float : Q -> F) (n vocab_size : nat).
Implicit Types logits : list (list (option F)).

(** The request's token is the argmax. *)
Definition is_greedy (sm : SamplingMetadata F) (i : nat) : Prop :=
  sm_all_greedy sm = true \/ sm_all_random sm = false /\ exists temp t, sm_temperature sm = Some temp /\ temp !! i = Some t /\ fle SAMPLING_EPS t = false.

Lemma greedy_possible logits tokens : Forall2 greedy_token logits tokens -> possible logits tokens.
Proof. intros Hg. eapply Forall2_impl; [exact Hg|]. intros row t (x & Hx & _). eauto. Qed.

Lemma masked_possible logits logits' tokens : stage n vocab_size logits logits' -> shaped n vocab_size logits -> possible logits' tokens -> possible logits tokens.
Proof.
  intros [[Hl' Hv'] Hk] [Hl Hv] Hp. pose proof (Forall2_length _ _ _ Hp) as Hpl. apply Forall2_same_length_lookup. split; [lia|]. intros i row t Hrow Ht.
  destruct (lookup_lt_is_Some_2 logits' i) as [row' Hrow']; [apply lookup_lt_Some in Hrow; lia|].
  destruct (Forall2_lookup_lr _ _ _ _ _ _ Hp Hrow' Ht) as (x & Hx). destruct (lookup_lt_is_Some_2 row t) as [y Hy].
  { apply lookup_lt_Some in Hx. rewrite (Hv' i row' Hrow') in Hx. by rewrite (Hv i row Hrow). }
  destruct y as [y|]; [eauto|]. destruct (Hk i t) as (r & Hr & Hrt); [by exists row|]. rewrite Hrow' in Hr. injection Hr as <-. congruence.
Qed.

Lemma choose_possible logits temp greedy random : length temp = n -> length logits = n -> Forall2 greedy_token logits greedy -> possible logits random ->
  possible logits (choose temp greedy random) /\
  forall i t row tok, temp !! i = Some t -> fle SAMPLING_EPS t = false -> logits !! i = Some row -> choose temp greedy random !! i = Some tok -> greedy_token row tok.
Proof.
  intros Ht Hl Hg Hr. pose proof (Forall2_length _ _ _ Hg). pose proof (Forall2_length _ _ _ Hr). unfold choose. split.
  - apply Forall2_same_length_lookup. split; [rewrite !length_zip_with; lia|]. intros i row tok Hrow Htok.
    apply lookup_zip_with_Some in Htok as (t & [a b] & -> & _ & Hz). apply lookup_zip_with_Some in Hz as (? & ? & [= <- <-] & Ha & Hb).
    destruct (Forall2_lookup_lr _ _ _ _ _ _ Hg Hrow Ha) as (x & Hx & _). destruct (Forall2_lookup_lr _ _ _ _ _ _ Hr Hrow Hb) as (y & Hy). case_match; eauto.
  - intros i t row tok Hti Hlow Hrow Htok. apply lookup_zip_with_Some in Htok as (t' & [a b] & -> & Ht' & Hz). rewrite Hti in Ht'. injection Ht' as <-.
    apply lookup_zip_with_Some in Hz as (? & ? & [= <- <-] & Ha & Hb). rewrite Hlow. cbn. exact (Forall2_lookup_lr _ _ _ _ _ _ Hg Hrow Ha).
Qed.

Context (empty batch : list (list F)).
Hypothesis empty_length : length empty = n.
Hypothesis batch_length : length batch = n.
Hypothesis batch_drawn : Forall (drawn vocab_size) batch.

Lemma random_branch sm temp logits : 0 < n -> metadata_ok of_float n vocab_size sm -> shaped n vocab_size logits -> rows_ok vocab_size logits -> length temp = n ->
  exists tokens, (logits ← min_p_apply of_float (lp_min_p (sm_logitsprocs sm)) (apply_temperature logits temp);
    forward_native vocab_size empty batch logits (sm_generators sm) (sm_top_k sm) (sm_top_p sm)) = Ok tokens /\ possible logits tokens.
Proof.
  intros Hn Hm Hs Hr Ht. destruct (temperature_stage n vocab_size logits temp Hs Hr Ht) as [S1 R1].
  destruct (min_p_stage of_float n vocab_size _ _ (sg_shaped _ _ _ _ S1) R1 (md_min_p _ _ _ _ Hm)) as (l2 & E2 & S2 & R2). rewrite E2. cbn [mbind outcome_bind].
  destruct (top_k_top_p_stage n vocab_size _ _ l2 Hn (sg_shaped _ _ _ _ S2) R2 (md_top_k _ _ _ _ Hm) (md_top_p _ _ _ _ Hm)) as (l3 & E3 & S3 & R3).
  unfold forward_native. rewrite E3. cbn [mbind outcome_bind]. pose proof (sg_shaped _ _ _ _ S3) as [Hl3 _].
  destruct (random_sample_possible n vocab_size empty batch (sm_generators sm) l3 Hl3 R3 empty_length batch_length batch_drawn (md_generators _ _ _ _ Hm) (md_generators_nodup _ _ _ _ Hm))
    as (tokens & Hrun & Hp). exists tokens. split; [exact Hrun|]. eapply masked_possible; [|exact Hs|exact Hp]. eapply stage_trans; [exact S1|]. by eapply stage_trans.
Qed.

Lemma sample_possible sm logits : 0 < n -> metadata_ok of_float n vocab_size sm -> shaped n vocab_size logits -> rows_ok vocab_size logits ->
  exists tokens, sample of_float vocab_size empty batch sm logits = Ok tokens /\ possible logits tokens /\
    forall i row t, is_greedy sm i -> logits !! i = Some row -> tokens !! i = Some t -> greedy_token row t.
Proof.
  intros Hn Hm Hs Hr. pose proof Hs as [Hl _]. destruct (greedy_sample_ok vocab_size logits Hr) as (g & Hg & HF). unfold sample. rewrite (md_kind _ _ _ _ Hm). cbn [negb assert_ mbind outcome_bind].
  pose proof (md_kind _ _ _ _ Hm) as Hkind. pose proof (md_temperature _ _ _ _ Hm) as Htemp. destruct (sm_all_random sm) eqn:Er.
  - rewrite andb_true_r in Hkind. rewrite Hkind in *. destruct Htemp as (temp & -> & Hlt & _). cbn [mbind outcome_bind].
    destruct (random_branch sm temp logits Hn Hm Hs Hr Hlt) as (tokens & Hrun & Hp). unfold mbind in Hrun.
    exists tokens. split; [|split; [done|]].
    + destruct (min_p_apply _ _ _) as [l|]; cbn in *; [|done]. by rewrite Hrun.
    + intros i row t [Hi|[Hi _]]; congruence.
  - rewrite Hg. cbn [mbind outcome_bind]. destruct (sm_all_greedy sm) eqn:Eg.
    + exists g. split; [done|]. split; [by apply greedy_possible|]. intros i row t _ Hrow Ht. by eapply (Forall2_lookup_lr _ _ _ _ _ _ HF).
    + destruct Htemp as (temp & Htm & Hlt & _). rewrite Htm. destruct (random_branch sm temp logits Hn Hm Hs Hr Hlt) as (tokens & Hrun & Hp).
      destruct (choose_possible logits temp g tokens Hlt Hl HF Hp) as [Hc Hgr]. exists (choose temp g tokens). split; [|split; [done|]].
      * destruct (min_p_apply _ _ _) as [l|]; cbn in *; [|done]. by rewrite Hrun.
      * intros i row t [Hi|(_ & temp' & u & Htm' & Hu & Hlow)] Hrow Ht; [congruence|]. rewrite Htm in Htm'. injection Htm' as <-. by eapply Hgr.
Qed.

Lemma possible_allowed (sm : SamplingMetadata F) logits' tokens i t : shaped n vocab_size logits' -> (forall i t, forbidden vocab_size sm i t -> masked logits' i t) -> possible logits' tokens ->
  tokens !! i = Some t -> t < vocab_size /\ ~ forbidden vocab_size sm i t.
Proof.
  intros [_ Hv] Hf Hp Hit. destruct (Forall2_lookup_r _ _ _ _ _ Hp Hit) as (row & Hrow & x & Hxt). split.
  - apply lookup_lt_Some in Hxt. by rewrite (Hv i row Hrow) in Hxt.
  - intros (r & Hri & Hrt)%Hf. rewrite Hrow in Hri. injection Hri as <-. congruence.
Qed.

Lemma sampler_run sm logits : 0 < n -> metadata_ok of_float n vocab_size sm -> shaped n vocab_size logits ->
  exists logits', process_logits of_float vocab_size sm logits = Ok logits' /\ shaped n vocab_size logits' /\
    (forall i t, forbidden vocab_size sm i t -> masked logits' i t) /\
    ((forall i row, logits' !! i = Some row -> exists x, Some x ∈ row) ->
     exists tokens, sampler_forward of_float vocab_size empty batch sm logits = Ok tokens /\ possible logits' tokens /\
      forall i row t, is_greedy sm i -> logits' !! i = Some row -> tokens !! i = Some t -> greedy_token row t).
Proof.
  intros Hn Hm Hs. destruct (process_logits_stage of_float n vocab_size sm logits Hs Hm) as (logits' & Hrun & [Hs' _] & Hf). exists logits'. split_and!; [done..|].
  intros Hx. assert (rows_ok vocab_size logits') as Hr by (intros i row Hrow; split; [by apply (proj2 Hs' i)|by apply (Hx i)]).
  destruct (sample_possible sm logits' Hn Hm Hs' Hr) as (tokens & Ht & Hp & Hg). unfold sampler_forward. rewrite Hrun. by exists tokens.
Qed.

(** C8: No request gets a token it must not have.  On a batch, whatever mix of greedy and seeded or unseeded random requests, penalties,
    biases, min-p, top-k and top-p it has, the processing of the logits does not raise, keeps their shape and sets every
    forbidden token of a request to minus infinity; if a request has a token left, the sampler returns one token per request, which
    is in the vocabulary and not forbidden, and a greedy request's is the first of its largest processed logits. *)
Theorem sampler_forbids sm logits : 0 < n -> metadata_ok of_float n vocab_size sm -> shaped n vocab_size logits ->
  exists logits', process_logits of_float vocab_size sm logits = Ok logits' /\ shaped n vocab_size logits' /\
    (forall i t, forbidden vocab_size sm i t -> masked logits' i t) /\
    ((forall i row, logits' !! i = Some row -> exists x, Some x ∈ row) ->
     exists tokens, sampler_forward of_float vocab_size empty batch sm logits = Ok tokens /\ length tokens = n /\
      forall i t, tokens !! i = Some t -> t < vocab_size /\ ~ forbidden vocab_size sm i t /\
        (is_greedy sm i -> forall row, logits' !! i = Some row -> greedy_token row t)).
Proof.
  intros Hn Hm Hs. destruct (sampler_run sm logits Hn Hm Hs) as (logits' & Hrun & Hs' & Hf & Hres). exists logits'. split_and!; [done..|]. intros Hx.
  destruct (Hres Hx) as (tokens & Ht & Hp & Hg). exists tokens. split; [exact Ht|]. split; [rewrite <-(Forall2_length _ _ _ Hp); apply Hs'|]. intros i t Hit.
  destruct (possible_allowed sm logits' tokens i t Hs' Hf Hp Hit). split_and!; [done|done|]. intros Hgi r Hri. by apply (Hg i r t).
Qed.
End forward.

(** * A batch with a greedy and a seeded random request *)

Module SamplerCases.
#[local] Existing Instances qc_scalar qc_exact qc_ordered qc_sample_ops qc_sample_laws.
Definition num (z : Z) : Qc := fofZ z.

Definition procs : LogitsProcs :=
  {| lp_min_tokens := mkMinTokens {[1 := (3, "r1"%string, [2%Z])]} [(1, 2%Z)];
     lp_logit_bias := mkLogitBias {[0 := [(2%Z, 5%Q)]]} [(0, 2%Z)] [5%Q];
     lp_min_p := mkMinP 1 [0%Q; (1 # 2)%Q] false [0%Q; 0%Q] 2 |}.
Definition metadata : SamplingMetadata Qc :=
  {| sm_temperature := Some [num (-1); num 1]; sm_all_greedy := false; sm_all_random := false; sm_top_p := None; sm_top_k := Some [4; 3]%Z;
     sm_generators := [(1, [num 1; num 2; num 1; num 3])]; sm_no_penalties := false; sm_prompt_token_ids := Some [[0; 1]%Z; [2; 4]%Z];
     sm_frequency_penalties := [num 0; num 1]; sm_presence_penalties := [num 0; num 0]; sm_repetition_penalties := [num 1; num 2];
     sm_output_token_ids := [[1%Z]; []]; sm_allowed_token_ids_mask := Some [[false; false; false; false]; [true; false; false; false]];
     sm_bad_words_token_ids := [(0, [[1; 3]%Z])]; sm_logitsprocs := procs |}.
Definition logits : list (list (option Qc)) := [[Some (num 1); Some (num 2); Some (num 0); Some (num 9)]; [Some (num 9); Some (num 2); Some (num 7); Some (num 3)]].
Definition draws : list (list Qc) := replicate 2 [num 1; num 1; num 2; num 1].

Lemma positive_row l : forallb (fun x : Qc => negb (fle x f0)) l = true -> Forall (fun x => fle x f0 = false) l.
Proof. rewrite forallb_forall, Forall_forall. intros Hl x Hx. apply negb_true_iff, Hl. by apply list_elem_of_In. Qed.

Lemma metadata_fits : metadata_ok Q2Qc 2 4 metadata.
Proof.
  assert (stop_cells (min_toks (lp_min_tokens procs)) = [(1, 2%Z)]) as Hstop by reflexivity.
  assert (bias_cells (biases (lp_logit_bias procs)) = [((0, 2%Z), 5%Q)]) as Hbias by reflexivity. split.
  - done.
  - cbn. exists [num (-1); num 1]. done.
  - intros ? [= <-]. split; [done|]. by repeat constructor.
  - done.
  - constructor; [|constructor]. split; [lia|]. split; [done|]. by apply positive_row.
  - apply NoDup_singleton.
  - intros ? [= <-]. split; [done|]. by repeat constructor.
  - constructor; [|constructor]. split; [lia|]. repeat constructor; done || lia.
  - split; [done|]. repeat constructor; lia.
  - intros _. split; [|done]. eexists. split; [done|]. split; [done|]. constructor; [exists [0; 1]%Z, 0|constructor; [exists [2]%Z, 1|constructor]].
    all: split; [done|]; repeat constructor; lia.
  - exact (eq_sym Hstop).
  - change (sm_logitsprocs metadata) with procs. rewrite Hstop. intros i t [= -> ->]%list_elem_of_singleton. lia.
  - unfold logit_bias_ok. change (sm_logitsprocs metadata) with procs. by rewrite Hbias.
  - change (sm_logitsprocs metadata) with procs. rewrite Hbias. intros c ->%list_elem_of_singleton. cbn. lia.
  - intros _. split; [done|]. by repeat constructor.
Qed.

(** Every row has a token left. *)
Definition has_left (o : outcome (list (list (option Qc)))) : bool := match o with Ok l => forallb (existsb (fun x => bool_decide (is_Some x))) l | Raise _ => false end.
Lemma has_left_rows l : has_left (Ok l) = true -> forall i row, l !! i = Some row -> exists x, Some x ∈ row.
Proof.
  cbn. rewrite forallb_forall. intros Hl i row Hrow. specialize (Hl row (proj1 (list_elem_of_In _ _) (list_elem_of_lookup_2 _ _ _ Hrow))).
  apply existsb_exists in Hl as (o & Ho & [x ->]%bool_decide_eq_true). exists x. by apply list_elem_of_In.
Qed.

Lemma sampler_forbids_witness : exists tokens, sampler_forward Q2Qc 4 [[]; []] draws metadata logits = Ok tokens /\ length tokens = 2 /\
  forall i t, tokens !! i = Some t -> t < 4 /\ ~ forbidden 4 metadata i t.
Proof.
  destruct (sampler_forbids Q2Qc 2 4 [[]; []] draws) with (sm := metadata) (logits := logits) as (logits' & Hrun & _ & _ & Hres).
  - done.
  - done.
  - repeat constructor; by apply positive_row.
  - lia.
  - apply metadata_fits.
  - split; [done|]. intros [|[|i]] row Hrow; [by injection Hrow as <-..|done].
  - destruct Hres as (tokens & Ht & Hl & Hall).
    + apply has_left_rows. rewrite <-Hrun. vm_compute. reflexivity.
    + exists tokens. split; [exact Ht|]. split; [exact Hl|]. intros i t Hit. destruct (Hall i t Hit) as (H1 & H2 & _). exact (conj H1 H2).
Defined.
End SamplerCases.
