(* ===== verification/RejectionSampler.v ===== *)
(** Speculative decoding: [vllm/v1/sample/rejection_sampler.py] and the part of [GPUModelRunner._sample] that calls it.

    A launch of a Triton kernel is a list of programs, each the list of its stores; its effect is that of the stores in
    an order in which the programs may run, which is an interface.  Loads are checked: an access outside of a buffer raises.
    Flat buffers are lists, rows of the vocabulary one behind the other.  What memory holds before it is written, and random
    numbers, are arguments. *)
From stdpp Require Import base gmap list strings.
From Stdlib Require Import ZArith QArith Qcanon Lia Ring.
From S2P Require Import Prelude NumpyArrays ModelRunner RunnerInputs RabitqOps RabitqQuant PyTensor SamplerOps LogitsProcessors Sampler.
Open Scope nat_scope.

(** [new_empty] is memory that was not written yet, as large as asked; [schedule] the stores of concurrent programs in the
    order they reach the memory. *)
Class Device := {
  new_empty : forall A, A -> nat -> list A;
  schedule : forall A, list (list (Z * A)) -> list (Z * A)
}.
Class DeviceLaws `{Device} : Prop := {
  empty_length : forall A (x : A) n, length (new_empty A x n) = n;
  schedule_runs : forall A (ps : list (list (Z * A))), runs ps (schedule A ps)
}.

Definition PLACEHOLDER_TOKEN_ID : Z := -1.
Definition GREEDY_TEMPERATURE : Z := -1.
Definition MAX_SPEC_LEN : nat := 32.

(** * Kernels *)

Section kernels.
Context {F : Type} `{Scalar F, Device}.

Definition launch {A} (programs : outcome (list (list (Z * A)))) (buf : list A) : outcome (list A) :=
  ps ← programs; Ok (foldl store_cell buf (schedule A ps)).

Definition load_at {A} (buf : list A) (off : Z) : outcome A := if (off <? 0)%Z then Raise IndexError else at_index buf (Z.to_nat off).

(** [start_idx] and [end_idx] of a request. *)
Definition request_range (cu_num_tokens : list Z) (req_idx : nat) : outcome (Z * Z) :=
  start_idx ← (if req_idx =? 0 then Ok 0%Z else load_at cu_num_tokens (Z.of_nat req_idx - 1));
  end_idx ← load_at cu_num_tokens (Z.of_nat req_idx);
  Ok (start_idx, end_idx).

(** The loop of both sampling kernels: [accept] gives the token to store at a position, and if it is a rejection. *)
Fixpoint positions (accept : Z -> outcome (Z * bool)) (base : Z) (n : nat) (pos : Z) (rejected : bool) : outcome (list (Z * Z) * bool) :=
  match n with
  | O => Ok ([], rejected)
  | S n =>
      if rejected then positions accept base n (pos + 1) rejected
      else
        '(token_id, rejected) ← accept pos;
        '(stores, rejected) ← positions accept base n (pos + 1) rejected;
        Ok ((base + pos, token_id)%Z :: stores, rejected)
  end.

(** The stores of a request without those of its bonus token, and the bonus token unless a token was rejected. *)
Definition sample_request (accept : Z -> outcome (Z * bool)) (cu_num_draft_tokens bonus_token_ids : list Z) (max_spec_len : nat) (req_idx : nat) : outcome (list (Z * Z)) :=
  '(start_idx, end_idx) ← request_range cu_num_draft_tokens req_idx;
  let num_draft_tokens := (end_idx - start_idx)%Z in
  let base := (Z.of_nat req_idx * (Z.of_nat max_spec_len + 1))%Z in
  '(stores, rejected) ← positions (fun pos => accept (start_idx + pos)%Z) base (Z.to_nat num_draft_tokens) 0 false;
  if rejected : bool then Ok stores
  else bonus_token_id ← load_at bonus_token_ids (Z.of_nat req_idx); Ok (stores ++ [(base + num_draft_tokens, bonus_token_id)%Z]).

Definition rejection_greedy_sample_kernel (cu_num_draft_tokens draft_token_ids target_argmax bonus_token_ids : list Z) (is_greedy : option (list bool))
    (max_spec_len : nat) (req_idx : nat) : outcome (list (Z * Z)) :=
  greedy ← match is_greedy with None => Ok true | Some l => load_at l (Z.of_nat req_idx) end;
  if negb greedy then Ok []
  else
    sample_request (fun i =>
      draft_token_id ← load_at draft_token_ids i; target_argmax_id ← load_at target_argmax i;
      Ok (target_argmax_id, negb (draft_token_id =? target_argmax_id)%Z)) cu_num_draft_tokens bonus_token_ids max_spec_len req_idx.

Definition rejection_random_sample_kernel (cu_num_draft_tokens draft_token_ids : list Z) (draft_probs : option (list F)) (target_probs : list F)
    (bonus_token_ids recovered_token_ids : list Z) (uniform_probs : list F) (is_greedy : list bool) (max_spec_len vocab_size : nat) (req_idx : nat) :
    outcome (list (Z * Z)) :=
  greedy ← load_at is_greedy (Z.of_nat req_idx);
  if greedy : bool then Ok []
  else
    sample_request (fun i =>
      draft_token_id ← load_at draft_token_ids i;
      draft_prob ← match draft_probs with None => Ok f1 | Some draft_probs => load_at draft_probs (i * Z.of_nat vocab_size + draft_token_id) end;
      target_prob ← load_at target_probs (i * Z.of_nat vocab_size + draft_token_id);
      uniform_prob ← load_at uniform_probs i;
      if negb (fle draft_prob f0) && fle uniform_prob (fdiv target_prob draft_prob) then Ok (draft_token_id, false)
      else recovered ← load_at recovered_token_ids i; Ok (recovered, true)) cu_num_draft_tokens bonus_token_ids max_spec_len req_idx.

Definition expand_kernel {A} (eqb : A -> A -> bool) (input : list A) (cu_num_tokens : list Z) (replace_from replace_to : A) (MAX_NUM_TOKENS : nat) (req_idx : nat) :
    outcome (list (Z * A)) :=
  '(start_idx, end_idx) ← request_range cu_num_tokens req_idx;
  let num_tokens := (end_idx - start_idx)%Z in
  src_val ← load_at input (Z.of_nat req_idx);
  let src_val := if eqb src_val replace_from then replace_to else src_val in
  Ok (omap (fun offset => if (offset <? num_tokens)%Z then Some ((start_idx + offset)%Z, src_val) else None) (lanes 0 MAX_NUM_TOKENS)).

(** A masked load of the lanes of a row. *)
Definition load_lanes (buf : list F) (base : Z) (offsets : list Z) (mask : Z -> bool) : outcome (list F) :=
  mapM (fun off => if mask off then load_at buf (base + off) else Ok f0) offsets.

(** The lanes behind the vocabulary divide zero by minus infinity. *)
Definition sample_recovered_tokens_kernel (cu_num_draft_tokens draft_token_ids : list Z) (draft_probs : option (list F)) (target_probs q : list F)
    (vocab_size PADDED_VOCAB_SIZE : nat) (req_idx pos : nat) : outcome (list (Z * Z)) :=
  '(start_idx, end_idx) ← request_range cu_num_draft_tokens req_idx;
  let num_draft_tokens := (end_idx - start_idx)%Z in
  if (num_draft_tokens <=? Z.of_nat pos)%Z then Ok []
  else
    let vocab_offset := lanes 0 PADDED_VOCAB_SIZE in
    let row := ((start_idx + Z.of_nat pos) * Z.of_nat vocab_size)%Z in
    let inside := fun off => (off <? Z.of_nat vocab_size)%Z in
    prob ← match draft_probs with
           | None =>
               draft_token_id ← load_at draft_token_ids (start_idx + Z.of_nat pos);
               load_lanes target_probs row vocab_offset (fun off => inside off && negb (off =? draft_token_id)%Z)
           | Some draft_probs =>
               draft_prob ← load_lanes draft_probs row vocab_offset inside;
               target_prob ← load_lanes target_probs row vocab_offset inside;
               Ok (zip_with (fun t d => let x := fsub t d in if fle f0 x then x else f0) target_prob draft_prob)
           end;
    q ← mapM (fun off => if inside off then x ← load_at q (Z.of_nat req_idx * Z.of_nat vocab_size + off); Ok (Some x) else Ok None) vocab_offset;
    recovered_id ← argmax fle (zip_with (fun p q => match q with Some q => fdiv p q | None => f0 end) prob q);
    Ok [(start_idx + Z.of_nat pos, Z.of_nat recovered_id)%Z].

(** * Around the kernels *)

Definition expand_batch_to_tokens {A} (eqb : A -> A -> bool) (x : list A) (cu_num_tokens : list Z) (num_tokens : nat) (replace_from replace_to : A) : outcome (list A) :=
  let batch_size := length x in
  _ ← assert_ (length cu_num_tokens =? batch_size);
  launch (mapM (expand_kernel eqb x cu_num_tokens replace_from replace_to MAX_SPEC_LEN) (seq 0 batch_size)) (new_empty A replace_to num_tokens).

Definition feq (x y : F) : bool := fle x y && fle y x.

(** [top_k] and [top_p], if there are any. *)
Definition expand_opt {A} (eqb : A -> A -> bool) (zero : A) (x : option (list A)) (cu_num_tokens : list Z) (num_tokens : nat) : outcome (option (list A)) :=
  match x with None => Ok None | Some x => x ← expand_batch_to_tokens eqb x cu_num_tokens num_tokens zero zero; Ok (Some x) end.
End kernels.

Section rejection.
Context {F : Type} `{Scalar F, SampleOps F, Device}.

(** Probabilities are never minus infinity. *)
Definition as_probs (logits : list (list (option F))) : list (list (option F)) := (fun row => Some <$> lsoftmax row) <$> logits.

(** Logits, or probabilities. *)
Definition compute_probs (vocab_size : nat) (logits : list (list (option F))) (cu_num_draft_tokens : list Z) (sm : SamplingMetadata F) : outcome (list (list (option F))) :=
  if sm_all_greedy sm then Ok logits
  else match sm_temperature sm with
       | None => Raise AttributeError
       | Some temperature =>
           let num_tokens := length logits in
           temperature ← expand_batch_to_tokens feq temperature cu_num_draft_tokens num_tokens (fofZ GREEDY_TEMPERATURE) f1;
           let logits := apply_temperature logits temperature in
           top_k ← expand_opt Z.eqb 0%Z (sm_top_k sm) cu_num_draft_tokens num_tokens;
           top_p ← expand_opt feq f0 (sm_top_p sm) cu_num_draft_tokens num_tokens;
           logits ← apply_top_k_top_p (Z.of_nat vocab_size) logits top_k top_p;
           Ok (as_probs logits)
       end.

(** The random numbers of a step: for the batch, and by the generators of the requests that have one. *)
Record RejectionDraws := mkDraws {
  rd_uniform : list F;
  rd_own_uniform : gmap nat (list F);
  rd_exponential : list (list F);
  rd_own_exponential : list (nat * list F)
}.

(** [generate_uniform_probs], from what [torch.rand] gives. *)
Fixpoint generate_uniform_probs (uniform_probs : list F) (start_idx req_idx : nat) (num_draft_tokens : list Z) (generators : gmap nat (list F)) : outcome (list F) :=
  match num_draft_tokens with
  | [] => Ok uniform_probs
  | n :: num_draft_tokens =>
      if (n =? 0)%Z then generate_uniform_probs uniform_probs start_idx (S req_idx) num_draft_tokens generators
      else
        let end_idx := start_idx + Z.to_nat n in
        uniform_probs ← match generators !! req_idx with None => Ok uniform_probs | Some draw => assign_range uniform_probs start_idx end_idx draw end;
        generate_uniform_probs uniform_probs end_idx (S req_idx) num_draft_tokens generators
  end.

Fixpoint own_exponential (q : list (list F)) (num_draft_tokens : list Z) (generators : list (nat * list F)) : outcome (list (list F)) :=
  match generators with
  | [] => Ok q
  | (i, draw) :: generators =>
      n ← at_index num_draft_tokens i;
      q ← if (0 <? n)%Z then store_at q i draw else Ok q;
      own_exponential q num_draft_tokens generators
  end.

Definition sample_recovered_tokens (vocab_size max_spec_len : nat) (num_draft_tokens cu_num_draft_tokens draft_token_ids : list Z) (draft_probs : option (list F))
    (target_probs : list F) (d : RejectionDraws) : outcome (list Z) :=
  let batch_size := length num_draft_tokens in
  q ← own_exponential (rd_exponential d) num_draft_tokens (rd_own_exponential d);
  launch (mapM (fun '(req_idx, pos) => sample_recovered_tokens_kernel cu_num_draft_tokens draft_token_ids draft_probs target_probs (concat q) vocab_size
                  (Z.to_nat (next_power_of_2 (Z.of_nat vocab_size))) req_idx pos)
            (i ← seq 0 batch_size; (fun pos => (i, pos)) <$> seq 0 max_spec_len))
    (new_empty Z 0%Z (length draft_token_ids)).

(** The sampling of the requests that are not greedy, into [output_token_ids]. *)
Definition random_rejection (vocab_size : nat) (draft_token_ids num_draft_tokens : list Z) (max_spec_len : nat) (cu_num_draft_tokens : list Z)
    (draft_probs : option (list F)) (target_probs : list F) (bonus_token_ids : list Z) (is_greedy : option (list bool)) (d : RejectionDraws)
    (output_token_ids : list Z) : outcome (list Z) :=
  uniform_probs ← generate_uniform_probs (rd_uniform d) 0 0 num_draft_tokens (rd_own_uniform d);
  recovered_token_ids ← sample_recovered_tokens vocab_size max_spec_len num_draft_tokens cu_num_draft_tokens draft_token_ids draft_probs target_probs d;
  match is_greedy with
  | None => Raise TypeError
  | Some is_greedy =>
      launch (mapM (rejection_random_sample_kernel cu_num_draft_tokens draft_token_ids draft_probs target_probs bonus_token_ids recovered_token_ids
                      uniform_probs is_greedy max_spec_len vocab_size) (seq 0 (length num_draft_tokens))) output_token_ids
  end.

Definition rejection_sample (vocab_size : nat) (draft_token_ids num_draft_tokens : list Z) (max_spec_len : nat) (cu_num_draft_tokens : list Z)
    (draft_probs : option (list F)) (target_probs : list (list (option F))) (bonus_token_ids : list Z) (sm : SamplingMetadata F) (d : RejectionDraws) :
    outcome (list Z) :=
  let batch_size := length num_draft_tokens in
  let num_tokens := length draft_token_ids in
  _ ← assert_ ((length target_probs =? num_tokens) && forallb (fun row => length row =? vocab_size) target_probs);
  let output_token_ids := replicate (batch_size * (max_spec_len + 1)) PLACEHOLDER_TOKEN_ID in
  is_greedy ← (if sm_all_greedy sm then Ok None
               else match sm_temperature sm with
                    | None => Raise TypeError
                    | Some temperature => Ok (Some ((fun t => feq t (fofZ GREEDY_TEMPERATURE)) <$> temperature))
                    end);
  let random := random_rejection vocab_size draft_token_ids num_draft_tokens max_spec_len cu_num_draft_tokens draft_probs
                  (default f0 <$> concat target_probs) bonus_token_ids is_greedy d in
  if sm_all_random sm then random output_token_ids
  else
    target_argmax ← mapM (argmax lle) target_probs;
    output_token_ids ← launch (mapM (rejection_greedy_sample_kernel cu_num_draft_tokens draft_token_ids (Z.of_nat <$> target_argmax) bonus_token_ids is_greedy max_spec_len)
                                 (seq 0 batch_size)) output_token_ids;
    if sm_all_greedy sm then Ok output_token_ids else random output_token_ids.

(** [max(self.num_draft_tokens)] of [SpecDecodeMetadata.__post_init__] *)
Definition python_max (l : list Z) : outcome Z := match l with [] => Raise ValueError | x :: l => Ok (foldl Z.max x l) end.

(** [RejectionSampler.forward] *)
Definition rejection_forward (vocab_size : nat) (metadata : SpecDecodeMetadata) (draft_probs : option (list F)) (target_logits : list (list (option F)))
    (bonus_token_ids : list Z) (sm : SamplingMetadata F) (d : RejectionDraws) : outcome (list Z) :=
  max_spec_len ← python_max (num_draft_tokens metadata);
  _ ← assert_ (max_spec_len <=? Z.of_nat MAX_SPEC_LEN)%Z;
  target_probs ← compute_probs vocab_size target_logits (cu_num_draft_tokens metadata) sm;
  rejection_sample vocab_size (draft_token_ids metadata) (num_draft_tokens metadata) (Z.to_nat max_spec_len) (cu_num_draft_tokens metadata)
    draft_probs target_probs bonus_token_ids sm d.

(** [parse_output], for a tensor of rows of [width]. *)
Definition rows_of (width n : nat) (flat : list Z) : list (list Z) := (fun i => take width (drop (i * width) flat)) <$> seq 0 n.
Definition parse_output (output_token_ids : list (list Z)) (vocab_size : nat) : list (list Z) :=
  filter (fun t => t <> PLACEHOLDER_TOKEN_ID /\ (t < Z.of_nat vocab_size)%Z) <$> output_token_ids.

(** [GPUModelRunner._sample] with draft tokens, which have no probabilities: the rows of tokens. *)
Definition sample_with_drafts (of_float : Q -> F) (vocab_size : nat) (empty batch : list (list F)) (metadata : SpecDecodeMetadata) (logits : list (list (option F)))
    (sm : SamplingMetadata F) (d : RejectionDraws) : outcome (list (list Z)) :=
  bonus_logits ← take_at logits (bonus_logits_indices metadata);
  bonus_token_ids ← sampler_forward of_float vocab_size empty batch sm bonus_logits;
  target_logits ← take_at logits (target_logits_indices metadata);
  output_token_ids ← rejection_forward vocab_size metadata None target_logits (Z.of_nat <$> bonus_token_ids) sm d;
  max_spec_len ← python_max (num_draft_tokens metadata);
  Ok (rows_of (Z.to_nat max_spec_len + 1) (length (num_draft_tokens metadata)) output_token_ids).
End rejection.
Arguments RejectionDraws F : clear implicits.

(** * Launches *)

(** Programs that agree with a buffer on the cells they write leave that buffer, in whatever order they run. *)
Lemma run_exact {A} (ps : list (list (Z * A))) es (buf res : list A) : runs ps es -> length res = length buf ->
  (forall i p a v, ps !! i = Some p -> (a, v) ∈ p -> res !! Z.to_nat a = Some v) ->
  (forall c, res !! c = buf !! c \/ exists i p a v, ps !! i = Some p /\ (a, v) ∈ p /\ Z.to_nat a = c) -> foldl store_cell buf es = res.
Proof.
  intros Hr Hl Hw Hc. apply list_eq. intros c. destruct (decide (c < length buf)) as [Hlt|]; [|by rewrite !lookup_ge_None_2 by (rewrite ?stores_length; lia)].
  destruct (stores_final es c buf Hlt) as [[-> Hno]|(a & v & Hin & <- & ->)].
  - destruct (Hc c) as [->|(i & p & a & v & Hp & Hin & Ha)]; [done|]. exfalso. apply (Hno a v); [|done]. apply (runs_elem _ _ _ Hr). eauto.
  - apply (runs_elem _ _ _ Hr) in Hin as (i & p & Hp & Hin). symmetry. by eapply Hw.
Qed.

Lemma row_start_const ns w i : (forall j n, ns !! j = Some n -> n = w) -> i <= length ns -> row_start ns i = i * w.
Proof.
  intros Hc. induction i as [|i IH]; intros Hi; [done|]. destruct (lookup_lt_is_Some_2 ns i) as [n Hn]; [lia|].
  rewrite (row_start_S _ _ _ Hn), IH by lia. rewrite (Hc i n Hn). lia.
Qed.

(** A flat index is that of a cell of a row. *)
Lemma concat_index {A} (ls : list (list A)) : forall c, c < length (concat ls) ->
  exists i l j x, ls !! i = Some l /\ l !! j = Some x /\ c = row_start (length <$> ls) i + j /\ concat ls !! c = Some x.
Proof.
  induction ls as [|l ls IH]; intros c Hc; [cbn in Hc; lia|]. cbn in Hc. rewrite length_app in Hc. destruct (decide (c < length l)) as [Hl|Hl].
  - destruct (lookup_lt_is_Some_2 l c Hl) as [x Hx]. exists 0, l, c, x. split_and!; [done..|]. cbn. by apply lookup_app_l_Some.
  - destruct (IH (c - length l)) as (i & l' & j & x & Hi & Hj & He & Hx); [lia|]. exists (S i), l', j, x. split_and!; [done|done| |].
    + change (c = sum_list (take (S i) (length <$> (l :: ls))) + j). cbn. change (sum_list (take i (length <$> ls))) with (row_start (length <$> ls) i). lia.
    + cbn. by rewrite lookup_app_r by lia.
Qed.

Lemma load_at_ok {A} (buf : list A) (off : Z) i x : off = Z.of_nat i -> buf !! i = Some x -> load_at buf off = Ok x.
Proof. intros -> Hx. unfold load_at. rewrite (proj2 (Z.ltb_ge _ _)), Nat2Z.id by lia. by apply at_index_ok. Qed.

Section batch.
Context (lens : list nat).

Lemma range_ok i n : lens !! i = Some n ->
  request_range (NumpyArrays.cumsum (counts lens)) i = Ok (Z.of_nat (row_start lens i), Z.of_nat (row_start lens i + n)).
Proof.
  intros Hn. apply lookup_lt_Some in Hn as Hlt. unfold request_range.
  rewrite (load_at_ok (NumpyArrays.cumsum (counts lens)) (Z.of_nat i) i (Z.of_nat (row_start lens (S i)))) by (done || by apply run_cumsum_lookup).
  destruct (Nat.eqb_spec i 0) as [->|H0]; cbn [mbind outcome_bind].
  - rewrite (row_start_S _ _ _ Hn). done.
  - rewrite (load_at_ok (NumpyArrays.cumsum (counts lens)) _ (i - 1) (Z.of_nat (row_start lens i))).
    + cbn [mbind outcome_bind]. by rewrite (row_start_S _ _ _ Hn).
    + lia.
    + rewrite run_cumsum_lookup by lia. by replace (S (i - 1)) with i by lia.
Qed.

Lemma load_row {B} (ls : list (list B)) i (l : list B) j x : length <$> ls = lens -> ls !! i = Some l -> l !! j = Some x ->
  load_at (concat ls) (Z.of_nat (row_start lens i) + Z.of_nat j) = Ok x.
Proof. intros Hl Hi Hj. apply (load_at_ok _ _ (row_start lens i + j)); [lia|]. rewrite <-Hl. by apply (concat_lookup ls i l). Qed.
End batch.

Lemma mapM_imap {A B} (f : nat -> outcome B) (g : nat -> A -> B) (l : list A) : (forall i x, l !! i = Some x -> f i = Ok (g i x)) ->
  mapM f (seq 0 (length l)) = Ok (imap g l).
Proof.
  intros Hf. apply mapM_each, Forall2_same_length_lookup. split; [by rewrite length_seq, length_imap|]. intros k i y Hi Hy. apply lookup_seq in Hi as [-> _].
  rewrite list_lookup_imap in Hy. cbn. destruct (l !! k) as [x|] eqn:Hx; [|done]. injection Hy as <-. by apply Hf.
Qed.

(** Rows of equal length. *)
Definition width_is {B} (w : nat) (rows : list (list B)) : Prop := forall r row, rows !! r = Some row -> length row = w.

Lemma row_start_rows {B} w (rows : list (list B)) r : width_is w rows -> r <= length rows -> row_start (length <$> rows) r = r * w.
Proof.
  intros Hw Hr. apply row_start_const; [|by rewrite length_fmap]. intros j n Hj. rewrite list_lookup_fmap in Hj.
  destruct (rows !! j) as [row|] eqn:E; [|done]. injection Hj as <-. by apply (Hw j).
Qed.

Lemma concat_cell {B} w (rows : list (list B)) r (row : list B) j x : width_is w rows -> rows !! r = Some row -> row !! j = Some x -> concat rows !! (r * w + j) = Some x.
Proof. intros Hw Hr Hx. rewrite <-(row_start_rows w rows r Hw) by (apply lookup_lt_Some in Hr; lia). by apply (concat_lookup rows r row). Qed.

Lemma load_cell {B} w (rows : list (list B)) r (row : list B) j x : width_is w rows -> rows !! r = Some row -> row !! j = Some x ->
  load_at (concat rows) (Z.of_nat r * Z.of_nat w + Z.of_nat j) = Ok x.
Proof. intros Hw Hr Hx. apply (load_at_ok _ _ (r * w + j)); [lia|]. by eapply concat_cell. Qed.

Lemma concat_width {B} w (rows : list (list B)) : width_is w rows -> length (concat rows) = length rows * w.
Proof.
  induction rows as [|row rows IH]; intros Hw; [done|]. cbn. rewrite length_app, (Hw 0 row eq_refl), IH; [done|]. intros r. apply (Hw (S r)).
Qed.

(** ** Rows of an output

    A program per row stores tokens at its start. *)

Definition overlay {B} (w row : list B) : list B := w ++ drop (length w) row.
Definition row_stores {B} (w : nat) (i : nat) (tokens : list B) : list (Z * B) := imap (fun j t => (Z.of_nat (i * w + j), t)) tokens.

Lemma overlay_length {B} (w row : list B) : length w <= length row -> length (overlay w row) = length row.
Proof. intros Hl. unfold overlay. rewrite length_app, length_drop. lia. Qed.

Lemma launch_rows {B} `{DeviceLaws} w (stores rows : list (list B)) : width_is w rows -> length stores = length rows ->
  (forall i s, stores !! i = Some s -> length s <= w) ->
  launch (Ok (imap (row_stores w) stores)) (concat rows) = Ok (concat (zip_with overlay stores rows)).
Proof.
  intros Hw Hl Hs. unfold launch. cbn [mbind outcome_bind]. f_equal. set (res := zip_with overlay stores rows).
  assert (length res = length rows) as Hrl by (unfold res; rewrite length_zip_with; lia).
  assert (width_is w res) as Hrw.
  { intros r row Hr. unfold res in Hr. apply lookup_zip_with_Some in Hr as (s & row' & -> & Hsr & Hr'). rewrite overlay_length; [by apply (Hw r)|]. rewrite (Hw r row' Hr'). by apply (Hs r). }
  eapply run_exact; [apply schedule_runs| | |].
  - rewrite !(concat_width w) by done. by rewrite Hrl.
  - intros i p a v Hp Hin. rewrite list_lookup_imap in Hp. destruct (stores !! i) as [s|] eqn:Hsi; [|done]. injection Hp as <-.
    apply list_elem_of_lookup in Hin as [j Hj]. unfold row_stores in Hj. rewrite list_lookup_imap in Hj. destruct (s !! j) as [t|] eqn:Ht; [|done]. injection Hj as <- <-.
    rewrite Nat2Z.id. destruct (lookup_lt_is_Some_2 rows i) as [row Hrow]; [rewrite <-Hl; by eapply lookup_lt_Some|].
    eapply concat_cell; [done| |]; [unfold res; rewrite lookup_zip_with, Hsi, Hrow; done|]. unfold overlay. by apply lookup_app_l_Some.
  - intros c. destruct (decide (c < length (concat rows))) as [Hc|Hc]; [|left; rewrite !lookup_ge_None_2; rewrite ?(concat_width w) in * by done; rewrite ?Hrl; lia || done].
    destruct (concat_index rows c Hc) as (i & row & j & x & Hrow & Hj & -> & ->). apply lookup_lt_Some in Hrow as Hi. rewrite (row_start_rows w rows i Hw) by lia.
    destruct (lookup_lt_is_Some_2 stores i) as [s Hsi]; [lia|]. destruct (s !! j) as [t|] eqn:Ht.
    + right. exists i, (row_stores w i s), (Z.of_nat (i * w + j)), t. split; [by rewrite list_lookup_imap, Hsi|]. split; [|apply Nat2Z.id].
      apply list_elem_of_lookup. exists j. unfold row_stores. by rewrite list_lookup_imap, Ht.
    + left. eapply concat_cell; [done| |]; [unfold res; rewrite lookup_zip_with, Hsi, Hrow; done|]. unfold overlay. apply lookup_ge_None in Ht.
      rewrite lookup_app_r, lookup_drop by done. by replace (length s + (j - length s)) with j by lia.
Qed.

(** ** Values of requests for their tokens *)

Lemma lanes_masked {B} (f : Z -> B) n m : n <= m -> omap (fun o => if (o <? Z.of_nat n)%Z then Some (f o) else None) (lanes 0 m) = (fun j => f (Z.of_nat j)) <$> seq 0 n.
Proof.
  intros Hle. unfold lanes. replace m with (n + (m - n)) by lia. rewrite seq_app, fmap_app, omap_app.
  assert (forall k o, o + k <= n -> omap (fun o => if (o <? Z.of_nat n)%Z then Some (f o) else None) ((fun i => 0 + Z.of_nat i)%Z <$> seq o k) = (fun j => f (Z.of_nat j)) <$> seq o k) as Hin.
  { induction k as [|k IH]; intros o Ho; [done|]. cbn. rewrite (proj2 (Z.ltb_lt _ _)) by lia. cbn. f_equal. apply IH. lia. }
  assert (forall k o, n <= o -> omap (fun o => if (o <? Z.of_nat n)%Z then Some (f o) else None) ((fun i => 0 + Z.of_nat i)%Z <$> seq o k) = []) as Hout.
  { induction k as [|k IH]; intros o Ho; [done|]. cbn. rewrite (proj2 (Z.ltb_ge _ _)) by lia. apply IH. lia. }
  by rewrite Hin, Hout, app_nil_r by lia.
Qed.

(** A value per request, a cell per token. *)
Definition per_token {A} (lens : list nat) (x : list A) : list A := concat (zip_with (fun n v => replicate n v) lens x).

Lemma per_token_length {A} lens (x : list A) : length x = length lens -> length (per_token lens x) = sum_list lens.
Proof.
  unfold per_token. revert x. induction lens as [|n lens IH]; intros [|v x] Hl; [done..|]. injection Hl as Hl. cbn. rewrite length_app, length_replicate, IH by done. done.
Qed.

Lemma per_token_rows {A} lens (x : list A) : length x = length lens -> length <$> zip_with (fun n v => replicate n v) lens x = lens.
Proof. revert x. induction lens as [|n lens IH]; intros [|v x] Hl; [done..|]. injection Hl as Hl. cbn. by rewrite length_replicate, IH. Qed.

Lemma expand_ok {A} `{DeviceLaws} (eqb : A -> A -> bool) (x : list A) lens from to : length x = length lens -> Forall (fun n => n <= MAX_SPEC_LEN) lens ->
  expand_batch_to_tokens eqb x (NumpyArrays.cumsum (counts lens)) (sum_list lens) from to = Ok (per_token lens ((fun v => if eqb v from then to else v) <$> x)).
Proof.
  intros Hl Hmax. rewrite Forall_lookup in Hmax. set (y := (fun v => if eqb v from then to else v) <$> x). assert (length y = length lens) as Hyl by (unfold y; by rewrite length_fmap).
  unfold expand_batch_to_tokens. rewrite run_cumsum_length, Hl, Nat.eqb_refl. cbn [assert_ mbind outcome_bind].
  rewrite (mapM_imap _ (fun i n => (fun j => (Z.of_nat (row_start lens i) + Z.of_nat j, default to (y !! i))%Z) <$> seq 0 n)).
  - unfold launch. cbn [mbind outcome_bind]. f_equal. eapply run_exact; [apply schedule_runs| | |].
    + by rewrite per_token_length, empty_length.
    + intros i p a v Hp Hin. rewrite list_lookup_imap in Hp. destruct (lens !! i) as [n|] eqn:Hn; [|done]. injection Hp as <-.
      apply list_elem_of_fmap in Hin as (j & [= -> ->] & Hj). apply elem_of_seq in Hj. destruct (lookup_lt_is_Some_2 y i) as [v Hv]; [rewrite Hyl; by eapply lookup_lt_Some|]. rewrite Hv. cbn.
      replace (Z.to_nat (Z.of_nat (row_start lens i) + Z.of_nat j)) with (row_start lens i + j) by lia. unfold per_token.
      pose proof (concat_lookup (zip_with (fun n v => replicate n v) lens y) i (replicate n v) j v) as Hcell. rewrite (per_token_rows lens y Hyl) in Hcell.
      apply Hcell; [by rewrite lookup_zip_with, Hn, Hv|]. apply lookup_replicate_2. lia.
    + intros c. destruct (decide (c < sum_list lens)) as [Hc|Hc]; [right|left; by rewrite !lookup_ge_None_2 by (rewrite ?per_token_length, ?empty_length by done; lia)].
      destruct (concat_index (zip_with (fun n v => replicate n v) lens y) c) as (i & row & j & v & Hrow & Hj & -> & _); [fold (per_token lens y); by rewrite per_token_length|].
      rewrite (per_token_rows lens y Hyl). apply lookup_zip_with_Some in Hrow as (n & v' & -> & Hn & Hv). apply lookup_replicate in Hj as [_ Hj].
      eexists i, _, _, _. split; [by rewrite list_lookup_imap, Hn|]. split; [apply list_elem_of_fmap; exists j; split; [reflexivity|apply elem_of_seq; lia]|lia].
  - intros i n Hn. unfold expand_kernel. rewrite (range_ok _ _ _ Hn). cbn [mbind outcome_bind]. destruct (lookup_lt_is_Some_2 x i) as [v Hv]; [rewrite Hl; by eapply lookup_lt_Some|].
    rewrite (load_at_ok x _ i v) by done. cbn [mbind outcome_bind]. f_equal. unfold y. rewrite list_lookup_fmap, Hv. cbn [fmap option_fmap option_map from_option].
    replace (Z.of_nat (row_start lens i + n) - Z.of_nat (row_start lens i))%Z with (Z.of_nat n) by lia. by apply lanes_masked, (Hmax i).
Qed.

(** * The tokens of a request *)

(** The reference: for each draft token the token to put in its place, and if the draft was rejected; the bonus token follows
    when none was. *)
Fixpoint verified (verdicts : list (Z * bool)) (bonus : Z) : list Z :=
  match verdicts with
  | [] => [bonus]
  | (t, true) :: _ => [t]
  | (t, false) :: verdicts => t :: verified verdicts bonus
  end.

Lemma verified_length verdicts bonus : 1 <= length (verified verdicts bonus) <= S (length verdicts).
Proof. induction verdicts as [|[t []] verdicts IH]; cbn; lia. Qed.

Lemma positions_rejected accept base n : forall pos, positions accept base n pos true = Ok ([], true).
Proof. induction n as [|n IH]; intros pos; [done|apply IH]. Qed.

Lemma positions_verified accept base bonus verdicts : forall pos, (forall j v, verdicts !! j = Some v -> accept (pos + Z.of_nat j)%Z = Ok v) ->
  exists stores rejected, positions accept base (length verdicts) pos false = Ok (stores, rejected) /\
    stores ++ (if rejected : bool then [] else [(base + (pos + Z.of_nat (length verdicts)), bonus)%Z]) =
      imap (fun j t => (base + (pos + Z.of_nat j), t)%Z) (verified verdicts bonus).
Proof.
  induction verdicts as [|[t r] verdicts IH]; intros pos Ha; cbn [positions length verified]; [eexists _, _; split; [done|]; done|].
  pose proof (Ha 0 (t, r) eq_refl) as Hfirst. rewrite Z.add_0_r in Hfirst. rewrite Hfirst. cbn [mbind outcome_bind]. destruct r.
  - rewrite positions_rejected. cbn [mbind outcome_bind]. eexists _, _. split; [done|]. cbn. do 3 f_equal. lia.
  - destruct (IH (pos + 1)%Z) as (stores & rejected & -> & Heq).
    { intros j v Hj. replace (pos + 1 + Z.of_nat j)%Z with (pos + Z.of_nat (S j))%Z by lia. by apply Ha. }
    cbn [mbind outcome_bind]. eexists _, _. split; [done|]. rewrite imap_cons. cbn [app]. f_equal; [f_equal; lia|].
    replace (base + (pos + Z.of_nat (S (length verdicts))))%Z with (base + (pos + 1 + Z.of_nat (length verdicts)))%Z by lia. rewrite Heq.
    apply imap_ext. intros j x _. cbn. f_equal. lia.
Qed.

Lemma sample_request_ok accept lens bonus max_spec_len i verdicts b : lens !! i = Some (length verdicts) -> bonus !! i = Some b ->
  (forall j v, verdicts !! j = Some v -> accept (Z.of_nat (row_start lens i) + Z.of_nat j)%Z = Ok v) ->
  sample_request accept (NumpyArrays.cumsum (counts lens)) bonus max_spec_len i = Ok (row_stores (max_spec_len + 1) i (verified verdicts b)).
Proof.
  intros Hi Hb Ha. unfold sample_request. rewrite (range_ok _ _ _ Hi). cbn [mbind outcome_bind].
  replace (Z.of_nat (row_start lens i + length verdicts) - Z.of_nat (row_start lens i))%Z with (Z.of_nat (length verdicts)) by lia. rewrite Nat2Z.id.
  destruct (positions_verified (fun pos => accept (Z.of_nat (row_start lens i) + pos)%Z) (Z.of_nat i * (Z.of_nat max_spec_len + 1)) b verdicts 0) as (stores & rejected & -> & Heq);
    [intros j v Hj; by apply Ha|]. cbn [mbind outcome_bind].
  assert (imap (fun j t => (Z.of_nat i * (Z.of_nat max_spec_len + 1) + (0 + Z.of_nat j), t)%Z) (verified verdicts b) = row_stores (max_spec_len + 1) i (verified verdicts b)) as Hrow.
  { unfold row_stores. apply imap_ext. intros j x _. cbn. f_equal. lia. }
  rewrite <-Hrow, <-Heq. destruct rejected; [by rewrite app_nil_r|]. rewrite (load_at_ok bonus _ i b) by done. done.
Qed.

(** ** What the requests get, without loads and stores *)

Section verdicts.
Context {F : Type} `{Scalar F}.

Definition argmax_of {A} (le : A -> A -> bool) (l : list A) : nat := match argmax le l with Ok t => t | Raise _ => 0 end.

Definition greedy_verdicts (drafts : list Z) (rows : list (list (option F))) : list (Z * bool) :=
  zip_with (fun d row => let t := Z.of_nat (argmax_of lle row) in (t, negb (d =? t)%Z)) drafts rows.

(** The probabilities without the draft token's, divided by the exponential variables, with the lanes behind the vocabulary. *)
Definition residual (padded : nat) (row q : list F) (d : Z) : list F :=
  imap (fun off '(p, x) => fdiv (if (Z.of_nat off =? d)%Z then f0 else p) x) (zip row q) ++ replicate (padded - length row) f0.
Definition recovered (padded : nat) (row q : list F) (d : Z) : Z := Z.of_nat (argmax_of fle (residual padded row q d)).

Definition random_verdicts (padded : nat) (drafts : list Z) (rows : list (list F)) (us q : list F) : list (Z * bool) :=
  zip_with (fun '(d, row) u => if negb (fle f1 f0) && fle u (fdiv (nth (Z.to_nat d) row f0) f1) then (d, false) else (recovered padded row q d, true)) (zip drafts rows) us.
End verdicts.

Lemma argmax_of_ok {A} (le : A -> A -> bool) (l : list A) : l <> [] -> argmax le l = Ok (argmax_of le l).
Proof. unfold argmax_of. by destruct l. Qed.

Lemma lanes_load {B} (f : Z -> outcome B) (l : list B) : (forall j x, l !! j = Some x -> f (Z.of_nat j) = Ok x) -> mapM f (lanes 0 (length l)) = Ok l.
Proof.
  intros Hf. apply mapM_each, Forall2_same_length_lookup. split; [unfold lanes; by rewrite length_fmap, length_seq|]. intros j o x Ho Hx.
  unfold lanes in Ho. rewrite list_lookup_fmap, lookup_seq_lt in Ho by (by eapply lookup_lt_Some). injection Ho as <-. by apply Hf.
Qed.

Definition on_rows {A B} (f : A -> B) (T : list (list (list A))) : list (list (list B)) := map (map (map f)) T.

Lemma flat_on_rows {A B} (f : A -> B) (T : list (list (list A))) : list_fmap A B f (concat (concat T)) = concat (concat (on_rows f T)).
Proof.
  rewrite (fmap_concat f (concat T)). f_equal. exact (fmap_concat (list_fmap A B f) T).
Qed.

Section run.
Context {F : Type} `{Scalar F, SampleOps F} `{DeviceLaws}.
Context (vocab_size : nat) (ds : list (list Z)).
Notation lens := (length <$> ds).
Notation cu := (NumpyArrays.cumsum (counts lens)).

Lemma lens_lookup {B} (ls : list (list B)) i (l : list B) : length <$> ls = lens -> ls !! i = Some l -> exists drafts, ds !! i = Some drafts /\ length drafts = length l.
Proof.
  intros Hl Hi. assert (lens !! i = Some (length l)) as Hn by (by rewrite <-Hl, list_lookup_fmap, Hi). rewrite list_lookup_fmap in Hn.
  destruct (ds !! i) as [drafts|]; [|done]. injection Hn as Hn. eauto.
Qed.

(** The load of a probability. *)
Lemma load_prob (P : list (list (list F))) i rows j row off x : length <$> P = lens -> width_is vocab_size (concat P) -> P !! i = Some rows -> rows !! j = Some row -> row !! off = Some x ->
  load_at (concat (concat P)) ((Z.of_nat (row_start lens i) + Z.of_nat j) * Z.of_nat vocab_size + Z.of_nat off) = Ok x.
Proof.
  intros Hl Hw Hi Hj Hx. replace (Z.of_nat (row_start lens i) + Z.of_nat j)%Z with (Z.of_nat (row_start lens i + j)) by lia.
  eapply load_cell; [exact Hw| |exact Hx]. rewrite <-Hl. by eapply concat_lookup.
Qed.

Lemma recovered_kernel_ok (P : list (list (list F))) (Q : list (list F)) padded i pos drafts rows q : length <$> P = lens -> width_is vocab_size (concat P) -> width_is vocab_size Q ->
  ds !! i = Some drafts -> P !! i = Some rows -> Q !! i = Some q -> vocab_size <= padded -> 0 < padded ->
  sample_recovered_tokens_kernel cu (concat ds) None (concat (concat P)) (concat Q) vocab_size padded i pos =
    Ok (match drafts !! pos, rows !! pos with Some d, Some row => [(Z.of_nat (row_start lens i + pos), recovered padded row q d)] | _, _ => [] end).
Proof.
  intros Hl Hw Hq Hi HP HQ Hpad Hpos. assert (lens !! i = Some (length drafts)) as Hn by (by rewrite list_lookup_fmap, Hi).
  destruct (lens_lookup P i rows Hl HP) as (drafts' & Hi' & Hlr). rewrite Hi in Hi'. injection Hi' as <-.
  unfold sample_recovered_tokens_kernel. rewrite (range_ok _ _ _ Hn). cbn [mbind outcome_bind].
  replace (Z.of_nat (row_start lens i + length drafts) - Z.of_nat (row_start lens i))%Z with (Z.of_nat (length drafts)) by lia.
  destruct (Z.leb_spec (Z.of_nat (length drafts)) (Z.of_nat pos)) as [Hge|Hlt]; [by rewrite (lookup_ge_None_2 drafts) by lia|].
  destruct (lookup_lt_is_Some_2 drafts pos) as [d Hd]; [lia|]. destruct (lookup_lt_is_Some_2 rows pos) as [row Hrow]; [lia|]. rewrite Hd, Hrow.
  rewrite (load_row lens ds i drafts pos d eq_refl Hi Hd). cbn [mbind outcome_bind].
  assert (length row = vocab_size) as Hrl by (apply (Hw (row_start lens i + pos)); rewrite <-Hl; by eapply concat_lookup).
  assert (length q = vocab_size) as Hql by by apply (Hq i).
  set (p := imap (fun off x => if (Z.of_nat off =? d)%Z then f0 else x) row ++ replicate (padded - vocab_size) f0).
  assert (length p = padded) as Hpl by (unfold p; rewrite length_app, length_imap, length_replicate; lia).
  unfold load_lanes. rewrite <-Hpl at 1. rewrite (lanes_load _ p).
  2:{ intros j x Hx. unfold p in Hx. apply lookup_app_Some in Hx as [Hx|[Hj Hx]].
      - rewrite list_lookup_imap in Hx. destruct (row !! j) as [y|] eqn:Hy; [|done]. injection Hx as <-. rewrite (proj2 (Z.ltb_lt _ _)) by (apply lookup_lt_Some in Hy; lia).
        cbn. destruct (Z.eqb_spec (Z.of_nat j) d); [done|]. cbn. by apply (load_prob P i rows pos row).
      - rewrite length_imap in Hj. rewrite (proj2 (Z.ltb_ge _ _)) by lia. apply lookup_replicate in Hx as [-> _]. done. }
  cbn [mbind outcome_bind]. set (qs := (Some <$> q) ++ replicate (padded - vocab_size) None).
  assert (length qs = padded) as Hqsl by (unfold qs; rewrite length_app, length_fmap, length_replicate; lia). rewrite <-Hqsl at 1. rewrite (lanes_load _ qs).
  2:{ intros j x Hx. unfold qs in Hx. apply lookup_app_Some in Hx as [Hx|[Hj Hx]].
      - rewrite list_lookup_fmap in Hx. destruct (q !! j) as [y|] eqn:Hy; [|done]. injection Hx as <-. rewrite (proj2 (Z.ltb_lt _ _)) by (apply lookup_lt_Some in Hy; lia).
        rewrite (load_cell vocab_size Q i q j y Hq HQ Hy). done.
      - rewrite length_fmap in Hj. rewrite (proj2 (Z.ltb_ge _ _)) by lia. apply lookup_replicate in Hx as [-> _]. done. }
  cbn [mbind outcome_bind]. assert (zip_with (fun p q => match q with Some q => fdiv p q | None => f0 end) p qs = residual padded row q d) as ->.
  { unfold p, qs, residual. rewrite zip_with_app by (rewrite length_imap, length_fmap; lia). f_equal.
    - apply list_eq. intros j. rewrite lookup_zip_with, !list_lookup_imap, list_lookup_fmap, lookup_zip_with. destruct (row !! j), (q !! j); done.
    - rewrite Hrl. generalize (padded - vocab_size). intros k. clear. induction k as [|k IH]; [done|]. cbn. by rewrite IH. }
  rewrite argmax_of_ok.
  - cbn [mbind outcome_bind]. do 3 f_equal. lia.
  - intros Hnil. apply (f_equal length) in Hnil. unfold residual in Hnil. rewrite length_app, length_imap, length_zip_with, length_replicate in Hnil. cbn in Hnil. lia.
Qed.
End run.

Lemma mapM_all {A B} (f : A -> outcome B) (g : A -> B) (l : list A) : (forall x, x ∈ l -> f x = Ok (g x)) -> mapM f l = Ok (g <$> l).
Proof. intros Hf. apply mapM_each, Forall2_fmap_r. apply Forall_Forall2_diag, Forall_forall. exact Hf. Qed.

(** ** Random numbers *)

Section numbers.
Context {F : Type} `{Scalar F} (vocab_size : nat).

Lemma own_exponential_ok num_draft gens : forall q : list (list F), length q = length num_draft -> Forall (drawn vocab_size) q ->
  Forall (fun '(i, draw) => i < length num_draft /\ drawn vocab_size draw) gens ->
  exists q', own_exponential q num_draft gens = Ok q' /\ length q' = length num_draft /\ Forall (drawn vocab_size) q'.
Proof.
  induction gens as [|[i draw] gens IH]; intros q Hl Hq Hg; cbn [own_exponential]; [eauto|]. apply Forall_cons_1 in Hg as [[Hi Hd] Hg].
  destruct (lookup_lt_is_Some_2 num_draft i Hi) as [n Hn]. rewrite (at_index_ok _ _ _ Hn). cbn [mbind outcome_bind].
  destruct (0 <? n)%Z; cbn [mbind outcome_bind]; [rewrite store_at_ok by lia; cbn [mbind outcome_bind]|by apply IH].
  apply IH; [by rewrite length_insert| |done]. by apply Forall_insert.
Qed.

Lemma uniform_ok (P : F -> Prop) (gens : gmap nat (list F)) ns : forall u start k, start + sum_list ns <= length u -> Forall P u ->
  (forall j n draw, ns !! j = Some n -> gens !! (k + j) = Some draw -> length draw = n /\ Forall P draw) ->
  exists u', generate_uniform_probs u start k (counts ns) gens = Ok u' /\ length u' = length u /\ Forall P u'.
Proof.
  induction ns as [|n ns IH]; intros u start k Hl Hu Hg; cbn [generate_uniform_probs fmap list_fmap]; [eauto|]. cbn in Hl.
  assert (forall j n' draw, ns !! j = Some n' -> gens !! (S k + j) = Some draw -> length draw = n' /\ Forall P draw) as Hg'.
  { intros j n' draw Hj Hd. apply (Hg (S j)); [done|]. by rewrite Nat.add_succ_r. }
  destruct (Z.eqb_spec (Z.of_nat n) 0) as [H0|H0]; [apply IH; [lia|done|done]|]. rewrite Nat2Z.id.
  destruct (gens !! k) as [draw|] eqn:Hk; cbn [mbind outcome_bind]; [|apply IH; [lia|done|done]].
  destruct (Hg 0 n draw eq_refl) as [<- HP]; [by rewrite Nat.add_0_r|]. rewrite assign_range_exact by lia. cbn [mbind outcome_bind].
  destruct (IH (take start u ++ draw ++ drop (start + length draw) u) (start + length draw) (S k)) as (u' & -> & Hl' & Hu').
  - rewrite !length_app, length_take, length_drop. lia.
  - apply Forall_app. split; [by apply Forall_take|]. apply Forall_app. split; [done|by apply Forall_drop].
  - done.
  - exists u'. split; [done|]. split; [|done]. rewrite Hl', !length_app, length_take, length_drop. lia.
Qed.
End numbers.

Section launches.
Context {F : Type} `{Scalar F, SampleOps F} `{DeviceLaws}.
Context (vocab_size max_spec_len : nat) (ds : list (list Z)).
Notation lens := (length <$> ds).
Notation cu := (NumpyArrays.cumsum (counts lens)).
Notation padded := (Z.to_nat (next_power_of_2 (Z.of_nat vocab_size))).

Lemma padded_ok : vocab_size <= padded /\ 0 < padded.
Proof.
  unfold next_power_of_2. destruct (decide (vocab_size = 0)) as [->|]; [change (0 <= 1 /\ 0 < 1); lia|].
  assert (Z.of_nat vocab_size <= 2 ^ Z.log2_up (Z.of_nat vocab_size))%Z by (apply Z.log2_up_le_pow2; lia).
  generalize dependent (2 ^ Z.log2_up (Z.of_nat vocab_size))%Z. lia.
Qed.

(** The recovered tokens of all requests. *)
Definition recovered_rows (P : list (list (list F))) (Q : list (list F)) : list (list Z) :=
  imap (fun i drafts => zip_with (fun d row => recovered padded row (Q !!! i) d) drafts (P !!! i)) ds.

Lemma recovered_rows_length P Q : length <$> P = lens -> length <$> recovered_rows P Q = lens.
Proof.
  intros Hl. apply list_eq. intros i. unfold recovered_rows. rewrite !list_lookup_fmap, list_lookup_imap. destruct (ds !! i) as [drafts|] eqn:Hi; [|done]. cbn. f_equal.
  rewrite length_zip_with. assert (lens !! i = Some (length drafts)) as Hn by (by rewrite list_lookup_fmap, Hi). rewrite <-Hl, list_lookup_fmap in Hn.
  destruct (P !! i) as [rows|] eqn:HP; [|done]. injection Hn as Hn. rewrite (list_lookup_total_correct _ _ _ HP). lia.
Qed.

Lemma recovered_launch (P : list (list (list F))) (Q : list (list F)) : length <$> P = lens -> width_is vocab_size (concat P) -> width_is vocab_size Q -> length Q = length ds ->
  Forall (fun n => n <= max_spec_len) lens ->
  launch (mapM (fun '(req_idx, pos) => sample_recovered_tokens_kernel cu (concat ds) None (concat (concat P)) (concat Q) vocab_size padded req_idx pos)
            (i ← seq 0 (length ds); (fun pos => (i, pos)) <$> seq 0 max_spec_len)) (new_empty Z 0%Z (length (concat ds))) = Ok (concat (recovered_rows P Q)).
Proof.
  intros Hl Hw Hq HQl Hmax. rewrite Forall_lookup in Hmax. pose proof padded_ok as [Hp1 Hp2]. pose proof (recovered_rows_length P Q Hl) as HR.
  set (g := fun '(i, pos) => match ds !! i ≫= (fun l => l !! pos), P !! i ≫= (fun l => l !! pos) with
    Some d, Some row => [(Z.of_nat (row_start lens i + pos), recovered padded row (Q !!! i) d)] | _, _ => [] end).
  assert (forall i pos, (i, pos) ∈ (i ← seq 0 (length ds); (fun pos => (i, pos)) <$> seq 0 max_spec_len) <-> i < length ds /\ pos < max_spec_len) as Hpairs.
  { intros i pos. rewrite list_elem_of_bind. split.
    - intros (i' & Hin & Hi'). apply list_elem_of_fmap in Hin as (pos' & [= -> ->] & Hpos). apply elem_of_seq in Hi', Hpos. lia.
    - intros [Hi Hpos]. exists i. split; [|apply elem_of_seq; lia]. apply list_elem_of_fmap. exists pos. split; [done|]. apply elem_of_seq. lia. }
  assert (length P = length ds) as HPl by (apply (f_equal length) in Hl; by rewrite !length_fmap in Hl).
  rewrite (mapM_all _ g).
  2:{ intros [i pos] [Hi Hpos]%Hpairs. destruct (lookup_lt_is_Some_2 ds i Hi) as [drafts Hd]. destruct (lookup_lt_is_Some_2 P i) as [rows HP]; [lia|].
      destruct (lookup_lt_is_Some_2 Q i) as [q HQ]; [lia|]. rewrite (recovered_kernel_ok vocab_size ds P Q padded i pos drafts rows q) by done. unfold g. rewrite Hd, HP. cbn.
      by rewrite (list_lookup_total_correct _ _ _ HQ). }
  unfold launch. cbn [mbind outcome_bind]. f_equal. assert (length (concat (recovered_rows P Q)) = length (concat ds)) as Hlen.
  { rewrite !length_concat_sum. by rewrite HR. }
  eapply run_exact; [apply schedule_runs|by rewrite empty_length| |].
  - intros k p a v Hp Hin. apply list_elem_of_lookup_2, list_elem_of_fmap in Hp as ([i pos] & -> & _). unfold g in Hin.
    destruct (ds !! i) as [drafts|] eqn:Hd; cbn in Hin; [|by apply elem_of_nil in Hin]. destruct (drafts !! pos) as [d|] eqn:Hdp; [|by apply elem_of_nil in Hin].
    destruct (P !! i) as [rows|] eqn:HP; cbn in Hin; [|by apply elem_of_nil in Hin]. destruct (rows !! pos) as [row|] eqn:Hrow; [|by apply elem_of_nil in Hin].
    apply list_elem_of_singleton in Hin as [= -> ->]. rewrite Nat2Z.id. rewrite <-HR. eapply concat_lookup.
    + unfold recovered_rows. by rewrite list_lookup_imap, Hd.
    + cbn. rewrite (list_lookup_total_correct _ _ _ HP), lookup_zip_with, Hdp, Hrow. done.
  - intros c. destruct (decide (c < length (concat ds))) as [Hc|Hc]; [right|left; by rewrite !lookup_ge_None_2 by (rewrite ?empty_length; lia)].
    destruct (concat_index ds c Hc) as (i & drafts & pos & d & Hd & Hdp & -> & _). assert (lens !! i = Some (length drafts)) as Hn by (by rewrite list_lookup_fmap, Hd).
    assert (exists rows, P !! i = Some rows /\ length rows = length drafts) as (rows & HP & Hlr).
    { rewrite <-Hl, list_lookup_fmap in Hn. destruct (P !! i) as [rows|]; [|done]. injection Hn as Hn. eauto. }
    destruct (lookup_lt_is_Some_2 rows pos) as [row Hrow]; [rewrite Hlr; by eapply lookup_lt_Some|].
    pose proof (Hmax i _ Hn). assert (g (i, pos) ∈ g <$> (i ← seq 0 (length ds); (fun pos => (i, pos)) <$> seq 0 max_spec_len)) as [k Hk]%list_elem_of_lookup.
    { apply list_elem_of_fmap_2, Hpairs. apply lookup_lt_Some in Hd, Hdp. lia. }
    eexists k, _, _, _. split; [exact Hk|]. unfold g. rewrite Hd, HP. cbn. rewrite Hdp, Hrow. split; [by apply list_elem_of_singleton|]. lia.
Qed.
End launches.

(** * The sampling of a batch *)

Lemma concat_replicate {A} n w (x : A) : replicate (n * w) x = concat (replicate n (replicate w x)).
Proof. induction n as [|n IH]; [done|]. cbn. by rewrite replicate_add, IH. Qed.

Lemma overlay_nil {A} (row : list A) : overlay [] row = row.
Proof. done. Qed.

Section sampling.
Context {F : Type} `{Scalar F, SampleOps F} `{DeviceLaws}.
Context (vocab_size max_spec_len : nat) (ds : list (list Z)) (T : list (list (list (option F)))) (bonus : list Z).
Notation lens := (length <$> ds).
Notation cu := (NumpyArrays.cumsum (counts lens)).
Notation padded := (Z.to_nat (next_power_of_2 (Z.of_nat vocab_size))).
Notation P := (on_rows (default f0) T).

(** Draft tokens are tokens, and there are target rows for each request's. *)
Record batch_ok : Prop := {
  bo_rows : length <$> T = lens;
  bo_width : width_is vocab_size (concat T);
  bo_drafts : Forall (Forall (fun d => 0 <= d < Z.of_nat vocab_size)%Z) ds;
  bo_bonus : length bonus = length ds;
  bo_spec : Forall (fun n => n <= max_spec_len) lens;
  bo_vocab : 0 < vocab_size
}.
Hypothesis Hok : batch_ok.

Lemma target_rows_at i drafts : ds !! i = Some drafts -> exists rows, T !! i = Some rows /\ length rows = length drafts /\
  forall j row, rows !! j = Some row -> length row = vocab_size /\ concat T !! (row_start lens i + j) = Some row.
Proof.
  intros Hi. pose proof (bo_rows Hok) as Hl. assert (lens !! i = Some (length drafts)) as Hn by (by rewrite list_lookup_fmap, Hi). rewrite <-Hl, list_lookup_fmap in Hn.
  destruct (T !! i) as [rows|] eqn:HT; [|done]. injection Hn as Hn. exists rows. split; [done|]. split; [done|]. intros j row Hrow.
  assert (concat T !! (row_start lens i + j) = Some row) as Hc by (rewrite <-Hl; by eapply concat_lookup). split; [|done]. by apply (bo_width Hok (row_start lens i + j)).
Qed.

Lemma bonus_at i drafts : ds !! i = Some drafts -> exists b, bonus !! i = Some b.
Proof. intros Hi. apply lookup_lt_is_Some_2. rewrite (bo_bonus Hok). by eapply lookup_lt_Some. Qed.

Lemma greedy_kernel_ok is_greedy i drafts rows b g : ds !! i = Some drafts -> T !! i = Some rows -> bonus !! i = Some b ->
  match is_greedy with None => g = true | Some l => l !! i = Some g end ->
  rejection_greedy_sample_kernel cu (concat ds) (Z.of_nat <$> (argmax_of lle <$> concat T)) bonus is_greedy max_spec_len i =
    Ok (row_stores (max_spec_len + 1) i (if g : bool then verified (greedy_verdicts drafts rows) b else [])).
Proof.
  intros Hi HT Hb Hg. assert (match is_greedy with None => Ok true | Some l => load_at l (Z.of_nat i) end = Ok g) as Hload.
  { destruct is_greedy as [l|]; [by apply (load_at_ok l _ i)|by rewrite Hg]. }
  unfold rejection_greedy_sample_kernel. rewrite Hload. cbn [mbind outcome_bind]. destruct g; cbn [negb]; [|done].
  destruct (target_rows_at i drafts Hi) as (rows' & HT' & Hlr & Hrows). rewrite HT in HT'. injection HT' as <-.
  assert (length (greedy_verdicts drafts rows) = length drafts) as Hvl by (unfold greedy_verdicts; rewrite length_zip_with; lia).
  apply sample_request_ok; [by rewrite list_lookup_fmap, Hi, Hvl|done|]. intros j v Hv. unfold greedy_verdicts in Hv.
  apply lookup_zip_with_Some in Hv as (d & row & -> & Hd & Hrow). rewrite (load_row lens ds i drafts j d eq_refl Hi Hd). cbn [mbind outcome_bind].
  rewrite (load_at_ok _ _ (row_start lens i + j) (Z.of_nat (argmax_of lle row))); [done|lia|]. rewrite !list_lookup_fmap. by rewrite (proj2 (Hrows j row Hrow)).
Qed.

Lemma probs_width : width_is vocab_size (concat P).
Proof.
  intros r row Hr. assert (concat P = map (map (default f0)) (concat T)) as E by (symmetry; exact (fmap_concat (map (default f0)) T)). rewrite E in Hr.
  change (map (map (default f0)) (concat T)) with (list_fmap _ _ (map (default f0)) (concat T)) in Hr. rewrite list_lookup_fmap in Hr.
  destruct (concat T !! r) as [row'|] eqn:Hrow; [|done]. injection Hr as <-. rewrite length_map. by apply (bo_width Hok r).
Qed.

Lemma probs_rows : length <$> P = lens.
Proof. rewrite <-(bo_rows Hok). unfold on_rows. induction T as [|rows T' IH]; [done|]. cbn. by rewrite length_map, IH. Qed.

Lemma probs_at i rows : T !! i = Some rows -> P !! i = Some (map (map (default f0)) rows).
Proof. intros Hi. unfold on_rows. change (map (map (map (default f0))) T) with (list_fmap _ _ (map (map (default f0))) T). by rewrite list_lookup_fmap, Hi. Qed.

Lemma random_kernel_ok (u : list F) (Q : list (list F)) is_greedy i drafts rows b q g : ds !! i = Some drafts -> T !! i = Some rows -> bonus !! i = Some b -> Q !! i = Some q ->
  length u = sum_list lens -> is_greedy !! i = Some g ->
  rejection_random_sample_kernel cu (concat ds) None (concat (concat P)) bonus (concat (recovered_rows vocab_size ds P Q)) u is_greedy max_spec_len vocab_size i =
    Ok (row_stores (max_spec_len + 1) i (if g : bool then [] else verified (random_verdicts padded drafts (map (map (default f0)) rows) (drop (row_start lens i) u) q) b)).
Proof.
  intros Hi HT Hb HQ Hu Hg. unfold rejection_random_sample_kernel. rewrite (load_at_ok is_greedy _ i g) by done. cbn [mbind outcome_bind]. destruct g; [done|].
  destruct (target_rows_at i drafts Hi) as (rows' & HT' & Hlr & Hrows). rewrite HT in HT'. injection HT' as <-.
  assert (lens !! i = Some (length drafts)) as Hn by (by rewrite list_lookup_fmap, Hi).
  assert (row_start lens i + length drafts <= length u) as Hfit.
  { rewrite Hu, <-(row_start_S _ _ _ Hn). unfold row_start. rewrite <-(take_drop (S i) lens) at 2. rewrite sum_list_with_app. lia. }
  assert (length (random_verdicts padded drafts (map (map (default f0)) rows) (drop (row_start lens i) u) q) = length drafts) as Hvl.
  { unfold random_verdicts. rewrite !length_zip_with, length_map, length_drop. lia. }
  apply sample_request_ok; [by rewrite Hn, Hvl|done|]. intros j v Hv. unfold random_verdicts in Hv.
  apply lookup_zip_with_Some in Hv as ([d prow] & uu & -> & Hz & Huu). apply lookup_zip_with_Some in Hz as (? & ? & [= <- <-] & Hd & Hprow).
  rewrite lookup_drop in Huu. change (map (map (default f0)) rows) with (list_fmap _ _ (map (default f0)) rows) in Hprow. rewrite list_lookup_fmap in Hprow.
  destruct (rows !! j) as [row|] eqn:Hrow; [|done]. injection Hprow as <-. destruct (Hrows j row Hrow) as [Hw _].
  pose proof (bo_drafts Hok) as Hdr. rewrite Forall_lookup in Hdr. pose proof (Hdr i drafts Hi) as Hdi. rewrite Forall_lookup in Hdi. pose proof (Hdi j d Hd) as Hdv.
  rewrite (load_row lens ds i drafts j d eq_refl Hi Hd). cbn [mbind outcome_bind].
  destruct (lookup_lt_is_Some_2 (map (default f0) row) (Z.to_nat d)) as [p Hp]; [rewrite length_map; lia|].
  assert (map (map (default f0)) rows !! j = Some (map (default f0) row)) as HPj.
  { change (map (map (default f0)) rows) with (list_fmap _ _ (map (default f0)) rows). by rewrite list_lookup_fmap, Hrow. }
  pose proof (load_prob vocab_size ds P i _ j _ (Z.to_nat d) p probs_rows probs_width (probs_at i rows HT) HPj Hp) as Hload.
  rewrite Z2Nat.id in Hload by lia. rewrite Hload. cbn [mbind outcome_bind].
  rewrite (load_at_ok u _ (row_start lens i + j) uu) by (done || lia). cbn [mbind outcome_bind]. rewrite (nth_lookup_Some _ _ _ _ Hp).
  destruct (negb (fle f1 f0) && fle uu (fdiv p f1)); [done|].
  rewrite (load_row lens (recovered_rows vocab_size ds P Q) i (zip_with (fun d row => recovered padded row q d) drafts (map (map (default f0)) rows)) j (recovered padded (map (default f0) row) q d)); [done| | |].
  - apply recovered_rows_length, probs_rows.
  - unfold recovered_rows. rewrite list_lookup_imap, Hi. cbn. rewrite (list_lookup_total_correct _ _ _ HQ), (list_lookup_total_correct _ _ _ (probs_at i rows HT)). done.
  - by rewrite lookup_zip_with, Hd, HPj.
Qed.

(** The requests that are greedy. *)
Definition greedy_flags (sm : SamplingMetadata F) (greedy : list bool) : Prop :=
  sm_all_greedy sm && sm_all_random sm = false /\ length greedy = length ds /\
  if sm_all_greedy sm then Forall (eq true) greedy
  else exists temp, sm_temperature sm = Some temp /\ greedy = (fun t => feq t (fofZ GREEDY_TEMPERATURE)) <$> temp /\ (sm_all_random sm = true -> Forall (eq false) greedy).

(** What a request gets. *)
Definition flag (greedy : list bool) (i : nat) : bool := greedy !!! i.

Lemma flag_at greedy i g : greedy !! i = Some g -> flag greedy i = g.
Proof. apply list_lookup_total_correct. Qed.

Definition tokens_of (greedy : list bool) (u : list F) (Q : list (list F)) (i : nat) (drafts : list Z) : list Z :=
  verified (if flag greedy i then greedy_verdicts drafts (T !!! i)
            else random_verdicts padded drafts (map (map (default f0)) (T !!! i)) (drop (row_start lens i) u) (Q !!! i)) (bonus !!! i).

Lemma tokens_of_length greedy (u : list F) Q i drafts : ds !! i = Some drafts -> 1 <= length (tokens_of greedy u Q i drafts) <= S (length drafts).
Proof.
  intros Hi. unfold tokens_of. match goal with |- context [verified ?v ?b] => pose proof (verified_length v b) as Hv end.
  enough (length (if flag greedy i then greedy_verdicts drafts (T !!! i)
            else random_verdicts padded drafts (map (map (default f0)) (T !!! i)) (drop (row_start lens i) u) (Q !!! i)) <= length drafts) by lia.
  destruct (flag greedy i); unfold greedy_verdicts, random_verdicts; rewrite !length_zip_with; lia.
Qed.

Notation blank := (replicate (max_spec_len + 1) PLACEHOLDER_TOKEN_ID).

(** A launch of one of the sampling kernels, over the requests that are greedy or the others. *)
Lemma sampling_launch kernel (mine : nat -> bool) greedy (u : list F) Q rows : width_is (max_spec_len + 1) rows -> length rows = length ds ->
  (forall i drafts, ds !! i = Some drafts -> kernel i = Ok (row_stores (max_spec_len + 1) i (if mine i : bool then tokens_of greedy u Q i drafts else []))) ->
  launch (mapM kernel (seq 0 (length ds))) (concat rows) =
    Ok (concat (zip_with overlay (imap (fun i drafts => if mine i then tokens_of greedy u Q i drafts else []) ds) rows)).
Proof.
  intros Hw Hl Hk. set (stores := imap (fun i drafts => if mine i then tokens_of greedy u Q i drafts else []) ds).
  assert (length stores = length ds) as Hsl by apply length_imap. rewrite <-Hsl, (mapM_imap _ (row_stores (max_spec_len + 1))).
  - apply launch_rows; [done|lia|]. intros i s Hs. unfold stores in Hs. rewrite list_lookup_imap in Hs. destruct (ds !! i) as [drafts|] eqn:Hi; [|done]. injection Hs as <-.
    destruct (mine i); [|cbn; lia]. pose proof (tokens_of_length greedy u Q i drafts Hi). pose proof (bo_spec Hok) as Hm. rewrite Forall_lookup in Hm.
    pose proof (Hm i (length drafts) ltac:(by rewrite list_lookup_fmap, Hi)). lia.
  - intros i s Hs. unfold stores in Hs. rewrite list_lookup_imap in Hs. destruct (ds !! i) as [drafts|] eqn:Hi; [|done]. injection Hs as <-. by apply Hk.
Qed.

Lemma blank_width n : width_is (max_spec_len + 1) (replicate n blank).
Proof. intros r row [-> _]%lookup_replicate. apply length_replicate. Qed.

Definition out_rows (mine : nat -> bool) (greedy : list bool) (u : list F) (Q : list (list F)) : list (list Z) := imap (fun i drafts => overlay (if mine i then tokens_of greedy u Q i drafts else []) blank) ds.

Lemma first_launch mine greedy u Q : zip_with overlay (imap (fun i drafts => if mine i : bool then tokens_of greedy u Q i drafts else []) ds) (replicate (length ds) blank) =
  out_rows mine greedy u Q.
Proof.
  apply list_eq. intros i. unfold out_rows. rewrite lookup_zip_with, !list_lookup_imap. destruct (ds !! i) as [drafts|] eqn:Hi; [|done]. cbn.
  by rewrite lookup_replicate_2 by (by eapply lookup_lt_Some).
Qed.

Lemma out_rows_width mine greedy u Q : width_is (max_spec_len + 1) (out_rows mine greedy u Q).
Proof.
  intros r row Hr. unfold out_rows in Hr. rewrite list_lookup_imap in Hr. destruct (ds !! r) as [drafts|] eqn:Hi; [|done]. injection Hr as <-.
  rewrite overlay_length; [apply length_replicate|]. rewrite length_replicate. destruct (mine r); [|cbn; lia].
  pose proof (tokens_of_length greedy u Q r drafts Hi). pose proof (bo_spec Hok) as Hm. rewrite Forall_lookup in Hm.
  pose proof (Hm r (length drafts) ltac:(by rewrite list_lookup_fmap, Hi)). lia.
Qed.

Lemma second_launch greedy u Q : zip_with overlay (imap (fun i drafts => if negb (flag greedy i) then tokens_of greedy u Q i drafts else []) ds)
    (out_rows (fun i => flag greedy i) greedy u Q) = out_rows (fun _ => true) greedy u Q.
Proof.
  apply list_eq. intros i. unfold out_rows. rewrite lookup_zip_with, !list_lookup_imap. destruct (ds !! i) as [drafts|]; [|done]. cbn.
  by destruct (flag greedy i).
Qed.

Lemma out_rows_same mine mine' greedy u Q : (forall i, i < length ds -> mine i = mine' i) -> out_rows mine greedy u Q = out_rows mine' greedy u Q.
Proof.
  intros Hm. apply list_eq. intros i. unfold out_rows. rewrite !list_lookup_imap. destruct (ds !! i) as [drafts|] eqn:Hi; [|done]. cbn. rewrite Hm; [done|]. by eapply lookup_lt_Some.
Qed.

Context (d : RejectionDraws F) (u : list F) (Q : list (list F)).
Hypothesis uniform_drawn : generate_uniform_probs (rd_uniform d) 0 0 (counts lens) (rd_own_uniform d) = Ok u.
Hypothesis exponential_drawn : own_exponential (rd_exponential d) (counts lens) (rd_own_exponential d) = Ok Q.
Hypothesis u_length : length u = sum_list lens.
Hypothesis Q_length : length Q = length ds.
Hypothesis Q_width : width_is vocab_size Q.

Lemma flat_probs : default f0 <$> concat (concat T) = concat (concat P).
Proof. exact (flat_on_rows (default f0) T). Qed.

Lemma random_rejection_ok greedy rows : length greedy = length ds -> width_is (max_spec_len + 1) rows -> length rows = length ds ->
  random_rejection vocab_size (concat ds) (counts lens) max_spec_len cu None (default f0 <$> concat (concat T)) bonus (Some greedy) d (concat rows) =
    Ok (concat (zip_with overlay (imap (fun i drafts => if negb (flag greedy i) then tokens_of greedy u Q i drafts else []) ds) rows)).
Proof.
  intros Hg Hw Hl. unfold random_rejection. rewrite uniform_drawn. cbn [mbind outcome_bind]. unfold sample_recovered_tokens. rewrite exponential_drawn. cbn [mbind outcome_bind].
  rewrite flat_probs. assert (length (counts lens) = length ds) as -> by by rewrite !length_fmap.
  rewrite (recovered_launch vocab_size max_spec_len ds P Q probs_rows probs_width Q_width Q_length (bo_spec Hok)). cbn [mbind outcome_bind].
  apply (sampling_launch _ (fun i => negb (flag greedy i))); [done|done|]. intros i drafts Hi. destruct (target_rows_at i drafts Hi) as (trows & HT & _ & _).
  destruct (bonus_at i drafts Hi) as (b & Hb). destruct (lookup_lt_is_Some_2 Q i) as [q HQ]; [rewrite Q_length; by eapply lookup_lt_Some|].
  destruct (lookup_lt_is_Some_2 greedy i) as [g Hgi]; [rewrite Hg; by eapply lookup_lt_Some|].
  rewrite (random_kernel_ok u Q greedy i drafts trows b q g) by done. f_equal. f_equal. unfold tokens_of.
  rewrite !(flag_at _ _ _ Hgi), (list_lookup_total_correct _ _ _ HT), (list_lookup_total_correct _ _ _ HQ), (list_lookup_total_correct _ _ _ Hb). by destruct g.
Qed.

Lemma target_argmax_ok : mapM (argmax lle) (concat T) = Ok (argmax_of lle <$> concat T).
Proof.
  apply mapM_all. intros row [r Hr]%list_elem_of_lookup. apply argmax_of_ok. intros ->. pose proof (bo_width Hok r [] Hr). pose proof (bo_vocab Hok). cbn in *. lia.
Qed.

Lemma greedy_launch is_greedy greedy : length greedy = length ds -> match is_greedy with None => Forall (eq true) greedy | Some l => l = greedy end ->
  launch (mapM (rejection_greedy_sample_kernel cu (concat ds) (Z.of_nat <$> (argmax_of lle <$> concat T)) bonus is_greedy max_spec_len) (seq 0 (length ds)))
    (concat (replicate (length ds) blank)) = Ok (concat (out_rows (fun i => flag greedy i) greedy u Q)).
Proof.
  intros Hl Hg. rewrite (sampling_launch _ (fun i => flag greedy i) greedy u Q); [by rewrite first_launch|apply blank_width|apply length_replicate|].
  intros i drafts Hi. destruct (target_rows_at i drafts Hi) as (trows & HT & _ & _). destruct (bonus_at i drafts Hi) as (b & Hb).
  destruct (lookup_lt_is_Some_2 greedy i) as [g Hgi]; [rewrite Hl; by eapply lookup_lt_Some|].
  rewrite (greedy_kernel_ok is_greedy i drafts trows b g) by (done || (destruct is_greedy; [by subst|rewrite Forall_lookup in Hg; symmetry; by apply (Hg i)])).
  f_equal. f_equal. unfold tokens_of. rewrite !(flag_at _ _ _ Hgi), (list_lookup_total_correct _ _ _ HT), (list_lookup_total_correct _ _ _ Hb). by destruct g.
Qed.

(** Whatever the order in which programs run: every request has its tokens at the start of its row. *)
Lemma rejection_sample_run sm greedy : greedy_flags sm greedy ->
  rejection_sample vocab_size (concat ds) (counts lens) max_spec_len cu None (concat T) bonus sm d = Ok (concat (out_rows (fun _ => true) greedy u Q)).
Proof.
  intros (Hk & Hgl & Hflags). unfold rejection_sample.
  assert (length (concat T) = length (concat ds)) as HTl by (rewrite !length_concat_sum; by rewrite (bo_rows Hok)). rewrite HTl, Nat.eqb_refl.
  assert (forallb (fun row => length row =? vocab_size) (concat T) = true) as ->.
  { apply forallb_forall. intros row Hin%list_elem_of_In. apply list_elem_of_lookup in Hin as [r Hr]. apply Nat.eqb_eq. by apply (bo_width Hok r). }
  cbn [andb assert_ mbind outcome_bind]. assert (length (counts lens) = length ds) as -> by by rewrite !length_fmap. rewrite concat_replicate.
  assert (forall rows, rows = out_rows (fun i => flag greedy i) greedy u Q -> random_rejection vocab_size (concat ds) (counts lens) max_spec_len cu None (default f0 <$> concat (concat T)) bonus (Some greedy) d (concat rows) =
    Ok (concat (out_rows (fun _ => true) greedy u Q))) as Hrandom.
  { intros rows ->. rewrite random_rejection_ok by (done || apply out_rows_width || apply length_imap). by rewrite second_launch. }
  rewrite target_argmax_ok. cbn [mbind outcome_bind]. destruct (sm_all_greedy sm) eqn:Eg; cbn [mbind outcome_bind].
  - cbn in Hk. rewrite Hk. rewrite (greedy_launch None greedy) by done. cbn [mbind outcome_bind]. f_equal. f_equal. apply out_rows_same. intros i Hi.
    destruct (lookup_lt_is_Some_2 greedy i) as [g Hgi]; [lia|]. rewrite (flag_at _ _ _ Hgi). rewrite Forall_lookup in Hflags. symmetry. by apply (Hflags i).
  - destruct Hflags as (temp & -> & Hgt & Hr). cbn [mbind outcome_bind]. rewrite <-Hgt. destruct (sm_all_random sm).
    + apply Hrandom. rewrite <-first_launch with (mine := fun i => flag greedy i). apply list_eq. intros i. rewrite lookup_zip_with, list_lookup_imap.
      destruct (ds !! i) as [drafts|] eqn:Hi; cbn; [|rewrite lookup_ge_None_2; [done|rewrite length_replicate; by apply lookup_ge_None]].
      rewrite !lookup_replicate_2 by (by eapply lookup_lt_Some). cbn. destruct (lookup_lt_is_Some_2 greedy i) as [g Hgi]; [rewrite Hgl; by eapply lookup_lt_Some|].
      rewrite (flag_at _ _ _ Hgi). pose proof (Hr eq_refl) as Hf. rewrite Forall_lookup in Hf. by rewrite <-(Hf i g Hgi).
    + rewrite (greedy_launch (Some greedy) greedy) by done. cbn [mbind outcome_bind]. by apply Hrandom.
Qed.
End sampling.
