(* ===== verification/Speculation.v ===== *)
(** What speculative decoding gives: the tokens of [RejectionSampler] against a reference, and [GPUModelRunner._sample] with draft tokens
    as a whole. *)
From stdpp Require Import base gmap list strings.
From Stdlib Require Import ZArith QArith Qcanon Lia Ring.
From S2P Require Import Prelude NumpyArrays ModelRunner RunnerInputs RabitqOps RabitqQuant PyTensor SamplerOps LogitsProcessors Sampler RejectionSampler.
Open Scope nat_scope.

(** * What speculation gives *)

(** The tokens of a request for its draft tokens and target rows: accepted ones fit their rows; a token in the place of a
    rejected one suits and is another; the bonus token follows if all were accepted. *)
Inductive speculated {R : Type} (suits : R -> Z -> Prop) : list Z -> list R -> Z -> list Z -> Prop :=
| sp_bonus b : speculated suits [] [] b [b]
| sp_accept d row drafts rows b ts : suits row d -> speculated suits drafts rows b ts -> speculated suits (d :: drafts) (row :: rows) b (d :: ts)
| sp_reject d row drafts rows b t : suits row t -> t <> d -> speculated suits (d :: drafts) (row :: rows) b [t].

Lemma speculated_length {R} (suits : R -> Z -> Prop) drafts rows b ts : speculated suits drafts rows b ts -> 1 <= length ts <= S (length drafts).
Proof. induction 1; cbn in *; lia. Qed.

Lemma speculated_all {R} (suits : R -> Z -> Prop) (Q : Z -> Prop) drafts rows b ts : speculated suits drafts rows b ts ->
  (forall row t, row ∈ rows -> suits row t -> Q t) -> Q b -> Forall Q ts.
Proof.
  induction 1 as [b|d row drafts rows b ts Hd _ IH|d row drafts rows b t Ht _]; intros Hf Hb.
  - by constructor.
  - constructor; [eapply Hf; [by left|done]|]. apply IH; [|done]. intros r t Hr. apply Hf. by right.
  - constructor; [|constructor]. eapply Hf; [by left|done].
Qed.

Section suits.
Context {F : Type} `{OrderedScalar F} `{!SampleOps F} `{!SampleLaws F}.
Add Ring F_ring_fits : ex_ring.

(** A greedy request's token is the first of the largest of the target row, another's has a positive probability. *)
Definition suits (greedy : bool) (row : list (option F)) (t : Z) : Prop := exists n, t = Z.of_nat n /\
  if greedy then greedy_token row n else exists p, row !! n = Some (Some p) /\ fle p f0 = false.

Lemma greedy_speculated b : forall drafts rows, length drafts = length rows -> Forall (fun row => exists x, Some x ∈ row) rows ->
  speculated (suits true) drafts rows b (verified (greedy_verdicts drafts rows) b).
Proof.
  induction drafts as [|d drafts IH]; intros [|row rows] Hl Hr; try done; [constructor|]. injection Hl as Hl. apply Forall_cons_1 in Hr as [[x Hx] Hr].
  assert (row <> []) as Hne by (intros ->; by apply elem_of_nil in Hx). destruct (argmax_spec lle lle_refl lle_trans lle_total row Hne) as (i & m & Hi & Hm & Hmax & Hfirst).
  assert (argmax_of lle row = i) as Ha by (unfold argmax_of; by rewrite Hi).
  assert (suits true row (Z.of_nat i)) as Hfit.
  { exists i. split; [done|]. apply list_elem_of_lookup in Hx as [j Hj]. pose proof (Hmax _ _ Hj) as Hle. destruct m as [m|]; [|done]. by exists m. }
  cbn [greedy_verdicts zip_with]. rewrite Ha. cbn [verified]. destruct (Z.eqb_spec d (Z.of_nat i)) as [->|Hn]; cbn [negb].
  - constructor; [done|]. by apply IH.
  - by constructor.
Qed.

Lemma one_positive : fle (f1 : F) f0 = false.
Proof.
  destruct (fle (f1 : F) f0) eqn:E; [exfalso|done].
  pose proof (fle_add f1 f0 (fopp f1) E) as Hn. replace (fadd f1 (fopp f1)) with (f0 : F) in Hn by ring. replace (fadd f0 (fopp f1)) with (fopp f1 : F) in Hn by ring.
  pose proof (fle_mul (fopp f1) f0 (fopp f1) Hn Hn) as Hm. replace (fmul (fopp f1) f0) with (f0 : F) in Hm by ring. replace (fmul (fopp f1) (fopp f1)) with (f1 : F) in Hm by ring.
  pose proof (fle_antisym _ _ E Hm) as He. pose proof (exp_pos (f0 : F)) as Hx. replace (fexp f0) with (fmul f1 (fexp f0) : F) in Hx by ring.
  rewrite He in Hx. replace (fmul f0 (fexp f0)) with (f0 : F) in Hx by ring. by rewrite fle_refl in Hx.
Qed.

Lemma fdiv_one (p : F) : fdiv p f1 = p.
Proof. assert (f1 <> f0 :> F) as Hne by (intros He; pose proof one_positive as Hp; by rewrite He, fle_refl in Hp). rewrite <-(ex_div p f1 Hne) at 2. ring. Qed.

Lemma fsum_zeros (l : list F) : Forall (fun x => x = f0) l -> fsum l = f0.
Proof. induction 1 as [|x l -> _ IH]; [apply fsum_nil|]. rewrite fsum_cons, IH. ring. Qed.

(** Probabilities of a row. *)
Record probabilities (row : list F) : Prop := {
  pr_nonneg : Forall (fun p => fle f0 p = true) row;
  pr_sum : fsum row = f1
}.

(** Below one, some other token is possible. *)
Lemma another_possible row d p : probabilities row -> row !! d = Some p -> fle f1 p = false -> exists j x, j <> d /\ row !! j = Some x /\ fle x f0 = false.
Proof.
  intros [Hn Hs] Hd Hp. destruct (decide (Exists (fun j => j <> d /\ fle (nth j row f0) f0 = false) (seq 0 (length row)))) as [He|Hno].
  - apply Exists_exists in He as (j & Hj & Hjd & Hx). apply elem_of_seq in Hj. destruct (lookup_lt_is_Some_2 row j) as [x Hrx]; [lia|]. exists j, x. split; [done|]. split; [done|].
    by rewrite <-(nth_lookup_Some _ _ f0 _ Hrx).
  - exfalso. assert (forall j x, row !! j = Some x -> j <> d -> x = f0) as Hz.
    { intros j x Hx Hjd. rewrite Forall_lookup in Hn. apply fle_antisym; [|by apply (Hn j)]. destruct (fle x f0) eqn:E; [done|]. exfalso. apply Hno, Exists_exists. exists j.
      split; [apply elem_of_seq; apply lookup_lt_Some in Hx; lia|]. split; [done|]. by rewrite (nth_lookup_Some _ _ _ _ Hx). }
    rewrite <-(take_drop_middle row d p Hd), fsum_app, fsum_cons in Hs. rewrite !fsum_zeros in Hs.
    + replace (fadd f0 (fadd p f0)) with p in Hs by ring. by rewrite Hs, fle_refl in Hp.
    + apply Forall_lookup. intros j x Hx. rewrite lookup_drop in Hx. apply (Hz (S d + j)); [done|lia].
    + apply Forall_lookup. intros j x [Hx Hj]%lookup_take_Some. apply (Hz j); [done|lia].
Qed.

Lemma recovered_possible padded row q d p : probabilities row -> length q = length row -> Forall (fun x => fle x f0 = false) q ->
  row !! d = Some p -> fle f1 p = false ->
  exists n x, recovered padded row q (Z.of_nat d) = Z.of_nat n /\ n <> d /\ row !! n = Some x /\ fle x f0 = false.
Proof.
  intros Hrow Hql Hq Hd Hp. destruct (another_possible row d p Hrow Hd Hp) as (j & y & Hjd & Hj & Hy). rewrite Forall_lookup in Hq.
  set (l := residual padded row q (Z.of_nat d)).
  assert (forall k x, l !! k = Some x -> (exists y z, row !! k = Some y /\ q !! k = Some z /\ x = fdiv (if (Z.of_nat k =? Z.of_nat d)%Z then f0 else y) z) \/ x = f0) as Hcell.
  { intros k x Hx. unfold l, residual in Hx. apply lookup_app_Some in Hx as [Hx|[_ [-> _]%lookup_replicate]]; [left|by right]. rewrite list_lookup_imap in Hx.
    destruct (zip row q !! k) as [[y' z]|] eqn:Hz; [|done]. injection Hx as <-. apply lookup_zip_with_Some in Hz as (? & ? & [= <- <-] & Hy' & Hz). eauto. }
  destruct (lookup_lt_is_Some_2 q j) as [z Hz]; [apply lookup_lt_Some in Hj; lia|].
  assert (l !! j = Some (fdiv y z)) as Hlj.
  { unfold l, residual. apply lookup_app_l_Some. rewrite list_lookup_imap. assert (zip row q !! j = Some (y, z)) as -> by (apply lookup_zip_with_Some; eauto 6). cbn.
    by rewrite (proj2 (Z.eqb_neq _ _)) by lia. }
  assert (l <> []) as Hne by (by intros E; rewrite E in Hlj). destruct (argmax_spec fle fle_refl fle_trans fle_total l Hne) as (n & v & Hn & Hv & Hmax & _).
  assert (fle v f0 = false) as Hvpos.
  { destruct (fle v f0) eqn:E; [|done]. rewrite <-(fdiv_pos y z (Hq _ _ Hz) Hy). symmetry. eapply fle_trans; [by eapply Hmax|done]. }
  exists n. destruct (Hcell n v Hv) as [(y' & z' & Hy' & Hz' & ->)| ->]; [|by rewrite fle_refl in Hvpos]. exists y'.
  unfold recovered. fold l. unfold argmax_of. rewrite Hn. split; [done|]. destruct (Z.eqb_spec (Z.of_nat n) (Z.of_nat d)) as [_|Hnd]; [by rewrite fdiv_zero, fle_refl in Hvpos by by apply (Hq n)|].
  split; [lia|]. split; [done|]. destruct (fle y' f0) eqn:E; [|done]. rewrite <-Hvpos. symmetry. rewrite <-(fdiv_zero z') by by apply (Hq n). apply fdiv_mono; [by apply (Hq n)|done].
Qed.

(** Uniform numbers strictly between 0 and 1. *)
Definition in_unit (u : F) : Prop := fle u f0 = false /\ fle f1 u = false.

Lemma random_verdicts_cons padded d drafts row rows u us (q : list F) : random_verdicts padded (d :: drafts) (row :: rows) (u :: us) q =
  (if negb (fle f1 f0) && fle u (fdiv (nth (Z.to_nat d) row f0) f1) then (d, false) else (recovered padded row q d, true)) :: random_verdicts padded drafts rows us q.
Proof. done. Qed.

Lemma random_speculated padded b q : Forall (fun x => fle x f0 = false) q -> forall drafts rows us,
  length drafts = length rows -> length drafts <= length us -> Forall in_unit us ->
  Forall (fun row => probabilities row /\ length q = length row) rows -> Forall2 (fun d row => 0 <= d < Z.of_nat (length row))%Z drafts rows ->
  speculated (suits false) drafts (map (map Some) rows) b (verified (random_verdicts padded drafts rows us q) b).
Proof.
  intros Hq. induction drafts as [|d drafts IH]; intros [|row rows] [|u us] Hl Hlu Hu Hr Hd; cbn in Hl, Hlu; try (done || lia); [constructor|constructor|].
  apply Forall_cons_1 in Hu as [[Hu0 Hu1] Hu]. apply Forall_cons_1 in Hr as [[Hp Hql] Hr]. apply Forall2_cons in Hd as [Hd Hds].
  destruct (lookup_lt_is_Some_2 row (Z.to_nat d)) as [p Hpd]; [lia|]. rewrite random_verdicts_cons, one_positive, (nth_lookup_Some _ _ _ _ Hpd), fdiv_one. cbn [negb andb].
  assert (forall n x, row !! n = Some x -> map Some row !! n = Some (Some x)) as Hmap by (intros n x Hx; change (map Some row) with (Some <$> row); by rewrite list_lookup_fmap, Hx).
  destruct (fle u p) eqn:E; cbn [verified map].
  - apply sp_accept; [|apply IH; done || lia]. exists (Z.to_nat d). split; [lia|]. exists p. split; [by apply Hmap|].
    destruct (fle p f0) eqn:E'; [|done]. rewrite <-Hu0. symmetry. by eapply fle_trans.
  - assert (fle f1 p = false) as Hp1.
    { destruct (fle f1 p) eqn:E'; [|done]. destruct (fle_total u f1) as [Hle|Hle]; [|congruence]. rewrite <-E. symmetry. by eapply fle_trans. }
    destruct (recovered_possible padded row q (Z.to_nat d) p Hp Hql Hq Hpd Hp1) as (n & x & Hrec & Hnd & Hn & Hx). rewrite Z2Nat.id in Hrec by lia. rewrite Hrec. apply sp_reject; [|lia].
    exists n. split; [done|]. exists x. split; [by apply Hmap|done].
Qed.
End suits.

(** * The rejection sampler *)

Lemma regroup {A} lens : forall flat : list A, length flat = sum_list lens -> exists ls, concat ls = flat /\ length <$> ls = lens.
Proof.
  induction lens as [|n lens IH]; intros flat Hl; cbn in Hl; [exists []; split; [by destruct flat|done]|].
  destruct (IH (drop n flat)) as (ls & Hc & Hls); [rewrite length_drop; unfold id in *; lia|]. exists (take n flat :: ls). cbn. rewrite Hc, take_drop, Hls. split; [done|].
  f_equal. rewrite length_take. unfold id in *. lia.
Qed.

Lemma regroup_lookup {A} (ls : list (list A)) lens i l j x : length <$> ls = lens -> ls !! i = Some l -> l !! j = Some x -> concat ls !! (row_start lens i + j) = Some x.
Proof. intros <-. apply concat_lookup. Qed.

Lemma per_token_forall {A} (Q : A -> Prop) lens (x : list A) : Forall Q x -> Forall Q (per_token lens x).
Proof.
  intros Hx. unfold per_token. revert x Hx. induction lens as [|n lens IH]; intros [|v x] Hx; try constructor. apply Forall_cons_1 in Hx as [Hv Hx]. cbn. apply Forall_app.
  split; [by apply Forall_replicate|by apply IH].
Qed.

Section speculation.
Context {F : Type} `{OrderedScalar F} `{!SampleOps F} `{!SampleLaws F} `{DeviceLaws}.
Context (vocab_size : nat) (ds : list (list Z)) (L : list (list (list (option F)))) (bonus : list Z) (sm : SamplingMetadata F).
Notation lens := (length <$> ds).
Notation cu := (NumpyArrays.cumsum (counts lens)).

(** Draft tokens of a batch, with the target logits at their places, none of them without a possible token. *)
Record drafted_ok : Prop := {
  so_some : concat ds <> [];
  so_rows : length <$> L = lens;
  so_logits : shaped (sum_list lens) vocab_size (concat L);
  so_possible : forall r row, concat L !! r = Some row -> exists x, Some x ∈ row;
  so_drafts : Forall (Forall (fun d => 0 <= d < Z.of_nat vocab_size)%Z) ds;
  so_spec : Forall (fun n => n <= MAX_SPEC_LEN) lens
}.
Definition bonus_ok : Prop := length bonus = length ds /\ Forall (fun t => 0 <= t < Z.of_nat vocab_size)%Z bonus.

Record request_params_ok : Prop := {
  rp_kind : sm_all_greedy sm && sm_all_random sm = false;
  rp_temperature : sm_all_greedy sm = false -> exists temp, sm_temperature sm = Some temp /\ length temp = length ds /\
    (sm_all_random sm = true -> Forall (fun t => feq t (fofZ GREEDY_TEMPERATURE) = false) temp);
  rp_top_k : forall k, sm_top_k sm = Some k -> length k = length ds /\ ks_ok vocab_size k;
  rp_top_p : forall p, sm_top_p sm = Some p -> length p = length ds
}.

(** The target rows: the logits if all requests are greedy, and else the probabilities of what the temperature and the filters leave. *)
Definition target_row (row trow : list (option F)) : Prop :=
  if sm_all_greedy sm then trow = row else exists row', trow = map Some (lsoftmax row') /\ narrowed row row'.

Lemma expand_opt_ok {A} (eqb : A -> A -> bool) (zero : A) (x : option (list A)) : (forall a b, eqb a b = true -> a = b) -> (forall l, x = Some l -> length l = length ds) -> Forall (fun n => n <= MAX_SPEC_LEN) lens ->
  expand_opt eqb zero x cu (sum_list lens) = Ok (per_token lens <$> x).
Proof.
  intros He Hl Hs. destruct x as [x|]; [|done]. unfold expand_opt. rewrite expand_ok by (done || (rewrite length_fmap; by apply Hl)). cbn. do 3 f_equal.
  transitivity (id <$> x); [|apply list_fmap_id]. apply list_fmap_ext. intros _ v _. destruct (eqb v zero) eqn:E; [|done]. symmetry. by apply He.
Qed.

Lemma feq_eq (a b : F) : feq a b = true -> a = b.
Proof. unfold feq. intros [H1' H2']%andb_true_iff. by apply fle_antisym. Qed.

Lemma compute_probs_ok : drafted_ok -> request_params_ok -> exists T, compute_probs vocab_size (concat L) cu sm = Ok (concat T) /\ length <$> T = lens /\
  width_is vocab_size (concat T) /\
  forall i rows trows j row trow, L !! i = Some rows -> T !! i = Some trows -> rows !! j = Some row -> trows !! j = Some trow -> target_row row trow.
Proof.
  intros Hd Hp. pose proof (so_logits Hd) as Hs. pose proof Hs as [Hll Hw]. unfold compute_probs, target_row. destruct (sm_all_greedy sm) eqn:Eg.
  { exists L. split; [done|]. split; [apply Hd|]. split; [exact Hw|]. intros i rows trows j row trow Hi Hi' Hj Hj'. congruence. }
  destruct (rp_temperature Hp Eg) as (temp & -> & Htl & _). rewrite Hll, expand_ok by (done || rewrite ?length_fmap; done || apply Hd). cbn [mbind outcome_bind].
  set (temp' := per_token lens _). assert (length temp' = sum_list lens) as Htl' by (unfold temp'; rewrite per_token_length; rewrite ?length_fmap; done).
  assert (rows_ok vocab_size (concat L)) as Hr by (intros r row Hrow; split; [by apply (Hw r)|by apply (so_possible Hd r)]).
  destruct (temperature_stage (sum_list lens) vocab_size (concat L) temp' Hs Hr Htl') as [S1 R1].
  rewrite (expand_opt_ok Z.eqb) by (apply Z.eqb_eq || apply Hd || (intros l Hl; by apply (rp_top_k Hp))). cbn [mbind outcome_bind].
  rewrite (expand_opt_ok feq) by (apply feq_eq || apply Hd || (intros l Hl; by apply (rp_top_p Hp))). cbn [mbind outcome_bind].
  assert (0 < sum_list lens) as Hpos by (rewrite <-length_concat_sum; pose proof (so_some Hd); destruct (concat ds); [done|cbn; lia]).
  destruct (top_k_top_p_stage (sum_list lens) vocab_size (per_token lens <$> sm_top_k sm) (per_token lens <$> sm_top_p sm) _ Hpos (sg_shaped _ _ _ _ S1) R1) as (res & Hres & S2 & R2).
  { intros k Hk. destruct (sm_top_k sm) as [k'|] eqn:Ek; [|done]. injection Hk as <-. destruct (rp_top_k Hp k' Ek). split; [rewrite per_token_length; rewrite ?length_fmap; done|by apply per_token_forall]. }
  { intros p Hpp. destruct (sm_top_p sm) as [p'|] eqn:Ep; [|done]. injection Hpp as <-. rewrite per_token_length; rewrite ?length_fmap; [done|by apply (rp_top_p Hp)]. }
  rewrite Hres. cbn [mbind outcome_bind]. pose proof (stage_trans _ _ _ _ _ S1 S2) as S3. pose proof (sg_shaped _ _ _ _ S3) as [Hrl Hrw].
  destruct (regroup lens res Hrl) as (R & HR & HRl). exists (map (map (fun row => map Some (lsoftmax row))) R). split; [|split; [|split]].
  - f_equal. rewrite <-HR. unfold as_probs. exact (fmap_concat (fun row => map Some (lsoftmax row)) R).
  - rewrite <-HRl. clear. induction R as [|rows R IH]; [done|]. cbn. by rewrite length_map, IH.
  - intros r row Hrow. assert (concat (map (map (fun row => map Some (lsoftmax row))) R) = (fun row => map Some (lsoftmax row)) <$> res) as E by (rewrite <-HR; symmetry; exact (fmap_concat (fun row => map Some (lsoftmax row)) R)).
    rewrite E, list_lookup_fmap in Hrow. destruct (res !! r) as [row'|] eqn:Hr'; [|done]. injection Hrow as <-. rewrite length_map, lsoftmax_length. by apply (Hrw r).
  - intros i rows trows j row trow Hi Hi' Hj Hj'. change (map (map (fun row => map Some (lsoftmax row))) R) with (list_fmap _ _ (map (fun row => map Some (lsoftmax row))) R) in Hi'.
    rewrite list_lookup_fmap in Hi'. destruct (R !! i) as [rrows|] eqn:HRi; [|done]. injection Hi' as <-.
    change (map (fun row => map Some (lsoftmax row)) rrows) with (list_fmap _ _ (fun row => map Some (lsoftmax row)) rrows) in Hj'. rewrite list_lookup_fmap in Hj'.
    destruct (rrows !! j) as [row'|] eqn:HRj; [|done]. injection Hj' as <-. exists row'. split; [done|].
    pose proof (regroup_lookup R lens i rrows j row' HRl HRi HRj) as Hflat. rewrite HR in Hflat. pose proof (regroup_lookup L lens i rows j row (so_rows Hd) Hi Hj) as HLflat.
    split; [by rewrite (Hrw _ _ Hflat), (Hw _ _ HLflat)|]. split; [|by apply (R2 _ _ Hflat)]. intros t Ht.
    destruct (sg_keeps _ _ _ _ S3 (row_start lens i + j) t) as (row'' & Hr'' & Ht''); [by exists row|]. rewrite Hflat in Hr''. by injection Hr'' as <-.
Qed.

Record draws_ok (d : RejectionDraws F) : Prop := {
  dk_uniform : length (rd_uniform d) = sum_list lens /\ Forall in_unit (rd_uniform d);
  dk_own_uniform : forall i n draw, lens !! i = Some n -> rd_own_uniform d !! i = Some draw -> length draw = n /\ Forall in_unit draw;
  dk_exponential : length (rd_exponential d) = length ds /\ Forall (drawn vocab_size) (rd_exponential d);
  dk_own_exponential : Forall (fun '(i, draw) => i < length ds /\ drawn vocab_size draw) (rd_own_exponential d)
}.

(** The temperature of a greedy request. *)
Definition greedy_requests : list bool :=
  if sm_all_greedy sm then replicate (length ds) true else (fun t => feq t (fofZ GREEDY_TEMPERATURE)) <$> default [] (sm_temperature sm).

Lemma greedy_requests_ok : request_params_ok -> greedy_flags ds sm greedy_requests.
Proof.
  intros Hp. unfold greedy_requests. split; [apply Hp|]. destruct (sm_all_greedy sm) eqn:Eg.
  - split; [apply length_replicate|]. by apply Forall_replicate.
  - destruct (rp_temperature Hp Eg) as (temp & -> & Hl & Hr). cbn. split; [by rewrite length_fmap|]. exists temp. split; [done|]. split; [done|]. intros Hrand.
    apply Forall_fmap. eapply Forall_impl; [by apply Hr|]. intros t Ht. by cbn; rewrite Ht.
Qed.

Lemma greedy_request_all i : sm_all_greedy sm = true -> i < length ds -> flag greedy_requests i = true.
Proof. intros Eg Hi. unfold greedy_requests. rewrite Eg. by apply flag_at, lookup_replicate_2. Qed.

(** The tokens of a request for its target rows. *)
Lemma tokens_speculated T u Q i drafts trows b : drafted_ok -> request_params_ok -> ds !! i = Some drafts -> T !! i = Some trows -> length trows = length drafts -> bonus !! i = Some b ->
  (forall j trow, trows !! j = Some trow -> length trow = vocab_size /\ exists row, (exists x, Some x ∈ row) /\ target_row row trow) ->
  length u = sum_list lens -> Forall in_unit u -> length Q = length ds -> Forall (drawn vocab_size) Q ->
  speculated (suits (flag greedy_requests i)) drafts trows b (tokens_of vocab_size ds T bonus greedy_requests u Q i drafts).
Proof.
  intros Hd Hp Hi HT Hl Hb Hrows Hul Hu HQl HQ. unfold tokens_of. rewrite (list_lookup_total_correct _ _ _ HT), (list_lookup_total_correct _ _ _ Hb).
  apply lookup_lt_Some in Hi as Hlt. destruct (lookup_lt_is_Some_2 Q i) as [q HQi]; [lia|]. rewrite (list_lookup_total_correct _ _ _ HQi).
  rewrite Forall_lookup in HQ. destruct (HQ i q HQi) as [Hql Hqpos]. destruct (flag greedy_requests i) eqn:Eg.
  - apply greedy_speculated; [done|]. apply Forall_lookup. intros j trow Hj. destruct (Hrows j trow Hj) as (_ & row & [x Hx] & Ht). unfold target_row in Ht.
    destruct (sm_all_greedy sm); [subst; eauto|]. destruct Ht as (row' & -> & _ & _ & y & Hy). apply list_elem_of_lookup in Hy as [k Hk]. pose proof (lsoftmax_lookup _ _ _ Hk) as Hs.
    eexists. apply list_elem_of_lookup. exists k. change (map Some (lsoftmax row')) with (Some <$> lsoftmax row'). by rewrite list_lookup_fmap, Hs.
  - assert (sm_all_greedy sm = false) as Ea by (destruct (sm_all_greedy sm) eqn:E; [|done]; pose proof (greedy_request_all i E Hlt); congruence).
    assert (forall j trow, trows !! j = Some trow -> exists row', trow = map Some (lsoftmax row') /\ length row' = vocab_size /\ exists y, Some y ∈ row') as Hsoft.
    { intros j trow Hj. destruct (Hrows j trow Hj) as (Hw & row & _ & Ht). unfold target_row in Ht. rewrite Ea in Ht. destruct Ht as (row' & -> & _ & _ & Hy). exists row'. split; [done|]. split; [|done].
      by rewrite length_map, lsoftmax_length in Hw. }
    assert (forall p : list F, map (default f0) (map Some p) = p) as Hdef by (intros p; rewrite map_map; cbn; apply map_id).
    assert (map (map Some) (map (map (default f0)) trows) = trows) as Hback.
    { rewrite map_map. transitivity (map (fun r => r) trows); [|apply map_id]. apply map_ext_in. intros trow Hin%list_elem_of_In. apply list_elem_of_lookup in Hin as [j Hj].
      destruct (Hsoft j trow Hj) as (row' & -> & _). by rewrite Hdef. }
    rewrite <-Hback at 1. assert (forall j prow, map (map (default f0)) trows !! j = Some prow -> exists row', prow = lsoftmax row' /\ length row' = vocab_size /\ exists y, Some y ∈ row') as Hprow.
    { intros j prow Hj. change (map (map (default f0)) trows) with (list_fmap _ _ (map (default f0)) trows) in Hj. rewrite list_lookup_fmap in Hj.
      destruct (trows !! j) as [trow|] eqn:Htj; [|done]. injection Hj as <-. destruct (Hsoft j trow Htj) as (row' & -> & Hw & Hy). exists row'. by rewrite Hdef. }
    apply random_speculated; [done|by rewrite length_map| | | |].
    + rewrite length_drop, Hul. assert (lens !! i = Some (length drafts)) as Hn by (by rewrite list_lookup_fmap, Hi).
      enough (row_start lens i + length drafts <= sum_list lens) by lia. rewrite <-(row_start_S _ _ _ Hn). unfold row_start. rewrite <-(take_drop (S i) lens) at 2. rewrite sum_list_with_app. lia.
    + by apply Forall_drop.
    + apply Forall_lookup. intros j prow Hj. destruct (Hprow j prow Hj) as (row' & -> & Hw & y & Hy). rewrite lsoftmax_length, Hw. split; [|done]. split; [by eapply lsoftmax_nonneg|by eapply lsoftmax_sum].
    + apply Forall2_same_length_lookup. split; [by rewrite length_map|]. intros j t prow Hj Hpj. destruct (Hprow j prow Hpj) as (row' & -> & Hw & _). rewrite lsoftmax_length, Hw.
      pose proof (so_drafts Hd) as Hdr. rewrite Forall_lookup in Hdr. pose proof (Hdr i drafts Hi) as Hdi. rewrite Forall_lookup in Hdi. by apply (Hdi j).
Qed.

(** Tokens are of the vocabulary. *)
Lemma fits_range g trow t : length trow = vocab_size -> suits g trow t -> (0 <= t < Z.of_nat vocab_size)%Z.
Proof. intros <- (n & -> & Hn). destruct g; [destruct Hn as (x & Hx & _)|destruct Hn as (x & Hx & _)]; apply lookup_lt_Some in Hx; lia. Qed.
End speculation.

(** ** Parsing the output *)

Lemma rows_of_concat w (rows : list (list Z)) : width_is w rows -> rows_of w (length rows) (concat rows) = rows.
Proof.
  intros Hw. apply list_eq. intros i. unfold rows_of. rewrite list_lookup_fmap. destruct (decide (i < length rows)) as [Hi|Hi].
  - rewrite lookup_seq_lt by done. destruct (lookup_lt_is_Some_2 rows i Hi) as [row Hrow]. rewrite Hrow. cbn. f_equal. pose proof (Hw i row Hrow) as Hl.
    apply list_eq. intros j. destruct (decide (j < w)) as [Hj|Hj]; [|by rewrite !lookup_ge_None_2 by (rewrite ?length_take; lia)].
    rewrite lookup_take_lt, lookup_drop by done. destruct (lookup_lt_is_Some_2 row j) as [x Hx]; [lia|]. rewrite Hx. by eapply concat_cell.
  - by rewrite !lookup_ge_None_2 by (rewrite ?length_seq; lia).
Qed.

Lemma parse_row w vocab_size (ts : list Z) : Forall (fun t => 0 <= t < Z.of_nat vocab_size)%Z ts ->
  filter (fun t => t <> PLACEHOLDER_TOKEN_ID /\ (t < Z.of_nat vocab_size)%Z) (overlay ts (replicate w PLACEHOLDER_TOKEN_ID)) = ts.
Proof.
  intros Hts. unfold overlay. rewrite drop_replicate, filter_app, filter_all.
  - enough (forall k, filter (fun t => t <> PLACEHOLDER_TOKEN_ID /\ (t < Z.of_nat vocab_size)%Z) (replicate k PLACEHOLDER_TOKEN_ID) = []) as -> by apply app_nil_r.
    induction k as [|k IH]; [done|]. cbn [replicate]. rewrite filter_cons_False; [done|]. by intros [? _].
  - rewrite Forall_forall in Hts. intros t Ht. pose proof (Hts t Ht). unfold PLACEHOLDER_TOKEN_ID. lia.
Qed.

Lemma python_max_ok ns : ns <> [] -> exists m, python_max (counts ns) = Ok (Z.of_nat m) /\ Forall (fun n => n <= m) ns /\ forall k, Forall (fun n => n <= k) ns -> m <= k.
Proof.
  intros Hne. destruct ns as [|n ns]; [done|]. cbn [fmap list_fmap python_max].
  assert (forall (l : list nat) (a : nat), exists m, foldl Z.max (Z.of_nat a) (counts l) = Z.of_nat m /\ a <= m /\ Forall (fun n => n <= m) l /\ forall k, a <= k -> Forall (fun n => n <= k) l -> m <= k) as Hfold.
  { induction l as [|x l IH]; intros a; [exists a; cbn; auto|]. cbn. rewrite <-Nat2Z.inj_max. destruct (IH (Nat.max a x)) as (m & -> & H1' & H2' & H3'). exists m. split; [done|]. split; [lia|].
    split; [constructor; [lia|done]|]. intros k Hak [Hx Hl]%Forall_cons_1. apply H3'; [lia|done]. }
  destruct (Hfold ns n) as (m & -> & H1' & H2' & H3'). exists m. split; [done|]. split; [by constructor|]. intros k [Hn Hk]%Forall_cons_1. by apply H3'.
Qed.

Section soundness.
Context {F : Type} `{OrderedScalar F} `{!SampleOps F} `{!SampleLaws F} `{DeviceLaws}.
Context (vocab_size : nat) (ds : list (list Z)) (L : list (list (list (option F)))) (bonus : list Z) (sm : SamplingMetadata F).
Notation lens := (length <$> ds).
Notation cu := (NumpyArrays.cumsum (counts lens)).

(** The rejection sampler.  For draft tokens of a batch (up to 32 for a request), in whatever order the programs of its kernels run: nothing
    raises and no load is out of bounds; every request gets, parsed from the output, the draft tokens that were accepted and then one
    token more, the bonus token only when all were accepted, and otherwise another token than the draft.  Every token but the bonus
    suits the target row of its place: the first of its largest entries for a greedy request, for another one a token with a positive
    probability; and these rows are the logits if all requests are greedy, and else the softmax of what the filters leave of the logits. *)
Lemma rejection_forward_sound targets bonuses indices (d : RejectionDraws F) : drafted_ok vocab_size ds L -> bonus_ok vocab_size ds bonus -> request_params_ok vocab_size ds sm -> draws_ok vocab_size ds d ->
  exists T m out, compute_probs vocab_size (concat L) cu sm = Ok (concat T) /\ length <$> T = lens /\
    (forall i rows trows j row trow, L !! i = Some rows -> T !! i = Some trows -> rows !! j = Some row -> trows !! j = Some trow -> target_row sm row trow) /\
    python_max (counts lens) = Ok (Z.of_nat m) /\
    rejection_forward vocab_size (mkSpecMeta (concat ds) (counts lens) cu targets bonuses indices) None (concat L) bonus sm d = Ok out /\
    forall i drafts trows b, ds !! i = Some drafts -> T !! i = Some trows -> bonus !! i = Some b ->
      exists ts, parse_output (rows_of (m + 1) (length ds) out) vocab_size !! i = Some ts /\ speculated (suits (flag (greedy_requests ds sm) i)) drafts trows b ts.
Proof.
  intros Hd [Hbl Hbt] Hp Hk. destruct (compute_probs_ok vocab_size ds L sm Hd Hp) as (T & HT & HTl & HTw & Hrel).
  assert (ds <> []) as Hne by (pose proof (so_some _ _ _ Hd); by intros ->).
  destruct (python_max_ok lens) as (m & Hm & Hmax & Hleast); [by destruct ds|].
  assert (0 < vocab_size) as Hv.
  { pose proof (so_some _ _ _ Hd) as Hs. pose proof (so_logits _ _ _ Hd) as [Hl Hw]. destruct (lookup_lt_is_Some_2 (concat L) 0) as [row Hrow].
    - rewrite Hl, <-length_concat_sum. destruct (concat ds); [done|cbn; lia].
    - destruct (so_possible _ _ _ Hd 0 row Hrow) as [x Hx]. rewrite <-(Hw 0 row Hrow). destruct row; [by apply elem_of_nil in Hx|cbn; lia]. }
  assert (batch_ok vocab_size m ds T bonus) as Hb by (split; [done|done|apply Hd|done|done|done]).
  destruct (uniform_ok in_unit (rd_own_uniform d) lens (rd_uniform d) 0 0) as (u & Hu & Hul & Hunit).
  { rewrite (proj1 (dk_uniform _ _ _ Hk)). lia. } { apply (dk_uniform _ _ _ Hk). } { intros j n draw Hj Hg. by eapply (dk_own_uniform _ _ _ Hk). }
  rewrite (proj1 (dk_uniform _ _ _ Hk)) in Hul. assert (length (counts lens) = length ds) as Hcl by by rewrite !length_fmap.
  destruct (own_exponential_ok vocab_size (counts lens) (rd_own_exponential d) (rd_exponential d)) as (Q & HQ & HQl & HQd).
  { rewrite Hcl. apply (dk_exponential _ _ _ Hk). } { apply (dk_exponential _ _ _ Hk). } { rewrite Hcl. apply (dk_own_exponential _ _ _ Hk). }
  rewrite Hcl in HQl. assert (width_is vocab_size Q) as HQw by (intros r row Hr; rewrite Forall_lookup in HQd; by apply (HQd r row Hr)).
  pose proof (greedy_requests_ok vocab_size ds sm Hp) as Hg.
  pose proof (rejection_sample_run vocab_size m ds T bonus Hb d u Q Hu HQ Hul HQl HQw sm _ Hg) as Hrun.
  exists T, m. eexists. split; [exact HT|]. split; [done|]. split; [exact Hrel|]. split; [exact Hm|]. split.
  - unfold rejection_forward. cbn [num_draft_tokens cu_num_draft_tokens draft_token_ids]. rewrite Hm. cbn [mbind outcome_bind].
    assert (m <= MAX_SPEC_LEN) by (apply Hleast, Hd). rewrite (proj2 (Z.leb_le _ _)) by lia. cbn [assert_ mbind outcome_bind]. rewrite HT. cbn [mbind outcome_bind].
    rewrite Nat2Z.id. exact Hrun.
  - intros i drafts trows b Hi HTi Hbi. pose proof (out_rows_width vocab_size m ds T bonus Hb (fun _ => true) (greedy_requests ds sm) u Q) as Hw.
    assert (length (out_rows vocab_size m ds T bonus (fun _ => true) (greedy_requests ds sm) u Q) = length ds) as Hol by apply length_imap.
    pose proof (rows_of_concat (m + 1) _ Hw) as Hrows. rewrite Hol in Hrows. rewrite Hrows. clear Hrows.
    destruct (target_rows_at vocab_size m ds T bonus Hb i drafts Hi) as (trows' & HTi' & Htl & Htrows). rewrite HTi in HTi'. injection HTi' as <-.
    assert (exists rows, L !! i = Some rows /\ length rows = length drafts) as (rows & HLi & Hrl).
    { pose proof (so_rows _ _ _ Hd) as Hl. assert (lens !! i = Some (length drafts)) as Hn by (by rewrite list_lookup_fmap, Hi). rewrite <-Hl, list_lookup_fmap in Hn.
      destruct (L !! i) as [rows|]; [|done]. injection Hn as Hn. eauto. }
    assert (speculated (suits (flag (greedy_requests ds sm) i)) drafts trows b (tokens_of vocab_size ds T bonus (greedy_requests ds sm) u Q i drafts)) as Hsp.
    { apply (tokens_speculated vocab_size ds L bonus sm); try done. intros j trow Hj. destruct (Htrows j trow Hj) as [Htw _]. split; [done|].
      destruct (lookup_lt_is_Some_2 rows j) as [row Hrow]; [rewrite Hrl, <-Htl; by eapply lookup_lt_Some|]. exists row. split; [|by eapply Hrel].
      apply (so_possible _ _ _ Hd (row_start lens i + j)). by eapply regroup_lookup; [apply Hd| |]. }
    eexists. split; [|exact Hsp]. unfold parse_output. rewrite list_lookup_fmap. unfold out_rows. rewrite list_lookup_imap, Hi. cbn [fmap option_fmap option_map]. f_equal.
    apply parse_row. apply (speculated_all _ _ _ _ _ _ Hsp).
    + intros trow t [j Hj]%list_elem_of_lookup Hf. eapply fits_range; [by apply (Htrows j trow Hj)|exact Hf].
    + rewrite Forall_lookup in Hbt. by apply (Hbt i).
Qed.
End soundness.

(** * The step with draft tokens *)

Lemma take_bonus {A} (L : list (list A)) (B : list A) : length L = length B ->
  take_at (concat (zip_with (fun rows b => rows ++ [b]) L B)) (Z.pred <$> NumpyArrays.cumsum (counts (S <$> (length <$> L)))) = Ok B.
Proof.
  intros Hl. set (G := zip_with (fun rows b => rows ++ [b]) L B). assert (length <$> G = S <$> (length <$> L)) as HG.
  { apply list_eq. intros i. unfold G. rewrite !list_lookup_fmap, lookup_zip_with. destruct (L !! i) as [rows|] eqn:Hi; [|done].
    destruct (lookup_lt_is_Some_2 B i) as [b Hb]; [rewrite <-Hl; by eapply lookup_lt_Some|]. rewrite Hb. cbn. by rewrite length_app, Nat.add_1_r. }
  apply take_at_forall2, Forall2_fmap_l, Forall2_same_length_lookup. split; [by rewrite run_cumsum_length, !length_fmap|]. intros i z b Hz Hb.
  destruct (lookup_lt_is_Some_2 L i) as [rows Hi]; [rewrite Hl; by eapply lookup_lt_Some|].
  rewrite run_cumsum_lookup in Hz by (rewrite !length_fmap, Hl; by eapply lookup_lt_Some). injection Hz as <-.
  assert ((S <$> (length <$> L)) !! i = Some (S (length rows))) as Hn by (by rewrite !list_lookup_fmap, Hi). rewrite (row_start_S _ _ _ Hn).
  apply index_at_ok; [lia|]. replace (Z.to_nat (Z.pred (Z.of_nat (row_start (S <$> (length <$> L)) i + S (length rows))))) with (row_start (S <$> (length <$> L)) i + length rows) by lia.
  rewrite <-HG. apply (concat_lookup G i (rows ++ [b])).
  - unfold G. by rewrite lookup_zip_with, Hi, Hb.
  - by rewrite lookup_app_r, Nat.sub_diag by lia.
Qed.

Lemma take_targets_of {A} (L : list (list A)) (B : list A) : length L = length B ->
  take_at (concat (zip_with (fun rows b => rows ++ [b]) L B)) (target_rows (length <$> L)) = Ok (concat L).
Proof.
  intros Hl. set (G := zip_with (fun rows b => rows ++ [b]) L B). pose proof (take_targets (length <$> L) G 0) as Ht.
  assert ((fun z => (z + Z.of_nat 0)%Z) <$> target_rows (length <$> L) = target_rows (length <$> L)) as E.
  { rewrite <-(list_fmap_id (target_rows (length <$> L))) at 2. apply list_fmap_ext. intros _ z _. cbn. unfold id. lia. }
  rewrite E in Ht. rewrite Ht; [|apply list_eq; intros i|lia].
  - f_equal. f_equal. apply list_eq. intros i. unfold G. rewrite !lookup_zip_with, list_lookup_fmap. destruct (L !! i) as [rows|] eqn:Hi; [|done].
    destruct (lookup_lt_is_Some_2 B i) as [b Hb]; [rewrite <-Hl; by eapply lookup_lt_Some|]. rewrite Hb. cbn. f_equal. by rewrite drop_0, take_app_length.
  - unfold G. rewrite !list_lookup_fmap, lookup_zip_with. destruct (L !! i) as [rows|] eqn:Hi; [|done].
    destruct (lookup_lt_is_Some_2 B i) as [b Hb]; [rewrite <-Hl; by eapply lookup_lt_Some|]. rewrite Hb. cbn. by rewrite length_app, Nat.add_1_r.
Qed.

Section step.
Context {F : Type} `{OrderedScalar F} `{!SampleOps F} `{!SampleLaws F} `{DeviceLaws}.
Context (of_float : Q -> F) (vocab_size : nat) (ds : list (list Z)) (sm : SamplingMetadata F).
Notation lens := (length <$> ds).
Notation cu := (NumpyArrays.cumsum (counts lens)).
Context (empty batch : list (list F)).
Hypothesis empty_rows : length empty = length ds.
Hypothesis batch_rows : length batch = length ds.
Hypothesis batch_drawn : Forall (drawn vocab_size) batch.

End step.

(** * Examples *)

Module SpeculationCases.
#[local] Existing Instances qc_scalar qc_exact qc_ordered qc_sample_ops qc_sample_laws.

(** A device that runs one program after the other and whose memory starts with equal cells. *)
#[local] Instance sequential : Device := { new_empty A x n := replicate n x; schedule A ps := concat ps }.
#[local] Instance sequential_laws : DeviceLaws.
Proof.
  split.
  - intros A x n. apply length_replicate.
  - intros A ps. pose proof (runs_in_order (seq 0 (length ps)) ps) as Hr. cbn. assert ((fun i => ps !!! i) <$> seq 0 (length ps) = ps) as E.
    { apply list_eq. intros i. rewrite list_lookup_fmap. destruct (decide (i < length ps)) as [Hi|Hi].
      - rewrite lookup_seq_lt by done. cbn. symmetry. by apply list_lookup_lookup_total_lt.
      - by rewrite !lookup_ge_None_2 by (rewrite ?length_seq; lia). }
    rewrite E in Hr. apply Hr; [apply NoDup_seq| |].
    + intros i p Hp Hn. exfalso. apply Hn, elem_of_seq. apply lookup_lt_Some in Hp. lia.
    + intros i Hi%elem_of_seq. lia.
Qed.

Definition num (z : Z) : Qc := fofZ z.
Definition half : Qc := fdiv (num 1) (num 2).

(** A greedy request with two draft tokens and a random one with one. *)
Definition drafts : list (list Z) := [[3; 1]; [2]]%Z.
Definition target_logits : list (list (list (option Qc))) :=
  [[[Some (num 0); Some (num 1); None; Some (num 4)]; [Some (num 5); Some (num 1); None; Some (num 4)]];
   [[Some (num 3); None; Some (num (-2)); Some (num 1)]]].
Definition mixed : SamplingMetadata Qc :=
  {| sm_temperature := Some [num (-1); num 1]; sm_all_greedy := false; sm_all_random := false; sm_top_p := None; sm_top_k := Some [4; 3]%Z;
     sm_generators := []; sm_no_penalties := true; sm_prompt_token_ids := None; sm_frequency_penalties := []; sm_presence_penalties := [];
     sm_repetition_penalties := []; sm_output_token_ids := [[]; []]; sm_allowed_token_ids_mask := None; sm_bad_words_token_ids := [];
     sm_logitsprocs := mkProcs (mkMinTokens ∅ []) (mkLogitBias ∅ [] []) (mkMinP 0 [0%Q; 0%Q] false [0%Q; 0%Q] 2) |}.
Definition draws : RejectionDraws Qc := mkDraws [half; half; half] {[1 := [half]]} (replicate 2 [num 1; num 1; num 2; num 1]) [(1, [num 1; num 1; num 1; num 3])].

Lemma mixed_drafted : drafted_ok 4 drafts target_logits.
Proof.
  split; try done.
  - split; [done|]. intros [|[|[|r]]] row Hrow; [by injection Hrow as <-..|done].
  - intros [|[|[|r]]] row Hrow; [injection Hrow as <-..|done]; eexists; by left.
  - repeat constructor; lia.
  - repeat constructor; unfold MAX_SPEC_LEN; cbn; lia.
Qed.

Lemma mixed_params : request_params_ok 4 drafts mixed.
Proof.
  split; try done.
  - intros _. exists [num (-1); num 1]. done.
  - intros ? [= <-]. split; [done|]. repeat constructor; lia.
Qed.

Lemma unit_row l : forallb (fun u : Qc => negb (fle u f0) && negb (fle f1 u)) l = true -> Forall in_unit l.
Proof. rewrite forallb_forall, Forall_forall. intros Hl x Hx. apply list_elem_of_In in Hx. specialize (Hl x Hx). by apply andb_true_iff in Hl as [?%negb_true_iff ?%negb_true_iff]. Qed.

Lemma draws_fit : draws_ok 4 drafts draws.
Proof.
  split.
  - split; [done|]. by apply unit_row.
  - intros [|[|i]] n draw Hn Hg; [done| |done]. injection Hn as <-. injection Hg as <-. split; [done|]. by apply unit_row.
  - split; [done|]. repeat constructor; by apply SamplerCases.positive_row.
  - constructor; [|constructor]. split; [cbn; lia|]. split; [done|]. by apply SamplerCases.positive_row.
Qed.

Lemma mixed_metadata : metadata_ok Q2Qc 2 4 mixed.
Proof.
  assert (stop_cells ∅ = []) as Hstop by reflexivity. assert (bias_cells ∅ = []) as Hbias by reflexivity. split.
  - done.
  - cbn. exists [num (-1); num 1]. done.
  - intros ? [= <-]. split; [done|]. repeat constructor; lia.
  - done.
  - apply Forall_nil_2.
  - apply NoDup_nil_2.
  - done.
  - apply Forall_nil_2.
  - split; [done|]. repeat constructor.
  - done.
  - exact (eq_sym Hstop).
  - cbn. rewrite Hstop. by intros i t ?%elem_of_nil.
  - split; cbn; by rewrite Hbias.
  - cbn. rewrite Hbias. by intros c ?%elem_of_nil.
  - done.
Qed.

Definition bonus_logits : list (list (option Qc)) := [[Some (num 0); Some (num 1); Some (num 7); None]; [Some (num 2); Some (num 1); None; None]].
Definition step_logits : list (list (option Qc)) := concat (zip_with (fun rows b => rows ++ [b]) target_logits bonus_logits).
Definition step_metadata : SpecDecodeMetadata := mkSpecMeta (concat drafts) [2; 1]%Z [2; 3]%Z [0; 1; 3]%Z [2; 4]%Z [0; 1; 2; 3; 4]%Z.
Definition exponentials : list (list Qc) := replicate 2 [num 1; num 1; num 2; num 1].


(** The greedy request has its first draft accepted and the second replaced; the random one's draft is rejected. *)
Example mixed_tokens : match sample_with_drafts Q2Qc 4 [[]; []] exponentials step_metadata step_logits mixed draws with
  Ok outs => parse_output outs 4 = [[3; 0]; [0]]%Z | Raise _ => False end.
Proof. by vm_compute. Qed.

(** Target logits are not processed: a greedy request for which token 3 is a bad word gets it in the place of a draft token, where
    without speculation the sampler would not return it. *)
Definition banned_three : SamplingMetadata Qc :=
  {| sm_temperature := None; sm_all_greedy := true; sm_all_random := false; sm_top_p := None; sm_top_k := None;
     sm_generators := []; sm_no_penalties := true; sm_prompt_token_ids := None; sm_frequency_penalties := []; sm_presence_penalties := [];
     sm_repetition_penalties := []; sm_output_token_ids := [[0%Z]]; sm_allowed_token_ids_mask := None; sm_bad_words_token_ids := [(0, [[3%Z]])];
     sm_logitsprocs := mkProcs (mkMinTokens ∅ []) (mkLogitBias ∅ [] []) (mkMinP 0 [0%Q] false [0%Q] 1) |}.
Definition three_best : list (list (option Qc)) := replicate 2 [Some (num 0); Some (num 1); Some (num 0); Some (num 4)].

Lemma speculation_ignores_bad_words :
  sample_with_drafts Q2Qc 4 [[]] [[]] (mkSpecMeta [3]%Z [1]%Z [1]%Z [0]%Z [1]%Z [0; 1]%Z) three_best banned_three draws = Ok [[3; 1]%Z] /\
  forbidden 4 banned_three 0 3 /\ sampler_forward Q2Qc 4 [[]] [[]] banned_three (take 1 three_best) = Ok [1].
Proof.
  split; [by vm_compute|]. split; [|by vm_compute]. apply (bad_word _ _ _ _ [[3%Z]] [0%Z]); [by left|done|lia|]. unfold completes. left. by exists [0%Z].
Qed.
End SpeculationCases.
